(* ===== verification/_CoqProject ===== *)
-Q . S2P
Prelude.v
GoStd.v
GoTime.v
External.v
GoText.v
GoNet.v
Json.v
Dto.v
Sha256.v
JobTask.v
Samples.v
JsonPrint.v
JsonRound.v
JobTaskProofs.v
TextRound.v
TimeRound.v
TaskRound.v
TaskSize.v
JobProcessor.v
JobProcessorProofs.v
JobConsumer.v
JobConsumerProofs.v
JobReplay.v
JobReplayProofs.v
CometValidation.v
CometHub.v
CometHubProofs.v
CometRpc.v
CometRpcProofs.v
CometInstance.v
CometInstanceProofs.v
JobComet.v
RoutingStore.v
RoutingStoreProofs.v
KafkaPush.v
MessageStore.v
MessageStoreProofs.v
LogicDispatch.v
LogicDispatchProofs.v
LogicService.v
LogicServiceProofs.v
CometFrames.v
CometFramesProofs.v
CometHandler.v
CometHandlerProofs.v
CometWriter.v
CometWriterProofs.v
LogicToComet.v
Tables.v
GormService.v
TablesProofs.v
Directory.v
GroupProofs.v
GroupService.v
GroupExact.v
GroupGuarantees.v
GroupToStore.v
AccountsProofs.v
AiService.v
AiSearch.v
AiAccess.v
AiPaging.v
JobApp.v
JobRuntime.v
JobRuntimeProofs.v
JobNetwork.v
JobAppProofs.v
ChatServer.v
ChatServerProofs.v
ChatMessages.v
Schema.v
SchemaProofs.v
HttpApi.v
HttpApiProofs.v
Mcp.v
LogicHttp.v
Configs.v
ConfigsProofs.v
Runtimes.v
RuntimesProofs.v
