(* ===== verification/Prelude.v ===== *)
(** * A verification of the messaging core of fable

    Fable is a chat server of three kinds of processes.  A _Comet_ keeps the WebSocket
    connections of users; _Logic_ authenticates them, stores messages and keeps the leases of
    Comets and the routes of users in Redis; a _Job_ takes the tasks Logic published to Kafka
    and delivers them to the Comets that hold the recipients' connections.  This development
    models these processes after the Go code under [src/internal] and proves what each
    component promises, and that the components fit together.

    ** The path of a message

<<
      socket --> CometHandler --> LogicService --> MessageStore
                     |                 |--> RoutingStore (routes, leases)
                     |                 '--> LogicDispatch --> KafkaPush
                     |                                           |  text of a task
                 CometHub                                        v
                     |                                      JobConsumer --> JobTask
                     v                                           |
      socket <-- CometWriter <-- CometHub <-- CometRpc <-- JobProcessor
>>

    ** Files

    Foundations.
    - [Prelude]: results, list lemmas, a monad of effects with its rule [wp], the rewrite
      bases [guards] and [wp], tactics.
    - [GoStd], [GoTime], [GoNet], [Json], [Sha256]: the parts of Go's library the program
      uses, written out: UTF-8, integers, Base64, instants and RFC 3339, IP addresses, JSON,
      SHA-256.  [GoText]: lemmas on them.
    - [External]: code that is not in the repository ([uuid.Parse], protobuf instants, the
      Unicode table), a class the definitions take as a parameter, its documented laws, and
      one concrete instance for the witnesses.
    - [Dto]: the wire types of [internal/dto] and [api/proto].  [Samples]: concrete inputs.

    Job.
    - [JobTask] ([job/task.go]): [DecodeTask] with its checks of the text; [JobTaskProofs].
    - [JobProcessor] ([job/processor.go], [job/routing.go]): [Process] with its rounds,
      batches, waits and all checks of answers; [JobProcessorProofs].
    - [JobConsumer] ([job/consumer.go]): the loop over a partition, acknowledgements, dead
      letters, counters, the ring of recent identities; [JobConsumerProofs].
    - [JobReplay] ([job/replay.go], [job/app/replay.go]); [JobReplayProofs].
    - [JobApp] ([job/app]): configuration, progress of partitions, probes, the pool of clients,
      the sink and the source of records; [JobNetwork] the sockets; [JobAppProofs].
    - [JobRuntime] ([job/app/runtime.go], [runConsumer]): the goroutines of the process as a
      transition system driven by labels; [JobRuntimeProofs].

    Comet.
    - [CometValidation] ([comet/validation.go]).
    - [CometHub] ([comet/hub.go]): a command of the owner loop is a function on the hub, the
      relation [step] is the choice of the next command; [CometHubProofs].
    - [CometRpc] ([comet/rpc.go]): the handlers behind gRPC; [CometRpcProofs].
    - [CometInstance] ([comet/instance.go]): the lease of the process; its proofs.
    - [CometFrames] ([comet/websocket.go]), [CometHandler] ([comet/handler.go]): the
      handshake, the reader and the heartbeat of a socket; their proofs.
    - [CometWriter] ([comet/websocket.go], [WriteTo]); [CometWriterProofs].

    Logic.
    - [RoutingStore] ([logic/routing]): the Lua script as a function on the key space, and the
      Go methods around it; [RoutingStoreProofs].
    - [MessageStore] ([logic/messagestore]): transactions whose queries and commits may fail;
      [MessageStoreProofs].
    - [KafkaPush] ([logic/kafkapush/publisher.go]) with its proofs.
    - [LogicDispatch] ([logic/dispatch.go], counters of [logic/observability.go]);
      [LogicDispatchProofs].
    - [LogicService] ([logic/service.go], [logic/transport.go], [auth/jwt.go]): the handlers of
      the internal RPC and the workers that kick replaced connections; [LogicServiceProofs].
    - [LogicHttp] ([logic/http.go], [logic/observability.go]): the synchronisation endpoint, the
      backend of the send tool, the probes, the interceptor with its counters; with its proofs.

    Business services.
    - [Tables] ([model], [service/redisservice]): rows with their unique keys, statements that
      may fail, transactions, the commands of the cache; [TablesProofs] is its program logic:
      what a program keeps, what a transaction does, how a program runs undisturbed.
    - [GormService] ([service/gormservice]): accounts, contacts, sessions, messages, groups.
    - [Directory]: what the groups mean, an abstract machine.  [GroupProofs], [GroupService]:
      the transactions implement it; [GroupExact], [GroupGuarantees]: the answers, and the
      theorems.  [AccountsProofs]: registration and login.
    - [AiService] ([service/aiservice]): what the assistant may see of the sessions of a user;
      [AiSearch] (sorted rows, SQL patterns), [AiAccess], [AiPaging] are its theorems.
    - [ChatServer] ([service/chatservice], [service/kafkaservice], [cmd/my_chat_server]): the
      owner loop of the chat server and its clients as a transition system, the handling of a
      message, and events through Kafka; [ChatServerProofs], [ChatMessages].

    Endpoints.
    - [HttpApi] ([api/v1], [https_server], [auth]): every controller as a program on the store,
      the Bearer middleware and the catalog of routes with its request and response types;
      [HttpApiProofs].
    - [Schema] ([httpdocs]): the JSON schema of a Go type and the whole OpenAPI document of a
      catalog.  What it computes for the routes of Logic is [api/openapi/http.json], member by
      member; [SchemaProofs]: the schemas describe what [encoding/json] writes.
    - [Mcp] ([mcpserver]): the four tools, the bound backend and the verifier of tokens.

    Processes.
    - [Configs] ([config], [logic/app/config.go], [comet/app/config.go]): the loaders with every
      check, and what the applications hand to their parts; [ConfigsProofs].
    - [Runtimes]: [CometRun] and [LogicRun] ([app/runtime.go] of the two) are transition systems
      over the same model of two servers; [LogicDatabase] ([logic/app/database.go]) is the check
      of the schema over the rows of the catalog, [CometPool] ([logic/transport.go]) the clients
      of the workers, [ChatRun] ([cmd/my_chat_server], [dao]) what the chat server opens and
      closes; [RuntimesProofs].

    Across components.
    - [JsonPrint], [JsonRound], [TextRound], [TimeRound], [TaskRound], [TaskSize]: what
      [json.Marshal] prints for a task is what [DecodeTask] reads, within the size limits.
    - [JobComet]: the requests of Job pass the checks of Comet, and the answers those of Job.
    - [LogicDispatchProofs], [LogicServiceProofs]: what Logic publishes and answers passes the
      checks of Job and of Comet.  [LogicToComet]: the stored message is what readers get.
    - [GroupToStore]: the message store authorises whom the group operations made members.

    ** How effects are modelled

    A component that talks to clocks, networks, databases or other goroutines is a program in
    a state monad over a world [W] with an environment: a record of operations that may answer
    anything, every time differently.  Theorems quantify over [W] and the environment, so they
    hold whatever the dependencies do.  What a component does is recorded in a trace, in
    order, and its safety theorems are about that trace.  State that the code shares between
    goroutines (the hub, the key space of Redis) is explicit; where others can change it
    between two looks of a component, the environment moves it by the transitions of the
    component that owns it.  Locks held for the whole of an operation make it one step.  A
    transaction of the business database is one step on the tables, as the rows it decides on are
    locked, but for [JoinGroup]: what it reads without a lock, the pending applications, is read
    in the snapshot that its first query took, and others may move the tables in between.

    ** Groups of theorems

    - Delivery: what [Process] reports is backed by answers, its calls are allowed and never
      name a confirmed user again; the consumer commits only what was served or written to the
      dead letters.  A record is decoded exactly when it is well formed, to what it says.
    - Storage: a message is saved once, by an authorised sender; cursors page through all of a
      conversation.
    - Leases: fences between boots of an instance and between connections of a user, at the
      store, at the Logic service and at the socket.
    - Connections: the hub keeps its tables and queues consistent in every interleaving; a
      socket opens, submits and closes in the order the protocol demands; the writer loses
      and repeats nothing; the heartbeat and the renewal keep their deadlines.
    - Groups and accounts: the tables always represent a directory of groups, an answered
      request did its step of it or nothing, as its answer tells; two joins that overlap can leave
      two applications, which the directory holds as a multiset.  Who registered logs in, with
      the passwords bcrypt accepts.
    - Agreement: every record and request one component emits is accepted by the next, and
      means the same there.
    - Endpoints: an authenticated request acts for the user of its token only, histories are
      private, and whatever is answered is what the generated document says.
    - Processes: a configuration that loads starts its process; in every interleaving nothing is
      closed while somebody uses it, everything is closed when [Run] returns, and a process that
      is told to stop can.  The Job process, once it begins to end, does end: a measure of its
      state falls with every step of its goroutines, and one of them can always step.  The chat
      server has such a measure for the end of its loop.
    - Chat: the routing of messages, and Kafka between sockets and services: the consumer does what
      the readers would, up to the first event that fails, where it ends.

    Every theorem with hypotheses is followed by a witness, an instance on concrete inputs.

    ** Fuel and bounds

    The JSON parser takes the length of its text as fuel; [JsonRound] proves that it is enough
    for printed text.  [Process] makes three rounds and an acknowledgement a bounded number
    of attempts, as in the code.  The loops that only end with their context (partition, renewal, heartbeat, reader, writer)
    take a number of turns, and their theorems hold for every number.  Integers are in [Z];
    where the code relies on the width (offsets, counters, microseconds, sizes) the bound is
    written out.  The schema generator descends a type with fuel 20, which [SchemaProofs] shows
    is enough for a type whose structs nest less deep, and the catalog's do.

    ** Not modelled

    - Durations and texts of logs; text of diagnostics no caller reads.
    - The transport itself: gRPC, the Kafka and Redis clients, the SQL driver, WebSocket
      frames on the wire.  They are operations of the environments.
    - The text of the [/metrics] pages, static files, the mounting of handlers on a router, and
      the MCP transport: they are formatting, or the libraries'.
    - [cmd/logic], [cmd/job], [cmd/comet]: flags and signals only.  [localdev]: tools that set
      up and probe a development environment, all input and output.
    - [ScanDelete] of the cache, which only tests call: its patterns are Redis's.
    - The widths of columns and the collation of texts in the business tables: a statement that
      the database refuses for them is one that fails, which the environment may choose.
    - In [Runtimes], gorm's migration is an argument of [initialize], and names in the catalog
      compare as texts, not by a collation.
    - The read deadlines of a WebSocket; [url.Parse], bcrypt and the JWT library, which are
      parameters with their documented laws.

    ** Where it could go

    Every component that decides something is modelled.  What is left to strengthen are
    connections: one system of several Comets, Logic and Job running together, of which the
    theorems on agreement are the steps, and the handlers of Logic while a shutdown that
    exceeded its grace period goes on, when they may find the database variable nil. *)
From Stdlib Require Export ZArith Lia.
From Stdlib Require Ascii String.
Export (notations) Stdlib.Strings.Ascii.
Export Stdlib.Strings.Ascii (ascii(..)).
From stdpp Require Export prelude gmap strings sorting.

(** ** Go results: a value or an error *)

Inductive result (E A : Type) : Type :=
| Ok (a : A)
| Err (e : E).
Global Arguments Ok {E A} a.
Global Arguments Err {E A} e.

Global Instance result_ret E : MRet (result E) := λ A a, Ok a.
Global Instance result_bind E : MBind (result E) := λ A B f m,
  match m with Ok a => f a | Err e => Err e end.
Global Instance result_fmap E : FMap (result E) := λ A B f m,
  match m with Ok a => Ok (f a) | Err e => Err e end.

(** [ensure b e] is the early return [if !b { return e }]. *)
Definition ensure {E} (b : bool) (e : E) : result E unit := if b then Ok tt else Err e.

Definition is_ok {E A} (r : result E A) : bool := match r with Ok _ => true | Err _ => false end.

Lemma ensure_Ok {E} b (e : E) u : ensure b e = Ok u ↔ b = true.
Proof. destruct b, u; cbn; split; congruence. Qed.

Lemma result_bind_Ok {E A B} (f : A → result E B) (m : result E A) b :
  m ≫= f = Ok b ↔ ∃ a, m = Ok a ∧ f a = Ok b.
Proof.
  destruct m as [a|e]; cbn; split; [eauto | intros (?&[= ->]&?); done | done | intros (?&?&?); done].
Qed.

Lemma ensure_bind_Ok {E B} b (e : E) (k : unit → result E B) r :
  ensure b e ≫= k = Ok r ↔ b = true ∧ k tt = Ok r.
Proof. destruct b; cbn; naive_solver. Qed.

Lemma result_seq_Ok {E A B} (m : result E A) (k : result E B) r :
  (m ≫= λ _, k) = Ok r ↔ (∃ a, m = Ok a) ∧ k = Ok r.
Proof. destruct m; cbn; naive_solver. Qed.

(** ** Boolean guards

    The code tests; a proof needs what the test says.  [guards H] rewrites a Boolean guard
    [H] into propositions; the data base grows with the specifications of the tests. *)
Create HintDb guards.
#[export] Hint Rewrite andb_true_iff orb_false_iff negb_true_iff negb_false_iff Z.eqb_eq Z.eqb_neq
  Z.leb_le Z.leb_gt Z.ltb_lt Z.ltb_ge @bool_decide_eq_true @bool_decide_eq_false
  @ensure_Ok @ensure_bind_Ok : guards.
Tactic Notation "guards" "in" hyp(H) := autorewrite with guards in H.
Tactic Notation "guards" := autorewrite with guards.

(** ** Lists *)

Lemma forallb_Forall {A} (f : A → bool) l : forallb f l = true ↔ Forall (λ x, f x = true) l.
Proof.
  induction l as [|x l IH]; cbn; [by split; [constructor|]|].
  by rewrite andb_true_iff, IH, Forall_cons.
Qed.

(** ** State passing *)

Definition ST (S A : Type) : Type := S → A * S.
Global Instance ST_ret S : MRet (ST S) := λ A a s, (a, s).
Global Instance ST_bind S : MBind (ST S) := λ A B f m s, let '(a, s') := m s in f a s'.
Global Instance ST_fmap S : FMap (ST S) := λ A B f m s, let '(a, s') := m s in (f a, s').

Definition get {S} : ST S S := λ s, (s, s).
Definition gets {S A} (f : S → A) : ST S A := λ s, (f s, s).
Definition modify {S} (f : S → S) : ST S unit := λ s, (tt, f s).
Definition when {S} (b : bool) (m : ST S unit) : ST S unit := if b then m else mret tt.

Fixpoint for_each {S A} (f : A → ST S unit) (l : list A) : ST S unit :=
  match l with [] => mret tt | x :: l' => f x;; for_each f l' end.

(** [a && b] where evaluating an operand has effects: [b] runs only when [a] is true. *)
Definition and_then {S} (a b : ST S bool) : ST S bool := x ← a; if x : bool then b else mret false.

(** The elements the effectful test keeps, tested in order. *)
Fixpoint filter_m {S A} (f : A → ST S bool) (l : list A) : ST S (list A) :=
  match l with
  | [] => mret []
  | x :: l' => b ← f x; r ← filter_m f l'; mret (if b : bool then x :: r else r)
  end.

(** ** Reasoning about state passing

    [wp m Q s]: from [s], [m] ends with a value and a state that satisfy [Q]. *)
Definition wp {S A} (m : ST S A) (Q : A → S → Prop) (s : S) : Prop := Q (m s).1 (m s).2.

Lemma wp_ret {S A} (a : A) (Q : A → S → Prop) s : Q a s → wp (mret a) Q s.
Proof. done. Qed.
Lemma wp_bind {S A B} (m : ST S A) (f : A → ST S B) Q s :
  wp m (λ a, wp (f a) Q) s → wp (m ≫= f) Q s.
Proof. unfold wp, mbind, ST_bind. by destruct (m s). Qed.
Lemma wp_mono {S A} (m : ST S A) (Q Q' : A → S → Prop) s :
  wp m Q s → (∀ a s', Q a s' → Q' a s') → wp m Q' s.
Proof. unfold wp. auto. Qed.
Lemma wp_gets {S A} (f : S → A) (Q : A → S → Prop) s : Q (f s) s → wp (gets f) Q s.
Proof. done. Qed.
Lemma wp_modify {S} (f : S → S) (Q : unit → S → Prop) s : Q tt (f s) → wp (modify f) Q s.
Proof. done. Qed.
Lemma wp_when {S} b (m : ST S unit) Q s :
  (b = true → wp m Q s) → (b = false → Q tt s) → wp (when b m) Q s.
Proof. intros Ht Hf. destruct b; [by apply Ht | by apply Hf]. Qed.
Lemma wp_and_then {S} (a b : ST S bool) Q s :
  wp a (λ x, if x then wp b Q else Q false) s → wp (and_then a b) Q s.
Proof. intros H. apply wp_bind. eapply wp_mono; [exact H|]. by intros [] s'. Qed.

(** [I l] holds before [f] runs on the elements of [l]. *)
Lemma wp_for_each {S A} (I : list A → S → Prop) (f : A → ST S unit) :
  (∀ x l s, I (x :: l) s → wp (f x) (λ _, I l) s) →
  ∀ l s, I l s → wp (for_each f l) (λ _, I []) s.
Proof.
  intros Hf l. induction l as [|x l IH]; intros s HI; simpl; [done|].
  apply wp_bind. eapply wp_mono; [by apply Hf|]. intros a s' H. by apply IH.
Qed.

(** One step of a proof about a state-passing program: the rule of the next command, or
    a specification [H] of it. *)
Ltac wp_rule :=
  lazymatch goal with
  | |- wp (_ ≫= _) _ _ => apply wp_bind
  | |- wp (mret _) _ _ => apply wp_ret
  | |- wp (gets _) _ _ => apply wp_gets
  | |- wp (modify _) _ _ => apply wp_modify
  | |- wp (when _ _) _ _ => apply wp_when; intros ?
  | |- wp (and_then _ _) _ _ => apply wp_and_then
  end.
Ltac wp_steps := repeat wp_rule.
(** What is left of such a proof when the command is done. *)
Create HintDb wp.
#[export] Hint Resolve wp_ret wp_gets wp_modify : wp.
#[export] Hint Unfold wp : wp.
Tactic Notation "wp_apply" uconstr(H) := wp_steps; eapply wp_mono; [eapply H|]; cbn beta.
