(* ===== verification/GoStd.v ===== *)
(** * The parts of Go's language and standard library the program uses

    A Go [string] or [[]byte] is a [string]: a list of 8-bit characters.  [int],
    [int64] and [uint64] values are integers in [Z]; where the program relies on
    their width the bound is written out. *)
From Stdlib Require Import DecimalString DecimalN.
From S2P Require Import Prelude.
Local Open Scope Z_scope.

(** ** Sizes, bytes and prefixes *)

(** Go's [len] of a string and of a slice. *)
Definition len (s : string) : Z := Z.of_nat (String.length s).
Definition slen {A} (l : list A) : Z := Z.of_nat (length l).

Lemma slen_app {A} (l k : list A) : slen (l ++ k) = slen l + slen k.
Proof. unfold slen. rewrite length_app. lia. Qed.
Lemma slen_cons {A} (x : A) l : slen (x :: l) = 1 + slen l.
Proof. unfold slen. simpl length. lia. Qed.
Lemma slen_nil {A} : slen (A := A) [] = 0.
Proof. done. Qed.
Lemma slen_nonneg {A} (l : list A) : 0 ≤ slen l.
Proof. unfold slen. lia. Qed.

Definition max_int64 : Z := 2 ^ 63 - 1.
Definition max_uint64 : Z := 2 ^ 64 - 1.

Definition byte_val (c : Ascii.ascii) : Z := Z.of_N (Ascii.N_of_ascii c).
Definition of_byte (b : Z) : Ascii.ascii := Ascii.ascii_of_N (Z.to_N b).

Fixpoint bytes (s : string) : list Z :=
  match s with EmptyString => [] | String c s' => byte_val c :: bytes s' end.
Fixpoint of_bytes (l : list Z) : string :=
  match l with [] => EmptyString | b :: l' => String (of_byte b) (of_bytes l') end.

(** [strings.HasPrefix], and the remainder [strings.CutPrefix] returns. *)
Fixpoint cut_prefix (p s : string) : option string :=
  match p, s with
  | EmptyString, _ => Some s
  | String a p', String b s' => if bool_decide (a = b) then cut_prefix p' s' else None
  | String _ _, EmptyString => None
  end.
Definition has_prefix (s p : string) : bool :=
  match cut_prefix p s with Some _ => true | None => false end.
Definition trim_prefix (s p : string) : string :=
  match cut_prefix p s with Some r => r | None => s end.

(** [s[0] == c] and [s[1:]] of a non-empty string. *)
Definition head_is (s : string) (c : Ascii.ascii) : bool :=
  match s with String a _ => bool_decide (a = c) | EmptyString => false end.
Definition tail (s : string) : string :=
  match s with String _ s' => s' | EmptyString => EmptyString end.

(** ** UTF-8 ([unicode/utf8]) *)

Definition in_range (lo hi b : Z) : bool := (lo <=? b) && (b <=? hi).
Definition cont_byte : Z → bool := in_range 128 191.

(** The rune at the start of [l] and its width; [None] where Go's decoder reports
    [RuneError] with width 1 (a truncated, overlong or surrogate encoding). *)
Definition decode_rune (l : list Z) : option (Z * nat) :=
  match l with
  | [] => None
  | b0 :: t =>
    if b0 <? 128 then Some (b0, 1%nat)
    else if in_range 194 223 b0 then
      match t with
      | b1 :: _ => if cont_byte b1 then Some (Z.land b0 31 * 64 + Z.land b1 63, 2%nat) else None
      | _ => None
      end
    else if in_range 224 239 b0 then
      match t with
      | b1 :: b2 :: _ =>
        if in_range (if b0 =? 224 then 160 else 128) (if b0 =? 237 then 159 else 191) b1
           && cont_byte b2
        then Some (Z.land b0 15 * 4096 + Z.land b1 63 * 64 + Z.land b2 63, 3%nat) else None
      | _ => None
      end
    else if in_range 240 244 b0 then
      match t with
      | b1 :: b2 :: b3 :: _ =>
        if in_range (if b0 =? 240 then 144 else 128) (if b0 =? 244 then 143 else 191) b1
           && cont_byte b2 && cont_byte b3
        then Some (Z.land b0 7 * 262144 + Z.land b1 63 * 4096 + Z.land b2 63 * 64
                   + Z.land b3 63, 4%nat) else None
      | _ => None
      end
    else None
  end.

Definition rune_error : Z := 65533.

(** [for _, r := range s]: the runes of [s], [RuneError] for each invalid byte.  The
    fuel is the number of bytes, and every step consumes one at least. *)
Fixpoint runes_from (fuel : nat) (l : list Z) : list Z :=
  match fuel, l with
  | S n, b :: t =>
    match decode_rune l with
    | Some (r, w) => r :: runes_from n (drop w l)
    | None => rune_error :: runes_from n t
    end
  | _, _ => []
  end.
Definition runes (s : string) : list Z := runes_from (String.length s) (bytes s).
Definition rune_count (s : string) : Z := slen (runes s).

Fixpoint utf8_valid_from (fuel : nat) (l : list Z) : bool :=
  match fuel, l with
  | S n, _ :: _ =>
    match decode_rune l with Some (_, w) => utf8_valid_from n (drop w l) | None => false end
  | _, _ => true
  end.
(** [utf8.Valid] and [utf8.ValidString]. *)
Definition utf8_valid (s : string) : bool := utf8_valid_from (String.length s) (bytes s).

(** [utf8.AppendRune]; surrogates and values past U+10FFFF are encoded as U+FFFD. *)
Definition encode_rune (r : Z) : list Z :=
  let r := if in_range 55296 57343 r || (r <? 0) || (1114111 <? r) then rune_error else r in
  if r <? 128 then [r]
  else if r <? 2048 then [192 + r / 64; 128 + r mod 64]
  else if r <? 65536 then [224 + r / 4096; 128 + r / 64 mod 64; 128 + r mod 64]
  else [240 + r / 262144; 128 + r / 4096 mod 64; 128 + r / 64 mod 64; 128 + r mod 64].

(** ** Decimal numbers ([strconv]) *)

Definition format_uint (n : Z) : string := NilZero.string_of_uint (N.to_uint (Z.to_N n)).
Definition format_int (n : Z) : string :=
  if n <? 0 then String "-"%char (format_uint (- n)) else format_uint n.

(** [strconv.ParseUint(s, 10, bits)]. *)
Definition parse_uint (bits : Z) (s : string) : option Z :=
  match NilZero.uint_of_string s with
  | Some u => let n := Z.of_N (N.of_uint u) in if n <? 2 ^ bits then Some n else None
  | None => None
  end.
(** [strconv.ParseInt(s, 10, bits)]; [strconv.Atoi] is the 64-bit case. *)
Definition parse_int (bits : Z) (s : string) : option Z :=
  let lim := 2 ^ (bits - 1) in
  match s with
  | String "-"%char s' =>
    match parse_uint bits s' with Some n => if n <=? lim then Some (- n) else None | None => None end
  | String "+"%char s' =>
    match parse_uint bits s' with Some n => if n <? lim then Some n else None | None => None end
  | _ => match parse_uint bits s with Some n => if n <? lim then Some n else None | None => None end
  end.
Definition atoi : string → option Z := parse_int 64.

Definition hex_digit (b : Z) : option Z :=
  if in_range 48 57 b then Some (b - 48)
  else if in_range 97 102 b then Some (b - 87)
  else if in_range 65 70 b then Some (b - 55)
  else None.
(** [strconv.ParseUint(s, 16, 16)] of a four-byte slice. *)
Definition parse_hex4 (a b c d : Z) : option Z :=
  match hex_digit a, hex_digit b, hex_digit c, hex_digit d with
  | Some a, Some b, Some c, Some d => Some (a * 4096 + b * 256 + c * 16 + d)
  | _, _, _, _ => None
  end.

(** ** Addresses ([net]) *)

(** [net.SplitHostPort]: the last colon separates the
    port, a bracketed host loses its brackets, and no other colon or bracket is allowed. *)
Fixpoint split_last_colon (s : string) : option (string * string) :=
  match s with
  | EmptyString => None
  | String c s' =>
    match split_last_colon s' with
    | Some (h, p) => Some (String c h, p)
    | None => if bool_decide (c = ":"%char) then Some (EmptyString, s') else None
    end
  end.
Definition contains (c : ascii) (s : string) : bool := existsb (Z.eqb (byte_val c)) (bytes s).
Definition contains_any (s chars : string) : bool := existsb (λ b, existsb (Z.eqb b) (bytes chars)) (bytes s).
Definition drop_last (s : string) : string := of_bytes (removelast (bytes s)).
Definition split_host_port (s : string) : option (string * string) :=
  match split_last_colon s with
  | None => None
  | Some (host, port) =>
    if head_is host "["%char then
      if bool_decide (last (bytes host) = Some 93)
         && negb (contains "["%char (tail host)) && negb (contains "]"%char (drop_last (tail host)))
         && negb (contains "["%char port) && negb (contains "]"%char port)
      then Some (drop_last (tail host), port) else None
    else if contains ":"%char host || contains "["%char s || contains "]"%char s then None
    else Some (host, port)
  end.

(** ** Base64 ([encoding/base64]) *)

Definition sextet_url (b : Z) : option Z :=
  if in_range 65 90 b then Some (b - 65)
  else if in_range 97 122 b then Some (b - 71)
  else if in_range 48 57 b then Some (b + 4)
  else if b =? 45 then Some 62
  else if b =? 95 then Some 63
  else None.
Definition char_url (v : Z) : Z :=
  if v <? 26 then v + 65 else if v <? 52 then v + 71 else if v <? 62 then v - 4
  else if v =? 62 then 45 else 95.

Fixpoint raw_encode (l : list Z) : list Z :=
  match l with
  | a :: b :: c :: t => a / 4 :: a mod 4 * 16 + b / 16 :: b mod 16 * 4 + c / 64 :: c mod 64 :: raw_encode t
  | [a; b] => [a / 4; a mod 4 * 16 + b / 16; b mod 16 * 4]
  | [a] => [a / 4; a mod 4 * 16]
  | [] => []
  end.
(** Unpadded, non-strict decoding of sextets: the spare bits of the last one are dropped. *)
Fixpoint raw_decode (l : list Z) : option (list Z) :=
  match l with
  | a :: b :: c :: d :: t =>
    match raw_decode t with
    | Some r => Some (a * 4 + b / 16 :: b mod 16 * 16 + c / 4 :: c mod 4 * 64 + d :: r)
    | None => None
    end
  | [a; b; c] => Some [a * 4 + b / 16; b mod 16 * 16 + c / 4]
  | [a; b] => Some [a * 4 + b / 16]
  | [_] => None
  | [] => Some []
  end.

Definition not_newline (b : Z) : bool := negb ((b =? 10) || (b =? 13)).
(** [base64.RawURLEncoding.EncodeToString] and [DecodeString], which skips CR and LF. *)
Definition base64_raw_url_encode (s : string) : string := of_bytes (map char_url (raw_encode (bytes s))).
Definition base64_raw_url_decode (s : string) : option string :=
  match mapM sextet_url (List.filter not_newline (bytes s)) with
  | Some l => of_bytes <$> raw_decode l
  | None => None
  end.

(** The standard alphabet: padded, and decoded strictly (zero spare bits). *)
Definition char_std (v : Z) : Z :=
  if v =? 62 then 43 else if v =? 63 then 47 else char_url v.
Definition sextet_std (b : Z) : option Z :=
  if b =? 43 then Some 62 else if b =? 47 then Some 63
  else if (b =? 45) || (b =? 95) then None else sextet_url b.
Definition padding64 (n : nat) : list Z := replicate ((4 - n mod 4) mod 4) 61.
(** [base64.StdEncoding.EncodeToString]. *)
Definition base64_std_encode (s : string) : string :=
  let l := raw_encode (bytes s) in of_bytes (map char_std l ++ padding64 (length l)).
Fixpoint strict_decode (l : list Z) : option (list Z) :=
  match l with
  | [] => Some []
  | a :: b :: c :: d :: t =>
    a ← sextet_std a; b ← sextet_std b;
    if bool_decide (t = []) && (d =? 61) then
      if c =? 61 then (if b mod 16 =? 0 then Some [a * 4 + b / 16] else None)
      else c ← sextet_std c;
           if c mod 4 =? 0 then Some [a * 4 + b / 16; b mod 16 * 16 + c / 4] else None
    else c ← sextet_std c; d ← sextet_std d; r ← strict_decode t;
         Some (a * 4 + b / 16 :: b mod 16 * 16 + c / 4 :: c mod 4 * 64 + d :: r)
  | _ => None
  end.
(** [base64.StdEncoding.Strict().DecodeString], which skips CR and LF. *)
Definition base64_std_strict_decode (s : string) : option string :=
  of_bytes <$> strict_decode (List.filter not_newline (bytes s)).

(** Conversion to [int32]. *)
Definition to_int32 (n : Z) : Z := (n + 2 ^ 31) mod 2 ^ 32 - 2 ^ 31.

(** ** Lemmas on decimal numbers and prefixes *)

Lemma uint_of_to_uint n : NilZero.uint_of_string (NilZero.string_of_uint (N.to_uint n)) = Some (N.to_uint n).
Proof.
  apply NilZero.usu. intros Hn. pose proof (Unsigned.of_to n) as H.
  rewrite Hn in H. cbn in H. subst n. discriminate Hn.
Qed.
Lemma parse_format_uint bits n : 0 ≤ n < 2 ^ bits → parse_uint bits (format_uint n) = Some n.
Proof.
  intros Hn. unfold parse_uint, format_uint. rewrite uint_of_to_uint, Unsigned.of_to, Z2N.id by lia.
  destruct (Z.ltb_spec n (2 ^ bits)); [done|lia].
Qed.
Lemma parse_int_range s n : parse_int 64 s = Some n → n ≤ max_int64.
Proof.
  unfold parse_int, max_int64. intros Hp. repeat case_match; simplify_eq;
    repeat match goal with
    | H : (_ <? _) = true |- _ => apply Z.ltb_lt in H
    | H : (_ <=? _) = true |- _ => apply Z.leb_le in H
    end; try lia.
  all: unfold parse_uint in *; repeat case_match; simplify_eq; lia.
Qed.
Lemma string_app_assoc (a b c : string) : a +:+ (b +:+ c) = (a +:+ b) +:+ c.
Proof. induction a as [|x a IH]; [done|]. exact (f_equal (String x) IH). Qed.
Lemma cut_prefix_app p s : cut_prefix p (p +:+ s) = Some s.
Proof. induction p as [|a p IH]; [done|]. 
  change (String a p +:+ s) with (String a (p +:+ s)). cbn [cut_prefix]. by rewrite bool_decide_true.
Qed.
Lemma cut_prefix_Some p s r : cut_prefix p s = Some r ↔ s = p +:+ r.
Proof.
  split; [|by intros ->; apply cut_prefix_app].
  revert s. induction p as [|a p IH]; intros s; [by intros [= ->]|].
  destruct s as [|b s]; [done|]. cbn [cut_prefix]. case_bool_decide; [|done].
  intros Hr. subst b. by rewrite (IH _ Hr).
Qed.

(** ** [sort.Strings] *)
Definition sort_strings : list string → list string := merge_sort String.le.
