(* ===== verification/GoTime.v ===== *)
(** * Instants, zones and RFC 3339 text (package [time])

    An instant is a number of nanoseconds since the Unix epoch.  The clock of the
    components that only compare instants is a [Z]; a [time] also keeps the zone
    offset that [Time.Zone] reports, which the wire format can carry. *)
From S2P Require Import Prelude GoStd.
Local Open Scope Z_scope.

Definition nanosecond : Z := 1.
Definition millisecond : Z := 1000000.
Definition second : Z := 1000 * millisecond.
Definition minute : Z := 60 * second.

Record time : Type := Time { t_ns : Z; t_offset : Z }.

(** [time.Time{}], 0001-01-01T00:00:00Z, and [IsZero]. *)
Definition zero_ns : Z := -62135596800 * second.
Definition zero_time : time := Time zero_ns 0.
Definition is_zero (t : time) : bool := t_ns t =? zero_ns.

(** ** The proleptic Gregorian calendar *)

Definition is_leap (y : Z) : bool :=
  (y mod 4 =? 0) && (negb (y mod 100 =? 0) || (y mod 400 =? 0)).
Definition days_in (m y : Z) : Z :=
  if m =? 2 then (if is_leap y then 29 else 28)
  else if (m =? 4) || (m =? 6) || (m =? 9) || (m =? 11) then 30 else 31.
(** Days of [y] before the first of month [m]. *)
Definition days_before (m y : Z) : Z :=
  nth (Z.to_nat (m - 1)) [0; 31; 59; 90; 120; 151; 181; 212; 243; 273; 304; 334] 0
  + (if (2 <? m) && is_leap y then 1 else 0).
(** Days from 1970-01-01 to the given date. *)
Definition days_of_date (y m d : Z) : Z :=
  let p := y - 1 in
  365 * p + p / 4 - p / 100 + p / 400 + days_before m y + (d - 1) - 719162.

(** ** Parsing ([Time.UnmarshalJSON], which calls [Parse] with the RFC 3339 layout) *)

Definition digit (b : Z) : option Z := if in_range 48 57 b then Some (b - 48) else None.

(** [getnum]: two digits, or one when [fixed] is false. *)
Definition getnum (fixed : bool) (l : list Z) : option (Z * list Z) :=
  match l with
  | a :: t =>
    match digit a with
    | None => None
    | Some x =>
      match t with
      | b :: t' =>
        match digit b with
        | Some y => Some (10 * x + y, t')
        | None => if fixed then None else Some (x, t)
        end
      | [] => if fixed then None else Some (x, t)
      end
    end
  | [] => None
  end.

Definition expect (c : Z) (l : list Z) : option (list Z) :=
  match l with b :: t => if b =? c then Some t else None | [] => None end.

Definition getyear (l : list Z) : option (Z * list Z) :=
  '(hi, l) ← getnum true l; '(lo, l) ← getnum true l; Some (100 * hi + lo, l).

Fixpoint span_digits (l : list Z) : list Z * list Z :=
  match l with
  | b :: t => match digit b with
              | Some d => let '(ds, r) := span_digits t in (d :: ds, r)
              | None => ([], l)
              end
  | [] => ([], [])
  end.
Definition digits_value (ds : list Z) : Z := fold_left (λ acc d, 10 * acc + d) ds 0.

(** An optional fraction after the seconds; digits past the ninth are dropped. *)
Definition get_fraction (l : list Z) : Z * list Z :=
  match l with
  | b :: t =>
    if (b =? 46) || (b =? 44) then
      match span_digits t with
      | ([], _) => (0, l)
      | (ds, r) => let ds := take 9 ds in (digits_value ds * 10 ^ (9 - slen ds), r)
      end
    else (0, l)
  | [] => (0, [])
  end.

(** [Z], or a signed [hh:mm] offset in seconds. *)
Definition get_zone (l : list Z) : option (Z * list Z) :=
  match l with
  | b :: t =>
    if b =? 90 then Some (0, t)
    else
      sign ← (if b =? 43 then Some 1 else if b =? 45 then Some (-1) else None);
      '(hh, t) ← getnum true t;
      t ← expect 58 t;
      '(mm, t) ← getnum true t;
      if (hh <=? 24) && (mm <=? 60) then Some (sign * ((hh * 60 + mm) * 60), t) else None
  | [] => None
  end.

Definition parse_rfc3339 (s : string) : option time :=
  '(y, l) ← getyear (bytes s);
  l ← expect 45 l;
  '(m, l) ← getnum true l;
  l ← expect 45 l;
  '(d, l) ← getnum true l;
  l ← expect 84 l;
  '(hh, l) ← getnum false l;
  l ← expect 58 l;
  '(mi, l) ← getnum true l;
  l ← expect 58 l;
  '(ss, l) ← getnum true l;
  let '(ns, l) := get_fraction l in
  '(off, l) ← get_zone l;
  if bool_decide (l = []) && in_range 1 12 m && (hh <? 24) && (mi <? 60) && (ss <? 60)
     && in_range 1 (days_in m y) d
  then Some (Time ((days_of_date y m d * 86400 + hh * 3600 + mi * 60 + ss - off) * second + ns) off)
  else None.
