(* ===== verification/External.v ===== *)
(** * Code the program calls that is not in the repository

    [uuid] is github.com/google/uuid, [timestamppb] is google.golang.org/protobuf;
    the Unicode table is data of package [unicode].  The definitions take them as a
    parameter; [ExternalLaws] states the documented behaviour some theorems rely on,
    and [Reference] is an instance that has it, used to evaluate the definitions. *)
From S2P Require Import Prelude GoStd GoTime.
Local Open Scope Z_scope.

(** [timestamppb.Timestamp]. *)
Record Timestamp : Type := MkTimestamp { Seconds : Z; Nanos : Z }.
Global Instance Timestamp_eq_dec : EqDecision Timestamp.
Proof. solve_decision. Defined.

(** [timestamppb.New] and [AsTime], as instants. *)
Definition timestamp_of_ns (ns : Z) : Timestamp := MkTimestamp (ns / second) (ns mod second).
Definition as_ns (t : Timestamp) : Z := Seconds t * second + Nanos t.

Class External : Type := {
  (** [uuid.Validate(s) == nil]. *)
  uuid_validate : string → bool;
  (** The text [String] gives of [uuid.Parse(s)]; [None] is an error. *)
  uuid_parse : string → option string;
  (** [Timestamp.CheckValid() == nil] of a non-nil timestamp. *)
  timestamp_check_valid : Timestamp → bool;
  (** [unicode.ToLower] on runes outside ASCII. *)
  unicode_to_lower : Z → Z
}.

(** A hyphen where the canonical form has one, a hexadecimal digit elsewhere. *)
Definition canonical_uuid_byte (i : nat) (b : Z) : bool :=
  if bool_decide (i ∈ [8; 13; 18; 23]%nat) then b =? 45
  else match hex_digit b with Some _ => true | None => false end.
Definition canonical_uuid (s : string) : bool :=
  forallb id (imap canonical_uuid_byte (bytes s)).

(** ASCII letters in lower case. *)
Definition lower_byte (b : Z) : Z := if in_range 65 90 b then b + 32 else b.
Definition lower_ascii (s : string) : string := of_bytes (map lower_byte (bytes s)).

Class ExternalLaws (E : External) : Prop := {
  (** A valid 36-byte UUID has the form xxxxxxxx-xxxx-xxxx-xxxx-xxxxxxxxxxxx. *)
  uuid_validate_canonical s :
    len s = 36 → uuid_validate s = canonical_uuid s;
  (** [Parse] accepts what [Validate] does, and [String] prints in lower case. *)
  uuid_parse_canonical s :
    len s = 36 → uuid_parse s = if canonical_uuid s then Some (lower_ascii s) else None;
  (** Valid timestamps lie in the years 1 to 9999 and have normalised nanos. *)
  timestamp_check_valid_range t :
    timestamp_check_valid t = true ↔
    -62135596800 ≤ Seconds t ≤ 253402300799 ∧ 0 ≤ Nanos t < second
}.

(** [strings.ToLower]. *)
Definition to_lower_rune `{External} (r : Z) : Z :=
  if r <? 128 then (if in_range 65 90 r then r + 32 else r) else unicode_to_lower r.
Definition to_lower `{External} (s : string) : string :=
  of_bytes (mjoin (map (λ r, encode_rune (to_lower_rune r)) (runes s))).

Module Reference.
Definition external : External := {|
  uuid_validate s := (len s =? 36) && canonical_uuid s;
  uuid_parse s := if (len s =? 36) && canonical_uuid s then Some (lower_ascii s) else None;
  timestamp_check_valid t :=
    in_range (-62135596800) 253402300799 (Seconds t) && in_range 0 999999999 (Nanos t);
  unicode_to_lower r := r
|}.
Lemma external_laws : ExternalLaws external.
Proof.
  split.
  - intros s Hs. cbn. by rewrite Hs.
  - intros s Hs. cbn. by rewrite Hs.
  - intros t. cbn. unfold in_range, second, millisecond. rewrite !andb_true_iff, !Z.leb_le. lia.
Qed.
End Reference.
