(* ===== verification/GoText.v ===== *)
(** * Lemmas on text: ASCII runes, bytes, canonical base64 and UUIDs *)
From S2P Require Import Prelude GoStd GoTime External.
Local Open Scope Z_scope.

(** ** Bytes *)

Definition is_byte (b : Z) : Prop := 0 ≤ b < 256.

Lemma byte_val_range c : is_byte (byte_val c).
Proof. unfold is_byte, byte_val. pose proof (Ascii.N_ascii_bounded c). lia. Qed.
Lemma byte_val_of_byte b : is_byte b → byte_val (of_byte b) = b.
Proof. unfold is_byte, byte_val, of_byte. intros Hb. rewrite Ascii.N_ascii_embedding; lia. Qed.
Lemma bytes_range s : Forall is_byte (bytes s).
Proof. induction s; constructor; [apply byte_val_range|done]. Qed.
Lemma bytes_of_bytes l : Forall is_byte l → bytes (of_bytes l) = l.
Proof. induction 1; cbn; [done|]. by rewrite byte_val_of_byte by done; f_equal. Qed.
Lemma length_bytes s : length (bytes s) = String.length s.
Proof. induction s; cbn; by f_equal. Qed.
Lemma len_bytes s : len s = slen (bytes s).
Proof. unfold len, slen. by rewrite length_bytes. Qed.

(** ** ASCII runes *)

Lemma land_7 x : Z.land x 7 = x mod 8.
Proof. by apply (Z.land_ones x 3). Qed.
Lemma land_15 x : Z.land x 15 = x mod 16.
Proof. by apply (Z.land_ones x 4). Qed.
Lemma land_31 x : Z.land x 31 = x mod 32.
Proof. by apply (Z.land_ones x 5). Qed.
Lemma land_63 x : Z.land x 63 = x mod 64.
Proof. by apply (Z.land_ones x 6). Qed.

Lemma decode_rune_ascii l r w : Forall is_byte l → decode_rune l = Some (r, w) → r < 128 →
  ∃ t, l = r :: t ∧ w = 1%nat.
Proof.
  assert (∀ b0 b1, is_byte b0 → in_range 194 223 b0 = true → 128 ≤ Z.land b0 31 * 64 + Z.land b1 63) as H2.
  { intros b0 b1 Hb Hr. unfold in_range in Hr. rewrite andb_true_iff, !Z.leb_le in Hr.
    rewrite land_31, land_63. Z.to_euclidean_division_equations. lia. }
  assert (∀ b0 b1 b2, is_byte b0 → in_range 224 239 b0 = true →
    in_range (if b0 =? 224 then 160 else 128) (if b0 =? 237 then 159 else 191) b1 = true →
    128 ≤ Z.land b0 15 * 4096 + Z.land b1 63 * 64 + Z.land b2 63) as H3.
  { intros b0 b1 b2 Hb Hr Hr1. unfold in_range in *. rewrite andb_true_iff, !Z.leb_le in *.
    rewrite land_15, !land_63.
    destruct (Z.eqb_spec b0 224), (Z.eqb_spec b0 237); try lia; Z.to_euclidean_division_equations; lia. }
  assert (∀ b0 b1 b2 b3, is_byte b0 → in_range 240 244 b0 = true →
    in_range (if b0 =? 240 then 144 else 128) (if b0 =? 244 then 143 else 191) b1 = true →
    128 ≤ Z.land b0 7 * 262144 + Z.land b1 63 * 4096 + Z.land b2 63 * 64 + Z.land b3 63) as H4.
  { intros b0 b1 b2 b3 Hb Hr Hr1. unfold in_range in *. rewrite andb_true_iff, !Z.leb_le in *.
    rewrite land_7, !land_63.
    destruct (Z.eqb_spec b0 240), (Z.eqb_spec b0 244); try lia; Z.to_euclidean_division_equations; lia. }
  intros Hl Hd Hr. destruct l as [|b0 t]; [done|]. cbn [decode_rune] in Hd.
  apply Forall_cons in Hl as [Hb0 _].
  destruct (b0 <? 128); [simplify_eq; eauto|].
  destruct (in_range 194 223 b0) eqn:E2.
  { destruct t as [|b1 t]; [done|]. destruct (cont_byte b1); [|done]. simplify_eq. specialize (H2 _ b1 Hb0 E2). lia. }
  destruct (in_range 224 239 b0) eqn:E3.
  { destruct t as [|b1 [|b2 t]]; try done. destruct (in_range _ _ b1) eqn:Hb1; [|done].
    destruct (cont_byte b2); [|done]. cbn [andb] in Hd. simplify_eq. specialize (H3 _ b1 b2 Hb0 E3 Hb1). lia. }
  destruct (in_range 240 244 b0) eqn:E4; [|done].
  destruct t as [|b1 [|b2 [|b3 t]]]; try done. destruct (in_range _ _ b1) eqn:Hb1; [|done].
  destruct (cont_byte b2); [|done]. destruct (cont_byte b3); [|done]. cbn [andb] in Hd. simplify_eq.
  specialize (H4 _ b1 b2 b3 Hb0 E4 Hb1). lia.
Qed.

(** A text whose runes are all ASCII is its bytes. *)
Lemma runes_ascii s (P : Z → bool) :
  (∀ r, P r = true → r < 128) → forallb P (runes s) = true → runes s = bytes s.
Proof.
  intros HP. unfold runes. rewrite <-length_bytes. pose proof (bytes_range s) as Hb. revert Hb.
  assert (∀ n l, (length l ≤ n)%nat → Forall is_byte l → forallb P (runes_from n l) = true → runes_from n l = l) as Hg.
  { induction n as [|n IH]; intros [|b t] Hn Hl Hall; try done; cbn in Hn; [lia|].
    cbn [runes_from] in *. destruct (decode_rune (b :: t)) as [[r w]|] eqn:Hd.
    - cbn [forallb] in Hall. apply andb_true_iff in Hall as [Hr Hall].
      destruct (decode_rune_ascii _ _ _ Hl Hd (HP _ Hr)) as (t'&[= -> ->]&->). cbn in *.
      apply Forall_cons in Hl as [_ Hl]. rewrite drop_0 in *. by rewrite IH by (done || lia).
    - cbn [forallb] in Hall. apply andb_true_iff in Hall as [Hr _]. apply HP in Hr. unfold rune_error in Hr. lia. }
  intros Hb Hall. by apply Hg.
Qed.

(** ** Unpadded base64 *)

Lemma char_url_byte v : 0 ≤ v < 64 → is_byte (char_url v).
Proof. unfold char_url, is_byte. intros Hv. repeat case_match; rewrite ?Z.ltb_lt, ?Z.ltb_ge in *; lia. Qed.

(** The sextets of [l] and their number. *)
Lemma raw_encode_spec n l : (length l ≤ n)%nat → Forall is_byte l →
  Forall (λ v, 0 ≤ v < 64) (raw_encode l)
  ∧ slen (raw_encode l) = (slen l * 4 + 2) / 3.
Proof.
  revert l. induction n as [|n IH]; intros l Hn Hl.
  { destruct l; [|cbn in Hn; lia]. by split; [constructor|]. }
  unfold is_byte in Hl. destruct l as [|a [|b [|c l]]]; cbn [raw_encode].
  - by split; [constructor|].
  - rewrite !Forall_cons in Hl. destruct Hl as [? _]. split; [|done].
    rewrite !Forall_cons, Forall_nil. split_and!; try done; Z.to_euclidean_division_equations; lia.
  - rewrite !Forall_cons in Hl. destruct Hl as (?&?&_). split; [|done].
    rewrite !Forall_cons, Forall_nil. split_and!; try done; Z.to_euclidean_division_equations; lia.
  - rewrite !Forall_cons in Hl. destruct Hl as (?&?&?&Hl). cbn in Hn.
    destruct (IH l) as [Hall Hlen]; [lia|done|]. split.
    + rewrite !Forall_cons. split_and!; try done; Z.to_euclidean_division_equations; lia.
    + rewrite !slen_cons, Hlen. Z.to_euclidean_division_equations. lia.
Qed.

Lemma raw_encode_last n l : (length l ≤ n)%nat → Forall is_byte l →
  (slen l mod 3 = 1 → ∃ k, 0 ≤ k < 4 ∧ last (raw_encode l) = Some (k * 16))
  ∧ (slen l mod 3 = 2 → ∃ k, 0 ≤ k < 16 ∧ last (raw_encode l) = Some (k * 4)).
Proof.
  revert l. induction n as [|n IH]; intros l Hn Hl.
  { destruct l; [|cbn in Hn; lia]. split; by intros ?. }
  unfold is_byte in Hl. destruct l as [|a [|b [|c l]]]; cbn [raw_encode].
  - split; by intros ?.
  - split; [|done]. intros _. exists (a mod 4). split; [Z.to_euclidean_division_equations; lia|done].
  - split; [done|]. intros _. exists (b mod 16). split; [Z.to_euclidean_division_equations; lia|done].
  - rewrite !Forall_cons in Hl. destruct Hl as (_&_&_&Hl). cbn in Hn.
    destruct (IH l) as [H1 H2]; [lia|done|]. rewrite !slen_cons.
    assert ((1 + (1 + (1 + slen l))) mod 3 = slen l mod 3) as -> by (Z.to_euclidean_division_equations; lia).
    destruct (raw_encode l) as [|x r] eqn:Hr.
    { split; intros Hm; [destruct (H1 Hm) as (?&_&?)|destruct (H2 Hm) as (?&_&?)]; done. }
    split; [exact H1|exact H2].
Qed.

Lemma encode_bytes raw : bytes (base64_raw_url_encode raw) = map char_url (raw_encode (bytes raw)).
Proof.
  unfold base64_raw_url_encode. apply bytes_of_bytes.
  destruct (raw_encode_spec _ (bytes raw) (le_n _) (bytes_range raw)) as [Hall _].
  apply Forall_fmap. eapply Forall_impl; [exact Hall|]. intros v Hv. by apply char_url_byte.
Qed.

(** ** [strings.TrimSpace] *)

(** [unicode.IsSpace]. *)
Definition is_space (r : Z) : bool :=
  in_range 9 13 r || (r =? 32) || (r =? 133) || (r =? 160) || (r =? 5760) || in_range 8192 8202 r
  || (r =? 8232) || (r =? 8233) || (r =? 8239) || (r =? 8287) || (r =? 12288).
(** The encodings of the runes of a text; an invalid byte stands alone and is no space. *)
Fixpoint chunks_from (fuel : nat) (l : list Z) : list (bool * list Z) :=
  match fuel, l with
  | S n, b :: t =>
    match decode_rune l with
    | Some (r, w) => (is_space r, take w l) :: chunks_from n (drop w l)
    | None => (false, [b]) :: chunks_from n t
    end
  | _, _ => []
  end.
Fixpoint drop_spaces (l : list (bool * list Z)) : list (bool * list Z) :=
  match l with (true, _) :: l' => drop_spaces l' | _ => l end.
Definition trim_space (s : string) : string :=
  let l := drop_spaces (chunks_from (String.length s) (bytes s)) in
  of_bytes (mjoin (snd <$> reverse (drop_spaces (reverse l)))).

(** ** Base64 round trip *)

Lemma sextet_char v : 0 ≤ v < 64 → sextet_url (char_url v) = Some v ∧ not_newline (char_url v) = true.
Proof.
  intros Hv. assert (∃ n, (n < 64)%nat ∧ v = Z.of_nat n) as (n&Hn&->) by (exists (Z.to_nat v); lia). clear Hv.
  do 64 (destruct n as [|n]; [by vm_compute|]). lia.
Qed.
Lemma raw_decode_encode n l : (length l ≤ n)%nat → Forall is_byte l → raw_decode (raw_encode l) = Some l.
Proof.
  revert l. induction n as [|n IH]; intros l Hn Hl; [destruct l; [done|cbn in Hn; lia]|].
  unfold is_byte in Hl. destruct l as [|a [|b [|c l]]]; cbn [raw_encode raw_decode]; [done|..].
  - rewrite !Forall_cons in Hl. do 2 f_equal. Z.to_euclidean_division_equations. lia.
  - rewrite !Forall_cons in Hl. destruct Hl as (?&?&_). do 2 f_equal; [|f_equal]; Z.to_euclidean_division_equations; lia.
  - rewrite !Forall_cons in Hl. destruct Hl as (?&?&?&Hl). cbn in Hn. rewrite IH by (done || lia).
    do 2 f_equal; [|f_equal; [|f_equal]]; Z.to_euclidean_division_equations; lia.
Qed.
Lemma mapM_char sx : Forall (λ v, 0 ≤ v < 64) sx →
  mapM sextet_url (List.filter not_newline (map char_url sx)) = Some sx.
Proof.
  induction 1 as [|v sx Hv _ IH]; [done|]. destruct (sextet_char v Hv) as [Hs Hn].
  cbn [map List.filter]. rewrite Hn. cbn [mapM]. rewrite Hs. cbn [mbind option_bind]. setoid_rewrite IH. done.
Qed.
Lemma base64_round_trip s : base64_raw_url_decode (base64_raw_url_encode s) = Some s.
Proof.
  unfold base64_raw_url_decode. rewrite encode_bytes.
  destruct (raw_encode_spec _ (bytes s) (le_n _) (bytes_range s)) as [Hall _].
  rewrite mapM_char by done. rewrite (raw_decode_encode _ _ (le_n _) (bytes_range s)). cbn. f_equal.
  induction s as [|c s IH]; cbn; [done|]. rewrite IH. unfold of_byte, byte_val. by rewrite N2Z.id, Ascii.ascii_N_embedding.
  destruct (raw_encode_spec _ (bytes s) (le_n _) (bytes_range s)) as [? _]; done.
Qed.
