(* ===== verification/GoNet.v ===== *)
(** * IP addresses: [net.ParseIP] and [IP.IsLoopback]

    An address is its sixteen bytes; one with a zone is no [IP]. *)
From S2P Require Import Prelude GoStd GoTime External GoText.
Local Open Scope Z_scope.

(** ** Parsing *)

(** The parts between the bytes [c]. *)
Fixpoint split_on (c : Z) (l : list Z) : list (list Z) :=
  match l with
  | [] => [[]]
  | b :: t =>
    if b =? c then [] :: split_on c t
    else match split_on c t with x :: r => (b :: x) :: r | [] => [[b]] end
  end.
Definition decimal_digit (b : Z) : bool := in_range 48 57 b.
Definition ipv4_field (l : list Z) : option Z :=
  if negb (forallb decimal_digit l) then None
  else
    match l with
    | [] => None
    | b :: _ :: _ =>
      let v := fold_left (λ v d, v * 10 + (d - 48)) l 0 in
      if (b =? 48) || (255 <? v) then None else Some v
    | [b] => Some (b - 48)
    end.
Definition parse_ipv4 (l : list Z) : option (list Z) :=
  let fields := split_on 46 l in
  if slen fields =? 4 then mapM ipv4_field fields else None.

Fixpoint span_hex (l : list Z) : list Z * list Z :=
  match l with
  | b :: t => match hex_digit b with
              | Some v => let '(h, r) := span_hex t in (v :: h, r)
              | None => ([], l)
              end
  | [] => ([], [])
  end.
(** The groups of an IPv6 address: [acc] are the bytes so far, [ell] where the double
    colon stood.  The fuel is the number of groups that still fit. *)
Fixpoint ipv6_groups (fuel : nat) (acc : list Z) (ell : option nat) (l : list Z) : option (list Z * option nat) :=
  match fuel with
  | O => match l with [] => Some (acc, ell) | _ => None end
  | S n =>
    let '(h, r) := span_hex l in
    if (slen h =? 0) || (4 <? slen h) then None
    else
      if match r with b :: _ => b =? 46 | [] => false end then
        if (match ell with None => negb (slen acc =? 12) | Some _ => false end) || (16 <? slen acc + 4) then None
        else v4 ← parse_ipv4 l; Some ((acc ++ v4)%list, ell)
      else
        let v := fold_left (λ v d, v * 16 + d) h 0 in
        let acc := (acc ++ [v / 256; v mod 256])%list in
        match r with
        | [] => Some (acc, ell)
        | c :: r =>
          if negb (c =? 58) then None
          else
            match r with
            | [] => None
            | d :: r' =>
              if d =? 58 then
                match ell with
                | Some _ => None
                | None => match r' with [] => Some (acc, Some (length acc)) | _ => ipv6_groups n acc (Some (length acc)) r' end
                end
              else ipv6_groups n acc ell r
            end
        end
  end.
Definition expand_ipv6 (x : list Z * option nat) : option (list Z) :=
  let '(acc, ell) := x in
  match ell with
  | None => if slen acc =? 16 then Some acc else None
  | Some e =>
    if slen acc <? 16 then Some (take e acc ++ replicate (16 - length acc) 0 ++ drop e acc)%list else None
  end.
Definition parse_ipv6 (l : list Z) : option (list Z) :=
  if existsb (Z.eqb 37) l then None
  else
    let start := match l with a :: b :: l' => if (a =? 58) && (b =? 58) then Some l' else None | _ => None end in
    match start with
    | Some [] => Some (replicate 16 0)
    | Some l' => x ← ipv6_groups 8 [] (Some 0%nat) l'; expand_ipv6 x
    | None => x ← ipv6_groups 8 [] None l; expand_ipv6 x
    end.

(** The first dot, colon or percent sign decides. *)
Fixpoint first_sign (l : list Z) : option Z :=
  match l with
  | b :: t => if (b =? 46) || (b =? 58) || (b =? 37) then Some b else first_sign t
  | [] => None
  end.
Definition v4_prefix : list Z := replicate 10 0 ++ [255; 255].
Definition parse_ip (s : string) : option (list Z) :=
  let l := bytes s in
  match first_sign l with
  | Some b =>
    if b =? 46 then v4 ← parse_ipv4 l; Some (v4_prefix ++ v4)%list
    else if b =? 58 then parse_ipv6 l else None
  | None => None
  end.
Definition is_loopback (ip : list Z) : bool :=
  if bool_decide (take 12 ip = v4_prefix) then bool_decide (ip !! 12%nat = Some 127)
  else bool_decide (ip = replicate 15 0 ++ [1])%list.

Example loopback_v4 : is_loopback <$> parse_ip "127.0.0.1" = Some true.
Proof. vm_compute. reflexivity. Qed.
Example loopback_v6 : is_loopback <$> parse_ip "::1" = Some true.
Proof. vm_compute. reflexivity. Qed.
Example loopback_mapped : is_loopback <$> parse_ip "::ffff:127.9.8.7" = Some true.
Proof. vm_compute. reflexivity. Qed.
Example elsewhere_v4 : is_loopback <$> parse_ip "10.0.0.1" = Some false.
Proof. vm_compute. reflexivity. Qed.
Example zoned : parse_ip "fe80::1%eth0" = None.
Proof. vm_compute. reflexivity. Qed.
Example leading_zero : parse_ip "127.0.0.01" = None.
Proof. vm_compute. reflexivity. Qed.
Example full_v6 : parse_ip "1:2:3:4:5:6:7:8" = Some [0; 1; 0; 2; 0; 3; 0; 4; 0; 5; 0; 6; 0; 7; 0; 8].
Proof. vm_compute. reflexivity. Qed.
Example too_many_groups : parse_ip "1:2:3:4:5:6:7:8:9" = None.
Proof. vm_compute. reflexivity. Qed.

(** ** The characters of an address *)

Definition ip_char (b : Z) : Prop := is_Some (hex_digit b) ∨ b = 46 ∨ b = 58.

Lemma decimal_ip_char b : decimal_digit b = true → ip_char b.
Proof. unfold decimal_digit, ip_char, hex_digit. intros ->. by left. Qed.
Lemma split_on_cons c l : ∃ x r, split_on c l = x :: r.
Proof.
  destruct l as [|b l]; [by eexists _, _|]. cbn [split_on]. destruct (b =? c); [by eexists _, _|].
  destruct (split_on c l); by eexists _, _.
Qed.
Lemma split_on_chars (P : Z → Prop) c l : P c → Forall (Forall P) (split_on c l) → Forall P l.
Proof.
  intros Hc. induction l as [|b l IH]; intros Hs; [constructor|]. cbn [split_on] in Hs.
  destruct (Z.eqb_spec b c) as [->|].
  - apply Forall_cons in Hs as [_ Hs]. constructor; [done|by apply IH].
  - destruct (split_on_cons c l) as (x&r&Hx). rewrite Hx in *. rename Hx into Hxr.
    apply Forall_cons in Hs as [Hb Hr]. apply Forall_cons in Hb as [Hb Hx]. constructor; [done|]. apply IH. by constructor.
Qed.
Lemma parse_ipv4_chars l v : parse_ipv4 l = Some v → Forall ip_char l.
Proof.
  unfold parse_ipv4. destruct (_ =? 4); [|done]. intros Hm. apply (split_on_chars _ 46); [by right; left|].
  apply mapM_Some in Hm. clear -Hm. induction Hm as [|x y xs ys Hx _ IH]; constructor; [|done].
  unfold ipv4_field in Hx. destruct (forallb decimal_digit x) eqn:Hd; [|done]. apply forallb_Forall in Hd.
  eapply Forall_impl; [exact Hd|]. intros b. apply decimal_ip_char.
Qed.
Lemma span_hex_chars l h r : span_hex l = (h, r) → ∃ k, l = k ++ r ∧ Forall ip_char k.
Proof.
  revert h r. induction l as [|b l IH]; intros h r Hs; cbn [span_hex] in Hs; [injection Hs as <- <-; by exists []|].
  destruct (hex_digit b) as [v|] eqn:Hb; [|injection Hs as <- <-; by exists []].
  destruct (span_hex l) as [h' r'] eqn:Hl. injection Hs as <- <-. destruct (IH _ _ eq_refl) as (k&->&Hk).
  exists (b :: k). split; [done|]. constructor; [left; by rewrite Hb|done].
Qed.
Lemma ipv6_groups_chars fuel acc ell l x : ipv6_groups fuel acc ell l = Some x → Forall ip_char l.
Proof.
  revert acc ell l. induction fuel as [|n IH]; intros acc ell l Hg; cbn [ipv6_groups] in Hg; [by destruct l|].
  destruct (span_hex l) as [h r] eqn:Hs. destruct (span_hex_chars _ _ _ Hs) as (k&->&Hk).
  destruct (_ || _); [done|]. destruct r as [|c r]; [by rewrite app_nil_r|].
  destruct (Z.eqb_spec c 46) as [->|].
  { destruct (_ || _); [done|]. destruct (parse_ipv4 _) eqn:Hv; [|done]. by eapply parse_ipv4_chars. }
  destruct (Z.eqb_spec c 58) as [->|]; cbn [negb] in Hg; [|done].
  apply Forall_app. split; [done|]. constructor; [by right; right|]. destruct r as [|d r]; [done|].
  destruct (Z.eqb_spec d 58) as [->|]; [|by eapply IH]. constructor; [by right; right|].
  destruct ell; [done|]. destruct r; [constructor|by eapply IH].
Qed.
Lemma parse_ip_chars s ip : parse_ip s = Some ip → Forall ip_char (bytes s).
Proof.
  unfold parse_ip. destruct (first_sign _) as [b|]; [|done]. destruct (b =? 46).
  { destruct (parse_ipv4 _) eqn:Hv; [|done]. intros _. by eapply parse_ipv4_chars. }
  destruct (b =? 58); [|done]. unfold parse_ipv6. destruct (existsb _ _); [done|].
  destruct (bytes s) as [|a [|c l]].
  - intros _. constructor.
  - destruct (ipv6_groups _ _ _ _) eqn:Hg; [|done]. intros _. by eapply ipv6_groups_chars.
  - destruct (Z.eqb_spec a 58) as [->|], (Z.eqb_spec c 58) as [->|]; cbn [andb].
    2-4: destruct (ipv6_groups _ _ _ _) eqn:Hg; [|done]; intros _; by eapply ipv6_groups_chars.
    destruct l as [|d l].
    + intros _. repeat constructor; by right; right.
    + destruct (ipv6_groups _ _ _ _) eqn:Hg; [|done]. intros _.
      do 2 (constructor; [by right; right|]). by eapply ipv6_groups_chars.
Qed.
