(* ===== verification/Json.v ===== *)
(** * JSON text (package [encoding/json])

    The text is parsed once into a tree that keeps the order and the duplicates of
    object members and the literal text of strings and numbers.  The decoding of a
    tree into a Go value follows [Unmarshal]: a [null] leaves most destinations as
    they are, members are applied in order, and a member name selects a field
    exactly or up to Unicode case folding. *)
From S2P Require Import Prelude GoStd GoTime External.
Local Open Scope Z_scope.

#[local] Set Warnings "-register-all".

(** A string keeps its literal (between the quotes) and its value. *)
Inductive json : Type :=
| JNull
| JBool (b : bool)
| JNum (lit : string)
| JStr (lit s : string)
| JArr (l : list json)
| JObj (l : list (string * json)).

(** ** Lexing *)

Definition is_ws (b : Z) : bool := (b =? 32) || (b =? 9) || (b =? 10) || (b =? 13).
Fixpoint skip_ws (l : list Z) : list Z :=
  match l with b :: t => if is_ws b then skip_ws t else l | [] => [] end.

Definition is_surrogate (r : Z) : bool := in_range 55296 57343 r.

(** Four hexadecimal digits at the start of [l]. *)
Definition get_u4 (l : list Z) : option (Z * list Z) :=
  match l with
  | a :: b :: c :: d :: t => match parse_hex4 a b c d with Some n => Some (n, t) | None => None end
  | _ => None
  end.
(** The rune of an escape whose first code unit is [u]: a high surrogate pairs with
    the escape that follows, any other surrogate becomes U+FFFD. *)
Definition unescape_unit (u : Z) (l : list Z) : Z * list Z :=
  if is_surrogate u then
    match l with
    | a :: b :: l' =>
      if (a =? 92) && (b =? 117) then
        match get_u4 l' with
        | Some (v, t) =>
          if in_range 55296 56319 u && in_range 56320 57343 v
          then ((u - 55296) * 1024 + (v - 56320) + 65536, t) else (rune_error, l)
        | None => (rune_error, l)
        end
      else (rune_error, l)
    | _ => (rune_error, l)
    end
  else (u, l).
Definition simple_escape (b : Z) : option Z :=
  if b =? 34 then Some 34 else if b =? 92 then Some 92 else if b =? 47 then Some 47
  else if b =? 98 then Some 8 else if b =? 102 then Some 12 else if b =? 110 then Some 10
  else if b =? 114 then Some 13 else if b =? 116 then Some 9 else None.

(** The value of a string whose opening quote has been read, and the rest. *)
Fixpoint string_body (fuel : nat) (l : list Z) : option (list Z * list Z) :=
  match fuel, l with
  | S n, b :: t =>
    if b =? 34 then Some ([], t)
    else if b <? 32 then None
    else if b =? 92 then
      match t with
      | e :: t' =>
        if e =? 117 then
          '(u, r) ← get_u4 t';
          let '(rn, r) := unescape_unit u r in
          '(s, rest) ← string_body n r; Some (encode_rune rn ++ s, rest)
        else c ← simple_escape e; '(s, rest) ← string_body n t'; Some (c :: s, rest)
      | [] => None
      end
    else
      match decode_rune l with
      | Some (_, w) => '(s, rest) ← string_body n (drop w l); Some (take w l ++ s, rest)
      | None => '(s, rest) ← string_body n t; Some (encode_rune rune_error ++ s, rest)
      end
  | _, _ => None
  end.
(** What [r] leaves of [l]: the literal that was read. *)
Definition consumed (l r : list Z) : list Z := take (length l - length r) l.

Definition lex_string (l : list Z) : option (string * string * list Z) :=
  '(s, r) ← string_body (length l) l;
  Some (of_bytes (consumed l (34 :: r)), of_bytes s, r).

Definition lex_digits1 (l : list Z) : option (list Z) :=
  match span_digits l with ([], _) => None | (_, r) => Some r end.
Definition lex_int (l : list Z) : option (list Z) :=
  match l with
  | b :: t => if b =? 48 then Some t else lex_digits1 l
  | [] => None
  end.
Definition lex_frac (l : list Z) : option (list Z) :=
  match l with b :: t => if b =? 46 then lex_digits1 t else Some l | [] => Some [] end.
Definition lex_exp (l : list Z) : option (list Z) :=
  match l with
  | b :: t =>
    if (b =? 101) || (b =? 69) then
      match t with
      | s :: t' => if (s =? 43) || (s =? 45) then lex_digits1 t' else lex_digits1 t
      | [] => None
      end
    else Some l
  | [] => Some []
  end.
Definition lex_number (l : list Z) : option (string * list Z) :=
  let l0 := match l with b :: t => if b =? 45 then t else l | [] => [] end in
  r ← lex_int l0; r ← lex_frac r; r ← lex_exp r;
  Some (of_bytes (consumed l r), r).
Definition lex_word (w : string) (l : list Z) : option (list Z) :=
  if bool_decide (take (String.length w) l = bytes w) then Some (drop (String.length w) l) else None.

(** ** Parsing.  A value at depth [d] that follows [k] earlier siblings is reached in
    at most [2 * d + k + 1] calls, and its text has at least as many bytes, so a fuel of
    twice the length is enough. *)
Fixpoint parse_value (fuel : nat) (l : list Z) : option (json * list Z) :=
  match fuel with
  | O => None
  | S n =>
    match skip_ws l with
    | [] => None
    | b :: t =>
      if b =? 123 then
        match skip_ws t with
        | c :: r => if c =? 125 then Some (JObj [], r)
                    else '(ms, r) ← parse_members n (c :: r); Some (JObj ms, r)
        | [] => None
        end
      else if b =? 91 then
        match skip_ws t with
        | c :: r => if c =? 93 then Some (JArr [], r)
                    else '(vs, r) ← parse_elements n (c :: r); Some (JArr vs, r)
        | [] => None
        end
      else if b =? 34 then '(lit, s, r) ← lex_string t; Some (JStr lit s, r)
      else if b =? 116 then r ← lex_word "true" (b :: t); Some (JBool true, r)
      else if b =? 102 then r ← lex_word "false" (b :: t); Some (JBool false, r)
      else if b =? 110 then r ← lex_word "null" (b :: t); Some (JNull, r)
      else '(lit, r) ← lex_number (b :: t); Some (JNum lit, r)
    end
  end
with parse_members (fuel : nat) (l : list Z) : option (list (string * json) * list Z) :=
  match fuel with
  | O => None
  | S n =>
    r ← expect 34 (skip_ws l);
    '(_, key, r) ← lex_string r;
    r ← expect 58 (skip_ws r);
    '(v, r) ← parse_value n r;
    match skip_ws r with
    | b :: r => if b =? 44 then '(ms, r) ← parse_members n r; Some ((key, v) :: ms, r)
                else if b =? 125 then Some ([(key, v)], r) else None
    | [] => None
    end
  end
with parse_elements (fuel : nat) (l : list Z) : option (list json * list Z) :=
  match fuel with
  | O => None
  | S n =>
    '(v, r) ← parse_value n l;
    match skip_ws r with
    | b :: r => if b =? 44 then '(vs, r) ← parse_elements n r; Some (v :: vs, r)
                else if b =? 93 then Some ([v], r) else None
    | [] => None
    end
  end.

(** The first value of the text, and what follows it. *)
Definition parse_prefix (raw : string) : option (json * list Z) :=
  let l := bytes raw in parse_value (2 * length l + 1) l.
(** A text that is one value. *)
Definition parse (raw : string) : option json :=
  match parse_prefix raw with
  | Some (v, r) => if bool_decide (skip_ws r = []) then Some v else None
  | None => None
  end.
(** [json.Valid]. *)
Definition valid (raw : string) : bool := match parse raw with Some _ => true | None => false end.

(** ** Objects *)

(** The value a map decoded from the object holds at [key]: the last member wins. *)
Fixpoint lookup_key (key : string) (ms : list (string * json)) : option json :=
  match ms with
  | [] => None
  | (k, v) :: ms' =>
    match lookup_key key ms' with
    | Some w => Some w
    | None => if bool_decide (k = key) then Some v else None
    end
  end.

(** [foldName] of the decoder: ASCII letters in upper case; of the other runes only
    U+017F and U+212A fold to ASCII. *)
Fixpoint fold_name (l : list Z) : list Z :=
  match l with
  | [] => []
  | a :: t =>
    match t with
    | b :: t' =>
      if (a =? 197) && (b =? 191) then 83 :: fold_name t'
      else match t' with
           | c :: t'' =>
             if (a =? 226) && (b =? 132) && (c =? 170) then 75 :: fold_name t''
             else (if in_range 97 122 a then a - 32 else a) :: fold_name t
           | [] => (if in_range 97 122 a then a - 32 else a) :: fold_name t
           end
    | [] => [if in_range 97 122 a then a - 32 else a]
    end
  end.
(** Whether a member name selects the field tagged [tag]. *)
Definition names (key tag : string) : bool := bool_decide (fold_name (bytes key) = fold_name (bytes tag)).

(** ** Decoding into a Go value.  [None] is the error [Unmarshal] returns. *)

Definition decode_string (old : string) (v : json) : option string :=
  match v with JNull => Some old | JStr _ s => Some s | _ => None end.
Definition decode_uint32 (old : Z) (v : json) : option Z :=
  match v with JNull => Some old | JNum lit => parse_uint 32 lit | _ => None end.
Definition decode_int32 (old : Z) (v : json) : option Z :=
  match v with JNull => Some old | JNum lit => parse_int 32 lit | _ => None end.
(** [time.Time]: the text is the literal of the string. *)
Definition decode_time (old : time) (v : json) : option time :=
  match v with JNull => Some old | JStr lit _ => parse_rfc3339 lit | _ => None end.

(** A struct: the members in order, each applied by [field]. *)
Definition decode_struct {A} (field : A → string → json → option A) (old : A) (v : json) : option A :=
  match v with
  | JNull => Some old
  | JObj ms => fold_left (λ acc kv, a ← acc; field a kv.1 kv.2) ms (Some old)
  | _ => None
  end.
(** A slice; [None] in the result's [option] is the nil slice.  Element [i] is decoded
    over the element the destination already has there. *)
Fixpoint decode_elements {A} (elt : A → json → option A) (zero : A) (old : list A) (vs : list json)
  : option (list A) :=
  match vs with
  | [] => Some []
  | v :: vs' =>
    a ← elt (hd zero old) v;
    l ← decode_elements elt zero (List.tl old) vs';
    Some (a :: l)
  end.
Definition decode_slice {A} (elt : A → json → option A) (zero : A) (old : option (list A)) (v : json)
  : option (option (list A)) :=
  match v with
  | JNull => Some None
  | JArr vs => l ← decode_elements elt zero (default [] old) vs; Some (Some l)
  | _ => None
  end.
(** A slice the program never compares with nil. *)
Definition decode_list {A} (elt : A → json → option A) (zero : A) (old : list A) (v : json)
  : option (list A) := default [] <$> decode_slice elt zero (Some old) v.
(** A pointer: nil for [null], else the pointed value decoded in place. *)
Definition decode_pointer {A} (elt : A → json → option A) (zero : A) (old : option A) (v : json)
  : option (option A) :=
  match v with
  | JNull => Some None
  | _ => a ← elt (default zero old) v; Some (Some a)
  end.
