(* ===== verification/Dto.v ===== *)
(** * Wire types: [internal/dto/im] and the generated [fable/v1] messages

    A Go pointer is an [option] ([None] is nil).  Protobuf enums are open, so an enum
    value is an integer with named constants. *)
From S2P Require Import Prelude GoStd GoTime External.
Local Open Scope Z_scope.

(** ** gRPC status ([google.golang.org/grpc/codes]) and context errors *)

Inductive code : Type :=
| OK | Canceled | Unknown | InvalidArgument | DeadlineExceeded | NotFound | AlreadyExists
| PermissionDenied | ResourceExhausted | FailedPrecondition | Aborted | OutOfRange
| Unimplemented | Internal | Unavailable | DataLoss | Unauthenticated.
Global Instance code_eq_dec : EqDecision code.
Proof. solve_decision. Defined.

Inductive context_error : Type := ContextCanceled | ContextDeadlineExceeded.
Global Instance context_error_eq_dec : EqDecision context_error.
Proof. solve_decision. Defined.

(** ** Package [im] *)
Module im.
Definition ReceiveTypeUser : string := "user".
Definition ReceiveTypeGroup : string := "group".
Definition MessageTypeText : string := "text".
Definition MessageOriginUser : string := "user".
Definition MessageOriginAI : string := "ai".

Record ConnectionIdentity : Type := MkConnectionIdentity {
  UserID : string; InstanceID : string; ConnectionID : string; RouteToken : string
}.

Record Message : Type := MkMessage {
  MessageID : string; ConversationID : string; SessionID : string; SendID : string;
  ReceiveID : string; ReceiveType : string; Type_ : string; Content : string;
  Origin : string; CreatedAt : time; Position : string
}.

(** The slices the program compares with nil are [option]s. *)
Record PushTask : Type := MkPushTask {
  SchemaVersion : Z; Kind : string; TaskID : string; Message_ : Message;
  Recipients : list string; Targets : option (list ConnectionIdentity);
  ChunkIndex : Z; ChunkCount : Z; RequestID : string;
  PendingRecipients : option (list string); ReplayRunID : string
}.

Definition PushKind : string := "message_push".
Definition PushSchemaVersion : Z := 1.

(** Frames of the second WebSocket protocol. *)
Definition EventSendMessage : string := "send_message".
Definition EventMessage : string := "message".
Definition EventSendResult : string := "send_result".
Definition DispatchQueued : string := "queued".
Definition DispatchNotQueued : string := "not_queued".
Definition DispatchUnknown : string := "unknown".
Record SendFrame : Type := MkSendFrame {
  FrameEvent : string; FrameClientID : string; FrameReceiveID : string; FrameReceiveType : string;
  FrameContent : string
}.
Record SendResult : Type := MkSendResult {
  ClientMessageID : string; Stored : bool; ResultMessage : Message; Dispatch : string; Replayed : bool
}.
Record SendError : Type := MkSendError { ErrorCode : string; Retry : string; ErrorRequestID : string }.
Record SendResultFrame : Type := MkSendResultFrame {
  ResultEvent : string; ResultClientID : string; Result : option SendResult; Error : option SendError
}.
Definition zero_frame : SendFrame := MkSendFrame "" "" "" "" "".

Definition ErrorInvalidArgument : string := "invalid_argument".
Definition ErrorIdempotencyConflict : string := "idempotency_conflict".
Definition ErrorUnauthenticated : string := "unauthenticated".
Definition ErrorPermissionDenied : string := "permission_denied".
Definition ErrorSuperseded : string := "superseded".
Definition ErrorLeaseExpired : string := "lease_expired".
Definition ErrorInstanceNotRegistered : string := "instance_not_registered".
Definition ErrorDependencyUnavailable : string := "dependency_unavailable".
Definition ErrorResourceExhausted : string := "resource_exhausted".
Definition ErrorDraining : string := "draining".
Definition ErrorResultUnknown : string := "result_unknown".
Definition RetryDoNotRetry : string := "do_not_retry".
Definition RetrySameRequest : string := "same_request".
Definition RetryReconnect : string := "reconnect".
Definition RetryReauthenticate : string := "reauthenticate".
Definition RetryRefreshRoute : string := "refresh_route".

Definition zero_connection : ConnectionIdentity := MkConnectionIdentity "" "" "" "".
Definition zero_message : Message := MkMessage "" "" "" "" "" "" "" "" "" zero_time "".
Definition zero_task : PushTask :=
  MkPushTask 0 "" "" zero_message [] None 0 0 "" None "".
End im.

(** ** Package [wschat]: the frames of the first WebSocket protocol *)
Module wschat.
Record Message : Type := MkMessage {
  SendID : string; ReceiveID : string; Content : string; Origin : Z; ReceiveType : Z
}.
Definition zero_message : Message := MkMessage "" "" "" 0 0.
End wschat.

(** ** Package [pb] *)
Module pb.
Definition RECEIVE_TYPE_USER : Z := 1.
Definition RECEIVE_TYPE_GROUP : Z := 2.
Definition MESSAGE_TYPE_TEXT : Z := 1.
Definition MESSAGE_ORIGIN_USER : Z := 1.
Definition MESSAGE_ORIGIN_AI : Z := 2.
Definition DISPATCH_STATE_QUEUED : Z := 1.
Definition DISPATCH_STATE_NOT_QUEUED : Z := 2.
Definition DISPATCH_STATE_UNKNOWN : Z := 3.
Definition DELETED : Z := 1.
Definition NOT_CURRENT : Z := 2.
Definition NOT_FOUND : Z := 3.
Definition OFFLINE_REASON_NO_ROUTE : Z := 1.
Definition OFFLINE_REASON_LEASE_EXPIRED : Z := 2.
Definition OFFLINE_REASON_INSTANCE_EXPIRED : Z := 3.
Definition MISSING_COMET_NOT_REGISTERED : Z := 1.
Definition MISSING_COMET_LEASE_EXPIRED : Z := 2.
Definition OUTCOME_ENQUEUED : Z := 1.
Definition OUTCOME_DUPLICATE : Z := 2.
Definition OUTCOME_NOT_FOUND : Z := 3.
Definition OUTCOME_STALE : Z := 4.
Definition OUTCOME_QUEUE_FULL : Z := 5.
Definition OUTCOME_DRAINING : Z := 6.
Definition KICK_REASON_REPLACED : Z := 1.
Definition KICK_REASON_AUTH_EXPIRED : Z := 2.
Definition KICK_REASON_SHUTDOWN : Z := 3.
Definition REASON_INVALID_ARGUMENT : Z := 1.
Definition REASON_IDEMPOTENCY_CONFLICT : Z := 2.
Definition REASON_UNAUTHENTICATED : Z := 3.
Definition REASON_PERMISSION_DENIED : Z := 4.
Definition REASON_SUPERSEDED : Z := 5.
Definition REASON_LEASE_EXPIRED : Z := 6.
Definition REASON_INSTANCE_NOT_REGISTERED : Z := 7.
Definition REASON_DEPENDENCY_UNAVAILABLE : Z := 8.
Definition REASON_RESOURCE_EXHAUSTED : Z := 9.
Definition REASON_DRAINING : Z := 10.
Definition DO_NOT_RETRY : Z := 1.
Definition SAME_REQUEST : Z := 2.
Definition RECONNECT : Z := 3.
Definition REAUTHENTICATE : Z := 4.
Definition REFRESH_ROUTE : Z := 5.

Record CometIdentity : Type := MkCometIdentity { CometInstanceId : string; BootId : string }.
Record ConnectionIdentity : Type := MkConnectionIdentity {
  UserId : string; InstanceId : string; ConnectionId : string; RouteToken : string
}.
Record RouteLease : Type := MkRouteLease {
  RouteIdentity : option ConnectionIdentity;
  AuthExpiresAt : option Timestamp;
  RouteDeadline : option Timestamp
}.
Record CometLease : Type := MkCometLease {
  LeaseIdentity : option CometIdentity; RpcAddress : string; Draining : bool;
  LeaseDeadline : option Timestamp
}.
Record Destination : Type := MkDestination { DestReceiveType : Z; DestReceiveId : string }.
Record MessageView : Type := MkMessageView {
  MessageId : string; ConversationId : string; SessionId : string; SenderId : string;
  Destination_ : option Destination; MessageType : Z; Content : string; Origin : Z;
  CreatedAt : option Timestamp; Position : Z
}.

(** [RouteLookupResult] and its oneof. *)
Inductive RouteState : Type :=
| StateRoute (r : option RouteLease) | StateOffline (reason : Z) | StateUnset.
Record RouteLookupResult : Type := MkRouteLookupResult { LookupUserId : string; State : RouteState }.
Inductive CometState : Type :=
| StateLease (l : option CometLease) | StateMissing (reason : Z) | CometStateUnset.
Record CometResolution : Type := MkCometResolution { ResolvedId : string; CState : CometState }.
(** Generated getters. *)
Definition GetRoute (r : RouteLookupResult) : option RouteLease :=
  match State r with StateRoute l => l | _ => None end.
Definition GetLease (r : CometResolution) : option CometLease :=
  match CState r with StateLease l => l | _ => None end.

Record DeliveryResult : Type := MkDeliveryResult { Target : option ConnectionIdentity; Outcome : Z }.
Record DeliverResponse : Type := MkDeliverResponse {
  ResTaskId : string; ResMessageId : string; Results : list (option DeliveryResult)
}.
Record DeliverRequest : Type := MkDeliverRequest {
  ReqComet : option CometIdentity; ReqTaskId : string; ReqMessage : option MessageView;
  ReqTargets : list (option ConnectionIdentity); ReqRequestId : string
}.
(** [SendMessageResult]: what became of a submission. *)
Record SubmitResult : Type := MkSubmitResult {
  SubmittedId : string; WasStored : bool; Submitted : option MessageView; DispatchState : Z; WasReplayed : bool
}.
Record ErrorDetail : Type := MkErrorDetail { Reason : Z; Retry : Z; DetailRequestId : string }.
End pb.

(** A status error: its code and its details; a [None] detail has another type. *)
Record status_error : Type := StatusError { err_code : code; err_details : list (option pb.ErrorDetail) }.

Global Instance im_ConnectionIdentity_eq_dec : EqDecision im.ConnectionIdentity.
Proof. solve_decision. Defined.
Global Instance time_eq_dec : EqDecision time.
Proof. solve_decision. Defined.
Global Instance im_Message_eq_dec : EqDecision im.Message.
Proof. solve_decision. Defined.
Global Instance im_PushTask_eq_dec : EqDecision im.PushTask.
Proof. solve_decision. Defined.
Global Instance pb_CometIdentity_eq_dec : EqDecision pb.CometIdentity.
Proof. solve_decision. Defined.
Global Instance pb_ConnectionIdentity_eq_dec : EqDecision pb.ConnectionIdentity.
Proof. solve_decision. Defined.
Global Instance pb_Destination_eq_dec : EqDecision pb.Destination.
Proof. solve_decision. Defined.
Global Instance pb_MessageView_eq_dec : EqDecision pb.MessageView.
Proof. solve_decision. Defined.
Global Instance pb_DeliveryResult_eq_dec : EqDecision pb.DeliveryResult.
Proof. solve_decision. Defined.
