(* ===== verification/Sha256.v ===== *)
(** * SHA-256 (package [crypto/sha256]) on lists of bytes, with 32-bit words in [Z] *)
From S2P Require Import Prelude GoStd.
Local Open Scope Z_scope.

Definition word_mask : Z := 2 ^ 32 - 1.
Definition add32 (a b : Z) : Z := Z.land (a + b) word_mask.
Definition rotr (n x : Z) : Z := Z.land (Z.lor (Z.shiftr x n) (Z.shiftl x (32 - n))) word_mask.

Definition round_constants : list Z := [
  1116352408; 1899447441; 3049323471; 3921009573; 961987163; 1508970993; 2453635748; 2870763221;
  3624381080; 310598401; 607225278; 1426881987; 1925078388; 2162078206; 2614888103; 3248222580;
  3835390401; 4022224774; 264347078; 604807628; 770255983; 1249150122; 1555081692; 1996064986;
  2554220882; 2821834349; 2952996808; 3210313671; 3336571891; 3584528711; 113926993; 338241895;
  666307205; 773529912; 1294757372; 1396182291; 1695183700; 1986661051; 2177026350; 2456956037;
  2730485921; 2820302411; 3259730800; 3345764771; 3516065817; 3600352804; 4094571909; 275423344;
  430227734; 506948616; 659060556; 883997877; 958139571; 1322822218; 1537002063; 1747873779;
  1955562222; 2024104815; 2227730452; 2361852424; 2428436474; 2756734187; 3204031479; 3329325298].
Definition initial_hash : list Z :=
  [1779033703; 3144134277; 1013904242; 2773480762; 1359893119; 2600822924; 528734635; 1541459225].

(** The [n] low bytes of [v], most significant first. *)
Fixpoint big_endian (n : nat) (v : Z) : list Z :=
  match n with
  | O => []
  | S n' => Z.land (Z.shiftr v (8 * Z.of_nat n')) 255 :: big_endian n' v
  end.
Fixpoint words (l : list Z) : list Z :=
  match l with
  | a :: b :: c :: d :: l' => a * 16777216 + b * 65536 + c * 256 + d :: words l'
  | _ => []
  end.

(** The message, a one bit, zeros up to 56 modulo 64 bytes, and the length in bits. *)
Definition padding (n : Z) : list Z :=
  128 :: replicate (Z.to_nat ((55 - n) mod 64)) 0 ++ big_endian 8 (8 * n).

(** The message schedule, kept in reverse: the next word from the last sixteen. *)
Definition next_word (w : list Z) : Z :=
  let s0 x := Z.lxor (Z.lxor (rotr 7 x) (rotr 18 x)) (Z.shiftr x 3) in
  let s1 x := Z.lxor (Z.lxor (rotr 17 x) (rotr 19 x)) (Z.shiftr x 10) in
  add32 (add32 (s1 (nth 1 w 0)) (nth 6 w 0)) (add32 (s0 (nth 14 w 0)) (nth 15 w 0)).
Fixpoint expand (n : nat) (w : list Z) : list Z :=
  match n with O => w | S n' => expand n' (next_word w :: w) end.
Definition schedule (block : list Z) : list Z := rev (expand 48 (rev (words block))).

Definition compress_step (h : list Z) (kw : Z * Z) : list Z :=
  match h with
  | [a; b; c; d; e; f; g; h] =>
    let s1 := Z.lxor (Z.lxor (rotr 6 e) (rotr 11 e)) (rotr 25 e) in
    let ch := Z.lxor (Z.land e f) (Z.land (Z.lxor e word_mask) g) in
    let t1 := add32 (add32 (add32 h s1) ch) (add32 kw.1 kw.2) in
    let s0 := Z.lxor (Z.lxor (rotr 2 a) (rotr 13 a)) (rotr 22 a) in
    let maj := Z.lxor (Z.lxor (Z.land a b) (Z.land a c)) (Z.land b c) in
    [add32 t1 (add32 s0 maj); a; b; c; add32 d t1; e; f; g]
  | _ => h
  end.
Definition compress (h block : list Z) : list Z :=
  zip_with add32 h (fold_left compress_step (zip round_constants (schedule block)) h).

Fixpoint blocks (n : nat) (l : list Z) (h : list Z) : list Z :=
  match n with O => h | S n' => blocks n' (drop 64 l) (compress h (take 64 l)) end.

(** [sha256.Sum256]. *)
Definition sha256_bytes (l : list Z) : list Z :=
  let padded := l ++ padding (slen l) in
  mjoin (big_endian 4 <$> blocks (length padded / 64) padded initial_hash).
Definition sha256 (s : string) : list Z := sha256_bytes (bytes s).

(** [hex.EncodeToString]. *)
Definition hex_char (v : Z) : Z := if v <? 10 then v + 48 else v + 87.
Definition hex_encode (l : list Z) : string :=
  of_bytes (mjoin ((λ b, [hex_char (b / 16); hex_char (b mod 16)]) <$> l)).

(** The test vectors of FIPS 180. *)
Example sha256_abc :
  hex_encode (sha256 "abc") = "ba7816bf8f01cfea414140de5dae2223b00361a396177a9cb410ff61f20015ad".
Proof. vm_compute. reflexivity. Qed.
Example sha256_empty :
  hex_encode (sha256 EmptyString) = "e3b0c44298fc1c149afbf4c8996fb92427ae41e4649b934ca495991b7852b855".
Proof. vm_compute. reflexivity. Qed.
