(* ===== verification/JobTask.v ===== *)
(** * Push tasks: [internal/job/task.go]

    Decoding and validation of a Kafka record.  The text after [ErrInvalidTask] in an
    error is a diagnostic no caller reads, so the only error is [ErrInvalidTask]. *)
From S2P Require Import Prelude GoStd GoTime External Json Dto.
Local Open Scope Z_scope.

Inductive task_error : Type := ErrInvalidTask.

Section Task.
Context `{External}.

(** ** Identifiers *)

Definition nil_uuid : string := "00000000-0000-0000-0000-000000000000".
Definition validUUID (s : string) : bool :=
  (len s =? 36) && bool_decide (s ≠ nil_uuid) && uuid_validate s.
Definition validID (s : string) (prefix : ascii) : bool :=
  (len s =? 37) && head_is s prefix && validUUID (tail s).
Definition instance_rune (c : Z) : bool := in_range 97 122 c || in_range 48 57 c || (c =? 45).
Definition validInstance (s : string) : bool :=
  negb ((len s =? 0) || (64 <? len s)) && forallb instance_rune (runes s).
Definition printable (s : string) (max : Z) : bool :=
  negb ((len s =? 0) || (max <? len s)) && forallb (λ c, negb ((c <? 32) || (126 <? c))) (runes s).
(** A route token decodes to 16 bytes or more and is in canonical form. *)
Definition validToken (token : string) : bool :=
  match base64_raw_url_decode token with
  | Some raw => (16 <=? len raw) && bool_decide (base64_raw_url_encode raw = token)
  | None => false
  end.
Definition validConnection (id : option pb.ConnectionIdentity) : bool :=
  match id with
  | None => false
  | Some id =>
    validID (pb.UserId id) "U" && validInstance (pb.InstanceId id) && validUUID (pb.ConnectionId id)
    && negb (128 <? len (pb.RouteToken id)) && validToken (pb.RouteToken id)
  end.
Definition connectionView (h : im.ConnectionIdentity) : pb.ConnectionIdentity :=
  pb.MkConnectionIdentity (im.UserID h) (im.InstanceID h) (im.ConnectionID h) (im.RouteToken h).

(** ** The message view *)

Definition messageView (m : im.Message) : result task_error pb.MessageView :=
  let position := parse_int 64 (im.Position m) in
  let created := timestamp_of_ns (t_ns (im.CreatedAt m)) in
  position ← match position with Some p => Ok p | None => Err ErrInvalidTask end;
  _ ← ensure (validID (im.MessageID m) "M" && validID (im.SendID m) "U" && (0 <? position)
              && bool_decide (format_int position = im.Position m)
              && negb (is_zero (im.CreatedAt m)) && (t_offset (im.CreatedAt m) =? 0)
              && timestamp_check_valid created) ErrInvalidTask;
  _ ← ensure (bool_decide (im.Type_ m = im.MessageTypeText) && bool_decide (im.Content m ≠ "")
              && (len (im.Content m) <=? 16 * 1024) && utf8_valid (im.Content m)) ErrInvalidTask;
  origin ← (if bool_decide (im.Origin m = im.MessageOriginUser) then Ok pb.MESSAGE_ORIGIN_USER
            else if bool_decide (im.Origin m = im.MessageOriginAI) then Ok pb.MESSAGE_ORIGIN_AI
            else Err ErrInvalidTask);
  receive ←
    (if bool_decide (im.ReceiveType m = im.ReceiveTypeUser) then
       _ ← ensure (validID (im.SessionID m) "S" && validID (im.ReceiveID m) "U"
                   && bool_decide (im.SendID m ≠ im.ReceiveID m)
                   && bool_decide (im.ConversationID m = "direct:" +:+ im.SessionID m)) ErrInvalidTask;
       Ok pb.RECEIVE_TYPE_USER
     else if bool_decide (im.ReceiveType m = im.ReceiveTypeGroup) then
       _ ← ensure (validID (im.SessionID m) "G" && bool_decide (im.SessionID m = im.ReceiveID m)
                   && bool_decide (im.ConversationID m = "group:" +:+ im.SessionID m)) ErrInvalidTask;
       Ok pb.RECEIVE_TYPE_GROUP
     else Err ErrInvalidTask);
  Ok (pb.MkMessageView (im.MessageID m) (im.ConversationID m) (im.SessionID m) (im.SendID m)
        (Some (pb.MkDestination receive (im.ReceiveID m))) pb.MESSAGE_TYPE_TEXT (im.Content m)
        origin (Some created) position).

(** ** Unicode escapes *)

(** The loop over the raw text; every case drops a byte at least from [raw]. *)
Fixpoint valid_escapes_from (fuel : nat) (raw : list Z) : bool :=
  match fuel, raw with
  | S n, b :: t =>
    if negb (b =? 92) then valid_escapes_from n t
    else
      match t with
      | [] => false
      | c :: t =>
        if negb (c =? 117) then valid_escapes_from n t
        else
          match get_u4 t with
          | None => false
          | Some (u, t) =>
            if in_range 56320 57343 u then false
            else if in_range 55296 56319 u then
              match t with
              | x :: y :: t' =>
                if (x =? 92) && (y =? 117) then
                  match get_u4 t' with
                  | Some (low, r) => if in_range 56320 57343 low then valid_escapes_from n r else false
                  | None => false
                  end
                else false
              | _ => false
              end
            else valid_escapes_from n t
          end
      end
  | _, _ => true
  end.
Definition validUnicodeEscapes (raw : string) : bool :=
  valid_escapes_from (String.length raw) (bytes raw).

(** ** The JSON structure *)

(** Nesting of at most 16, and no member name twice or with an upper-case letter.  The
    names seen so far are a list. *)
Fixpoint checkJSON (v : json) (depth : Z) : bool :=
  if 16 <? depth then false else
  match v with
  | JObj ms =>
    (fix members (seen : list string) (ms : list (string * json)) : bool :=
       match ms with
       | [] => true
       | (key, v) :: ms' =>
         negb (bool_decide (key ∈ seen)) && bool_decide (key = to_lower key)
         && checkJSON v (depth + 1) && members (key :: seen) ms'
       end) [] ms
  | JArr l => forallb (λ v, checkJSON v (depth + 1)) l
  | _ => true
  end.

(** The members of an object that has every key in [keys] with a value other than null. *)
Definition requiredObject (v : json) (keys : list string) : option (list (string * json)) :=
  match v with
  | JObj ms =>
    if forallb (λ key, match lookup_key key ms with Some JNull | None => false | _ => true end) keys
    then Some ms else None
  | _ => None
  end.
End Task.

(** ** Decoding the fields of a task; an unknown member is an error. *)

Definition connection_field (c : im.ConnectionIdentity) (key : string) (v : json)
  : option im.ConnectionIdentity :=
  let '(im.MkConnectionIdentity u i k t) := c in
  if names key "user_id" then u ← decode_string u v; Some (im.MkConnectionIdentity u i k t)
  else if names key "instance_id" then i ← decode_string i v; Some (im.MkConnectionIdentity u i k t)
  else if names key "connection_id" then k ← decode_string k v; Some (im.MkConnectionIdentity u i k t)
  else if names key "route_token" then t ← decode_string t v; Some (im.MkConnectionIdentity u i k t)
  else None.

Definition message_field (m : im.Message) (key : string) (v : json) : option im.Message :=
  let '(im.MkMessage mid conv sess send recv rtype type content origin created pos) := m in
  if names key "message_id" then x ← decode_string mid v; Some (im.MkMessage x conv sess send recv rtype type content origin created pos)
  else if names key "conversation_id" then x ← decode_string conv v; Some (im.MkMessage mid x sess send recv rtype type content origin created pos)
  else if names key "session_id" then x ← decode_string sess v; Some (im.MkMessage mid conv x send recv rtype type content origin created pos)
  else if names key "send_id" then x ← decode_string send v; Some (im.MkMessage mid conv sess x recv rtype type content origin created pos)
  else if names key "receive_id" then x ← decode_string recv v; Some (im.MkMessage mid conv sess send x rtype type content origin created pos)
  else if names key "receive_type" then x ← decode_string rtype v; Some (im.MkMessage mid conv sess send recv x type content origin created pos)
  else if names key "type" then x ← decode_string type v; Some (im.MkMessage mid conv sess send recv rtype x content origin created pos)
  else if names key "content" then x ← decode_string content v; Some (im.MkMessage mid conv sess send recv rtype type x origin created pos)
  else if names key "origin" then x ← decode_string origin v; Some (im.MkMessage mid conv sess send recv rtype type content x created pos)
  else if names key "created_at" then x ← decode_time created v; Some (im.MkMessage mid conv sess send recv rtype type content origin x pos)
  else if names key "position" then x ← decode_string pos v; Some (im.MkMessage mid conv sess send recv rtype type content origin created x)
  else None.

Definition task_field (t : im.PushTask) (key : string) (v : json) : option im.PushTask :=
  let '(im.MkPushTask sv kind tid msg rcp tgt idx cnt rid pend run) := t in
  if names key "schema_version" then x ← decode_uint32 sv v; Some (im.MkPushTask x kind tid msg rcp tgt idx cnt rid pend run)
  else if names key "kind" then x ← decode_string kind v; Some (im.MkPushTask sv x tid msg rcp tgt idx cnt rid pend run)
  else if names key "task_id" then x ← decode_string tid v; Some (im.MkPushTask sv kind x msg rcp tgt idx cnt rid pend run)
  else if names key "message" then x ← decode_struct message_field msg v; Some (im.MkPushTask sv kind tid x rcp tgt idx cnt rid pend run)
  else if names key "recipients" then x ← decode_list decode_string "" rcp v; Some (im.MkPushTask sv kind tid msg x tgt idx cnt rid pend run)
  else if names key "targets" then x ← decode_slice (decode_struct connection_field) im.zero_connection tgt v; Some (im.MkPushTask sv kind tid msg rcp x idx cnt rid pend run)
  else if names key "chunk_index" then x ← decode_uint32 idx v; Some (im.MkPushTask sv kind tid msg rcp tgt x cnt rid pend run)
  else if names key "chunk_count" then x ← decode_uint32 cnt v; Some (im.MkPushTask sv kind tid msg rcp tgt idx x rid pend run)
  else if names key "request_id" then x ← decode_string rid v; Some (im.MkPushTask sv kind tid msg rcp tgt idx cnt x pend run)
  else if names key "pending_recipients" then x ← decode_slice decode_string "" pend v; Some (im.MkPushTask sv kind tid msg rcp tgt idx cnt rid x run)
  else if names key "replay_run_id" then x ← decode_string run v; Some (im.MkPushTask sv kind tid msg rcp tgt idx cnt rid pend x)
  else None.

Section Decode.
Context `{External}.

Definition task_keys : list string :=
  ["schema_version"; "kind"; "task_id"; "message"; "recipients"; "targets"; "chunk_index"; "chunk_count"].
Definition message_keys : list string :=
  ["message_id"; "conversation_id"; "session_id"; "send_id"; "receive_id"; "receive_type"; "type";
   "content"; "origin"; "created_at"; "position"].

(** The loop over the recipients: ids in strictly increasing order, and for a direct
    message nobody but the sender and the receiver. *)
Fixpoint recipients_ok (m : im.Message) (prev : option string) (ids : list string) : bool :=
  match ids with
  | [] => true
  | id :: ids' =>
    validID id "U"
    && match prev with Some p => negb (String.leb id p) | None => true end
    && negb (bool_decide (im.ReceiveType m = im.ReceiveTypeUser)
             && bool_decide (id ≠ im.SendID m) && bool_decide (id ≠ im.ReceiveID m))
    && recipients_ok m (Some id) ids'
  end.

(** The loop over the hints: a valid connection per user, each a recipient. *)
Fixpoint targets_ok (recipients seen : list string) (hs : list im.ConnectionIdentity) : bool :=
  match hs with
  | [] => true
  | h :: hs' =>
    bool_decide (im.UserID h ∈ recipients) && negb (bool_decide (im.UserID h ∈ seen))
    && validConnection (Some (connectionView h))
    && targets_ok recipients (im.UserID h :: seen) hs'
  end.

(** The loop over the pending subset: distinct recipients. *)
Fixpoint pending_ok (recipients seen : list string) (ids : list string) : bool :=
  match ids with
  | [] => true
  | id :: ids' =>
    bool_decide (id ∈ recipients) && negb (bool_decide (id ∈ seen))
    && pending_ok recipients (id :: seen) ids'
  end.

(** The checks of the decoded value; [fields] are the members of the object. *)
Definition check_task (fields : list (string * json)) (task : im.PushTask) : result task_error unit :=
  let m := im.Message_ task in
  _ ← ensure ((im.SchemaVersion task =? 1) && bool_decide (im.Kind task = "message_push")
              && negb (im.ChunkCount task =? 0) && (im.ChunkIndex task <? im.ChunkCount task)
              && bool_decide (im.TaskID task = "push:v1:" +:+ im.MessageID m +:+ ":" +:+ format_uint (im.ChunkIndex task)))
        ErrInvalidTask;
  _ ← messageView m;
  _ ← ensure (negb ((slen (im.Recipients task) <? 1) || (100 <? slen (im.Recipients task)))
              && match im.Targets task with Some _ => true | None => false end) ErrInvalidTask;
  _ ← ensure (recipients_ok m None (im.Recipients task)) ErrInvalidTask;
  _ ← ensure (targets_ok (im.Recipients task) [] (default [] (im.Targets task))) ErrInvalidTask;
  _ ← ensure (match lookup_key "request_id" fields with
              | Some JNull => false
              | Some _ => printable (im.RequestID task) 128
              | None => true
              end) ErrInvalidTask;
  let subset := match lookup_key "pending_recipients" fields with Some _ => true | None => false end in
  let run := match lookup_key "replay_run_id" fields with Some _ => true | None => false end in
  let pending := default [] (im.PendingRecipients task) in
  _ ← ensure (Bool.eqb subset run
              && negb (subset && ((slen pending =? 0) || negb (printable (im.ReplayRunID task) 128))))
        ErrInvalidTask;
  ensure (pending_ok (im.Recipients task) [] pending) ErrInvalidTask.

Definition decode_task_value (v : json) : option im.PushTask := decode_struct task_field im.zero_task v.

Definition DecodeTask (raw : string) : result task_error im.PushTask :=
  _ ← ensure ((len raw <=? 256 * 1024) && utf8_valid raw && validUnicodeEscapes raw) ErrInvalidTask;
  '(v, rest) ← match parse_prefix raw with Some vr => Ok vr | None => Err ErrInvalidTask end;
  _ ← ensure (checkJSON v 0) ErrInvalidTask;
  _ ← ensure (bool_decide (skip_ws rest = [])) ErrInvalidTask;
  task ← match decode_task_value v with Some t => Ok t | None => Err ErrInvalidTask end;
  fields ← match requiredObject v task_keys with Some fs => Ok fs | None => Err ErrInvalidTask end;
  _ ← ensure (match lookup_key "message" fields with
              | Some mv => match requiredObject mv message_keys with Some _ => true | None => false end
              | None => false
              end) ErrInvalidTask;
  _ ← check_task fields task;
  Ok task.
End Decode.
