(* ===== verification/Samples.v ===== *)
(** * Concrete inputs

    The text of a push task and its parts, on which witnesses evaluate the
    definitions; [Reference.external] instantiates the libraries. *)
From S2P Require Import Prelude GoStd GoTime External Json Dto JobTask.
Local Open Scope Z_scope.

Definition quoted (s : string) : string :=
  String (Ascii.ascii_of_nat 34) (s +:+ String (Ascii.ascii_of_nat 34) EmptyString).
Definition member (k v : string) : string := quoted k +:+ ":" +:+ v.
Definition text (k v : string) : string := member k (quoted v).

Definition user1 : string := "U00000000-0000-0000-0000-000000000001".
Definition user2 : string := "U00000000-0000-0000-0000-000000000002".
Definition session1 : string := "S00000000-0000-0000-0000-000000000001".
Definition message1 : string := "M00000000-0000-0000-0000-000000000001".
Definition connection1 : string := "00000000-0000-0000-0000-00000000000c".
Definition boot1 : string := "00000000-0000-0000-0000-00000000000b".
Definition token1 : string := "AAAAAAAAAAAAAAAAAAAAAA".
Definition job_token : string := "0123456789abcdef0123456789abcdef".

Definition direct_message_json : string :=
  "{" +:+ text "message_id" message1 +:+ "," +:+ text "conversation_id" ("direct:" +:+ session1)
  +:+ "," +:+ text "session_id" session1 +:+ "," +:+ text "send_id" user1
  +:+ "," +:+ text "receive_id" user2 +:+ "," +:+ text "receive_type" "user"
  +:+ "," +:+ text "type" "text" +:+ "," +:+ text "content" "hi" +:+ "," +:+ text "origin" "user"
  +:+ "," +:+ text "created_at" "2026-01-01T00:00:00Z" +:+ "," +:+ text "position" "7" +:+ "}".

(** A task for both users with the given hints and further members. *)
Definition task_json (targets extra : string) : string :=
  "{" +:+ member "schema_version" "1" +:+ "," +:+ text "kind" "message_push"
  +:+ "," +:+ text "task_id" ("push:v1:" +:+ message1 +:+ ":0")
  +:+ "," +:+ member "message" direct_message_json
  +:+ "," +:+ member "recipients" ("[" +:+ quoted user1 +:+ "," +:+ quoted user2 +:+ "]")
  +:+ "," +:+ member "targets" targets
  +:+ "," +:+ member "chunk_index" "0" +:+ "," +:+ member "chunk_count" "1" +:+ extra +:+ "}".

Definition hint_json (user instance : string) : string :=
  "{" +:+ text "user_id" user +:+ "," +:+ text "instance_id" instance
  +:+ "," +:+ text "connection_id" connection1 +:+ "," +:+ text "route_token" token1 +:+ "}".

Definition plain_task : string := task_json "[]" EmptyString.
Definition hinted_task : string := task_json ("[" +:+ hint_json user1 "comet-1" +:+ "]") EmptyString.
Definition twice_hinted_task : string :=
  task_json ("[" +:+ hint_json user1 "comet-1" +:+ "," +:+ hint_json user2 "comet-2" +:+ "]") EmptyString.
(** The member name pending_recipient followed by U+017F, the long s. *)
Definition aliased_task : string :=
  task_json "[]" ("," +:+ member ("pending_recipient" +:+ of_bytes [197; 191]) "[]").

Definition decoded (raw : string) : im.PushTask :=
  match DecodeTask (H := Reference.external) raw with Ok t => t | Err _ => im.zero_task end.
