(* ===== verification/JsonPrint.v ===== *)
(** * [json.Marshal] of the wire types

    Strings are escaped the way [Marshal] does (HTML characters included), instants are
    printed in RFC 3339 with nanoseconds; only an instant can make [Marshal] fail. *)
From S2P Require Import Prelude GoStd GoTime External Json Dto.
Local Open Scope Z_scope.

(** ** Strings *)

Definition hex_low (v : Z) : Z := if v <? 10 then v + 48 else v + 87.
(** Six bytes: a backslash, u and four hexadecimal digits. *)
Definition u_escape (r : Z) : list Z :=
  [92; 117; hex_low (r / 4096 mod 16); hex_low (r / 256 mod 16); hex_low (r / 16 mod 16); hex_low (r mod 16)].
Definition escape_ascii (b : Z) : list Z :=
  if (b =? 34) || (b =? 92) then [92; b]
  else if b =? 8 then [92; 98] else if b =? 12 then [92; 102] else if b =? 10 then [92; 110]
  else if b =? 13 then [92; 114] else if b =? 9 then [92; 116]
  else if (b <? 32) || (b =? 60) || (b =? 62) || (b =? 38) then u_escape b
  else [b].
(** Every step consumes a byte at least. *)
Fixpoint escape_from (fuel : nat) (l : list Z) : list Z :=
  match fuel, l with
  | S n, b :: t =>
    if b <? 128 then (escape_ascii b ++ escape_from n t)%list
    else match decode_rune l with
         | Some (r, w) =>
           ((if (r =? 8232) || (r =? 8233) then u_escape r else take w l) ++ escape_from n (drop w l))%list
         | None => (u_escape rune_error ++ escape_from n t)%list
         end
  | _, _ => []
  end.
Definition print_bytes (s : string) : list Z := escape_from (String.length s) (bytes s).
Definition quote : string := String (Ascii.ascii_of_nat 34) EmptyString.
Definition print_string (s : string) : string := quote +:+ of_bytes (print_bytes s) +:+ quote.

(** ** Instants *)

(** Year, month and day of a day number counted from 1970-01-01. *)
Definition date_of_days (days : Z) : Z * Z * Z :=
  let z := days + 719468 in
  let era := z / 146097 in
  let doe := z mod 146097 in
  let yoe := (doe - doe / 1460 + doe / 36524 - doe / 146096) / 365 in
  let doy := doe - (365 * yoe + yoe / 4 - yoe / 100) in
  let mp := (5 * doy + 2) / 153 in
  let m := if mp <? 10 then mp + 3 else mp - 9 in
  (yoe + era * 400 + (if m <=? 2 then 1 else 0), m, doy - (153 * mp + 2) / 5 + 1).

(** [n] decimal digits of [v]. *)
Fixpoint digits (n : nat) (v : Z) : list Z :=
  match n with O => [] | S n' => (digits n' (v / 10) ++ [48 + v mod 10])%list end.
(** The fraction without its trailing zeros. *)
Fixpoint drop_zeros (l : list Z) : list Z :=
  match l with
  | [] => []
  | b :: t => match drop_zeros t with [] => if b =? 48 then [] else [b] | t' => b :: t' end
  end.
Definition print_fraction (ns : Z) : list Z :=
  match drop_zeros (digits 9 ns) with [] => [] | l => 46 :: l end.
Definition print_zone (off : Z) : list Z :=
  if off =? 0 then [90]
  else let z := Z.abs (Z.quot off 60) in
       ((if Z.quot off 60 <? 0 then 45 else 43) :: digits 2 (z / 60) ++ 58 :: digits 2 (z mod 60))%list.

Definition print_time_bytes (t : time) : option (list Z) :=
  let secs := t_ns t / second + t_offset t in
  let day := secs mod 86400 in
  let '(y, m, d) := date_of_days (secs / 86400) in
  if in_range 0 9999 y && (Z.abs (t_offset t) <? 24 * 3600) then
    Some (digits 4 y ++ 45 :: digits 2 m ++ 45 :: digits 2 d ++ 84 :: digits 2 (day / 3600)
          ++ 58 :: digits 2 (day / 60 mod 60) ++ 58 :: digits 2 (day mod 60)
          ++ print_fraction (t_ns t mod second) ++ print_zone (t_offset t))%list
  else None.
(** [Time.MarshalJSON]: the year has four digits and the zone is within a day. *)
Definition print_time (t : time) : option string :=
  (λ l, quote +:+ of_bytes l +:+ quote) <$> print_time_bytes t.

(** ** Objects and arrays *)

Definition comma_separated (l : list string) : string :=
  match l with [] => EmptyString | x :: l' => fold_left (λ acc y, acc +:+ "," +:+ y) l' x end.
Definition print_array (l : list string) : string := "[" +:+ comma_separated l +:+ "]".
Definition field (name value : string) : string := quote +:+ name +:+ quote +:+ ":" +:+ value.
Definition print_object (fields : list string) : string := "{" +:+ comma_separated fields +:+ "}".
(** A nil slice is null. *)
Definition print_slice {A} (f : A → string) (l : option (list A)) : string :=
  match l with None => "null" | Some l => print_array (f <$> l) end.
(** A string member with [omitempty]. *)
Definition optional_string (name s : string) : list string :=
  if bool_decide (s = EmptyString) then [] else [field name (print_string s)].
Definition optional_strings (name : string) (l : option (list string)) : list string :=
  match l with Some ((_ :: _) as l) => [field name (print_array (print_string <$> l))] | _ => [] end.

(** ** The wire types *)

Definition print_connection (c : im.ConnectionIdentity) : string :=
  print_object [field "user_id" (print_string (im.UserID c)); field "instance_id" (print_string (im.InstanceID c));
                field "connection_id" (print_string (im.ConnectionID c)); field "route_token" (print_string (im.RouteToken c))].

Definition print_message (m : im.Message) : option string :=
  created ← print_time (im.CreatedAt m);
  Some (print_object
    [field "message_id" (print_string (im.MessageID m)); field "conversation_id" (print_string (im.ConversationID m));
     field "session_id" (print_string (im.SessionID m)); field "send_id" (print_string (im.SendID m));
     field "receive_id" (print_string (im.ReceiveID m)); field "receive_type" (print_string (im.ReceiveType m));
     field "type" (print_string (im.Type_ m)); field "content" (print_string (im.Content m));
     field "origin" (print_string (im.Origin m)); field "created_at" created;
     field "position" (print_string (im.Position m))]).

Definition print_task (t : im.PushTask) : option string :=
  message ← print_message (im.Message_ t);
  Some (print_object
    ([field "schema_version" (format_uint (im.SchemaVersion t)); field "kind" (print_string (im.Kind t));
      field "task_id" (print_string (im.TaskID t)); field "message" message;
      field "recipients" (print_array (print_string <$> im.Recipients t));
      field "targets" (print_slice print_connection (im.Targets t));
      field "chunk_index" (format_uint (im.ChunkIndex t)); field "chunk_count" (format_uint (im.ChunkCount t))]
     ++ optional_string "request_id" (im.RequestID t)
     ++ optional_strings "pending_recipients" (im.PendingRecipients t)
     ++ optional_string "replay_run_id" (im.ReplayRunID t))%list).
