(* ===== verification/JsonRound.v ===== *)
(** * Printed JSON parses back

    Strings of plain characters, decimal numbers, arrays and objects built from them: the
    parser returns the value that was printed, with explicit fuel. *)
From Stdlib Require Import DecimalString DecimalN.
From S2P Require Import Prelude GoStd GoTime GoText External Json Dto JsonPrint.
Local Open Scope Z_scope.

(** ** Plain text *)

(** Printable ASCII that needs no escape. *)
Definition plain_byte (b : Z) : bool :=
  in_range 32 126 b && negb ((b =? 34) || (b =? 92) || (b =? 60) || (b =? 62) || (b =? 38)).
Definition plain (s : string) : bool := forallb plain_byte (bytes s).

Lemma of_bytes_bytes s : of_bytes (bytes s) = s.
Proof. induction s as [|c s IH]; cbn; [done|]. rewrite IH. unfold of_byte, byte_val. by rewrite N2Z.id, Ascii.ascii_N_embedding. Qed.
Lemma bytes_app a b : bytes (a +:+ b) = bytes a ++ bytes b.
Proof. induction a as [|c a IH]; [done|]. change (String c a +:+ b) with (String c (a +:+ b)). cbn. by rewrite IH. Qed.

Lemma plain_byte_spec b : plain_byte b = true ↔ 32 ≤ b ≤ 126 ∧ b ≠ 34 ∧ b ≠ 92 ∧ b ≠ 60 ∧ b ≠ 62 ∧ b ≠ 38.
Proof.
  unfold plain_byte, in_range. rewrite andb_true_iff, negb_true_iff, !orb_false_iff, !Z.eqb_neq, andb_true_iff, !Z.leb_le. naive_solver.
Qed.
Lemma escape_plain n l : (length l ≤ n)%nat → forallb plain_byte l = true → escape_from n l = l.
Proof.
  revert n. induction l as [|b l IH]; intros [|n] Hn Hp; cbn in Hn; try done; [lia|].
  cbn [forallb] in Hp. apply andb_true_iff in Hp as [Hb Hp]. cbn [escape_from].
  apply plain_byte_spec in Hb as ([? ?]&?&?&?&?&?).
  assert (b <? 128 = true) as -> by (apply Z.ltb_lt; lia). rewrite IH by (done || lia). unfold escape_ascii.
  rewrite !(proj2 (Z.eqb_neq _ _)) by lia. assert (b <? 32 = false) as -> by (apply Z.ltb_ge; lia). done.
Qed.
Lemma print_plain s : plain s = true → print_string s = quote +:+ s +:+ quote.
Proof.
  intros Hs. unfold print_string, print_bytes. rewrite escape_plain; [by rewrite of_bytes_bytes| |done].
  by rewrite length_bytes.
Qed.

Lemma string_body_plain n l r :
  (length l < n)%nat → forallb plain_byte l = true → string_body n (l ++ 34 :: r) = Some (l, r).
Proof.
  revert n. induction l as [|b l IH]; intros [|n] Hn Hp; cbn in Hn; try lia; [done|].
  cbn [forallb] in Hp. apply andb_true_iff in Hp as [Hb Hp].
  apply plain_byte_spec in Hb as ([? ?]&?&?&_). cbn [string_body app decode_rune].
  rewrite !(proj2 (Z.eqb_neq _ _)) by lia. assert (b <? 32 = false) as -> by (apply Z.ltb_ge; lia).
  assert (b <? 128 = true) as -> by (apply Z.ltb_lt; lia). cbn [drop take]. rewrite drop_0, take_0.
  by rewrite IH by (done || lia).
Qed.
Lemma lex_plain s r : plain s = true → lex_string (bytes s ++ 34 :: r) = Some (s, s, r).
Proof.
  intros Hs. unfold lex_string. rewrite string_body_plain; [| |exact Hs].
  - cbn [mbind option_bind]. unfold consumed.
    replace (length (bytes s ++ 34%Z :: r) - length (34%Z :: r))%nat with (length (bytes s)) by (rewrite length_app; lia).
    by rewrite take_app_length, of_bytes_bytes.
  - rewrite length_app. cbn. lia.
Qed.

(** ** Values *)

(** What may follow a value: nothing, a comma or a closing bracket. *)
Definition delim (r : list Z) : Prop := match r with [] => True | b :: _ => b = 44 ∨ b = 93 ∨ b = 125 end.
(** A value starts with neither a space nor a closing bracket. *)
Definition starts (s : string) : Prop := ∃ b t, bytes s = b :: t ∧ is_ws b = false ∧ b ≠ 93 ∧ b ≠ 125.
(** The text [s] parses to [v] with fuel [k], whatever follows. *)
Definition parses (k : nat) (s : string) (v : json) : Prop :=
  starts s ∧ ∀ n r, (k ≤ n)%nat → delim r → parse_value n (bytes s ++ r) = Some (v, r).

Lemma parses_mono k k' s v : parses k s v → (k ≤ k')%nat → parses k' s v.
Proof. intros [Hs Hp] Hk. split; [done|]. intros n r Hn Hr. apply Hp; [lia|done]. Qed.
Lemma bytes_quote : bytes quote = [34].
Proof. done. Qed.

Lemma parses_string s : plain s = true → parses 1 (print_string s) (JStr s s).
Proof.
  intros Hs. rewrite print_plain by done. split.
  { exists 34, (bytes s ++ [34]). by rewrite !bytes_app, bytes_quote. }
  intros n r Hn _. destruct n as [|n]; [lia|]. rewrite !bytes_app, bytes_quote, <-!app_assoc.
  cbn [app parse_value]. change (skip_ws (34 :: bytes s ++ 34 :: r)) with (34 :: bytes s ++ 34 :: r).
  cbn [Z.eqb Pos.eqb]. by rewrite lex_plain by done.
Qed.

(** ** Numbers *)

Lemma span_digits_app l r :
  Forall (λ b, 48 ≤ b ≤ 57) l → delim r → ∃ ds, span_digits (l ++ r) = (ds, r) ∧ (l ≠ [] → ds ≠ []).
Proof.
  intros Hl Hr. induction Hl as [|b l Hb _ IH].
  - exists []. split; [|done]. destruct r as [|b r]; [done|]. cbn. unfold digit, in_range.
    destruct (Z.leb_spec 48 b), (Z.leb_spec b 57); try done. destruct Hr as [?|[?|?]]; lia.
  - destruct IH as (ds&Hds&_). cbn. rewrite Hds. unfold digit, in_range.
    rewrite !(proj2 (Z.leb_le _ _)) by lia. cbn. by eexists.
Qed.
(** A digit string without a leading zero, or zero. *)
Definition decimal (l : list Z) : Prop :=
  l = [48] ∨ ∃ b t, l = b :: t ∧ 49 ≤ b ≤ 57 ∧ Forall (λ b, 48 ≤ b ≤ 57) t.
Lemma lex_number_decimal l r : decimal l → delim r → lex_number (l ++ r) = Some (of_bytes l, r).
Proof.
  intros Hl Hr.
  assert (lex_frac r = Some r ∧ lex_exp r = Some r) as [Hfrac Hexp].
  { destruct r as [|b r]; [done|]. cbn. rewrite !(proj2 (Z.eqb_neq _ _)) by (destruct Hr as [?|[?|?]]; lia). done. }
  assert (lex_int (l ++ r) = Some r ∧ ∃ b t, l = b :: t ∧ b ≠ 45) as [Hint (b&t&->&Hb)].
  { destruct Hl as [->|(b&t&->&Hb&Ht)]; [by split; [|exists 48, []]|]. split; [|exists b, t; split; [done|lia]].
    cbn [app lex_int]. rewrite (proj2 (Z.eqb_neq _ _)) by lia. unfold lex_digits1.
    destruct (span_digits_app (b :: t) r) as (ds&Hds&Hne); [by constructor; [lia|]|done|].
    cbn [app] in Hds. rewrite Hds. destruct ds; [by destruct Hne|done]. }
  unfold lex_number. cbn [app]. rewrite (proj2 (Z.eqb_neq _ _)) by done. cbn [app] in Hint.
  rewrite Hint. cbn [mbind option_bind]. rewrite Hfrac. cbn [mbind option_bind]. rewrite Hexp. cbn [mbind option_bind].
  unfold consumed. change (b :: t ++ r) with ((b :: t) ++ r).
  replace (Nat.sub (length ((b :: t) ++ r)) (length r)) with (length (b :: t)) by (rewrite length_app; lia).
  by rewrite take_app_length.
Qed.

Lemma bytes_of_uint d : Forall (λ b, 48 ≤ b ≤ 57) (bytes (NilEmpty.string_of_uint d)).
Proof. induction d; cbn; constructor; done || (unfold byte_val; cbn; lia). Qed.
Lemma nzhead_head d : match Decimal.nzhead d with Decimal.D0 _ => False | _ => True end.
Proof. by induction d; cbn. Qed.
Lemma decimal_uint d : d = Decimal.unorm d → decimal (bytes (NilZero.string_of_uint d)).
Proof.
  unfold Decimal.unorm. pose proof (nzhead_head d) as Hh. intros Hd.
  destruct (Decimal.nzhead d); try done; rewrite Hd; cbn [NilZero.string_of_uint]; [by left|..];
    right; eexists _, _; (split; [reflexivity|]); split; try (unfold byte_val; cbn; lia); apply bytes_of_uint.
Qed.
Lemma decimal_format n : decimal (bytes (format_uint n)).
Proof.
  unfold format_uint. apply decimal_uint. rewrite <-Unsigned.to_of. by rewrite Unsigned.of_to.
Qed.
Lemma parses_uint n : parses 1 (format_uint n) (JNum (format_uint n)).
Proof.
  pose proof (decimal_format n) as Hd. split.
  { unfold starts. destruct Hd as [->|(b&t&->&Hb&_)]; eexists _, _; (split; [done|]); [done|].
    unfold is_ws. rewrite !(proj2 (Z.eqb_neq _ _)) by lia. split; [done|lia]. }
  intros k r Hk Hr. destruct k as [|k]; [lia|]. pose proof (lex_number_decimal _ r Hd Hr) as Hlex.
  rewrite of_bytes_bytes in Hlex.
  assert (∃ b t, bytes (format_uint n) = b :: t ∧ 48 ≤ b ≤ 57) as (b&t&Hb&Hrange).
  { destruct Hd as [->|(b&t&->&Hb&_)]; eexists _, _; (split; [done|]); lia. }
  rewrite Hb in *. cbn [app parse_value skip_ws] in *. unfold is_ws.
  rewrite !(proj2 (Z.eqb_neq _ _)) by lia. cbn [orb]. rewrite !(proj2 (Z.eqb_neq _ _)) by lia. by rewrite Hlex.
Qed.

(** ** Arrays and objects *)

Lemma comma_cons x y l : comma_separated (x :: y :: l) = x +:+ "," +:+ comma_separated (y :: l).
Proof.
  unfold comma_separated. cbn [fold_left].
  assert (∀ a b, fold_left (λ acc y, acc +:+ "," +:+ y) l (a +:+ b) = a +:+ fold_left (λ acc y, acc +:+ "," +:+ y) l b) as Hf.
  { induction l as [|z l IH]; intros a b; cbn [fold_left]; [done|]. by rewrite <-string_app_assoc, IH. }
  rewrite string_app_assoc, Hf. by rewrite <-string_app_assoc.
Qed.

Lemma parse_elements_ok k ts vs n r :
  Forall2 (parses k) ts vs → ts ≠ [] → (k + length ts ≤ n)%nat →
  parse_elements n (bytes (comma_separated ts) ++ 93 :: r) = Some (vs, r).
Proof.
  intros Hall. revert n. induction Hall as [|t v ts vs [_ Hv] Hall IH]; intros n Hne Hn; [done|].
  destruct n as [|n]; cbn in Hn; [lia|]. destruct ts as [|t' ts].
  - inversion Hall; subst. cbn [comma_separated fold_left parse_elements].
    rewrite Hv by (lia || by right; left). done.
  - rewrite comma_cons, !bytes_app, <-!app_assoc. change (bytes ",") with [44]. cbn [app parse_elements].
    rewrite Hv by (lia || by left). cbn [mbind option_bind]. idtac.
    cbn [skip_ws is_ws Z.eqb Pos.eqb orb]. rewrite IH; [done|done|cbn in *; lia].
Qed.

Lemma starts_comma t ts : starts t → starts (comma_separated (t :: ts)).
Proof.
  intros (b&l&Hb&Hr). destruct ts as [|t' ts]; [by exists b, l|].
  unfold starts. rewrite comma_cons, bytes_app, Hb. by eexists _, _.
Qed.
Lemma parse_array_tail k ts vs n r :
  Forall2 (parses k) ts vs → ts ≠ [] → (S (k + length ts) ≤ n)%nat →
  parse_value n (91 :: bytes (comma_separated ts) ++ 93 :: r) = Some (JArr vs, r).
Proof.
  intros Hall Hne Hn. destruct n as [|n]; [lia|]. pose proof (parse_elements_ok k ts vs n r Hall Hne) as He.
  assert (starts (comma_separated ts)) as (b&l&Hb&Hws&Hb1&_).
  { destruct Hall as [|t v ts vs [Hs _] _]; [done|]. by apply starts_comma. }
  rewrite Hb in *. cbn [parse_value app skip_ws]. change (is_ws 91) with false. cbn [Z.eqb Pos.eqb]. cbn [skip_ws]. rewrite Hws.
  rewrite (proj2 (Z.eqb_neq _ _)) by done. cbn [app] in He. rewrite He by lia. done.
Qed.
Lemma parses_array k ts vs : Forall2 (parses k) ts vs → parses (S (k + length ts)) (print_array ts) (JArr vs).
Proof.
  intros Hall. unfold print_array. split.
  { exists 91, (bytes (comma_separated ts +:+ "]")). by rewrite bytes_app. }
  intros n r Hn Hr. rewrite !bytes_app. change (bytes "[") with [91]. change (bytes "]") with [93].
  rewrite <-!app_assoc. cbn [app]. destruct ts as [|t ts].
  - inversion Hall; subst. destruct n as [|n]; [lia|]. done.
  - by apply parse_array_tail with k.
Qed.

(** A member of an object: a plain name and the text of its value. *)
Definition member_parses (k : nat) (text : string) (m : string * json) : Prop :=
  ∃ value, plain m.1 = true ∧ text = field m.1 value ∧ parses k value m.2.
Lemma member_intro k name value v : plain name = true → parses k value v → member_parses k (field name value) (name, v).
Proof. intros Hn Hv. by exists value. Qed.

Lemma parse_members_ok k ts ms n r :
  Forall2 (member_parses k) ts ms → ts ≠ [] → (k + length ts ≤ n)%nat →
  parse_members n (bytes (comma_separated ts) ++ 125 :: r) = Some (ms, r).
Proof.
  intros Hall. revert n. induction Hall as [|t m ts ms Hm Hall IH]; intros n Hne Hn; [done|].
  destruct Hm as (value&Hname&->&[(b&l&Hb&Hws&_) Hv]). destruct m as [name v]. cbn [fst snd] in *.
  destruct n as [|n]; cbn [length] in Hn; [lia|].
  assert (∀ rest, delim rest → parse_members (S n) (bytes (field name value) ++ rest)
    = match skip_ws rest with
      | b :: r => if b =? 44 then '(ms, r) ← parse_members n r; Some ((name, v) :: ms, r)
                  else if b =? 125 then Some ([(name, v)], r) else None
      | [] => None
      end) as Hfirst.
  { intros rest Hrest. unfold field. rewrite !bytes_app, bytes_quote, <-!app_assoc. change (bytes ":") with [58].
    cbn [app parse_members].
    cbn [expect skip_ws is_ws Z.eqb Pos.eqb orb mbind option_bind].
    rewrite lex_plain by done. cbn [mbind option_bind skip_ws is_ws Z.eqb Pos.eqb orb expect].
    rewrite Hv by (done || lia). done. }
  destruct ts as [|t' ts].
  - inversion Hall; subst. cbn [comma_separated fold_left]. rewrite Hfirst by (right; by right). done.
  - rewrite comma_cons, !bytes_app, <-!app_assoc, Hfirst by by left. change (bytes ",") with [44].
    cbn [app skip_ws is_ws Z.eqb Pos.eqb orb]. rewrite IH; [done|done|cbn [length] in *; lia].
Qed.
Lemma parses_object k ts ms :
  Forall2 (member_parses k) ts ms → parses (S (k + length ts)) (print_object ts) (JObj ms).
Proof.
  intros Hall. unfold print_object. split.
  { exists 123, (bytes (comma_separated ts +:+ "}")). by rewrite bytes_app. }
  intros n r Hn Hr. rewrite !bytes_app. change (bytes "{") with [123]. change (bytes "}") with [125].
  rewrite <-!app_assoc. cbn [app]. destruct ts as [|t ts].
  - inversion Hall; subst. destruct n as [|n]; [lia|]. done.
  - destruct n as [|n]; [lia|].
    pose proof (parse_members_ok k (t :: ts) ms n r Hall ltac:(done)) as Hm.
    assert (∃ l, bytes (comma_separated (t :: ts)) = 34 :: l) as [l Hl].
    { inversion Hall as [|? m ? ? Hmem _]; subst. destruct Hmem as (value&_&->&_).
      destruct ts as [|t' ts]; [cbn [comma_separated fold_left]|rewrite comma_cons]; unfold field;
        rewrite !bytes_app, bytes_quote; by eexists. }
    rewrite Hl in *. cbn [app parse_value skip_ws is_ws Z.eqb Pos.eqb orb]. cbn [app] in Hm.
    rewrite Hm by lia. done.
Qed.

(** A whole text, when the fuel the parser takes is enough. *)
Lemma parse_whole k s v : parses k s v → (k ≤ 2 * String.length s + 1)%nat → parse s = Some v.
Proof.
  intros [_ Hp] Hk. unfold parse, parse_prefix. specialize (Hp (2 * length (bytes s) + 1)%nat []).
  rewrite app_nil_r in Hp. rewrite Hp; [|by rewrite length_bytes|done]. done.
Qed.

(** Texts are long enough for the fuel. *)
Lemma comma_length (m : nat) ts :
  Forall (λ t, (m ≤ String.length t)%nat) ts → (m * length ts ≤ String.length (comma_separated ts))%nat.
Proof.
  induction 1 as [|t ts Ht Hts IH]; [cbn; lia|]. destruct ts as [|t' ts]; [cbn in *; lia|].
  rewrite comma_cons, <-length_bytes, !bytes_app, !length_app, !length_bytes. cbn [length] in *. lia.
Qed.
Lemma object_length k ts ms :
  Forall2 (member_parses k) ts ms → (2 + 3 * length ts ≤ String.length (print_object ts))%nat.
Proof.
  intros Hall. assert (Forall (λ t, (3 ≤ String.length t)%nat) ts) as Hl.
  { clear -Hall. induction Hall as [|t m ts ms (value&_&->&_) _ IH]; constructor; [|done].
    unfold field. rewrite <-length_bytes, !bytes_app, bytes_quote, !length_app. cbn. lia. }
  apply comma_length in Hl. unfold print_object. rewrite <-length_bytes, !bytes_app, !length_app, !length_bytes. cbn in *. lia.
Qed.
Lemma array_length k ts vs :
  Forall2 (parses k) ts vs → (2 + length ts ≤ String.length (print_array ts))%nat.
Proof.
  intros Hall. assert (Forall (λ t, (1 ≤ String.length t)%nat) ts) as Hl.
  { clear -Hall. induction Hall as [|t m ts ms [(b&l&Hb&_) _] _ IH]; constructor; [|done].
    rewrite <-length_bytes, Hb. cbn. lia. }
  apply comma_length in Hl. unfold print_array. rewrite <-length_bytes, !bytes_app, !length_app, !length_bytes. cbn in *. lia.
Qed.
Lemma parse_object k ts ms :
  Forall2 (member_parses k) ts ms → (k ≤ 3 + 5 * length ts)%nat → parse (print_object ts) = Some (JObj ms).
Proof.
  intros Hall Hk. eapply parse_whole; [by apply parses_object|]. apply object_length in Hall. lia.
Qed.
Lemma parse_array k ts vs :
  Forall2 (parses k) ts vs → (k ≤ 4 + length ts)%nat → parse (print_array ts) = Some (JArr vs).
Proof.
  intros Hall Hk. eapply parse_whole; [by apply parses_array|]. apply array_length in Hall. lia.
Qed.

(** ** Numbers and identifiers are plain *)

Lemma hex_digit_plain b : match hex_digit b with Some _ => true | None => false end = true → plain_byte b = true.
Proof.
  unfold hex_digit. intros Hh. apply plain_byte_spec.
  assert (in_range 48 57 b = true ∨ in_range 97 102 b = true ∨ in_range 65 70 b = true) as Hr.
  { destruct (in_range 48 57 b); [by left|]. destruct (in_range 97 102 b); [by right; left|].
    destruct (in_range 65 70 b); [by right; right|done]. }
  unfold in_range in Hr. rewrite !andb_true_iff, !Z.leb_le in Hr. lia.
Qed.
Lemma valid_uuid_plain `{External, !ExternalLaws _} s : len s = 36 → uuid_validate s = true → plain s = true.
Proof.
  intros Hl Hu. rewrite uuid_validate_canonical in Hu by done. unfold canonical_uuid in Hu. unfold plain.
  rewrite forallb_Forall, Forall_lookup in Hu. rewrite forallb_Forall, Forall_lookup. intros i b Hi. specialize (Hu i (canonical_uuid_byte i b)).
  rewrite list_lookup_imap, Hi in Hu. specialize (Hu eq_refl). cbn in Hu. unfold canonical_uuid_byte in Hu.
  destruct (bool_decide _); [apply Z.eqb_eq in Hu as ->; done|by apply hex_digit_plain].
Qed.
Lemma plain_app a b : plain (a +:+ b) = plain a && plain b.
Proof. unfold plain. by rewrite bytes_app, forallb_app. Qed.
Lemma plain_digits n : plain (format_uint n) = true.
Proof.
  unfold plain. destruct (decimal_format n) as [->|(b&t&->&Hb&Ht)]; [done|]. cbn [forallb].
  apply andb_true_iff. split; [apply plain_byte_spec; lia|]. rewrite forallb_Forall.
  eapply Forall_impl; [exact Ht|]. intros c Hc. cbn beta in Hc. apply plain_byte_spec. lia.
Qed.

Lemma parse_format_int n : 0 < n ≤ max_int64 → parse_int 64 (format_int n) = Some n.
Proof.
  intros Hn. unfold format_int. assert (n <? 0 = false) as -> by (apply Z.ltb_ge; lia).
  assert (parse_uint 64 (format_uint n) = Some n) as Hp by (apply parse_format_uint; split; [lia|]; eapply Z.le_lt_trans; [apply Hn|done]).
  assert (n <? 2 ^ (64 - 1) = true) as Hlt by (apply Z.ltb_lt; eapply Z.le_lt_trans; [apply Hn|done]).
  assert (∃ b t, bytes (format_uint n) = b :: t ∧ 48 ≤ b) as (b&t&Hb&Hlow).
  { destruct (decimal_format n) as [->|(b&t&->&Hb&_)]; eexists _, _; (split; [done|]); lia. }
  unfold parse_int. destruct (format_uint n) as [|c s] eqn:Hf; [done|]. cbn in Hb. injection Hb as Hc _.
  rewrite Hp. destruct c as [[] [] [] [] [] [] [] []]; rewrite ?Hlt; try done; exfalso; unfold byte_val in Hc; cbn in Hc; lia.
Qed.
