(* ===== verification/JobTaskProofs.v ===== *)
(** * What [DecodeTask] guarantees

    The task accepted from a record is well formed, and each of its fields is what the record
    says; the Boolean checks and loops are equivalent to declarative conditions. *)
From S2P Require Import Prelude GoStd GoTime GoText External Json Dto JobTask Samples JsonPrint JsonRound.
Local Open Scope Z_scope.

Section Spec.
Context `{External}.

(** ** The loops of the checks, declaratively *)

Definition recipient_allowed (m : im.Message) (id : string) : Prop :=
  validID id "U" = true
  ∧ (im.ReceiveType m = im.ReceiveTypeUser → id = im.SendID m ∨ id = im.ReceiveID m).

Lemma strict_le_nleb a b : strict String.le a b ↔ String.leb b a = false.
Proof.
  unfold strict, String.le. rewrite !Is_true_true.
  destruct (String.leb b a) eqn:Hba; [by split; [intros [_ []]|]|].
  split; [done|]. intros _. split; [|done].
  destruct (String.leb_total a b) as [?|Hx]; [done|]. by rewrite Hba in Hx.
Qed.

Global Instance strict_string_transitive : Transitive (strict String.le).
Proof. intros a b c ??. by trans b. Qed.

Lemma recipients_ok_spec m prev ids :
  recipients_ok m prev ids = true ↔
  StronglySorted (strict String.le) (from_option (λ p, [p]) [] prev ++ ids)
  ∧ Forall (recipient_allowed m) ids.
Proof.
  revert prev. induction ids as [|id ids IH]; intros prev; simpl.
  { rewrite app_nil_r. split; [|done]. intros _. split; [|constructor].
    destruct prev; simpl; repeat constructor. }
  rewrite !andb_true_iff, IH, Forall_cons. simpl.
  assert (negb (bool_decide (im.ReceiveType m = im.ReceiveTypeUser)
            && bool_decide (id ≠ im.SendID m) && bool_decide (id ≠ im.ReceiveID m)) = true
          ↔ (im.ReceiveType m = im.ReceiveTypeUser → id = im.SendID m ∨ id = im.ReceiveID m)) as ->.
  { rewrite negb_true_iff, !andb_false_iff, !bool_decide_eq_false.
    destruct (decide (im.ReceiveType m = im.ReceiveTypeUser)),
      (decide (id = im.SendID m)), (decide (id = im.ReceiveID m)); naive_solver. }
  unfold recipient_allowed at 2.
  destruct prev as [p|]; simpl; [|naive_solver].
  rewrite negb_true_iff, <-strict_le_nleb. split.
  - intros [[[Hid Hp] Hd] [Hs Hf]]. split; [|done]. constructor; [done|].
    apply StronglySorted_inv in Hs as [? Hall]. constructor; [done|].
    eapply Forall_impl; [exact Hall|]. intros x Hx. by trans id.
  - intros [Hs [[? ?] ?]]. apply StronglySorted_inv in Hs as [Hs Hall].
    apply Forall_cons in Hall as [? _]. naive_solver.
Qed.

Lemma targets_ok_spec rs seen hs :
  targets_ok rs seen hs = true ↔
  NoDup (im.UserID <$> hs) ∧ Forall (λ h, im.UserID h ∉ seen) hs
  ∧ Forall (λ h, im.UserID h ∈ rs ∧ validConnection (Some (connectionView h)) = true) hs.
Proof.
  revert seen. induction hs as [|h hs IH]; intros seen; cbn [targets_ok fmap list_fmap].
  { split; [|done]. intros _. split_and!; constructor. }
  rewrite !andb_true_iff, IH, NoDup_cons, !Forall_cons, negb_true_iff,
    bool_decide_eq_true, bool_decide_eq_false.
  assert (Forall (λ h', im.UserID h' ∉ im.UserID h :: seen) hs ↔
          im.UserID h ∉ im.UserID <$> hs ∧ Forall (λ h', im.UserID h' ∉ seen) hs) as ->.
  { rewrite list_elem_of_fmap, !Forall_forall. set_solver. }
  naive_solver.
Qed.

Lemma pending_ok_spec rs seen ids :
  pending_ok rs seen ids = true ↔
  NoDup ids ∧ Forall (.∉ seen) ids ∧ Forall (.∈ rs) ids.
Proof.
  revert seen. induction ids as [|id ids IH]; intros seen; cbn [pending_ok].
  { split; [|done]. intros _. split_and!; constructor. }
  rewrite !andb_true_iff, IH, NoDup_cons, !Forall_cons, negb_true_iff,
    bool_decide_eq_true, bool_decide_eq_false.
  assert (Forall (.∉ id :: seen) ids ↔ id ∉ ids ∧ Forall (.∉ seen) ids) as ->.
  { rewrite !Forall_forall. set_solver. }
  naive_solver.
Qed.

(** ** Messages *)

(** The destination of a direct and of a group message. *)
Definition direct_ok (m : im.Message) : Prop :=
  validID (im.SessionID m) "S" = true ∧ validID (im.ReceiveID m) "U" = true ∧ im.SendID m ≠ im.ReceiveID m
  ∧ im.ConversationID m = "direct:" +:+ im.SessionID m.
Definition group_ok (m : im.Message) : Prop :=
  validID (im.SessionID m) "G" = true ∧ im.SessionID m = im.ReceiveID m ∧ im.ConversationID m = "group:" +:+ im.SessionID m.
Record message_ok (m : im.Message) : Prop := MessageOk {
  mo_id : validID (im.MessageID m) "M" = true;
  mo_sender : validID (im.SendID m) "U" = true;
  mo_position : ∃ n, 0 < n ≤ max_int64 ∧ im.Position m = format_int n;
  mo_time : t_ns (im.CreatedAt m) ≠ zero_ns ∧ t_offset (im.CreatedAt m) = 0
    ∧ timestamp_check_valid (timestamp_of_ns (t_ns (im.CreatedAt m))) = true;
  mo_text : im.Type_ m = im.MessageTypeText ∧ im.Content m ≠ "" ∧ len (im.Content m) ≤ 16384 ∧ utf8_valid (im.Content m) = true;
  mo_origin : im.Origin m = im.MessageOriginUser ∨ im.Origin m = im.MessageOriginAI;
  mo_destination : im.ReceiveType m = im.ReceiveTypeUser ∧ direct_ok m ∨ im.ReceiveType m = im.ReceiveTypeGroup ∧ group_ok m
}.
Lemma position_spec s :
  (∃ n, parse_int 64 s = Some n ∧ 0 < n ∧ format_int n = s) ↔ ∃ n, 0 < n ≤ max_int64 ∧ s = format_int n.
Proof.
  split.
  - intros (n&Hp&Hn&<-). exists n. split; [|done]. split; [done|]. by eapply parse_int_range.
  - intros (n&Hn&->). exists n. split; [by apply parse_format_int|]. split; [lia|done].
Qed.
Lemma ok_Some {E A} (o : option A) (e : E) x : match o with Some a => Ok a | None => Err e end = Ok x ↔ o = Some x.
Proof. destruct o; naive_solver. Qed.
Lemma ensure_passes {E A} b (e : E) (k : unit → result E A) : b = true → (∃ v, k tt = Ok v) → ∃ v, (ensure b e ≫= k) = Ok v.
Proof. by intros ->. Qed.
Lemma messageView_ok m : (∃ v, messageView m = Ok v) ↔ message_ok m.
Proof.
  unfold messageView. split.
  - intros [v Hv]. apply result_bind_Ok in Hv as (n&Hn%ok_Some&Hv). rewrite !ensure_bind_Ok, !andb_true_iff in Hv.
    destruct Hv as ([[[[[[Hi Hs] Hpos] Hf] Hz] Ho] Ht]&[[[Hty Hne] Hlen] Hu]&Hv).
    apply result_bind_Ok in Hv as (o&Hor&Hv). apply result_bind_Ok in Hv as (r&Hr&_).
    constructor; try done.
    + apply position_spec. exists n. apply bool_decide_eq_true in Hf. split_and!; [done|lia|done].
    + apply negb_true_iff in Hz. unfold is_zero in Hz. split_and!; [lia|lia|done].
    + apply bool_decide_eq_true in Hty, Hne. split_and!; try done. lia.
    + repeat case_bool_decide; auto; done.
    + unfold direct_ok, group_ok. case_bool_decide; [|case_bool_decide; [|done]]; rewrite ensure_bind_Ok, !andb_true_iff, !bool_decide_eq_true in Hr; naive_solver.
  - intros [Hi Hs Hp (Hz&Ho&Ht) (Hty&Hne&Hlen&Hu) Hor Hd]. apply position_spec in Hp as (n&Hn&Hpos&Hf). rewrite Hn.
    cbn [mbind result_bind]. apply ensure_passes; [|apply ensure_passes].
    + rewrite Hi, Hs, Ht, bool_decide_true by done. unfold is_zero. rewrite !andb_true_iff, negb_true_iff. split_and!; try done; lia.
    + rewrite Hu, !bool_decide_true by done. rewrite !andb_true_iff. split_and!; try done. lia.
    + assert (∃ o, (if bool_decide (im.Origin m = im.MessageOriginUser) then Ok pb.MESSAGE_ORIGIN_USER
        else if bool_decide (im.Origin m = im.MessageOriginAI) then Ok pb.MESSAGE_ORIGIN_AI else Err ErrInvalidTask) = Ok o) as [o ->]
        by (destruct Hor as [-> | ->]; by eexists).
      cbn [mbind result_bind]. destruct Hd as [[-> (H1&H2&H3&H4)]|[-> (H1&H2&H3)]].
      * rewrite (bool_decide_true (im.ReceiveTypeUser = _)) by done. rewrite H1, H2, !bool_decide_true by done. by eexists.
      * rewrite (bool_decide_false (_ = im.ReceiveTypeUser)), (bool_decide_true (_ = im.ReceiveTypeGroup)) by done.
        rewrite H1, !bool_decide_true by done. by eexists.
Qed.

(** ** Well-formed tasks *)

Record well_formed (t : im.PushTask) : Prop := WellFormed {
  wf_version : im.SchemaVersion t = im.PushSchemaVersion;
  wf_kind : im.Kind t = im.PushKind;
  wf_chunk : im.ChunkIndex t < im.ChunkCount t;
  wf_id : im.TaskID t = "push:v1:" +:+ im.MessageID (im.Message_ t) +:+ ":" +:+ format_uint (im.ChunkIndex t);
  wf_message : message_ok (im.Message_ t);
  wf_size : 1 ≤ slen (im.Recipients t) ≤ 100;
  wf_sorted : StronglySorted (strict String.le) (im.Recipients t);
  wf_allowed : Forall (recipient_allowed (im.Message_ t)) (im.Recipients t);
  wf_targets : ∃ hs, im.Targets t = Some hs ∧ NoDup (im.UserID <$> hs)
    ∧ Forall (λ h, im.UserID h ∈ im.Recipients t ∧ validConnection (Some (connectionView h)) = true) hs;
  wf_pending : NoDup (default [] (im.PendingRecipients t))
    ∧ Forall (.∈ im.Recipients t) (default [] (im.PendingRecipients t))
}.

(** The optional members: a request id is printable; a pending subset and a replay run
    come together, and are then not empty. *)
Record optional_ok (fields : list (string * json)) (t : im.PushTask) : Prop := OptionalOk {
  opt_request : ∀ v, lookup_key "request_id" fields = Some v → v ≠ JNull ∧ printable (im.RequestID t) 128 = true;
  opt_both : is_Some (lookup_key "pending_recipients" fields) ↔ is_Some (lookup_key "replay_run_id" fields);
  opt_subset : is_Some (lookup_key "pending_recipients" fields) →
    default [] (im.PendingRecipients t) ≠ [] ∧ printable (im.ReplayRunID t) 128 = true
}.

Lemma slen_nil_eqb {A} (l : list A) : (slen l =? 0) = false ↔ l ≠ [].
Proof. unfold slen. rewrite Z.eqb_neq. destruct l; simpl; naive_solver lia. Qed.

Lemma request_ok_spec fields t :
  match lookup_key "request_id" fields with
  | Some JNull => false | Some _ => printable (im.RequestID t) 128 | None => true
  end = true ↔
  ∀ v, lookup_key "request_id" fields = Some v → v ≠ JNull ∧ printable (im.RequestID t) 128 = true.
Proof. destruct (lookup_key "request_id" fields) as [[]|]; naive_solver. Qed.

Lemma replay_ok_spec fields t :
  let subset := match lookup_key "pending_recipients" fields with Some _ => true | None => false end in
  let run := match lookup_key "replay_run_id" fields with Some _ => true | None => false end in
  Bool.eqb subset run && negb (subset && ((slen (default [] (im.PendingRecipients t)) =? 0)
                                          || negb (printable (im.ReplayRunID t) 128))) = true ↔
  (is_Some (lookup_key "pending_recipients" fields) ↔ is_Some (lookup_key "replay_run_id" fields))
  ∧ (is_Some (lookup_key "pending_recipients" fields) →
     default [] (im.PendingRecipients t) ≠ [] ∧ printable (im.ReplayRunID t) 128 = true).
Proof.
  unfold is_Some. rewrite andb_true_iff, eqb_true_iff, negb_true_iff, andb_false_iff,
    orb_false_iff, negb_false_iff, slen_nil_eqb.
  destruct (lookup_key "pending_recipients" fields), (lookup_key "replay_run_id" fields); naive_solver.
Qed.

Lemma check_header_spec t :
  (im.SchemaVersion t =? 1) && bool_decide (im.Kind t = "message_push")
  && negb (im.ChunkCount t =? 0) && (im.ChunkIndex t <? im.ChunkCount t)
  && bool_decide (im.TaskID t = "push:v1:" +:+ im.MessageID (im.Message_ t) +:+ ":" +:+ format_uint (im.ChunkIndex t)) = true ↔
  im.SchemaVersion t = im.PushSchemaVersion ∧ im.Kind t = im.PushKind ∧ im.ChunkCount t ≠ 0
  ∧ im.ChunkIndex t < im.ChunkCount t
  ∧ im.TaskID t = "push:v1:" +:+ im.MessageID (im.Message_ t) +:+ ":" +:+ format_uint (im.ChunkIndex t).
Proof.
  rewrite !andb_true_iff, !bool_decide_eq_true, negb_true_iff, Z.eqb_eq, Z.eqb_neq, Z.ltb_lt. tauto.
Qed.

Lemma check_size_spec t :
  negb ((slen (im.Recipients t) <? 1) || (100 <? slen (im.Recipients t)))
  && match im.Targets t with Some _ => true | None => false end = true ↔
  1 ≤ slen (im.Recipients t) ≤ 100 ∧ is_Some (im.Targets t).
Proof.
  rewrite andb_true_iff, negb_true_iff, orb_false_iff, !Z.ltb_ge.
  destruct (im.Targets t); unfold is_Some; naive_solver lia.
Qed.

(** The checks of a decoded value accept exactly the well-formed tasks with well-formed
    optional members. *)
Lemma check_task_spec fields t :
  check_task fields t = Ok tt ↔
  well_formed t ∧ im.ChunkCount t ≠ 0 ∧ optional_ok fields t.
Proof.
  pose proof (replay_ok_spec fields t) as Hrep. cbn zeta in Hrep.
  unfold check_task. cbn zeta.
  rewrite ensure_bind_Ok, result_seq_Ok, !ensure_bind_Ok, ensure_Ok, check_header_spec,
    check_size_spec, recipients_ok_spec, targets_ok_spec, request_ok_spec, pending_ok_spec, Hrep.
  cbn [from_option app]. split.
  - intros ((?&?&?&?&?)&Hv%messageView_ok&[? [hs Hhs]]&[? ?]&(?&_&?)&?&[? ?]&(?&_&?)).
    rewrite Hhs in *. split_and!; [|done|by constructor]. constructor; try done; by eauto.
  - intros ([? ? ? ? Hv%messageView_ok? ?? (hs&Hhs&?&?) [? ?]]&?&[]).
    rewrite Hhs. cbn [default from_option]. unfold id.
    split_and!; try done; try lia; try (by apply Forall_true; set_solver); by eauto.
Qed.

Definition present (ms : list (string * json)) (key : string) : Prop :=
  ∃ v, lookup_key key ms = Some v ∧ v ≠ JNull.

Lemma requiredObject_spec v keys ms :
  requiredObject v keys = Some ms ↔ v = JObj ms ∧ Forall (present ms) keys.
Proof.
  assert (∀ ms, forallb (λ key, match lookup_key key ms with Some JNull | None => false | _ => true end) keys
          = true ↔ Forall (present ms) keys) as Hall.
  { intros ms'. rewrite forallb_Forall, !Forall_forall. unfold present.
    split; intros Hk key Hin; specialize (Hk key Hin); destruct (lookup_key key ms') as [[]|];
      naive_solver. }
  unfold requiredObject. destruct v; try naive_solver.
  specialize (Hall l). destruct (forallb _ keys); naive_solver.
Qed.

(** A record of at most 256 KiB of UTF-8 whose escapes are well formed, which is one JSON
    object of bounded depth without repeated or upper-case names. *)
Record acceptable_json (raw : string) (ms : list (string * json)) : Prop := AcceptableJson {
  acc_size : len raw ≤ 256 * 1024;
  acc_utf8 : utf8_valid raw = true;
  acc_escapes : validUnicodeEscapes raw = true;
  acc_parse : parse raw = Some (JObj ms);
  acc_check : checkJSON (JObj ms) 0 = true
}.

Lemma DecodeTask_iff raw t :
  DecodeTask raw = Ok t ↔
  ∃ ms message,
    acceptable_json raw ms ∧ Forall (present ms) task_keys
    ∧ lookup_key "message" ms = Some (JObj message) ∧ Forall (present message) message_keys
    ∧ decode_task_value (JObj ms) = Some t
    ∧ well_formed t ∧ im.ChunkCount t ≠ 0 ∧ optional_ok ms t.
Proof.
  unfold DecodeTask. rewrite ensure_bind_Ok, !andb_true_iff, Z.leb_le. split.
  - intros [[[??]?] Hrun]. destruct (parse_prefix raw) as [[v rest]|] eqn:Hp; [|done].
    cbn in Hrun. rewrite !ensure_bind_Ok, bool_decide_eq_true in Hrun.
    destruct Hrun as (Hc&Hrest&Hrun).
    destruct (decode_task_value v) as [t'|] eqn:Hd; [|done]. cbn in Hrun.
    destruct (requiredObject v task_keys) as [ms|] eqn:Hr; [|done]. cbn in Hrun.
    apply requiredObject_spec in Hr as [-> Hkeys].
    apply ensure_bind_Ok in Hrun as [Hmsg Hrun].
    destruct (lookup_key "message" ms) as [mv|] eqn:Hm; [|done].
    destruct (requiredObject mv message_keys) as [mms|] eqn:Hr'; [|done].
    apply requiredObject_spec in Hr' as [-> ?].
    apply result_seq_Ok in Hrun as [[[] Hcheck] [= ->]].
    apply check_task_spec in Hcheck as (?&?&?).
    exists ms, mms. split_and!; try done. constructor; try done.
    unfold parse. by rewrite Hp, bool_decide_true.
  - intros (ms&mms&[? ? ? Hp ?]&Hkeys&Hm&Hmk&Hd&?&?&?). split; [done|].
    unfold parse in Hp. destruct (parse_prefix raw) as [[v rest]|] eqn:Hpre; [|done].
    case_bool_decide as Hrest; [|done]. simplify_eq. cbn [mbind result_bind].
    rewrite !ensure_bind_Ok. split; [done|]. split; [by rewrite Hrest|].
    rewrite Hd. cbn [mbind result_bind]. destruct (requiredObject (JObj ms) task_keys) as [fs|] eqn:Hr.
    + apply requiredObject_spec in Hr as [[= <-] _]. cbn [mbind result_bind]. apply ensure_bind_Ok. rewrite Hm.
      assert (requiredObject (JObj mms) message_keys = Some mms) as -> by by apply requiredObject_spec.
      split; [done|]. apply result_seq_Ok. split; [|done]. exists tt. by apply check_task_spec.
    + assert (requiredObject (JObj ms) task_keys = Some ms) by by apply requiredObject_spec. congruence.
Qed.

Lemma DecodeTask_well_formed raw t : DecodeTask raw = Ok t → well_formed t.
Proof. rewrite DecodeTask_iff. naive_solver. Qed.
(** ** Escapes *)

(** Text whose escapes are complete: an escape of one character, of a code unit that is no
    surrogate, or of a high surrogate that the escape of a low one follows. *)
Inductive whole_escapes : list Z → Prop :=
| we_end : whole_escapes []
| we_byte b l : b ≠ 92 → whole_escapes l → whole_escapes (b :: l)
| we_short c l : c ≠ 117 → whole_escapes l → whole_escapes (92 :: c :: l)
| we_unit l u r : get_u4 l = Some (u, r) → u < 55296 ∨ 57343 < u → whole_escapes r → whole_escapes (92 :: 117 :: l)
| we_pair l hi r lo r' : get_u4 l = Some (hi, 92 :: 117 :: r) → 55296 ≤ hi ≤ 56319 →
    get_u4 r = Some (lo, r') → 56320 ≤ lo ≤ 57343 → whole_escapes r' → whole_escapes (92 :: 117 :: l).
Lemma get_u4_length l u r : get_u4 l = Some (u, r) → (length r < length l)%nat.
Proof. destruct l as [|a [|b [|c [|d l]]]]; try done. cbn. destruct (parse_hex4 a b c d); [|done]. intros [= _ <-]. lia. Qed.
Lemma escapes_whole n l : valid_escapes_from n l = true → (length l ≤ n)%nat → whole_escapes l.
Proof.
  revert l. induction n as [|n IH]; intros l Hv Hn; [destruct l; [constructor|cbn in Hn; lia]|].
  destruct l as [|b t]; [constructor|]. cbn [valid_escapes_from length] in *.
  destruct (Z.eqb_spec b 92) as [->|Hb]; cbn [negb] in Hv; [|constructor; [done|apply IH; [done|lia]]].
  destruct t as [|c t]; [done|]. cbn [length] in Hn.
  destruct (Z.eqb_spec c 117) as [->|Hc]; cbn [negb] in Hv; [|constructor; [done|apply IH; [done|lia]]].
  destruct (get_u4 t) as [[u r]|] eqn:Hu; [|done]. pose proof (get_u4_length _ _ _ Hu). unfold in_range in Hv.
  destruct ((56320 <=? u) && (u <=? 57343)) eqn:Hlow; [done|].
  destruct ((55296 <=? u) && (u <=? 56319)) eqn:Hhigh; [|apply (we_unit _ u r); [done|lia|apply IH; [done|lia]]].
  destruct r as [|x [|y r]]; try done. destruct ((x =? 92) && (y =? 117)) eqn:Hxy; [|done].
  assert (x = 92 ∧ y = 117) as [-> ->] by lia. destruct (get_u4 r) as [[lo r']|] eqn:Hlo; [|done].
  pose proof (get_u4_length _ _ _ Hlo). cbn [length] in *. destruct ((56320 <=? lo) && (lo <=? 57343)) eqn:Hl; [|done].
  apply (we_pair t u r lo r'); [done|lia|done|lia|apply IH; [done|lia]].
Qed.
Lemma whole_valid l : whole_escapes l → ∀ n, valid_escapes_from n l = true.
Proof.
  induction 1 as [|b l Hb _ IH|c l Hc _ IH|l u r Hu Hr _ IH|l hi r lo r' Hh Hhi Hl Hlo _ IH]; intros [|n]; cbn [valid_escapes_from]; try done.
  - rewrite (proj2 (Z.eqb_neq b 92) Hb). apply IH.
  - rewrite Z.eqb_refl, (proj2 (Z.eqb_neq c 117) Hc). apply IH.
  - rewrite !Z.eqb_refl, Hu. unfold in_range. cbn [negb].
    assert ((56320 <=? u) && (u <=? 57343) = false) as -> by lia. assert ((55296 <=? u) && (u <=? 56319) = false) as -> by lia. apply IH.
  - rewrite !Z.eqb_refl, Hh, Hl. unfold in_range. cbn [negb]. rewrite !Z.eqb_refl. cbn [andb].
    assert ((56320 <=? hi) && (hi <=? 57343) = false) as -> by lia. assert ((55296 <=? hi) && (hi <=? 56319) = true) as -> by lia.
    assert ((56320 <=? lo) && (lo <=? 57343) = true) as -> by lia. apply IH.
Qed.
Lemma validUnicodeEscapes_spec raw : validUnicodeEscapes raw = true ↔ whole_escapes (bytes raw).
Proof.
  unfold validUnicodeEscapes. split; [|intros Hw; by apply whole_valid]. intros Hv%escapes_whole; [done|]. by rewrite length_bytes.
Qed.

(** ** The structure of the text *)

(** [w] is [d] levels deep inside [v]. *)
Inductive inside : json → nat → json → Prop :=
| inside_self v : inside v 0 v
| inside_item l v d w : v ∈ l → inside v d w → inside (JArr l) (S d) w
| inside_member ms key v d w : (key, v) ∈ ms → inside v d w → inside (JObj ms) (S d) w.
(** Nothing is more than 16 levels deep, and no object has a name twice or with upper case. *)
Record unambiguous (v : json) : Prop := Unambiguous {
  un_depth d w : inside v d w → (d ≤ 16)%nat;
  un_names d ms : inside v d (JObj ms) → NoDup ms.*1 ∧ Forall (λ key, key = to_lower key) ms.*1
}.
Definition check_members (depth : Z) : list string → list (string * json) → bool :=
  fix members (seen : list string) (ms : list (string * json)) : bool :=
    match ms with
    | [] => true
    | (key, v) :: ms' =>
      negb (bool_decide (key ∈ seen)) && bool_decide (key = to_lower key)
      && checkJSON v (depth + 1) && members (key :: seen) ms'
    end.
Lemma checkJSON_eq v depth : checkJSON v depth =
  (if 16 <? depth then false else
   match v with JObj ms => check_members depth [] ms | JArr l => forallb (λ v, checkJSON v (depth + 1)) l | _ => true end).
Proof. by destruct v. Qed.
Lemma check_members_spec depth seen ms : check_members depth seen ms = true ↔
  NoDup ms.*1 ∧ Forall (.∉ seen) ms.*1 ∧ Forall (λ key, key = to_lower key) ms.*1
  ∧ Forall (λ m, checkJSON m.2 (depth + 1) = true) ms.
Proof.
  revert seen. induction ms as [|[key v] ms IH]; intros seen; cbn [check_members fmap list_fmap fst].
  { split; [intros _; split_and!; constructor|done]. }
  rewrite !andb_true_iff, negb_true_iff, bool_decide_eq_false, bool_decide_eq_true, IH, NoDup_cons, !Forall_cons. cbn [snd].
  assert (Forall (.∉ key :: seen) ms.*1 ↔ key ∉ ms.*1 ∧ Forall (.∉ seen) ms.*1) as ->; [|tauto].
  rewrite !Forall_forall. split; [intros Hk|intros [Hk Hs] x Hx [->|Hin]%elem_of_cons; [done|by apply (Hs x)]].
  split; [intros Hin; destruct (Hk key Hin); by left|]. intros x Hx Hin. destruct (Hk x Hx). by right.
Qed.
Lemma checkJSON_inside v depth : checkJSON v depth = true → ∀ d w, inside v d w → checkJSON w (depth + Z.of_nat d) = true.
Proof.
  intros Hc d w Hw. revert depth Hc. induction Hw as [v|l v d w Hv _ IH|ms key v d w Hv _ IH]; intros depth Hc.
  - by rewrite Z.add_0_r.
  - rewrite checkJSON_eq in Hc. destruct (16 <? depth); [done|]. rewrite forallb_Forall, Forall_forall in Hc.
    replace (depth + Z.of_nat (S d)) with (depth + 1 + Z.of_nat d) by lia. by apply IH, Hc.
  - rewrite checkJSON_eq in Hc. destruct (16 <? depth); [done|]. apply check_members_spec in Hc as (_&_&_&Hc).
    rewrite Forall_forall in Hc. replace (depth + Z.of_nat (S d)) with (depth + 1 + Z.of_nat d) by lia. by apply IH, (Hc (key, v)).
Qed.
(** What [unambiguous] asks of the values inside [v], which is itself [depth] levels deep. *)
Definition fits_inside (v : json) (depth : Z) : Prop :=
  ∀ d w, inside v d w → depth + Z.of_nat d ≤ 16
    ∧ ∀ ms, w = JObj ms → NoDup ms.*1 ∧ Forall (λ key, key = to_lower key) ms.*1.
Lemma fits_item l v depth : fits_inside (JArr l) depth → v ∈ l → fits_inside v (depth + 1).
Proof.
  intros Hin Hv d w Hw. replace (depth + 1 + Z.of_nat d) with (depth + Z.of_nat (S d)) by lia. by eapply Hin, inside_item.
Qed.
Lemma fits_member ms key v depth : fits_inside (JObj ms) depth → (key, v) ∈ ms → fits_inside v (depth + 1).
Proof.
  intros Hin Hv d w Hw. replace (depth + 1 + Z.of_nat d) with (depth + Z.of_nat (S d)) by lia. by eapply Hin, inside_member.
Qed.
Lemma fits_checked : ∀ v depth, fits_inside v depth → checkJSON v depth = true.
Proof.
  fix IHv 1. intros v depth Hin. rewrite checkJSON_eq. pose proof (Hin 0%nat v ltac:(constructor)) as [Hd Hself].
  rewrite (proj2 (Z.ltb_ge _ _)) by lia. destruct v as [| | | |l|ms]; try done.
  - assert (∀ v, v ∈ l → fits_inside v (depth + 1)) as Hl by (intros v; by apply fits_item). clear Hin Hself Hd.
    induction l as [|v l IH]; [done|]. cbn [forallb]. rewrite andb_true_iff.
    split; [apply IHv, Hl; by left|apply IH; intros w Hw; apply Hl; by right].
  - destruct (Hself ms eq_refl) as [Hnd Hlow]. apply check_members_spec. split_and!; [done|by apply Forall_true; intros ? ?%elem_of_nil|done|].
    assert (∀ key v, (key, v) ∈ ms → fits_inside v (depth + 1)) as Hms by (intros key v; by apply fits_member).
    clear Hself Hd Hin Hnd Hlow. induction ms as [|[key v] ms IH]; [constructor|].
    constructor; [apply IHv, (Hms key v); by left|apply IH; intros k w Hw; apply (Hms k); by right].
Qed.
Lemma checkJSON_spec v : checkJSON v 0 = true ↔ unambiguous v.
Proof.
  split.
  - intros Hc. pose proof (checkJSON_inside v 0 Hc) as Hin. constructor.
    + intros d w Hw%Hin. rewrite checkJSON_eq in Hw. destruct (16 <? 0 + Z.of_nat d) eqn:Hd; [done|]. lia.
    + intros d ms Hw%Hin. rewrite checkJSON_eq in Hw. destruct (16 <? _); [done|]. apply check_members_spec in Hw. tauto.
  - intros [Hd Hn]. apply fits_checked. intros d w Hw. split; [apply Hd in Hw; lia|]. intros ms ->. by eapply Hn.
Qed.

(** ** What the fields of a task are *)

(** A member name of lower-case letters and underscores, which selects no field but its own. *)
Definition simple_byte (b : Z) : bool := in_range 97 122 b || (b =? 95).
Definition simple (key : string) : bool := forallb simple_byte (bytes key).
Definition simple_names (v : json) : Prop := ∀ d ms, inside v d (JObj ms) → Forall (λ key, simple key = true) ms.*1.
Definition fold_byte (b : Z) : Z := if in_range 97 122 b then b - 32 else b.
Lemma fold_simple l : forallb simple_byte l = true → fold_name l = fold_byte <$> l.
Proof.
  assert (∀ b, simple_byte b = true → 95 ≤ b ≤ 122) as Hrange by (intros b; unfold simple_byte, in_range; lia).
  induction l as [|a t IH]; [done|]. intros [Ha Ht]%andb_true_iff. specialize (IH Ht). apply Hrange in Ha. cbn [fold_name].
  destruct t as [|b t]; [done|]. rewrite (proj2 (Z.eqb_neq a 197)) by lia. cbn [andb].
  destruct t as [|c t]; [by rewrite IH|]. rewrite (proj2 (Z.eqb_neq a 226)) by lia. cbn [andb]. by rewrite IH.
Qed.
Lemma fold_byte_inj a b : simple_byte a = true → simple_byte b = true → fold_byte a = fold_byte b → a = b.
Proof.
  unfold simple_byte, fold_byte, in_range. destruct ((97 <=? a) && (a <=? 122)) eqn:Ha, ((97 <=? b) && (b <=? 122)) eqn:Hb; cbn [orb]; lia.
Qed.
Lemma names_simple key tag : simple key = true → simple tag = true → names key tag = bool_decide (key = tag).
Proof.
  unfold simple, names. intros Hk Ht. rewrite !fold_simple by done. apply bool_decide_ext. split; [|by intros ->].
  intros Heq. rewrite <-(of_bytes_bytes key), <-(of_bytes_bytes tag). f_equal.
  rewrite forallb_Forall in Hk, Ht. revert Ht Heq. generalize (bytes tag) as k. induction Hk as [|a l Ha Hl IH]; intros [|b k] Ht Heq; try done.
  apply Forall_cons in Ht as [Hb Hk]. injection Heq as Hab Heq. f_equal; [by apply fold_byte_inj|by apply IH].
Qed.

(** [simple_names] as a check. *)
Fixpoint all_simple (v : json) : bool :=
  match v with
  | JObj ms => (fix members (ms : list (string * json)) : bool :=
      match ms with [] => true | (key, v) :: ms => simple key && all_simple v && members ms end) ms
  | JArr l => forallb all_simple l
  | _ => true
  end.
Lemma simple_all v : all_simple v = true → simple_names v.
Proof.
  intros Hv d ms Hin. remember (JObj ms) as w eqn:Hw. revert Hv. induction Hin as [v|l v d w Hv _ IH|ms' key v d w Hv _ IH]; intros Ha.
  - subst v. clear -Ha. induction ms as [|[key v] ms IH]; [constructor|]. cbn in Ha. rewrite !andb_true_iff in Ha.
    destruct Ha as [[Hk _] Hms]. constructor; [done|exact (IH Hms)].
  - apply IH; [done|]. cbn [all_simple] in Ha. rewrite forallb_Forall, Forall_forall in Ha. by apply Ha.
  - apply IH; [done|]. clear -Ha Hv. induction ms' as [|[k u] ms IH]; [by apply elem_of_nil in Hv|]. cbn in Ha. rewrite !andb_true_iff in Ha.
    destruct Ha as [[_ Hu] Hms]. apply elem_of_cons in Hv as [[= <- <-]|Hv]; [done|exact (IH Hv Hms)].
Qed.

(** What a member says of a field: nothing when it is missing or null. *)
Definition text_is (s : string) (v : option json) : Prop :=
  match v with Some (JStr _ x) => s = x | Some JNull | None => s = "" | _ => False end.
Definition number_is (n : Z) (v : option json) : Prop :=
  match v with Some (JNum lit) => parse_uint 32 lit = Some n | Some JNull | None => n = 0 | _ => False end.
Definition time_is (t : time) (v : option json) : Prop :=
  match v with Some (JStr lit _) => parse_rfc3339 lit = Some t | Some JNull | None => t = zero_time | _ => False end.
Definition items_are {B} (says : B → option json → Prop) (l : list B) (v : option json) : Prop :=
  match v with Some (JArr vs) => Forall2 (λ b v, says b (Some v)) l vs | Some JNull | None => l = [] | _ => False end.
Record hint_says (ms : list (string * json)) (c : im.ConnectionIdentity) : Prop := HintSays {
  hs_user : text_is (im.UserID c) (lookup_key "user_id" ms);
  hs_instance : text_is (im.InstanceID c) (lookup_key "instance_id" ms);
  hs_connection : text_is (im.ConnectionID c) (lookup_key "connection_id" ms);
  hs_token : text_is (im.RouteToken c) (lookup_key "route_token" ms)
}.
Definition hint_is (c : im.ConnectionIdentity) (v : option json) : Prop :=
  match v with Some (JObj ms) => hint_says ms c | Some JNull => c = im.zero_connection | _ => False end.
Record message_says (ms : list (string * json)) (m : im.Message) : Prop := MessageSays {
  ms_id : text_is (im.MessageID m) (lookup_key "message_id" ms);
  ms_conversation : text_is (im.ConversationID m) (lookup_key "conversation_id" ms);
  ms_session : text_is (im.SessionID m) (lookup_key "session_id" ms);
  ms_sender : text_is (im.SendID m) (lookup_key "send_id" ms);
  ms_receiver : text_is (im.ReceiveID m) (lookup_key "receive_id" ms);
  ms_receive : text_is (im.ReceiveType m) (lookup_key "receive_type" ms);
  ms_type : text_is (im.Type_ m) (lookup_key "type" ms);
  ms_content : text_is (im.Content m) (lookup_key "content" ms);
  ms_origin : text_is (im.Origin m) (lookup_key "origin" ms);
  ms_created : time_is (im.CreatedAt m) (lookup_key "created_at" ms);
  ms_position : text_is (im.Position m) (lookup_key "position" ms)
}.
Record task_says (ms message : list (string * json)) (t : im.PushTask) : Prop := TaskSays {
  ts_version : number_is (im.SchemaVersion t) (lookup_key "schema_version" ms);
  ts_kind : text_is (im.Kind t) (lookup_key "kind" ms);
  ts_id : text_is (im.TaskID t) (lookup_key "task_id" ms);
  ts_message : message_says message (im.Message_ t);
  ts_recipients : items_are text_is (im.Recipients t) (lookup_key "recipients" ms);
  ts_targets : items_are hint_is (default [] (im.Targets t)) (lookup_key "targets" ms);
  ts_index : number_is (im.ChunkIndex t) (lookup_key "chunk_index" ms);
  ts_count : number_is (im.ChunkCount t) (lookup_key "chunk_count" ms);
  ts_request : text_is (im.RequestID t) (lookup_key "request_id" ms);
  ts_pending : items_are text_is (default [] (im.PendingRecipients t)) (lookup_key "pending_recipients" ms);
  ts_run : text_is (im.ReplayRunID t) (lookup_key "replay_run_id" ms)
}.

(** A field that one member sets: [get] reads it and [dec] decodes the member over its old value. *)
Definition sets {A B} (field : A → string → json → option A) (get : A → B) (dec : B → json → option B) (name : string) : Prop :=
  ∀ a key v a', simple key = true → field a key v = Some a' →
    if bool_decide (key = name) then dec (get a) v = Some (get a') else get a' = get a.
Definition decoded_from {B} (dec : B → json → option B) (old new : B) (v : option json) : Prop :=
  match v with Some v => dec old v = Some new | None => new = old end.
Lemma lookup_key_None key ms : key ∉ ms.*1 → lookup_key key ms = None.
Proof.
  induction ms as [|[k v] ms IH]; cbn; [done|]. intros [Hk Hms]%not_elem_of_cons. rewrite IH by done. by rewrite bool_decide_false.
Qed.
Lemma struct_sets {A B} field (get : A → B) dec name ms a a' :
  sets field get dec name → NoDup ms.*1 → Forall (λ key, simple key = true) ms.*1 →
  decode_struct field a (JObj ms) = Some a' → decoded_from dec (get a) (get a') (lookup_key name ms).
Proof.
  intros Hset. cbn [decode_struct]. revert a. induction ms as [|[key v] ms IH]; intros a Hnd Hs Hd; cbn [fold_left fmap list_fmap fst snd] in *.
  { by injection Hd as ->. }
  apply NoDup_cons in Hnd as [Hkey Hnd]. apply Forall_cons in Hs as [Hk Hs]. cbn [mbind option_bind] in Hd.
  destruct (field a key v) as [a1|] eqn:Hf.
  2: { exfalso. clear -Hd. induction ms as [|m ms IH]; [done|]. by apply IH. }
  specialize (IH a1 Hnd Hs Hd). pose proof (Hset _ _ _ _ Hk Hf) as Hone. cbn [lookup_key]. case_bool_decide as Heq.
  - subst key. rewrite (lookup_key_None _ _ Hkey) in *. cbn in IH. cbn. by rewrite IH.
  - rewrite Hone in IH. by destruct (lookup_key name ms).
Qed.
Lemma text_from s v : decoded_from decode_string "" s v → text_is s v.
Proof. destruct v as [[]|]; cbn; try done; by intros [= ->]. Qed.
Lemma number_from n v : decoded_from decode_uint32 0 n v → number_is n v.
Proof. destruct v as [[]|]; cbn; try done; by intros [= ->]. Qed.
Lemma time_from t v : decoded_from decode_time zero_time t v → time_is t v.
Proof. destruct v as [[]|]; cbn; try done; by intros [= ->]. Qed.
Lemma elements_from {B} (elt : B → json → option B) zero vs l :
  decode_elements elt zero [] vs = Some l → Forall2 (λ b v, elt zero v = Some b) l vs.
Proof.
  revert l. induction vs as [|v vs IH]; intros l; cbn; [by intros [= <-]|].
  destruct (elt zero v) as [b|] eqn:Hb; [|done]. cbn. destruct (decode_elements elt zero [] vs) as [l'|]; [|done].
  intros [= <-]. constructor; [done|]. by apply IH.
Qed.
Lemma items_from {B} (elt : B → json → option B) zero (says : B → option json → Prop) (P : json → Prop) old l v :
  (∀ b j, P j → elt zero j = Some b → says b (Some j)) → (∀ vs j, v = Some (JArr vs) → j ∈ vs → P j) → default [] old = [] →
  decoded_from (decode_slice elt zero) old l v → items_are says (default [] l) v.
Proof.
  intros Hel HP Hold. destruct v as [[| | | |vs|]|]; cbn; try done; [by intros [= <-]| |by intros ->].
  rewrite Hold. destruct (decode_elements elt zero [] vs) as [l'|] eqn:Hd; [|done]. cbn. intros [= <-]. cbn.
  apply elements_from in Hd. specialize (HP vs). clear Hold. induction Hd as [|b j l' vs' Hj _ IH]; constructor.
  - apply Hel; [|done]. apply HP; [done|by left].
  - apply IH. intros j' _ Hj'. apply HP; [done|by right].
Qed.
Lemma list_from (l : list string) v : decoded_from (decode_list decode_string "") [] l v → items_are text_is l v.
Proof.
  intros Hd. assert (∃ o, default [] o = l ∧ decoded_from (decode_slice decode_string "") (Some []) o v) as (o&<-&Ho).
  { destruct v as [v|]; cbn in *; [|exists (Some l); by subst]. unfold decode_list in Hd.
    destruct (decode_slice _ _ _ v) as [o|]; [|done]. exists o. cbn in Hd. by injection Hd. }
  eapply (items_from decode_string "" text_is (λ _, True)); [|done| |exact Ho]; [|done]. intros b j _ Hj. by apply text_from.
Qed.
Ltac field_sets field :=
  intros [] key v a' Hk; unfold field; rewrite !(names_simple key) by (done || by vm_compute);
  repeat (case_bool_decide; [subst key|]); try done; intros (x&Hx&[= <-])%bind_Some; cbn; done.

Lemma hint_from c v :
  (∀ ms, v = JObj ms → NoDup ms.*1 ∧ Forall (λ key, simple key = true) ms.*1) →
  decode_struct connection_field im.zero_connection v = Some c → hint_is c (Some v).
Proof.
  intros Hms. destruct v as [| | | | |ms]; try done; [by intros [= <-]|]. intros Hd. destruct (Hms ms eq_refl) as [Hnd Hs].
  pose proof (λ B get dec name Hset, struct_sets (B := B) connection_field get dec name ms _ _ Hset Hnd Hs Hd) as Hget.
  constructor; apply text_from;
    [apply (Hget _ im.UserID)|apply (Hget _ im.InstanceID)|apply (Hget _ im.ConnectionID)|apply (Hget _ im.RouteToken)]; field_sets connection_field.
Qed.
Lemma message_from ms m : NoDup ms.*1 → Forall (λ key, simple key = true) ms.*1 →
  decode_struct message_field im.zero_message (JObj ms) = Some m → message_says ms m.
Proof.
  intros Hnd Hs Hd.
  pose proof (λ B get dec name Hset, struct_sets (B := B) message_field get dec name ms _ _ Hset Hnd Hs Hd) as Hget.
  constructor; first [apply time_from | apply text_from];
    [apply (Hget _ im.MessageID)|apply (Hget _ im.ConversationID)|apply (Hget _ im.SessionID)|apply (Hget _ im.SendID)
    |apply (Hget _ im.ReceiveID)|apply (Hget _ im.ReceiveType)|apply (Hget _ im.Type_)|apply (Hget _ im.Content)
    |apply (Hget _ im.Origin)|apply (Hget _ im.CreatedAt)|apply (Hget _ im.Position)]; field_sets message_field.
Qed.
Lemma task_from ms message t : unambiguous (JObj ms) → simple_names (JObj ms) → lookup_key "message" ms = Some (JObj message) →
  decode_task_value (JObj ms) = Some t → task_says ms message t.
Proof.
  intros Hun Hsimple Hm Hd.
  assert (∀ d ms', inside (JObj ms) d (JObj ms') → NoDup ms'.*1 ∧ Forall (λ key, simple key = true) ms'.*1) as Hin.
  { intros d ms' Hi. split; [by eapply (un_names _ Hun)|by eapply Hsimple]. }
  assert (∀ key v, lookup_key key ms = Some v → ∃ k, (k, v) ∈ ms) as Hmem.
  { intros key v. clear. induction ms as [|[k w] ms IH]; cbn; [done|]. destruct (lookup_key key ms) as [u|].
    - intros [= ->]. destruct (IH eq_refl) as [k' ?]. exists k'. by right.
    - case_bool_decide; [|done]. intros [= ->]. exists k. by left. }
  destruct (Hin 0%nat ms ltac:(constructor)) as [Hnd Hs].
  pose proof (λ B get dec name Hset, struct_sets (B := B) task_field get dec name ms _ _ Hset Hnd Hs Hd) as Hget.
  constructor.
  - apply number_from, (Hget _ im.SchemaVersion). field_sets task_field.
  - apply text_from, (Hget _ im.Kind). field_sets task_field.
  - apply text_from, (Hget _ im.TaskID). field_sets task_field.
  - pose proof (Hget _ im.Message_ (decode_struct message_field) "message" ltac:(field_sets task_field)) as Hmsg. rewrite Hm in Hmsg.
    destruct (Hmem _ _ Hm) as [k Hk]. destruct (Hin 1%nat message) as [Hnd' Hs']; [by eapply inside_member; [|constructor]|].
    by apply message_from.
  - pose proof (Hget _ im.Recipients (decode_list decode_string "") "recipients" ltac:(field_sets task_field)) as Hr.
    by eapply list_from.
  - apply (items_from (decode_struct connection_field) im.zero_connection hint_is
      (λ j, ∀ ms', j = JObj ms' → NoDup ms'.*1 ∧ Forall (λ key, simple key = true) ms'.*1) None).
    + intros b j Hj. by apply hint_from.
    + intros vs j Hvs Hj ms' ->. destruct (Hmem _ _ Hvs) as [k Hk]. apply (Hin 2%nat). by eapply inside_member, inside_item, inside_self.
    + done.
    + apply (Hget _ im.Targets). field_sets task_field.
  - apply number_from, (Hget _ im.ChunkIndex). field_sets task_field.
  - apply number_from, (Hget _ im.ChunkCount). field_sets task_field.
  - apply text_from, (Hget _ im.RequestID). field_sets task_field.
  - apply (items_from decode_string "" text_is (λ _, True) None); [|done|done|].
    + intros b j _ Hj. by apply text_from.
    + apply (Hget _ im.PendingRecipients). field_sets task_field.
  - apply text_from, (Hget _ im.ReplayRunID). field_sets task_field.
Qed.

(** C37: [DecodeTask] accepts exactly the records that are acceptable JSON, carry every
    required member of the task and of its message, decode strictly into the task, and
    whose task is well formed.  Acceptable: at most 256 KiB of UTF-8 whose escapes are whole, one JSON
    object nested 16 deep at most, no object with a name twice or with upper case.  Well formed:
    version, kind and task id, a message with valid identities, position, time, text,
    origin and destination, 1 to 100 recipients in strictly increasing order, a direct message for
    its two parties only, one valid hint per recipient at most, a pending subset of distinct
    recipients, and the optional members as they must be.  When the names are simple, so that none is
    an alias, every field of the task and of what it contains is what its own member says. *)
Theorem DecodeTask_spec raw t :
  (DecodeTask raw = Ok t ↔
   ∃ ms message,
     len raw ≤ 262144 ∧ utf8_valid raw = true ∧ whole_escapes (bytes raw)
     ∧ parse raw = Some (JObj ms) ∧ unambiguous (JObj ms) ∧ Forall (present ms) task_keys
     ∧ lookup_key "message" ms = Some (JObj message) ∧ Forall (present message) message_keys
     ∧ decode_task_value (JObj ms) = Some t
     ∧ well_formed t ∧ im.ChunkCount t ≠ 0 ∧ optional_ok ms t)
  ∧ (∀ ms message, DecodeTask raw = Ok t → parse raw = Some (JObj ms) → simple_names (JObj ms) →
       lookup_key "message" ms = Some (JObj message) → task_says ms message t).
Proof.
  split.
  - rewrite DecodeTask_iff. split.
    + intros (ms&message&[Hs Hu He Hp Hc]&Hrest). exists ms, message. apply validUnicodeEscapes_spec in He. by apply checkJSON_spec in Hc.
    + intros (ms&message&Hs&Hu&He%validUnicodeEscapes_spec&Hp&Hc%checkJSON_spec&Hrest). by exists ms, message.
  - intros ms message (ms'&message'&[_ _ _ Hp' Hc]&_&_&_&Hd&_)%DecodeTask_iff Hp Hsimple Hm. rewrite Hp in Hp'. injection Hp' as <-.
    apply task_from; [by apply checkJSON_spec|done|done|done].
Qed.
End Spec.

(** The task with one hint: its names are simple, and the user of the hint is the first recipient. *)
Definition sample_members : list (string * json) := match parse hinted_task with Some (JObj ms) => ms | _ => [] end.
Definition sample_message_members : list (string * json) :=
  match lookup_key "message" sample_members with Some (JObj ms) => ms | _ => [] end.
Lemma DecodeTask_spec_witness :
  DecodeTask (H := Reference.external) hinted_task = Ok (decoded hinted_task)
  ∧ well_formed (H := Reference.external) (decoded hinted_task)
  ∧ task_says sample_members sample_message_members (decoded hinted_task).
Proof.
  destruct (DecodeTask_spec (H := Reference.external) hinted_task (decoded hinted_task)) as [Hiff Hsays].
  assert (DecodeTask (H := Reference.external) hinted_task = Ok (decoded hinted_task)) as Hd by by vm_compute.
  split; [done|]. split; [apply Hiff in Hd as (ms&message&_&_&_&_&_&_&_&_&_&Hwf&_); exact Hwf|].
  apply Hsays; [done|by vm_compute| |by vm_compute].
  apply simple_all. by vm_compute.
Defined.
