(* ===== verification/TextRound.v ===== *)
(** * Any text survives printing and parsing

    [json.Marshal] escapes a valid UTF-8 text so that the parser returns it unchanged; and
    what it prints is itself valid UTF-8 without surrogate escapes. *)
From S2P Require Import Prelude GoStd GoTime GoText External Json Dto JobTask JsonPrint JsonRound.
Local Open Scope Z_scope.

(** ** Valid UTF-8, rune by rune *)

Inductive text : list Z → Prop :=
| text_nil : text []
| text_rune l r w : decode_rune l = Some (r, w) → text (drop w l) → text l.

Lemma decode_rune_width l r w : decode_rune l = Some (r, w) → (1 ≤ w ≤ length l)%nat.
Proof.
  destruct l as [|b0 t]; [done|]. cbn [decode_rune length].
  destruct (b0 <? 128); [intros [= _ <-]; lia|].
  destruct (in_range 194 223 b0).
  { destruct t as [|b1 t]; [done|]. destruct (cont_byte b1); [|done]. intros [= _ <-]. cbn. lia. }
  destruct (in_range 224 239 b0).
  { destruct t as [|b1 [|b2 t]]; try done. destruct (_ && _); [|done]. intros [= _ <-]. cbn. lia. }
  destruct (in_range 240 244 b0); [|done].
  destruct t as [|b1 [|b2 [|b3 t]]]; try done. destruct (_ && _); [|done]. intros [= _ <-]. cbn. lia.
Qed.
(** The decoder reads the bytes of the rune only. *)
Lemma decode_rune_prefix l r w k : decode_rune l = Some (r, w) → decode_rune (take w l ++ k) = Some (r, w).
Proof.
  destruct l as [|b0 t]; [done|]. cbn [decode_rune].
  destruct (b0 <? 128) eqn:E0; [intros [= <- <-]; cbn; by rewrite E0|].
  destruct (in_range 194 223 b0) eqn:E1.
  { destruct t as [|b1 t]; [done|]. destruct (cont_byte b1) eqn:C1; [|done]. intros [= <- <-].
    cbn. by rewrite E0, E1, C1. }
  destruct (in_range 224 239 b0) eqn:E2.
  { destruct t as [|b1 [|b2 t]]; try done. destruct (_ && _) eqn:C2; [|done]. intros [= <- <-].
    cbn. by rewrite E0, E1, E2, C2. }
  destruct (in_range 240 244 b0) eqn:E3; [|done].
  destruct t as [|b1 [|b2 [|b3 t]]]; try done. destruct (_ && _) eqn:C3; [|done]. intros [= <- <-].
  cbn. by rewrite E0, E1, E2, E3, C3.
Qed.
Lemma drop_prefix {A} (l k : list A) w : (w ≤ length l)%nat → drop w (take w l ++ k) = k.
Proof. intros Hw. rewrite drop_app_length'; [done|]. rewrite length_take. lia. Qed.

Lemma text_of_valid n l : (length l ≤ n)%nat → utf8_valid_from n l = true → text l.
Proof.
  revert l. induction n as [|n IH]; intros l Hn Hv; [destruct l; [constructor|cbn in Hn; lia]|].
  destruct l as [|b t]; [constructor|]. cbn [utf8_valid_from] in Hv.
  destruct (decode_rune (b :: t)) as [[r w]|] eqn:Hd; [|done]. apply text_rune with r w; [done|].
  apply IH; [|done]. apply decode_rune_width in Hd. rewrite length_drop. lia.
Qed.
Lemma text_valid n l : text l → (length l ≤ n)%nat → utf8_valid_from n l = true.
Proof.
  intros Ht. revert n. induction Ht as [|l r w Hd _ IH]; intros n Hn; [by destruct n|].
  apply decode_rune_width in Hd as Hw. destruct l as [|b t]; [cbn in Hw; lia|]. destruct n as [|n]; [cbn in Hn; lia|].
  cbn [utf8_valid_from]. rewrite Hd. apply IH. rewrite length_drop. lia.
Qed.
Lemma utf8_valid_text s : utf8_valid s = true ↔ text (bytes s).
Proof.
  unfold utf8_valid. rewrite <-length_bytes. split; [by apply text_of_valid|intros Ht; by apply text_valid].
Qed.
Lemma text_app l k : text l → text k → text (l ++ k).
Proof.
  intros Hl Hk. induction Hl as [|l r w Hd _ IH]; [done|]. apply decode_rune_width in Hd as Hw.
  apply text_rune with r w.
  - rewrite <-(take_drop w l), <-app_assoc. by apply decode_rune_prefix.
  - rewrite drop_app_le by lia. done.
Qed.
Lemma text_ascii b l : b < 128 → text l → text (b :: l).
Proof.
  intros Hb Hl. apply text_rune with b 1%nat; [|by rewrite skipn_cons, drop_0].
  cbn. by rewrite (proj2 (Z.ltb_lt _ _) Hb).
Qed.
Lemma text_all_ascii l : Forall (λ b, b < 128) l → text l.
Proof. induction 1; [constructor|by apply text_ascii]. Qed.
Lemma text_prefix l r w : decode_rune l = Some (r, w) → text (take w l).
Proof.
  intros Hd. apply text_rune with r w.
  - rewrite <-(app_nil_r (take w l)). by apply decode_rune_prefix.
  - rewrite drop_ge by (rewrite length_take; lia). constructor.
Qed.

(** ** Escapes are read back *)

Lemma hex_low_digit v : 0 ≤ v < 16 → hex_digit (hex_low v) = Some v.
Proof.
  intros Hv. assert (∃ n, (n < 16)%nat ∧ v = Z.of_nat n) as (n&Hn&->) by (exists (Z.to_nat v); lia). clear Hv.
  do 16 (destruct n as [|n]; [done|]). lia.
Qed.
Lemma hex_low_ascii v : 0 ≤ v < 16 → 48 ≤ hex_low v < 128.
Proof. intros Hv. unfold hex_low. destruct (Z.ltb_spec v 10); lia. Qed.
Lemma get_u4_escape r t : 0 ≤ r < 65536 →
  get_u4 (hex_low (r / 4096 mod 16) :: hex_low (r / 256 mod 16) :: hex_low (r / 16 mod 16) :: hex_low (r mod 16) :: t)
  = Some (r, t).
Proof.
  intros Hr. cbn [get_u4]. unfold parse_hex4. rewrite !hex_low_digit by (apply Z.mod_pos_bound; lia).
  do 2 f_equal. Z.to_euclidean_division_equations. lia.
Qed.

(** The line separators, whose three bytes are printed as an escape. *)
Lemma separator_bytes l r w :
  Forall is_byte l → decode_rune l = Some (r, w) → r = 8232 ∨ r = 8233 → take w l = encode_rune r.
Proof.
  unfold is_byte. intros Hl Hd Hr. destruct l as [|b0 t]; [done|]. cbn [decode_rune] in Hd.
  rewrite Forall_cons in Hl. destruct Hl as [Hb0 Hl].
  destruct (b0 <? 128) eqn:E0; [injection Hd as -> _; apply Z.ltb_lt in E0; lia|].
  destruct (in_range 194 223 b0) eqn:E1.
  { destruct t as [|b1 t]; [done|]. destruct (cont_byte b1); [|done]. injection Hd as <- _.
    rewrite land_31, land_63 in Hr. Z.to_euclidean_division_equations. lia. }
  destruct (in_range 224 239 b0) eqn:E2.
  { destruct t as [|b1 [|b2 t]]; try done. destruct (_ && _) eqn:C2; [|done]. injection Hd as Hd <-.
    rewrite !Forall_cons in Hl. destruct Hl as (?&?&_). cbn [take].
    unfold cont_byte, in_range in *. rewrite !andb_true_iff, !Z.leb_le in *.
    rewrite land_15, !land_63 in Hd.
    assert (b0 = 226 ∧ b1 = 128 ∧ b2 = r - 8064) as (->&->&->).
    { destruct (b0 =? 224), (b0 =? 237); Z.to_euclidean_division_equations; lia. }
    by destruct Hr as [-> | ->]. }
  destruct (in_range 240 244 b0) eqn:E3; [|done].
  destruct t as [|b1 [|b2 [|b3 t]]]; try done. destruct (_ && _) eqn:C3; [|done]. injection Hd as Hd _.
  unfold cont_byte, in_range in *. rewrite !andb_true_iff, !Z.leb_le in *.
  rewrite land_7, !land_63 in Hd. exfalso.
  destruct (Z.eqb_spec b0 240), (Z.eqb_spec b0 244); try lia; Z.to_euclidean_division_equations; lia.
Qed.

(** The pieces [escape_from] prints for one rune. *)
Inductive piece : list Z → list Z → Prop :=
| piece_plain b : 32 ≤ b < 128 → b ≠ 34 → b ≠ 92 → piece [b] [b]
| piece_simple b c : b < 128 → c ≠ 117 → 0 ≤ c < 128 → simple_escape c = Some b → piece [b] [92; c]
| piece_unicode r : 0 ≤ r < 65536 → is_surrogate r = false → piece (encode_rune r) (u_escape r)
| piece_rune l r w : 128 ≤ default 0 (head l) → decode_rune l = Some (r, w) → piece (take w l) (take w l).

Lemma escape_ascii_piece b : 0 ≤ b < 128 → piece [b] (escape_ascii b).
Proof.
  intros Hb. unfold escape_ascii.
  destruct (Z.eqb_spec b 34) as [->|?]; [by apply piece_simple|].
  destruct (Z.eqb_spec b 92) as [->|?]; [by apply piece_simple|]. cbn [orb].
  destruct (Z.eqb_spec b 8) as [->|?]; [by apply piece_simple|].
  destruct (Z.eqb_spec b 12) as [->|?]; [by apply piece_simple|].
  destruct (Z.eqb_spec b 10) as [->|?]; [by apply piece_simple|].
  destruct (Z.eqb_spec b 13) as [->|?]; [by apply piece_simple|].
  destruct (Z.eqb_spec b 9) as [->|?]; [by apply piece_simple|].
  assert (encode_rune b = [b]) as He.
  { unfold encode_rune, in_range. rewrite (proj2 (Z.leb_gt 55296 b)) by lia. cbn [andb orb].
    rewrite (proj2 (Z.ltb_ge b 0)), (proj2 (Z.ltb_ge 1114111 b)) by lia. cbn [orb].
    by rewrite (proj2 (Z.ltb_lt b 128)) by lia. }
  destruct (Z.ltb_spec b 32), (Z.eqb_spec b 60), (Z.eqb_spec b 62), (Z.eqb_spec b 38); cbn [orb];
    try (rewrite <-He; apply piece_unicode; [lia|unfold is_surrogate, in_range; by rewrite (proj2 (Z.leb_gt 55296 b)) by lia]).
  apply piece_plain; lia.
Qed.

(** An escaped text is a sequence of pieces. *)
Inductive escaped : list Z → list Z → Prop :=
| escaped_nil : escaped [] []
| escaped_cons a p l e : piece a p → escaped l e → escaped (a ++ l) (p ++ e).
Lemma escape_escaped n l : Forall is_byte l → text l → (length l ≤ n)%nat → escaped l (escape_from n l).
Proof.
  intros Hb Ht. revert n. induction Ht as [|l r w Hd _ IH]; intros n Hn; [destruct n; constructor|].
  apply decode_rune_width in Hd as Hw. destruct l as [|b t]; [cbn in Hw; lia|]. destruct n as [|n]; [cbn in Hn; lia|].
  cbn [escape_from]. apply Forall_cons in Hb as Hb'. destruct Hb' as [Hb0 Hbt].
  assert (escaped (drop w (b :: t)) (escape_from n (drop w (b :: t)))) as Hrest.
  { apply IH; [by apply Forall_drop|]. rewrite length_drop. lia. }
  destruct (Z.ltb_spec b 128) as [Hlt|Hge].
  - cbn [decode_rune] in Hd. rewrite (proj2 (Z.ltb_lt _ _) Hlt) in Hd. injection Hd as <- <-.
    rewrite skipn_cons, drop_0 in Hrest. change (b :: t) with ([b] ++ t). constructor; [|done].
    apply escape_ascii_piece. unfold is_byte in Hb0. lia.
  - rewrite Hd. rewrite <-(take_drop w (b :: t)) at 1. constructor; [|done].
    destruct (Z.eqb_spec r 8232) as [->|Hr1].
    { cbn [orb]. rewrite (separator_bytes _ _ _ Hb Hd) by by left. by apply piece_unicode. }
    destruct (Z.eqb_spec r 8233) as [->|Hr2].
    { cbn [orb]. rewrite (separator_bytes _ _ _ Hb Hd) by by right. by apply piece_unicode. }
    cbn [orb]. by apply piece_rune with r.
Qed.

Lemma string_body_piece a p n l : piece a p →
  string_body (S n) (p ++ l) = '(s, rest) ← string_body n l; Some (a ++ s, rest).
Proof.
  intros Hp. destruct Hp as [b Hb H34 H92|b c Hb Hc Hc2 Hs|r Hr Hsur|k r w Hk Hd].
  - cbn [app string_body decode_rune]. rewrite !(proj2 (Z.eqb_neq _ _)) by lia.
    rewrite (proj2 (Z.ltb_ge _ _)), (proj2 (Z.ltb_lt b 128)) by lia. cbn [drop take]. by rewrite drop_0, take_0.
  - cbn [app string_body Z.eqb Pos.eqb Z.ltb Z.compare Pos.compare Pos.compare_cont].
    rewrite (proj2 (Z.eqb_neq _ _)) by done. rewrite Hs. done.
  - unfold u_escape. cbn [app string_body Z.eqb Pos.eqb Z.ltb Z.compare Pos.compare Pos.compare_cont].
    rewrite get_u4_escape by done. cbn [mbind option_bind]. unfold unescape_unit. rewrite Hsur. done.
  - apply decode_rune_width in Hd as Hw. apply decode_rune_prefix with (k := l) in Hd as Hd'.
    destruct k as [|b t]; [cbn in Hw; lia|]. destruct w as [|w]; [lia|]. change (128 ≤ b) in Hk.
    cbn [take app string_body]. cbn [take app] in Hd'. rewrite Hd'.
    rewrite (proj2 (Z.eqb_neq b 34)), (proj2 (Z.ltb_ge b 32)), (proj2 (Z.eqb_neq b 92)) by lia.
    change (b :: take w t ++ l) with (take (S w) (b :: t) ++ l). rewrite drop_prefix by lia.
    rewrite take_app_length' by (rewrite length_take; lia). done.
Qed.
Lemma string_body_escaped l e n r : escaped l e → (length e < n)%nat → string_body n (e ++ 34 :: r) = Some (l, r).
Proof.
  intros He. revert n. induction He as [|a p l e Hp _ IH]; intros n Hn.
  { destruct n as [|n]; [lia|]. done. }
  assert (1 ≤ length p)%nat as Hlen.
  { destruct Hp as [| | |k c w _ Hd]; [cbn; lia..|]. apply decode_rune_width in Hd. rewrite length_take. lia. }
  rewrite length_app in Hn. destruct n as [|n]; [lia|]. rewrite <-app_assoc, (string_body_piece a p) by done.
  rewrite IH by lia. done.
Qed.

(** ** Printed text is clean: valid UTF-8, and no surrogate escapes *)

Lemma valid_escapes_fuel n m l : (length l ≤ n)%nat → (length l ≤ m)%nat →
  valid_escapes_from n l = valid_escapes_from m l.
Proof.
  revert m l. induction n as [|n IH]; intros m l Hn Hm.
  { destruct l; [by destruct m|cbn in Hn; lia]. }
  destruct l as [|b t]; [by destruct m|]. destruct m as [|m]; [cbn in Hm; lia|]. cbn [length] in *.
  cbn [valid_escapes_from]. destruct (b =? 92); cbn [negb]; [|apply IH; lia].
  destruct t as [|c t]; [done|]. cbn [length] in *. destruct (c =? 117); cbn [negb]; [|apply IH; lia].
  destruct (get_u4 t) as [[u t']|] eqn:Hu; [|done].
  assert (length t' ≤ length t)%nat as Hlen.
  { destruct t as [|a1 [|a2 [|a3 [|a4 t]]]]; try done. cbn in Hu. destruct (parse_hex4 _ _ _ _); [|done].
    injection Hu as _ <-. cbn. lia. }
  destruct (in_range 56320 57343 u); [done|]. destruct (in_range 55296 56319 u); [|apply IH; lia].
  destruct t' as [|x [|y t'']]; try done. destruct (_ && _); [|done].
  destruct (get_u4 t'') as [[low r]|] eqn:Hu'; [|done]. destruct (in_range 56320 57343 low); [|done].
  assert (length r ≤ length t'')%nat.
  { destruct t'' as [|a1 [|a2 [|a3 [|a4 t'']]]]; try done. cbn in Hu'. destruct (parse_hex4 _ _ _ _); [|done].
    injection Hu' as _ <-. cbn. lia. }
  cbn [length] in *. apply IH; lia.
Qed.
Lemma valid_escapes_simple n c l : c ≠ 117 → valid_escapes_from (S n) (92 :: c :: l) = valid_escapes_from n l.
Proof. intros Hc. cbn [valid_escapes_from Z.eqb Pos.eqb negb]. by rewrite (proj2 (Z.eqb_neq _ _)). Qed.
Lemma valid_escapes_unicode n r l : 0 ≤ r < 65536 → is_surrogate r = false →
  valid_escapes_from (S n) (u_escape r ++ l) = valid_escapes_from n l.
Proof.
  intros Hr Hsur. unfold u_escape. cbn [app valid_escapes_from Z.eqb Pos.eqb negb]. rewrite get_u4_escape by done.
  unfold is_surrogate, in_range in *. rewrite andb_false_iff, !Z.leb_gt in Hsur.
  assert ((56320 <=? r) && (r <=? 57343) = false) as -> by (rewrite andb_false_iff, !Z.leb_gt; lia).
  by assert ((55296 <=? r) && (r <=? 56319) = false) as -> by (rewrite andb_false_iff, !Z.leb_gt; lia).
Qed.
(** Text the scan of the escapes walks over. *)
Definition passes (l : list Z) : Prop := ∀ k,
  valid_escapes_from (length (l ++ k)) (l ++ k) = valid_escapes_from (length k) k.
Lemma passes_nil : passes [].
Proof. done. Qed.
Lemma passes_app l k : passes l → passes k → passes (l ++ k).
Proof. intros Hl Hk r. by rewrite <-app_assoc, Hl, Hk. Qed.
Lemma passes_byte b : b ≠ 92 → passes [b].
Proof. intros Hb k. cbn [app length valid_escapes_from]. by rewrite (proj2 (Z.eqb_neq _ _)). Qed.
Lemma passes_bytes l : Forall (λ b, b ≠ 92) l → passes l.
Proof.
  induction 1 as [|b l Hb _ IH]; [apply passes_nil|]. change (b :: l) with ([b] ++ l).
  apply passes_app; [by apply passes_byte|done].
Qed.
Lemma piece_passes a p : piece a p → passes p.
Proof.
  intros [b Hb H34 H92|b c Hb Hc Hc2 Hs|r Hr Hsur|k r w Hk Hd].
  - by apply passes_byte.
  - intros k. cbn [app length]. rewrite valid_escapes_simple by done. apply valid_escapes_fuel; lia.
  - intros k. rewrite length_app. change (length (u_escape r)) with 6%nat. cbn [Nat.add].
    rewrite valid_escapes_unicode by done. apply valid_escapes_fuel; lia.
  - apply passes_bytes. apply decode_rune_prefix with (k := []) in Hd as Hd'. apply decode_rune_width in Hd as Hw.
    rewrite app_nil_r in Hd'. destruct k as [|b0 t]; [done|]. change (128 ≤ b0) in Hk.
    cbn [decode_rune] in Hd. rewrite (proj2 (Z.ltb_ge _ _)) in Hd by lia.
    destruct (in_range 194 223 b0).
    { destruct t as [|b1 t]; [done|]. destruct (cont_byte b1) eqn:C1; [|done]. injection Hd as _ <-.
      unfold cont_byte, in_range in C1. rewrite andb_true_iff, !Z.leb_le in C1. cbn. repeat constructor; lia. }
    destruct (in_range 224 239 b0).
    { destruct t as [|b1 [|b2 t]]; try done. destruct (_ && _) eqn:C2; [|done]. injection Hd as _ <-.
      unfold cont_byte, in_range in C2. rewrite !andb_true_iff, !Z.leb_le in C2. cbn.
      destruct (b0 =? 224), (b0 =? 237); repeat constructor; lia. }
    destruct (in_range 240 244 b0); [|done].
    destruct t as [|b1 [|b2 [|b3 t]]]; try done. destruct (_ && _) eqn:C3; [|done]. injection Hd as _ <-.
    unfold cont_byte, in_range in C3. rewrite !andb_true_iff, !Z.leb_le in C3. cbn.
    destruct (b0 =? 240), (b0 =? 244); repeat constructor; lia.
Qed.
Lemma piece_text a p : piece a p → text p.
Proof.
  intros [b Hb H34 H92|b c Hb Hc Hc2 Hs|r Hr Hsur|k r w Hk Hd]; [..|by eapply text_prefix];
    apply text_all_ascii; unfold u_escape; repeat constructor; try lia;
    apply hex_low_ascii, Z.mod_pos_bound; lia.
Qed.
Lemma escaped_clean l e : escaped l e → text e ∧ passes e.
Proof.
  induction 1 as [|a p l e Hp _ [IHt IHp]]; [by split; [constructor|apply passes_nil]|].
  split; [apply text_app; [by eapply piece_text|done]|apply passes_app; [by eapply piece_passes|done]].
Qed.

(** ** Strings *)

Lemma escaped_bytes l e : Forall is_byte l → escaped l e → Forall is_byte e.
Proof.
  intros Hb He. induction He as [|a p l e Hp _ IH]; [constructor|]. apply Forall_app in Hb as [Ha Hb].
  apply Forall_app. split; [|by apply IH].
  destruct Hp as [b|b c|r|k r w]; [done|unfold is_byte; repeat constructor; lia| |done].
  assert (∀ v, is_byte (hex_low (v mod 16))) as Hhex.
  { intros v. unfold is_byte. pose proof (hex_low_ascii (v mod 16) ltac:(apply Z.mod_pos_bound; lia)). lia. }
  unfold u_escape. repeat (constructor; [by apply Hhex || (unfold is_byte; lia)|]). constructor.
Qed.
Lemma print_escaped s : utf8_valid s = true → escaped (bytes s) (print_bytes s).
Proof.
  intros Hs. apply escape_escaped; [apply bytes_range|by apply utf8_valid_text|by rewrite length_bytes].
Qed.
Lemma print_bytes_bytes s : utf8_valid s = true → bytes (of_bytes (print_bytes s)) = print_bytes s.
Proof. intros Hs. apply bytes_of_bytes. eapply escaped_bytes; [apply bytes_range|by apply print_escaped]. Qed.

(** What the parser makes of a printed string. *)
Definition json_string (s : string) : json := JStr (of_bytes (print_bytes s)) s.
Lemma parses_text s : utf8_valid s = true → parses 1 (print_string s) (json_string s).
Proof.
  intros Hs. unfold print_string. split.
  { exists 34, (print_bytes s ++ [34]). by rewrite !bytes_app, bytes_quote, print_bytes_bytes. }
  intros n r Hn _. destruct n as [|n]; [lia|].
  rewrite !bytes_app, bytes_quote, print_bytes_bytes, <-!app_assoc by done.
  cbn [app parse_value skip_ws is_ws Z.eqb Pos.eqb orb]. unfold lex_string.
  rewrite (string_body_escaped (bytes s)); [|by apply print_escaped|rewrite length_app; cbn; lia].
  cbn [mbind option_bind]. unfold consumed.
  replace (length (print_bytes s ++ 34%Z :: r) - length (34%Z :: r))%nat with (length (print_bytes s)) by (rewrite length_app; lia).
  by rewrite take_app_length, of_bytes_bytes.
Qed.

(** ** Clean texts *)

Definition clean (s : string) : Prop := text (bytes s) ∧ passes (bytes s).
Lemma clean_app a b : clean a → clean b → clean (a +:+ b).
Proof. intros [??] [??]. split; rewrite bytes_app; [by apply text_app|by apply passes_app]. Qed.
Lemma plain_clean s : plain s = true → clean s.
Proof.
  unfold plain. rewrite forallb_Forall. intros Hs. split.
  - apply text_all_ascii. eapply Forall_impl; [exact Hs|]. intros b Hb%plain_byte_spec. lia.
  - apply passes_bytes. eapply Forall_impl; [exact Hs|]. intros b Hb%plain_byte_spec. lia.
Qed.
Lemma clean_quoted s : clean s → clean (quote +:+ s +:+ quote).
Proof. intros Hs. assert (clean quote) by by (split; [apply text_all_ascii|apply passes_bytes]; repeat constructor). by repeat apply clean_app. Qed.
Lemma clean_string s : utf8_valid s = true → clean (print_string s).
Proof.
  intros Hs. apply clean_quoted. unfold clean. rewrite print_bytes_bytes by done. by eapply escaped_clean, print_escaped.
Qed.
Lemma clean_field name v : plain name = true → clean v → clean (field name v).
Proof.
  intros Hn Hv. unfold field. rewrite !string_app_assoc. apply clean_app; [|done]. apply clean_app; [|by apply plain_clean].
  rewrite <-string_app_assoc. by apply clean_quoted, plain_clean.
Qed.
Lemma clean_comma l : Forall clean l → clean (comma_separated l).
Proof.
  induction 1 as [|x l Hx Hl IH]; [by apply plain_clean|]. destruct l as [|y l]; [done|].
  rewrite comma_cons. apply clean_app; [done|]. apply clean_app; [by apply plain_clean|done].
Qed.
Lemma clean_array l : Forall clean l → clean (print_array l).
Proof. intros Hl. unfold print_array. repeat apply clean_app; [by apply plain_clean|by apply clean_comma|by apply plain_clean]. Qed.
Lemma clean_object l : Forall clean l → clean (print_object l).
Proof. intros Hl. unfold print_object. repeat apply clean_app; [by apply plain_clean|by apply clean_comma|by apply plain_clean]. Qed.
Lemma clean_uint n : clean (format_uint n).
Proof. apply plain_clean, plain_digits. Qed.
Lemma clean_valid s : clean s → utf8_valid s = true ∧ validUnicodeEscapes s = true.
Proof.
  intros [Ht Hp]. split; [by apply utf8_valid_text|]. unfold validUnicodeEscapes. specialize (Hp []).
  rewrite app_nil_r, length_bytes in Hp. by rewrite Hp.
Qed.
