(* ===== verification/TimeRound.v ===== *)
(** * An instant survives printing and parsing

    RFC 3339 with nanoseconds, as [Time.MarshalJSON] prints it, parses back to the
    same instant when the offset of its zone has whole minutes, in UTC above all.  The calendar
    is checked on one 400-year era by computation and carried over to all of them. *)
From S2P Require Import Prelude GoStd GoTime GoText External Json Dto JobTask JsonPrint JsonRound TextRound.
Local Open Scope Z_scope.

(** ** Years within an era *)

(** Days of the era before its year [y], years counted from March. *)
Definition era_year (y : Z) : Z := 365 * y + y / 4 - y / 100.
Definition year_of_day (doe : Z) : Z := (doe - doe / 1460 + doe / 36524 - doe / 146096) / 365.

(** All of [0 .. n-1]. *)
Definition upto (n : Z) : list Z := seqZ 0 n.
Lemma forallb_upto n f : forallb f (upto n) = true → ∀ x, 0 ≤ x < n → f x = true.
Proof. rewrite forallb_Forall, Forall_forall. intros Hf x Hx. apply Hf, elem_of_seqZ. lia. Qed.
Lemma year_of_day_mono a b : 0 ≤ a ≤ b → b < 146097 → year_of_day a ≤ year_of_day b.
Proof.
  intros Hab Hb. unfold year_of_day. apply Z.div_le_mono; [lia|]. Z.to_euclidean_division_equations. lia.
Qed.
Definition year_ok (y : Z) : bool :=
  (year_of_day (era_year y) =? y) && (year_of_day (Z.min 146096 (era_year (y + 1) - 1)) =? y)
  && (era_year (y + 1) - era_year y <=? 365 + (if is_leap (y + 1) then 1 else 0)).
Lemma years_ok : forallb year_ok (upto 400) = true.
Proof. vm_compute. reflexivity. Qed.
Lemma era_year_step n : 0 ≤ n → ∀ d, 0 ≤ d < era_year n → ∃ y, 0 ≤ y < n ∧ era_year y ≤ d < era_year (y + 1).
Proof.
  revert n. apply (natlike_ind (λ n, ∀ d, 0 ≤ d < era_year n → ∃ y, 0 ≤ y < n ∧ era_year y ≤ d < era_year (y + 1))).
  - intros d Hd. change (era_year 0) with 0 in Hd. lia.
  - cbn beta. intros n Hn IH d Hd. destruct (Z.ltb_spec d (era_year n)) as [Hlt|Hge].
    + destruct (IH d) as (y&?&?); [lia|]. exists y. split; [lia|done].
    + exists n. split; [lia|]. rewrite <-Z.add_1_r in Hd. lia.
Qed.
Lemma year_of_day_spec doe : 0 ≤ doe < 146097 →
  let y := year_of_day doe in
  0 ≤ y < 400 ∧ 0 ≤ doe - era_year y ≤ (if is_leap (y + 1) then 365 else 364).
Proof.
  intros Hd y. destruct (Z.eqb_spec doe 146096) as [->|Hne]; [by vm_compute|].
  destruct (era_year_step 400 ltac:(lia) doe) as (y'&Hy'&Hdy).
  { change (era_year 400) with 146096. lia. }
  pose proof (forallb_upto _ _ years_ok y' Hy') as Hok. unfold year_ok in Hok.
  rewrite !andb_true_iff, !Z.eqb_eq, Z.leb_le in Hok. destruct Hok as [[Hlo Hhi] Hlen].
  assert (0 ≤ era_year y') by (unfold era_year; Z.to_euclidean_division_equations; lia).
  pose proof (year_of_day_mono (era_year y') doe ltac:(lia) ltac:(lia)).
  pose proof (year_of_day_mono doe (Z.min 146096 (era_year (y' + 1) - 1)) ltac:(lia) ltac:(lia)).
  assert (y = y') as -> by (unfold y; lia). split; [lia|]. destruct (is_leap (y' + 1)); lia.
Qed.

(** ** Months within a year that starts in March *)

Definition month_of (doy : Z) : Z := let mp := (5 * doy + 2) / 153 in if mp <? 10 then mp + 3 else mp - 9.
Definition day_of (doy : Z) : Z := let mp := (5 * doy + 2) / 153 in doy - (153 * mp + 2) / 5 + 1.
Definition month_start (m : Z) : Z := nth (Z.to_nat (m - 1)) [0; 31; 59; 90; 120; 151; 181; 212; 243; 273; 304; 334] 0.
Definition month_ok (doy : Z) : bool :=
  let m := month_of doy in let d := day_of doy in
  in_range 1 12 m && (1 <=? d) && (d <=? (if m =? 2 then (if doy =? 365 then 29 else 28) else days_in m 1))
  && (month_start m + d - 1 =? doy + (if m <=? 2 then -306 else 59)).
Lemma months_ok : forallb month_ok (upto 366) = true.
Proof. vm_compute. reflexivity. Qed.

Lemma is_leap_era y e : is_leap (y + e * 400) = is_leap y.
Proof.
  unfold is_leap. replace (y + e * 400) with (y + e * 100 * 4) at 1 by lia. rewrite Z.mod_add by done.
  replace (y + e * 400) with (y + e * 4 * 100) at 1 by lia. rewrite Z.mod_add by done. by rewrite Z.mod_add.
Qed.
Lemma leap_days y : (y - 1) / 4 - (y - 1) / 100 + (y - 1) / 400 + (if is_leap y then 1 else 0) = y / 4 - y / 100 + y / 400.
Proof.
  unfold is_leap. destruct (Z.eqb_spec (y mod 4) 0), (Z.eqb_spec (y mod 100) 0), (Z.eqb_spec (y mod 400) 0); cbn [andb orb negb];
    Z.to_euclidean_division_equations; lia.
Qed.

(** The calendar date of a day number names that day. *)
Lemma date_round_trip z : let '(y, m, d) := date_of_days z in
  days_of_date y m d = z ∧ 1 ≤ m ≤ 12 ∧ 1 ≤ d ≤ days_in m y.
Proof.
  unfold date_of_days. set (era := (z + 719468) / 146097). set (doe := (z + 719468) mod 146097).
  fold (year_of_day doe). set (y := year_of_day doe). fold (era_year y). set (doy := doe - era_year y).
  fold (month_of doy). fold (day_of doy).
  assert (0 ≤ doe < 146097) as Hdoe by (apply Z.mod_pos_bound; lia).
  assert (z = era * 146097 + doe - 719468) as Hz by (unfold era, doe; Z.to_euclidean_division_equations; lia).
  destruct (year_of_day_spec doe Hdoe) as [Hy Hdoy]. fold y in Hy, Hdoy. fold doy in Hdoy.
  assert (0 ≤ doy < 366) as Hrange by (destruct (is_leap (y + 1)); lia).
  pose proof (forallb_upto _ _ months_ok doy Hrange) as Hok. unfold month_ok in Hok.
  set (m := month_of doy) in *. set (d := day_of doy) in *.
  unfold in_range in Hok. rewrite !andb_true_iff, !Z.leb_le, Z.eqb_eq in Hok. destruct Hok as [[[Hm Hd1] Hd2] Hstart].
  unfold days_of_date, days_before. fold (month_start m).
  destruct (Z.leb_spec m 2) as [Hm2|Hm2].
  - rewrite (proj2 (Z.ltb_ge 2 m)) by lia. cbn [andb]. split_and!; [|lia..|].
    + unfold era_year in doy. subst doy. Z.to_euclidean_division_equations. lia.
    + unfold days_in in *. destruct (Z.eqb_spec m 2) as [->|Hne2]; [|done].
      replace (y + era * 400 + 1) with (y + 1 + era * 400) by lia. rewrite is_leap_era.
      destruct (Z.eqb_spec doy 365), (is_leap (y + 1)); lia.
  - rewrite (proj2 (Z.ltb_lt 2 m)) by lia. cbn [andb].
    pose proof (leap_days (y + era * 400 + 0)) as Hleap. split_and!; [|lia..|].
    + unfold era_year in doy. subst doy. destruct (is_leap (y + era * 400 + 0)); Z.to_euclidean_division_equations; lia.
    + unfold days_in in *. rewrite (proj2 (Z.eqb_neq m 2)) in * by lia. done.
Qed.

(** ** Digits *)

Lemma digit_char v : 0 ≤ v < 10 → digit (48 + v) = Some v.
Proof. intros Hv. unfold digit, in_range. rewrite !(proj2 (Z.leb_le _ _)) by lia. cbn. f_equal. lia. Qed.
Lemma getnum_digits fixed v r : 0 ≤ v < 100 → getnum fixed (digits 2 v ++ r) = Some (v, r).
Proof.
  intros Hv. cbn [digits app getnum]. rewrite !digit_char by (apply Z.mod_pos_bound; lia).
  do 2 f_equal. Z.to_euclidean_division_equations. lia.
Qed.
Lemma getyear_digits v r : 0 ≤ v < 10000 → getyear (digits 4 v ++ r) = Some (v, r).
Proof.
  intros Hv. assert (digits 4 v = digits 2 (v / 100) ++ digits 2 v) as ->.
  { cbn [digits app]. by rewrite !Z.div_div. }
  unfold getyear. rewrite <-app_assoc, getnum_digits by (Z.to_euclidean_division_equations; lia).
  cbn [mbind option_bind]. assert (digits 2 v = digits 2 (v mod 100)) as ->.
  { cbn [digits app]. do 2 f_equal; [|f_equal]; Z.to_euclidean_division_equations; lia. }
  rewrite getnum_digits by (apply Z.mod_pos_bound; lia). cbn [mbind option_bind]. do 2 f_equal.
  Z.to_euclidean_division_equations. lia.
Qed.
Lemma digits_range n v : Forall (λ b, 48 ≤ b ≤ 57) (digits n v).
Proof.
  revert v. induction n as [|n IH]; intros v; cbn; [constructor|]. apply Forall_app. split; [done|].
  constructor; [|constructor]. pose proof (Z.mod_pos_bound v 10). lia.
Qed.
Lemma length_digits n v : length (digits n v) = n.
Proof. revert v. induction n as [|n IH]; intros v; cbn; [done|]. rewrite length_app, IH. cbn. lia. Qed.

Lemma span_digits_char l r : Forall (λ b, 48 ≤ b ≤ 57) l → match r with b :: _ => digit b = None | [] => True end →
  span_digits (l ++ r) = ((λ b, b - 48) <$> l, r).
Proof.
  intros Hl Hr. induction Hl as [|b l Hb _ IH]; cbn.
  - destruct r as [|b r]; [done|]. cbn. by rewrite Hr.
  - replace b with (48 + (b - 48)) at 1 by lia. by rewrite digit_char, IH by lia.
Qed.
Lemma digits_value_app l d : digits_value (l ++ [d]) = 10 * digits_value l + d.
Proof. unfold digits_value. by rewrite fold_left_app. Qed.
Lemma digits_value_digits n v : 0 ≤ v < 10 ^ Z.of_nat n → digits_value ((λ b, b - 48) <$> digits n v) = v.
Proof.
  revert v. induction n as [|n IH]; intros v Hv; [change (10 ^ Z.of_nat 0) with 1 in Hv; cbn; lia|].
  cbn [digits]. rewrite fmap_app. cbn [fmap list_fmap]. rewrite digits_value_app, IH.
  - Z.to_euclidean_division_equations. lia.
  - rewrite Nat2Z.inj_succ, Z.pow_succ_r in Hv by lia. split; [apply Z.div_pos; lia|]. apply Z.div_lt_upper_bound; lia.
Qed.
(** Dropping trailing zeros divides by a power of ten. *)
Lemma drop_zeros_split l : ∃ k, l = drop_zeros l ++ repeat 48 k.
Proof.
  induction l as [|b l [k IH]]; [by exists 0%nat|]. cbn [drop_zeros].
  destruct (drop_zeros l) as [|c t] eqn:Hd; cbn [app] in IH.
  - destruct (Z.eqb_spec b 48) as [->|?]; [exists (S k); cbn; congruence|exists k; cbn; congruence].
  - exists k. cbn. congruence.
Qed.
Lemma digits_value_zeros l k : digits_value (l ++ repeat 0 k) = digits_value l * 10 ^ Z.of_nat k.
Proof.
  induction k as [|k IH]; [cbn; rewrite app_nil_r; lia|].
  assert (repeat 0 (S k) = repeat 0 k ++ [0]) as -> by (by rewrite <-repeat_cons).
  rewrite app_assoc, digits_value_app, IH, Nat2Z.inj_succ, Z.pow_succ_r by lia. lia.
Qed.
Lemma get_fraction_print ns r : 0 ≤ ns < second → match r with b :: _ => b = 90 ∨ b = 43 ∨ b = 45 | [] => True end →
  get_fraction (print_fraction ns ++ r) = (ns, r).
Proof.
  intros Hns Hr. unfold print_fraction. destruct (drop_zeros_split (digits 9 ns)) as [k Hk].
  pose proof (digits_range 9 ns) as Hrange. rewrite Hk in Hrange. apply Forall_app in Hrange as [Hrange _].
  pose proof (length_digits 9 ns) as Hlen. rewrite Hk, length_app, repeat_length in Hlen.
  assert (digits_value ((λ b, b - 48) <$> drop_zeros (digits 9 ns)) * 10 ^ Z.of_nat k = ns) as Hval.
  { rewrite <-digits_value_zeros. etrans; [|by apply (digits_value_digits 9 ns)]. rewrite Hk at 2.
    rewrite fmap_app. do 2 f_equal. clear. induction k as [|k IH]; [done|]. cbn. f_equal. exact IH. }
  destruct (drop_zeros (digits 9 ns)) as [|c t] eqn:Hd.
  - cbn in Hval. rewrite <-Hval. destruct r as [|b r]; [done|]. by destruct Hr as [->|[-> | ->]].
  - cbn [app get_fraction Z.eqb Pos.eqb orb].
    assert (span_digits ((c :: t) ++ r) = ((λ b, b - 48) <$> (c :: t), r)) as Hspan.
    { apply span_digits_char; [done|]. destruct r as [|b r]; [done|]. by destruct Hr as [->|[-> | ->]]. }
    assert (length ((λ b, b - 48) <$> (c :: t)) = Nat.sub 9 k) as Hl by (rewrite length_fmap; lia).
    cbn [app] in Hspan. rewrite Hspan. destruct ((λ b, b - 48) <$> (c :: t)) as [|x ds] eqn:Hds; [done|].
    rewrite take_ge by (rewrite Hl; lia). do 2 f_equal. etrans; [|exact Hval]. unfold slen. rewrite Hl.
    do 2 f_equal. cbn in Hlen. lia.
Qed.

(** ** Instants *)

(** The zone of the text has whole minutes: the seconds of the offset of [t] are not printed, and
    the instant read back is the one of the same clock reading in that zone. *)
Definition zone_minutes (off : Z) : Z := Z.quot off 60 * 60.
Definition reread (t : time) : time :=
  Time (t_ns t + (t_offset t - zone_minutes (t_offset t)) * second) (zone_minutes (t_offset t)).
Lemma reread_minutes t : Z.rem (t_offset t) 60 = 0 → reread t = t.
Proof.
  intros Hr. destruct t as [n off]. unfold reread, zone_minutes. cbn [t_ns t_offset] in *. pose proof (Z.quot_rem' off 60). f_equal; lia.
Qed.
Lemma zone_head off : match print_zone off with b :: _ => b = 90 ∨ b = 43 ∨ b = 45 | [] => True end.
Proof. unfold print_zone. destruct (_ =? 0); [by left|]. destruct (_ <? 0); auto. Qed.
Lemma get_zone_print off : Z.abs off < 24 * 3600 → get_zone (print_zone off) = Some (zone_minutes off, []).
Proof.
  intros Hoff. unfold print_zone, zone_minutes. destruct (Z.eqb_spec off 0) as [->|Hne]; [done|]. set (q := Z.quot off 60).
  assert (Z.abs q < 1440) as Hq by (unfold q; Z.to_euclidean_division_equations; lia).
  assert (0 ≤ Z.abs q / 60 < 24 ∧ 0 ≤ Z.abs q mod 60 < 60) as [Hh Hm] by (Z.to_euclidean_division_equations; lia).
  assert (Z.abs q = Z.abs q / 60 * 60 + Z.abs q mod 60) as Habs by (Z.to_euclidean_division_equations; lia).
  rewrite <-(app_nil_r (digits 2 (Z.abs q mod 60))).
  set (r := (digits 2 (Z.abs q / 60) ++ 58 :: digits 2 (Z.abs q mod 60) ++ [])%list).
  assert (∀ c sign, (c = 43 ∧ sign = 1 ∨ c = 45 ∧ sign = -1) → get_zone (c :: r) = Some (sign * (Z.abs q * 60), [])) as Hz.
  { intros c sign Hc. unfold get_zone, r.
    assert ((c =? 90) = false) as -> by by destruct Hc as [[-> _]|[-> _]].
    assert ((if c =? 43 then Some 1 else if c =? 45 then Some (-1) else None) = Some sign) as -> by by destruct Hc as [[-> ->]|[-> ->]].
    cbn [mbind option_bind]. rewrite getnum_digits by lia. cbn [mbind option_bind expect Z.eqb Pos.eqb].
    rewrite getnum_digits by lia. cbn [mbind option_bind]. rewrite !(proj2 (Z.leb_le _ _)) by lia. cbn [andb]. by rewrite <-Habs. }
  destruct (Z.ltb_spec q 0) as [Hneg|Hpos]; [rewrite (Hz 45 (-1)) by auto|rewrite (Hz 43 1) by auto]; do 2 f_equal; lia.
Qed.
Lemma zone_plain off : Forall (λ b, plain_byte b = true) (print_zone off).
Proof.
  assert (∀ n v, Forall (λ b, plain_byte b = true) (digits n v)) as Hdig.
  { intros n v. eapply Forall_impl; [apply digits_range|]. intros b Hb. cbn in Hb. apply plain_byte_spec. lia. }
  unfold print_zone. destruct (_ =? 0); [by repeat constructor|]. constructor; [by destruct (_ <? 0)|].
  apply Forall_app. split; [apply Hdig|]. constructor; [done|apply Hdig].
Qed.

(** The text of an instant, and the instant it parses to. *)
Lemma print_time_reread t l :
  print_time_bytes t = Some l →
  Forall is_byte l ∧ forallb plain_byte l = true ∧ parse_rfc3339 (of_bytes l) = Some (reread t).
Proof.
  unfold print_time_bytes. set (secs := t_ns t / second + t_offset t). pose proof (date_round_trip (secs / 86400)) as Hdate.
  destruct (date_of_days (secs / 86400)) as [[y m] d]. destruct Hdate as (Hdays&Hm&Hd).
  destruct (in_range 0 9999 y) eqn:Hy; cbn [andb]; [|done]. destruct (Z.ltb_spec (Z.abs (t_offset t)) (24 * 3600)) as [Hoff|]; [|done].
  unfold in_range in Hy. rewrite andb_true_iff, !Z.leb_le in Hy.
  assert (d ≤ 31) as Hd31 by (unfold days_in in Hd; repeat case_match; lia).
  intros Heq. apply (inj Some) in Heq as <-.
  assert (0 ≤ secs mod 86400 < 86400) as Hday by (apply Z.mod_pos_bound; lia).
  set (day := secs mod 86400) in *.
  assert (0 ≤ t_ns t mod second < second) as Hns by (apply Z.mod_pos_bound; done).
  set (ns := t_ns t mod second) in *.
  assert (Forall (λ b, plain_byte b = true) (digits 4 y ++ 45 :: digits 2 m ++ 45 :: digits 2 d ++ 84 :: digits 2 (day / 3600)
    ++ 58 :: digits 2 (day / 60 mod 60) ++ 58 :: digits 2 (day mod 60) ++ print_fraction ns ++ print_zone (t_offset t))) as Hplain.
  { assert (∀ n v, Forall (λ b, plain_byte b = true) (digits n v)) as Hdig.
    { intros n v. eapply Forall_impl; [apply digits_range|]. intros b Hb. cbn in Hb. apply plain_byte_spec. lia. }
    assert (Forall (λ b, plain_byte b = true) (print_fraction ns)) as Hfrac.
    { unfold print_fraction. destruct (drop_zeros_split (digits 9 ns)) as [k Hk]. specialize (Hdig 9%nat ns).
      rewrite Hk in Hdig. apply Forall_app in Hdig as [Hdig _]. destruct (drop_zeros (digits 9 ns)); [constructor|].
      by constructor. }
    repeat first [apply zone_plain | apply Forall_app; split; [by apply Hdig || exact Hfrac|] | constructor; [done|]]. }
  assert (Forall is_byte (digits 4 y ++ 45 :: digits 2 m ++ 45 :: digits 2 d ++ 84 :: digits 2 (day / 3600)
    ++ 58 :: digits 2 (day / 60 mod 60) ++ 58 :: digits 2 (day mod 60) ++ print_fraction ns ++ print_zone (t_offset t))) as Hbyte.
  { eapply Forall_impl; [exact Hplain|]. intros b Hb%plain_byte_spec. unfold is_byte. lia. }
  split; [exact Hbyte|]. split; [by rewrite forallb_Forall|].
  unfold parse_rfc3339. rewrite bytes_of_bytes by exact Hbyte.
  rewrite getyear_digits by lia. cbn [mbind option_bind expect Z.eqb Pos.eqb].
  rewrite getnum_digits by lia. cbn [mbind option_bind expect Z.eqb Pos.eqb].
  rewrite getnum_digits by lia. cbn [mbind option_bind expect Z.eqb Pos.eqb].
  rewrite getnum_digits by (Z.to_euclidean_division_equations; lia). cbn [mbind option_bind expect Z.eqb Pos.eqb].
  rewrite getnum_digits by (pose proof (Z.mod_pos_bound (day / 60) 60); lia). cbn [mbind option_bind expect Z.eqb Pos.eqb].
  rewrite getnum_digits by (pose proof (Z.mod_pos_bound day 60); lia). cbn [mbind option_bind].
  rewrite get_fraction_print by first [done | apply zone_head]. rewrite get_zone_print by done. cbn [mbind option_bind].
  rewrite bool_decide_true by done. unfold in_range.
  rewrite !(proj2 (Z.leb_le _ _)) by lia.
  rewrite (proj2 (Z.ltb_lt (day / 3600) 24)) by (Z.to_euclidean_division_equations; lia).
  rewrite !(proj2 (Z.ltb_lt (_ mod 60) 60)) by (apply Z.mod_pos_bound; lia). cbn [andb].
  rewrite Hdays. unfold reread. do 2 f_equal.
  assert (secs / 86400 * 86400 + day / 3600 * 3600 + day / 60 mod 60 * 60 + day mod 60 = secs) as ->.
  { unfold day. Z.to_euclidean_division_equations. lia. }
  unfold secs, ns, second, millisecond. Z.to_euclidean_division_equations. lia.
Qed.
Lemma print_time_parses t l :
  t_offset t = 0 → print_time_bytes t = Some l →
  Forall is_byte l ∧ forallb plain_byte l = true ∧ parse_rfc3339 (of_bytes l) = Some t.
Proof. intros Hoff Hl%print_time_reread. rewrite reread_minutes in Hl by (by rewrite Hoff). exact Hl. Qed.
