(* ===== verification/TaskRound.v ===== *)
(** * A published task is accepted

    [json.Marshal] of a well-formed task is a record that [DecodeTask] accepts, and it
    decodes to that very task. *)
From S2P Require Import Prelude GoStd GoTime GoText External Json Dto JobTask JobTaskProofs JsonPrint JsonRound TextRound TimeRound Samples.
Local Open Scope Z_scope.

(** ** The JSON of the wire types *)

Definition connection_members (c : im.ConnectionIdentity) : list (string * json) :=
  [("user_id", json_string (im.UserID c)); ("instance_id", json_string (im.InstanceID c));
   ("connection_id", json_string (im.ConnectionID c)); ("route_token", json_string (im.RouteToken c))].
(** [created] is the text of the instant. *)
Definition message_members (m : im.Message) (created : string) : list (string * json) :=
  [("message_id", json_string (im.MessageID m)); ("conversation_id", json_string (im.ConversationID m));
   ("session_id", json_string (im.SessionID m)); ("send_id", json_string (im.SendID m));
   ("receive_id", json_string (im.ReceiveID m)); ("receive_type", json_string (im.ReceiveType m));
   ("type", json_string (im.Type_ m)); ("content", json_string (im.Content m));
   ("origin", json_string (im.Origin m)); ("created_at", JStr created created);
   ("position", json_string (im.Position m))].
Definition request_members (s : string) : list (string * json) :=
  if bool_decide (s = "") then [] else [("request_id", json_string s)].
Definition pending_members (l : option (list string)) : list (string * json) :=
  match l with Some ((_ :: _) as l) => [("pending_recipients", JArr (json_string <$> l))] | _ => [] end.
Definition run_members (s : string) : list (string * json) :=
  if bool_decide (s = "") then [] else [("replay_run_id", json_string s)].
Definition optional_members (t : im.PushTask) : list (string * json) :=
  request_members (im.RequestID t) ++ pending_members (im.PendingRecipients t) ++ run_members (im.ReplayRunID t).
Definition task_members (t : im.PushTask) (created : string) : list (string * json) :=
  [("schema_version", JNum (format_uint (im.SchemaVersion t))); ("kind", json_string (im.Kind t));
   ("task_id", json_string (im.TaskID t)); ("message", JObj (message_members (im.Message_ t) created));
   ("recipients", JArr (json_string <$> im.Recipients t));
   ("targets", match im.Targets t with None => JNull | Some l => JArr ((λ c, JObj (connection_members c)) <$> l) end);
   ("chunk_index", JNum (format_uint (im.ChunkIndex t))); ("chunk_count", JNum (format_uint (im.ChunkCount t)))]
  ++ optional_members t.

(** ** Tasks whose texts are valid *)

Record connection_text (c : im.ConnectionIdentity) : Prop := ConnectionText {
  ct_user : utf8_valid (im.UserID c) = true; ct_instance : utf8_valid (im.InstanceID c) = true;
  ct_connection : utf8_valid (im.ConnectionID c) = true; ct_token : utf8_valid (im.RouteToken c) = true
}.
Record message_text (m : im.Message) : Prop := MessageText {
  mt_id : utf8_valid (im.MessageID m) = true; mt_conversation : utf8_valid (im.ConversationID m) = true;
  mt_session : utf8_valid (im.SessionID m) = true; mt_sender : utf8_valid (im.SendID m) = true;
  mt_receiver : utf8_valid (im.ReceiveID m) = true; mt_receive : utf8_valid (im.ReceiveType m) = true;
  mt_type : utf8_valid (im.Type_ m) = true; mt_content : utf8_valid (im.Content m) = true;
  mt_origin : utf8_valid (im.Origin m) = true; mt_position : utf8_valid (im.Position m) = true;
  mt_utc : t_offset (im.CreatedAt m) = 0
}.
Record task_text (t : im.PushTask) : Prop := TaskText {
  tt_kind : utf8_valid (im.Kind t) = true; tt_id : utf8_valid (im.TaskID t) = true;
  tt_message : message_text (im.Message_ t);
  tt_recipients : Forall (λ s, utf8_valid s = true) (im.Recipients t);
  tt_targets : ∃ l, im.Targets t = Some l ∧ Forall connection_text l;
  tt_request : utf8_valid (im.RequestID t) = true;
  tt_pending : Forall (λ s, utf8_valid s = true) (default [] (im.PendingRecipients t));
  tt_run : utf8_valid (im.ReplayRunID t) = true
}.

Lemma member_text k name s : (1 ≤ k)%nat → plain name = true → utf8_valid s = true →
  member_parses k (field name (print_string s)) (name, json_string s).
Proof. intros Hk Hn Hs. apply member_intro; [done|]. eapply parses_mono; [by apply parses_text|done]. Qed.
Lemma parses_connection c : connection_text c → parses 6 (print_connection c) (JObj (connection_members c)).
Proof.
  intros []. unfold print_connection. eapply parses_mono; [apply (parses_object 1 _ (connection_members c))|cbn; lia].
  repeat (apply Forall2_cons; split; [by apply member_text|]). constructor.
Qed.
Lemma parses_zoned t s : print_time t = Some s →
  ∃ created, s = quote +:+ created +:+ quote ∧ plain created = true ∧ parse_rfc3339 created = Some (reread t).
Proof.
  unfold print_time. destruct (print_time_bytes t) as [l|] eqn:Hl; [|done]. intros [= <-].
  destruct (print_time_reread t l Hl) as (Hb&Hp&Ht). exists (of_bytes l). split; [done|].
  split; [|done]. unfold plain. by rewrite bytes_of_bytes.
Qed.
Lemma parses_time t s : t_offset t = 0 → print_time t = Some s →
  ∃ created, s = quote +:+ created +:+ quote ∧ plain created = true ∧ parse_rfc3339 created = Some t.
Proof. intros Hoff Hs%parses_zoned. rewrite reread_minutes in Hs by (by rewrite Hoff). exact Hs. Qed.
Lemma parses_message m text : message_text m → print_message m = Some text →
  ∃ created, parse_rfc3339 created = Some (im.CreatedAt m)
    ∧ parses 13 text (JObj (message_members m created)) ∧ clean text.
Proof.
  intros [] Hp. unfold print_message in Hp. destruct (print_time (im.CreatedAt m)) as [s|] eqn:Hs; [|done].
  destruct (parses_time _ _ mt_utc0 Hs) as (created&->&Hplain&Htime). injection Hp as <-.
  exists created. split; [done|].
  assert (quote +:+ created +:+ quote = print_string created) as -> by by rewrite print_plain.
  split.
  - eapply parses_mono; [apply (parses_object 1 _ (message_members m created))|cbn; lia].
    repeat (apply Forall2_cons; split; [first [by apply member_text | by apply member_intro; [|apply parses_string]]|]).
    constructor.
  - assert (utf8_valid created = true) by by apply clean_valid, plain_clean.
    apply clean_object. repeat (constructor; [apply clean_field; [done|by apply clean_string]|]). constructor.
Qed.
Lemma parses_strings l : Forall (λ s, utf8_valid s = true) l →
  parses (2 + length l) (print_array (print_string <$> l)) (JArr (json_string <$> l)) ∧ clean (print_array (print_string <$> l)).
Proof.
  intros Hl. split.
  - eapply parses_mono; [apply (parses_array 1)|rewrite length_fmap; lia]. apply Forall2_fmap_l, Forall2_fmap_r.
    induction Hl; constructor; [by apply parses_text|done].
  - apply clean_array, Forall_fmap. eapply Forall_impl; [exact Hl|]. intros s Hs. by apply clean_string.
Qed.
Lemma parses_connections l : Forall connection_text l →
  parses (7 + length l) (print_array (print_connection <$> l)) (JArr ((λ c, JObj (connection_members c)) <$> l))
  ∧ clean (print_array (print_connection <$> l)).
Proof.
  intros Hl. split.
  - eapply parses_mono; [apply (parses_array 6)|rewrite length_fmap; lia]. apply Forall2_fmap_l, Forall2_fmap_r.
    induction Hl; constructor; [by apply parses_connection|done].
  - apply clean_array, Forall_fmap. eapply Forall_impl; [exact Hl|]. intros c []. apply clean_object.
    repeat (constructor; [apply clean_field; [done|by apply clean_string]|]). constructor.
Qed.

(** ** The text of a task *)

(** The fuel for a task with lists of the given lengths. *)
Definition task_fuel (t : im.PushTask) : nat :=
  13 + length (im.Recipients t) + length (default [] (im.Targets t)) + length (default [] (im.PendingRecipients t)).
Lemma member_any k k' name value v : (k' ≤ k)%nat → plain name = true → parses k' value v → member_parses k (field name value) (name, v).
Proof. intros Hk Hn Hv. apply member_intro; [done|]. by eapply parses_mono. Qed.
Definition task_fields (t : im.PushTask) (message : string) : list string :=
  [field "schema_version" (format_uint (im.SchemaVersion t)); field "kind" (print_string (im.Kind t));
   field "task_id" (print_string (im.TaskID t)); field "message" message;
   field "recipients" (print_array (print_string <$> im.Recipients t));
   field "targets" (print_slice print_connection (im.Targets t));
   field "chunk_index" (format_uint (im.ChunkIndex t)); field "chunk_count" (format_uint (im.ChunkCount t))]
  ++ optional_string "request_id" (im.RequestID t)
  ++ optional_strings "pending_recipients" (im.PendingRecipients t)
  ++ optional_string "replay_run_id" (im.ReplayRunID t).
Lemma optional_parses k name s : (1 ≤ k)%nat → plain name = true → utf8_valid s = true →
  Forall2 (member_parses k) (optional_string name s) (if bool_decide (s = "") then [] else [(name, json_string s)])
  ∧ Forall clean (optional_string name s).
Proof.
  intros Hk Hn Hs. unfold optional_string. case_bool_decide; [by split; constructor|].
  split; (constructor; [|constructor]); [by apply member_text|by apply clean_field, clean_string].
Qed.
Lemma task_fields_parse t message created :
  task_text t → parses 13 message (JObj (message_members (im.Message_ t) created)) → clean message →
  Forall2 (member_parses (task_fuel t)) (task_fields t message) (task_members t created)
  ∧ Forall clean (task_fields t message).
Proof.
  intros [? ? _ Hr (ts&Ht&Hts) Hreq Hpend Hrun] Hm Hc.
  destruct (parses_strings _ Hr) as [Hpr Hcr]. destruct (parses_connections _ Hts) as [Hpt Hct].
  destruct (optional_parses (task_fuel t) "request_id" (im.RequestID t)) as [Hpq Hcq]; [unfold task_fuel; lia|done|done|].
  destruct (optional_parses (task_fuel t) "replay_run_id" (im.ReplayRunID t)) as [Hpu Hcu]; [unfold task_fuel; lia|done|done|].
  assert (Forall2 (member_parses (task_fuel t)) (optional_strings "pending_recipients" (im.PendingRecipients t))
            (pending_members (im.PendingRecipients t))
          ∧ Forall clean (optional_strings "pending_recipients" (im.PendingRecipients t))) as [Hpp Hcp].
  { destruct (im.PendingRecipients t) as [[|x l]|] eqn:Hp; [by split; constructor| |by split; constructor].
    cbn [default from_option] in Hpend. unfold id in Hpend. destruct (parses_strings _ Hpend) as [Hps Hcs].
    cbn [optional_strings pending_members]. split; (constructor; [|constructor]); [|by apply clean_field].
    eapply member_any; [|done|exact Hps]. unfold task_fuel. rewrite Hp. cbn [default from_option]. unfold id. lia. }
  unfold task_fields, task_members, optional_members. rewrite Ht. cbn [print_slice]. split.
  - assert (length (im.Recipients t) + length ts + 13 ≤ task_fuel t)%nat as Hfuel.
    { unfold task_fuel. rewrite Ht. cbn [default from_option]. unfold id. lia. }
    apply Forall2_app; [|by repeat apply Forall2_app].
    repeat (apply Forall2_cons; split; [first [ by apply member_text; [lia|..] | eapply member_any;
      [|done|first [apply parses_uint | exact Hm | exact Hpr | exact Hpt]]; lia ]|]). constructor.
  - apply Forall_app. split; [|by repeat (apply Forall_app; split)].
    repeat (constructor; [apply clean_field; [done|]; first [apply clean_uint | by apply clean_string | done]|]). constructor.
Qed.

(** ** The value decodes to the task *)

Lemma decode_connection c : decode_struct connection_field im.zero_connection (JObj (connection_members c)) = Some c.
Proof. by destruct c. Qed.
(** The members of a struct, applied one by one. *)
Section Fields.
Context {A : Type} (field : A → string → json → option A).
Definition apply_fields (ms : list (string * json)) (a : A) : option A :=
  fold_left (λ acc kv, a ← acc; field a kv.1 kv.2) ms (Some a).
Lemma apply_fields_cons k v ms a a' : field a k v = Some a' → apply_fields ((k, v) :: ms) a = apply_fields ms a'.
Proof. intros Hf. unfold apply_fields. cbn [fold_left fst snd mbind option_bind]. by rewrite Hf. Qed.
Lemma apply_fields_app ms ks a a' : apply_fields ms a = Some a' → apply_fields (ms ++ ks) a = apply_fields ks a'.
Proof. unfold apply_fields. rewrite fold_left_app. by intros ->. Qed.
End Fields.
Ltac field_step := erewrite apply_fields_cons; [|reflexivity].
Lemma decode_message m created : parse_rfc3339 created = Some (im.CreatedAt m) →
  decode_struct message_field im.zero_message (JObj (message_members m created)) = Some m.
Proof.
  destruct m. cbn [im.CreatedAt]. intros Ht. change (apply_fields message_field (message_members
    (im.MkMessage MessageID ConversationID SessionID SendID ReceiveID ReceiveType Type_ Content Origin CreatedAt Position) created)
    im.zero_message = Some (im.MkMessage MessageID ConversationID SessionID SendID ReceiveID ReceiveType Type_ Content Origin CreatedAt Position)).
  unfold message_members, im.zero_message. do 9 field_step.
  erewrite apply_fields_cons; [|cbn -[parse_rfc3339]; rewrite Ht; reflexivity].
  by field_step.
Qed.
Lemma decode_elements_map {A B} (elt : A → json → option A) (zero : A) (f : B → json) (g : B → A) l :
  (∀ b, elt zero (f b) = Some (g b)) → decode_elements elt zero [] (f <$> l) = Some (g <$> l).
Proof. intros Hf. induction l as [|b l IH]; [done|]. cbn. rewrite Hf. cbn. by rewrite IH. Qed.
Lemma decode_strings l : decode_elements decode_string "" [] (json_string <$> l) = Some l.
Proof. rewrite (decode_elements_map decode_string "" json_string id) by done. by rewrite list_fmap_id. Qed.
Lemma decode_connections l :
  decode_elements (decode_struct connection_field) im.zero_connection [] ((λ c, JObj (connection_members c)) <$> l) = Some l.
Proof. rewrite (decode_elements_map _ im.zero_connection _ id l decode_connection). by rewrite list_fmap_id. Qed.

(** The optional members agree: no empty subset, and a subset exactly with a replay run. *)
Definition optional_agree (t : im.PushTask) : Prop :=
  match im.PendingRecipients t with
  | None => im.ReplayRunID t = ""
  | Some l => l ≠ [] ∧ im.ReplayRunID t ≠ ""
  end.
(** The members that are not strings. *)
Section TaskFields.
Context (sv : Z) (kind tid : string) (msg : im.Message) (rcp : list string) (tgt : option (list im.ConnectionIdentity))
  (idx cnt : Z) (rid : string) (pend : option (list string)) (run : string) (v : json).
Let t : im.PushTask := im.MkPushTask sv kind tid msg rcp tgt idx cnt rid pend run.
Lemma field_schema x : decode_uint32 sv v = Some x →
  task_field t "schema_version" v = Some (im.MkPushTask x kind tid msg rcp tgt idx cnt rid pend run).
Proof. intros Hx. change (task_field t "schema_version" v) with (x ← decode_uint32 sv v; Some (im.MkPushTask x kind tid msg rcp tgt idx cnt rid pend run)). by rewrite Hx. Qed.
Lemma field_message x : decode_struct message_field msg v = Some x →
  task_field t "message" v = Some (im.MkPushTask sv kind tid x rcp tgt idx cnt rid pend run).
Proof. intros Hx. change (task_field t "message" v) with (x ← decode_struct message_field msg v; Some (im.MkPushTask sv kind tid x rcp tgt idx cnt rid pend run)). by rewrite Hx. Qed.
Lemma field_recipients x : decode_list decode_string "" rcp v = Some x →
  task_field t "recipients" v = Some (im.MkPushTask sv kind tid msg x tgt idx cnt rid pend run).
Proof. intros Hx. change (task_field t "recipients" v) with (x ← decode_list decode_string "" rcp v; Some (im.MkPushTask sv kind tid msg x tgt idx cnt rid pend run)). by rewrite Hx. Qed.
Lemma field_targets x : decode_slice (decode_struct connection_field) im.zero_connection tgt v = Some x →
  task_field t "targets" v = Some (im.MkPushTask sv kind tid msg rcp x idx cnt rid pend run).
Proof. intros Hx. change (task_field t "targets" v) with (x ← decode_slice (decode_struct connection_field) im.zero_connection tgt v; Some (im.MkPushTask sv kind tid msg rcp x idx cnt rid pend run)). by rewrite Hx. Qed.
Lemma field_index x : decode_uint32 idx v = Some x →
  task_field t "chunk_index" v = Some (im.MkPushTask sv kind tid msg rcp tgt x cnt rid pend run).
Proof. intros Hx. change (task_field t "chunk_index" v) with (x ← decode_uint32 idx v; Some (im.MkPushTask sv kind tid msg rcp tgt x cnt rid pend run)). by rewrite Hx. Qed.
Lemma field_count x : decode_uint32 cnt v = Some x →
  task_field t "chunk_count" v = Some (im.MkPushTask sv kind tid msg rcp tgt idx x rid pend run).
Proof. intros Hx. change (task_field t "chunk_count" v) with (x ← decode_uint32 cnt v; Some (im.MkPushTask sv kind tid msg rcp tgt idx x rid pend run)). by rewrite Hx. Qed.
Lemma field_pending x : decode_slice decode_string "" pend v = Some x →
  task_field t "pending_recipients" v = Some (im.MkPushTask sv kind tid msg rcp tgt idx cnt rid x run).
Proof. intros Hx. change (task_field t "pending_recipients" v) with (x ← decode_slice decode_string "" pend v; Some (im.MkPushTask sv kind tid msg rcp tgt idx cnt rid x run)). by rewrite Hx. Qed.
End TaskFields.

Lemma decode_task t created :
  im.PendingRecipients t ≠ Some [] → is_Some (im.Targets t) →
  parse_rfc3339 created = Some (im.CreatedAt (im.Message_ t)) →
  0 ≤ im.SchemaVersion t < 2 ^ 32 → 0 ≤ im.ChunkIndex t < 2 ^ 32 → 0 ≤ im.ChunkCount t < 2 ^ 32 →
  decode_task_value (JObj (task_members t created)) = Some t.
Proof.
  destruct t as [sv kind tid msg rcp tgt idx cnt rid pend run]. cbn [im.PendingRecipients im.Targets im.Message_
    im.SchemaVersion im.ChunkIndex im.ChunkCount].
  intros Hpend [ts ->] Ht Hsv Hidx Hcnt.
  change (apply_fields task_field (task_members (im.MkPushTask sv kind tid msg rcp (Some ts) idx cnt rid pend run) created) im.zero_task
          = Some (im.MkPushTask sv kind tid msg rcp (Some ts) idx cnt rid pend run)).
  unfold task_members, optional_members. cbn [im.SchemaVersion im.Kind im.TaskID im.Message_ im.Recipients im.Targets im.ChunkIndex im.ChunkCount
    im.RequestID im.PendingRecipients im.ReplayRunID app].
  assert (∀ old, decode_uint32 old (JNum (format_uint sv)) = Some sv) as Hdsv by (intros old; by apply parse_format_uint).
  assert (∀ old, decode_uint32 old (JNum (format_uint idx)) = Some idx) as Hdidx by (intros old; by apply parse_format_uint).
  assert (∀ old, decode_uint32 old (JNum (format_uint cnt)) = Some cnt) as Hdcnt by (intros old; by apply parse_format_uint).
  pose proof (decode_message msg created Ht) as Hmsg. pose proof (decode_strings rcp) as Hrcp. pose proof (decode_connections ts) as Hts.
  assert (decode_list decode_string "" [] (JArr (json_string <$> rcp)) = Some rcp) as Hdr.
  { unfold decode_list, decode_slice. cbn [default from_option]. unfold id. by rewrite decode_strings. }
  assert (decode_slice (decode_struct connection_field) im.zero_connection None (JArr ((λ c, JObj (connection_members c)) <$> ts))
          = Some (Some ts)) as Hdt.
  { unfold decode_slice. cbn [default from_option]. by rewrite Hts. }
  unfold im.zero_task.
  erewrite apply_fields_cons; [|by apply field_schema, Hdsv]. field_step. field_step.
  erewrite apply_fields_cons; [|by apply field_message, Hmsg]. erewrite apply_fields_cons; [|by apply field_recipients, Hdr].
  erewrite apply_fields_cons; [|by apply field_targets, Hdt]. erewrite apply_fields_cons; [|by apply field_index, Hdidx].
  erewrite apply_fields_cons; [|by apply field_count, Hdcnt].
  unfold request_members, run_members. case_bool_decide as Hrid; [subst rid; cbn [app]|cbn [app]; field_step].
  all: destruct pend as [[|x l]|]; [done| |]; cbn [pending_members app];
    [erewrite apply_fields_cons; [|apply field_pending; unfold decode_slice; cbn [default from_option]; by rewrite decode_strings]|].
  all: case_bool_decide as Hrun; [by subst run|by field_step].
Qed.

(** ** The checks of the structure *)

Section Check.
Context `{External, !ExternalLaws _}.

Fixpoint names_ok (seen : list string) (ms : list (string * json)) : bool :=
  match ms with
  | [] => true
  | (key, _) :: ms' => negb (bool_decide (key ∈ seen)) && bool_decide (key = to_lower key) && names_ok (key :: seen) ms'
  end.
Lemma checkJSON_obj ms depth : depth ≤ 16 → names_ok [] ms = true →
  Forall (λ m, checkJSON m.2 (depth + 1) = true) ms → checkJSON (JObj ms) depth = true.
Proof.
  intros Hd. cbn [checkJSON]. rewrite (proj2 (Z.ltb_ge _ _) Hd). generalize (@nil string) as seen.
  induction ms as [|[k v] ms IH]; intros seen Hn Hall; [done|]. cbn [names_ok] in Hn. rewrite !andb_true_iff in Hn.
  destruct Hn as [[Hs Hl] Hn]. apply Forall_cons in Hall as [Hv Hall]. cbn [snd] in Hv.
  rewrite Hs, Hl, Hv. by apply IH.
Qed.
Lemma checkJSON_arr l depth : depth ≤ 16 → Forall (λ v, checkJSON v (depth + 1) = true) l → checkJSON (JArr l) depth = true.
Proof. intros Hd Hl. cbn [checkJSON]. rewrite (proj2 (Z.ltb_ge _ _) Hd). by apply forallb_Forall. Qed.
Lemma checkJSON_strings l depth : depth < 16 → checkJSON (JArr (json_string <$> l)) depth = true.
Proof.
  intros Hd. apply checkJSON_arr; [lia|]. apply Forall_fmap, Forall_true. intros s. unfold compose, json_string. cbn [checkJSON].
  by rewrite (proj2 (Z.ltb_ge _ _)) by lia.
Qed.
Lemma checkJSON_task t created : is_Some (im.Targets t) → checkJSON (JObj (task_members t created)) 0 = true.
Proof.
  intros [ts Hts]. apply checkJSON_obj; [done| |].
  - unfold task_members, optional_members, request_members, pending_members, run_members.
    destruct (bool_decide (im.RequestID t = "")), (im.PendingRecipients t) as [[|??]|], (bool_decide (im.ReplayRunID t = "")); reflexivity.
  - unfold task_members, optional_members. rewrite Hts. apply Forall_app. split.
    + repeat (constructor; [first [reflexivity | by apply checkJSON_strings | idtac]|]); [|constructor].
      cbn [snd]. apply checkJSON_arr; [done|]. apply Forall_fmap, Forall_true. intros c. unfold compose.
      apply checkJSON_obj; [done|reflexivity|]. repeat (constructor; [reflexivity|]). constructor.
    + apply Forall_app. split; [|apply Forall_app; split].
      * unfold request_members. case_bool_decide; constructor; [reflexivity|constructor].
      * destruct (im.PendingRecipients t) as [[|x l]|]; [constructor| |constructor]. constructor; [|constructor].
        by apply checkJSON_strings.
      * unfold run_members. case_bool_decide; constructor; [reflexivity|constructor].
Qed.

(** ** Identifiers are valid texts *)

Lemma plain_valid s : plain s = true → utf8_valid s = true.
Proof. intros Hs. by apply clean_valid, plain_clean. Qed.
Lemma validUUID_plain s : validUUID s = true → plain s = true.
Proof. unfold validUUID. rewrite !andb_true_iff. intros [[Hl%Z.eqb_eq _] Hu]. by apply valid_uuid_plain. Qed.
Lemma validID_plain s p : plain_byte (byte_val p) = true → validID s p = true → plain s = true.
Proof.
  unfold validID. rewrite !andb_true_iff. intros Hp [[_ Hh] Hu]. destruct s as [|c s]; [done|].
  cbn in Hh. apply bool_decide_eq_true in Hh as ->. unfold plain. cbn [bytes forallb]. rewrite Hp. by apply validUUID_plain in Hu.
Qed.
Lemma validInstance_plain s : validInstance s = true → plain s = true.
Proof.
  unfold validInstance. rewrite andb_true_iff. intros [_ Hr].
  assert (runes s = bytes s) as Heq.
  { apply (runes_ascii s instance_rune); [|done]. intros r. unfold instance_rune, in_range.
    rewrite !orb_true_iff, !andb_true_iff, !Z.leb_le, Z.eqb_eq. lia. }
  rewrite Heq, forallb_Forall in Hr. unfold plain. rewrite forallb_Forall. eapply Forall_impl; [exact Hr|].
  intros b. cbn beta. unfold instance_rune, in_range. rewrite plain_byte_spec, !orb_true_iff, !andb_true_iff, !Z.leb_le, Z.eqb_eq. lia.
Qed.
Lemma char_url_plain v : 0 ≤ v < 64 → plain_byte (char_url v) = true.
Proof.
  intros Hv. assert (∃ n, (n < 64)%nat ∧ v = Z.of_nat n) as (n&Hn&->) by (exists (Z.to_nat v); lia). clear Hv.
  do 64 (destruct n as [|n]; [by vm_compute|]). lia.
Qed.
Lemma validToken_plain s : validToken s = true → plain s = true.
Proof.
  unfold validToken. destruct (base64_raw_url_decode s) as [raw|]; [|done]. rewrite andb_true_iff, bool_decide_eq_true.
  intros [_ <-]. unfold plain. rewrite encode_bytes, forallb_Forall. apply Forall_fmap.
  destruct (raw_encode_spec _ (bytes raw) (le_n _) (bytes_range raw)) as [Hall _].
  eapply Forall_impl; [exact Hall|]. intros v Hv. by apply char_url_plain.
Qed.
Lemma printable_valid s n : printable s n = true → utf8_valid s = true.
Proof.
  unfold printable. rewrite andb_true_iff. intros [_ Hr]. apply utf8_valid_text, text_all_ascii.
  assert (∀ c, negb ((c <? 32) || (126 <? c)) = true → 32 ≤ c ≤ 126) as Hc.
  { intros c. rewrite negb_true_iff, orb_false_iff, !Z.ltb_ge. lia. }
  rewrite (runes_ascii s _ (λ r Hr, ltac:(specialize (Hc r Hr); lia)) Hr), forallb_Forall in Hr.
  eapply Forall_impl; [exact Hr|]. intros c Hcc%Hc. lia.
Qed.

Lemma view_text m v : messageView m = Ok v → message_text m ∧ is_zero (im.CreatedAt m) = false.
Proof.
  unfold messageView. destruct (parse_int 64 (im.Position m)) as [pos|] eqn:Hpos; [|done].
  cbn [mbind result_bind]. rewrite !ensure_bind_Ok, !andb_true_iff, !bool_decide_eq_true, negb_true_iff, Z.eqb_eq, Z.ltb_lt.
  intros [((((((Hid&Hsend)&Hp)&Hcanon)&Hzero)&Hutc)&_) [(((Htype&_)&_)&Hcontent) Hrest]].
  assert (im.Origin m = im.MessageOriginUser ∨ im.Origin m = im.MessageOriginAI) as Horigin.
  { destruct (decide (im.Origin m = im.MessageOriginUser)) as [|Hn]; [by left|].
    rewrite (bool_decide_false _ Hn) in Hrest. destruct (decide (im.Origin m = im.MessageOriginAI)) as [|Hn']; [by right|].
    by rewrite (bool_decide_false _ Hn') in Hrest. }
  assert (∃ o, (if bool_decide (im.Origin m = im.MessageOriginUser) then Ok pb.MESSAGE_ORIGIN_USER
            else if bool_decide (im.Origin m = im.MessageOriginAI) then Ok pb.MESSAGE_ORIGIN_AI
            else Err ErrInvalidTask) = Ok o) as [o Ho].
  { destruct Horigin as [-> | ->]; by eexists. }
  rewrite Ho in Hrest. cbn [mbind result_bind] in Hrest. apply result_bind_Ok in Hrest as (receive&Hrec&_).
  assert (utf8_valid (im.ReceiveType m) = true ∧ validID (im.SessionID m) (if bool_decide (im.ReceiveType m = im.ReceiveTypeUser) then "S" else "G") = true
    ∧ plain (im.ReceiveID m) = true ∧ plain (im.ConversationID m) = true) as (Hrt&Hses&Hr&Hconv).
  { destruct (decide (im.ReceiveType m = im.ReceiveTypeUser)) as [Hu|Hu];
      [rewrite (bool_decide_true _ Hu) in Hrec |- *|rewrite (bool_decide_false _ Hu) in Hrec |- *].
    - rewrite ensure_bind_Ok, !andb_true_iff, !bool_decide_eq_true in Hrec. destruct Hrec as [[[[Hs Hr] _] Hc] _].
      rewrite Hu, Hc. split_and!; [done|done|by apply (validID_plain _ "U")|]. rewrite plain_app. by rewrite (validID_plain _ "S" eq_refl Hs).
    - destruct (decide (im.ReceiveType m = im.ReceiveTypeGroup)) as [Hg|Hn]; [|by rewrite (bool_decide_false _ Hn) in Hrec].
      rewrite (bool_decide_true _ Hg), ensure_bind_Ok, !andb_true_iff, !bool_decide_eq_true in Hrec. destruct Hrec as [[[Hs Hr] Hc] _].
      rewrite Hg, Hc, <-Hr. split_and!; [done|done|by apply (validID_plain _ "G")|]. rewrite plain_app. by rewrite (validID_plain _ "G" eq_refl Hs). }
  split; [|done]. constructor; try done.
  - by apply plain_valid, (validID_plain _ "M").
  - by apply plain_valid.
  - case_bool_decide; apply plain_valid; [by apply (validID_plain _ "S")|by apply (validID_plain _ "G")].
  - by apply plain_valid, (validID_plain _ "U").
  - by apply plain_valid.
  - by rewrite Htype.
  - by destruct Horigin as [-> | ->].
  - rewrite <-Hcanon. unfold format_int. rewrite (proj2 (Z.ltb_ge pos 0)) by lia. apply plain_valid, plain_digits.
Qed.
End Check.

(** ** The round trip *)

Lemma comma_sum l : (sum_list (String.length <$> l) ≤ String.length (comma_separated l))%nat.
Proof.
  induction l as [|x l IH]; [done|]. destruct l as [|y l]; [cbn; lia|].
  rewrite comma_cons, <-length_bytes, !bytes_app, !length_app, !length_bytes. cbn in *. lia.
Qed.
Lemma field_length name v : String.length (field name v) = (String.length name + String.length v + 3)%nat.
Proof. unfold field. rewrite <-!length_bytes, !bytes_app, bytes_quote, !length_app. cbn. lia. Qed.
Lemma object_sum l : (sum_list (String.length <$> l) ≤ String.length (print_object l))%nat.
Proof.
  etrans; [apply comma_sum|]. unfold print_object. rewrite <-!length_bytes, !bytes_app, !length_app. lia.
Qed.
(** The member names alone are longer than the parser's fuel needs. *)
Lemma task_fields_length t message text :
  print_message (im.Message_ t) = Some message → text = print_object (task_fields t message) → (200 ≤ String.length text)%nat.
Proof.
  intros Hm ->. etrans; [|apply object_sum]. unfold task_fields. rewrite fmap_app.
  assert (120 ≤ String.length message)%nat as Hlen.
  { unfold print_message in Hm. destruct (print_time _); [|done]. cbn [mbind option_bind] in Hm. injection Hm as <-.
    etrans; [|apply object_sum]. cbn [fmap list_fmap sum_list]. rewrite !field_length.
    unfold id. cbn [String.length]. lia. }
  cbn [fmap list_fmap app sum_list]. rewrite !field_length. unfold id. cbn [String.length]. lia.
Qed.

Section Round.
Context `{External, !ExternalLaws _}.

Lemma validConnection_text h : validConnection (Some (connectionView h)) = true → connection_text h.
Proof.
  unfold validConnection, connectionView. cbn. rewrite !andb_true_iff. intros [[[[Hu Hi] Hk] _] Ht].
  constructor; apply plain_valid; [by apply (validID_plain _ "U")|by apply validInstance_plain|by apply validUUID_plain|by apply validToken_plain].
Qed.
Lemma recipients_text m ids : Forall (recipient_allowed m) ids → Forall (λ s, utf8_valid s = true) ids.
Proof. intros Hall. eapply Forall_impl; [exact Hall|]. intros s [Hs _]. by apply plain_valid, (validID_plain _ "U"). Qed.

(** What a task must be for its text to be a record of it. *)
Record publishable (t : im.PushTask) : Prop := Publishable {
  pub_wf : well_formed t;
  pub_index : 0 ≤ im.ChunkIndex t; pub_count : im.ChunkCount t < 2 ^ 32;
  pub_optional : optional_agree t;
  pub_request : im.RequestID t = "" ∨ printable (im.RequestID t) 128 = true;
  pub_run : im.ReplayRunID t = "" ∨ printable (im.ReplayRunID t) 128 = true
}.
Lemma publishable_text t : publishable t → task_text t.
Proof.
  intros [[_ Hkind _ Hid Hmsg _ _ Hall (hs&Hts&_&Hhs) [_ Hpend]] _ _ _ Hreq Hrun].
  apply messageView_ok in Hmsg as [v Hv]. destruct (view_text _ _ Hv) as [Hm _]. pose proof (recipients_text _ _ Hall) as Hr.
  assert (∀ s, s = "" ∨ printable s 128 = true → utf8_valid s = true) as Hopt.
  { intros s [->|Hs]; [done|by eapply printable_valid]. }
  constructor; try done; try by apply Hopt.
  - by rewrite Hkind.
  - rewrite Hid. apply utf8_valid_text. rewrite !bytes_app. destruct Hm as [Hmid _ _ _ _ _ _ _ _ _ _].
    apply text_app; [by apply text_all_ascii; repeat constructor|]. apply text_app; [by apply utf8_valid_text|].
    apply text_app; [by apply text_all_ascii; repeat constructor|]. apply utf8_valid_text, plain_valid, plain_digits.
  - exists hs. split; [done|]. eapply Forall_impl; [exact Hhs|]. intros h [_ Hh]. by apply validConnection_text.
  - rewrite Forall_forall in Hr, Hpend. apply Forall_forall. intros s Hs. by apply Hr, Hpend.
Qed.
Lemma NoDup_within (l k : list string) : NoDup l → Forall (.∈ k) l → (length l ≤ length k)%nat.
Proof. intros Hl Hk. apply submseteq_length, NoDup_submseteq; [done|]. by apply Forall_forall. Qed.

Lemma optional_ok_members t created : publishable t → optional_ok (task_members t created) t.
Proof.
  intros [_ _ _ Hopt Hreq Hrun].
  assert (lookup_key "request_id" (task_members t created)
            = if bool_decide (im.RequestID t = "") then None else Some (json_string (im.RequestID t))) as Hlr.
  { unfold task_members, optional_members, request_members, pending_members, run_members.
    destruct (bool_decide (im.RequestID t = "")), (im.PendingRecipients t) as [[|??]|], (bool_decide (im.ReplayRunID t = "")); reflexivity. }
  assert (lookup_key "pending_recipients" (task_members t created)
            = match im.PendingRecipients t with Some ((_ :: _) as l) => Some (JArr (json_string <$> l)) | _ => None end) as Hlp.
  { unfold task_members, optional_members, request_members, pending_members, run_members.
    destruct (bool_decide (im.RequestID t = "")), (im.PendingRecipients t) as [[|??]|], (bool_decide (im.ReplayRunID t = "")); reflexivity. }
  assert (lookup_key "replay_run_id" (task_members t created)
            = if bool_decide (im.ReplayRunID t = "") then None else Some (json_string (im.ReplayRunID t))) as Hlu.
  { unfold task_members, optional_members, request_members, pending_members, run_members.
    destruct (bool_decide (im.RequestID t = "")), (im.PendingRecipients t) as [[|??]|], (bool_decide (im.ReplayRunID t = "")); reflexivity. }
  unfold optional_agree in Hopt. constructor; rewrite ?Hlr, ?Hlp, ?Hlu.
  - intros v. destruct (decide (im.RequestID t = "")) as [Hr|Hr]; [by rewrite (bool_decide_true _ Hr)|].
    rewrite (bool_decide_false _ Hr). intros [= <-]. split; [done|]. by destruct Hreq.
  - destruct (im.PendingRecipients t) as [[|x l]|].
    + by destruct Hopt as [Hne _].
    + destruct Hopt as [_ Hn]. rewrite (bool_decide_false _ Hn). by split; eexists.
    + rewrite (bool_decide_true _ Hopt). by split; intros [??].
  - destruct (im.PendingRecipients t) as [[|x l]|]; [by intros [??]| |by intros [??]]. intros _.
    destruct Hopt as [_ Hn]. split; [done|]. by destruct Hrun.
Qed.
Lemma present_members ms keys : forallb (λ k, match lookup_key k ms with Some JNull | None => false | _ => true end) keys = true →
  Forall (present ms) keys.
Proof.
  intros Hk. assert (requiredObject (JObj ms) keys = Some ms) as Hr by (cbn [requiredObject]; by rewrite Hk).
  by apply requiredObject_spec in Hr as [_ ?].
Qed.

Lemma print_decode t raw : publishable t → print_task t = Some raw → len raw ≤ 256 * 1024 → DecodeTask raw = Ok t.
Proof.
  intros Hp Hprint Hlen. pose proof (publishable_text t Hp) as Ht.
  unfold print_task in Hprint. destruct (print_message (im.Message_ t)) as [message|] eqn:Hm; [|done].
  cbn [mbind option_bind] in Hprint. apply (inj Some) in Hprint.
  assert (print_object (task_fields t message) = raw) as Hraw by exact Hprint.
  destruct (parses_message _ _ (tt_message _ Ht) Hm) as (created&Htime&Hpm&Hcm).
  destruct (task_fields_parse t message created Ht Hpm Hcm) as [Hpf Hcf].
  pose proof (clean_object _ Hcf) as Hclean. apply clean_valid in Hclean as [Hutf8 Hesc].
  pose proof (task_fields_length t message raw Hm (eq_sym Hraw)) as Hlong.
  pose proof (optional_ok_members t created Hp) as Hopt. destruct Hp as [Hwf Hidx Hcnt Hagree _ _].
  pose proof Hwf as [Hver _ Hlt _ _ Hsize _ _ (hs&Hts&Hnd&Hhs) [Hpnd Hpend]].
  assert (length (default [] (im.Targets t)) ≤ length (im.Recipients t))%nat as Hlt1.
  { rewrite Hts. cbn [default from_option]. unfold id. rewrite <-(length_fmap im.UserID hs). apply NoDup_within; [done|].
    apply Forall_fmap. eapply Forall_impl; [exact Hhs|]. by intros h [? _]. }
  pose proof (NoDup_within _ _ Hpnd Hpend) as Hlt2.
  apply DecodeTask_iff. exists (task_members t created), (message_members (im.Message_ t) created). split_and!.
  - constructor; [done|by rewrite <-Hraw|by rewrite <-Hraw| |by apply checkJSON_task; eauto].
    rewrite <-Hraw. eapply parse_whole; [by apply parses_object|]. rewrite Hraw.
    unfold task_fuel. unfold slen in Hsize. apply Forall2_length in Hpf as Hlf.
    assert (length (task_fields t message) ≤ 11)%nat.
    { unfold task_fields. rewrite !length_app. unfold optional_string. destruct (im.PendingRecipients t) as [[|??]|];
        repeat case_bool_decide; cbn; lia. }
    lia.
  - apply present_members. unfold task_members, optional_members, request_members, pending_members, run_members. rewrite Hts.
    destruct (bool_decide (im.RequestID t = "")), (im.PendingRecipients t) as [[|??]|], (bool_decide (im.ReplayRunID t = "")); reflexivity.
  - unfold task_members, optional_members, request_members, pending_members, run_members.
    destruct (bool_decide (im.RequestID t = "")), (im.PendingRecipients t) as [[|??]|], (bool_decide (im.ReplayRunID t = "")); reflexivity.
  - by apply present_members.
  - apply decode_task; [|by eauto|done|by rewrite Hver|lia|lia]. unfold optional_agree in Hagree.
    by destruct (im.PendingRecipients t) as [[|??]|]; [destruct Hagree|..].
  - done.
  - lia.
  - done.
Qed.

End Round.

(** A task with a hint, a request id and a text with quotes, an accent and a line separator. *)
Definition sample_task : im.PushTask :=
  let t := decoded hinted_task in
  let m := im.Message_ t in
  im.MkPushTask (im.SchemaVersion t) (im.Kind t) (im.TaskID t)
    (im.MkMessage (im.MessageID m) (im.ConversationID m) (im.SessionID m) (im.SendID m) (im.ReceiveID m) (im.ReceiveType m)
       (im.Type_ m) (of_bytes [104; 34; 60; 195; 169; 226; 128; 168; 10]) (im.Origin m) (Time 1767225600123400000 0) (im.Position m))
    (im.Recipients t) (im.Targets t) (im.ChunkIndex t) (im.ChunkCount t) "request 1" None "".
Definition sample_text : string := default "" (print_task sample_task).
Lemma sample_publishable : publishable (H := Reference.external) sample_task.
Proof.
  constructor; [|by vm_compute..|by right|by left].
  assert (check_task (H := Reference.external) [] sample_task = Ok tt) as Hc by (vm_compute; reflexivity).
  apply check_task_spec in Hc. apply Hc.
Qed.
