(* ===== verification/TaskSize.v ===== *)
(** * Every well-formed task can be published

    [json.Marshal] of a well-formed task does not fail, and its text is within the bound
    that Logic, the publisher and Job put on a record. *)
From Stdlib Require Import DecimalString DecimalN.
From S2P Require Import Prelude GoStd GoTime GoText External Json Dto JobTask JobTaskProofs JsonPrint JsonRound TextRound TimeRound TaskRound Samples.
Local Open Scope Z_scope.

(** ** Numbers *)

Lemma of_uint_acc_lower d acc : (Zpos acc * 10 ^ Z.of_nat (Decimal.nb_digits d) ≤ Zpos (Pos.of_uint_acc d acc)).
Proof.
  revert acc. induction d as [|d IH|d IH|d IH|d IH|d IH|d IH|d IH|d IH|d IH|d IH]; intros acc;
    [cbn; lia|..]; cbn [Pos.of_uint_acc Decimal.nb_digits]; rewrite Nat2Z.inj_succ, Z.pow_succ_r by lia;
    (etrans; [|apply IH]); pose proof (Z.pow_pos_nonneg 10 (Z.of_nat (Decimal.nb_digits d))); nia.
Qed.
Lemma of_uint_lower d : Decimal.unorm d = d → d ≠ Decimal.D0 Decimal.Nil →
  10 ^ (Z.of_nat (Decimal.nb_digits d) - 1) ≤ Z.of_N (N.of_uint d).
Proof.
  intros Hd Hz.
  assert (∀ l p, 1 ≤ Zpos p → 10 ^ (Z.of_nat (S (Decimal.nb_digits l)) - 1) ≤ Zpos (Pos.of_uint_acc l p)) as Hacc.
  { intros l p Hp. etrans; [|apply of_uint_acc_lower]. rewrite Nat2Z.inj_succ, Z.sub_1_r, Z.pred_succ.
    pose proof (Z.pow_pos_nonneg 10 (Z.of_nat (Decimal.nb_digits l))). nia. }
  destruct d as [|d|d|d|d|d|d|d|d|d|d]; try (apply Hacc; lia); [done|].
  pose proof (nzhead_head d) as Hh. unfold Decimal.unorm in Hd. cbn [Decimal.nzhead] in Hd.
  by destruct (Decimal.nzhead d).
Qed.
Lemma string_of_uint_length d : String.length (NilEmpty.string_of_uint d) = Decimal.nb_digits d.
Proof. induction d; cbn; congruence. Qed.
Lemma format_uint_length n k : 0 ≤ n < 10 ^ Z.of_nat k → (0 < k)%nat → (String.length (format_uint n) ≤ k)%nat.
Proof.
  intros Hn Hk. unfold format_uint. set (d := N.to_uint (Z.to_N n)).
  assert (Decimal.unorm d = d) as Hd by (unfold d; rewrite <-Unsigned.to_of; by rewrite Unsigned.of_to).
  assert (Z.of_N (N.of_uint d) = n) as Hv by (unfold d; rewrite Unsigned.of_to; lia).
  destruct (Decimal.uint_eq_dec d (Decimal.D0 Decimal.Nil)) as [->|Hz]; [cbn; lia|].
  pose proof (of_uint_lower d Hd Hz) as Hlow. rewrite Hv in Hlow.
  assert (String.length (NilZero.string_of_uint d) = Decimal.nb_digits d) as ->.
  { destruct d; [done|..]; apply string_of_uint_length. }
  assert (Z.of_nat (Decimal.nb_digits d) - 1 < Z.of_nat k) as Hlt; [|lia].
  apply (Z.pow_lt_mono_r_iff 10); lia.
Qed.

(** ** Strings *)

Lemma escape_length n l : (length (escape_from n l) ≤ 6 * length l)%nat.
Proof.
  revert l. induction n as [|n IH]; intros l; cbn [escape_from]; [cbn; lia|].
  destruct l as [|b t]; [cbn; lia|]. destruct (b <? 128).
  - rewrite length_app. specialize (IH t). cbn [length].
    assert (length (escape_ascii b) ≤ 6)%nat by (unfold escape_ascii; repeat case_match; cbn; lia). lia.
  - destruct (decode_rune (b :: t)) as [[r w]|] eqn:Hr.
    + pose proof (decode_rune_width _ _ _ Hr). rewrite length_app. specialize (IH (drop w (b :: t))).
      rewrite length_drop in IH. unfold u_escape. destruct (_ || _); rewrite ?length_take; cbn [length] in *; lia.
    + rewrite length_app. specialize (IH t). unfold u_escape. cbn [length]. lia.
Qed.
Lemma of_bytes_length l : String.length (of_bytes l) = length l.
Proof. induction l; cbn; congruence. Qed.
Lemma length_append (a b : string) : String.length (a +:+ b) = (String.length a + String.length b)%nat.
Proof. by rewrite <-!length_bytes, bytes_app, length_app. Qed.
Lemma print_string_length s : (String.length (print_string s) ≤ 6 * String.length s + 2)%nat.
Proof.
  unfold print_string. rewrite !length_append, of_bytes_length. cbn [String.length quote]. unfold print_bytes.
  pose proof (escape_length (String.length s) (bytes s)). rewrite length_bytes in *. lia.
Qed.
Lemma print_plain_length s : plain s = true → String.length (print_string s) = (String.length s + 2)%nat.
Proof. intros Hs. rewrite print_plain by done. rewrite !length_append. cbn. lia. Qed.

(** ** Objects and arrays *)

Lemma comma_bound l : (String.length (comma_separated l) ≤ sum_list (String.length <$> l) + length l)%nat.
Proof.
  induction l as [|x l IH]; [cbn; lia|]. destruct l as [|y l]; [cbn; unfold id; lia|].
  rewrite comma_cons, !length_append. cbn in *. unfold id in *. lia.
Qed.
Lemma object_bound l : (String.length (print_object l) ≤ sum_list (String.length <$> l) + length l + 2)%nat.
Proof. unfold print_object. rewrite !length_append. pose proof (comma_bound l). cbn [String.length]. lia. Qed.
Lemma array_bound m l : Forall (λ s, (String.length s ≤ m)%nat) l →
  (String.length (print_array l) ≤ length l * (m + 1) + 2)%nat.
Proof.
  intros Hl. unfold print_array. rewrite !length_append. pose proof (comma_bound l) as Hc. cbn [String.length].
  assert (sum_list (String.length <$> l) ≤ length l * m)%nat; [|lia].
  clear Hc. induction Hl as [|s l Hs _ IH]; [done|]. cbn [fmap list_fmap sum_list foldr length] in *. unfold id at 1. lia.
Qed.
Lemma field_plain name s : plain s = true →
  String.length (field name (print_string s)) = (String.length name + String.length s + 5)%nat.
Proof. intros Hs. rewrite field_length, print_plain_length by done. lia. Qed.
Lemma field_text name s : (String.length (field name (print_string s)) ≤ String.length name + 6 * String.length s + 5)%nat.
Proof. rewrite field_length. pose proof (print_string_length s). lia. Qed.

(** ** Instants *)

Lemma month_of_late : forallb (λ doy, 2 <? month_of doy) (upto 306) = true.
Proof. vm_compute. reflexivity. Qed.
(** The years before 10000 have four digits. *)
Lemma date_year days : -719162 ≤ days ≤ 2932896 → let '(y, m, d) := date_of_days days in 0 ≤ y ≤ 9999.
Proof.
  intros Hd. unfold date_of_days. set (z := days + 719468). set (era := z / 146097). set (doe := z mod 146097).
  fold (year_of_day doe). set (yoe := year_of_day doe). fold (era_year yoe). set (doy := doe - era_year yoe).
  fold (month_of doy).
  assert (0 ≤ era ≤ 24 ∧ 0 ≤ doe < 146097 ∧ (era = 24 → doe ≤ 146036)) as (He&Hdoe&Hlast).
  { unfold era, doe, z. Z.to_euclidean_division_equations. lia. }
  destruct (year_of_day_spec doe Hdoe) as [Hy Hdoy]. fold yoe in Hy, Hdoy. fold doy in Hdoy.
  destruct (Z.leb_spec (month_of doy) 2) as [Hm|]; [|lia].
  destruct (decide (era = 24 ∧ yoe = 399)) as [[He24 Hy399]|Hn]; [|lia]. exfalso.
  assert (doy ≤ 305) as Hle.
  { unfold doy. rewrite Hy399. change (era_year 399) with 145731. specialize (Hlast He24). lia. }
  pose proof (forallb_upto _ _ month_of_late doy ltac:(lia)) as Hlate. cbn beta in Hlate. apply Z.ltb_lt in Hlate. lia.
Qed.
Lemma print_fraction_length ns : (length (print_fraction ns) ≤ 10)%nat.
Proof.
  unfold print_fraction. destruct (drop_zeros_split (digits 9 ns)) as [k Hk]. apply (f_equal length) in Hk.
  rewrite length_digits, length_app in Hk. destruct (drop_zeros (digits 9 ns)); cbn [length] in *; lia.
Qed.
Lemma print_time_total `{External, !ExternalLaws _} t :
  t_offset t = 0 → timestamp_check_valid (timestamp_of_ns (t_ns t)) = true →
  ∃ s, print_time t = Some s ∧ (String.length s ≤ 32)%nat.
Proof.
  intros Hoff Hv. apply timestamp_check_valid_range in Hv as [Hs _]. cbn [Seconds timestamp_of_ns] in Hs.
  unfold print_time, print_time_bytes. rewrite Hoff, Z.add_0_r.
  pose proof (date_year (t_ns t / second / 86400)) as Hy.
  destruct (date_of_days (t_ns t / second / 86400)) as [[y m] d]. cbn beta iota zeta in Hy |- *.
  assert (0 ≤ y ≤ 9999) as Hy'.
  { apply Hy. split; [apply Z.div_le_lower_bound; lia|].
    assert (t_ns t / second / 86400 < 2932897); [apply Z.div_lt_upper_bound; lia|lia]. }
  unfold in_range. rewrite !(proj2 (Z.leb_le _ _)) by lia. cbn [andb Z.abs Z.ltb Z.compare Z.mul Pos.mul].
  eexists. split; [reflexivity|]. rewrite !length_append, of_bytes_length. cbn [String.length quote].
  repeat (rewrite length_app || cbn [length]). rewrite !length_digits.
  pose proof (print_fraction_length (t_ns t mod second)). cbn [print_zone Z.eqb length]. lia.
Qed.

(** ** The wire types *)

Section Size.
Context `{External, !ExternalLaws _}.

Lemma validUUID_length s : validUUID s = true → String.length s = 36%nat ∧ plain s = true.
Proof.
  intros Hs. split; [|by apply validUUID_plain]. unfold validUUID in Hs. rewrite !andb_true_iff in Hs.
  destruct Hs as [[Hl%Z.eqb_eq _] _]. unfold len in Hl. lia.
Qed.
Lemma validID_length s p : plain_byte (byte_val p) = true → validID s p = true → String.length s = 37%nat ∧ plain s = true.
Proof.
  intros Hp Hs. split; [|by apply (validID_plain s p)]. unfold validID in Hs. rewrite !andb_true_iff in Hs.
  destruct Hs as [[Hl%Z.eqb_eq _] _]. unfold len in Hl. lia.
Qed.
Lemma connection_size h : validConnection (Some (connectionView h)) = true → (String.length (print_connection h) ≤ 340)%nat.
Proof.
  unfold validConnection, connectionView. cbn [pb.UserId pb.InstanceId pb.ConnectionId pb.RouteToken].
  rewrite !andb_true_iff. intros [[[[Hu Hi] Hk] Hl] Ht].
  destruct (validID_length _ "U" eq_refl Hu) as [Hul Hup]. destruct (validUUID_length _ Hk) as [Hkl Hkp].
  pose proof (validInstance_plain _ Hi) as Hip. pose proof (validToken_plain _ Ht) as Htp.
  apply andb_true_iff in Hi as [[_ Hil%Z.ltb_ge]%negb_true_iff%orb_false_iff _]. apply negb_true_iff, Z.ltb_ge in Hl.
  unfold len in Hil, Hl. unfold print_connection. etrans; [apply object_bound|]. cbn [fmap list_fmap sum_list length].
  rewrite !field_plain by done. unfold id. cbn [String.length]. lia.
Qed.

Lemma message_size m v : messageView m = Ok v →
  ∃ text, print_message m = Some text ∧ len text ≤ 99000.
Proof.
  intros Hv. destruct (view_text _ _ Hv) as [Hm _]. revert Hv. unfold messageView.
  destruct (parse_int 64 (im.Position m)) as [pos|] eqn:Hpos; [|done].
  cbn [mbind result_bind]. rewrite !ensure_bind_Ok, !andb_true_iff, !bool_decide_eq_true, Z.ltb_lt, Z.eqb_eq, Z.leb_le.
  intros [((((((Hid&Hsend)&Hp)&Hcanon)&_)&Hutc)&Htime) [(((Htype&_)&Hlen)&_) Hrest]].
  destruct (print_time_total (im.CreatedAt m) Hutc Htime) as (created&Hcreated&Hclen).
  destruct (validID_length _ "M" eq_refl Hid) as [Hidl Hidp]. destruct (validID_length _ "U" eq_refl Hsend) as [Hsl Hsp].
  assert (String.length (im.Position m) ≤ 19 ∧ plain (im.Position m) = true)%nat as [Hpl Hpp].
  { rewrite <-Hcanon. unfold format_int. rewrite (proj2 (Z.ltb_ge pos 0)) by lia. split; [|apply plain_digits].
    apply format_uint_length; [|lia]. pose proof (parse_int_range _ _ Hpos) as Hr. unfold max_int64 in Hr. cbn. lia. }
  apply result_bind_Ok in Hrest as (o&Ho&Hrest). apply result_bind_Ok in Hrest as (receive&Hr&_).
  assert (String.length (im.Origin m) ≤ 4 ∧ plain (im.Origin m) = true)%nat as [Hol Hop].
  { clear Hr. case_bool_decide as Hu; [by rewrite Hu; split; [cbn; lia|]|]. case_bool_decide as Ha; [|done]. by rewrite Ha; split; [cbn; lia|]. }
  assert ((String.length (im.SessionID m) = 37 ∧ plain (im.SessionID m) = true)
    ∧ (String.length (im.ReceiveID m) = 37 ∧ plain (im.ReceiveID m) = true)
    ∧ (String.length (im.ConversationID m) ≤ 44 ∧ plain (im.ConversationID m) = true)
    ∧ (String.length (im.ReceiveType m) ≤ 5 ∧ plain (im.ReceiveType m) = true))%nat
    as ([Hsesl Hsesp]&[Hrecl Hrecp]&[Hconl Hconp]&[Hrtl Hrtp]).
  { clear Ho Hol Hop. case_bool_decide as Hu.
    - rewrite ensure_bind_Ok, !andb_true_iff, !bool_decide_eq_true in Hr. destruct Hr as [[[[Hs Hr] _] Hc] _].
      destruct (validID_length _ "S" eq_refl Hs), (validID_length _ "U" eq_refl Hr). rewrite Hu, Hc.
      rewrite length_append, plain_app. split_and!; try done; cbn; lia || by rewrite andb_true_r.
    - case_bool_decide as Hg; [|done]. rewrite ensure_bind_Ok, !andb_true_iff, !bool_decide_eq_true in Hr.
      destruct Hr as [[[Hs Hr] Hc] _]. destruct (validID_length _ "G" eq_refl Hs). rewrite Hg, Hc, <-Hr.
      rewrite length_append, plain_app. split_and!; try done; cbn; lia || by rewrite andb_true_r. }
  unfold print_message. rewrite Hcreated. cbn [mbind option_bind]. eexists. split; [reflexivity|].
  unfold len. etrans; [apply inj_le, object_bound|]. cbn [fmap list_fmap sum_list length].
  pose proof (field_text "content" (im.Content m)) as Hcontent. unfold len in Hlen.
  rewrite Htype, (field_length "created_at"), !(field_plain "origin"), !(field_plain "position"), !(field_plain "message_id"),
    !(field_plain "conversation_id"), !(field_plain "session_id"), !(field_plain "send_id"), !(field_plain "receive_id"),
    !(field_plain "receive_type"), !(field_plain "type") by done.
  change (String.length im.MessageTypeText) with 4%nat. unfold id. cbn [String.length] in *. lia.
Qed.

(** A list of at most a hundred of the recipients. *)
Lemma users_size l : (length l ≤ 100)%nat → Forall (λ s, validID s "U" = true) l →
  (String.length (print_array (print_string <$> l)) ≤ 4002)%nat.
Proof.
  intros Hn Hl. etrans; [apply (array_bound 39)|rewrite length_fmap; lia]. apply Forall_fmap.
  eapply Forall_impl; [exact Hl|]. intros s Hs. destruct (validID_length s "U" eq_refl Hs) as [Hlen Hp].
  cbn. rewrite print_plain_length by done. lia.
Qed.
Lemma optional_size name s : s = "" ∨ printable s 128 = true →
  (sum_list (String.length <$> optional_string name s) + length (optional_string name s) ≤ String.length name + 800)%nat.
Proof.
  intros Hs. unfold optional_string. case_bool_decide as He; [cbn; lia|]. destruct Hs as [|Hs]; [done|].
  unfold printable in Hs. apply andb_true_iff in Hs as [[_ Hl%Z.ltb_ge]%negb_true_iff%orb_false_iff _]. unfold len in Hl.
  pose proof (field_text name s). cbn [fmap list_fmap sum_list length]. unfold id. lia.
Qed.
Lemma pending_size l : (length (default [] l) ≤ 100)%nat → Forall (λ s, validID s "U" = true) (default [] l) →
  (sum_list (String.length <$> optional_strings "pending_recipients" l) + length (optional_strings "pending_recipients" l) ≤ 4100)%nat.
Proof.
  intros Hn Hl. destruct l as [[|x l]|]; [cbn; lia| |cbn; lia]. pose proof (users_size _ Hn Hl) as Hu. cbn [default from_option] in *.
  unfold id in *. cbn [optional_strings fmap list_fmap sum_list length] in *. rewrite field_length. unfold id. cbn [String.length]. lia.
Qed.

Lemma sum_list_app l k : sum_list (l ++ k) = (sum_list l + sum_list k)%nat.
Proof. induction l as [|x l IH]; [done|]. cbn [app sum_list]. lia. Qed.
Lemma task_size t : publishable t → ∃ raw, print_task t = Some raw ∧ len raw ≤ 256 * 1024.
Proof.
  intros [[Hver Hkind Hlt Hid Hmsg Hsize _ Hall (hs&Hts&Hnd&Hhs) [Hpnd Hpend]] Hidx Hcnt _ Hreq Hrun].
  apply messageView_ok in Hmsg as [v Hv]. destruct (message_size _ _ Hv) as (text&Htext&Hlen).
  assert (Forall (λ s, validID s "U" = true) (im.Recipients t)) as Hvalid by (eapply Forall_impl; [exact Hall|]; by intros s [? _]).
  assert (length (im.Recipients t) ≤ 100)%nat as Hn by (unfold slen in Hsize; lia).
  assert (length hs ≤ 100)%nat as Hn1.
  { rewrite <-(length_fmap im.UserID hs). etrans; [apply (NoDup_within _ (im.Recipients t)); [done|]|done].
    apply Forall_fmap. eapply Forall_impl; [exact Hhs|]. by intros h [? _]. }
  assert (length (default [] (im.PendingRecipients t)) ≤ 100)%nat as Hn2 by (etrans; [by apply NoDup_within|done]).
  assert (Forall (λ s, validID s "U" = true) (default [] (im.PendingRecipients t))) as Hpv.
  { rewrite Forall_forall in Hpend, Hvalid. apply Forall_forall. auto. }
  pose proof (users_size _ Hn Hvalid) as Hu. pose proof (optional_size "request_id" _ Hreq) as Hro.
  pose proof (optional_size "replay_run_id" _ Hrun) as Hrr. pose proof (pending_size _ Hn2 Hpv) as Hpe.
  assert (len (print_slice print_connection (im.Targets t)) ≤ 34102) as Htg.
  { rewrite Hts. cbn [print_slice]. unfold len. etrans; [apply inj_le, (array_bound 340)|rewrite length_fmap; lia]. apply Forall_fmap.
    eapply Forall_impl; [exact Hhs|]. intros h [_ Hh]. by apply connection_size. }
  assert (∀ n, 0 ≤ n < 2 ^ 32 → (String.length (format_uint n) ≤ 10)%nat) as Huint.
  { intros n Hr. apply format_uint_length; [change (10 ^ Z.of_nat 10) with 10000000000|lia]. lia. }
  assert (plain (im.TaskID t) = true ∧ String.length (im.TaskID t) ≤ 60)%nat as [Htp Htl].
  { destruct (view_text _ _ Hv) as [_ _]. rewrite Hid, !length_append, !plain_app, plain_digits.
    assert (validID (im.MessageID (im.Message_ t)) "M" = true) as Hm.
    { revert Hv. unfold messageView. destruct (parse_int 64 _); [|done]. cbn [mbind result_bind].
      rewrite ensure_bind_Ok, !andb_true_iff. naive_solver. }
    destruct (validID_length _ "M" eq_refl Hm) as [-> ->]. specialize (Huint (im.ChunkIndex t) ltac:(lia)). split; [done|]. cbn. lia. }
  unfold print_task. rewrite Htext. cbn [mbind option_bind]. eexists. split; [reflexivity|].
  unfold len. etrans; [apply inj_le, object_bound|]. rewrite !fmap_app, !sum_list_app, !length_app.
  cbn [fmap list_fmap sum_list length]. rewrite !(field_plain "kind"), !(field_plain "task_id"), !field_length by (done || by rewrite Hkind).
  pose proof (Huint (im.ChunkIndex t) ltac:(lia)). pose proof (Huint (im.ChunkCount t) ltac:(lia)).
  rewrite Hver, Hkind. change (String.length im.PushKind) with 12%nat.
  change (String.length (format_uint im.PushSchemaVersion)) with 1%nat. unfold id, len in *. cbn [String.length] in *. lia.
Qed.

(** C38: every well-formed task can be published.  [json.Marshal] does not fail on it,
    its text is within the 256 KiB that Logic, the publisher and Job put on a record,
    whatever its content, its hints and its recipients, and Job decodes it to that task. *)
Theorem publishable_fits t :
  publishable t → ∃ raw, print_task t = Some raw ∧ len raw ≤ 256 * 1024 ∧ DecodeTask raw = Ok t.
Proof.
  intros Ht. destruct (task_size t Ht) as (raw&Hraw&Hlen). exists raw. split_and!; try done. by apply print_decode.
Qed.
End Size.

Lemma publishable_fits_witness :
  ∃ raw, print_task sample_task = Some raw ∧ len raw ≤ 256 * 1024 ∧ DecodeTask (H := Reference.external) raw = Ok sample_task.
Proof. apply (@publishable_fits Reference.external Reference.external_laws), sample_publishable. Defined.
