(* ===== verification/JobProcessor.v ===== *)
(** * Processing one task: [internal/job/processor.go] and [internal/job/routing.go]

    The processor talks to a clock, a context, Logic, a dialer and Comet clients.
    These are the operations of an environment over a world [W], which is arbitrary:
    a theorem about [Process] holds whatever the dependencies answer.  Every
    interaction is appended to a trace. *)
From S2P Require Import Prelude GoStd GoTime External Dto JobTask.
Local Open Scope Z_scope.

(** ** Contexts *)

(** A context: its deadline and the outgoing [authorization] metadata. *)
Record context : Type := Context { ctx_deadline : option Z; ctx_authorization : option string }.

Definition with_deadline (ctx : context) (d : Z) : context :=
  Context (Some match ctx_deadline ctx with Some d' => Z.min d' d | None => d end)
          (ctx_authorization ctx).
Definition with_authorization (ctx : context) (a : string) : context :=
  Context (ctx_deadline ctx) (Some a).

(** ** Results *)

Inductive Outcome : Type := Unresolved | Enqueued | Duplicate | Offline.
Inductive Reason : Type :=
| NoReason | DependencyFailure | InvalidResponse | RouteChanged | DeliveryRejected | BudgetExhausted.
Global Instance Outcome_eq_dec : EqDecision Outcome.
Proof. solve_decision. Defined.
Global Instance Reason_eq_dec : EqDecision Reason.
Proof. solve_decision. Defined.

Record RecipientResult : Type := MkRecipientResult { UserID : string; outcome : Outcome; reason : Reason }.
Record Result : Type := MkResult {
  Task : im.PushTask; ResultRecipients : list RecipientResult; Attempts : Z
}.
Definition PendingRecipients (r : Result) : list string :=
  UserID <$> filter (λ v, outcome v = Unresolved) (ResultRecipients r).

(** The errors of [Process]: an invalid task, or [ErrUnresolved] joined with the error
    of the context, if any. *)
Inductive process_error : Type :=
| ProcessInvalidTask (e : task_error) | ErrUnresolved (ctx : option context_error).

(** ** The processor and its recipients *)

Record Options : Type := MkOptions {
  Timeout : Z; RPCTimeout : Z; RetryDelays : option (list Z)
}.
Record Processor : Type := MkProcessor {
  token : string; timeout : Z; rpcTimeout : Z; delays : Z * Z
}.

Record recipient : Type := MkRecipient {
  r_user : string; r_outcome : Outcome; r_reason : Reason;
  route : option pb.ConnectionIdentity; routeDeadline : Z; needs_repair : bool; stopped : bool
}.
Global Instance recipient_inhabited : Inhabited recipient :=
  populate (MkRecipient "" Unresolved NoReason None zero_ns false false).

Definition set_outcome (o : Outcome) (s : recipient) : recipient :=
  MkRecipient (r_user s) o NoReason (route s) (routeDeadline s) (needs_repair s) (stopped s).
Definition set_reason (r : Reason) (s : recipient) : recipient :=
  MkRecipient (r_user s) (r_outcome s) r (route s) (routeDeadline s) (needs_repair s) (stopped s).
Definition set_route (c : option pb.ConnectionIdentity) (d : Z) (s : recipient) : recipient :=
  MkRecipient (r_user s) (r_outcome s) (r_reason s) c d false (stopped s).
Definition set_repair (r : Reason) (s : recipient) : recipient :=
  MkRecipient (r_user s) (r_outcome s) r None zero_ns true (stopped s).
Definition set_stopped (s : recipient) : recipient :=
  MkRecipient (r_user s) (r_outcome s) (r_reason s) (route s) (routeDeadline s) (needs_repair s) true.

(** ** Environment and trace *)

Definition lookup_reply : Type := result status_error (option (list (option pb.RouteLookupResult))).
Definition resolve_reply : Type := result status_error (option (list (option pb.CometResolution))).
Definition deliver_reply : Type := result status_error (option pb.DeliverResponse).

(** [Cl] is the type of Comet clients; [env_dial] answers an error or a client, which
    may be nil. *)
Record environment (W Cl : Type) : Type := Environment {
  env_now : W → Z * W;
  env_ctx_err : context → W → option context_error * W;
  env_wait : context → Z → W → W;
  env_lookup : context → list string → string → W → lookup_reply * W;
  env_resolve : context → list string → string → W → resolve_reply * W;
  env_dial : context → string → W → option Cl * W;
  env_deliver : Cl → context → pb.DeliverRequest → W → deliver_reply * W
}.
Global Arguments env_now {W Cl}. Global Arguments env_ctx_err {W Cl}. Global Arguments env_wait {W Cl}.
Global Arguments env_lookup {W Cl}. Global Arguments env_resolve {W Cl}.
Global Arguments env_dial {W Cl}. Global Arguments env_deliver {W Cl}.

Inductive event : Type :=
| EvNow (t : Z)
| EvCtxErr (ctx : context) (e : option context_error)
| EvWait (d : Z)
| EvLookup (ctx : context) (ids : list string) (reply : lookup_reply)
| EvResolve (ctx : context) (ids : list string) (reply : resolve_reply)
| EvDial (ctx : context) (address : string) (ok : bool)
| EvDeliver (ctx : context) (req : pb.DeliverRequest) (reply : deliver_reply).

Record job_state (W : Type) : Type := JobState {
  world : W; trace : list event; states : list recipient; repaired : bool
}.
Global Arguments JobState {W}. Global Arguments world {W}. Global Arguments trace {W}.
Global Arguments states {W}. Global Arguments repaired {W}.

Definition add_event {W} (e : event) (s : job_state W) : job_state W :=
  JobState (world s) (trace s ++ [e]) (states s) (repaired s).
Definition set_states {W} (l : list recipient) (s : job_state W) : job_state W :=
  JobState (world s) (trace s) l (repaired s).
Definition set_repaired {W} (s : job_state W) : job_state W :=
  JobState (world s) (trace s) (states s) true.

Section Validation.
Context `{External}.

Definition address_chars : string := "/@?# " +:+ of_bytes [9; 13; 10; 92].
Definition validAddress (address : string) : bool :=
  match split_host_port address with
  | None => false
  | Some (host, port) =>
    match atoi port with
    | None => false
    | Some n => (0 <? n) && (n <=? 65535) && bool_decide (host ≠ "") && negb (contains_any host address_chars)
    end
  end.

Definition sameTarget (a b : option pb.ConnectionIdentity) : bool :=
  match a, b with
  | Some a, Some b =>
    bool_decide (pb.UserId a = pb.UserId b) && bool_decide (pb.InstanceId a = pb.InstanceId b)
    && bool_decide (pb.ConnectionId a = pb.ConnectionId b)
    && bool_decide (pb.RouteToken a = pb.RouteToken b)
  | _, _ => false
  end.

Fixpoint delivery_items_ok (items : list (option pb.DeliveryResult))
    (targets : list (option pb.ConnectionIdentity)) : bool :=
  match items, targets with
  | item :: items', t :: targets' =>
    match item with
    | None => false
    | Some item => sameTarget (pb.Target item) t
                   && (pb.OUTCOME_ENQUEUED <=? pb.Outcome item) && (pb.Outcome item <=? pb.OUTCOME_DRAINING)
    end && delivery_items_ok items' targets'
  | _, _ => true
  end.
Definition validDelivery (r : option pb.DeliverResponse) (task message : string)
    (targets : list (option pb.ConnectionIdentity)) : bool :=
  match r with
  | None => false
  | Some r =>
    bool_decide (pb.ResTaskId r = task) && bool_decide (pb.ResMessageId r = message)
    && (slen (pb.Results r) =? slen targets) && delivery_items_ok (pb.Results r) targets
  end.

(** ** Construction *)

Definition NewProcessor (jobToken : string) (options : Options) : option Processor :=
  if negb (printable jobToken 256) || (len jobToken <? 32) then None
  else if existsb (Z.eqb 32) (runes jobToken) then None
  else
    let t := if Timeout options =? 0 then 10 * second else Timeout options in
    let rt := if RPCTimeout options =? 0 then 2 * second else RPCTimeout options in
    if (t <? 0) || (10 * second <? t) || (rt <? 0) || (2 * second <? rt) then None
    else
      let max := (200 * millisecond, second) in
      match RetryDelays options with
      | None => Some (MkProcessor jobToken t rt max)
      | Some [d0; d1] =>
        if (d0 <? 0) || (max.1 <? d0) || (d1 <? 0) || (max.2 <? d1) then None
        else Some (MkProcessor jobToken t rt (d0, d1))
      | Some _ => None
      end.
End Validation.

Section Process.
Context `{External} {W Cl : Type} (env : environment W Cl) (p : Processor).

#[local] Abbreviation M := (ST (job_state W)).

(** ** Effects *)

Definition call {A} (f : W → A * W) (ev : A → event) : M A := λ s,
  let '(a, w) := f (world s) in (a, JobState w (trace s ++ [ev a]) (states s) (repaired s)).
Definition time_now : M Z := call (env_now env) EvNow.
Definition ctx_err (ctx : context) : M (option context_error) := call (env_ctx_err env ctx) (EvCtxErr ctx).
Definition wait (ctx : context) (d : Z) : M unit :=
  call (λ w, (tt, env_wait env ctx d w)) (λ _, EvWait d).
Definition LookupRoutes (ctx : context) (ids : list string) (request : string) : M lookup_reply :=
  call (env_lookup env ctx ids request) (EvLookup ctx ids).
Definition ResolveComets (ctx : context) (ids : list string) (request : string) : M resolve_reply :=
  call (env_resolve env ctx ids request) (EvResolve ctx ids).
Definition dial (ctx : context) (address : string) : M (option Cl) :=
  call (env_dial env ctx address) (λ c, EvDial ctx address (match c with Some _ => true | None => false end)).
Definition Deliver (c : Cl) (ctx : context) (req : pb.DeliverRequest) : M deliver_reply :=
  call (env_deliver env c ctx req) (EvDeliver ctx req).

(** [context.WithTimeout]: the deadline is the earlier of the parent's and now + d. *)
Definition with_timeout (ctx : context) (d : Z) : M context :=
  now ← time_now; mret (with_deadline ctx (now + d)).
Definition rpcContext (ctx : context) : M context :=
  with_timeout (with_authorization ctx ("Bearer " +:+ token p)) (rpcTimeout p).

(** A [*recipient] is its index in [states]; a batch is a list of them. *)
Definition state_of (i : nat) : M recipient := gets (λ s, states s !!! i).
Definition update (f : recipient → recipient) (i : nat) : M unit :=
  modify (λ s, set_states (alter f i (states s)) s).

Definition mark (batch : list nat) (r : Reason) : M unit := for_each (update (set_reason r)) batch.
Definition repairWithReason (batch : list nat) (r : Reason) : M unit := for_each (update (set_repair r)) batch.
Definition repair (batch : list nat) : M unit := repairWithReason batch RouteChanged.

(** ** Checking what Logic answers *)

Definition future (t : option Timestamp) : M bool :=
  match t with
  | Some t => if timestamp_check_valid t then now ← time_now; mret (now <? as_ns t) else mret false
  | None => mret false
  end.

Definition validLookup (item : option pb.RouteLookupResult) (id : string) : M bool :=
  match item with
  | None => mret false
  | Some item =>
    if negb (bool_decide (pb.LookupUserId item = id)) then mret false else
    match pb.State item with
    | pb.StateRoute None => mret false
    | pb.StateRoute (Some a) =>
      if validConnection (pb.RouteIdentity a)
         && bool_decide (pb.UserId <$> pb.RouteIdentity a = Some id)
      then and_then (future (pb.AuthExpiresAt a)) (and_then (future (pb.RouteDeadline a))
             (mret (match pb.RouteDeadline a, pb.AuthExpiresAt a with
                    | Some d, Some e => negb (as_ns e <? as_ns d)
                    | _, _ => false
                    end)))
      else mret false
    | pb.StateOffline r =>
      mret ((r =? pb.OFFLINE_REASON_NO_ROUTE) || (r =? pb.OFFLINE_REASON_LEASE_EXPIRED)
            || (r =? pb.OFFLINE_REASON_INSTANCE_EXPIRED))
    | pb.StateUnset => mret false
    end
  end.
Fixpoint lookups_ok (l : list (option pb.RouteLookupResult * string)) : M bool :=
  match l with
  | [] => mret true
  | (item, id) :: l' => and_then (validLookup item id) (lookups_ok l')
  end.
Definition validLookups (r : option (list (option pb.RouteLookupResult))) (ids : list string) : M bool :=
  match r with
  | None => mret false
  | Some r => if negb (slen r =? slen ids) then mret false else lookups_ok (zip r ids)
  end.

Definition validResolution (item : option pb.CometResolution) (id : string) : M bool :=
  match item with
  | None => mret false
  | Some item =>
    if negb (bool_decide (pb.ResolvedId item = id)) then mret false else
    match pb.CState item with
    | pb.StateLease None => mret false
    | pb.StateLease (Some a) =>
      match pb.LeaseIdentity a with
      | None => mret false
      | Some comet =>
        if bool_decide (pb.CometInstanceId comet = id) && validUUID (pb.BootId comet)
        then and_then (future (pb.LeaseDeadline a)) (mret (validAddress (pb.RpcAddress a)))
        else mret false
      end
    | pb.StateMissing r =>
      mret ((r =? pb.MISSING_COMET_NOT_REGISTERED) || (r =? pb.MISSING_COMET_LEASE_EXPIRED))
    | pb.CometStateUnset => mret false
    end
  end.
Fixpoint resolutions_ok (l : list (option pb.CometResolution * string)) : M bool :=
  match l with
  | [] => mret true
  | (item, id) :: l' => and_then (validResolution item id) (resolutions_ok l')
  end.
Definition validResolutions (r : option (list (option pb.CometResolution))) (ids : list string) : M bool :=
  match r with
  | None => mret false
  | Some r => if negb (slen r =? slen ids) then mret false else resolutions_ok (zip r ids)
  end.

(** ** Failures and eligibility *)

Definition permanent_code (c : code) : bool :=
  match c with
  | InvalidArgument | PermissionDenied | Unauthenticated | AlreadyExists | Unimplemented => true
  | _ => false
  end.
(** The loop over the details: [(permanent, refresh)]. *)
Fixpoint retry_directive (ds : list (option pb.ErrorDetail)) (permanent refresh : bool) : bool * bool :=
  match ds with
  | [] => (permanent, refresh)
  | None :: ds' => retry_directive ds' permanent refresh
  | Some d :: ds' =>
    if (pb.Retry d =? pb.DO_NOT_RETRY) || (pb.Retry d =? pb.REAUTHENTICATE)
    then retry_directive ds' true refresh
    else if pb.Retry d =? pb.SAME_REQUEST then retry_directive ds' permanent false
    else if pb.Retry d =? pb.REFRESH_ROUTE then retry_directive ds' permanent true
    else retry_directive ds' permanent refresh
  end.
Definition rpcFailure (batch : list nat) (err : status_error) (refresh : bool) : M unit :=
  let '(permanent, refresh) := retry_directive (err_details err) (permanent_code (err_code err)) refresh in
  if permanent then for_each (update (λ s, set_stopped (set_reason DeliveryRejected s))) batch
  else if refresh then repairWithReason batch DependencyFailure
  else mark batch DependencyFailure.

Definition eligible (batch : list nat) (lease : pb.CometLease) : M (list nat) :=
  ok ← future (pb.LeaseDeadline lease);
  if negb ok then repair batch;; mret []
  else
    now ← time_now;
    filter_m (λ i,
      s ← state_of i;
      if negb (routeDeadline s =? zero_ns) && negb (now <? routeDeadline s)
      then repair [i];; mret false else mret true) batch.

(** ** Looking up routes *)

Definition apply_lookup (x : nat * option pb.RouteLookupResult) : M unit :=
  let '(i, item) := x in
  match item ≫= pb.GetRoute with
  | Some r => update (set_route (pb.RouteIdentity r)
                        (match pb.RouteDeadline r with Some d => as_ns d | None => 0 end)) i
  | None => update (set_outcome Offline) i
  end.
Definition lookup (ctx : context) (request : string) (batch : list nat) : M unit :=
  ids ← gets (λ s, (λ i, r_user (states s !!! i)) <$> batch);
  rpcCtx ← rpcContext ctx;
  reply ← LookupRoutes rpcCtx ids request;
  match reply with
  | Err e => rpcFailure batch e false
  | Ok r =>
    ok ← validLookups r ids;
    if negb ok then mark batch InvalidResponse
    else for_each apply_lookup (zip batch (default [] r))
  end.

(** ** One round *)

Definition unresolved (s : recipient) : bool := bool_decide (r_outcome s = Unresolved).
Definition routeless (s : recipient) : bool := match route s with None => true | Some _ => false end.

(** The first loop: the recipients to look up, and whether one of them needs repair.
    One that needs repair after the only repair lookup is stopped. *)
Fixpoint collect_lookup (l : list nat) : M (list nat * bool) :=
  match l with
  | [] => mret ([], false)
  | i :: l' =>
    s ← state_of i;
    done ← gets repaired;
    if unresolved s && negb (stopped s) && routeless s then
      if needs_repair s && done then update set_stopped i;; collect_lookup l'
      else '(r, b) ← collect_lookup l'; mret (i :: r, needs_repair s || b)
    else collect_lookup l'
  end.
Definition stop_unrepaired (i : nat) : M unit :=
  s ← state_of i; when (needs_repair s && routeless s) (update set_stopped i).

(** The recipients with a route, by instance, in the order of the instance ids. *)
Definition group_by (l : list recipient) : gmap string (list nat) :=
  foldl (λ m '(i, s),
    match route s with
    | Some r => if unresolved s && negb (stopped s)
                then <[pb.InstanceId r := default [] (m !! pb.InstanceId r) ++ [i]]> m else m
    | None => m
    end) ∅ (imap pair l).
Definition batches (groups : gmap string (list nat)) : list (string * list nat) :=
  (λ id, (id, default [] (groups !! id))) <$> sort_strings (map_to_list groups).*1.

Definition apply_delivery (x : nat * option pb.DeliveryResult) : M unit :=
  let '(i, item) := x in
  match item with
  | None => mret tt
  | Some item =>
    if pb.Outcome item =? pb.OUTCOME_ENQUEUED then update (set_outcome Enqueued) i
    else if pb.Outcome item =? pb.OUTCOME_DUPLICATE then update (set_outcome Duplicate) i
    else repair [i]
  end.

Definition deliver_batch (ctx : context) (task : im.PushTask) (message : option pb.MessageView)
    (lease : pb.CometLease) (batch : list nat) : M unit :=
  batch ← eligible batch lease;
  if bool_decide (batch = []) then mret tt else
  rpcCtx ← rpcContext ctx;
  client ← dial rpcCtx (pb.RpcAddress lease);
  match client with
  | None => mark batch DependencyFailure
  | Some client =>
    batch ← eligible batch lease;
    if bool_decide (batch = []) then mret tt else
    e ← ctx_err rpcCtx;
    if bool_decide (e ≠ None) then mret tt else
    targets ← gets (λ s, (λ i, route (states s !!! i)) <$> batch);
    response ← Deliver client rpcCtx
      (pb.MkDeliverRequest (pb.LeaseIdentity lease) (im.TaskID task) message targets (im.RequestID task));
    match response with
    | Err e => rpcFailure batch e true
    | Ok r =>
      if negb (validDelivery r (im.TaskID task) (match message with Some m => pb.MessageId m | None => "" end) targets)
      then repairWithReason batch InvalidResponse
      else for_each apply_delivery (zip batch (match r with Some r => pb.Results r | None => [] end))
    end
  end.

Fixpoint deliver_all (ctx : context) (task : im.PushTask) (message : option pb.MessageView)
    (l : list ((string * list nat) * option pb.CometResolution)) : M unit :=
  match l with
  | [] => mret tt
  | ((_, batch), resolution) :: l' =>
    e ← ctx_err ctx;
    if bool_decide (e ≠ None) then mret tt else
    match resolution ≫= pb.GetLease with
    | None => repair batch
    | Some lease => deliver_batch ctx task message lease batch
    end;;
    deliver_all ctx task message l'
  end.

Definition round (ctx : context) (task : im.PushTask) : M unit :=
  n ← gets (λ s, length (states s));
  '(batch, is_repair) ← collect_lookup (seq 0 n);
  when (negb (bool_decide (batch = [])))
    (when is_repair (modify set_repaired);;
     lookup ctx (im.RequestID task) batch;;
     for_each stop_unrepaired batch);;
  groups ← gets (λ s, batches (group_by (states s)));
  if bool_decide (groups = []) then mret tt else
  e ← ctx_err ctx;
  if bool_decide (e ≠ None) then mret tt else
  rpcCtx ← rpcContext ctx;
  reply ← ResolveComets rpcCtx groups.*1 (im.RequestID task);
  match reply with
  | Err e => for_each (λ g, rpcFailure g.2 e false) groups
  | Ok r =>
    ok ← validResolutions r groups.*1;
    if negb ok then for_each (λ g, mark g.2 InvalidResponse) groups
    else
      let message := match messageView (im.Message_ task) with Ok v => Some v | Err _ => None end in
      deliver_all ctx task message (zip groups (default [] r))
  end.

(** ** A task *)

Definition runnable (s : job_state W) : bool :=
  existsb (λ r, unresolved r && negb (stopped r) && negb (needs_repair r && repaired s)) (states s).

(** The rounds from number [attempt] on, [n] of them at most, and how many ran. *)
Fixpoint attempts (n : nat) (attempt : nat) (ctx : context) (task : im.PushTask) : M Z :=
  match n with
  | O => mret 0
  | S n' =>
    e ← ctx_err ctx;
    if bool_decide (e ≠ None) then mret 0 else
    run ← gets runnable;
    if negb run then mret 0 else
    go ← match attempt with
         | O => mret true
         | S k =>
           wait ctx (match k with O => (delays p).1 | _ => (delays p).2 end);;
           e ← ctx_err ctx; mret (bool_decide (e = None))
         end;
    if negb go then mret 0 else
    round ctx task;;
    k ← attempts n' (S attempt) ctx task;
    mret (k + 1)
  end.

Definition exhaust (s : recipient) : recipient :=
  if unresolved s && bool_decide (r_reason s = NoReason) then set_reason BudgetExhausted s else s.
Definition recipient_result (s : recipient) : RecipientResult :=
  MkRecipientResult (r_user s) (r_outcome s) (r_reason s).

Definition hints (task : im.PushTask) : gmap string pb.ConnectionIdentity :=
  match im.PendingRecipients task with
  | Some _ => ∅
  | None => fold_left (λ m h, <[im.UserID h := connectionView h]> m) (default [] (im.Targets task)) ∅
  end.
Definition task_ids (task : im.PushTask) : list string := default (im.Recipients task) (im.PendingRecipients task).
Definition initial_states (task : im.PushTask) : list recipient :=
  (λ id, MkRecipient id Unresolved NoReason (hints task !! id) zero_ns false false) <$> task_ids task.

Definition process_task (ctx : context) (task : im.PushTask) : M (Result * option process_error) :=
  ctx ← with_timeout ctx (timeout p);
  n ← attempts 3 0 ctx task;
  modify (λ s, set_states (exhaust <$> states s) s);;
  rs ← gets (λ s, recipient_result <$> states s);
  let result := MkResult task rs n in
  if bool_decide (PendingRecipients result = []) then mret (result, None)
  else e ← ctx_err ctx; mret (result, Some (ErrUnresolved e)).

Definition Process (ctx : context) (raw : string) (w : W) : (Result * option process_error) * job_state W :=
  match DecodeTask raw with
  | Err e => ((MkResult im.zero_task [] 0, Some (ProcessInvalidTask e)), JobState w [] [] false)
  | Ok task => process_task ctx task (JobState w [] (initial_states task) false)
  end.
End Process.
