(* ===== verification/JobProcessorProofs.v ===== *)
(** * Safety of [Process]

    Whatever the clock, the contexts, Logic and Comet answer, the trace of a task only
    has interactions the protocol allows, and every outcome it reports is justified by
    an answer in the trace.  The invariant [Inv] relates the states of the recipients to
    the trace; [eff B] says which recipients an operation may change. *)
From S2P Require Import Prelude GoStd GoTime External Dto JobTask JobTaskProofs Samples JobProcessor.
Local Open Scope Z_scope.

Section Safety.
Context `{External} {W Cl : Type} (env : environment W Cl) (p : Processor).
(** The task, its message, the users to serve and the deadline of the task. *)
Context (task : im.PushTask) (message : pb.MessageView) (ids : list string) (dl : Z).
Hypothesis message_ok : messageView (im.Message_ task) = Ok message.
Hypothesis ids_nodup : NoDup ids.

(** ** What the trace may contain *)

Definition rpc_context_ok (t : list event) (c : context) : Prop :=
  ctx_authorization c = Some ("Bearer " +:+ token p)
  ∧ ∃ d now, ctx_deadline c = Some d ∧ d ≤ dl ∧ EvNow now ∈ t ∧ d ≤ now + rpcTimeout p.

Definition request_message_id (req : pb.DeliverRequest) : string :=
  match pb.ReqMessage req with Some m => pb.MessageId m | None => "" end.
(** A valid answer of Comet reports outcome [o] for the target of user [u]. *)
Definition confirmed_as (o : Z) (u : string) (e : event) : Prop :=
  ∃ ctx req resp j c item,
    e = EvDeliver ctx req (Ok (Some resp))
    ∧ validDelivery (Some resp) (pb.ReqTaskId req) (request_message_id req) (pb.ReqTargets req) = true
    ∧ pb.ReqTargets req !! j = Some (Some c) ∧ pb.UserId c = u
    ∧ pb.Results resp !! j = Some (Some item) ∧ pb.Outcome item = o.
Definition confirmed (u : string) (e : event) : Prop :=
  confirmed_as pb.OUTCOME_ENQUEUED u e ∨ confirmed_as pb.OUTCOME_DUPLICATE u e.
Definition told_offline (u : string) (e : event) : Prop :=
  ∃ ctx us rs j item r,
    e = EvLookup ctx us (Ok (Some rs)) ∧ us !! j = Some u ∧ rs !! j = Some (Some item)
    ∧ pb.LookupUserId item = u ∧ pb.State item = pb.StateOffline r.

(** Logic resolved an instance to the lease. *)
Definition resolved (t : list event) (lease : pb.CometLease) : Prop :=
  ∃ ctx us rs item comet,
    EvResolve ctx us (Ok (Some rs)) ∈ t ∧ Some item ∈ rs ∧ pb.CState item = pb.StateLease (Some lease)
    ∧ pb.LeaseIdentity lease = Some comet ∧ validUUID (pb.BootId comet) = true
    ∧ validAddress (pb.RpcAddress lease) = true.

Definition target_ok (t : list event) (comet : pb.CometIdentity) (c : pb.ConnectionIdentity) : Prop :=
  pb.UserId c ∈ ids ∧ validConnection (Some c) = true
  ∧ pb.InstanceId c = pb.CometInstanceId comet
  ∧ ∀ e, e ∈ t → ¬ confirmed (pb.UserId c) e.

(** A request goes to the boot and address Logic resolved, right after the lease and the
    context were checked, for valid connections of distinct users that have not been
    confirmed yet. *)
Definition request_ok (t : list event) (ctx : context) (req : pb.DeliverRequest) : Prop :=
  pb.ReqTaskId req = im.TaskID task ∧ pb.ReqMessage req = Some message
  ∧ pb.ReqRequestId req = im.RequestID task
  ∧ ∃ lease comet deadline cs t0 t1 t2,
      resolved t lease ∧ EvDial ctx (pb.RpcAddress lease) true ∈ t
      ∧ pb.LeaseIdentity lease = Some comet ∧ pb.ReqComet req = Some comet
      ∧ pb.LeaseDeadline lease = Some deadline
      ∧ t = t0 ++ [EvNow t1; EvNow t2; EvCtxErr ctx None] ∧ t1 < as_ns deadline
      ∧ pb.ReqTargets req = Some <$> cs ∧ cs ≠ [] ∧ NoDup (pb.UserId <$> cs)
      ∧ Forall (target_ok t comet) cs.

Definition event_ok (t : list event) (e : event) : Prop :=
  match e with
  | EvNow _ | EvCtxErr _ _ | EvWait _ => True
  | EvLookup c us _ =>
    rpc_context_ok t c ∧ us ≠ [] ∧ NoDup us ∧ us ⊆ ids ∧ ∀ u e', u ∈ us → e' ∈ t → ¬ confirmed u e'
  | EvResolve c us _ => rpc_context_ok t c ∧ us ≠ [] ∧ NoDup us
  | EvDial c address _ => rpc_context_ok t c ∧ ∃ lease, resolved t lease ∧ pb.RpcAddress lease = address
  | EvDeliver c req _ => rpc_context_ok t c ∧ request_ok t c req
  end.

(** ** The invariant *)

Definition justified (t : list event) (r : recipient) : Prop :=
  match r_outcome r with
  | Unresolved => True
  | Enqueued => r_reason r = NoReason ∧ ∃ e, e ∈ t ∧ confirmed_as pb.OUTCOME_ENQUEUED (r_user r) e
  | Duplicate => r_reason r = NoReason ∧ ∃ e, e ∈ t ∧ confirmed_as pb.OUTCOME_DUPLICATE (r_user r) e
  | Offline => r_reason r = NoReason ∧ ∃ e, e ∈ t ∧ told_offline (r_user r) e
  end.
Definition recipient_ok (t : list event) (r : recipient) : Prop :=
  (∀ c, route r = Some c → pb.UserId c = r_user r ∧ validConnection (Some c) = true) ∧ justified t r.

Definition terminal (s : job_state W) (u : string) : Prop :=
  ∃ i r, states s !! i = Some r ∧ r_user r = u ∧ r_outcome r ≠ Unresolved.

(** [X] holds of the users an answer has confirmed whose outcome is not yet set. *)
Record Inv (X : string → Prop) (s : job_state W) : Prop := {
  inv_users : r_user <$> states s = ids;
  inv_states : ∀ i r, states s !! i = Some r → recipient_ok (trace s) r;
  inv_confirmed : ∀ u e, e ∈ trace s → confirmed u e → X u ∨ terminal s u;
  inv_trace : ∀ k e, trace s !! k = Some e → event_ok (take k (trace s)) e
}.

(** From [s] to [s'] only recipients in [B] changed, and the trace grew. *)
Record eff (B : list nat) (s s' : job_state W) : Prop := Eff {
  eff_states : ∀ i, i ∉ B → states s' !! i = states s !! i;
  eff_trace : trace s `prefix_of` trace s'
}.
Definition Unres (B : list nat) (s : job_state W) : Prop :=
  ∀ i, i ∈ B → ∃ r, states s !! i = Some r ∧ r_outcome r = Unresolved.
Definition Ready (id : string) (B : list nat) (s : job_state W) : Prop :=
  ∀ i, i ∈ B → ∃ r c, states s !! i = Some r ∧ r_outcome r = Unresolved
                      ∧ route r = Some c ∧ pb.InstanceId c = id.

Lemma eff_refl B s : eff B s s.
Proof. by constructor. Qed.
Lemma eff_trans B s1 s2 s3 : eff B s1 s2 → eff B s2 s3 → eff B s1 s3.
Proof. intros [H1 ?] [H2 ?]. constructor; [|by etrans]. intros i Hi. by rewrite H2, H1. Qed.
Lemma eff_weaken B B' s s' : eff B s s' → B ⊆ B' → eff B' s s'.
Proof. intros [H1 ?] ?. constructor; [|done]. intros i Hi. apply H1. set_solver. Qed.
Lemma eff_Unres B D s s' : eff B s s' → (∀ i, i ∈ D → i ∉ B) → Unres D s → Unres D s'.
Proof. intros [He _] Hd Hu i Hi. rewrite He by auto. by apply Hu. Qed.
Lemma eff_Ready id B D s s' : eff B s s' → (∀ i, i ∈ D → i ∉ B) → Ready id D s → Ready id D s'.
Proof. intros [He _] Hd Hu i Hi. rewrite He by auto. by apply Hu. Qed.
Lemma Ready_Unres id B s : Ready id B s → Unres B s.
Proof. intros Hr i Hi. destruct (Hr i Hi) as (r&c&?&?&_). eauto. Qed.
Lemma Unres_sub B B' s : Unres B' s → B ⊆ B' → Unres B s.
Proof. unfold Unres. set_solver. Qed.
Lemma Ready_sub id B B' s : Ready id B' s → B ⊆ B' → Ready id B s.
Proof. unfold Ready. set_solver. Qed.

Lemma justified_app t t' r : justified t r → justified (t ++ t') r.
Proof. unfold justified. destruct (r_outcome r); set_solver. Qed.
Lemma recipient_ok_app t t' r : recipient_ok t r → recipient_ok (t ++ t') r.
Proof. intros [? ?]. split; [done|by apply justified_app]. Qed.
Lemma rpc_context_ok_prefix t t' c : rpc_context_ok t c → t `prefix_of` t' → rpc_context_ok t' c.
Proof. intros (?&d&now&?&?&?&?) [k ->]. split; [done|]. exists d, now. set_solver. Qed.
Lemma resolved_prefix t t' l : resolved t l → t `prefix_of` t' → resolved t' l.
Proof. intros (c&us&rs&it&co&?&?) [k ->]. exists c, us, rs, it, co. set_solver. Qed.

(** ** Events and updates preserve the invariant *)

Lemma Inv_event (X X' : string → Prop) e w s :
  Inv X s → event_ok (trace s) e → (∀ u, X u → X' u) → (∀ u, confirmed u e → X' u) →
  Inv X' (JobState w (trace s ++ [e]) (states s) (repaired s)).
Proof.
  intros [Hu Hs Hc Ht] He HX Hconf. constructor; cbn; [done|..].
  - intros i r Hi. by eapply recipient_ok_app, Hs.
  - intros u e' [Hin| ->%list_elem_of_singleton]%elem_of_app Hce; [|by left; apply Hconf].
    destruct (Hc u e' Hin Hce); [left; auto|by right].
  - intros k e'. intros Hk. destruct (decide (k < length (trace s))%nat) as [Hlt|Hge].
    + rewrite lookup_app_l in Hk by done. rewrite take_app_le by lia. by apply Ht.
    + rewrite lookup_app_r in Hk by lia. apply list_lookup_singleton_Some in Hk as [? <-].
      assert (k = length (trace s)) as -> by lia. by rewrite take_app_length.
Qed.

Lemma Inv_update_gen (X X' : string → Prop) f i r s :
  Inv X s → states s !! i = Some r → (r_outcome r ≠ Unresolved → r_outcome (f r) ≠ Unresolved) →
  r_user (f r) = r_user r → recipient_ok (trace s) (f r) →
  (∀ u, X u → X' u ∨ (u = r_user r ∧ r_outcome (f r) ≠ Unresolved)) →
  Inv X' (set_states (alter f i (states s)) s) ∧ eff [i] s (set_states (alter f i (states s)) s).
Proof.
  intros [Hu Hs Hc Ht] Hi Hr Hfu Hfr HX. split.
  2:{ constructor; cbn; [|done]. intros j Hj. rewrite list_lookup_alter_ne; [done|set_solver]. }
  assert (i < length (states s))%nat by by eapply lookup_lt_Some.
  constructor; cbn; [..|done].
  - rewrite <-Hu. apply list_eq. intros j. rewrite !list_lookup_fmap.
    destruct (decide (i = j)) as [<-|?]; [|by rewrite list_lookup_alter_ne].
    rewrite list_lookup_alter_eq, Hi. cbn. by rewrite Hfu.
  - intros j r' Hj. destruct (decide (i = j)) as [<-|?].
    + rewrite list_lookup_alter_eq, Hi in Hj. by simplify_eq/=.
    + rewrite list_lookup_alter_ne in Hj by done. by eapply Hs.
  - intros u e Hin Hce. destruct (Hc u e Hin Hce) as [Hx|(j&r'&Hj&?&?)].
    + destruct (HX u Hx) as [?|[-> ?]]; [by left|]. right. exists i, (f r).
      cbn. by rewrite list_lookup_alter_eq, Hi.
    + right. destruct (decide (i = j)) as [<-|?].
      * simplify_eq. exists i, (f r). cbn. rewrite list_lookup_alter_eq, Hi. auto.
      * exists j, r'. cbn. by rewrite list_lookup_alter_ne.
Qed.

Lemma Inv_update (X X' : string → Prop) f i r s :
  Inv X s → states s !! i = Some r → r_outcome r = Unresolved →
  r_user (f r) = r_user r → recipient_ok (trace s) (f r) →
  (∀ u, X u → X' u ∨ (u = r_user r ∧ r_outcome (f r) ≠ Unresolved)) →
  Inv X' (set_states (alter f i (states s)) s) ∧ eff [i] s (set_states (alter f i (states s)) s).
Proof. intros. by eapply Inv_update_gen. Qed.

(** ** Interactions *)

Definition same (s s' : job_state W) : Prop :=
  states s' = states s ∧ repaired s' = repaired s ∧ trace s `prefix_of` trace s'.
Lemma same_refl s : same s s.
Proof. by split_and!. Qed.
Lemma same_trans s1 s2 s3 : same s1 s2 → same s2 s3 → same s1 s3.
Proof. intros (?&?&?) (?&?&?). split_and!; [congruence..|by etrans]. Qed.
Lemma same_eff B s s' : same s s' → eff B s s'.
Proof. intros (Hs&_&?). constructor; [by rewrite Hs|done]. Qed.
Lemma same_Unres B s s' : same s s' → Unres B s → Unres B s'.
Proof. intros (Hs&_) Hu i Hi. rewrite Hs. by apply Hu. Qed.
Lemma same_Ready id B s s' : same s s' → Ready id B s → Ready id B s'.
Proof. intros (Hs&_) Hu i Hi. rewrite Hs. by apply Hu. Qed.

Definition quiet (e : event) : Prop := match e with EvDeliver _ _ _ => False | _ => True end.
Lemma quiet_confirmed u e : quiet e → ¬ confirmed u e.
Proof. intros Hq [(?&?&?&?&?&?&->&_)|(?&?&?&?&?&?&->&_)]; done. Qed.

Lemma call_ok {A} (f : W → A * W) ev X s :
  Inv X s → (∀ a, quiet (ev a) ∧ event_ok (trace s) (ev a)) →
  wp (call f ev) (λ a s', Inv X s' ∧ same s s' ∧ trace s' = trace s ++ [ev a]) s.
Proof.
  intros HI Hev. unfold wp, call. destruct (f (world s)) as [a w]; cbn.
  destruct (Hev a) as [Hq Hok]. split_and!; cbn; try done.
  - apply Inv_event with X; auto. intros u Hu. by apply quiet_confirmed in Hu.
  - split_and!; [done|done|by apply prefix_app_r].
Qed.

Lemma time_now_ok X s :
  Inv X s → wp (time_now env) (λ now s', Inv X s' ∧ same s s' ∧ trace s' = trace s ++ [EvNow now]) s.
Proof. intros HI. by apply call_ok. Qed.
Lemma ctx_err_ok ctx X s :
  Inv X s → wp (ctx_err env ctx) (λ e s', Inv X s' ∧ same s s' ∧ trace s' = trace s ++ [EvCtxErr ctx e]) s.
Proof. intros HI. by apply call_ok. Qed.

Lemma rpcContext_ok ctx X s :
  Inv X s → ctx_deadline ctx = Some dl →
  wp (rpcContext env p ctx) (λ c s', Inv X s' ∧ same s s' ∧ rpc_context_ok (trace s') c) s.
Proof.
  intros HI Hd. unfold rpcContext, with_timeout. wp_apply time_now_ok; [done|].
  intros now s' (HI'&Hs&Ht). wp_steps. split_and!; [done|done|].
  split; [done|]. cbn. rewrite Hd. eexists _, now. split_and!; [done|lia|rewrite Ht; set_solver|lia].
Qed.

(** ** Updates of a batch *)

(** An update that leaves the user and the outcome, and drops the route or leaves it. *)
Definition keeps (f : recipient → recipient) : Prop :=
  ∀ r, r_user (f r) = r_user r ∧ r_outcome (f r) = r_outcome r ∧ (route (f r) = route r ∨ route (f r) = None).

Lemma keeps_ok f t r : keeps f → r_outcome r = Unresolved → recipient_ok t r → recipient_ok t (f r).
Proof.
  intros Hf Hr [Hc _]. destruct (Hf r) as (Hu&Ho&Hroute). split.
  - intros c Hfc. rewrite Hu. apply Hc. destruct Hroute as [<-|?]; congruence.
  - unfold justified. by rewrite Ho, Hr.
Qed.

Lemma update_keeps f i X B s :
  keeps f → Inv X s → Unres B s → i ∈ B →
  wp (update f i) (λ _ s', Inv X s' ∧ Unres B s' ∧ eff [i] s s' ∧ trace s' = trace s) s.
Proof.
  intros Hf HI HB Hi. destruct (HB i Hi) as (r&Hr&Ho). unfold update. wp_steps.
  destruct (Hf r) as (Hu&Hfo&_).
  destruct (Inv_update X X f i r s) as [??]; auto.
  { apply keeps_ok; [done..|]. by eapply inv_states. }
  split_and!; try done. intros j Hj. cbn. destruct (decide (i = j)) as [<-|?].
  - rewrite list_lookup_alter_eq, Hr. cbn. eexists. by rewrite Hfo.
  - rewrite list_lookup_alter_ne by done. by apply HB.
Qed.

Lemma batch_ok f D B X s :
  keeps f → Inv X s → Unres D s → B ⊆ D →
  wp (for_each (update f) B) (λ _ s', Inv X s' ∧ Unres D s' ∧ eff B s s' ∧ trace s' = trace s) s.
Proof.
  intros Hf HI HB HBD.
  set (I := λ l s', l ⊆ B ∧ Inv X s' ∧ Unres D s' ∧ eff B s s' ∧ trace s' = trace s).
  eapply wp_mono; [eapply (wp_for_each I)|unfold I; naive_solver].
  2:{ unfold I. split_and!; auto using eff_refl. }
  intros i l s1 (Hl&HI1&HU1&He1&Ht1).
  eapply wp_mono; [apply update_keeps with (B := D); try done; set_solver|].
  intros _ s2 (?&?&He2&?). unfold I. split_and!; [set_solver|done|done| |congruence].
  eapply eff_trans; [done|]. eapply eff_weaken; [done|set_solver].
Qed.

Lemma keeps_reason r : keeps (set_reason r).
Proof. intros []; cbn; auto. Qed.
Lemma keeps_repair r : keeps (set_repair r).
Proof. intros []; cbn; auto. Qed.
Lemma keeps_stopped : keeps set_stopped.
Proof. intros []; cbn; auto. Qed.
Lemma keeps_rejected : keeps (λ s, set_stopped (set_reason DeliveryRejected s)).
Proof. intros []; cbn; auto. Qed.

(** What every operation on a batch that settles nothing guarantees. *)
Definition batch_post X (D B : list nat) (s s' : job_state W) : Prop :=
  Inv X s' ∧ Unres D s' ∧ eff B s s' ∧ trace s' = trace s.

Lemma mark_ok D B r X s : Inv X s → Unres D s → B ⊆ D → wp (mark B r) (λ _, batch_post X D B s) s.
Proof. intros. apply batch_ok; auto using keeps_reason. Qed.
Lemma repairWithReason_ok D B r X s :
  Inv X s → Unres D s → B ⊆ D → wp (repairWithReason B r) (λ _, batch_post X D B s) s.
Proof. intros. apply batch_ok; auto using keeps_repair. Qed.
Lemma rpcFailure_ok D B e b X s :
  Inv X s → Unres D s → B ⊆ D → wp (rpcFailure B e b) (λ _, batch_post X D B s) s.
Proof.
  intros. unfold rpcFailure. destruct (retry_directive _ _ _) as [[] []].
  1,2: apply batch_ok; auto using keeps_rejected.
  - by apply repairWithReason_ok.
  - by apply mark_ok.
Qed.

(** ** Answers of Logic *)

Lemma future_ok t X s :
  Inv X s →
  wp (future env t) (λ b s', Inv X s' ∧ same s s' ∧
    (b = true → ∃ d now, t = Some d ∧ now < as_ns d ∧ trace s' = trace s ++ [EvNow now])) s.
Proof.
  intros HI. unfold future. destruct t as [d|]; [|by wp_steps; auto using same_refl].
  destruct (timestamp_check_valid d); [|by wp_steps; auto using same_refl].
  wp_apply time_now_ok; [done|]. intros now s' (?&?&?). wp_steps.
  split_and!; [done|done|]. intros ?%Z.ltb_lt. eauto 10.
Qed.

(** An accepted item of [LookupRoutes] and of [ResolveComets]. *)
Definition lookup_valid (item : option pb.RouteLookupResult) (id : string) : Prop :=
  ∃ it, item = Some it ∧ pb.LookupUserId it = id ∧
    ((∃ a c, pb.State it = pb.StateRoute (Some a) ∧ pb.RouteIdentity a = Some c
             ∧ validConnection (Some c) = true ∧ pb.UserId c = id)
     ∨ ∃ r, pb.State it = pb.StateOffline r).
Definition resolution_valid (item : option pb.CometResolution) (id : string) : Prop :=
  ∃ it, item = Some it ∧ pb.ResolvedId it = id ∧
    ((∃ a comet, pb.CState it = pb.StateLease (Some a) ∧ pb.LeaseIdentity a = Some comet
                 ∧ pb.CometInstanceId comet = id ∧ validUUID (pb.BootId comet) = true
                 ∧ validAddress (pb.RpcAddress a) = true)
     ∨ ∃ r, pb.CState it = pb.StateMissing r).

Lemma validLookup_ok item id X s :
  Inv X s →
  wp (validLookup env item id) (λ b s', Inv X s' ∧ same s s' ∧ (b = true → lookup_valid item id)) s.
Proof.
  intros HI. unfold validLookup. destruct item as [it|]; [|by wp_steps; auto using same_refl].
  destruct (bool_decide _) eqn:Hid; cbn [negb]; [|by wp_steps; auto using same_refl].
  apply bool_decide_eq_true in Hid.
  destruct (pb.State it) as [[a|]|r|] eqn:Hst; try (by wp_steps; auto using same_refl).
  2:{ wp_steps. split_and!; auto using same_refl. intros _. exists it. eauto. }
  destruct (validConnection _ && _) eqn:Hv; [|by wp_steps; auto using same_refl].
  apply andb_true_iff in Hv as [Hv Hu]. apply bool_decide_eq_true in Hu.
  wp_apply future_ok; [done|]. intros [] s1 (HI1&Hs1&_); [|done].
  wp_apply future_ok; [done|]. intros [] s2 (HI2&Hs2&_).
  2:{ split_and!; [done|by eapply same_trans|done]. }
  wp_steps. split_and!; [done|by eapply same_trans|]. intros _.
  destruct (pb.RouteIdentity a) as [c|] eqn:Hc; [|done].
  exists it. split_and!; [done..|]. left. exists a, c. naive_solver.
Qed.

Lemma lookups_ok_ok l X s :
  Inv X s →
  wp (lookups_ok env l) (λ b s', Inv X s' ∧ same s s' ∧
    (b = true → Forall (λ x, lookup_valid x.1 x.2) l)) s.
Proof.
  revert s. induction l as [|[item id] l IH]; intros s HI; cbn [lookups_ok].
  { wp_steps. auto using same_refl. }
  wp_apply validLookup_ok; [done|]. intros [] s1 (HI1&Hs1&Hv); [|done].
  eapply wp_mono; [by apply IH|]. intros b s2 (?&?&?).
  split_and!; [done|by eapply same_trans|]. intros ->. constructor; auto.
Qed.

Lemma Forall_zip_Forall2 {A B} (P : A → B → Prop) l k :
  length l = length k → Forall (λ x, P x.1 x.2) (zip l k) → Forall2 P l k.
Proof.
  revert k. induction l as [|a l IH]; intros [|b k] Hl; cbn; try done.
  intros [? ?]%Forall_cons. constructor; [done|]. apply IH; [by injection Hl|done].
Qed.

Lemma slen_eqb {A B} (l : list A) (k : list B) : (slen l =? slen k) = true ↔ length l = length k.
Proof. unfold slen. rewrite Z.eqb_eq. lia. Qed.

Lemma validLookups_ok r us X s :
  Inv X s →
  wp (validLookups env r us) (λ b s', Inv X s' ∧ same s s' ∧
    (b = true → ∃ rs, r = Some rs ∧ Forall2 lookup_valid rs us)) s.
Proof.
  intros HI. unfold validLookups. destruct r as [rs|]; [|by wp_steps; auto using same_refl].
  destruct (slen rs =? slen us) eqn:Hl; cbn [negb]; [|by wp_steps; auto using same_refl].
  eapply wp_mono; [by apply lookups_ok_ok|]. intros b s' (?&?&Hf). split_and!; [done|done|].
  intros Hb. exists rs. split; [done|]. apply Forall_zip_Forall2; [by apply slen_eqb|auto].
Qed.

Lemma validResolution_ok item id X s :
  Inv X s →
  wp (validResolution env item id)
     (λ b s', Inv X s' ∧ same s s' ∧ (b = true → resolution_valid item id)) s.
Proof.
  intros HI. unfold validResolution. destruct item as [it|]; [|by wp_steps; auto using same_refl].
  destruct (bool_decide _) eqn:Hid; cbn [negb]; [|by wp_steps; auto using same_refl].
  apply bool_decide_eq_true in Hid.
  destruct (pb.CState it) as [[a|]|r|] eqn:Hst; try (by wp_steps; auto using same_refl).
  2:{ wp_steps. split_and!; auto using same_refl. intros _. exists it. eauto. }
  destruct (pb.LeaseIdentity a) as [comet|] eqn:Hc; [|by wp_steps; auto using same_refl].
  destruct (bool_decide _ && _) eqn:Hv; [|by wp_steps; auto using same_refl].
  apply andb_true_iff in Hv as [Hv Hu]. apply bool_decide_eq_true in Hv.
  wp_apply future_ok; [done|]. intros [] s1 (HI1&Hs1&_); [|done].
  wp_steps. split_and!; [done|done|]. intros Ha. exists it. split_and!; [done..|].
  left. by exists a, comet.
Qed.

Lemma resolutions_ok_ok l X s :
  Inv X s →
  wp (resolutions_ok env l) (λ b s', Inv X s' ∧ same s s' ∧
    (b = true → Forall (λ x, resolution_valid x.1 x.2) l)) s.
Proof.
  revert s. induction l as [|[item id] l IH]; intros s HI; cbn [resolutions_ok].
  { wp_steps. auto using same_refl. }
  wp_apply validResolution_ok; [done|]. intros [] s1 (HI1&Hs1&Hv); [|done].
  eapply wp_mono; [by apply IH|]. intros b s2 (?&?&?).
  split_and!; [done|by eapply same_trans|]. intros ->. constructor; auto.
Qed.

Lemma validResolutions_ok r us X s :
  Inv X s →
  wp (validResolutions env r us) (λ b s', Inv X s' ∧ same s s' ∧
    (b = true → ∃ rs, r = Some rs ∧ Forall2 resolution_valid rs us)) s.
Proof.
  intros HI. unfold validResolutions. destruct r as [rs|]; [|by wp_steps; auto using same_refl].
  destruct (slen rs =? slen us) eqn:Hl; cbn [negb]; [|by wp_steps; auto using same_refl].
  eapply wp_mono; [by apply resolutions_ok_ok|]. intros b s' (?&?&Hf). split_and!; [done|done|].
  intros Hb. exists rs. split; [done|]. apply Forall_zip_Forall2; [by apply slen_eqb|auto].
Qed.

(** ** Eligibility *)

Lemma Unres_total B s i : Unres B s → i ∈ B → states s !! i = Some (states s !!! i).
Proof. intros HB Hi. destruct (HB i Hi) as (r&Hr&_). by rewrite (list_lookup_total_correct _ _ _ Hr). Qed.
Lemma Unres_outcome B s i : Unres B s → i ∈ B → r_outcome (states s !!! i) = Unresolved.
Proof. intros HB Hi. destruct (HB i Hi) as (r&Hr&?). by rewrite (list_lookup_total_correct _ _ _ Hr). Qed.

Definition eligible_post X id (B l l' : list nat) (s s' : job_state W) : Prop :=
  Inv X s' ∧ Unres B s' ∧ eff l s s' ∧ Ready id l' s' ∧ l' `sublist_of` l.

Lemma eligible_loop_ok now id B l X s :
  Inv X s → Unres B s → Ready id l s → NoDup l → l ⊆ B →
  wp (filter_m (λ i,
        s ← state_of i;
        if negb (routeDeadline s =? zero_ns) && negb (now <? routeDeadline s)
        then repair [i];; mret false else mret true) l)
     (λ l' s', eligible_post X id B l l' s s' ∧ trace s' = trace s) s.
Proof.
  unfold eligible_post. revert s. induction l as [|i l IH]; intros s HI HU HR Hnd HB; cbn [filter_m].
  { wp_steps. by split_and!. }
  apply NoDup_cons in Hnd as [Hi Hnd].
  wp_steps. unfold state_of. wp_steps. destruct (negb _ && _).
  - wp_apply (repairWithReason_ok B [i]); [done|done|set_solver|].
    intros _ s1 (HI1&HU1&He1&Ht1). wp_steps.
    assert (Ready id l s1) by (eapply eff_Ready; [done|set_solver|]; eapply Ready_sub; [done|set_solver]).
    eapply wp_mono; [apply IH; [done|done|done|done|set_solver]|].
    intros l' s2 ((?&?&He2&?&?)&?). wp_steps. split_and!; [done|done| |done|by apply sublist_cons|congruence].
    eapply eff_trans; (eapply eff_weaken; [done|set_solver]).
  - wp_steps.
    eapply wp_mono; [apply IH; [done|done|eapply Ready_sub; [done|set_solver]|done|set_solver]|].
    intros l' s2 ((?&?&He2&Hr2&?)&?). wp_steps.
    split_and!; [done|done|eapply eff_weaken; [done|set_solver]| |by apply sublist_skip|done].
    intros j [->|Hj]%elem_of_cons; [|by apply Hr2].
    eapply (eff_Ready id l [i]); [done|set_solver| |set_solver]. eapply Ready_sub; [done|set_solver].
Qed.

(** The batch kept is checked against two clock readings, the last events of the trace. *)
Lemma eligible_ok id B lease X s :
  Inv X s → Ready id B s → NoDup B →
  wp (eligible env B lease) (λ B' s', eligible_post X id B B B' s s' ∧
     (B' ≠ [] → ∃ t1 t2 d, pb.LeaseDeadline lease = Some d ∧ t1 < as_ns d
                          ∧ trace s' = trace s ++ [EvNow t1; EvNow t2])) s.
Proof.
  intros HI HR Hnd. assert (Unres B s) by by eapply Ready_Unres.
  unfold eligible. wp_apply future_ok; [done|]. intros ok s1 (HI1&Hs1&Hok).
  assert (Unres B s1) by by eapply same_Unres.
  destruct ok; cbn [negb].
  - wp_apply time_now_ok; [done|]. intros now s2 (HI2&Hs2&Ht2).
    eapply wp_mono; [apply (eligible_loop_ok now id B B); [done|by eapply same_Unres| |done|done]|].
    { eapply same_Ready; [done|]. by eapply same_Ready. }
    intros l' s3 ((?&?&He&?&?)&Ht3). split.
    + split_and!; try done. eapply eff_trans; [|done]. apply same_eff. by eapply same_trans.
    + intros _. destruct (Hok eq_refl) as (d&t1&->&?&Ht1). exists t1, now, d.
      split_and!; [done|done|]. by rewrite Ht3, Ht2, Ht1, <-app_assoc.
  - wp_apply (repairWithReason_ok B); [done|done|done|]. intros _ s2 (?&?&He&?). wp_steps.
    split; [|done]. split_and!; [done|done| |by intros ? ?%not_elem_of_nil|by apply sublist_nil_l].
    eapply eff_trans; [by apply same_eff|done].
Qed.

(** ** Looking up routes *)

Lemma Inv_user X s i r : Inv X s → states s !! i = Some r → ids !! i = Some (r_user r).
Proof. intros HI Hi. rewrite <-(inv_users _ _ HI), list_lookup_fmap, Hi. done. Qed.
Lemma Inv_user_inj X s i j r r' :
  Inv X s → states s !! i = Some r → states s !! j = Some r' → r_user r = r_user r' → i = j.
Proof.
  intros HI Hi Hj Hu. eapply NoDup_lookup; [exact ids_nodup|by eapply Inv_user|].
  rewrite Hu. by eapply Inv_user.
Qed.

(** An unresolved recipient has not been confirmed. *)
Lemma Unres_not_confirmed s i r e :
  Inv (λ _, False) s → states s !! i = Some r → r_outcome r = Unresolved →
  e ∈ trace s → ¬ confirmed (r_user r) e.
Proof.
  intros HI Hi Hr Hin Hc. destruct (inv_confirmed _ _ HI _ _ Hin Hc) as [[]|(j&r'&Hj&Hu&?)].
  assert (i = j) as <- by by eapply Inv_user_inj. by simplify_eq.
Qed.

Definition users_of (s : job_state W) (B : list nat) : list string := (λ i, r_user (states s !!! i)) <$> B.
Lemma users_of_ok X s B :
  Inv X s → Unres B s → NoDup B → NoDup (users_of s B) ∧ users_of s B ⊆ ids.
Proof.
  intros HI HB Hnd. split.
  - apply NoDup_fmap_2_strong; [|done]. intros i j Hi Hj Hu.
    eapply Inv_user_inj; [done|by eapply Unres_total|by eapply Unres_total|done].
  - intros u (i&->&Hi)%list_elem_of_fmap. eapply list_elem_of_lookup_2, (Inv_user X s i); [done|].
    by eapply Unres_total.
Qed.

(** What is known of a recipient whose answer has still to be applied. *)
Definition lookup_fact (s : job_state W) (x : nat * option pb.RouteLookupResult) : Prop :=
  ∃ r e, states s !! x.1 = Some r ∧ r_outcome r = Unresolved ∧ lookup_valid x.2 (r_user r)
    ∧ e ∈ trace s ∧ ∀ it k, x.2 = Some it → pb.State it = pb.StateOffline k → told_offline (r_user r) e.

Lemma lookup_fact_eff B s s' x : eff B s s' → x.1 ∉ B → lookup_fact s x → lookup_fact s' x.
Proof.
  intros [He [k Ht]] Hx (r&e&?&?&?&?&?). exists r, e. rewrite He, Ht by done. set_solver.
Qed.

Lemma apply_lookup_ok x X s :
  Inv X s → lookup_fact s x → wp (apply_lookup x) (λ _ s', Inv X s' ∧ eff [x.1] s s') s.
Proof.
  destruct x as [i item]. intros HI (r&e&Hi&Hr&(it&Hitem&Hit&Hcase)&Hin&Hoff). cbn in *. subst item.
  unfold apply_lookup, update. cbn [mbind option_bind]. unfold pb.GetRoute.
  destruct Hcase as [(a&c&Hst&Hid&Hv&Hu)|(k&Hst)]; rewrite Hst; wp_steps.
  - eapply Inv_update; try done; [|by left]. cbn. split; cbn; [|by unfold justified; cbn; rewrite Hr].
    rewrite Hid. intros ? [= <-]. split; [exact Hu|exact Hv].
  - eapply Inv_update; try done; [|by left]. split; cbn; [by apply (inv_states _ _ HI i)|].
    unfold justified; cbn. split; [done|]. eauto.
Qed.

Lemma Forall_zip_intro {A B} (P : A * B → Prop) l k :
  (∀ j a b, l !! j = Some a → k !! j = Some b → P (a, b)) → Forall P (zip l k).
Proof.
  intros HP. apply Forall_lookup. intros j [a b] Hj.
  apply lookup_zip_with_Some in Hj as (a'&b'&[= <- <-]&?&?). eauto.
Qed.

Lemma zip_fst_sub {A B} (l : list A) (k : list B) : (zip l k).*1 `sublist_of` l.
Proof.
  revert k. induction l as [|a l IH]; intros [|b k]; cbn; [constructor..|apply sublist_nil_l|].
  by apply sublist_skip.
Qed.

Definition nobody : string → Prop := λ _, False.

Lemma Inv_mono (X X' : string → Prop) s : Inv X s → (∀ u, X u → X' u) → Inv X' s.
Proof. intros [? ? Hc ?] HX. constructor; try done. intros u e Hin Hu. destruct (Hc u e Hin Hu); auto. Qed.

Lemma lookup_facts s B us rs e ctx :
  Unres B s → us = users_of s B → Forall2 lookup_valid rs us → e = EvLookup ctx us (Ok (Some rs)) →
  e ∈ trace s → Forall (lookup_fact s) (zip B rs).
Proof.
  intros HU -> Hv He Hin. apply Forall_zip_intro. intros j i item Hi Hitem.
  assert (i ∈ B) as HiB by by eapply list_elem_of_lookup_2.
  destruct (HU i HiB) as (r&Hr&Ho).
  assert (users_of s B !! j = Some (r_user r)) as Hj.
  { unfold users_of. rewrite list_lookup_fmap, Hi. cbn. by rewrite (list_lookup_total_correct _ _ _ Hr). }
  destruct (Forall2_lookup_l _ _ _ _ _ Hv Hitem) as (u&Hu&Hval).
  assert (u = r_user r) as -> by congruence.
  exists r, e. split_and!; try done. intros it k Hitk Hst. destruct Hval as (it'&Hit'&?&_).
  cbn in Hitk. simplify_eq. exists ctx, (users_of s B), rs, j, it, k. split_and!; congruence.
Qed.

Lemma lookup_ok ctx request B s :
  Inv nobody s → ctx_deadline ctx = Some dl → Unres B s → NoDup B → B ≠ [] →
  wp (lookup env p ctx request B) (λ _ s', Inv nobody s' ∧ eff B s s') s.
Proof.
  intros HI Hctx HU Hnd HBne. unfold lookup. wp_steps.
  destruct (users_of_ok _ _ _ HI HU Hnd) as [Hund Husub].
  fold (users_of s B). set (us := users_of s B) in *.
  wp_apply rpcContext_ok; [done|done|]. intros c s1 (HI1&Hs1&Hc).
  wp_apply call_ok; [done| |].
  { intros a. split; [done|]. cbn. split_and!; [done|by destruct B|done|done|].
    intros u e (i&->&Hi)%list_elem_of_fmap He. eapply (Unres_not_confirmed s1 i); [done| |by apply Unres_outcome with B|done].
    destruct Hs1 as [-> _]. by apply Unres_total with B. }
  intros reply s2 (HI2&Hs2&Ht2). assert (same s s2) as Hs by by eapply same_trans.
  assert (Unres B s2) as HU2 by by eapply same_Unres.
  destruct reply as [r|e].
  2:{ eapply wp_mono; [by apply (rpcFailure_ok B B)|]. intros _ s' (?&_&?&_). split; [done|].
      eapply eff_trans; [by apply same_eff|done]. }
  wp_apply validLookups_ok; [done|]. intros ok s3 (HI3&Hs3&Hok).
  assert (same s s3) as Hss by by eapply same_trans.
  destruct ok; cbn [negb].
  2:{ eapply wp_mono; [apply (mark_ok B B); [done|by eapply same_Unres|done]|].
      intros _ s' (?&_&?&_). split; [done|]. eapply eff_trans; [by apply same_eff|done]. }
  destruct (Hok eq_refl) as (rs&->&Hv). cbn [default].
  set (I := λ l s', l.*1 ⊆ B ∧ NoDup l.*1 ∧ Inv nobody s' ∧ eff B s s' ∧ Forall (lookup_fact s') l).
  eapply wp_mono; [eapply (wp_for_each I)|unfold I; naive_solver].
  - intros x l s' (Hsub&Hnd'&HI'&He'&Hf). apply NoDup_cons in Hnd' as [Hx ?].
    apply Forall_cons in Hf as [Hfx Hf].
    eapply wp_mono; [by apply apply_lookup_ok|]. intros _ s'' (?&He''). unfold I.
    split_and!; [set_solver|done|done| |].
    + eapply eff_trans; [done|]. eapply eff_weaken; [done|set_solver].
    + rewrite Forall_forall in Hf |- *. intros y Hy. eapply lookup_fact_eff; [done| |by apply Hf].
      intros Heq%list_elem_of_singleton. apply Hx. rewrite <-Heq. by apply list_elem_of_fmap_2.
  - unfold I. pose proof (zip_fst_sub B rs) as Hz. split_and!.
    + intros i Hi. by eapply sublist_subseteq.
    + by eapply sublist_NoDup.
    + done.
    + by apply same_eff.
    + eapply (lookup_facts s3 B us rs _ c); [by eapply same_Unres| |done|done|].
      * unfold us, users_of. by destruct Hss as [-> _].
      * destruct Hs3 as (_&_&[k ->]). rewrite Ht2. set_solver.
Qed.

(** ** Delivering to one Comet *)

(** Users whose confirmation is still to be applied, by position in [ids]. *)
Definition pending (l : list (nat * option pb.DeliveryResult)) (u : string) : Prop :=
  ∃ i it, (i, Some it) ∈ l ∧ ids !! i = Some u
          ∧ (pb.Outcome it = pb.OUTCOME_ENQUEUED ∨ pb.Outcome it = pb.OUTCOME_DUPLICATE).
Definition delivery_fact (s : job_state W) (x : nat * option pb.DeliveryResult) : Prop :=
  ∃ r e, states s !! x.1 = Some r ∧ r_outcome r = Unresolved ∧ e ∈ trace s
    ∧ ∀ it, x.2 = Some it → pb.Outcome it = pb.OUTCOME_ENQUEUED ∨ pb.Outcome it = pb.OUTCOME_DUPLICATE →
            confirmed_as (pb.Outcome it) (r_user r) e.

Lemma delivery_fact_eff B s s' x : eff B s s' → x.1 ∉ B → delivery_fact s x → delivery_fact s' x.
Proof. intros [He [k Ht]] Hx (r&e&?&?&?&?). exists r, e. rewrite He, Ht by done. set_solver. Qed.

Lemma apply_delivery_ok x l s :
  Inv (pending (x :: l)) s → delivery_fact s x →
  wp (apply_delivery x) (λ _ s', Inv (pending l) s' ∧ eff [x.1] s s') s.
Proof.
  destruct x as [i item]. intros HI (r&e&Hi&Hr&Hin&Hc). cbn in Hi, Hc. unfold apply_delivery. cbn [fst].
  assert (∀ u, pending ((i, item) :: l) u → pending l u ∨ (u = r_user r ∧
    ∃ it, item = Some it ∧ (pb.Outcome it = pb.OUTCOME_ENQUEUED ∨ pb.Outcome it = pb.OUTCOME_DUPLICATE))) as Hp.
  { intros u (j&it&[[= -> <-]|?]%elem_of_cons&Hj&Ho); [right|left; by exists j, it].
    rewrite (Inv_user _ _ _ _ HI Hi) in Hj. naive_solver. }
  destruct item as [it|].
  2:{ wp_steps. split; [|apply eff_refl]. eapply Inv_mono; [done|]. naive_solver. }
  assert (∀ f o, pb.Outcome it = pb.OUTCOME_ENQUEUED ∨ pb.Outcome it = pb.OUTCOME_DUPLICATE → f = set_outcome o →
          (o = Enqueued ∧ pb.Outcome it = pb.OUTCOME_ENQUEUED ∨ o = Duplicate ∧ pb.Outcome it = pb.OUTCOME_DUPLICATE) →
          wp (update f i) (λ _ s', Inv (pending l) s' ∧ eff [i] s s') s) as Hset.
  { intros f o Ho -> Hoo. unfold update. wp_steps. eapply Inv_update; try done.
    - split; cbn; [by apply (inv_states _ _ HI i)|]. unfold justified; cbn.
      specialize (Hc it eq_refl Ho). destruct Hoo as [[-> Heq]|[-> Heq]]; rewrite Heq in Hc; eauto.
    - intros u Hu. destruct (Hp u Hu) as [?|[-> _]]; [by left|right]. split; [done|].
      cbn. by destruct Hoo as [[-> _]|[-> _]]. }
  destruct (Z.eqb_spec (pb.Outcome it) pb.OUTCOME_ENQUEUED); [by apply (Hset _ Enqueued); auto|].
  destruct (Z.eqb_spec (pb.Outcome it) pb.OUTCOME_DUPLICATE); [by apply (Hset _ Duplicate); auto|].
  eapply wp_mono; [apply (repairWithReason_ok [i] [i]); [done| |done]|].
  { intros j ->%list_elem_of_singleton. eauto. }
  intros _ s' (HI'&_&?&_). split; [|done]. eapply Inv_mono; [done|]. intros u Hu. naive_solver.
Qed.

(** The targets of a batch are the routes of its recipients. *)
Lemma batch_targets id B X s :
  Inv X s → Ready id B s →
  ∃ cs, (λ i, route (states s !!! i)) <$> B = Some <$> cs ∧ pb.UserId <$> cs = users_of s B
    ∧ Forall (λ c, validConnection (Some c) = true ∧ pb.InstanceId c = id) cs.
Proof.
  intros HI. induction B as [|i B IH]; intros HR; [by exists []|].
  destruct IH as (cs&Hr&Hu&Hf); [eapply Ready_sub; [done|set_solver]|].
  destruct (HR i) as (r&c&Hi&_&Hroute&Hid); [set_solver|].
  destruct (inv_states _ _ HI i r Hi) as [Hok _]. destruct (Hok c Hroute) as [Huser Hv].
  exists (c :: cs). unfold users_of in *. cbn. rewrite Hr, Hu, (list_lookup_total_correct _ _ _ Hi), Hroute, Huser.
  split_and!; [done|done|by constructor].
Qed.

Lemma validDelivery_length resp t m targets :
  validDelivery (Some resp) t m targets = true → length (pb.Results resp) = length targets.
Proof. unfold validDelivery. rewrite !andb_true_iff. intros [[_ Hl] _]. by apply slen_eqb. Qed.

(** Sending the request and applying the answer. *)
Definition send_batch (client : Cl) (ctx : context) (lease : pb.CometLease) (B : list nat)
    (targets : list (option pb.ConnectionIdentity)) : ST (job_state W) unit :=
  response ← Deliver env client ctx
    (pb.MkDeliverRequest (pb.LeaseIdentity lease) (im.TaskID task) (Some message) targets (im.RequestID task));
  match response with
  | Err e => rpcFailure B e true
  | Ok r =>
    if negb (validDelivery r (im.TaskID task) (pb.MessageId message) targets)
    then repairWithReason B InvalidResponse
    else for_each apply_delivery (zip B (match r with Some r => pb.Results r | None => [] end))
  end.

Lemma Ready_lookup id B X s targets j c :
  Inv X s → Ready id B s → targets = (λ i, route (states s !!! i)) <$> B → targets !! j = Some (Some c) →
  ∃ i r, B !! j = Some i ∧ i ∈ B ∧ states s !! i = Some r ∧ r_user r = pb.UserId c.
Proof.
  intros HI HR -> Hj. rewrite list_lookup_fmap in Hj. destruct (B !! j) as [i|] eqn:Hi; [|done].
  assert (i ∈ B) as HiB by by eapply list_elem_of_lookup_2.
  destruct (HR i HiB) as (r&c'&Hr&_&Hroute&_). cbn in Hj.
  rewrite (list_lookup_total_correct _ _ _ Hr) in Hj. injection Hj as Hj.
  destruct (inv_states _ _ HI i r Hr) as [Hok _]. destruct (Hok _ Hj) as [? _]. by exists i, r.
Qed.

(** Applying a valid answer settles every confirmation in it. *)
Lemma apply_deliveries_ok id B ctx req resp s s1 :
  Inv nobody s → Ready id B s → NoDup B → same s s1 →
  pb.ReqTargets req = (λ i, route (states s !!! i)) <$> B →
  validDelivery (Some resp) (pb.ReqTaskId req) (request_message_id req) (pb.ReqTargets req) = true →
  EvDeliver ctx req (Ok (Some resp)) ∈ trace s1 →
  Inv (λ u, confirmed u (EvDeliver ctx req (Ok (Some resp)))) s1 →
  wp (for_each apply_delivery (zip B (pb.Results resp))) (λ _ s', Inv nobody s' ∧ eff B s s') s1.
Proof.
  intros HI HR Hnd Hs Htg Hv Hin HI1.
  set (I := λ l s', l.*1 ⊆ B ∧ NoDup l.*1 ∧ Inv (pending l) s' ∧ eff B s s' ∧ Forall (delivery_fact s') l).
  eapply wp_mono; [eapply (wp_for_each I)|].
  - intros x l s' (Hsub&Hnd'&HI'&He'&Hf). apply NoDup_cons in Hnd' as [Hx ?].
    apply Forall_cons in Hf as [Hfx Hf].
    eapply wp_mono; [by apply apply_delivery_ok|]. intros _ s'' (?&He''). unfold I.
    split_and!; [set_solver|done|done| |].
    + eapply eff_trans; [done|]. eapply eff_weaken; [done|set_solver].
    + rewrite Forall_forall in Hf |- *. intros y Hy. eapply delivery_fact_eff; [done| |by apply Hf].
      intros Heq%list_elem_of_singleton. apply Hx. rewrite <-Heq. by apply list_elem_of_fmap_2.
  - unfold I. pose proof (zip_fst_sub B (pb.Results resp)) as Hz. split_and!.
    + intros i Hi. by eapply sublist_subseteq.
    + by eapply sublist_NoDup.
    + eapply Inv_mono; [done|]. intros u [Hu|Hu]; destruct Hu as (?&?&?&j&c&it&Heq&_&Hj&<-&Hit&Ho);
        injection Heq as <- <- <-;
        (destruct (Ready_lookup id B nobody s _ j c HI HR Htg Hj) as (i&r&HiB&_&Hr&Huser);
         exists i, it; split_and!; [|rewrite <-Huser; by apply (Inv_user nobody s)|by auto];
         eapply list_elem_of_lookup_2; by rewrite lookup_zip_with, HiB, Hit).
    + by apply same_eff.
    + apply Forall_zip_intro. intros j i item Hi Hit.
      assert (i ∈ B) as HiB by by eapply list_elem_of_lookup_2.
      destruct (HR i HiB) as (r&c&Hr&Ho&Hroute&_). destruct (inv_states _ _ HI i r Hr) as [Hok _].
      exists r, (EvDeliver ctx req (Ok (Some resp))). destruct Hs as [-> _]. split_and!; try done.
      intros it Heq _. cbn in Heq. subst item. destruct (Hok c Hroute) as [<- _]. exists ctx, req, resp, j, c, it.
      split_and!; try done. by rewrite Htg, list_lookup_fmap, Hi; cbn; rewrite (list_lookup_total_correct _ _ _ Hr), Hroute.
  - intros _ s' (_&_&?&?&_). split; [|done]. eapply Inv_mono; [done|]. by intros u (?&?&?%not_elem_of_nil&_).
Qed.

Lemma send_batch_ok client ctx lease id B targets s :
  Inv nobody s → Ready id B s → NoDup B → targets = (λ i, route (states s !!! i)) <$> B →
  (∀ reply, event_ok (trace s) (EvDeliver ctx
     (pb.MkDeliverRequest (pb.LeaseIdentity lease) (im.TaskID task) (Some message) targets (im.RequestID task)) reply)) →
  wp (send_batch client ctx lease B targets) (λ _ s', Inv nobody s' ∧ eff B s s') s.
Proof.
  intros HI HR Hnd Htg Hev. unfold send_batch. apply wp_bind. unfold wp at 1, Deliver, call.
  set (req := pb.MkDeliverRequest _ _ _ _ _) in *.
  destruct (env_deliver env client ctx req (world s)) as [reply w]. cbn [fst snd].
  set (s1 := JobState w (trace s ++ [EvDeliver ctx req reply]) (states s) (repaired s)).
  assert (same s s1) as Hs by (split_and!; [done|done|by apply prefix_app_r]).
  assert (Unres B s1) as HU1 by (eapply same_Unres; [done|by eapply Ready_Unres]).
  assert (∀ X, (∀ u, confirmed u (EvDeliver ctx req reply) → X u) → Inv X s1) as HI1.
  { intros X HX. eapply Inv_event; [exact HI|apply Hev|by intros u []|done]. }
  assert ((∀ u, ¬ confirmed u (EvDeliver ctx req reply)) → ∀ m : ST (job_state W) unit,
    (∀ X, Inv X s1 → Unres B s1 → wp m (λ _, batch_post X B B s1) s1) →
    wp m (λ _ s', Inv nobody s' ∧ eff B s s') s1) as Hquiet.
  { intros Hno m Hm. eapply wp_mono; [apply (Hm nobody); [apply HI1; intros u Hu; by destruct (Hno u)|done]|].
    intros _ s' (?&_&?&_). split; [done|]. eapply eff_trans; [by apply same_eff|done]. }
  destruct reply as [r|e].
  2:{ apply Hquiet; [|intros; by apply rpcFailure_ok].
      intros u [(?&?&?&?&?&?&?&_)|(?&?&?&?&?&?&?&_)]; done. }
  destruct (validDelivery r _ _ _) eqn:Hv; cbn [negb].
  2:{ apply Hquiet; [|intros; by apply repairWithReason_ok].
      intros u [(?&?&?&?&?&?&Heq&Hv'&_)|(?&?&?&?&?&?&Heq&Hv'&_)]; injection Heq as <- <- ->;
        discriminate (eq_trans (eq_sym Hv) Hv'). }
  destruct r as [resp|]; [|done].
  eapply (apply_deliveries_ok id B ctx req resp s s1); try done; [cbn; set_solver|by apply HI1].
Qed.

Lemma eff_same B s1 s2 s3 : eff B s1 s2 → same s2 s3 → eff B s1 s3.
Proof. intros ??. eapply eff_trans; [done|]. by apply same_eff. Qed.

(** The request that the checks before it allow. *)
Lemma deliver_event_ok lease comet ctx B (s3 s4 s5 : job_state W) :
  Inv nobody s5 → Ready (pb.CometInstanceId comet) B s5 → NoDup B → B ≠ [] →
  resolved (trace s3) lease → pb.LeaseIdentity lease = Some comet →
  rpc_context_ok (trace s3) ctx → EvDial ctx (pb.RpcAddress lease) true ∈ trace s3 →
  (∃ t1 t2 d, pb.LeaseDeadline lease = Some d ∧ t1 < as_ns d ∧ trace s4 = trace s3 ++ [EvNow t1; EvNow t2]) →
  trace s5 = trace s4 ++ [EvCtxErr ctx None] →
  ∀ reply, event_ok (trace s5) (EvDeliver ctx (pb.MkDeliverRequest (pb.LeaseIdentity lease) (im.TaskID task)
     (Some message) ((λ i, route (states s5 !!! i)) <$> B) (im.RequestID task)) reply).
Proof.
  intros HI HR Hnd Hne Hres Hid Hctx Hdial (t1&t2&d&Hd&Hlt&Ht4) Ht5 reply.
  assert (trace s5 = trace s3 ++ [EvNow t1; EvNow t2; EvCtxErr ctx None]) as Ht by by rewrite Ht5, Ht4, <-app_assoc.
  assert (trace s3 `prefix_of` trace s5) as Hpre by (rewrite Ht; by apply prefix_app_r).
  destruct (batch_targets _ _ _ _ HI HR) as (cs&Hcs&Husers&Hall).
  destruct (users_of_ok _ _ _ HI (Ready_Unres _ _ _ HR) Hnd) as [Hund Hsub].
  split; [by eapply rpc_context_ok_prefix|]. do 3 (split; [done|]).
  exists lease, comet, d, cs, (trace s3), t1, t2. split_and!; try done.
  - by eapply resolved_prefix.
  - destruct Hpre as [k ->]. set_solver.
  - intros ->. by destruct B.
  - by rewrite Husers.
  - rewrite Forall_forall in Hall |- *. intros c Hc. destruct (Hall c Hc) as [Hv Hinst].
    assert (pb.UserId c ∈ users_of s5 B) as Hu by (rewrite <-Husers; by apply list_elem_of_fmap_2).
    split_and!; [by apply Hsub|done|done|]. intros e He.
    apply list_elem_of_fmap in Hu as (i&->&Hi). pose proof (Ready_Unres _ _ _ HR) as HU.
    eapply (Unres_not_confirmed s5 i); [done|by apply Unres_total with B|by apply Unres_outcome with B|done].
Qed.

Lemma deliver_batch_ok ctx lease comet B s :
  Inv nobody s → Ready (pb.CometInstanceId comet) B s → NoDup B → ctx_deadline ctx = Some dl →
  resolved (trace s) lease → pb.LeaseIdentity lease = Some comet →
  wp (deliver_batch env p ctx task (Some message) lease B) (λ _ s', Inv nobody s' ∧ eff B s s') s.
Proof.
  intros HI HR Hnd Hctx Hres Hid. unfold deliver_batch.
  wp_apply eligible_ok; [done..|]. intros B1 s1 ((HI1&_&He1&HR1&Hsub1)&_).
  assert (NoDup B1) by by eapply sublist_NoDup.
  case_bool_decide as Hne1; [by wp_steps|].
  wp_apply rpcContext_ok; [done|done|]. intros c s2 (HI2&Hs2&Hc).
  assert (trace s `prefix_of` trace s2) as Hp2 by (etrans; [apply He1|apply Hs2]).
  wp_apply call_ok; [done| |].
  { intros a. split; [done|]. split; [done|]. exists lease. split; [by eapply resolved_prefix|done]. }
  intros client s3 (HI3&Hs3&Ht3).
  assert (eff B s s3) as He3 by (eapply eff_same; [by eapply eff_same|done]).
  assert (Ready (pb.CometInstanceId comet) B1 s3) as HR3 by (eapply same_Ready; [done|by eapply same_Ready]).
  assert (∀ s', eff B1 s3 s' → eff B s s') as Hout.
  { intros s' ?. eapply eff_trans; [done|]. eapply eff_weaken; [done|by eapply sublist_subseteq]. }
  destruct client as [client|].
  2:{ eapply wp_mono; [apply (mark_ok B1 B1); [done|by eapply Ready_Unres|done]|].
      intros _ s' (?&_&?&_). auto. }
  wp_apply eligible_ok; [done..|]. intros B2 s4 ((HI4&_&He4&HR4&Hsub2)&Hchk).
  assert (NoDup B2) by by eapply sublist_NoDup.
  case_bool_decide as Hne2; [wp_steps; split; [done|by apply Hout]|].
  wp_apply ctx_err_ok; [done|]. intros e s5 (HI5&Hs5&Ht5).
  assert (eff B1 s3 s5) as He5 by by eapply eff_same.
  case_bool_decide as Hcancel; [wp_steps; split; [done|by apply Hout]|].
  destruct e; [congruence|]. apply wp_bind, wp_gets.
  eapply wp_mono; [eapply (send_batch_ok client c lease (pb.CometInstanceId comet) B2)|].
  - done.
  - by eapply same_Ready.
  - done.
  - done.
  - eapply (deliver_event_ok lease comet c B2 s3 s4 s5); try done.
    + by eapply same_Ready.
    + eapply resolved_prefix; [done|]. etrans; [exact Hp2|apply Hs3].
    + eapply rpc_context_ok_prefix; [done|apply Hs3].
    + rewrite Ht3. set_solver.
    + by apply Hchk.
  - intros _ s' (?&?). split; [done|]. apply Hout. eapply eff_trans; [done|].
    eapply eff_weaken; [done|by eapply sublist_subseteq].
Qed.

Definition members (l : list ((string * list nat) * option pb.CometResolution)) : list nat :=
  mjoin ((λ x, x.1.2) <$> l).

Lemma deliver_all_ok ctx l c us rs s :
  Inv nobody s → ctx_deadline ctx = Some dl → NoDup (members l) →
  Forall (λ x, Ready x.1.1 x.1.2 s ∧ resolution_valid x.2 x.1.1 ∧ x.2 ∈ rs) l →
  EvResolve c us (Ok (Some rs)) ∈ trace s →
  wp (deliver_all env p ctx task (Some message) l) (λ _ s', Inv nobody s' ∧ eff (members l) s s') s.
Proof.
  revert s. induction l as [|[[id B] item] l IH]; intros s HI Hctx Hnd Hall Hin; cbn [deliver_all].
  { wp_steps. split; [done|apply eff_refl]. }
  apply Forall_cons in Hall as [(HR&Hval&Hrs) Hall]. cbn in HR, Hval, Hrs.
  unfold members in Hnd. cbn in Hnd. apply NoDup_app in Hnd as (HndB&Hdisj&Hnd). fold (members l) in *.
  wp_apply ctx_err_ok; [done|]. intros e s1 (HI1&Hs1&_).
  case_bool_decide; [wp_steps; split; [done|by apply same_eff]|].
  assert (Ready id B s1) as HR1 by by eapply same_Ready.
  assert (EvResolve c us (Ok (Some rs)) ∈ trace s1) as Hin1 by (destruct Hs1 as (_&_&[k ->]); set_solver).
  apply wp_bind. eapply (wp_mono _ (λ _ s2, Inv nobody s2 ∧ eff B s1 s2)).
  - destruct Hval as (it&->&Hit&[(a&comet&Hst&Hid&Hcid&?&?)|(r&Hst)]); cbn; unfold pb.GetLease; rewrite Hst.
    + subst id. rewrite <-Hcid in HR1. eapply deliver_batch_ok; try done.
      by exists c, us, rs, it, comet.
    + eapply wp_mono; [apply (repairWithReason_ok B B); [done|by eapply Ready_Unres|done]|].
      intros _ s2 (?&_&?&_). done.
  - intros _ s2 (HI2&He2). assert (members (((id, B), item) :: l) = B ++ members l) as -> by done.
    eapply wp_mono; [apply IH; try done|].
    + eapply Forall_impl; [eapply Forall_and; split; [exact Hall|apply Forall_forall; intros x Hx; exact Hx]|].
      intros x ((HRx&?&?)&Hx). split_and!; try done.
      eapply eff_Ready; [exact He2| |by eapply same_Ready].
      intros i Hi HiB. apply (Hdisj i HiB). apply list_elem_of_join. exists x.1.2.
      split; [done|]. apply list_elem_of_fmap. by exists x.
    + destruct He2 as [_ [k ->]]. set_solver.
    + intros _ s3 (?&?). split; [done|]. eapply eff_trans; [by apply same_eff|].
      eapply eff_trans; (eapply eff_weaken; [done|set_solver]).
Qed.

(** ** Stopping recipients *)

(** A settled recipient keeps what is reported of it. *)
Definition evolves (s s' : job_state W) : Prop :=
  trace s `prefix_of` trace s' ∧
  ∀ i r, states s !! i = Some r → r_outcome r ≠ Unresolved →
         ∃ r', states s' !! i = Some r' ∧ recipient_result r' = recipient_result r.
(** Some recipients were stopped, nothing else happened. *)
Definition stops (s s' : job_state W) : Prop :=
  trace s' = trace s ∧
  ∀ i r, states s !! i = Some r → ∃ r', states s' !! i = Some r' ∧ (r' = r ∨ r' = set_stopped r).

Lemma evolves_refl s : evolves s s.
Proof. split; [done|eauto]. Qed.
Lemma evolves_trans s1 s2 s3 : evolves s1 s2 → evolves s2 s3 → evolves s1 s3.
Proof.
  intros [? H1] [? H2]. split; [by etrans|]. intros i r Hi Hr.
  destruct (H1 i r Hi Hr) as (r'&Hi'&Heq). destruct (H2 i r' Hi') as (r''&?&?).
  { unfold recipient_result in Heq. injection Heq as ? Ho ?. by rewrite Ho. }
  exists r''. split; [done|congruence].
Qed.
Lemma eff_evolves B s s' : eff B s s' → Unres B s → evolves s s'.
Proof.
  intros [He ?] HB. split; [done|]. intros i r Hi Hr. exists r. split; [|done].
  rewrite He; [done|]. intros HiB. destruct (HB i HiB) as (r'&?&?). by simplify_eq.
Qed.
Lemma same_evolves s s' : same s s' → evolves s s'.
Proof. intros Hs. apply (eff_evolves []); [by apply same_eff|]. by intros i ?%not_elem_of_nil. Qed.
Lemma stops_refl s : stops s s.
Proof. split; eauto. Qed.
Lemma stops_trans s1 s2 s3 : stops s1 s2 → stops s2 s3 → stops s1 s3.
Proof.
  intros [? H1] [? H2]. split; [congruence|]. intros i r Hi.
  destruct (H1 i r Hi) as (r'&Hi'&Hr'). destruct (H2 i r' Hi') as (r''&Hi''&Hr'').
  exists r''. split; [done|]. destruct Hr' as [->| ->], Hr'' as [->| ->]; auto.
Qed.
Lemma stops_evolves s s' : stops s s' → evolves s s'.
Proof.
  intros [Ht Hs]. split; [by rewrite Ht|]. intros i r Hi _.
  destruct (Hs i r Hi) as (r'&?&[->| ->]); eauto.
Qed.
Lemma stops_Unres B s s' : stops s s' → Unres B s → Unres B s'.
Proof.
  intros [_ Hs] HB i Hi. destruct (HB i Hi) as (r&Hr&Ho).
  destruct (Hs i r Hr) as (r'&?&[->| ->]); eauto.
Qed.

Lemma stop_ok i X s :
  Inv X s → (i < length ids)%nat → wp (update set_stopped i) (λ _ s', Inv X s' ∧ stops s s') s.
Proof.
  intros HI Hi. unfold update. wp_steps.
  rewrite <-(inv_users _ _ HI), length_fmap in Hi. apply lookup_lt_is_Some_2 in Hi as [r Hr].
  destruct (Inv_update_gen X X set_stopped i r s) as [? _]; auto.
  { exact (inv_states _ _ HI i r Hr). }
  split; [done|]. split; [done|]. intros j r' Hj. cbn. destruct (decide (i = j)) as [<-|?].
  - rewrite list_lookup_alter_eq, Hj. cbn. eauto.
  - rewrite list_lookup_alter_ne by done. eauto.
Qed.

Lemma state_lookup X i s : Inv X s → (i < length ids)%nat → states s !! i = Some (states s !!! i).
Proof.
  intros HI Hi. rewrite <-(inv_users _ _ HI), length_fmap in Hi.
  by apply list_lookup_lookup_total_lt.
Qed.

Lemma collect_lookup_ok l X s :
  Inv X s → (∀ i, i ∈ l → (i < length ids)%nat) →
  wp (collect_lookup l) (λ '(B, _) s', Inv X s' ∧ stops s s' ∧ Unres B s' ∧ B `sublist_of` l) s.
Proof.
  revert s. induction l as [|i l IH]; intros s HI Hl; cbn [collect_lookup].
  { wp_steps. split_and!; [done|apply stops_refl|by intros ? ?%not_elem_of_nil|done]. }
  assert (i < length ids)%nat as Hi by (apply Hl; set_solver).
  assert (∀ j, j ∈ l → (j < length ids)%nat) as Hl' by set_solver.
  pose proof (state_lookup _ i s HI Hi) as Hr.
  unfold state_of. wp_steps. destruct (unresolved _ && _ && _) eqn:Hun.
  2:{ eapply wp_mono; [by apply IH|]. intros [B b] s' (?&?&?&?). split_and!; try done. by apply sublist_cons. }
  rewrite !andb_true_iff in Hun. destruct Hun as [[Hun _] _]. apply bool_decide_eq_true in Hun.
  destruct (needs_repair _ && _).
  - wp_apply stop_ok; [done|done|]. intros _ s1 (HI1&Hs1).
    eapply wp_mono; [by apply IH|]. intros [B b] s' (?&?&?&?).
    split_and!; [done|by eapply stops_trans|done|by apply sublist_cons].
  - wp_apply IH; [done|done|]. intros [B b] s' (?&Hs'&?&?). wp_steps.
    split_and!; [done|done| |by apply sublist_skip].
    intros j [->|Hj]%elem_of_cons; [|auto].
    eapply (stops_Unres [i]); [done| |set_solver]. intros ? ->%list_elem_of_singleton. eauto.
Qed.

Lemma stop_unrepaired_ok B X s :
  Inv X s → (∀ i, i ∈ B → (i < length ids)%nat) →
  wp (for_each stop_unrepaired B) (λ _ s', Inv X s' ∧ stops s s') s.
Proof.
  intros HI HB. set (I := λ l s', l ⊆ B ∧ Inv X s' ∧ stops s s').
  eapply wp_mono; [eapply (wp_for_each I)|unfold I; naive_solver].
  2:{ unfold I. auto using stops_refl. }
  intros i l s1 (Hl&HI1&Hs1). unfold stop_unrepaired, state_of, I. wp_steps; [|split_and!; [set_solver|done..]].
  eapply wp_mono; [apply stop_ok; [done|apply HB; set_solver]|].
  intros _ s2 (?&?). split_and!; [set_solver|done|by eapply stops_trans].
Qed.

(** ** Grouping by instance *)

Lemma group_by_snoc l r :
  group_by (l ++ [r]) =
  match route r with
  | Some c => if unresolved r && negb (stopped r)
              then <[pb.InstanceId c := default [] (group_by l !! pb.InstanceId c) ++ [length l]]> (group_by l)
              else group_by l
  | None => group_by l
  end.
Proof. unfold group_by. rewrite imap_app, foldl_app. cbn. rewrite Nat.add_0_r. done. Qed.

(** A recipient is in the group of the instance of its route iff it is to be served. *)
Lemma group_by_spec l id i :
  i ∈ default [] (group_by l !! id) ↔
  ∃ r c, l !! i = Some r ∧ route r = Some c ∧ pb.InstanceId c = id
         ∧ r_outcome r = Unresolved ∧ stopped r = false.
Proof.
  induction l as [|r l IH] using rev_ind.
  { cbn. rewrite lookup_empty. cbn. rewrite elem_of_nil. naive_solver. }
  rewrite group_by_snoc.
  assert ((∃ r' c, (l ++ [r]) !! i = Some r' ∧ route r' = Some c ∧ pb.InstanceId c = id
             ∧ r_outcome r' = Unresolved ∧ stopped r' = false) ↔
          (∃ r' c, l !! i = Some r' ∧ route r' = Some c ∧ pb.InstanceId c = id
             ∧ r_outcome r' = Unresolved ∧ stopped r' = false) ∨
          (i = length l ∧ ∃ c, route r = Some c ∧ pb.InstanceId c = id
             ∧ r_outcome r = Unresolved ∧ stopped r = false)) as ->.
  { setoid_rewrite lookup_snoc_Some. split.
    - intros (r'&c&[[? ?]|[? ->]]&?); [left|right]; eauto 10.
    - intros [(r'&c&Hi&?)|(->&c&?)]; [|by eauto 10].
      exists r', c. split; [|done]. left. split; [|done]. by eapply lookup_lt_Some. }
  rewrite <-IH. unfold unresolved. destruct (route r) as [c|]; [|naive_solver].
  destruct (stopped r); [rewrite andb_false_r; naive_solver|].
  case_bool_decide as Ho; cbn; [|naive_solver].
  destruct (decide (pb.InstanceId c = id)) as [<-|Hne].
  - rewrite lookup_insert_eq. cbn. rewrite elem_of_app, list_elem_of_singleton. naive_solver.
  - rewrite lookup_insert_ne by done. naive_solver.
Qed.

Lemma group_by_nodup l id : NoDup (default [] (group_by l !! id)).
Proof.
  induction l as [|r l IH] using rev_ind; [cbn; rewrite lookup_empty; constructor|].
  rewrite group_by_snoc. destruct (route r) as [c|]; [|done]. destruct (_ && _); [|done].
  destruct (decide (pb.InstanceId c = id)) as [<-|Hne]; [|by rewrite lookup_insert_ne].
  rewrite lookup_insert_eq. cbn. apply NoDup_app. split_and!; [done| |apply NoDup_singleton].
  intros i Hi ->%list_elem_of_singleton. apply group_by_spec in Hi as (?&?&Hlk&_).
  apply lookup_lt_Some in Hlk. lia.
Qed.

Lemma sort_strings_permutation l : sort_strings l ≡ₚ l.
Proof. apply merge_sort_Permutation. Qed.

Lemma batches_fst g : NoDup (batches g).*1.
Proof.
  unfold batches. rewrite <-list_fmap_compose. cbn. rewrite list_fmap_id.
  rewrite sort_strings_permutation. apply NoDup_fst_map_to_list.
Qed.
Lemma batches_elem g id B : (id, B) ∈ batches g → B = default [] (g !! id).
Proof. unfold batches. intros (id'&[= -> ->]&_)%list_elem_of_fmap. done. Qed.

Lemma batches_ok X s gs :
  Inv X s → gs = batches (group_by (states s)) →
  Forall (λ g, Ready g.1 g.2 s ∧ NoDup g.2) gs ∧ NoDup gs.*1 ∧ NoDup (mjoin gs.*2).
Proof.
  intros HI Hgs.
  assert (Forall (λ g, Ready g.1 g.2 s ∧ NoDup g.2) gs) as Hall.
  { rewrite Forall_forall. intros [id B] Hin. rewrite Hgs in Hin. apply batches_elem in Hin as ->.
    split; [|apply group_by_nodup]. intros i (r&c&?&?&?&?&?)%group_by_spec. eauto 10. }
  assert (NoDup gs.*1) as Hnd by (rewrite Hgs; apply batches_fst).
  split_and!; [done|done|]. clear Hgs. induction gs as [|[id B] gs IH]; [constructor|].
  cbn in Hnd |- *. apply NoDup_cons in Hnd as [Hid Hnd]. apply Forall_cons in Hall as [[HR HB] Hall].
  apply NoDup_app. split_and!; [done| |auto].
  intros i Hi (B'&HiB'&([id' B'']&->&Hin)%list_elem_of_fmap)%list_elem_of_join.
  rewrite Forall_forall in Hall. destruct (Hall _ Hin) as [HR' _].
  destruct (HR i Hi) as (r&c&?&_&?&Hc). destruct (HR' i HiB') as (r'&c'&?&_&?&Heq). cbn in Hc, Heq.
  simplify_eq. apply Hid. apply list_elem_of_fmap. by exists (pb.InstanceId c, B'').
Qed.

(** ** A round *)

Definition kept (s s' : job_state W) : Prop := Inv nobody s' ∧ evolves s s'.

Lemma kept_same s1 s2 s3 : evolves s1 s2 → Inv nobody s3 → same s2 s3 → kept s1 s3.
Proof. intros. split; [done|]. eapply evolves_trans; [done|by apply same_evolves]. Qed.
Lemma kept_eff B s1 s2 s3 : evolves s1 s2 → Inv nobody s3 → eff B s2 s3 → Unres B s2 → kept s1 s3.
Proof. intros. split; [done|]. eapply evolves_trans; [done|by eapply eff_evolves]. Qed.

Lemma all_batches_ok {A} (f : A → ST (job_state W) unit) (B : A → list nat) l s :
  Inv nobody s → Forall (λ x, Unres (B x) s) l →
  (∀ x s', Inv nobody s' → Unres (B x) s' → wp (f x) (λ _ s'', Inv nobody s'' ∧ eff (B x) s' s'' ∧
     ∀ D, Unres D s' → Unres D s'') s') →
  wp (for_each f l) (λ _, kept s) s.
Proof.
  intros HI Hl Hf.
  set (I := λ l s', Inv nobody s' ∧ Forall (λ x, Unres (B x) s') l ∧ evolves s s').
  eapply wp_mono; [eapply (wp_for_each I)|unfold I, kept; naive_solver].
  2:{ unfold I. auto using evolves_refl. }
  intros x l' s' (HI'&Hall&He). apply Forall_cons in Hall as [Hx Hall].
  eapply wp_mono; [by apply Hf|]. intros _ s'' (?&?&HD). unfold I. split_and!; [done| |].
  - eapply Forall_impl; [exact Hall|]. auto.
  - eapply evolves_trans; [done|by eapply eff_evolves].
Qed.

Lemma batch_step B m s :
  (∀ D, Inv nobody s → Unres D s → B ⊆ D → wp m (λ _ : unit, batch_post nobody D B s) s) →
  Inv nobody s → Unres B s →
  wp m (λ _ s', Inv nobody s' ∧ eff B s s' ∧ ∀ D, Unres D s → Unres D s') s.
Proof.
  intros Hm HI HB. unfold wp in *. destruct (Hm B HI HB) as (?&_&?&_); [done|].
  split_and!; [done|done|]. intros D' HD'.
  destruct (Hm (B ++ D')) as (_&HU&_); [done| |set_solver|eapply Unres_sub; [done|set_solver]].
  intros i [?|?]%elem_of_app; auto.
Qed.

(** The repair lookups of a round. *)
Lemma lookup_phase_ok ctx B is_repair s :
  Inv nobody s → ctx_deadline ctx = Some dl → Unres B s → NoDup B → (∀ i, i ∈ B → (i < length ids)%nat) →
  wp (when (negb (bool_decide (B = [])))
       (when is_repair (modify set_repaired);;
        lookup env p ctx (im.RequestID task) B;;
        for_each stop_unrepaired B)) (λ _, kept s) s.
Proof.
  intros HI Hctx HU Hnd HB. apply wp_when; intros Hne.
  2:{ split; [done|apply evolves_refl]. }
  assert (B ≠ []) as HBne by (intros ->; done).
  assert (wp (lookup env p ctx (im.RequestID task) B;; for_each stop_unrepaired B) (λ _, kept s)
     (if is_repair then set_repaired s else s)) as Hrun.
  { set (s0 := if is_repair then set_repaired s else s).
    assert (Inv nobody s0 ∧ Unres B s0 ∧ evolves s s0) as (HI0&HU0&He0).
    { unfold s0. destruct is_repair; [|by auto using evolves_refl].
      split_and!; [|done|split; [done|by eauto]]. destruct HI. by constructor. }
    wp_apply lookup_ok; [done..|]. intros _ s1 (HI1&He1).
    eapply wp_mono; [by apply stop_unrepaired_ok|]. intros _ s2 (?&?).
    eapply kept_eff in He1 as [_ ?]; [|done..]. split; [done|].
    eapply evolves_trans; [done|by apply stops_evolves]. }
  apply wp_bind. destruct is_repair; exact Hrun.
Qed.

Lemma round_ok ctx s :
  Inv nobody s → ctx_deadline ctx = Some dl → wp (round env p ctx task) (λ _, kept s) s.
Proof.
  intros HI Hctx. unfold round. rewrite message_ok. apply wp_bind, wp_gets.
  assert (length (states s) = length ids) as Hlen by by rewrite <-(inv_users _ _ HI), length_fmap.
  wp_apply collect_lookup_ok; [done|intros i ?%elem_of_seq; lia|].
  intros [B is_repair] s1 (HI1&Hst1&HU1&Hsub).
  apply stops_evolves in Hst1.
  apply wp_bind. eapply wp_mono;
    [eapply (lookup_phase_ok ctx B is_repair); [done|done|done|eapply sublist_NoDup; [apply NoDup_seq|done]|]|].
  { intros i Hi. eapply sublist_subseteq in Hi; [|done]. apply elem_of_seq in Hi. lia. }
  intros _ s2 (HI2&He2). assert (evolves s s2) as He by by eapply evolves_trans.
  apply wp_bind, wp_gets. remember (batches (group_by (states s2))) as gs eqn:Hgs.
  destruct (batches_ok _ _ _ HI2 Hgs) as (Hall&Hnd1&Hnd2).
  case_bool_decide as Hne; [by wp_steps|].
  wp_apply ctx_err_ok; [done|]. intros e s3 (HI3&Hs3&_).
  case_bool_decide; [by wp_steps; eapply kept_same|].
  wp_apply rpcContext_ok; [done|done|]. intros c s4 (HI4&Hs4&Hc).
  wp_apply call_ok; [done| |].
  { intros a. split; [done|]. split_and!; [done|by destruct gs|done]. }
  intros reply s5 (HI5&Hs5&Ht5).
  assert (same s2 s5) as Hs by (eapply same_trans; [done|by eapply same_trans]).
  assert (∀ s', kept s5 s' → kept s s') as Hout.
  { intros s' [? ?]. split; [done|]. eapply evolves_trans; [done|].
    eapply evolves_trans; [by apply same_evolves|done]. }
  assert (Forall (λ g, Unres g.2 s5) gs) as HUs.
  { eapply Forall_impl; [exact Hall|]. intros g [? _]. eapply same_Unres; [done|by eapply Ready_Unres]. }
  destruct reply as [r|err].
  2:{ eapply wp_mono; [eapply (all_batches_ok _ snd); try done|by eauto].
      intros g s' ??. eapply batch_step; try done. intros. by apply rpcFailure_ok. }
  wp_apply validResolutions_ok; [done|]. intros ok s6 (HI6&Hs6&Hok).
  destruct ok; cbn [negb].
  2:{ eapply wp_mono; [eapply (all_batches_ok _ snd); try done|].
      - eapply Forall_impl; [exact HUs|]. intros g ?. by eapply same_Unres.
      - intros g s' ??. eapply batch_step; try done. intros. by apply mark_ok.
      - intros _ s' [??]. apply Hout. split; [done|]. eapply evolves_trans; [by apply same_evolves|done]. }
  destruct (Hok eq_refl) as (rs&->&Hval). cbn [default].
  assert (same s2 s6) as Hs26 by by eapply same_trans.
  assert (length gs = length rs) as Hlrs by by rewrite (Forall2_length _ _ _ Hval), length_fmap.
  assert (members (zip gs rs) = mjoin gs.*2) as Hmem.
  { unfold members. f_equal. rewrite <-(fst_zip gs rs) at 2 by lia. by rewrite <-!list_fmap_compose. }
  eapply wp_mono; [eapply (deliver_all_ok ctx (zip gs rs) c gs.*1 rs)|].
  - done.
  - done.
  - by rewrite Hmem.
  - apply Forall_zip_intro. intros j g item Hg Hitem. cbn.
    rewrite Forall_forall in Hall. destruct (Hall g) as [HR _]; [by eapply list_elem_of_lookup_2|].
    split_and!; [by eapply same_Ready| |by eapply list_elem_of_lookup_2].
    destruct (Forall2_lookup_l _ _ _ _ _ Hval Hitem) as (id&Hid&Hv).
    rewrite list_lookup_fmap, Hg in Hid. by injection Hid as <-.
  - destruct Hs6 as (_&_&[k ->]). rewrite Ht5. set_solver.
  - intros _ s' (?&?). apply Hout. eapply kept_eff; [by apply same_evolves|done|done|].
    rewrite Hmem. intros i (B'&Hi&(g&->&Hg)%list_elem_of_fmap)%list_elem_of_join.
    rewrite Forall_forall in Hall. destruct (Hall g Hg) as [HR _].
    eapply same_Unres; [done|by eapply Ready_Unres|done].
Qed.

Lemma attempts_ok n k ctx s :
  Inv nobody s → ctx_deadline ctx = Some dl →
  wp (attempts env p n k ctx task) (λ c s', kept s s' ∧ 0 ≤ c ≤ Z.of_nat n) s.
Proof.
  revert k s. induction n as [|n IH]; intros k s HI Hctx; cbn [attempts].
  { wp_steps. split; [split; [done|apply evolves_refl]|done]. }
  wp_apply ctx_err_ok; [done|]. intros e s1 (HI1&Hs1&_).
  assert (kept s s1) as Hk1 by (eapply kept_same; [apply evolves_refl|done..]).
  case_bool_decide; [wp_steps; split; [done|lia]|].
  apply wp_bind, wp_gets. destruct (runnable s1); cbn [negb]; [|wp_steps; split; [done|lia]].
  eapply (wp_bind). eapply (wp_mono _ (λ _ s2, Inv nobody s2 ∧ same s1 s2)).
  { destruct k as [|k]; [by wp_steps; auto using same_refl|].
    wp_apply call_ok; [done|done|]. intros _ s2 (HI2&Hs2&_).
    wp_apply ctx_err_ok; [done|]. intros e' s3 (?&?&_). wp_steps.
    split; [done|by eapply same_trans]. }
  intros go s2 (HI2&Hs2). assert (kept s s2) as Hk2 by (eapply kept_same; [apply Hk1|done..]).
  destruct go; cbn [negb]; [|wp_steps; split; [done|lia]].
  wp_apply round_ok; [done|done|]. intros _ s3 [HI3 He3].
  wp_apply IH; [done|done|]. intros c s4 [[HI4 He4] ?]. wp_steps.
  split; [|lia]. split; [done|]. eapply evolves_trans; [apply Hk2|]. by eapply evolves_trans.
Qed.
End Safety.

(** ** The task a record decodes to *)

Section Process.
Context `{External} {W Cl : Type} (env : environment W Cl) (p : Processor).

Lemma strictly_sorted_NoDup l : StronglySorted (strict String.le) l → NoDup l.
Proof.
  induction 1 as [|x l _ IH Hx]; constructor; [|done].
  intros Hin. rewrite Forall_forall in Hx. by destruct (Hx x Hin).
Qed.

Lemma task_ids_NoDup task : well_formed task → NoDup (task_ids task).
Proof.
  intros Hwf. unfold task_ids. pose proof (proj1 (wf_pending _ Hwf)) as Hp.
  destruct (im.PendingRecipients task); [done|]. by apply strictly_sorted_NoDup, wf_sorted.
Qed.

Lemma hints_ok task id c :
  well_formed task → hints task !! id = Some c → pb.UserId c = id ∧ validConnection (Some c) = true.
Proof.
  intros Hwf. destruct (wf_targets _ Hwf) as (hs&Hhs&_&Hall). unfold hints. rewrite Hhs. cbn [default].
  destruct (im.PendingRecipients task); [by rewrite lookup_empty|].
  assert (∀ m : gmap string pb.ConnectionIdentity,
    (∀ id c, m !! id = Some c → pb.UserId c = id ∧ validConnection (Some c) = true) →
    fold_left (λ m h, <[im.UserID h := connectionView h]> m) hs m !! id = Some c →
    pb.UserId c = id ∧ validConnection (Some c) = true) as Hfold.
  { clear Hhs. induction Hall as [|h hs [_ Hh] _ IH]; intros m Hm; [by apply Hm|]. apply IH.
    intros id' c'. destruct (decide (im.UserID h = id')) as [<-|?].
    - rewrite lookup_insert_eq. intros [= <-]. done.
    - rewrite lookup_insert_ne by done. apply Hm. }
  apply Hfold. intros id' c'. by rewrite lookup_empty.
Qed.

Lemma initial_Inv task message dl w :
  well_formed task →
  Inv (W := W) p task message (task_ids task) dl nobody (JobState w [] (initial_states task) false).
Proof.
  intros Hwf. constructor; cbn.
  - unfold initial_states. rewrite <-list_fmap_compose. apply list_fmap_id.
  - intros i r Hr. unfold initial_states in Hr. apply list_lookup_fmap_Some in Hr as (id&->&_).
    split; [|done]. cbn. intros c Hc. by apply (hints_ok task).
  - intros u e ?%not_elem_of_nil. done.
  - done.
Qed.

(** ** The theorems about [Process] *)

Definition task_deadline (ctx : context) (now : Z) : Z :=
  match ctx_deadline ctx with Some d => Z.min d (now + timeout p) | None => now + timeout p end.

(** What a reported result is based on. *)
Definition result_justified (t : list event) (v : RecipientResult) : Prop :=
  match outcome v with
  | Unresolved => reason v ≠ NoReason
  | Enqueued => reason v = NoReason ∧ ∃ e, e ∈ t ∧ confirmed_as pb.OUTCOME_ENQUEUED (UserID v) e
  | Duplicate => reason v = NoReason ∧ ∃ e, e ∈ t ∧ confirmed_as pb.OUTCOME_DUPLICATE (UserID v) e
  | Offline => reason v = NoReason ∧ ∃ e, e ∈ t ∧ told_offline (UserID v) e
  end.

Lemma exhaust_justified t r : justified t r → result_justified t (recipient_result (exhaust r)).
Proof.
  unfold justified, exhaust, result_justified, recipient_result, unresolved.
  destruct r as [u o rs c d n st]; cbn. destruct o; [destruct rs|..]; cbn; auto; done.
Qed.

Lemma exhaust_user r : r_user (exhaust r) = r_user r.
Proof. unfold exhaust. by destruct (_ && _). Qed.

Definition process_post (ctx : context) (task : im.PushTask) (w : W)
    (out : (Result * option process_error) * job_state W) : Prop :=
  let '((res, err), s) := out in
  Task res = task ∧ UserID <$> ResultRecipients res = task_ids task ∧ 0 ≤ Attempts res ≤ 3
  ∧ Forall (result_justified (trace s)) (ResultRecipients res)
  ∧ match err with
    | None => PendingRecipients res = []
    | Some (ErrUnresolved _) => PendingRecipients res ≠ []
    | Some (ProcessInvalidTask _) => False
    end
  ∧ ∃ message now, messageView (im.Message_ task) = Ok message
      ∧ trace s !! 0%nat = Some (EvNow now)
      ∧ ∀ k e, trace s !! k = Some e →
          event_ok p task message (task_ids task) (task_deadline ctx now) (take k (trace s)) e.

Lemma process_task_ok ctx task w :
  well_formed task →
  process_post ctx task w (process_task env p ctx task (JobState w [] (initial_states task) false)).
Proof.
  intros Hwf. destruct (proj2 (messageView_ok _) (wf_message _ Hwf)) as [message Hm]. pose proof (task_ids_NoDup _ Hwf) as Hnd.
  set (s0 := JobState w [] (initial_states task) false).
  set (now := (env_now env w).1). set (dl := task_deadline ctx now).
  pose proof (initial_Inv task message dl w Hwf) as HI0. fold s0 in HI0.
  assert (wp (process_task env p ctx task) (λ o s, process_post ctx task w (o, s)) s0) as Hwp.
  2:{ unfold wp in Hwp. by destruct (process_task _ _ _ _ _) as [o s]. }
  unfold process_task, with_timeout. apply wp_bind, wp_bind.
  assert (time_now env s0 = (now, JobState (env_now env w).2 [EvNow now] (initial_states task) false)) as Htn.
  { unfold time_now, call, s0, now. cbn. by destruct (env_now env w). }
  pose proof (time_now_ok env p task message (task_ids task) dl Hm Hnd nobody s0 HI0) as (HI1&_&Ht1).
  unfold wp in HI1, Ht1 |- * at 1. rewrite Htn in HI1, Ht1 |- *. cbn [fst snd] in *. clear Htn.
  set (s1 := JobState _ [EvNow now] _ _) in *. apply wp_ret.
  assert (ctx_deadline (with_deadline ctx (now + timeout p)) = Some dl) as Hdl by done.
  set (ctx' := with_deadline ctx (now + timeout p)) in *.
  wp_apply (attempts_ok env p task message (task_ids task) dl Hm Hnd 3 0 ctx' s1); [done|done|].
  intros n s2 [[HI2 [He2 _]] Hn].
  apply wp_bind, wp_modify, wp_bind, wp_gets.
  set (s3 := set_states (exhaust <$> states s2) s2).
  set (res := MkResult task (recipient_result <$> states s3) n).
  assert (∀ s4 err, trace s2 `prefix_of` trace s4 →
    (∀ k e, trace s4 !! k = Some e → event_ok p task message (task_ids task) dl (take k (trace s4)) e) →
    match err with
    | None => PendingRecipients res = [] | Some (ErrUnresolved _) => PendingRecipients res ≠ []
    | Some (ProcessInvalidTask _) => False
    end → process_post ctx task w ((res, err), s4)) as Hpost.
  { intros s4 err Hpre Hev Herr. split_and!; try done; try (cbn; lia).
    - cbn. rewrite <-(inv_users _ _ _ _ _ _ _ HI2), <-!list_fmap_compose. apply list_fmap_ext.
      intros ? r _. cbn. apply exhaust_user.
    - unfold res, s3. cbn. rewrite <-list_fmap_compose, Forall_fmap, Forall_lookup. intros i r Hi. cbn.
      apply exhaust_justified. destruct Hpre as [k ->].
      apply (justified_app task message (task_ids task) Hm Hnd).
      by eapply (inv_states _ _ _ _ _ _ _ HI2).
    - exists message, now. split_and!; [done| |done]. eapply prefix_lookup_Some; [|exact Hpre].
      by eapply prefix_lookup_Some; [|exact He2]. }
  case_bool_decide as Hp; [wp_steps; apply Hpost; [done|apply HI2|done]|].
  apply wp_bind. unfold wp at 1, ctx_err, call. destruct (env_ctx_err env ctx' (world s3)) as [e w'].
  cbn [fst snd]. wp_steps. apply Hpost; [by apply prefix_app_r| |done].
  apply (Inv_event p task message (task_ids task) dl Hm Hnd nobody nobody (EvCtxErr ctx' e) w' s2); try done.
  intros u Hu. by apply quiet_confirmed in Hu.
Qed.

Lemma Process_ok raw task ctx w :
  DecodeTask raw = Ok task → process_post ctx task w (Process env p ctx raw w).
Proof.
  intros Hd. unfold Process. rewrite Hd. apply process_task_ok. by eapply DecodeTask_well_formed.
Qed.

(** C1: the report on a task names the users to serve, in order and once each, after at
    most three rounds.  A settled outcome carries no reason and is backed by an answer:
    Enqueued and Duplicate by a valid answer of Comet for that very target, Offline by
    an explicit answer of Logic.  An unresolved one carries a reason.  The error is nil
    exactly when nobody is pending. *)
Theorem Process_result raw task ctx w :
  DecodeTask raw = Ok task →
  let '((res, err), s) := Process env p ctx raw w in
  Task res = task ∧ UserID <$> ResultRecipients res = task_ids task ∧ NoDup (task_ids task)
  ∧ 0 ≤ Attempts res ≤ 3
  ∧ Forall (result_justified (trace s)) (ResultRecipients res)
  ∧ match err with
    | None => PendingRecipients res = []
    | Some (ErrUnresolved _) => PendingRecipients res ≠ []
    | Some (ProcessInvalidTask _) => False
    end.
Proof.
  intros Hd. pose proof (Process_ok raw task ctx w Hd) as Hp.
  destruct (Process env p ctx raw w) as [[res err] s]. destruct Hp as (?&?&[? ?]&?&?&_).
  split_and!; try done. by eapply task_ids_NoDup, DecodeTask_well_formed.
Qed.

(** C2: everything a task does is allowed.  Every call carries the Job credential and a
    deadline within the task's and the call's budget; lookups name distinct users of the
    task that no Comet has confirmed; Comet is dialled only at an address Logic resolved,
    and asked to deliver only this task's message, to the boot Logic resolved, right
    after the lease and the context were checked, for valid connections of distinct
    users of the task that have not been confirmed. *)
Theorem Process_trace raw task ctx w :
  DecodeTask raw = Ok task →
  let s := (Process env p ctx raw w).2 in
  ∃ message now, messageView (im.Message_ task) = Ok message
    ∧ trace s !! 0%nat = Some (EvNow now)
    ∧ ∀ k e, trace s !! k = Some e →
        event_ok p task message (task_ids task) (task_deadline ctx now) (take k (trace s)) e.
Proof.
  intros Hd. pose proof (Process_ok raw task ctx w Hd) as Hp.
  destruct (Process env p ctx raw w) as [[res err] s]. by destruct Hp as (_&_&_&_&_&?).
Qed.

End Process.

(** ** Concrete runs *)

Definition sample_lookup (u : string) : option pb.RouteLookupResult :=
  Some (pb.MkRouteLookupResult u (pb.StateOffline pb.OFFLINE_REASON_NO_ROUTE)).
Definition sample_lease (i : string) : pb.CometLease :=
  pb.MkCometLease (Some (pb.MkCometIdentity i boot1)) "127.0.0.1:7000" false (Some (MkTimestamp 100 0)).
Definition sample_resolution (i : string) : option pb.CometResolution :=
  Some (pb.MkCometResolution i (pb.StateLease (Some (sample_lease i)))).
Definition sample_item (t : option pb.ConnectionIdentity) : option pb.DeliveryResult :=
  Some (pb.MkDeliveryResult t pb.OUTCOME_ENQUEUED).
Definition sample_response (req : pb.DeliverRequest) : pb.DeliverResponse :=
  pb.MkDeliverResponse (pb.ReqTaskId req) (request_message_id req) (sample_item <$> pb.ReqTargets req).

(** A clock that stands still; nobody has a route beyond the hints; every instance is
    resolved and enqueues what it is given. *)
Definition sample_env : environment unit unit :=
  Environment unit unit
    (λ w, (0, w)) (λ _ w, (None, w)) (λ _ _ w, w)
    (λ _ us _ w, (Ok (Some (sample_lookup <$> us)), w))
    (λ _ ns _ w, (Ok (Some (sample_resolution <$> ns)), w))
    (λ _ _ w, (Some tt, w))
    (λ _ _ req w, (Ok (Some (sample_response req)), w)).
Definition sample_processor : Processor :=
  MkProcessor job_token (10 * second) (2 * second) (200 * millisecond, second).
Definition background : context := Context None None.
Definition sample_run : (Result * option process_error) * job_state unit :=
  Process (H := Reference.external) sample_env sample_processor background hinted_task tt.

Lemma Process_result_witness :
  DecodeTask (H := Reference.external) hinted_task = Ok (decoded hinted_task)
  ∧ (let '((res, err), s) := sample_run in
     Task res = decoded hinted_task
     ∧ UserID <$> ResultRecipients res = task_ids (decoded hinted_task) ∧ NoDup (task_ids (decoded hinted_task))
     ∧ 0 ≤ Attempts res ≤ 3
     ∧ Forall (result_justified (trace s)) (ResultRecipients res)
     ∧ match err with
       | None => PendingRecipients res = []
       | Some (ErrUnresolved _) => PendingRecipients res ≠ []
       | Some (ProcessInvalidTask _) => False
       end)
  ∧ (sample_run).1 = (MkResult (decoded hinted_task)
       [MkRecipientResult user1 Enqueued NoReason; MkRecipientResult user2 Offline NoReason] 1, None).
Proof.
  split; [vm_compute; reflexivity|]. split; [|vm_compute; reflexivity].
  apply (@Process_result Reference.external). vm_compute. reflexivity.
Defined.

Lemma Process_trace_witness :
  DecodeTask (H := Reference.external) hinted_task = Ok (decoded hinted_task)
  ∧ ∃ message now, messageView (H := Reference.external) (im.Message_ (decoded hinted_task)) = Ok message
    ∧ trace sample_run.2 !! 0%nat = Some (EvNow now)
    ∧ ∀ k e, trace sample_run.2 !! k = Some e →
        event_ok (H := Reference.external) sample_processor (decoded hinted_task) message
          (task_ids (decoded hinted_task)) (task_deadline sample_processor background now)
          (take k (trace sample_run.2)) e.
Proof.
  split; [vm_compute; reflexivity|].
  apply (@Process_trace Reference.external). vm_compute. reflexivity.
Defined.

(** Both users are delivered to, on two instances. *)
Definition sample_run2 : (Result * option process_error) * job_state unit :=
  Process (H := Reference.external) sample_env sample_processor background twice_hinted_task tt.
Definition target_of (user instance : string) : pb.ConnectionIdentity :=
  pb.MkConnectionIdentity user instance connection1 token1.
Definition sample_context : context :=
  Context (Some (2 * second)) (Some ("Bearer " +:+ job_token)).
Definition sample_request (user instance : string) : pb.DeliverRequest :=
  pb.MkDeliverRequest (Some (pb.MkCometIdentity instance boot1)) (im.TaskID (decoded twice_hinted_task))
    (match messageView (H := Reference.external) (im.Message_ (decoded twice_hinted_task)) with
     | Ok v => Some v | Err _ => None end)
    [Some (target_of user instance)] EmptyString.
Definition sample_delivery (user instance : string) : event :=
  EvDeliver sample_context (sample_request user instance)
    (Ok (Some (sample_response (sample_request user instance)))).

(** C39: a member name with U+017F (long s) passes the check of the names, whose comment
    promises to reject case-aliased keys, but the decoder takes it for
    [pending_recipients].  The task is accepted with an empty pending subset and no
    replay run, and [Process] reports success without serving any recipient. *)
Theorem aliased_task_is_dropped :
  let task := decoded aliased_task in
  DecodeTask (H := Reference.external) aliased_task = Ok task
  ∧ im.Recipients task = [user1; user2] ∧ im.PendingRecipients task = Some [] ∧ im.ReplayRunID task = ""
  ∧ ∀ W Cl (env : environment W Cl) p ctx w,
      let '((res, err), s) := Process (H := Reference.external) env p ctx aliased_task w in
      err = None ∧ ResultRecipients res = []
      ∧ Forall (λ e, match e with EvNow _ | EvCtxErr _ _ => True | _ => False end) (trace s).
Proof.
  assert (DecodeTask (H := Reference.external) aliased_task = Ok (decoded aliased_task)) as Hd
    by (vm_compute; reflexivity).
  assert (im.PendingRecipients (decoded aliased_task) = Some []) as Hp by (vm_compute; reflexivity).
  cbv zeta. split_and!; [done|vm_compute; reflexivity|done|vm_compute; reflexivity|].
  intros W Cl env p ctx w. unfold Process. rewrite Hd.
  unfold initial_states, task_ids. rewrite Hp. cbn [default from_option fmap list_fmap].
  clear Hd Hp. generalize (decoded aliased_task) as task. intros task.
  unfold process_task, with_timeout, time_now, ctx_err, call, mbind, ST_bind. cbn.
  destruct (env_now env w) as [now w1]. cbn. unfold ctx_err, call, mbind, ST_bind. cbn.
  match goal with |- context [env_ctx_err env ?c w1] => destruct (env_ctx_err env c w1) as [[e|] w2] end;
    cbn; split_and!; try done; repeat constructor.
Qed.
