(* ===== verification/JobConsumer.v ===== *)
(** * Consuming a partition: [internal/job/consumer.go]

    The Kafka source, the dead-letter sink, the processor, the clock and the context of
    [RunPartition] are the operations of an environment over a world [W].  One turn of
    the loop of [RunPartition] is [turn]; the loop repeats it.  The error of a context
    never changes once it is set, so a test of it followed by its return is one reading. *)
From S2P Require Import Prelude GoStd GoTime External Json Dto JobTask JobProcessor JsonPrint Sha256.
Local Open Scope Z_scope.

(** ** Records *)

(** [kafka.Message], as far as it is used. *)
Record kafka_message : Type := KafkaMessage {
  Topic : string; Partition : Z; Offset : Z; Key : string; Value : string
}.

(** [DLQRecord] with the members [DeadLetter] adds. *)
Record DeadLetter : Type := MkDeadLetter {
  SourceTopic : string; SourcePartition : Z; SourceOffset : string; DeadReason : string;
  DeadTask : option im.PushTask; DeadPending : option (list string); RawPayloadBase64 : string;
  FirstAttemptAt : time; LastAttemptAt : time;
  OriginalPayloadBase64 : string; SourceKeyBase64 : string
}.

Record ConsumerEvent : Type := MkConsumerEvent {
  Stage : string; EvOutcome : string; EvRequestID : string; EvTaskID : string; EvMessageID : string;
  EvTopic : string; EvPartition : Z; EvOffset : string; EvAttempts : Z; EvPending : Z
}.

Record ConsumerOptions : Type := MkConsumerOptions {
  OptAttempts : Z; OptRetryDelay : Z; IdentityCapacity : Z
}.

(** The counters of [ConsumerStats], which are [uint64]. *)
Inductive counter : Type :=
| NProcessed | NCommitted | NDLQ | NInvalid | NConflicts | NRetries | NDLQErrors | NCommitErrors
| NOffline | NEnqueued | NDuplicate | NUnresolved.
Global Instance counter_eq_dec : EqDecision counter.
Proof. solve_decision. Defined.
Definition ConsumerStats : Type := counter → Z.
Definition bump (c : counter) (n : Z) (s : ConsumerStats) : ConsumerStats :=
  λ c', if decide (c = c') then (s c' + n) mod 2 ^ 64 else s c'.

Record Consumer : Type := MkConsumer {
  options : ConsumerOptions; stats : ConsumerStats;
  identities : gmap string (list Z); order : list string; next : Z; blocked : Z
}.
Definition set_stats (f : ConsumerStats → ConsumerStats) (c : Consumer) : Consumer :=
  MkConsumer (options c) (f (stats c)) (identities c) (order c) (next c) (blocked c).
Definition set_blocked (n : Z) (c : Consumer) : Consumer :=
  MkConsumer (options c) (stats c) (identities c) (order c) (next c) n.

Definition NewConsumer (o : ConsumerOptions) : Consumer :=
  let attempts := if (OptAttempts o <? 1) || (3 <? OptAttempts o) then 3 else OptAttempts o in
  let delay := if (OptRetryDelay o <=? 0) || (second <? OptRetryDelay o)
               then 200 * millisecond else OptRetryDelay o in
  let capacity := if (IdentityCapacity o <? 1) || (65536 <? IdentityCapacity o)
                  then 4096 else IdentityCapacity o in
  MkConsumer (MkConsumerOptions attempts delay capacity) (λ _, 0) ∅ [] 0 0.
(** [Stats]: the counters and the number of remembered identities. *)
Definition Stats (c : Consumer) : ConsumerStats * Z := (stats c, Z.of_nat (size (identities c))).
Definition Blocked (c : Consumer) : bool := 0 <? blocked c.

(** ** Recent identities *)

(** The digest covers version, kind, id, message, recipients and chunk numbers; a
    marshalling error leaves no bytes. *)
Definition digest_text (t : im.PushTask) : option string :=
  message ← print_message (im.Message_ t);
  Some (print_object
    [field "Version" (format_uint (im.SchemaVersion t)); field "Kind" (print_string (im.Kind t));
     field "ID" (print_string (im.TaskID t)); field "Message" message;
     field "Recipients" (print_array (print_string <$> im.Recipients t));
     field "Index" (format_uint (im.ChunkIndex t)); field "Count" (format_uint (im.ChunkCount t))]).
Definition ImmutableDigest (t : im.PushTask) : list Z := sha256 (default EmptyString (digest_text t)).

(** [conflict] on the digest: whether the id is remembered with another digest.  A new id
    is remembered, in place of the oldest one when the ring is full. *)
Definition remember (id : string) (digest : list Z) (c : Consumer) : Consumer :=
  if slen (order c) <? IdentityCapacity (options c) then
    MkConsumer (options c) (stats c) (<[id := digest]> (identities c)) (order c ++ [id]) (next c) (blocked c)
  else
    let n := Z.to_nat (next c) in
    let ids := match order c !! n with Some old => delete old (identities c) | None => identities c end in
    MkConsumer (options c) (stats c) (<[id := digest]> ids) (<[n := id]> (order c))
      ((next c + 1) mod slen (order c)) (blocked c).
Definition conflict (t : im.PushTask) (c : Consumer) : bool * Consumer :=
  match identities c !! im.TaskID t with
  | Some old => (bool_decide (old ≠ ImmutableDigest t), c)
  | None => (false, remember (im.TaskID t) (ImmutableDigest t) c)
  end.

(** ** Environment *)

Inductive run_error : Type := RunContext (e : context_error) | RunFetch | ErrBoundary.

Record consumer_env (W : Type) : Type := ConsumerEnv {
  ce_ctx_err : W → option context_error * W;
  ce_fetch : W → option kafka_message * W;
  ce_now : W → Z * W;
  ce_process : string → W → (Result * option process_error) * W;
  ce_processed : kafka_message → W → W;
  ce_write : DeadLetter → W → bool * W;
  ce_commit : kafka_message → W → bool * W;
  ce_pause : Z → W → option context_error * W
}.
Global Arguments ce_ctx_err {W}. Global Arguments ce_fetch {W}. Global Arguments ce_now {W}.
Global Arguments ce_process {W}. Global Arguments ce_processed {W}. Global Arguments ce_write {W}.
Global Arguments ce_commit {W}. Global Arguments ce_pause {W}.

Inductive consumer_step : Type :=
| CCtxErr (e : option context_error)
| CFetch (m : option kafka_message)
| CNow (t : Z)
| CProcess (raw : string) (res : Result) (err : option process_error)
| CProcessed (m : kafka_message)
| CWrite (d : DeadLetter) (ok : bool)
| CCommit (m : kafka_message) (ok : bool)
| CPause (d : Z) (e : option context_error)
| CEmit (e : ConsumerEvent).

Record consumer_state (W : Type) : Type := ConsumerState {
  c_world : W; steps : list consumer_step; consumer : Consumer
}.
Global Arguments ConsumerState {W}. Global Arguments c_world {W}.
Global Arguments steps {W}. Global Arguments consumer {W}.

Section Consumer.
Context `{External} {W : Type} (env : consumer_env W).
#[local] Abbreviation M := (ST (consumer_state W)).

Definition act {A} (f : W → A * W) (ev : A → consumer_step) : M A := λ s,
  let '(a, w) := f (c_world s) in (a, ConsumerState w (steps s ++ [ev a]) (consumer s)).
Definition on_consumer (f : Consumer → Consumer) : M unit :=
  modify (λ s, ConsumerState (c_world s) (steps s) (f (consumer s))).
Definition add (c : counter) (n : Z) : M unit := on_consumer (set_stats (bump c n)).
Definition ctx_error : M (option context_error) := act (ce_ctx_err env) CCtxErr.
Definition pause (d : Z) : M (option context_error) := act (ce_pause env d) (CPause d).
Definition emit (e : ConsumerEvent) (stage outcome : string) : M unit :=
  act (λ w, (tt, w)) (λ _, CEmit (MkConsumerEvent stage outcome (EvRequestID e) (EvTaskID e) (EvMessageID e)
     (EvTopic e) (EvPartition e) (EvOffset e) (EvAttempts e) (EvPending e))).

(** ** Acknowledgement *)

(** Attempts number [attempt] and on, [n] at most; [was_blocked] tells whether this call
    holds the [blocked] counter. *)
Fixpoint ack_from (n : nat) (attempt : Z) (fn : M bool) (dlq was_blocked : bool) : M (option run_error * bool) :=
  match n with
  | O => mret (Some ErrBoundary, was_blocked)
  | S n' =>
    e ← ctx_error;
    match e with
    | Some e => mret (Some (RunContext e), was_blocked)
    | None =>
      ok ← fn;
      if ok : bool then mret (None, was_blocked) else
      add (if dlq then NDLQErrors else NCommitErrors) 1;;
      when (negb was_blocked) (on_consumer (λ c, set_blocked (blocked c + 1) c));;
      total ← gets (λ s, OptAttempts (options (consumer s)));
      if attempt + 1 <? total then
        add NRetries 1;;
        delay ← gets (λ s, OptRetryDelay (options (consumer s)));
        e ← pause delay;
        match e with
        | Some e => mret (Some (RunContext e), true)
        | None => ack_from n' (attempt + 1) fn dlq true
        end
      else ack_from n' (attempt + 1) fn dlq true
    end
  end.
Definition ack (fn : M bool) (dlq : bool) : M (option run_error) :=
  total ← gets (λ s, OptAttempts (options (consumer s)));
  '(err, was_blocked) ← ack_from (Z.to_nat total) 0 fn dlq false;
  when was_blocked (on_consumer (λ c, set_blocked (blocked c - 1) c));;
  mret err.

(** ** One record *)

Definition event_of (m : kafka_message) (task : option im.PushTask) : ConsumerEvent :=
  MkConsumerEvent "" ""
    (from_option im.RequestID "" task) (from_option im.TaskID "" task)
    (from_option (λ t, im.MessageID (im.Message_ t)) "" task)
    (Topic m) (Partition m) (format_int (Offset m)) 0 0.
Definition with_result (e : ConsumerEvent) (attempts pending : Z) : ConsumerEvent :=
  MkConsumerEvent (Stage e) (EvOutcome e) (EvRequestID e) (EvTaskID e) (EvMessageID e)
    (EvTopic e) (EvPartition e) (EvOffset e) attempts pending.

Definition base_letter (m : kafka_message) (first : Z) : DeadLetter :=
  MkDeadLetter (Topic m) (to_int32 (Partition m)) (format_int (Offset m)) "" None None ""
    (Time first 0) zero_time "" (base64_std_encode (Key m)).
Definition raw_letter (m : kafka_message) (first : Z) (reason : string) : DeadLetter :=
  let b := base_letter m first in
  MkDeadLetter (SourceTopic b) (SourcePartition b) (SourceOffset b) reason None None
    (base64_std_encode (Value m)) (FirstAttemptAt b) (LastAttemptAt b) "" (SourceKeyBase64 b).
Definition unresolved_letter (m : kafka_message) (first : Z) (task : im.PushTask) (pending : list string)
  : DeadLetter :=
  let b := base_letter m first in
  MkDeadLetter (SourceTopic b) (SourcePartition b) (SourceOffset b) "unresolved" (Some task)
    (match pending with [] => None | _ => Some pending end) ""
    (FirstAttemptAt b) (LastAttemptAt b) (base64_std_encode (Value m)) (SourceKeyBase64 b).
Definition set_last_attempt (t : Z) (d : DeadLetter) : DeadLetter :=
  MkDeadLetter (SourceTopic d) (SourcePartition d) (SourceOffset d) (DeadReason d) (DeadTask d)
    (DeadPending d) (RawPayloadBase64 d) (FirstAttemptAt d) (Time t 0)
    (OriginalPayloadBase64 d) (SourceKeyBase64 d).

Definition count_outcome (v : RecipientResult) : M unit :=
  add (match outcome v with
       | Offline => NOffline | Enqueued => NEnqueued | Duplicate => NDuplicate | Unresolved => NUnresolved
       end) 1.
Definition count_result (res : Result) : M unit :=
  add NProcessed 1;;
  when (1 <? Attempts res) (add NRetries (Attempts res - 1));;
  for_each count_outcome (ResultRecipients res).

Definition run_conflict (task : im.PushTask) : M bool := λ s,
  let '(b, c) := conflict task (consumer s) in (b, ConsumerState (c_world s) (steps s) c).

(** The pending users a dead letter names: an error without pending users is charged to
    the replay subset, or to all recipients. *)
Definition dead_pending (task : im.PushTask) (res : Result) : list string :=
  match PendingRecipients res with
  | [] => default (im.Recipients task) (im.PendingRecipients task)
  | pending => pending
  end.

(** The outcome of a record before it is acknowledged: the loop returns, or the record is
    settled with or without a dead letter. *)
Inductive settlement : Type :=
| Interrupted (e : run_error) | Settled (dead : option DeadLetter) (event : ConsumerEvent).

Definition reject (m : kafka_message) (first : Z) (event : ConsumerEvent) (conflicting : bool) : M settlement :=
  let reason := if conflicting then "immutable_task_conflict" else "invalid_task" in
  add NInvalid 1;;
  when conflicting (add NConflicts 1);;
  emit event "process" reason;;
  mret (Settled (Some (raw_letter m first reason)) event).

Definition process_record (m : kafka_message) (first : Z) (task : im.PushTask) (event : ConsumerEvent)
  : M settlement :=
  '(res, err) ← act (ce_process env (Value m)) (λ r, CProcess (Value m) r.1 r.2);
  e ← ctx_error;
  let event := with_result event (Attempts res) (slen (PendingRecipients res)) in
  match e with
  | Some e => emit event "process" "interrupted";; mret (Interrupted (RunContext e))
  | None =>
    count_result res;;
    if bool_decide (err ≠ None) || negb (bool_decide (PendingRecipients res = [])) then
      let dead := unresolved_letter m first task (dead_pending task res) in
      let event := with_result event (Attempts res) (slen (default [] (DeadPending dead))) in
      emit event "process" "unresolved";;
      mret (Settled (Some dead) event)
    else
      emit event "process" "terminal";;
      mret (Settled None event)
  end.

Definition settle (m : kafka_message) (first : Z) : M settlement :=
  match DecodeTask (Value m) with
  | Err _ => reject m first (event_of m None) false
  | Ok task =>
    b ← run_conflict task;
    if b : bool then reject m first (event_of m (Some task)) true
    else process_record m first task (event_of m (Some task))
  end.

(** A dead letter is written before the record is committed. *)
Definition write_dead (dead : option DeadLetter) (event : ConsumerEvent) : M (option run_error) :=
  match dead with
  | None => mret None
  | Some d =>
    now ← act (ce_now env) CNow;
    let d := set_last_attempt now d in
    err ← ack (act (ce_write env d) (CWrite d)) true;
    match err with
    | Some e => emit event "dlq" "blocked";; mret (Some e)
    | None => emit event "dlq" "acknowledged";; add NDLQ 1;; mret None
    end
  end.
Definition commit (m : kafka_message) (event : ConsumerEvent) : M (option run_error) :=
  err ← ack (act (ce_commit env m) (CCommit m)) false;
  match err with
  | Some e => emit event "commit" "blocked";; mret (Some e)
  | None => emit event "commit" "acknowledged";; add NCommitted 1;; mret None
  end.

(** One turn of the loop; [None] continues it. *)
Definition turn : M (option run_error) :=
  e ← ctx_error;
  match e with
  | Some e => mret (Some (RunContext e))
  | None =>
    f ← act (ce_fetch env) CFetch;
    match f with
    | None => mret (Some RunFetch)
    | Some m =>
      first ← act (ce_now env) CNow;
      r ← settle m first;
      match r with
      | Interrupted e => mret (Some e)
      | Settled dead event =>
        e ← ctx_error;
        match e with
        | Some e => mret (Some (RunContext e))
        | None =>
          act (λ w, (tt, ce_processed env m w)) (λ _, CProcessed m);;
          err ← write_dead dead event;
          match err with
          | Some e => mret (Some e)
          | None => commit m event
          end
        end
      end
    end
  end.

(** [n] turns at most. *)
Fixpoint RunPartition (n : nat) : M (option run_error) :=
  match n with
  | O => mret None
  | S n' => r ← turn; match r with Some e => mret (Some e) | None => RunPartition n' end
  end.
End Consumer.
