(* ===== verification/JobConsumerProofs.v ===== *)
(** * The consumer never loses a record

    The ring of recent identities implements a bounded queue; a record is committed only
    after it was settled, and the next one is fetched only after that commit. *)
From S2P Require Import Prelude GoStd GoTime External Dto JobTask JobProcessor JobConsumer Samples.
Local Open Scope Z_scope.

(** ** The ring of identities *)

(** The abstract memory: the most recent ids with their digests, oldest first. *)
Definition memory : Type := list (string * list Z).
Definition recall (id : string) (m : memory) : option (list Z) :=
  snd <$> find (λ x, bool_decide (x.1 = id)) m.
Definition remembered (cap : Z) (id : string) (digest : list Z) (m : memory) : memory :=
  (if slen m <? cap then m else drop 1 m) ++ [(id, digest)].
Definition spec_conflict (cap : Z) (id : string) (digest : list Z) (m : memory) : bool * memory :=
  match recall id m with
  | Some old => (bool_decide (old ≠ digest), m)
  | None => (false, remembered cap id digest m)
  end.

Record ring_ok (c : Consumer) : Prop := RingOk {
  ring_nodup : NoDup (order c);
  ring_dom : ∀ id, is_Some (identities c !! id) ↔ id ∈ order c;
  ring_capacity : 1 ≤ IdentityCapacity (options c);
  ring_size : slen (order c) ≤ IdentityCapacity (options c);
  ring_next : if slen (order c) <? IdentityCapacity (options c) then next c = 0
              else 0 ≤ next c < slen (order c)
}.
Definition entry (c : Consumer) (id : string) : string * list Z := (id, default [] (identities c !! id)).
Definition abstract (c : Consumer) : memory :=
  let n := Z.to_nat (next c) in entry c <$> drop n (order c) ++ take n (order c).

Lemma recall_fmap (f : string → list Z) id l :
  recall id ((λ i, (i, f i)) <$> l) = if decide (id ∈ l) then Some (f id) else None.
Proof.
  unfold recall. induction l as [|x l IH]; cbn; [done|].
  case_bool_decide as Hx; cbn in Hx.
  - subst x. rewrite decide_True by set_solver. done.
  - rewrite IH. destruct (decide (id ∈ l)); [rewrite decide_True by set_solver|rewrite decide_False by set_solver]; done.
Qed.

Lemma elem_of_rotation {A} n (l : list A) x : x ∈ drop n l ++ take n l ↔ x ∈ l.
Proof. rewrite <-(take_drop n l) at 3. rewrite !elem_of_app. tauto. Qed.

Lemma recall_abstract c id : ring_ok c → recall id (abstract c) = identities c !! id.
Proof.
  intros [_ Hdom _ _ _]. unfold abstract, entry. rewrite recall_fmap. specialize (Hdom id).
  destruct (identities c !! id) as [d|]; cbn.
  - rewrite decide_True; [done|]. by apply elem_of_rotation, Hdom.
  - rewrite decide_False; [done|]. rewrite elem_of_rotation, <-Hdom. by intros [? ?].
Qed.

Lemma length_abstract c : slen (abstract c) = slen (order c).
Proof. unfold abstract, slen. rewrite length_fmap, length_app, length_drop, length_take. lia. Qed.

(** Replacing the element at [next] of a full ring and advancing [next] drops the oldest
    element and adds the new one at the end. *)
Lemma ring_advance (A B : list string) (id : string) :
  let l := A ++ id :: B in
  let n := Z.to_nat ((slen A + 1) mod slen l) in
  drop n l ++ take n l = B ++ A ++ [id].
Proof.
  intros l n. assert (l = (A ++ [id]) ++ B) as Hl by (unfold l; by rewrite <-app_assoc).
  destruct B as [|b B].
  - assert (n = 0%nat) as ->.
    { unfold n, l, slen. rewrite length_app. cbn.
      replace (Z.of_nat (length A + 1)) with (Z.of_nat (length A) + 1) by lia. rewrite Z_mod_same_full. done. }
    rewrite drop_0, Hl. cbn. by rewrite !app_nil_r.
  - assert (n = length (A ++ [id])) as ->.
    { unfold n, l, slen. rewrite !length_app. cbn. rewrite Z.mod_small by lia. lia. }
    by rewrite Hl, drop_app_length, take_app_length.
Qed.

Lemma remember_grow c id digest :
  ring_ok c → identities c !! id = None → slen (order c) < IdentityCapacity (options c) →
  ring_ok (remember id digest c) ∧ abstract (remember id digest c) = abstract c ++ [(id, digest)].
Proof.
  intros [Hnd Hdom Hcap Hsize Hnext] Hnew Hlt. apply Z.ltb_lt in Hlt.
  assert (id ∉ order c) as Hid by (rewrite <-Hdom, Hnew; by intros [? ?]).
  unfold remember. rewrite Hlt in *. split.
  - constructor; cbn; [|..|done| |].
    + apply NoDup_app. split_and!; [done|set_solver|apply NoDup_singleton].
    + intros i. rewrite elem_of_app, list_elem_of_singleton, <-Hdom.
      destruct (decide (id = i)) as [<-|?]; [rewrite lookup_insert_eq|rewrite lookup_insert_ne by done];
        naive_solver.
    + rewrite slen_app, slen_cons, slen_nil. lia.
    + rewrite Hnext, slen_app, slen_cons, slen_nil. pose proof (slen_nonneg (order c)). case_match; lia.
  - unfold abstract. cbn. rewrite Hnext. cbn. rewrite !drop_0, !app_nil_r, fmap_app. f_equal.
    + apply list_fmap_ext. intros ? i Hi. unfold entry. cbn. rewrite lookup_insert_ne; [done|].
      intros ->. apply Hid. by eapply list_elem_of_lookup_2.
    + unfold entry. cbn. by rewrite lookup_insert_eq.
Qed.

Lemma remember_replace c id digest :
  ring_ok c → identities c !! id = None → IdentityCapacity (options c) ≤ slen (order c) →
  ring_ok (remember id digest c) ∧ abstract (remember id digest c) = drop 1 (abstract c) ++ [(id, digest)].
Proof.
  intros [Hnd Hdom Hcap Hsize Hnext] Hnew Hge. apply Z.ltb_ge in Hge.
  assert (id ∉ order c) as Hid by (rewrite <-Hdom, Hnew; by intros [? ?]).
  unfold remember, abstract. rewrite Hge in *. cbn. set (n := Z.to_nat (next c)).
  assert (n < length (order c))%nat as Hn by (unfold slen, n in *; lia).
  apply lookup_lt_is_Some_2 in Hn as [x Hx]. rewrite Hx.
  pose proof (take_drop_middle _ _ _ Hx) as Hsplit.
  assert (length (take n (order c)) = n) as HA by (rewrite length_take; apply lookup_lt_Some in Hx; lia).
  assert (drop n (order c) = x :: drop (S n) (order c)) as Hdrop by (by apply drop_S).
  rewrite Hdrop. set (A := take n (order c)) in *. set (B := drop (S n) (order c)) in *.
  assert (<[n := id]> (order c) = A ++ id :: B) as Hins.
  { rewrite <-Hsplit, <-HA. by rewrite insert_app_r_alt, Nat.sub_diag by lia. }
  assert (next c = slen A) as HnA by (unfold slen; rewrite HA; unfold n; lia).
  assert (slen (order c) = slen (A ++ id :: B)) as Hlen.
  { rewrite <-Hsplit. unfold slen. by rewrite !length_app. }
  rewrite Hins, HnA, Hlen, ring_advance. rewrite <-Hsplit in Hnd, Hid, Hdom.
  apply NoDup_app in Hnd as (HndA&HAB&HndB). apply NoDup_cons in HndB as [HxB HndB].
  assert (∀ i, i ∈ B ++ A → i ≠ x ∧ i ≠ id) as Hold by set_solver.
  split.
  - constructor; cbn; [..|done| |].
    + apply NoDup_app. split_and!; [done|set_solver|]. constructor; set_solver.
    + intros i. specialize (Hdom i). destruct (decide (id = i)) as [<-|?]; [rewrite lookup_insert_eq; set_solver|].
      rewrite lookup_insert_ne by done. destruct (decide (x = i)) as [<-|?].
      * rewrite lookup_delete_eq. split; [by intros [? ?]|set_solver].
      * rewrite lookup_delete_ne by done. rewrite Hdom. set_solver.
    + lia.
    + rewrite <-Hlen, Hge. unfold slen in *. apply Z.mod_pos_bound. lia.
  - cbn. rewrite drop_0, app_assoc, fmap_app. f_equal.
    + apply list_fmap_ext. intros ? i Hi. apply list_elem_of_lookup_2 in Hi. destruct (Hold i Hi).
      unfold entry. cbn. by rewrite lookup_insert_ne, lookup_delete_ne.
    + unfold entry. cbn. by rewrite lookup_insert_eq.
Qed.

(** [conflict] on the ring implements the bounded queue: it answers whether the id is
    among the most recent ones with another digest, remembers a new id in place of the
    oldest one when the queue is full, and keeps the ring well formed. *)
Theorem conflict_refines c t :
  ring_ok c →
  let '(b, c') := conflict t c in
  ring_ok c' ∧ options c' = options c ∧
  (b, abstract c') = spec_conflict (IdentityCapacity (options c)) (im.TaskID t) (ImmutableDigest t) (abstract c).
Proof.
  intros Hok. unfold conflict, spec_conflict. rewrite recall_abstract by done.
  destruct (identities c !! im.TaskID t) as [old|] eqn:Hold; [done|].
  unfold remembered. rewrite length_abstract.
  destruct (Z.ltb_spec (slen (order c)) (IdentityCapacity (options c))).
  - destruct (remember_grow c (im.TaskID t) (ImmutableDigest t)) as [? ->]; [done..|].
    split_and!; [done| |done]. unfold remember. by destruct (_ <? _).
  - destruct (remember_replace c (im.TaskID t) (ImmutableDigest t)) as [? ->]; [done..|].
    split_and!; [done| |done]. unfold remember. by destruct (_ <? _).
Qed.

Lemma NewConsumer_ring_ok o : ring_ok (NewConsumer o).
Proof.
  unfold NewConsumer. constructor; cbn; [constructor| | |..].
  - intros id. rewrite lookup_empty. split; [by intros [? ?]|by intros ?%not_elem_of_nil].
  - destruct ((_ <? 1) || _) eqn:Hc; [done|]. apply orb_false_iff in Hc as [?%Z.ltb_ge _]. done.
  - destruct ((_ <? 1) || _) eqn:Hc; [done|]. apply orb_false_iff in Hc as [?%Z.ltb_ge _]. unfold slen; cbn; lia.
  - destruct ((_ <? 1) || _) eqn:Hc; [done|]. apply orb_false_iff in Hc as [?%Z.ltb_ge _].
    unfold slen; cbn. destruct (Z.ltb_spec (Z.of_nat 0) (IdentityCapacity o)); [done|lia].
Qed.

Lemma conflict_refines_witness :
  ring_ok (NewConsumer (MkConsumerOptions 3 0 4)) ∧
  let '(b, c') := conflict (decoded plain_task) (NewConsumer (MkConsumerOptions 3 0 4)) in
  ring_ok c' ∧ options c' = options (NewConsumer (MkConsumerOptions 3 0 4)) ∧
  (b, abstract c') = spec_conflict 4 (im.TaskID (decoded plain_task))
    (ImmutableDigest (decoded plain_task)) (abstract (NewConsumer (MkConsumerOptions 3 0 4))).
Proof.
  split; [apply NewConsumer_ring_ok|].
  apply (conflict_refines (NewConsumer (MkConsumerOptions 3 0 4)) (decoded plain_task)).
  apply NewConsumer_ring_ok.
Defined.

(** ** Acknowledgement *)

Section Turn.
Context `{External} {W : Type} (env : consumer_env W).

(** [s'] comes after [s] with the further steps [t] and [d] more blocked calls; the
    options are the same. *)
Definition after (t : list consumer_step) (d : Z) (s s' : consumer_state W) : Prop :=
  steps s' = steps s ++ t ∧ options (consumer s') = options (consumer s)
  ∧ blocked (consumer s') = blocked (consumer s) + d.

Lemma after_refl s : after [] 0 s s.
Proof. split_and!; [by rewrite app_nil_r|done|lia]. Qed.
Lemma after_trans t1 t2 d1 d2 s1 s2 s3 : after t1 d1 s1 s2 → after t2 d2 s2 s3 → after (t1 ++ t2) (d1 + d2) s1 s3.
Proof.
  intros (Ht1&Ho1&Hb1) (Ht2&Ho2&Hb2). split_and!; [by rewrite Ht2, Ht1, app_assoc|congruence|lia].
Qed.

Lemma act_ok {A} (f : W → A * W) ev s : wp (act f ev) (λ a s', after [ev a] 0 s s') s.
Proof. unfold wp, act. destruct (f (c_world s)). split_and!; cbn; [done..|lia]. Qed.
Lemma emit_ok e stage outcome s :
  wp (emit e stage outcome) (λ _ s', ∃ ev, after [CEmit ev] 0 s s') s.
Proof. unfold emit. eapply wp_mono; [apply act_ok|]. intros [] s' ?. eauto. Qed.
Lemma add_ok c n s : wp (add c n) (λ _ s', after [] 0 s s') s.
Proof. split_and!; cbn; [by rewrite app_nil_r|done|lia]. Qed.
Lemma blocked_ok d s : wp (on_consumer (λ c, set_blocked (blocked c + d) c)) (λ _ s', after [] d s s') s.
Proof. split_and!; cbn; [by rewrite app_nil_r|done|lia]. Qed.

(** A step that is not an attempt of the acknowledgement. *)
Definition waiting (e : consumer_step) : Prop := match e with CCtxErr _ | CPause _ _ => True | _ => False end.

(** The steps of an acknowledgement of at most [n] attempts [ev]: failed attempts and
    waits, then a successful attempt when it succeeds. *)
Inductive ack_steps (ev : bool → consumer_step) : nat → list consumer_step → bool → Prop :=
| ack_gave_up n : ack_steps ev n [] false
| ack_wait n e t ok : waiting e → ack_steps ev n t ok → ack_steps ev n (e :: t) ok
| ack_succeeded n : ack_steps ev (S n) [ev true] true
| ack_failed n t ok : ack_steps ev n t ok → ack_steps ev (S n) (ev false :: t) ok.

Definition succeeded (r : option run_error) : bool := match r with None => true | Some _ => false end.
Definition ack_post (ev : bool → consumer_step) (n : nat) (was : bool) (s : consumer_state W)
    (r : option run_error) (was' : bool) (s' : consumer_state W) : Prop :=
  ∃ t, after t (if was then 0 else if was' then 1 else 0) s s'
       ∧ (was = true → was' = true) ∧ ack_steps ev n t (succeeded r).

Lemma ack_from_ok f ev n attempt dlq was s :
  wp (ack_from env n attempt (act f ev) dlq was) (λ '(r, was') s', ack_post ev n was s r was' s') s.
Proof.
  revert attempt was s. induction n as [|n IH]; intros attempt was s; cbn [ack_from].
  { wp_steps. exists []. split_and!; [|done|constructor]. destruct was; apply after_refl. }
  wp_apply act_ok. intros e s1 Ha1. destruct e as [e|].
  { wp_steps. exists [CCtxErr (Some e)]. split_and!; [by destruct was|done|]. by repeat constructor. }
  wp_apply act_ok. intros [] s2 Ha2.
  { wp_steps. pose proof (after_trans _ _ _ _ _ _ _ Ha1 Ha2) as Ha. exists [CCtxErr None; ev true].
    split_and!; [by destruct was|done|]. apply ack_wait; [done|]. apply ack_succeeded. }
  wp_apply add_ok. intros [] s3 Ha3.
  apply wp_bind.
  eapply (wp_mono _ (λ _ s4, after [CCtxErr None; ev false] (if was then 0 else 1) s s4)).
  { pose proof (after_trans _ _ _ _ _ _ _ (after_trans _ _ _ _ _ _ _ Ha1 Ha2) Ha3) as Ha.
    apply wp_when; destruct was; try done; intros _.
    eapply wp_mono; [apply blocked_ok|]. intros [] s4 Hb. exact (after_trans _ _ _ _ _ _ _ Ha Hb). }
  intros [] s4 Ha4. apply wp_bind, wp_gets.
  assert (∀ t s5, after t 0 s4 s5 → Forall waiting t →
    wp (ack_from env n (attempt + 1) (act f ev) dlq true)
       (λ '(r, was') s', ack_post ev (S n) was s r was' s') s5) as Hrest.
  { intros t s5 Ha5 Hw. eapply wp_mono; [apply IH|]. intros [r was'] s6 (t'&Ha6&Hwas&Hack).
    pose proof (after_trans _ _ _ _ _ _ _ (after_trans _ _ _ _ _ _ _ Ha4 Ha5) Ha6) as Ha.
    destruct was'; [|discriminate (Hwas eq_refl)]. rewrite !Z.add_0_r in Ha.
    exists ([CCtxErr None; ev false] ++ t ++ t'). split_and!; [by rewrite app_assoc; destruct was|done|].
    cbn. apply ack_wait; [done|]. apply ack_failed.
    clear -Hw Hack. induction Hw; [done|]. by apply ack_wait. }
  destruct (_ <? _).
  2:{ eapply Hrest; [apply after_refl|done]. }
  wp_apply add_ok. intros [] s5 Ha5. apply wp_bind, wp_gets.
  wp_apply act_ok. intros e s6 Ha6.
  pose proof (after_trans _ _ _ _ _ _ _ Ha5 Ha6) as Ha. destruct e as [e|].
  - wp_steps. exists ([CCtxErr None; ev false] ++ [CPause (OptRetryDelay (options (consumer s5))) (Some e)]).
    split_and!; [|done|].
    + pose proof (after_trans _ _ _ _ _ _ _ Ha4 Ha) as Hb. rewrite Z.add_0_r in Hb. by destruct was.
    + cbn. apply ack_wait; [done|]. apply ack_failed. by repeat constructor.
  - eapply Hrest; [exact Ha|]. by repeat constructor.
Qed.

Definition attempts_of (s : consumer_state W) : nat := Z.to_nat (OptAttempts (options (consumer s))).

Lemma ack_ok f ev dlq s :
  wp (ack env (act f ev) dlq) (λ r s', ∃ t, after t 0 s s' ∧ ack_steps ev (attempts_of s) t (succeeded r)) s.
Proof.
  unfold ack. apply wp_bind, wp_gets. wp_apply ack_from_ok. intros [r was] s1 (t&Ha&_&Hack).
  apply wp_bind. eapply (wp_mono _ (λ _ s2, after t 0 s s2)); [|intros [] s2 ?; wp_steps; eauto].
  apply wp_when; intros ->; [|done]. destruct Ha as (?&?&?). split_and!; cbn; [done..|lia].
Qed.

Lemma ack_steps_inner ev n t ok e :
  ack_steps ev n t ok → e ∈ t → waiting e ∨ e = ev false ∨ (e = ev true ∧ ok = true).
Proof.
  induction 1; intros Hin.
  - by apply not_elem_of_nil in Hin.
  - apply elem_of_cons in Hin as [->|?]; auto.
  - apply list_elem_of_singleton in Hin. auto.
  - apply elem_of_cons in Hin as [->|?]; auto.
Qed.
Lemma ack_steps_success ev n t :
  ack_steps ev n t true → ∃ t', t = t' ++ [ev true] ∧ Forall (λ e, waiting e ∨ e = ev false) t'.
Proof.
  intros Ha. remember true as ok. induction Ha; try done.
  - destruct (IHHa Heqok) as (t'&->&?). exists (e :: t'). split; [done|]. constructor; auto.
  - exists []. by split; [|constructor].
  - destruct (IHHa Heqok) as (t'&->&?). exists (ev false :: t'). split; [done|]. constructor; auto.
Qed.
(** There are at most [n] attempts. *)
Lemma ack_steps_bound ev n t ok is_try :
  (∀ b, is_try (ev b) = true) → (∀ e, waiting e → is_try e = false) →
  ack_steps ev n t ok → (length (List.filter is_try t) ≤ n)%nat.
Proof.
  intros Hev Hw. induction 1 as [| |n0|n0]; cbn.
  - lia.
  - by rewrite Hw.
  - rewrite Hev. cbn. lia.
  - rewrite Hev. cbn. lia.
Qed.

(** ** One turn *)

(** Steps between the fetch of a record and the commit that ends its turn. *)
Definition inner (e : consumer_step) : Prop :=
  match e with CFetch _ | CCommit _ true => False | _ => True end.

(** A dead letter of the record: it names the record, and holds either its raw bytes when
    it is no acceptable task, or its task, its exact bytes and the users to serve. *)
Definition dead_for (m : kafka_message) (t : list consumer_step) (d : DeadLetter) : Prop :=
  SourceTopic d = Topic m ∧ SourcePartition d = to_int32 (Partition m) ∧ SourceOffset d = format_int (Offset m)
  ∧ SourceKeyBase64 d = base64_std_encode (Key m)
  ∧ ((((∃ e, DecodeTask (Value m) = Err e) ∧ DeadReason d = "invalid_task"
       ∨ (∃ task, DecodeTask (Value m) = Ok task) ∧ DeadReason d = "immutable_task_conflict")
      ∧ DeadTask d = None ∧ DeadPending d = None ∧ RawPayloadBase64 d = base64_std_encode (Value m))
     ∨ ∃ task res err, DecodeTask (Value m) = Ok task ∧ CProcess (Value m) res err ∈ t
         ∧ (err ≠ None ∨ PendingRecipients res ≠ [])
         ∧ DeadReason d = "unresolved" ∧ DeadTask d = Some task ∧ RawPayloadBase64 d = ""
         ∧ OriginalPayloadBase64 d = base64_std_encode (Value m)
         ∧ default [] (DeadPending d) = dead_pending task res).
(** The record was processed without error and without pending users. *)
Definition served (m : kafka_message) (t : list consumer_step) : Prop :=
  ∃ task res, DecodeTask (Value m) = Ok task ∧ CProcess (Value m) res None ∈ t ∧ PendingRecipients res = [].
Definition handled (m : kafka_message) (t : list consumer_step) : Prop :=
  served m t ∨ ∃ d, dead_for m t d ∧ CWrite d true ∈ t.

Lemma dead_for_app m t t' d : dead_for m t d → dead_for m (t ++ t') d.
Proof. intros (?&?&?&?&[?|(task&res&err&?&?&?)]); split_and!; try done; [by left|right]. exists task, res, err. set_solver. Qed.
Lemma served_app m t t' : served m t → served m (t ++ t').
Proof. intros (task&res&?&?&?). exists task, res. set_solver. Qed.

Lemma count_result_ok res s : wp (count_result res) (λ _ s', after [] 0 s s') s.
Proof.
  unfold count_result. wp_apply add_ok. intros _ s1 Ha1. apply wp_bind.
  eapply (wp_mono _ (λ _ s2, after [] 0 s s2)).
  { apply wp_when; [|done]. intros _. eapply wp_mono; [apply add_ok|].
    intros [] s2 Ha2. exact (after_trans _ _ _ _ _ _ _ Ha1 Ha2). }
  intros [] s2 Ha2. apply (wp_for_each (λ _ s', after [] 0 s s')); [|done].
  intros v l s3 Ha3. unfold count_outcome. eapply wp_mono; [apply add_ok|].
  intros [] s4 Ha4. exact (after_trans _ _ _ _ _ _ _ Ha3 Ha4).
Qed.

Definition settle_post (m : kafka_message) (s : consumer_state W) (r : settlement) (s' : consumer_state W) : Prop :=
  ∃ t, after t 0 s s' ∧ Forall inner t ∧
    match r with
    | Interrupted _ => True
    | Settled None _ => served m t
    | Settled (Some d) _ => dead_for m t d
    end.

Lemma settle_post_after m s s1 r s' t :
  after t 0 s s1 → Forall inner t →
  (∃ t', after t' 0 s1 s' ∧ Forall inner t' ∧
    match r with
    | Interrupted _ => True | Settled None _ => served m (t ++ t') | Settled (Some d) _ => dead_for m (t ++ t') d
    end) → settle_post m s r s'.
Proof.
  intros Ha Hi (t'&Ha'&Hi'&Hr). exists (t ++ t'). split_and!; [exact (after_trans _ _ _ _ _ _ _ Ha Ha')| |done].
  by apply Forall_app.
Qed.

Lemma reject_ok m first event (b : bool) s :
  (if b then ∃ task, DecodeTask (Value m) = Ok task else ∃ e, DecodeTask (Value m) = Err e) →
  wp (reject m first event b) (settle_post m s) s.
Proof.
  intros Hb. unfold reject. wp_apply add_ok. intros _ s1 Ha1. apply wp_bind.
  eapply (wp_mono _ (λ _ s2, after [] 0 s s2)).
  { apply wp_when; [|done]. intros _. eapply wp_mono; [apply add_ok|].
    intros [] s2 Ha2. exact (after_trans _ _ _ _ _ _ _ Ha1 Ha2). }
  intros [] s2 Ha2. wp_apply emit_ok. intros _ s3 (ev&Ha3). wp_steps.
  exists [CEmit ev]. split_and!; [exact (after_trans _ _ _ _ _ _ _ Ha2 Ha3)|by repeat constructor|].
  split_and!; try done. left. destruct b; split_and!; auto.
Qed.

Lemma process_record_ok m first task event s :
  DecodeTask (Value m) = Ok task →
  wp (process_record env m first task event) (settle_post m s) s.
Proof.
  intros Hd. unfold process_record. wp_apply act_ok. intros [res err] s1 Ha1.
  wp_apply act_ok. intros e s2 Ha2. pose proof (after_trans _ _ _ _ _ _ _ Ha1 Ha2) as Ha. clear Ha1 Ha2.
  cbn [fst snd app] in Ha. set (t := [CProcess (Value m) res err; CCtxErr e]) in Ha.
  assert (Forall inner t) as Hi by (by repeat constructor).
  destruct e as [e|].
  { wp_apply emit_ok. intros _ s3 (ev&Ha3). wp_steps. eapply settle_post_after; [done..|].
    exists [CEmit ev]. split_and!; [done|by repeat constructor|done]. }
  wp_apply count_result_ok. intros _ s3 Ha3. pose proof (after_trans _ _ _ _ _ _ _ Ha Ha3) as Ha'.
  rewrite app_nil_r in Ha'. destruct (bool_decide (err ≠ None) || _) eqn:Hdead.
  - wp_apply emit_ok. intros _ s4 (ev&Ha4). wp_steps. eapply settle_post_after; [done..|].
    exists [CEmit ev]. split_and!; [done|by repeat constructor|].
    split_and!; try done. right. exists task, res, err. split_and!; try done.
    + unfold t. set_solver.
    + apply orb_true_iff in Hdead as [?%bool_decide_eq_true|?%negb_true_iff%bool_decide_eq_false]; [by left|by right].
    + unfold unresolved_letter. cbn. by destruct (dead_pending task res).
  - wp_apply emit_ok. intros _ s4 (ev&Ha4). wp_steps. eapply settle_post_after; [done..|].
    exists [CEmit ev]. split_and!; [done|by repeat constructor|].
    apply orb_false_iff in Hdead as [He Hp]. apply bool_decide_eq_false, dec_stable in He.
    apply negb_false_iff, bool_decide_eq_true in Hp. exists task, res. split_and!; try done.
    unfold t. rewrite He. set_solver.
Qed.

Lemma settle_ok m first s : wp (settle env m first) (settle_post m s) s.
Proof.
  unfold settle. destruct (DecodeTask (Value m)) as [task|e] eqn:Hd.
  2:{ apply reject_ok. eauto. }
  apply wp_bind. eapply (wp_mono _ (λ _ s1, after [] 0 s s1)).
  { unfold wp, run_conflict, conflict. destruct (identities _ !! _); cbn; [split_and!; cbn; [by rewrite app_nil_r|done|lia]|].
    split_and!; cbn; [by rewrite app_nil_r|by unfold remember; destruct (_ <? _)|].
    rewrite Z.add_0_r. unfold remember. by destruct (_ <? _). }
  intros b s1 Ha. eapply (wp_mono _ (settle_post m s1)).
  - destruct b; [apply reject_ok; eauto|by apply process_record_ok].
  - intros r s2 (t&Ha2&?&?). exists t. split_and!; [exact (after_trans _ _ _ _ _ _ _ Ha Ha2)|done..].
Qed.

Lemma ack_steps_inner_write d n t ok : ack_steps (CWrite d) n t ok → Forall inner t.
Proof.
  intros Ha. apply Forall_forall. intros e He.
  destruct (ack_steps_inner _ _ _ _ _ Ha He) as [Hw|[->|[-> _]]]; [by destruct e|done..].
Qed.

(** The last-attempt time is no part of what a dead letter must hold. *)
Lemma dead_for_last_attempt m t d now : dead_for m t d → dead_for m t (set_last_attempt now d).
Proof. intros (?&?&?&?&[?|?]); split_and!; cbn; auto. Qed.

Lemma write_dead_ok dead event s :
  wp (write_dead env dead event)
     (λ r s', ∃ t, after t 0 s s' ∧ Forall inner t ∧
        match dead with
        | Some d => r = None → ∃ now, CWrite (set_last_attempt now d) true ∈ t
        | None => r = None
        end) s.
Proof.
  unfold write_dead. destruct dead as [d|]; [|wp_steps; exists []; split_and!; [apply after_refl|constructor|done]].
  wp_apply act_ok. intros now s1 Ha1. wp_apply ack_ok. intros r s2 (t&Ha2&Hack).
  pose proof (after_trans _ _ _ _ _ _ _ Ha1 Ha2) as Ha. cbn [app] in Ha.
  assert (Forall inner (CNow now :: t)) as Hi by (constructor; [done|by eapply ack_steps_inner_write]).
  destruct r as [e|].
  - wp_apply emit_ok. intros _ s3 (ev&Ha3). wp_steps. exists ((CNow now :: t) ++ [CEmit ev]).
    split_and!; [exact (after_trans _ _ _ _ _ _ _ Ha Ha3)| |done]. apply Forall_app; split; [done|by repeat constructor].
  - wp_apply emit_ok. intros _ s3 (ev&Ha3). wp_apply add_ok. intros _ s4 Ha4. wp_steps.
    exists ((CNow now :: t) ++ [CEmit ev]). split_and!.
    + pose proof (after_trans _ _ _ _ _ _ _ (after_trans _ _ _ _ _ _ _ Ha Ha3) Ha4) as Hb.
      by rewrite app_nil_r in Hb.
    + apply Forall_app; split; [done|by repeat constructor].
    + intros _. apply ack_steps_success in Hack as (t'&->&_). exists now. set_solver.
Qed.

Lemma commit_ok m event s :
  wp (commit env m event)
     (λ r s', ∃ t, after t 0 s s' ∧
        match r with
        | None => ∃ t' ev, t = t' ++ [CCommit m true; CEmit ev] ∧ Forall inner t'
        | Some _ => Forall inner t
        end) s.
Proof.
  unfold commit. wp_apply ack_ok. intros r s1 (t&Ha1&Hack). destruct r as [e|].
  - wp_apply emit_ok. intros _ s2 (ev&Ha2). wp_steps. exists (t ++ [CEmit ev]).
    split; [exact (after_trans _ _ _ _ _ _ _ Ha1 Ha2)|]. apply Forall_app. split; [|by repeat constructor].
    apply Forall_forall. intros x Hx.
    destruct (ack_steps_inner _ _ _ _ _ Hack Hx) as [Hw|[->|[_ ?]]]; [by destruct x|done..].
  - wp_apply emit_ok. intros _ s2 (ev&Ha2). wp_apply add_ok. intros _ s3 Ha3. wp_steps.
    exists (t ++ [CEmit ev]). split.
    + pose proof (after_trans _ _ _ _ _ _ _ (after_trans _ _ _ _ _ _ _ Ha1 Ha2) Ha3) as Hb.
      by rewrite app_nil_r in Hb.
    + apply ack_steps_success in Hack as (t'&->&Hw). exists t', ev. rewrite <-app_assoc. split; [done|].
      eapply Forall_impl; [exact Hw|]. intros x [Hx| ->]; [by destruct x|done].
Qed.

(** The steps of a turn that ended with the commit of its record, and of a turn that
    returned an error: it fetched one record at most and committed nothing. *)
Definition acknowledged (t : list consumer_step) : Prop :=
  ∃ m t' ev, t = CCtxErr None :: CFetch (Some m) :: t' ++ [CCommit m true; CEmit ev]
             ∧ Forall inner t' ∧ handled m t'.
Definition stopped_turn (t : list consumer_step) : Prop :=
  (∃ e, t = [CCtxErr (Some e)]) ∨ ∃ f t', t = CCtxErr None :: CFetch f :: t' ∧ Forall inner t'.

Definition turn_post (s : consumer_state W) (r : option run_error) (s' : consumer_state W) : Prop :=
  ∃ t, after t 0 s s' ∧ match r with None => acknowledged t | Some _ => stopped_turn t end.

Lemma turn_ok s : wp (turn env) (turn_post s) s.
Proof.
  unfold turn. wp_apply act_ok. intros e s1 Ha1. destruct e as [e|].
  { wp_steps. exists [CCtxErr (Some e)]. split; [done|]. left. eauto. }
  wp_apply act_ok. intros f s2 Ha2. pose proof (after_trans _ _ _ _ _ _ _ Ha1 Ha2) as Ha. clear Ha1 Ha2.
  cbn [app] in Ha. destruct f as [m|].
  2:{ wp_steps. exists [CCtxErr None; CFetch None]. split; [done|]. right. exists None, []. by split; [|constructor]. }
  assert (∀ t s', after t 0 s2 s' → Forall inner t → ∀ e, turn_post s (Some e) s') as Hstop.
  { intros t s' Ht Hin e. exists ([CCtxErr None; CFetch (Some m)] ++ t).
    split; [exact (after_trans _ _ _ _ _ _ _ Ha Ht)|]. right. by exists (Some m), t. }
  wp_apply act_ok. intros first s3 Ha3. wp_apply settle_ok. intros r s4 (t4&Ha4&Hi4&Hr).
  pose proof (after_trans _ _ _ _ _ _ _ Ha3 Ha4) as Hb. clear Ha3 Ha4. cbn [app] in Hb.
  assert (Forall inner (CNow first :: t4)) as Hib by (by constructor).
  destruct r as [e|dead event]; [wp_steps; by eapply Hstop|].
  wp_apply act_ok. intros e s5 Ha5. pose proof (after_trans _ _ _ _ _ _ _ Hb Ha5) as Hc. clear Hb Ha5.
  destruct e as [e|].
  { wp_steps. eapply Hstop; [exact Hc|]. apply Forall_app; split; [done|by repeat constructor]. }
  wp_apply act_ok. intros _ s6 Ha6. pose proof (after_trans _ _ _ _ _ _ _ Hc Ha6) as Hd. clear Hc Ha6.
  rewrite <-app_assoc in Hd. cbn [app] in Hd.
  wp_apply write_dead_ok. intros r s7 (t7&Ha7&Hi7&Hw).
  pose proof (after_trans _ _ _ _ _ _ _ Hd Ha7) as He. clear Hd Ha7.
  set (t := (CNow first :: t4 ++ [CCtxErr None; CProcessed m]) ++ t7) in He.
  assert (Forall inner t) as Hit.
  { unfold t. apply Forall_app; split; [|done]. inversion Hib; subst. constructor; [done|].
    apply Forall_app; split; [done|by repeat constructor]. }
  destruct r as [e|]; [wp_steps; by eapply Hstop|].
  eapply wp_mono; [apply commit_ok|]. intros r s8 (t8&Ha8&Hr8).
  pose proof (after_trans _ _ _ _ _ _ _ He Ha8) as Hf. clear He Ha8.
  destruct r as [e|].
  { eapply Hstop; [exact Hf|]. by apply Forall_app. }
  destruct Hr8 as (t'&ev&->&Hi8). exists ([CCtxErr None; CFetch (Some m)] ++ t ++ t' ++ [CCommit m true; CEmit ev]).
  split; [exact (after_trans _ _ _ _ _ _ _ Ha Hf)|].
  exists m, (t ++ t'), ev. split_and!; [by cbn; rewrite app_assoc|by apply Forall_app|].
  assert (∀ x, x ∈ t4 → x ∈ t ++ t') as Hsub by (unfold t; set_solver).
  destruct dead as [d|].
  - right. destruct (Hw eq_refl) as [now Hin]. exists (set_last_attempt now d). split.
    + apply dead_for_last_attempt. destruct Hr as (?&?&?&?&[?|(task&res&err&?&?&?)]); split_and!; try done; [by left|right].
      exists task, res, err. split; [done|]. split; [by apply Hsub|done].
    + unfold t. set_solver.
  - left. destruct Hr as (task&res&?&?&?). exists task, res. split_and!; try done. by apply Hsub.
Qed.

(** C3: at-least-once consumption.  Whatever the source, the sink and the processor do, the
    steps of a run are a sequence of acknowledged turns and possibly one that stopped: a
    record is committed only after it was served or its dead letter was written, which
    holds its exact bytes and the users to serve, and the next record is fetched only
    after that commit.  A run that ends has an error and leaves the count of blocked
    partitions as it was. *)
Theorem RunPartition_at_least_once n s :
  let '(r, s') := RunPartition env n s in
  ∃ turns last,
    steps s' = steps s ++ mjoin turns ++ last ∧ Forall acknowledged turns
    ∧ blocked (consumer s') = blocked (consumer s)
    ∧ match r with
      | None => last = [] ∧ length turns = n
      | Some _ => stopped_turn last ∧ (length turns < n)%nat
      end.
Proof.
  revert s. induction n as [|n IH]; intros s; cbn [RunPartition].
  { exists [], []. cbn. by rewrite app_nil_r. }
  unfold mbind, ST_bind. pose proof (turn_ok s) as Ht. unfold wp in Ht.
  destruct (turn env s) as [r s1]. destruct Ht as (t&(Hs&_&Hb)&Hr). cbn [fst snd] in *.
  destruct r as [e|].
  { exists [], t. cbn. split_and!; [done|constructor|lia|done|lia]. }
  specialize (IH s1). destruct (RunPartition env n s1) as [r s2].
  destruct IH as (turns&last&Hs2&Hall&Hb2&Hr2). exists (t :: turns), last. cbn. split_and!.
  - by rewrite Hs2, Hs, <-!app_assoc.
  - by constructor.
  - lia.
  - destruct r; destruct Hr2; split; auto; lia.
Qed.

(** an acknowledgement makes as many attempts as the options say at most, succeeds only
    with its last attempt, and leaves the count of blocked partitions as it was. *)
Theorem ack_bounded f ev dlq s is_try :
  (∀ b, is_try (ev b) = true) → (∀ e, waiting e → is_try e = false) →
  let '(r, s') := ack env (act f ev) dlq s in
  ∃ t, steps s' = steps s ++ t ∧ blocked (consumer s') = blocked (consumer s)
       ∧ (length (List.filter is_try t) ≤ attempts_of s)%nat
       ∧ match r with
         | None => ∃ t', t = t' ++ [ev true] ∧ Forall (λ e, waiting e ∨ e = ev false) t'
         | Some _ => Forall (λ e, waiting e ∨ e = ev false) t
         end.
Proof.
  intros Hev Hw. pose proof (ack_ok f ev dlq s) as Ha. unfold wp in Ha.
  destruct (ack env (act f ev) dlq s) as [r s']. destruct Ha as (t&(Hs&_&Hb)&Hack). cbn [fst snd] in *.
  exists t. split_and!; [done|lia|by eapply ack_steps_bound|]. destruct r as [e|].
  - apply Forall_forall. intros x Hx. destruct (ack_steps_inner _ _ _ _ _ Hack Hx) as [?|[?|[_ ?]]]; [by left|by right|done].
  - by eapply ack_steps_success.
Qed.
End Turn.

(** ** Concrete runs *)

(** A source with one record whose first commit fails; the world counts the commits. *)
Definition sample_record : kafka_message := KafkaMessage "fable.push.v1" 0 7 "key" plain_task.
Definition sample_consumer_env : consumer_env (bool * nat) :=
  ConsumerEnv (bool * nat) (λ w, (None, w))
    (λ w, (if w.1 then Some sample_record else None, (false, w.2)))
    (λ w, (0, w)) (λ _ w, ((MkResult (decoded plain_task) [] 1, None), w)) (λ _ w, w)
    (λ _ w, (true, w)) (λ _ w, (bool_decide (0 < w.2)%nat, (w.1, S w.2))) (λ _ w, (None, w)).
Definition sample_consumer_state : consumer_state (bool * nat) :=
  ConsumerState (true, 0%nat) [] (NewConsumer (MkConsumerOptions 3 0 0)).
Definition is_commit (e : consumer_step) : bool := match e with CCommit _ _ => true | _ => false end.

Lemma ack_bounded_witness :
  let '(r, s') := ack sample_consumer_env
    (act (ce_commit sample_consumer_env sample_record) (CCommit sample_record)) false sample_consumer_state in
  (r = None ∧ length (List.filter is_commit (steps s')) = 2%nat) ∧
  ∃ t, steps s' = steps sample_consumer_state ++ t ∧ blocked (consumer s') = 0
       ∧ (length (List.filter is_commit t) ≤ 3)%nat
       ∧ match r with
         | None => ∃ t', t = t' ++ [CCommit sample_record true] ∧ Forall (λ e, waiting e ∨ e = CCommit sample_record false) t'
         | Some _ => Forall (λ e, waiting e ∨ e = CCommit sample_record false) t
         end.
Proof.
  assert (∀ e, waiting e → is_commit e = false) as Hw by (intros [] He; done).
  pose proof (ack_bounded sample_consumer_env (ce_commit sample_consumer_env sample_record)
                (CCommit sample_record) false sample_consumer_state is_commit (λ b, eq_refl) Hw) as Hack.
  set (run := ack _ _ _ _) in *.
  assert (run.1 = None ∧ length (List.filter is_commit (steps run.2)) = 2%nat) as Hrun by (vm_compute; done).
  destruct run as [r s']. split; [exact Hrun|exact Hack].
Defined.
