(* ===== verification/JobReplay.v ===== *)
(** * Replaying dead letters: [internal/job/replay.go] and [internal/job/app/replay.go]

    Decoding a dead-letter record, turning it into a replay task, and selecting a range
    of dead letters.  Errors are single, so a failure is [None]. *)
From S2P Require Import Prelude GoStd GoTime External Json Dto JobTask JsonPrint JobConsumer.
Local Open Scope Z_scope.

Definition zero_letter : DeadLetter :=
  MkDeadLetter "" 0 "" "" None None "" zero_time zero_time "" "".

(** The members of the envelope; an unknown one is an error. *)
Definition letter_field (d : DeadLetter) (key : string) (v : json) : option DeadLetter :=
  let '(MkDeadLetter topic part off reason task pend rawp first last orig skey) := d in
  if names key "source_topic" then x ← decode_string topic v; Some (MkDeadLetter x part off reason task pend rawp first last orig skey)
  else if names key "source_partition" then x ← decode_int32 part v; Some (MkDeadLetter topic x off reason task pend rawp first last orig skey)
  else if names key "source_offset" then x ← decode_string off v; Some (MkDeadLetter topic part x reason task pend rawp first last orig skey)
  else if names key "reason" then x ← decode_string reason v; Some (MkDeadLetter topic part off x task pend rawp first last orig skey)
  else if names key "task" then x ← decode_pointer (decode_struct task_field) im.zero_task task v; Some (MkDeadLetter topic part off reason x pend rawp first last orig skey)
  else if names key "pending_recipients" then x ← decode_slice decode_string "" pend v; Some (MkDeadLetter topic part off reason task x rawp first last orig skey)
  else if names key "raw_payload_base64" then x ← decode_string rawp v; Some (MkDeadLetter topic part off reason task pend x first last orig skey)
  else if names key "first_attempt_at" then x ← decode_time first v; Some (MkDeadLetter topic part off reason task pend rawp x last orig skey)
  else if names key "last_attempt_at" then x ← decode_time last v; Some (MkDeadLetter topic part off reason task pend rawp first x orig skey)
  else if names key "original_payload_base64" then x ← decode_string orig v; Some (MkDeadLetter topic part off reason task pend rawp first last x skey)
  else if names key "source_key_base64" then x ← decode_string skey v; Some (MkDeadLetter topic part off reason task pend rawp first last orig x)
  else None.

Section Replay.
Context `{External}.

Definition DecodeDeadLetter (raw : string) : option DeadLetter :=
  if (len raw <=? 2 * 1024 * 1024) && utf8_valid raw && validUnicodeEscapes raw then
    '(v, rest) ← parse_prefix raw;
    if checkJSON v 0 && bool_decide (skip_ws rest = []) then decode_struct letter_field zero_letter v
    else None
  else None.

Definition pushTopic (topic : string) : bool :=
  bool_decide (topic = "fable.push.v1")
  || (has_prefix topic "fable.push.v1." && (len "fable.push.v1." <? len topic)).

(** The users a replay may name: those of the task, within every earlier subset. *)
Definition in_subset (subset : option (list string)) (id : string) : bool :=
  match subset with None => true | Some l => bool_decide (id ∈ l) end.
Definition replay_allowed (task source : im.PushTask) (id : string) : bool :=
  bool_decide (id ∈ im.Recipients task) && in_subset (im.PendingRecipients task) id
  && in_subset (im.PendingRecipients source) id.
Fixpoint replay_pending_ok (allowed : string → bool) (seen ids : list string) : bool :=
  match ids with
  | [] => true
  | id :: ids' => allowed id && negb (bool_decide (id ∈ seen)) && replay_pending_ok allowed (id :: seen) ids'
  end.

Definition letter_ok (r : DeadLetter) (runID : string) : bool :=
  match parse_int 64 (SourceOffset r) with
  | None => false
  | Some n =>
    printable runID 128 && match DeadTask r with Some _ => true | None => false end
    && bool_decide (RawPayloadBase64 r = "") && bool_decide (DeadReason r = "unresolved")
    && negb (slen (default [] (DeadPending r)) =? 0) && negb (SourcePartition r <? 0)
    && negb (n <? 0) && bool_decide (format_int n = SourceOffset r) && pushTopic (SourceTopic r)
    && negb (is_zero (FirstAttemptAt r)) && negb (t_ns (LastAttemptAt r) <? t_ns (FirstAttemptAt r))
  end.

Definition decoded_task (raw : string) : option im.PushTask :=
  match DecodeTask raw with Ok t => Some t | Err _ => None end.
Definition replayed (task : im.PushTask) (pending : list string) (runID : string) : im.PushTask :=
  im.MkPushTask (im.SchemaVersion task) (im.Kind task) (im.TaskID task) (im.Message_ task)
    (im.Recipients task) (Some []) (im.ChunkIndex task) (im.ChunkCount task) (im.RequestID task)
    (Some pending) runID.

Definition ReplayTask (r : DeadLetter) (runID : string) : option im.PushTask :=
  if negb (letter_ok r runID) then None else
  t ← DeadTask r;
  raw ← print_task t;
  task ← decoded_task raw;
  original ← base64_std_strict_decode (OriginalPayloadBase64 r);
  if len original =? 0 then None else
  source ← decoded_task original;
  if negb (bool_decide (ImmutableDigest source = ImmutableDigest task)) then None else
  let pending := default [] (DeadPending r) in
  if replay_pending_ok (replay_allowed task source) [] pending
  then Some (replayed task pending runID) else None.

(** ** Selecting a range of dead letters *)

Record ReplayOptions : Type := MkReplayOptions {
  RPartition : Z; FromOffset : Z; ToOffset : Z; RunID : string; Execute : bool
}.
Record ReplaySummary : Type := MkReplaySummary {
  Scanned : Z; Replayable : Z; Rejected : Z; Published : Z; Executed : bool
}.

Definition validateReplay (o : ReplayOptions) : bool :=
  negb ((RPartition o <? 0) || (2 ^ 31 - 1 <? RPartition o) || (FromOffset o <? 0)
        || (ToOffset o <? FromOffset o) || (ToOffset o =? max_int64)
        || (10000 <=? ToOffset o - FromOffset o) || (len (RunID o) =? 0) || (128 <? len (RunID o)))
  && forallb (λ r, negb ((r <? 32) || (126 <? r))) (runes (RunID o)).

(** A message to publish: its key, value and headers. *)
Record replay_message : Type := MkReplayMessage {
  ReplayKey : string; ReplayValue : string; ReplayHeaders : list (string * string)
}.

Fixpoint contiguous (partition from : Z) (ms : list kafka_message) : bool :=
  match ms with
  | [] => true
  | m :: ms' => (Partition m =? partition) && (Offset m =? from) && contiguous partition (from + 1) ms'
  end.

Definition replay_one (topic : string) (runID : string) (m : kafka_message) : option im.PushTask :=
  r ← DecodeDeadLetter (Value m);
  if bool_decide (SourceTopic r = topic) then ReplayTask r runID else None.
Definition count_summary (s : ReplaySummary) (accepted : bool) : ReplaySummary :=
  MkReplaySummary (Scanned s + 1) (Replayable s + if accepted then 1 else 0)
    (Rejected s + if accepted then 0 else 1) (Published s) (Executed s).
Definition headers_of (dlq runID : string) (m : kafka_message) : list (string * string) :=
  [("replay_run_id", runID); ("dlq_topic", dlq); ("dlq_partition", format_int (Partition m));
   ("dlq_offset", format_int (Offset m))].
(** The loop over the selected records; [None] when a task cannot be marshalled. *)
Fixpoint prepare_loop (topic dlq runID : string) (ms : list kafka_message)
    (out : list replay_message) (s : ReplaySummary) : option (list replay_message * ReplaySummary) :=
  match ms with
  | [] => Some (out, s)
  | m :: ms' =>
    match replay_one topic runID m with
    | None => prepare_loop topic dlq runID ms' out (count_summary s false)
    | Some task =>
      raw ← print_task task;
      prepare_loop topic dlq runID ms'
        (out ++ [MkReplayMessage (im.ConversationID (im.Message_ task)) raw (headers_of dlq runID m)])
        (count_summary s true)
    end
  end.
Definition prepareReplay (topic dlq : string) (o : ReplayOptions) (ms : list kafka_message)
  : option (list replay_message * ReplaySummary) :=
  if negb (validateReplay o) || negb (slen ms =? ToOffset o - FromOffset o + 1)
     || negb (contiguous (RPartition o) (FromOffset o) ms) then None
  else prepare_loop topic dlq (RunID o) ms [] (MkReplaySummary 0 0 0 0 false).

(** Fetching the range: [fetch] answers the next record or an error.  The range has at
    most 10,000 offsets, which bounds the loop. *)
Fixpoint collect_loop {W} (fetch : W → option kafka_message * W) (partition : Z) (n : nat) (expected size : Z)
    (acc : list kafka_message) (w : W) : option (list kafka_message) * W :=
  match n with
  | O => (Some acc, w)
  | S n' =>
    let '(m, w) := fetch w in
    match m with
    | None => (None, w)
    | Some m =>
      if (Partition m =? partition) && (Offset m =? expected) then
        let size := size + len (Value m) + len (Key m) in
        if 16 * 1024 * 1024 <? size then (None, w)
        else collect_loop fetch partition n' (expected + 1) size (acc ++ [m]) w
      else (None, w)
    end
  end.
Definition collectReplayRange {W} (fetch : W → option kafka_message * W) (o : ReplayOptions) (w : W)
  : option (list kafka_message) * W :=
  if negb (validateReplay o) then (None, w)
  else collect_loop fetch (RPartition o) (Z.to_nat (ToOffset o - FromOffset o + 1)) (FromOffset o) 0 [] w.

(** Publishing in order; it stops at the first failure and counts the confirmed ones. *)
Fixpoint publish_all {W} (publish : replay_message → W → bool * W) (ms : list replay_message)
    (s : ReplaySummary) (w : W) : (ReplaySummary * bool) * W :=
  match ms with
  | [] => ((s, true), w)
  | m :: ms' =>
    let '(ok, w) := publish m w in
    if ok : bool then
      publish_all publish ms'
        (MkReplaySummary (Scanned s) (Replayable s) (Rejected s) (Published s + 1) (Executed s)) w
    else ((s, false), w)
  end.
Definition empty_summary : ReplaySummary := MkReplaySummary 0 0 0 0 false.
(** The summary and whether the error is nil; [config_ok] is the check of the
    configuration, [read] the reader of the snapshot. *)
Definition Replay {W} (config_ok : bool) (read : W → option (list kafka_message) * W)
    (publish : replay_message → W → bool * W) (topic dlq : string) (o : ReplayOptions) (w : W)
  : (ReplaySummary * bool) * W :=
  if negb config_ok || negb (validateReplay o) then ((empty_summary, false), w)
  else
    let '(ms, w) := read w in
    match ms with
    | None => ((empty_summary, false), w)
    | Some ms =>
      match prepareReplay topic dlq o ms with
      | None => ((empty_summary, false), w)
      | Some (selected, s) =>
        if negb (Execute o) then ((s, true), w)
        else publish_all publish selected
               (MkReplaySummary (Scanned s) (Replayable s) (Rejected s) (Published s) true) w
      end
    end.
End Replay.
