(* ===== verification/JobReplayProofs.v ===== *)
(** * Replays narrow, never widen *)
From S2P Require Import Prelude GoStd GoTime External Json Dto JobTask JobTaskProofs JsonPrint JobConsumer JobReplay Samples.
Local Open Scope Z_scope.

Section Replay.
Context `{External}.

Lemma replay_pending_ok_spec allowed seen ids :
  replay_pending_ok allowed seen ids = true ↔
  NoDup ids ∧ Forall (.∉ seen) ids ∧ Forall (λ id, allowed id = true) ids.
Proof.
  revert seen. induction ids as [|id ids IH]; intros seen; cbn [replay_pending_ok].
  { split; [|done]. intros _. split_and!; constructor. }
  rewrite !andb_true_iff, IH, NoDup_cons, !Forall_cons, negb_true_iff, bool_decide_eq_false.
  assert (Forall (.∉ id :: seen) ids ↔ id ∉ ids ∧ Forall (.∉ seen) ids) as ->.
  { rewrite !Forall_forall. set_solver. }
  naive_solver.
Qed.

Lemma replay_allowed_spec task source id :
  replay_allowed task source id = true ↔
  id ∈ im.Recipients task ∧ (∀ l, im.PendingRecipients task = Some l → id ∈ l)
  ∧ (∀ l, im.PendingRecipients source = Some l → id ∈ l).
Proof.
  unfold replay_allowed, in_subset. rewrite !andb_true_iff, bool_decide_eq_true.
  destruct (im.PendingRecipients task), (im.PendingRecipients source);
    rewrite ?bool_decide_eq_true; naive_solver.
Qed.

(** A failed check is an early return. *)
Lemma guard_Some {A} (b : bool) (m : option A) x :
  (if negb b then None else m) = Some x ↔ b = true ∧ m = Some x.
Proof. destruct b; cbn; naive_solver. Qed.

Definition replay_source (r : DeadLetter) (task source : im.PushTask) : Prop :=
  ∃ t raw original, DeadTask r = Some t ∧ print_task t = Some raw ∧ DecodeTask raw = Ok task
    ∧ base64_std_strict_decode (OriginalPayloadBase64 r) = Some original ∧ len original ≠ 0
    ∧ DecodeTask original = Ok source ∧ ImmutableDigest source = ImmutableDigest task.

Lemma decoded_task_Some raw t : decoded_task raw = Some t ↔ DecodeTask raw = Ok t.
Proof. unfold decoded_task. destruct (DecodeTask raw); naive_solver. Qed.

Lemma ReplayTask_spec r runID t :
  ReplayTask r runID = Some t ↔
  letter_ok r runID = true ∧ ∃ task source, replay_source r task source
    ∧ replay_pending_ok (replay_allowed task source) [] (default [] (DeadPending r)) = true
    ∧ t = replayed task (default [] (DeadPending r)) runID.
Proof.
  unfold ReplayTask, replay_source. rewrite guard_Some. apply and_iff_compat_l. split.
  - intros (t0&Ht&Hx)%bind_Some. apply bind_Some in Hx as (raw&Hraw&Hx).
    apply bind_Some in Hx as (task&Htask%decoded_task_Some&Hx).
    apply bind_Some in Hx as (original&Horig&Hx).
    destruct (Z.eqb_spec (len original) 0); [done|].
    apply bind_Some in Hx as (source&Hsource%decoded_task_Some&Hx).
    apply guard_Some in Hx as [Hd%bool_decide_eq_true Hx].
    destruct (replay_pending_ok _ _ _) eqn:Hp; [|done].
    exists task, source. split_and!; [by exists t0, raw, original|done|congruence].
  - intros (task&source&(t0&raw&original&Ht&Hraw&Htask&Horig&Hne&Hsource&Hd)&Hp&->).
    rewrite Ht. cbn [mbind option_bind]. rewrite Hraw. cbn [mbind option_bind].
    apply decoded_task_Some in Htask as ->. cbn [mbind option_bind]. rewrite Horig. cbn [mbind option_bind].
    apply Z.eqb_neq in Hne as ->. apply decoded_task_Some in Hsource as ->. cbn [mbind option_bind].
    rewrite bool_decide_true by done. cbn [negb]. by rewrite Hp.
Qed.

Lemma replayed_well_formed task pending runID :
  well_formed task → NoDup pending → Forall (.∈ im.Recipients task) pending →
  well_formed (replayed task pending runID).
Proof.
  intros [] Hnd Hin. constructor; try done.
  exists []. split_and!; [done|constructor|constructor].
Qed.

Lemma letter_ok_facts r runID :
  letter_ok r runID = true →
  printable runID 128 = true ∧ DeadReason r = "unresolved" ∧ default [] (DeadPending r) ≠ []
  ∧ pushTopic (SourceTopic r) = true ∧ ∃ n, 0 ≤ n ∧ parse_int 64 (SourceOffset r) = Some n ∧ format_int n = SourceOffset r.
Proof.
  unfold letter_ok. destruct (parse_int 64 (SourceOffset r)) as [n|]; [|done].
  rewrite !andb_true_iff, !bool_decide_eq_true, !negb_true_iff, slen_nil_eqb, !Z.ltb_ge.
  intros [[[[[[[[[[? ?] ?] ?] ?] ?] ?] ?] ?] ?] ?]. split_and!; try done. by exists n.
Qed.

(** a replay task only narrows.  It is well formed, carries the identity, message and
    full recipients of a task with the digest of the exact original bytes, no route
    hints, the given run, and a non-empty set of distinct users who are recipients and
    belong to the pending subset of that task and of the original, when they have one. *)
Theorem ReplayTask_narrows r runID t :
  ReplayTask r runID = Some t →
  well_formed t ∧ im.Targets t = Some [] ∧ im.ReplayRunID t = runID ∧ printable runID 128 = true
  ∧ ∃ task source pending, replay_source r task source
      ∧ im.TaskID t = im.TaskID task ∧ im.Message_ t = im.Message_ task ∧ im.Recipients t = im.Recipients task
      ∧ ImmutableDigest t = ImmutableDigest source
      ∧ im.PendingRecipients t = Some pending ∧ pending ≠ [] ∧ NoDup pending
      ∧ ∀ id, id ∈ pending → id ∈ im.Recipients task
          ∧ (∀ l, im.PendingRecipients task = Some l → id ∈ l)
          ∧ (∀ l, im.PendingRecipients source = Some l → id ∈ l).
Proof.
  intros (Hok&task&source&Hsrc&Hp&->)%ReplayTask_spec.
  apply letter_ok_facts in Hok as (Hrun&_&Hne&_).
  apply replay_pending_ok_spec in Hp as (Hnd&_&Hall). rewrite Forall_forall in Hall.
  pose proof Hsrc as (t0&raw&original&_&_&Htask&_&_&_&Hdigest).
  split_and!; [|done..|].
  - apply replayed_well_formed; [by eapply DecodeTask_well_formed|done|].
    apply Forall_forall. intros id Hid. by apply Hall, replay_allowed_spec in Hid as [? _].
  - exists task, source, (default [] (DeadPending r)). split_and!; try done.
    intros id Hid. by apply replay_allowed_spec, Hall.
Qed.

(** ** Selecting a range *)

Definition exact_range (o : ReplayOptions) (ms : list kafka_message) : Prop :=
  Partition <$> ms = replicate (length ms) (RPartition o)
  ∧ Offset <$> ms = (λ k, FromOffset o + Z.of_nat k) <$> seq 0 (length ms)
  ∧ slen ms = ToOffset o - FromOffset o + 1.

Lemma contiguous_spec partition from ms :
  contiguous partition from ms = true ↔
  Partition <$> ms = replicate (length ms) partition
  ∧ Offset <$> ms = (λ k, from + Z.of_nat k) <$> seq 0 (length ms).
Proof.
  revert from. induction ms as [|m ms IH]; intros from; cbn; [done|].
  rewrite !andb_true_iff, IH, !Z.eqb_eq, Z.add_0_r, <-fmap_S_seq, <-list_fmap_compose.
  assert ((λ k, from + 1 + Z.of_nat k) <$> seq 0 (length ms)
          = ((λ k, from + Z.of_nat k) ∘ S) <$> seq 0 (length ms)) as ->.
  { apply list_fmap_ext. intros _ k _. cbn. lia. }
  split; [intros [[-> ->] [-> ->]]; done|]. intros [H1 H2]. injection H1 as ? ?. injection H2 as ? ?. done.
Qed.

Definition summary_ok (ms : list kafka_message) (out : list replay_message) (s : ReplaySummary) : Prop :=
  Scanned s = slen ms ∧ Replayable s = slen out ∧ Scanned s = Replayable s + Rejected s
  ∧ Published s = 0 ∧ Executed s = false.

Lemma prepare_loop_ok topic dlq runID ms done_ms out s out' s' :
  prepare_loop topic dlq runID ms out s = Some (out', s') →
  summary_ok done_ms out s → summary_ok (done_ms ++ ms) out' s'.
Proof.
  revert done_ms out s. induction ms as [|m ms IH]; intros dms out s Hp Hs; cbn in Hp.
  { simplify_eq. by rewrite app_nil_r. }
  replace (dms ++ m :: ms) with ((dms ++ [m]) ++ ms) by by rewrite <-app_assoc.
  destruct Hs as (?&?&?&?&?). destruct (replay_one topic runID m) as [task|].
  - apply bind_Some in Hp as (raw&_&Hp). eapply IH; [exact Hp|].
    split_and!; cbn; rewrite ?slen_app, ?slen_cons, ?slen_nil; lia || done.
  - eapply IH; [exact Hp|]. split_and!; cbn; rewrite ?slen_app, ?slen_cons, ?slen_nil; lia || done.
Qed.

(** nothing is selected for replay unless the records are exactly the offsets of the
    requested range of one partition; every record is then counted once, as replayable or
    as rejected, and one message is prepared per replayable record. *)
Theorem prepareReplay_exact topic dlq o ms out s :
  prepareReplay topic dlq o ms = Some (out, s) →
  validateReplay o = true ∧ exact_range o ms ∧ summary_ok ms out s.
Proof.
  unfold prepareReplay. rewrite <-!negb_andb, guard_Some, !andb_true_iff, Z.eqb_eq, contiguous_spec.
  intros [[[? ?] [? ?]] Hp]. split_and!; [done|by split_and!|].
  by eapply (prepare_loop_ok _ _ _ _ [] _ _ _ _ Hp).
Qed.
End Replay.

(** ** Concrete runs *)

Definition sample_letter : DeadLetter :=
  MkDeadLetter "fable.push.v1" 0 "7" "unresolved" (Some (decoded plain_task)) (Some [user2]) ""
    (Time 1 0) (Time 2 0) (base64_std_encode plain_task) "".
Definition sample_replayed : im.PushTask := replayed (decoded plain_task) [user2] "run-1".

Lemma sample_replay : ReplayTask (H := Reference.external) sample_letter "run-1" = Some sample_replayed.
Proof.
  apply ReplayTask_spec. split; [vm_compute; reflexivity|].
  exists (decoded plain_task), (decoded plain_task).
  split_and!; [|vm_compute; reflexivity|reflexivity].
  exists (decoded plain_task), (default EmptyString (print_task (decoded plain_task))), plain_task.
  split_and!; [reflexivity| | | |done| |reflexivity]; vm_compute; reflexivity.
Qed.

Lemma ReplayTask_narrows_witness :
  ReplayTask (H := Reference.external) sample_letter "run-1" = Some sample_replayed
  ∧ well_formed (H := Reference.external) sample_replayed ∧ im.Targets sample_replayed = Some []
  ∧ im.ReplayRunID sample_replayed = "run-1".
Proof.
  split; [exact sample_replay|].
  destruct (@ReplayTask_narrows Reference.external sample_letter "run-1" sample_replayed sample_replay)
    as (?&?&?&_). by split_and!.
Defined.

(** Two records, neither of which is a dead letter. *)
Definition sample_options : ReplayOptions := MkReplayOptions 0 5 6 "run-1" false.
Definition sample_records : list kafka_message :=
  [KafkaMessage "dlq" 0 5 "" "{}"; KafkaMessage "dlq" 0 6 "" "null"].

Lemma prepareReplay_exact_witness :
  prepareReplay (H := Reference.external) "fable.push.v1" "dlq" sample_options sample_records
    = Some ([], MkReplaySummary 2 0 2 0 false)
  ∧ exact_range sample_options sample_records.
Proof.
  assert (prepareReplay (H := Reference.external) "fable.push.v1" "dlq" sample_options sample_records
    = Some ([], MkReplaySummary 2 0 2 0 false)) as Hp by (vm_compute; reflexivity).
  split; [exact Hp|]. by destruct (@prepareReplay_exact Reference.external _ _ _ _ _ _ Hp) as (_&?&_).
Defined.
