(* ===== verification/CometValidation.v ===== *)
(** * Validation at the Comet boundary: [internal/comet/validation.go]

    The name of the invalid field is a diagnostic; the error is [ErrInvalid]. *)
From S2P Require Import Prelude GoStd GoTime External Dto.
Local Open Scope Z_scope.

Inductive comet_error : Type := ErrClosed | ErrInvalid | ErrDraining | ErrContext (e : context_error).

Section Validation.
Context `{External}.

Definition uuid_nil : string := "00000000-0000-0000-0000-000000000000".
Definition validUUID (s : string) : bool := (len s =? 36) && bool_decide (s ≠ uuid_nil) && uuid_validate s.
Definition validID (s : string) (prefix : ascii) : bool :=
  (len s =? 37) && head_is s prefix && validUUID (tail s).

Definition instance_char (c : Z) : bool := in_range 97 122 c || in_range 48 57 c || (c =? 45).
Definition validateComet (id : option pb.CometIdentity) : bool :=
  match id with
  | None => false
  | Some id =>
    validUUID (pb.BootId id) && negb (len (pb.CometInstanceId id) =? 0) && negb (64 <? len (pb.CometInstanceId id))
    && forallb instance_char (runes (pb.CometInstanceId id))
  end.

Definition validateConnection (id : option pb.ConnectionIdentity) (instance : string) : bool :=
  match id with
  | None => false
  | Some id =>
    validID (pb.UserId id) "U" && bool_decide (pb.InstanceId id = instance) && validUUID (pb.ConnectionId id)
    && negb (128 <? len (pb.RouteToken id))
    && match base64_raw_url_decode (pb.RouteToken id) with
       | Some raw => negb (len raw <? 16) && bool_decide (base64_raw_url_encode raw = pb.RouteToken id)
       | None => false
       end
  end.

Definition sameComet (a b : option pb.CometIdentity) : bool :=
  match a, b with
  | Some a, Some b =>
    bool_decide (pb.CometInstanceId a = pb.CometInstanceId b) && bool_decide (pb.BootId a = pb.BootId b)
  | _, _ => false
  end.
Definition sameConnection (a b : option pb.ConnectionIdentity) : bool :=
  match a, b with
  | Some a, Some b =>
    bool_decide (pb.UserId a = pb.UserId b) && bool_decide (pb.InstanceId a = pb.InstanceId b)
    && bool_decide (pb.ConnectionId a = pb.ConnectionId b) && bool_decide (pb.RouteToken a = pb.RouteToken b)
  | _, _ => false
  end.

Definition validateMessage (m : option pb.MessageView) : bool :=
  match m with
  | None => false
  | Some m =>
    match pb.Destination_ m with
    | None => false
    | Some d =>
      validID (pb.MessageId m) "M" && validID (pb.SenderId m) "U"
      && (pb.MessageType m =? pb.MESSAGE_TYPE_TEXT) && bool_decide (pb.Content m ≠ "")
      && negb (16 * 1024 <? len (pb.Content m)) && utf8_valid (pb.Content m)
      && ((pb.Origin m =? pb.MESSAGE_ORIGIN_USER) || (pb.Origin m =? pb.MESSAGE_ORIGIN_AI))
      && match pb.CreatedAt m with
         | Some t => timestamp_check_valid t && negb (as_ns t =? zero_ns)
         | None => false
         end
      && negb (pb.Position m =? 0) && negb (max_int64 <? pb.Position m)
      && (if pb.DestReceiveType d =? pb.RECEIVE_TYPE_USER then
            validID (pb.SessionId m) "S" && validID (pb.DestReceiveId d) "U"
            && bool_decide (pb.SenderId m ≠ pb.DestReceiveId d)
            && bool_decide (pb.ConversationId m = "direct:" +:+ pb.SessionId m)
          else if pb.DestReceiveType d =? pb.RECEIVE_TYPE_GROUP then
            validID (pb.SessionId m) "G" && bool_decide (pb.SessionId m = pb.DestReceiveId d)
            && bool_decide (pb.ConversationId m = "group:" +:+ pb.SessionId m)
          else false)
    end
  end.

(** The loop over the targets; [seen] are the identities before it. *)
Fixpoint delivery_targets_ok (instance : string) (seen : list pb.ConnectionIdentity)
    (targets : list (option pb.ConnectionIdentity)) : bool :=
  match targets with
  | [] => true
  | None :: _ => false
  | Some id :: ts =>
    validateConnection (Some id) instance && negb (bool_decide (id ∈ seen))
    && delivery_targets_ok instance (id :: seen) ts
  end.
Definition chunk_ok (taskID : string) (message : string) : bool :=
  match cut_prefix ("push:v1:" +:+ message +:+ ":") taskID with
  | None => false
  | Some chunk =>
    match parse_uint 32 chunk with Some n => bool_decide (format_uint n = chunk) | None => false end
  end.
Definition validateDelivery (taskID : string) (m : option pb.MessageView)
    (targets : list (option pb.ConnectionIdentity)) (instance : string) : bool :=
  validateMessage m
  && chunk_ok taskID (match m with Some m => pb.MessageId m | None => "" end)
  && negb ((slen targets =? 0) || (100 <? slen targets))
  && delivery_targets_ok instance [] targets.

Definition validRequestID (s : string) : bool :=
  negb (128 <? len s) && forallb (λ c, negb ((c <? 32) || (126 <? c))) (runes s).
End Validation.
