(* ===== verification/CometHub.v ===== *)
(** * The hub of local connections: [internal/comet/hub.go]

    The owner loop runs one command at a time, so an operation is a function on the state
    of the hub.  Connections are shared with their reader and writer goroutines: they live
    in a heap, and the client map holds their addresses.  Closing a channel twice panics,
    which [panicked] records. *)
From S2P Require Import Prelude GoStd GoTime External Dto CometValidation.
Local Open Scope Z_scope.

(** What waits for the writer besides messages: a frame of the second protocol, or a control
    frame of a kind other than 0 with its data, and whether it ends the socket. *)
Record socketControl : Type := MkSocketControl {
  frame : option im.SendResultFrame; kind : Z; data : string; closeAfter : bool
}.

Record Connection : Type := MkConnection {
  identity : pb.ConnectionIdentity;
  outbound : list pb.MessageView;
  controls : list socketControl;
  pending : bool;
  conn_done : bool;
  writer : bool;
  slowClosed : bool
}.
Definition set_outbound (q : list pb.MessageView) (c : Connection) : Connection :=
  MkConnection (identity c) q (controls c) (pending c) (conn_done c) (writer c) (slowClosed c).
Definition set_controls (q : list socketControl) (c : Connection) : Connection :=
  MkConnection (identity c) (outbound c) q (pending c) (conn_done c) (writer c) (slowClosed c).
Definition set_active (c : Connection) : Connection :=
  MkConnection (identity c) (outbound c) (controls c) false (conn_done c) (writer c) (slowClosed c).
Definition set_done (c : Connection) : Connection :=
  MkConnection (identity c) (outbound c) (controls c) (pending c) true (writer c) (slowClosed c).
Definition set_writer (c : Connection) : Connection :=
  MkConnection (identity c) (outbound c) (controls c) (pending c) (conn_done c) true (slowClosed c).
Definition set_slow (c : Connection) : Connection :=
  MkConnection (identity c) (outbound c) (controls c) (pending c) (conn_done c) (writer c) true.

(** The hub with the state of its owner loop: [timerC] is the instant of the armed timer,
    [hub_done] and [stopped] the closed channels, [drainSignal] its one-place buffer. *)
Record Hub : Type := MkHub {
  hub_identity : pb.CometIdentity; queueSize : nat;
  heap : list Connection; clients : gmap string nat;
  draining : bool; deadline : Z; timerC : option Z; drainSignal : bool;
  hub_done : bool; stopped : bool;
  queueFull : Z; staleTargets : Z; slowCloses : Z; panicked : bool
}.
Definition set_heap (l : list Connection) (h : Hub) : Hub :=
  MkHub (hub_identity h) (queueSize h) l (clients h) (draining h) (deadline h) (timerC h) (drainSignal h)
    (hub_done h) (stopped h) (queueFull h) (staleTargets h) (slowCloses h) (panicked h).
Definition set_clients (m : gmap string nat) (h : Hub) : Hub :=
  MkHub (hub_identity h) (queueSize h) (heap h) m (draining h) (deadline h) (timerC h) (drainSignal h)
    (hub_done h) (stopped h) (queueFull h) (staleTargets h) (slowCloses h) (panicked h).
Definition set_drain (d : Z) (t : option Z) (h : Hub) : Hub :=
  MkHub (hub_identity h) (queueSize h) (heap h) (clients h) true d t true
    (hub_done h) (stopped h) (queueFull h) (staleTargets h) (slowCloses h) (panicked h).
Definition set_timer (t : option Z) (h : Hub) : Hub :=
  MkHub (hub_identity h) (queueSize h) (heap h) (clients h) (draining h) (deadline h) t (drainSignal h)
    (hub_done h) (stopped h) (queueFull h) (staleTargets h) (slowCloses h) (panicked h).
Definition set_hub_done (h : Hub) : Hub :=
  MkHub (hub_identity h) (queueSize h) (heap h) (clients h) (draining h) (deadline h) (timerC h) (drainSignal h)
    true (stopped h) (queueFull h) (staleTargets h) (slowCloses h) (panicked h).
Definition set_stopped (h : Hub) : Hub :=
  MkHub (hub_identity h) (queueSize h) (heap h) (clients h) (draining h) (deadline h) (timerC h) (drainSignal h)
    (hub_done h) true (queueFull h) (staleTargets h) (slowCloses h) (panicked h).
Definition take_signal (h : Hub) : Hub :=
  MkHub (hub_identity h) (queueSize h) (heap h) (clients h) (draining h) (deadline h) (timerC h) false
    (hub_done h) (stopped h) (queueFull h) (staleTargets h) (slowCloses h) (panicked h).
Definition count (full stale slow : Z) (h : Hub) : Hub :=
  MkHub (hub_identity h) (queueSize h) (heap h) (clients h) (draining h) (deadline h) (timerC h) (drainSignal h)
    (hub_done h) (stopped h) (queueFull h + full) (staleTargets h + stale) (slowCloses h + slow) (panicked h).
Definition set_panicked (h : Hub) : Hub :=
  MkHub (hub_identity h) (queueSize h) (heap h) (clients h) (draining h) (deadline h) (timerC h) (drainSignal h)
    (hub_done h) (stopped h) (queueFull h) (staleTargets h) (slowCloses h) true.

Section Hub.
Context `{External}.

Definition NewHub (id : option pb.CometIdentity) (queue : Z) : result comet_error Hub :=
  match id with
  | Some c =>
    if validateComet (Some c) then
      Ok (MkHub c (Z.to_nat (if queue <=? 0 then 256 else queue)) [] ∅ false zero_ns None false
            false false 0 0 0 false)
    else Err ErrInvalid
  | None => Err ErrInvalid
  end.

(** ** Connections *)

Definition update_conn (f : Connection → Connection) (k : nat) (h : Hub) : Hub :=
  set_heap (alter f k (heap h)) h.
(** [close(c.done)] *)
Definition close_conn (k : nat) (h : Hub) : Hub :=
  match heap h !! k with
  | Some c => if conn_done c then set_panicked h else update_conn set_done k h
  | None => h
  end.
Definition markSlow (k : nat) (h : Hub) : Hub :=
  match heap h !! k with
  | Some c => if slowClosed c then h else count 0 0 1 (update_conn set_slow k h)
  | None => h
  end.
Definition closeAll (h : Hub) : Hub :=
  set_clients ∅ (fold_left (λ h k, close_conn k h) (map_to_list (clients h)).*2 h).

(** ** Commands *)

Definition register_op (id : pb.ConnectionIdentity) (pend : bool) (h : Hub) : result comet_error nat * Hub :=
  if draining h then (Err ErrDraining, h)
  else
    let insert h :=
      let k := length (heap h) in
      (Ok k, set_clients (<[pb.UserId id := k]> (clients h))
               (set_heap (heap h ++ [MkConnection id [] [] pend false false false]) h)) in
    match clients h !! pb.UserId id with
    | Some k =>
      match heap h !! k with
      | Some old => if sameConnection (Some (identity old)) (Some id) then (Ok k, h) else insert (close_conn k h)
      | None => insert h
      end
    | None => insert h
    end.

Definition unregister_op (id : pb.ConnectionIdentity) (h : Hub) : Z * Hub :=
  match clients h !! pb.UserId id with
  | None => (pb.NOT_FOUND, h)
  | Some k =>
    match heap h !! k with
    | Some c =>
      if sameConnection (Some (identity c)) (Some id)
      then (pb.DELETED, close_conn k (set_clients (delete (pb.UserId id) (clients h)) h))
      else (pb.NOT_CURRENT, h)
    | None => (pb.NOT_FOUND, h)
    end
  end.

(** One target of a delivery at the instant [now]. *)
Definition deliver_one (message : pb.MessageView) (id : pb.ConnectionIdentity) (now : Z) (h : Hub) : Z * Hub :=
  if draining h && negb (now <? deadline h) then (pb.OUTCOME_DRAINING, h)
  else
    match clients h !! pb.UserId id with
    | None => (pb.OUTCOME_NOT_FOUND, h)
    | Some k =>
      match heap h !! k with
      | None => (pb.OUTCOME_NOT_FOUND, h)
      | Some c =>
        if pending c then (pb.OUTCOME_NOT_FOUND, h)
        else if negb (sameConnection (Some (identity c)) (Some id)) then (pb.OUTCOME_STALE, count 0 1 0 h)
        else if (length (outbound c) <? queueSize h)%nat
        then (pb.OUTCOME_ENQUEUED, update_conn (set_outbound (outbound c ++ [message])) k h)
        else (pb.OUTCOME_QUEUE_FULL,
              close_conn k (let h := markSlow k (count 1 0 0 h) in
                            set_clients (delete (pb.UserId id) (clients h)) h))
      end
    end.
(** The loop over the targets; [nows] are the readings of the clock, one per target. *)
Fixpoint deliver_op (message : pb.MessageView) (targets : list pb.ConnectionIdentity) (nows : nat → Z)
    (h : Hub) : list (option pb.DeliveryResult) * Hub :=
  match targets with
  | [] => ([], h)
  | id :: ts =>
    let '(o, h) := deliver_one message id (nows 0%nat) h in
    let '(rs, h) := deliver_op message ts (λ i, nows (S i)) h in
    (Some (pb.MkDeliveryResult (Some id) o) :: rs, h)
  end.

Record DrainState : Type := MkDrainState {
  DrainDeadline : Z; AlreadyDraining : bool; ActiveConnections : Z
}.
Definition drain_op (d : Z) (h : Hub) : DrainState * Hub :=
  let already := draining h in
  let h := if negb already || (d <? deadline h) then set_drain d (Some d) h
           else set_drain (deadline h) (timerC h) h in
  (MkDrainState (deadline h) already (Z.of_nat (size (clients h))), h).

Definition activate_op (k : nat) (h : Hub) : result comet_error unit * Hub :=
  if draining h then (Err ErrDraining, h)
  else
    match heap h !! k with
    | Some c =>
      if bool_decide (clients h !! pb.UserId (identity c) = Some k)
      then (Ok tt, update_conn set_active k h) else (Err ErrClosed, h)
    | None => (Err ErrClosed, h)
    end.

Definition queue_depth (h : Hub) : Z :=
  fold_left (λ n k, match heap h !! k with
                    | Some c => n + slen (outbound c) + slen (controls c)
                    | None => n
                    end) (map_to_list (clients h)).*2 0.

(** ** Calls

    What [call] returns when the caller or the hub gives up, or the answer of the owner;
    [fate] says how far the command got: it was never admitted, it ran and was answered,
    or it ran and the caller did not see the answer. *)
Inductive fate : Type := Refused (e : comet_error) | Answered | Lost (e : comet_error).

Definition call {A} (f : fate) (op : Hub → result comet_error A * Hub) (h : Hub) : result comet_error A * Hub :=
  match f with
  | Refused e => (Err e, h)
  | Answered => op h
  | Lost e => (Err e, (op h).2)
  end.

Definition register (f : fate) (id : option pb.ConnectionIdentity) (pend : bool) (h : Hub)
  : result comet_error nat * Hub :=
  match id with
  | Some c =>
    if validateConnection id (pb.CometInstanceId (hub_identity h)) then call f (register_op c pend) h
    else (Err ErrInvalid, h)
  | None => (Err ErrInvalid, h)
  end.
Definition Register (f : fate) (id : option pb.ConnectionIdentity) : Hub → result comet_error nat * Hub :=
  register f id false.
Definition Unregister (f : fate) (id : option pb.ConnectionIdentity) (h : Hub) : result comet_error Z * Hub :=
  match id with
  | Some c =>
    if validateConnection id (pb.CometInstanceId (hub_identity h))
    then call f (λ h, let '(o, h) := unregister_op c h in (Ok o, h)) h else (Err ErrInvalid, h)
  | None => (Err ErrInvalid, h)
  end.
Definition Deliver (f : fate) (taskID : string) (message : option pb.MessageView)
    (targets : list (option pb.ConnectionIdentity)) (nows : nat → Z) (h : Hub)
  : result comet_error (list (option pb.DeliveryResult)) * Hub :=
  match message with
  | Some m =>
    if validateDelivery taskID message targets (pb.CometInstanceId (hub_identity h))
    then call f (λ h, let '(rs, h) := deliver_op m (omap id targets) nows h in (Ok rs, h)) h
    else (Err ErrInvalid, h)
  | None => (Err ErrInvalid, h)
  end.
Definition Drain (f : fate) (now d : Z) (h : Hub) : result comet_error DrainState * Hub :=
  if negb (now <? d) || (now + 30 * second <? d) then (Err ErrInvalid, h)
  else call f (λ h, let '(s, h) := drain_op d h in (Ok s, h)) h.
Definition activate (f : fate) (k : nat) (h : Hub) : result comet_error unit * Hub := call f (activate_op k) h.

(** ** The owner loop and the other goroutines *)

(** The armed timer fires at its instant. *)
Definition fire_timer (h : Hub) : Hub := set_timer None (closeAll h).
(** The loop leaves after [Close]: it closes what is left. *)
Definition stop (h : Hub) : Hub := set_stopped (closeAll h).

(** Offering a control frame to the writer.  [over] tells whether the context of the caller
    is done; when that or a closed connection competes with room in the queue, [pick] tells
    which case the [select] takes.  A full queue makes the connection a slow one. *)
Inductive offer : Type := Queued | Gone | Overflow.
Definition offer_control (over pick : bool) (k : nat) (ctl : socketControl) (h : Hub) : offer * Hub :=
  match heap h !! k with
  | None => (Gone, h)
  | Some c =>
    let room := (length (controls c) <? queueSize h)%nat in
    if (over || conn_done c) && (pick || negb room) then (Gone, h)
    else if room then (Queued, update_conn (set_controls (controls c ++ [ctl])) k h)
    else (Overflow, markSlow k (count 1 0 0 h))
  end.
(** [queueControl] also unregisters an overflowing connection, [f] being the fate of that
    command.  The error, which nobody reads, is that of a closed connection. *)
Definition queueControl (over pick : bool) (f : fate) (k : nat) (ctl : socketControl) (h : Hub)
  : result comet_error unit * Hub :=
  let '(o, h) := offer_control over pick k ctl h in
  match o with
  | Queued => (Ok tt, h)
  | Gone => (Err ErrClosed, h)
  | Overflow => (Err ErrClosed, (Unregister f (identity <$> heap h !! k) h).2)
  end.

(** One step of the system: the owner runs a command while the hub is open, the timer
    fires, the hub is closed and stops, the writer of a connection takes a message or a
    control frame, a reader queues a control frame, a write is too slow. *)
Inductive step : Hub → Hub → Prop :=
| step_register h id pend : hub_done h = false →
    validateConnection (Some id) (pb.CometInstanceId (hub_identity h)) = true →
    step h (register_op id pend h).2
| step_unregister h id : hub_done h = false → step h (unregister_op id h).2
| step_deliver h m targets nows : hub_done h = false → step h (deliver_op m targets nows h).2
| step_drain h now d : hub_done h = false → now < d → d ≤ now + 30 * second → step h (drain_op d h).2
| step_activate h k : hub_done h = false → step h (activate_op k h).2
| step_timer h now t : stopped h = false → timerC h = Some t → t ≤ now → step h (fire_timer h)
| step_close h : step h (set_hub_done h)
| step_stop h : hub_done h = true → stopped h = false → step h (stop h)
| step_take_message h k c m q : heap h !! k = Some c → outbound c = m :: q →
    step h (update_conn (set_outbound q) k h)
| step_take_control h k c m q : heap h !! k = Some c → controls c = m :: q →
    step h (update_conn (set_controls q) k h)
| step_offer_control h over pick k ctl : step h (offer_control over pick k ctl h).2
| step_attach_writer h k : step h (update_conn set_writer k h)
| step_slow h k : step h (markSlow k h)
| step_signal h : step h (take_signal h).

Inductive reachable (start : Hub) : Hub → Prop :=
| reach_start : reachable start start
| reach_step h h' : reachable start h → step h h' → reachable start h'.
End Hub.
