(* ===== verification/CometHubProofs.v ===== *)
(** * The hub never panics, never overfills a queue and never delivers twice *)
From S2P Require Import Prelude GoStd GoTime External Dto Samples CometValidation CometHub.
Local Open Scope Z_scope.

Section Hub.
Context `{External}.

Lemma sameConnection_spec a b : sameConnection (Some a) (Some b) = true ↔ a = b.
Proof.
  unfold sameConnection. rewrite !andb_true_iff, !bool_decide_eq_true.
  destruct a, b; cbn. split; [intros [[[-> ->] ->] ->]; done|by intros [= -> -> -> ->]].
Qed.

(** ** The invariant *)

(** No channel was closed twice; the map holds open connections under their own user, and
    every open connection is in it; queues are within bounds. *)
Record hub_ok (h : Hub) : Prop := HubOk {
  ok_panic : panicked h = false;
  ok_clients : ∀ u k, clients h !! u = Some k →
    ∃ c, heap h !! k = Some c ∧ pb.UserId (identity c) = u ∧ conn_done c = false;
  ok_open : ∀ k c, heap h !! k = Some c → conn_done c = false → clients h !! pb.UserId (identity c) = Some k;
  ok_queues : ∀ k c, heap h !! k = Some c →
    (length (outbound c) ≤ queueSize h)%nat ∧ (length (controls c) ≤ queueSize h)%nat
}.

Lemma ok_injective h u u' k : hub_ok h → clients h !! u = Some k → clients h !! u' = Some k → u = u'.
Proof.
  intros Hok Hu Hu'. destruct (ok_clients _ Hok _ _ Hu) as (c&Hc&<-&_).
  destruct (ok_clients _ Hok _ _ Hu') as (c'&Hc'&<-&_). by simplify_eq.
Qed.

Lemma lookup_update f k h j :
  heap (update_conn f k h) !! j = if decide (j = k) then f <$> heap h !! k else heap h !! j.
Proof.
  cbn. destruct (decide (j = k)) as [->|?]; [by rewrite list_lookup_alter_eq|by rewrite list_lookup_alter_ne].
Qed.

(** An update of a connection that keeps its identity and its being open. *)
Definition mild (n : nat) (f : Connection → Connection) (c : Connection) : Prop :=
  identity (f c) = identity c ∧ conn_done (f c) = conn_done c
  ∧ (length (outbound (f c)) ≤ n)%nat ∧ (length (controls (f c)) ≤ n)%nat.

Lemma update_conn_ok f k h :
  hub_ok h → (∀ c, heap h !! k = Some c → mild (queueSize h) f c) → hub_ok (update_conn f k h).
Proof.
  intros [Hp Hc Ho Hq] Hf. constructor; [done|..]; cbn [clients queueSize update_conn set_heap].
  - intros u j Hj. destruct (Hc u j Hj) as (c&Hcj&?&?). rewrite lookup_update.
    destruct (decide (j = k)) as [->|?]; [|by exists c].
    rewrite Hcj. exists (f c). destruct (Hf c Hcj) as (-> & -> & _). done.
  - intros j c. rewrite lookup_update. destruct (decide (j = k)) as [->|?]; [|by apply Ho].
    destruct (heap h !! k) as [ck|] eqn:Hk; [|done]. intros [= <-].
    destruct (Hf ck eq_refl) as (-> & -> & _). by apply Ho.
  - intros j c. rewrite lookup_update. destruct (decide (j = k)) as [->|?]; [|by apply Hq].
    destruct (heap h !! k) as [ck|] eqn:Hk; [|done]. intros [= <-].
    by destruct (Hf ck eq_refl) as (_&_&?&?).
Qed.

Lemma count_ok a b c h : hub_ok h → hub_ok (count a b c h).
Proof. by intros [? ? ? ?]. Qed.

Lemma markSlow_ok k h : hub_ok h → hub_ok (markSlow k h).
Proof.
  intros Hok. unfold markSlow. destruct (heap h !! k) as [c|] eqn:Hk; [|done].
  destruct (slowClosed c); [done|]. apply count_ok, update_conn_ok; [done|].
  intros c' Hc'. destruct (ok_queues _ Hok _ _ Hc'). by split_and!.
Qed.
Lemma markSlow_clients k h : clients (markSlow k h) = clients h.
Proof. unfold markSlow. destruct (heap h !! k); [|done]. by destruct (slowClosed _). Qed.
Lemma markSlow_heap k h j c :
  heap h !! j = Some c → ∃ c', heap (markSlow k h) !! j = Some c' ∧ identity c' = identity c
    ∧ outbound c' = outbound c ∧ pending c' = pending c ∧ conn_done c' = conn_done c.
Proof.
  intros Hj. unfold markSlow. destruct (heap h !! k) as [ck|] eqn:Hk; [|eauto 10].
  destruct (slowClosed ck); [eauto 10|].
  change (heap (count 0 0 1 (update_conn set_slow k h))) with (heap (update_conn set_slow k h)).
  rewrite lookup_update. destruct (decide (j = k)) as [->|?]; [|eauto 10]. rewrite Hj. cbn. eauto 10.
Qed.

(** Closing a connection that has just been taken out of the map. *)
Lemma close_removed_ok u k h :
  hub_ok h → clients h !! u = Some k →
  hub_ok (close_conn k (set_clients (delete u (clients h)) h)).
Proof.
  intros Hok Hu. pose proof Hok as [Hp Hc Ho Hq]. destruct (Hc u k Hu) as (c&Hk&Hid&Hopen).
  unfold close_conn. cbn [heap set_clients]. rewrite Hk, Hopen.
  constructor; [done|..]; cbn [clients queueSize update_conn set_heap set_clients].
  - intros u' j [Hne Hj]%lookup_delete_Some. destruct (Hc u' j Hj) as (c'&Hj'&?&?).
    rewrite lookup_update. cbn [heap set_clients]. rewrite decide_False; [by exists c'|].
    intros ->. apply Hne. by eapply ok_injective.
  - intros j c'. rewrite lookup_update. cbn [heap set_clients].
    destruct (decide (j = k)) as [->|Hne]; [rewrite Hk; cbn; by intros [= <-]|].
    intros Hj Hd. pose proof (Ho j c' Hj Hd) as Hj'. rewrite lookup_delete_ne; [done|].
    intros Heq. rewrite <-Heq in Hj'. congruence.
  - intros j c'. rewrite lookup_update. cbn [heap set_clients].
    destruct (decide (j = k)) as [->|Hne]; [rewrite Hk; cbn; intros [= <-]; exact (Hq _ _ Hk)|by apply Hq].
Qed.

Lemma close_conn_heap k h j c :
  heap h !! j = Some c → ∃ c', heap (close_conn k h) !! j = Some c' ∧ identity c' = identity c
    ∧ outbound c' = outbound c ∧ pending c' = pending c ∧ (j ≠ k → c' = c).
Proof.
  intros Hj. unfold close_conn. destruct (heap h !! k) as [ck|] eqn:Hk; [|eauto 10].
  destruct (conn_done ck); [cbn; eauto 10|]. rewrite lookup_update.
  destruct (decide (j = k)) as [->|?]; [|eauto 10]. rewrite Hj. cbn. eexists. by split_and!.
Qed.

(** ** Commands preserve the invariant *)

(** Installing a fresh connection for a user that has no open one. *)
Lemma insert_ok id pend h :
  hub_ok h → (∀ j c, heap h !! j = Some c → conn_done c = false → pb.UserId (identity c) ≠ pb.UserId id) →
  hub_ok (set_clients (<[pb.UserId id := length (heap h)]> (clients h))
           (set_heap (heap h ++ [MkConnection id [] [] pend false false false]) h)).
Proof.
  intros [Hp Hc Ho Hq] Hfree. constructor; [done|..]; cbn.
  - intros u j [[<- <-]|[Hne Hj]]%lookup_insert_Some.
    + eexists. rewrite lookup_app_r, Nat.sub_diag by lia. by split_and!.
    + destruct (Hc u j Hj) as (c&Hj'&?&?). exists c. split_and!; [|done..].
      by apply lookup_app_l_Some.
  - intros j c Hj Hd. apply lookup_app_Some in Hj as [Hj|[Hge Hj]].
    + rewrite lookup_insert_ne; [by apply Ho|]. intros Heq. by apply (Hfree j c).
    + apply lookup_lt_Some in Hj as Hlt. cbn in Hlt.
      apply list_lookup_singleton_Some in Hj as [_ <-]. cbn. rewrite lookup_insert_eq. f_equal. lia.
  - intros j c Hj. apply lookup_app_Some in Hj as [Hj|[_ Hj]]; [by eapply Hq|].
    apply list_lookup_singleton_Some in Hj as [_ <-]. cbn. lia.
Qed.

Lemma register_ok id pend h : hub_ok h → hub_ok (register_op id pend h).2.
Proof.
  intros Hok. unfold register_op. destruct (draining h); [done|].
  destruct (clients h !! pb.UserId id) as [k|] eqn:Hk.
  - destruct (ok_clients _ Hok _ _ Hk) as (c&Hc&Hid&Hopen). rewrite Hc.
    destruct (sameConnection _ _); [done|]. cbn [snd].
    pose proof (close_removed_ok _ _ _ Hok Hk) as Hclosed.
    set (h1 := close_conn k (set_clients (delete (pb.UserId id) (clients h)) h)) in *.
    assert (close_conn k h = set_clients (clients h) h1) as Heq.
    { unfold h1, close_conn. cbn. rewrite Hc, Hopen. done. }
    pose proof (insert_ok id pend h1 Hclosed) as Hins.
    assert (clients h1 = delete (pb.UserId id) (clients h)) as Hcl.
    { unfold h1, close_conn. cbn. by rewrite Hc, Hopen. }
    rewrite Hcl, insert_delete_eq in Hins. rewrite Heq. apply Hins.
    intros j c' Hj Hd Hu. pose proof (ok_open _ Hclosed j c' Hj Hd) as Hopen'.
    by rewrite Hcl, Hu, lookup_delete_eq in Hopen'.
  - cbn [snd]. apply insert_ok; [done|]. intros j c Hj Hd Hu.
    pose proof (ok_open _ Hok j c Hj Hd) as Ho. by rewrite Hu, Hk in Ho.
Qed.

Lemma unregister_ok id h : hub_ok h → hub_ok (unregister_op id h).2.
Proof.
  intros Hok. unfold unregister_op. destruct (clients h !! pb.UserId id) as [k|] eqn:Hk; [|done].
  destruct (heap h !! k) as [c|]; [|done]. destruct (sameConnection _ _); [|done].
  by apply close_removed_ok.
Qed.

Lemma deliver_one_ok m id now h : hub_ok h → hub_ok (deliver_one m id now h).2.
Proof.
  intros Hok. unfold deliver_one. destruct (_ && _); [done|].
  destruct (clients h !! pb.UserId id) as [k|] eqn:Hk; [|done].
  destruct (heap h !! k) as [c|] eqn:Hc; [|done]. destruct (pending c); [done|].
  destruct (sameConnection _ _); cbn [negb]; [|by apply count_ok].
  destruct (Nat.ltb_spec (length (outbound c)) (queueSize h)); cbn [snd].
  - apply update_conn_ok; [done|]. intros c' Hc'. simplify_eq. destruct (ok_queues _ Hok _ _ Hc).
    split_and!; cbn; [done..| |done]. rewrite length_app. cbn. lia.
  - apply close_removed_ok; [by apply markSlow_ok, count_ok|]. by rewrite markSlow_clients.
Qed.

Lemma deliver_ok m ts nows h : hub_ok h → hub_ok (deliver_op m ts nows h).2.
Proof.
  revert nows h. induction ts as [|id ts IH]; intros nows h Hok; cbn [deliver_op]; [done|].
  pose proof (deliver_one_ok m id (nows 0%nat) h Hok) as Hok1.
  destruct (deliver_one m id (nows 0%nat) h) as [o h1]. specialize (IH (λ i, nows (S i)) h1 Hok1).
  by destruct (deliver_op m ts _ h1) as [rs h2].
Qed.

Lemma drain_ok d h : hub_ok h → hub_ok (drain_op d h).2.
Proof. intros [? ? ? ?]. unfold drain_op. by destruct (_ || _). Qed.

Lemma activate_ok k h : hub_ok h → hub_ok (activate_op k h).2.
Proof.
  intros Hok. unfold activate_op. destruct (draining h); [done|]. destruct (heap h !! k) as [c|] eqn:Hk; [|done].
  destruct (bool_decide _); [|done]. apply update_conn_ok; [done|].
  intros c' Hc'. destruct (ok_queues _ Hok _ _ Hc'). by split_and!.
Qed.

(** ** Closing everything *)

Lemma close_fold ks h :
  NoDup ks → (∀ k, k ∈ ks → ∃ c, heap h !! k = Some c ∧ conn_done c = false) →
  let h' := fold_left (λ h k, close_conn k h) ks h in
  h' = set_heap (heap h') h ∧ panicked h' = panicked h ∧ length (heap h') = length (heap h)
  ∧ ∀ k c, heap h !! k = Some c → heap h' !! k = Some (if decide (k ∈ ks) then set_done c else c).
Proof.
  revert h. induction ks as [|k ks IH]; intros h Hnd Hks; cbn.
  { split_and!; [by destruct h|done|done|]. intros k c Hk. by rewrite decide_False by (apply not_elem_of_nil). }
  apply NoDup_cons in Hnd as [Hk Hnd]. destruct (Hks k) as (ck&Hck&Hopen); [set_solver|].
  assert (close_conn k h = update_conn set_done k h) as -> by (unfold close_conn; by rewrite Hck, Hopen).
  destruct (IH (update_conn set_done k h) Hnd) as (H1&H2&H3&H4).
  { intros j Hj. destruct (Hks j) as (c&Hc&?); [set_solver|]. rewrite lookup_update.
    rewrite decide_False by (intros ->; done). by exists c. }
  split_and!.
  - rewrite H1 at 1. done.
  - by rewrite H2.
  - rewrite H3. cbn. apply length_alter.
  - intros j c Hj. destruct (decide (j = k)) as [->|Hne].
    + rewrite (H4 k (set_done c)) by (rewrite lookup_update, decide_True, Hj by done; done).
      rewrite decide_False by done. by rewrite decide_True by set_solver.
    + rewrite (H4 j c) by (rewrite lookup_update, decide_False by done; done).
      destruct (decide (j ∈ ks)); [rewrite decide_True by set_solver|rewrite decide_False by set_solver]; done.
Qed.

(** After [closeAll] every connection is closed and none is listed. *)
Lemma closeAll_spec h :
  hub_ok h →
  hub_ok (closeAll h) ∧ clients (closeAll h) = ∅ ∧ draining (closeAll h) = draining h
  ∧ deadline (closeAll h) = deadline h ∧ length (heap (closeAll h)) = length (heap h)
  ∧ ∀ k c, heap (closeAll h) !! k = Some c → conn_done c = true.
Proof.
  intros Hok. unfold closeAll. set (ks := (map_to_list (clients h)).*2).
  assert (∀ k, k ∈ ks ↔ ∃ u, clients h !! u = Some k) as Hks.
  { intros k. unfold ks. rewrite list_elem_of_fmap. split.
    - intros ([u k']&->&Hin%elem_of_map_to_list). by exists u.
    - intros [u Hu]. exists (u, k). split; [done|]. by apply elem_of_map_to_list. }
  destruct (close_fold ks h) as (H1&H2&H3&H4).
  { unfold ks. apply NoDup_fmap_2_strong; [|apply NoDup_map_to_list].
    intros [u k] [u' k'] Hu%elem_of_map_to_list Hu'%elem_of_map_to_list Heq. cbn in *. subst k'.
    f_equal. by eapply ok_injective. }
  { intros k [u Hu]%Hks. destruct (ok_clients _ Hok _ _ Hu) as (c&?&_&?). by exists c. }
  set (h' := fold_left _ ks h) in *. clearbody h'.
  assert (∀ k c, heap h' !! k = Some c → ∃ c0, heap h !! k = Some c0 ∧ c = (if decide (k ∈ ks) then set_done c0 else c0)) as Hinv.
  { intros k c Hk. destruct (heap h !! k) as [c0|] eqn:Hk0.
    - rewrite (H4 _ _ Hk0) in Hk. exists c0. split; [done|congruence].
    - apply lookup_ge_None in Hk0. apply lookup_lt_Some in Hk. lia. }
  assert (∀ k c, heap h' !! k = Some c → conn_done c = true) as Hdone.
  { intros k c Hk. destruct (Hinv k c Hk) as (c0&Hk0&->). destruct (decide (k ∈ ks)) as [|Hn]; [done|].
    destruct (conn_done c0) eqn:Hd; [done|]. exfalso. apply Hn, Hks. eexists. by eapply ok_open. }
  split_and!; try done; [|by rewrite H1..].
  constructor; cbn; [by rewrite H2; apply Hok| | |].
  - intros u k. by rewrite lookup_empty.
  - intros k c Hk Hd. rewrite (Hdone k c Hk) in Hd. done.
  - intros k c Hk. destruct (Hinv k c Hk) as (c0&Hk0&->). rewrite H1. cbn.
    destruct (ok_queues _ Hok _ _ Hk0). by destruct (decide _).
Qed.

Lemma offer_control_ok over pick k ctl h : hub_ok h → hub_ok (offer_control over pick k ctl h).2.
Proof.
  intros Hok. unfold offer_control. destruct (heap h !! k) as [c|] eqn:Hk; [|done].
  destruct (Nat.ltb_spec (length (controls c)) (queueSize h)); (destruct (_ && _); [done|]); cbn [snd].
  - apply update_conn_ok; [done|]. intros c' Hc'. simplify_eq. destruct (ok_queues _ Hok _ _ Hk).
    split_and!; cbn; [done..|]. rewrite length_app. cbn. lia.
  - by apply markSlow_ok, count_ok.
Qed.

Lemma step_ok h h' : hub_ok h → step h h' → hub_ok h'.
Proof.
  intros Hok Hstep. inversion Hstep; subst; auto using register_ok, unregister_ok, deliver_ok, drain_ok,
    activate_ok, offer_control_ok, markSlow_ok; try (by destruct Hok; constructor).
  - destruct (closeAll_spec _ Hok) as ([]&_). by constructor.
  - destruct (closeAll_spec _ Hok) as ([]&_). by constructor.
  - apply update_conn_ok; [done|]. intros c' Hc'. simplify_eq. destruct (ok_queues _ Hok _ _ H0) as [Hq ?].
    split_and!; cbn; [done..| |done]. rewrite H1 in Hq. cbn in Hq. lia.
  - apply update_conn_ok; [done|]. intros c' Hc'. simplify_eq. destruct (ok_queues _ Hok _ _ H0) as [? Hq].
    split_and!; cbn; [done..|]. rewrite H1 in Hq. cbn in Hq. lia.
  - apply update_conn_ok; [done|]. intros c' Hc'. destruct (ok_queues _ Hok _ _ Hc'). by split_and!.
Qed.

Lemma NewHub_ok id q h : NewHub id q = Ok h → hub_ok h.
Proof.
  unfold NewHub. destruct id as [c|]; [|done]. destruct (validateComet _); [|done]. intros [= <-].
  constructor; cbn; [done|..].
  - intros u k. by rewrite lookup_empty.
  - intros k c0. by rewrite lookup_nil.
  - intros k c0. by rewrite lookup_nil.
Qed.

(** C9: whatever the interleaving of commands, timers, writers, readers and shutdown, a
    hub built by [NewHub] closes no channel twice, lists exactly the open connections
    under their user, one per user, and keeps every queue within its size. *)
Theorem reachable_hub_ok id q h0 h : NewHub id q = Ok h0 → reachable h0 h → hub_ok h.
Proof. intros H0 Hr. induction Hr; [by eapply NewHub_ok|by eapply step_ok]. Qed.

(** ** Draining and closing *)

Definition narrows (h h' : Hub) : Prop :=
  draining h' = true ∧ deadline h' ≤ deadline h ∧ clients h' ⊆ clients h.

Lemma narrows_same h h' :
  draining h = true → draining h' = draining h → deadline h' = deadline h → clients h' = clients h → narrows h h'.
Proof. intros Hd Hd' Hdl Hc. split_and!; [congruence|lia|by rewrite Hc]. Qed.
Lemma narrows_trans h1 h2 h3 : narrows h1 h2 → narrows h2 h3 → narrows h1 h3.
Proof. intros (?&?&?) (?&?&?). split_and!; [done|lia|by etrans]. Qed.

Lemma close_conn_frame k h :
  draining (close_conn k h) = draining h ∧ deadline (close_conn k h) = deadline h
  ∧ clients (close_conn k h) = clients h ∧ queueSize (close_conn k h) = queueSize h.
Proof. unfold close_conn. destruct (heap h !! k) as [c|]; [|done]. by destruct (conn_done c). Qed.
Lemma markSlow_frame k h :
  draining (markSlow k h) = draining h ∧ deadline (markSlow k h) = deadline h
  ∧ clients (markSlow k h) = clients h ∧ queueSize (markSlow k h) = queueSize h.
Proof. unfold markSlow. destruct (heap h !! k) as [c|]; [|done]. by destruct (slowClosed c). Qed.

Lemma unregister_narrows id h : draining h = true → narrows h (unregister_op id h).2.
Proof.
  intros Hd. unfold unregister_op. destruct (clients h !! _) as [k|]; [|by apply narrows_same].
  destruct (heap h !! k) as [c|]; [|by apply narrows_same]. destruct (sameConnection _ _); [|by apply narrows_same].
  cbn [snd]. unfold narrows. destruct (close_conn_frame k (set_clients (delete (pb.UserId id) (clients h)) h)) as (->&->&->&_).
  split_and!; cbn; [done|lia|apply delete_subseteq].
Qed.

Lemma deliver_one_narrows m id now h : draining h = true → narrows h (deliver_one m id now h).2.
Proof.
  intros Hd. unfold deliver_one. destruct (_ && _); [by apply narrows_same|].
  destruct (clients h !! _) as [k|]; [|by apply narrows_same].
  destruct (heap h !! k) as [c|]; [|by apply narrows_same]. destruct (pending c); [by apply narrows_same|].
  destruct (negb _); [by apply narrows_same|]. destruct (_ <? _)%nat; [by apply narrows_same|]. cbn [snd].
  set (h1 := markSlow k (count 1 0 0 h)). unfold narrows.
  destruct (close_conn_frame k (set_clients (delete (pb.UserId id) (clients h1)) h1)) as (->&->&->&_). cbn.
  destruct (markSlow_frame k (count 1 0 0 h)) as (Hm1&Hm2&Hm3&_).
  unfold h1. rewrite Hm1, Hm2, Hm3. split_and!; cbn; [done|lia|apply delete_subseteq].
Qed.

Lemma deliver_narrows m ts nows h : draining h = true → narrows h (deliver_op m ts nows h).2.
Proof.
  revert nows h. induction ts as [|id ts IH]; intros nows h Hd; cbn [deliver_op]; [by apply narrows_same|].
  pose proof (deliver_one_narrows m id (nows 0%nat) h Hd) as Hn1.
  destruct (deliver_one m id (nows 0%nat) h) as [o h1]. cbn [snd] in Hn1.
  pose proof (IH (λ i, nows (S i)) h1 (proj1 Hn1)) as Hn2.
  destruct (deliver_op m ts _ h1) as [rs h2]. by eapply narrows_trans.
Qed.

Lemma closeAll_narrows h : hub_ok h → draining h = true → narrows h (closeAll h).
Proof.
  intros Hok Hd. destruct (closeAll_spec _ Hok) as (_&Hc&Hdr&Hdl&_). unfold narrows.
  rewrite Hc, Hdr, Hdl. split_and!; [done|lia|apply map_empty_subseteq].
Qed.

(** Draining is permanent.  Once a hub drains it never stops draining, its deadline is
    never extended, no connection is added or replaced, and none is activated. *)
Theorem draining_is_permanent h h' :
  hub_ok h → draining h = true → step h h' →
  draining h' = true ∧ deadline h' ≤ deadline h ∧ clients h' ⊆ clients h
  ∧ (∀ id pend, (register_op id pend h').1 = Err ErrDraining) ∧ (∀ k, (activate_op k h').1 = Err ErrDraining).
Proof.
  intros Hok Hd Hstep.
  assert (narrows h h') as (Hd'&?&?).
  { inversion Hstep; subst; auto using unregister_narrows, deliver_narrows; try (by apply narrows_same).
    - unfold register_op. rewrite Hd. by apply narrows_same.
    - unfold drain_op. rewrite Hd. cbn [negb orb].
      destruct (Z.ltb_spec d (deadline h)); cbn [snd]; split_and!; cbn; done || lia.
    - unfold activate_op. rewrite Hd. by apply narrows_same.
    - by apply closeAll_narrows.
    - by apply closeAll_narrows.
    - unfold offer_control. destruct (heap h !! k) as [c|]; [|by apply narrows_same].
      destruct (_ && _); [by apply narrows_same|]. destruct (_ <? _)%nat; [by apply narrows_same|].
      cbn [snd]. destruct (markSlow_frame k (count 1 0 0 h)) as (?&?&?&_). by apply narrows_same.
    - destruct (markSlow_frame k h) as (?&?&?&_). by apply narrows_same. }
  split_and!; try done.
  - intros id pend. unfold register_op. by rewrite Hd'.
  - intros k. unfold activate_op. by rewrite Hd'.
Qed.

(** when the drain timer fires, and when the hub stops, every connection is closed and
    none is listed any more. *)
Theorem closing_closes_all h :
  hub_ok h →
  (∀ k c, heap (fire_timer h) !! k = Some c → conn_done c = true) ∧ clients (fire_timer h) = ∅
  ∧ (∀ k c, heap (stop h) !! k = Some c → conn_done c = true) ∧ clients (stop h) = ∅.
Proof.
  intros Hok. destruct (closeAll_spec h Hok) as (_&Hc&_&_&_&Hall).
  split_and!; [exact Hall|exact Hc|exact Hall|exact Hc].
Qed.

(** ** Delivery *)

Lemma length_close_conn k h : length (heap (close_conn k h)) = length (heap h).
Proof.
  unfold close_conn. destruct (heap h !! k) as [c|]; [|done]. destruct (conn_done c); [done|]. apply length_alter.
Qed.
Lemma length_markSlow k h : length (heap (markSlow k h)) = length (heap h).
Proof.
  unfold markSlow. destruct (heap h !! k) as [c|]; [|done]. destruct (slowClosed c); [done|]. apply length_alter.
Qed.

Definition result_of (id : pb.ConnectionIdentity) (o : Z) : option pb.DeliveryResult :=
  Some (pb.MkDeliveryResult (Some id) o).

(** What [c] becomes when the messages [q] are appended to its queue. *)
Definition receives (c c' : Connection) (q : list pb.MessageView) : Prop :=
  identity c' = identity c ∧ pending c' = pending c ∧ outbound c' = outbound c ++ q.

Lemma receives_refl c : receives c c [].
Proof. split_and!; [done|done|by rewrite app_nil_r]. Qed.
Lemma receives_trans c1 c2 c3 q1 q2 : receives c1 c2 q1 → receives c2 c3 q2 → receives c1 c3 (q1 ++ q2).
Proof. intros (?&?&Hq1) (?&?&Hq2). split_and!; [congruence|congruence|]. by rewrite Hq2, Hq1, app_assoc. Qed.

(** The outcome of one target, and the only connection it can touch. *)
Lemma deliver_one_spec m id now h :
  let '(o, h') := deliver_one m id now h in
  (o = pb.OUTCOME_ENQUEUED → ∃ k c, clients h !! pb.UserId id = Some k ∧ heap h !! k = Some c
     ∧ identity c = id ∧ pending c = false)
  ∧ pb.OUTCOME_ENQUEUED ≤ o ≤ pb.OUTCOME_DRAINING
  ∧ (∀ u, u ≠ pb.UserId id → clients h' !! u = clients h !! u)
  ∧ (clients h' !! pb.UserId id = clients h !! pb.UserId id ∨ clients h' !! pb.UserId id = None)
  ∧ (∀ k, heap h !! k = None → heap h' !! k = None)
  ∧ ∀ k c, heap h !! k = Some c → ∃ c', heap h' !! k = Some c' ∧
      receives c c' (if bool_decide (o = pb.OUTCOME_ENQUEUED ∧ clients h !! pb.UserId id = Some k) then [m] else []).
Proof.
  unfold deliver_one.
  assert (∀ o h', o ≠ pb.OUTCOME_ENQUEUED → heap h' = heap h → ∀ k c, heap h !! k = Some c → ∃ c', heap h' !! k = Some c' ∧
     receives c c' (if bool_decide (o = pb.OUTCOME_ENQUEUED ∧ clients h !! pb.UserId id = Some k) then [m] else [])) as Hsame.
  { intros o h' Ho Hh k c Hk. rewrite Hh. exists c. split; [done|].
    rewrite bool_decide_false by (intros [? _]; done). apply receives_refl. }
  destruct (_ && _); [split_and!; try done; auto|].
  destruct (clients h !! pb.UserId id) as [k|] eqn:Hu; [|split_and!; try done; auto].
  destruct (heap h !! k) as [c|] eqn:Hk; [|split_and!; try done; auto].
  destruct (pending c) eqn:Hp; [split_and!; try done; auto|].
  destruct (sameConnection _ _) eqn:Hs; cbn [negb].
  2:{ split_and!; try done; auto. }
  apply sameConnection_spec in Hs. destruct (_ <? _)%nat.
  - split_and!; try done; auto.
    + intros _. by exists k, c.
    + intros j Hj. rewrite lookup_update. by destruct (decide (j = k)) as [->|]; [rewrite Hj|].
    + intros j c' Hj. rewrite lookup_update. destruct (decide (j = k)) as [->|Hne].
      * rewrite bool_decide_true by done. rewrite Hk. simplify_eq. cbn. eexists. split; [done|]. by split_and!.
      * rewrite bool_decide_false by (intros [_ ?]; congruence). exists c'. split; [done|apply receives_refl].
  - set (h1 := markSlow k (count 1 0 0 h)).
    destruct (markSlow_frame k (count 1 0 0 h)) as (_&_&Hcl&_). fold h1 in Hcl.
    destruct (close_conn_frame k (set_clients (delete (pb.UserId id) (clients h1)) h1)) as (_&_&Hc2&_).
    split_and!; try done.
    + intros u Hne. rewrite Hc2. cbn. rewrite lookup_delete_ne by done. by rewrite Hcl.
    + right. rewrite Hc2. cbn. by rewrite lookup_delete_eq.
    + intros j Hj. apply lookup_ge_None. apply lookup_ge_None in Hj.
      by rewrite length_close_conn; unfold h1; cbn; rewrite length_markSlow.
    + intros j c' Hj. rewrite bool_decide_false by (intros [? _]; done).
      destruct (markSlow_heap k (count 1 0 0 h) j c' Hj) as (c1&Hj1&?&?&?&?).
      destruct (close_conn_heap k (set_clients (delete (pb.UserId id) (clients h1)) h1) j c1 Hj1) as (c2&Hj2&?&?&?&_).
      exists c2. split; [done|]. split_and!; [congruence|congruence|]. rewrite app_nil_r. congruence.
Qed.

Lemma deliver_op_targets m ts nows h :
  (λ r, r ≫= pb.Target) <$> (deliver_op m ts nows h).1 = Some <$> ts.
Proof.
  revert nows h. induction ts as [|id ts IH]; intros nows h; cbn [deliver_op]; [done|].
  destruct (deliver_one m id (nows 0%nat) h) as [o h1]. specialize (IH (λ i, nows (S i)) h1).
  destruct (deliver_op m ts _ h1) as [rs h2]. cbn in *. by rewrite IH.
Qed.

Lemma deliver_op_result m ts nows h id o :
  result_of id o ∈ (deliver_op m ts nows h).1 → id ∈ ts.
Proof.
  intros Hin. assert (Some id ∈ Some <$> ts) as Hs.
  { rewrite <-(deliver_op_targets m ts nows h). apply list_elem_of_fmap. by exists (result_of id o). }
  by apply list_elem_of_fmap in Hs as (?&[= <-]&?).
Qed.

(** C10: a delivery answers every target, in order and with one of the six outcomes, and
    ENQUEUED means exactly this: the message was appended once to the queue of the open,
    activated connection with that very identity.  No other queue changes: a pending,
    replaced or foreign connection receives nothing. *)
Theorem Deliver_enqueues_once m ts nows h :
  NoDup ts →
  let '(rs, h') := deliver_op m ts nows h in
  (λ r, r ≫= pb.Target) <$> rs = Some <$> ts
  ∧ Forall (λ r, ∃ id o, r = result_of id o ∧ pb.OUTCOME_ENQUEUED ≤ o ≤ pb.OUTCOME_DRAINING) rs
  ∧ (∀ id, result_of id pb.OUTCOME_ENQUEUED ∈ rs → ∃ k c, clients h !! pb.UserId id = Some k
       ∧ heap h !! k = Some c ∧ identity c = id ∧ pending c = false)
  ∧ ∀ k c, heap h !! k = Some c → ∃ c', heap h' !! k = Some c' ∧
      receives c c' (if bool_decide (clients h !! pb.UserId (identity c) = Some k
                                     ∧ result_of (identity c) pb.OUTCOME_ENQUEUED ∈ rs) then [m] else []).
Proof.
  intros Hnd. pose proof (deliver_op_targets m ts nows h) as Htg.
  destruct (deliver_op m ts nows h) as [rs h'] eqn:Hd. split; [done|]. clear Htg. cbn [fst] in *.
  revert nows h rs h' Hd. induction Hnd as [|id ts Hid Hnd IH]; intros nows h rs h' Hd; cbn [deliver_op] in Hd.
  { simplify_eq. split_and!; [constructor|by intros ? ?%not_elem_of_nil|]. intros k c Hk. exists c. split; [done|].
    rewrite bool_decide_false; [apply receives_refl|]. by intros [_ ?%not_elem_of_nil]. }
  pose proof (deliver_one_spec m id (nows 0%nat) h) as Hone.
  destruct (deliver_one m id (nows 0%nat) h) as [o h1]. destruct Hone as (Henq&Ho&Hother&Hown&Hnone&Hheap).
  pose proof (deliver_op_result m ts (λ i, nows (S i)) h1) as Hres.
  destruct (deliver_op m ts _ h1) as [rs1 h2] eqn:Hd1. cbn [fst] in Hres. simplify_eq.
  destruct (IH _ _ _ _ Hd1) as (Hall&Henq1&Hheap1).
  assert (∀ id' k, clients h1 !! pb.UserId id' = Some k → clients h !! pb.UserId id' = Some k) as Hsub.
  { intros id' k Hk. destruct (decide (pb.UserId id' = pb.UserId id)) as [Heq|?]; [|by rewrite <-Hother].
    rewrite Heq in *. destruct Hown as [Hown|Hown]; congruence. }
  split_and!.
  - constructor; [|done]. by exists id, o.
  - intros id' [Heq|Hin]%elem_of_cons; [injection Heq as -> Heo; by apply Henq|].
    destruct (Henq1 id' Hin) as (k&c1&Hk&Hc1&Hic&Hpc). exists k.
    destruct (heap h !! k) as [c|] eqn:Hc.
    + destruct (Hheap k c Hc) as (c1'&Hc1'&Hi&Hp&_). simplify_eq. exists c.
      split_and!; [by apply Hsub|done|congruence|congruence].
    + by rewrite (Hnone k Hc) in Hc1.
  - intros k c Hk. destruct (Hheap k c Hk) as (c1&Hk1&Hr1). destruct (Hheap1 k c1 Hk1) as (c2&Hk2&Hr2).
    exists c2. split; [done|]. pose proof (receives_trans _ _ _ _ _ Hr1 Hr2) as Hr.
    destruct Hr1 as (Hi1&_). rewrite Hi1 in Hr.
    assert (o = pb.OUTCOME_ENQUEUED → clients h !! pb.UserId id = Some k → identity c = id) as Hown1.
    { intros Hoe Hck. destruct (Henq Hoe) as (k'&c'&?&?&?&_). by simplify_eq. }
    destruct (bool_decide_reflect (o = pb.OUTCOME_ENQUEUED ∧ clients h !! pb.UserId id = Some k)) as [[Hoe Hck]|Hno].
    + specialize (Hown1 Hoe Hck). rewrite bool_decide_false in Hr.
      2:{ rewrite Hown1. intros [_ Hin]. apply Hid. by eapply Hres. }
      rewrite bool_decide_true; [done|]. rewrite Hown1, Hoe. split; [done|apply list_elem_of_here].
    + cbn [app] in Hr. destruct (bool_decide_reflect (clients h1 !! pb.UserId (identity c) = Some k
        ∧ result_of (identity c) pb.OUTCOME_ENQUEUED ∈ rs1)) as [[Hck Hin]|Hno1].
      * rewrite bool_decide_true; [done|]. split; [by apply Hsub|by apply list_elem_of_further].
      * rewrite bool_decide_false; [done|]. intros [Hck [Heq|Hin]%elem_of_cons].
        -- injection Heq as Hic Hoe. apply Hno. by rewrite <-Hic.
        -- apply Hno1. split; [|done]. destruct (Henq1 _ Hin) as (k'&_&Hk'&_).
           pose proof (Hsub _ _ Hk'). congruence.
Qed.

(** [Unregister] removes the connection with that very identity and closes it, and
    does nothing else: another connection of the same user is left alone. *)
Theorem Unregister_exact id h :
  hub_ok h →
  let '(o, h') := unregister_op id h in
  match clients h !! pb.UserId id with
  | None => o = pb.NOT_FOUND ∧ h' = h
  | Some k => ∃ c, heap h !! k = Some c ∧
      if decide (identity c = id)
      then o = pb.DELETED ∧ clients h' = delete (pb.UserId id) (clients h)
           ∧ heap h' !! k = Some (set_done c) ∧ ∀ j, j ≠ k → heap h' !! j = heap h !! j
      else o = pb.NOT_CURRENT ∧ h' = h
  end.
Proof.
  intros Hok. unfold unregister_op. destruct (clients h !! pb.UserId id) as [k|] eqn:Hu; [|done].
  destruct (ok_clients _ Hok _ _ Hu) as (c&Hc&_&Hopen). rewrite Hc.
  destruct (sameConnection (Some (identity c)) (Some id)) eqn:Hs.
  - apply sameConnection_spec in Hs. exists c. rewrite decide_True by done. split; [done|].
    destruct (close_conn_frame k (set_clients (delete (pb.UserId id) (clients h)) h)) as (_&_&Hcl&_).
    assert (close_conn k (set_clients (delete (pb.UserId id) (clients h)) h)
            = update_conn set_done k (set_clients (delete (pb.UserId id) (clients h)) h)) as Heq.
    { unfold close_conn. cbn. by rewrite Hc, Hopen. }
    split_and!; [done|by rewrite Hcl| |].
    + rewrite Heq, lookup_update, decide_True by done. cbn. by rewrite Hc.
    + intros j Hj. by rewrite Heq, lookup_update, decide_False by done.
  - exists c. split; [done|]. destruct (decide (identity c = id)) as [Heq|]; [|done].
    apply sameConnection_spec in Heq. congruence.
Qed.
End Hub.

(** ** A concrete hub *)

Definition sample_comet : pb.CometIdentity := pb.MkCometIdentity "comet-1" boot1.
Definition sample_identity (user : string) : pb.ConnectionIdentity :=
  pb.MkConnectionIdentity user "comet-1" connection1 token1.
Definition empty_hub : Hub :=
  match NewHub (H := Reference.external) (Some sample_comet) 2 with
  | Ok h => h
  | Err _ => MkHub sample_comet 0 [] ∅ false 0 None false false false 0 0 0 false
  end.
(** One user connected, then a drain that ends at the instant 5. *)
Definition one_user : Hub := (register_op (sample_identity user1) false empty_hub).2.
Definition draining_hub : Hub := (drain_op 5 one_user).2.
Definition sample_view : pb.MessageView :=
  pb.MkMessageView message1 "" session1 user1 None pb.MESSAGE_TYPE_TEXT "hi" pb.MESSAGE_ORIGIN_USER None 7.

Lemma empty_hub_ok : hub_ok empty_hub.
Proof. by apply (NewHub_ok (H := Reference.external) (Some sample_comet) 2). Qed.
Lemma one_user_ok : hub_ok one_user.
Proof. apply register_ok, empty_hub_ok. Qed.
Lemma draining_hub_ok : hub_ok draining_hub.
Proof. apply drain_ok, one_user_ok. Qed.

Lemma reachable_hub_ok_witness :
  hub_ok one_user ∧ heap one_user = [MkConnection (sample_identity user1) [] [] false false false false].
Proof.
  split; [|by vm_compute].
  apply (reachable_hub_ok (H := Reference.external) (Some sample_comet) 2 empty_hub); [reflexivity|].
  eapply reach_step; [apply reach_start|].
  by apply (step_register (H := Reference.external) empty_hub (sample_identity user1) false).
Defined.

Lemma draining_is_permanent_witness : deadline (drain_op 3 draining_hub).2 = 3 ∧ draining (drain_op 3 draining_hub).2 = true.
Proof.
  split; [reflexivity|].
  apply (draining_is_permanent (H := Reference.external) draining_hub); [apply draining_hub_ok|reflexivity|].
  by apply (step_drain draining_hub 0 3).
Defined.

Lemma closing_closes_all_witness : clients (fire_timer draining_hub) = ∅ ∧ clients draining_hub ≠ ∅.
Proof.
  split; [|by vm_compute]. apply (closing_closes_all draining_hub draining_hub_ok).
Defined.

Lemma Deliver_enqueues_once_witness :
  outbound <$> heap (deliver_op sample_view [sample_identity user1; sample_identity user2] (λ _, 0) one_user).2
    = [[sample_view]]
  ∧ ∃ k c, clients one_user !! user1 = Some k ∧ heap one_user !! k = Some c
      ∧ identity c = sample_identity user1 ∧ pending c = false.
Proof.
  split; [by vm_compute|].
  assert (NoDup [sample_identity user1; sample_identity user2]) as Hnd by (by apply (bool_decide_unpack _)).
  destruct (Deliver_enqueues_once sample_view _ (λ _, 0) one_user Hnd) as (_&_&Henq&_).
  apply (Henq (sample_identity user1)). apply list_elem_of_here.
Defined.

Lemma Unregister_exact_witness :
  (unregister_op (sample_identity user1) one_user).1 = pb.DELETED
  ∧ clients (unregister_op (sample_identity user1) one_user).2 = delete user1 (clients one_user).
Proof.
  pose proof (Unregister_exact (sample_identity user1) one_user one_user_ok) as Hu.
  destruct (unregister_op (sample_identity user1) one_user) as [o h'].
  destruct Hu as (c&Hc&Hu). injection Hc as <-. destruct Hu as (Ho&Hcl&_). by split.
Defined.
