(* ===== verification/CometRpc.v ===== *)
(** * The RPC boundary of Comet: [internal/comet/rpc.go] *)
From S2P Require Import Prelude GoStd GoTime External Dto CometValidation CometHub.
Local Open Scope Z_scope.

Record RPCCredentials : Type := MkRPCCredentials { JobToken : string; LogicToken : string; AdminToken : string }.
Record RPCService : Type := MkRPCService { hub : Hub; credentials : RPCCredentials }.
Definition set_hub (h : Hub) (s : RPCService) : RPCService := MkRPCService h (credentials s).

Record KickRequest : Type := MkKickRequest {
  KickComet : option pb.CometIdentity; KickTarget : option pb.ConnectionIdentity; KickReason : Z; KickRequestId : string
}.
Record DrainRequest : Type := MkDrainRequest {
  DrainComet : option pb.CometIdentity; DrainReqDeadline : option Timestamp; DrainRequestId : string
}.

Definition rpcError (c : code) (reason retry : Z) (requestID : string) : status_error :=
  StatusError c [Some (pb.MkErrorDetail reason retry requestID)].
Definition context_code (e : context_error) : code :=
  match e with ContextCanceled => Canceled | ContextDeadlineExceeded => DeadlineExceeded end.
Definition mapError (e : comet_error) (requestID : string) : status_error :=
  match e with
  | ErrContext e => StatusError (context_code e) []
  | ErrInvalid => rpcError InvalidArgument pb.REASON_INVALID_ARGUMENT pb.DO_NOT_RETRY requestID
  | ErrDraining => rpcError Unavailable pb.REASON_DRAINING pb.REFRESH_ROUTE requestID
  | ErrClosed => rpcError Unavailable pb.REASON_DEPENDENCY_UNAVAILABLE pb.REFRESH_ROUTE requestID
  end.

Section Rpc.
Context `{External}.

Definition token_ok (token : string) : bool :=
  negb ((len token <? 32) || (256 <? len token)) && forallb (λ r, negb ((r <=? 32) || (126 <? r))) (runes token).
Definition NewRPCService (h : Hub) (c : RPCCredentials) : result comet_error RPCService :=
  if token_ok (JobToken c) && token_ok (LogicToken c) && bool_decide (LogicToken c ≠ JobToken c)
     && token_ok (AdminToken c) && bool_decide (AdminToken c ≠ JobToken c)
     && bool_decide (AdminToken c ≠ LogicToken c)
  then Ok (MkRPCService h c) else Err ErrInvalid.

Definition unauthenticated : status_error :=
  rpcError Unauthenticated pb.REASON_UNAUTHENTICATED pb.REAUTHENTICATE "".
(** [metadata] are the values of the authorization header. *)
Definition authorize (s : RPCService) (metadata : list string) (expected : string) : result status_error unit :=
  match metadata with
  | [value] =>
    match cut_prefix "Bearer " value with
    | None => Err unauthenticated
    | Some token =>
      if bool_decide (token = expected) then Ok tt
      else if bool_decide (token = JobToken (credentials s)) || bool_decide (token = LogicToken (credentials s))
              || bool_decide (token = AdminToken (credentials s))
      then Err (rpcError PermissionDenied pb.REASON_PERMISSION_DENIED pb.DO_NOT_RETRY "")
      else Err unauthenticated
    end
  | _ => Err unauthenticated
  end.

Definition checkIdentity (s : RPCService) (id : option pb.CometIdentity) (requestID : string) : result status_error unit :=
  if negb (validRequestID requestID) || negb (validateComet id)
  then Err (rpcError InvalidArgument pb.REASON_INVALID_ARGUMENT pb.DO_NOT_RETRY "")
  else if negb (sameComet id (Some (hub_identity (hub s))))
  then Err (rpcError FailedPrecondition pb.REASON_INSTANCE_NOT_REGISTERED pb.REFRESH_ROUTE requestID)
  else Ok tt.

Definition map_result {A} (requestID : string) (r : result comet_error A) : result status_error A :=
  match r with Ok a => Ok a | Err e => Err (mapError e requestID) end.

(** A handler answers and leaves the service with a new hub; [f] is the fate of its call
    of the hub, [nows] and [now] are readings of the clock. *)
Definition Deliver (f : fate) (metadata : list string) (req : option pb.DeliverRequest) (nows : nat → Z)
    (s : RPCService) : result status_error pb.DeliverResponse * RPCService :=
  match authorize s metadata (JobToken (credentials s)) with
  | Err e => (Err e, s)
  | Ok _ =>
    match req with
    | None => (Err (mapError ErrInvalid ""), s)
    | Some req =>
      match checkIdentity s (pb.ReqComet req) (pb.ReqRequestId req) with
      | Err e => (Err e, s)
      | Ok _ =>
        let '(r, h) := CometHub.Deliver f (pb.ReqTaskId req) (pb.ReqMessage req) (pb.ReqTargets req) nows (hub s) in
        (match r with
         | Err e => Err (mapError e (pb.ReqRequestId req))
         | Ok rs => Ok (pb.MkDeliverResponse (pb.ReqTaskId req)
                          (match pb.ReqMessage req with Some m => pb.MessageId m | None => "" end) rs)
         end, set_hub h s)
      end
    end
  end.

Definition Kick (f : fate) (metadata : list string) (req : option KickRequest) (s : RPCService)
  : result status_error Z * RPCService :=
  match authorize s metadata (LogicToken (credentials s)) with
  | Err e => (Err e, s)
  | Ok _ =>
    match req with
    | None => (Err (mapError ErrInvalid ""), s)
    | Some req =>
      match checkIdentity s (KickComet req) (KickRequestId req) with
      | Err e => (Err e, s)
      | Ok _ =>
        if negb ((KickReason req =? pb.KICK_REASON_REPLACED) || (KickReason req =? pb.KICK_REASON_AUTH_EXPIRED)
                 || (KickReason req =? pb.KICK_REASON_SHUTDOWN))
        then (Err (mapError ErrInvalid (KickRequestId req)), s)
        else let '(r, h) := Unregister f (KickTarget req) (hub s) in
             (map_result (KickRequestId req) r, set_hub h s)
      end
    end
  end.

Definition Drain (f : fate) (now : Z) (metadata : list string) (req : option DrainRequest) (s : RPCService)
  : result status_error (Timestamp * bool * Z) * RPCService :=
  match authorize s metadata (AdminToken (credentials s)) with
  | Err e => (Err e, s)
  | Ok _ =>
    match req with
    | None => (Err (mapError ErrInvalid ""), s)
    | Some req =>
      match checkIdentity s (DrainComet req) (DrainRequestId req) with
      | Err e => (Err e, s)
      | Ok _ =>
        match DrainReqDeadline req with
        | None => (Err (mapError ErrInvalid (DrainRequestId req)), s)
        | Some d =>
          if negb (timestamp_check_valid d) then (Err (mapError ErrInvalid (DrainRequestId req)), s)
          else let '(r, h) := CometHub.Drain f now (as_ns d) (hub s) in
               (match r with
                | Err e => Err (mapError e (DrainRequestId req))
                | Ok st => Ok (timestamp_of_ns (DrainDeadline st), AlreadyDraining st, ActiveConnections st)
                end, set_hub h s)
        end
      end
    end
  end.
End Rpc.
