(* ===== verification/CometRpcProofs.v ===== *)
(** * Who may ask a Comet for what *)
From S2P Require Import Prelude GoStd GoTime External Dto Samples CometValidation CometHub CometHubProofs CometRpc.
Local Open Scope Z_scope.

Section Rpc.
Context `{External}.

(** The metadata of a call that carries exactly one bearer token. *)
Definition bearer (token : string) : list string := ["Bearer " +:+ token].
Definition role_tokens (c : RPCCredentials) : list string := [JobToken c; LogicToken c; AdminToken c].

#[local] Instance bearer_inj : Inj (=) (=) bearer.
Proof. unfold bearer. intros t t' [= Ht]. exact Ht. Qed.

Lemma authorize_Ok s md expected u : authorize s md expected = Ok u ↔ md = bearer expected.
Proof.
  unfold authorize. destruct u, md as [|v [|w md]]; try (split; [done|intros Hb; discriminate Hb]).
  destruct (cut_prefix "Bearer " v) as [t|] eqn:Hc.
  - apply cut_prefix_Some in Hc as ->. fold (bearer t). case_bool_decide; [naive_solver|].
    split; [by destruct (_ || _)|]. intros Hb%(inj bearer). done.
  - split; [done|]. intros [= ->]. by rewrite cut_prefix_app in Hc.
Qed.

(** The refusal tells a known role from an unknown caller. *)
Definition refusal (c : RPCCredentials) (md : list string) : code :=
  if bool_decide (md ∈ bearer <$> role_tokens c) then PermissionDenied else Unauthenticated.
Lemma authorize_Err s md expected e :
  authorize s md expected = Err e → err_code e = refusal (credentials s) md.
Proof.
  unfold authorize, refusal, role_tokens. cbn [fmap list_fmap].
  assert (∀ v, cut_prefix "Bearer " v = None → [v] ∉ bearer <$> role_tokens (credentials s)) as Hcut.
  { intros v Hv (t&[= ->]&_)%list_elem_of_fmap. by rewrite cut_prefix_app in Hv. }
  destruct md as [|v [|w md]]; try (intros [= <-]; rewrite bool_decide_false; [done|unfold bearer; set_solver]).
  destruct (cut_prefix "Bearer " v) as [t|] eqn:Hc; [|intros [= <-]; by rewrite bool_decide_false by by apply Hcut].
  apply cut_prefix_Some in Hc as ->. case_bool_decide; [done|].
  assert (∀ t', bearer t = bearer t' ↔ t = t') as Hinj by (intros t'; split; [apply (inj bearer)|congruence]).
  fold (bearer t). destruct (_ || _) eqn:Hor; intros [= <-]; cbn.
  - rewrite !orb_true_iff, !bool_decide_eq_true in Hor. rewrite bool_decide_true; [done|].
    rewrite !elem_of_cons, !Hinj. naive_solver.
  - rewrite !orb_false_iff, !bool_decide_eq_false in Hor. rewrite bool_decide_false; [done|].
    rewrite !elem_of_cons, !Hinj, elem_of_nil. naive_solver.
Qed.

Lemma checkIdentity_Ok s id rid u :
  checkIdentity s id rid = Ok u → id = Some (hub_identity (hub s)) ∧ validRequestID rid = true.
Proof.
  unfold checkIdentity. destruct (validRequestID rid); [|done]. destruct (validateComet id); [|done]. cbn [negb orb].
  destruct id as [[i b]|]; cbn; [|done]. destruct (hub_identity (hub s)) as [i' b']. cbn.
  case_bool_decide as Hi; [|done]. case_bool_decide as Hb; [|done]. cbn. intros _. cbn in *. by subst.
Qed.

(** A handler that asks the hub only for a caller with the token [expected] and for this
    boot: [touched] says the handler answered or changed the service. *)
Definition fenced {A} (s s' : RPCService) (r : result status_error A) (md : list string) (expected : string)
    (comet : option (option pb.CometIdentity)) : Prop :=
  (is_ok r = true ∨ s' ≠ s → md = bearer expected ∧ comet = Some (Some (hub_identity (hub s))))
  ∧ (∀ e, r = Err e → md ≠ bearer expected → s' = s ∧ err_code e = refusal (credentials s) md).

Lemma fenced_handler {A} (s : RPCService) md expected (comet : option (option pb.CometIdentity))
    (out : result status_error A * RPCService) :
  (∀ e, authorize s md expected = Err e → out = (Err e, s)) →
  (md = bearer expected → is_ok out.1 = true ∨ out.2 ≠ s → comet = Some (Some (hub_identity (hub s)))) →
  fenced s out.2 out.1 md expected comet.
Proof.
  intros Hno Hyes. destruct (authorize s md expected) as [u|e] eqn:Ha.
  - apply authorize_Ok in Ha. split; [by intros Ht; split; [|apply Hyes]|]. by intros e _ [].
  - rewrite (Hno e eq_refl). split; [by intros [?|[]]|]. intros e' [= <-] _. split; [done|]. by eapply authorize_Err.
Qed.

(** the three roles are kept apart.  With the credentials [NewRPCService] accepts,
    only a call with exactly one authorization header that carries the token of Job can
    have [Deliver] answer or change the hub, only that of Logic [Kick], only that of the
    administrator [Drain], and only when it names this very boot; the tokens differ.
    Anybody else leaves the hub as it is: a known role gets PERMISSION_DENIED, a stranger
    UNAUTHENTICATED. *)
Theorem handlers_fenced h c s f now nows md :
  NewRPCService h c = Ok s →
  NoDup (role_tokens c)
  ∧ (∀ req, let out := Deliver f md req nows s in fenced s out.2 out.1 md (JobToken c) (pb.ReqComet <$> req))
  ∧ (∀ req, let out := Kick f md req s in fenced s out.2 out.1 md (LogicToken c) (KickComet <$> req))
  ∧ (∀ req, let out := Drain f now md req s in fenced s out.2 out.1 md (AdminToken c) (DrainComet <$> req)).
Proof.
  unfold NewRPCService. destruct (_ && _) eqn:Hok; [|done]. intros [= <-].
  rewrite !andb_true_iff, !bool_decide_eq_true in Hok. split.
  { destruct Hok as (((((_&_)&?)&_)&?)&?). unfold role_tokens. repeat (constructor; [set_solver|]). constructor. }
  set (s := MkRPCService h c).
  split_and!; intros req; apply fenced_handler; unfold Deliver, Kick, Drain; cbn [credentials s];
    try (intros e ->; done); intros _.
  all: destruct (authorize _ _ _) as [?|?]; [|by intros [?|[]]].
  all: destruct req as [req|]; [|by intros [?|[]]].
  all: destruct (checkIdentity _ _ _) as [?|?] eqn:Hc; [|by intros [?|[]]].
  all: apply checkIdentity_Ok in Hc as [Hc _]; intros _; cbn; by rewrite Hc.
Qed.
End Rpc.

Definition sample_credentials : RPCCredentials :=
  MkRPCCredentials job_token (job_token +:+ "L") (job_token +:+ "A").

Lemma handlers_fenced_witness :
  NewRPCService one_user sample_credentials = Ok (MkRPCService one_user sample_credentials)
  ∧ err_code <$> (match (Kick (H := Reference.external) Answered (bearer job_token) None (MkRPCService one_user sample_credentials)).1
                  with Err e => Some e | Ok _ => None end) = Some PermissionDenied.
Proof.
  assert (NewRPCService one_user sample_credentials = Ok (MkRPCService one_user sample_credentials)) as Hn
    by (vm_compute; reflexivity).
  split; [exact Hn|].
  destruct (handlers_fenced (H := Reference.external) _ _ _ Answered 0 (λ _, 0) (bearer job_token) Hn) as (_&_&Hk&_).
  destruct (Hk None) as [_ Hr]. cbn zeta in Hr.
  destruct (Kick _ _ _ _) as [[z|e] s'] eqn:Hout; [vm_compute in Hout; discriminate Hout|]. cbn [fst snd] in *.
  destruct (Hr e eq_refl) as [_ He]; [by vm_compute|]. cbn. rewrite He. vm_compute. reflexivity.
Defined.
