(* ===== verification/CometInstance.v ===== *)
(** * The lease of an instance: [internal/comet/instance.go]

    The lifetime context, the clock and Logic are the operations of an environment over a
    world [W].  The hub belongs to other goroutines too: before the instance looks at it,
    they move it ([ie_others]).  Outgoing metadata other than the credential is left out. *)
From S2P Require Import Prelude GoStd GoTime External Dto CometValidation CometHub CometRpc.
Local Open Scope Z_scope.

Definition instanceSafetyMargin : Z := 5 * second.

(** [InvalidConfiguration] is what [invalid] makes of a bad argument. *)
Inductive instance_error : Type := InvalidConfiguration | ErrInstanceStopped | ErrInstanceLeaseLost.
Global Instance instance_error_eq_dec : EqDecision instance_error.
Proof. solve_decision. Defined.

Record InstanceOptions : Type := MkInstanceOptions { RenewInterval : Z; RPCTimeout : Z }.
(** The fields of [Instance] that never change. *)
Record Instance : Type := MkInstance { address : string; token : string; interval : Z; rpcTimeout : Z }.

(** The context of a call: the values of its authorization header and its deadline. *)
Record rpc_context : Type := RpcContext { authorization : list string; rpc_deadline : Z }.
(** A reply may be nil, and so may the lease in it. *)
Definition lease_reply : Type := result status_error (option (option pb.CometLease)).
(** What ends the wait between two renewals. *)
Inductive wake : Type := WokeContext | WokeHub | WokeDrain | WokeTimer.

Record instance_env (W : Type) : Type := InstanceEnv {
  ie_others : W → Hub → Hub * W;
  ie_now : W → Z * W;
  ie_ctx_done : W → bool * W;
  ie_wait : Z → W → wake * W;
  ie_register : rpc_context → pb.CometIdentity → string → W → lease_reply * W;
  ie_renew : rpc_context → pb.CometIdentity → bool → W → lease_reply * W;
  ie_unregister : rpc_context → pb.CometIdentity → W → W
}.
Global Arguments ie_others {W}. Global Arguments ie_now {W}. Global Arguments ie_ctx_done {W}.
Global Arguments ie_wait {W}. Global Arguments ie_register {W}. Global Arguments ie_renew {W}.
Global Arguments ie_unregister {W}.

Inductive instance_step : Type :=
| INow (t : Z)
| ICtxDone (b : bool)
| IWait (delay : Z) (w : wake)
| IRegister (rpc : rpc_context) (id : pb.CometIdentity) (address : string) (reply : lease_reply)
| IRenew (rpc : rpc_context) (id : pb.CometIdentity) (draining : bool) (reply : lease_reply)
| IUnregister (rpc : rpc_context) (id : pb.CometIdentity).

(** The hub with its [instanceOwned] flag, the fields of [Instance] that change, whether
    its [done] channel is closed, and the interactions so far. *)
Record instance_state (W : Type) : Type := InstanceState {
  i_world : W; i_hub : Hub; owned : bool; safeDeadline : Z; ready : bool;
  i_err : option instance_error; exited : bool; i_steps : list instance_step
}.
Global Arguments InstanceState {W}. Global Arguments i_world {W}. Global Arguments i_hub {W}.
Global Arguments owned {W}. Global Arguments safeDeadline {W}. Global Arguments ready {W}.
Global Arguments i_err {W}. Global Arguments exited {W}. Global Arguments i_steps {W}.

(** [Duration]s saturate when two instants are subtracted. *)
Definition time_sub (a b : Z) : Z := Z.max (- 2 ^ 63) (Z.min (2 ^ 63 - 1) (a - b)).

Definition instanceToken (token : string) : bool :=
  negb ((len token <? 32) || (256 <? len token)) && forallb (λ r, negb ((r <=? 32) || (126 <? r))) (runes token).
(** A space, tab, carriage return or line feed, or one of [/@?#\ ]. *)
Definition address_breaker (b : Z) : bool := existsb (Z.eqb b) [47; 64; 63; 35; 32; 9; 13; 10; 92].
Definition instanceAddress (address : string) : bool :=
  match split_host_port address with
  | None => false
  | Some (host, port) =>
    match atoi port with
    | None => false
    | Some n => (0 <? n) && (n <=? 65535) && bool_decide (host ≠ "") && negb (existsb address_breaker (bytes host))
    end
  end.

Section Instance.
Context `{External} {W : Type} (env : instance_env W).
#[local] Abbreviation M := (ST (instance_state W)).

(** ** Interactions *)

Definition act {A} (f : W → A * W) (ev : A → instance_step) : M A := λ s,
  let '(a, w) := f (i_world s) in
  (a, InstanceState w (i_hub s) (owned s) (safeDeadline s) (ready s) (i_err s) (exited s) (i_steps s ++ [ev a])).
Definition now : M Z := act (ie_now env) INow.
Definition ctx_done : M bool := act (ie_ctx_done env) ICtxDone.
(** The hub as the instance finds it. *)
Definition see_hub : M Hub := λ s,
  let '(h, w) := ie_others env (i_world s) (i_hub s) in
  (h, InstanceState w h (owned s) (safeDeadline s) (ready s) (i_err s) (exited s) (i_steps s)).
(** [hub.Close()] returns once the owner loop has stopped. *)
Definition close_hub : M unit := modify (λ s,
  let h := set_hub_done (i_hub s) in
  InstanceState (i_world s) (if stopped h then h else stop h) (owned s) (safeDeadline s) (ready s) (i_err s)
    (exited s) (i_steps s)).
Definition set_owned : M unit := modify (λ s,
  InstanceState (i_world s) (i_hub s) true (safeDeadline s) (ready s) (i_err s) (exited s) (i_steps s)).
Definition set_lease (safe : Z) (rdy : bool) : M unit := modify (λ s,
  InstanceState (i_world s) (i_hub s) (owned s) safe rdy (i_err s) (exited s) (i_steps s)).
Definition set_unready : M unit := modify (λ s,
  InstanceState (i_world s) (i_hub s) (owned s) (safeDeadline s) false (i_err s) (exited s) (i_steps s)).
Definition set_failure (e : instance_error) : M unit := modify (λ s,
  InstanceState (i_world s) (i_hub s) (owned s) (safeDeadline s) false (Some e) (exited s) (i_steps s)).
Definition close_done : M unit := modify (λ s,
  InstanceState (i_world s) (i_hub s) (owned s) (safeDeadline s) (ready s) (i_err s) true (i_steps s)).
Definition Identity : M pb.CometIdentity := gets (λ s, hub_identity (i_hub s)).

(** ** The lease *)

Definition rpcContext (i : Instance) (safe : Z) : M rpc_context :=
  t ← now;
  let deadline := t + rpcTimeout i in
  mret (RpcContext ["Bearer " +:+ token i] (if negb (safe =? zero_ns) && (safe <? deadline) then safe else deadline)).

(** The instant until which the lease is safe; [None] is [ErrInstanceLeaseLost]. *)
Definition validateLease (i : Instance) (lease : option pb.CometLease) (drain : bool) : M (option Z) :=
  id ← Identity;
  match lease with
  | None => mret None
  | Some l =>
    match pb.LeaseDeadline l with
    | Some d =>
      if negb (sameComet (pb.LeaseIdentity l) (Some id)) || bool_decide (pb.RpcAddress l ≠ address i)
         || bool_decide (pb.Draining l ≠ drain) || negb (timestamp_check_valid d)
      then mret None
      else
        t ← now;
        let safe := as_ns d - instanceSafetyMargin in
        mret (if t <? safe then Some safe else None)
    | None => mret None
    end
  end.

Definition unregister (i : Instance) : M unit :=
  rpc ← rpcContext i zero_ns;
  id ← Identity;
  act (λ w, (tt, ie_unregister env rpc id w)) (λ _, IUnregister rpc id).

(** ** Starting *)

Definition configure (addr tok : string) (o : InstanceOptions) : option Instance :=
  if negb (instanceAddress addr) || negb (instanceToken tok) then None
  else
    let renew := if RenewInterval o =? 0 then 10 * second else RenewInterval o in
    let timeout := if RPCTimeout o =? 0 then 2 * second else RPCTimeout o in
    if (renew <=? 0) || (10 * second <? renew) || (timeout <=? 0) || (2 * second <? timeout) then None
    else Some (MkInstance addr tok renew timeout).

(** A start that fails after the hub was taken closes it and unregisters. *)
Definition abandon (i : Instance) : M (result instance_error Instance) :=
  close_hub;; unregister i;; mret (Err ErrInstanceLeaseLost).

Definition register (i : Instance) : M (option Z) :=
  rpc ← rpcContext i zero_ns;
  id ← Identity;
  reply ← act (ie_register env rpc id (address i)) (IRegister rpc id (address i));
  match reply with
  | Ok (Some lease) => validateLease i lease false
  | _ => mret None
  end.

(** [given] tells whether the hub and the client of Logic are not nil. *)
Definition StartInstance (given : bool) (addr tok : string) (o : InstanceOptions)
  : M (result instance_error Instance) :=
  if negb given then mret (Err InvalidConfiguration)
  else
    match configure addr tok o with
    | None => mret (Err InvalidConfiguration)
    | Some i =>
      taken ← gets owned;
      if taken : bool then mret (Err InvalidConfiguration)
      else
        set_owned;;
        lease ← register i;
        match lease with
        | None => abandon i
        | Some safe =>
          gone ← ctx_done;
          if gone : bool then abandon i
          else
            h ← see_hub;
            if draining h then abandon i
            else
              h ← see_hub;
              if hub_done h then unregister i;; mret (Err ErrInstanceLeaseLost)
              else set_lease safe true;; mret (Ok i)
        end
    end.

(** ** Renewing *)

(** The renewal in a turn of the loop, [safe] being the deadline of the lease. *)
Definition renew (i : Instance) (safe : Z) : M (option instance_error) :=
  h ← see_hub;
  let drain := draining h in
  rpc ← rpcContext i safe;
  id ← Identity;
  reply ← act (ie_renew env rpc id drain) (IRenew rpc id drain);
  gone ← ctx_done;
  if gone : bool then mret (Some ErrInstanceStopped)
  else
    t ← now;
    if negb (t <? safe) then mret (Some ErrInstanceLeaseLost)
    else
      match reply with
      | Err e =>
        set_unready;;
        mret (if bool_decide (err_code e ∈ [Unauthenticated; PermissionDenied; InvalidArgument; FailedPrecondition;
                                            NotFound; Unimplemented])
              then Some ErrInstanceLeaseLost else None)
      | Ok None => mret (Some ErrInstanceLeaseLost)
      | Ok (Some lease) =>
        next ← validateLease i lease drain;
        match next with
        | None => mret (Some ErrInstanceLeaseLost)
        | Some next => h ← see_hub; set_lease next (negb (draining h));; mret None
        end
      end.

(** Waking up on the drain signal takes it. *)
Definition receive_signal (w : wake) : M unit :=
  when (match w with WokeDrain => true | _ => false end)
    (modify (λ s, InstanceState (i_world s) (take_signal (i_hub s)) (owned s) (safeDeadline s)
                    (ready s) (i_err s) (exited s) (i_steps s))).
(** One turn of the loop; [None] continues it. *)
Definition turn (i : Instance) : M (option instance_error) :=
  safe ← gets safeDeadline;
  t ← now;
  let remaining := time_sub safe t in
  if remaining <=? 0 then mret (Some ErrInstanceLeaseLost)
  else
    let delay := Z.min (interval i) (Z.quot remaining 2) in
    w ← act (ie_wait env delay) (IWait delay);
    match w with
    | WokeContext | WokeHub => mret (Some ErrInstanceStopped)
    | WokeDrain | WokeTimer =>
      receive_signal w;;
      gone ← ctx_done;
      if gone : bool then mret (Some ErrInstanceStopped)
      else
        t ← now;
        if negb (t <? safe) then mret (Some ErrInstanceLeaseLost) else renew i safe
    end.

(** What [run] defers. *)
Definition leave (i : Instance) (failure : instance_error) : M unit :=
  set_failure failure;; close_hub;; unregister i;; close_done.

(** [n] turns at most. *)
Fixpoint run (n : nat) (i : Instance) : M (option instance_error) :=
  match n with
  | O => mret None
  | S n' =>
    r ← turn i;
    match r with
    | Some e => leave i e;; mret (Some e)
    | None => run n' i
    end
  end.

Definition Ready : M bool :=
  rdy ← gets ready;
  rdy ← (if rdy : bool then t ← now; safe ← gets safeDeadline; mret (t <? safe) else mret false);
  if negb rdy then mret false
  else
    h ← see_hub;
    if draining h then mret false
    else h ← see_hub; over ← gets exited; mret (negb (hub_done h) && negb over).
End Instance.
