(* ===== verification/CometInstanceProofs.v ===== *)
(** * The lease of an instance: properties *)
From S2P Require Import Prelude GoStd GoTime External Dto CometValidation CometHub CometHubProofs CometRpc CometInstance.
Local Open Scope Z_scope.

(** ** What never changes back in a hub *)

Definition advances (h h' : Hub) : Prop :=
  hub_identity h' = hub_identity h ∧ queueSize h' = queueSize h ∧ (draining h = true → draining h' = true)
  ∧ (hub_done h = true → hub_done h' = true) ∧ (stopped h = true → stopped h' = true).

Global Instance advances_preorder : PreOrder advances.
Proof. split; [done|]. intros h1 h2 h3 (?&?&?&?&?) (?&?&?&?&?). split_and!; auto; congruence. Qed.

Section Hub.
Context `{External}.

Lemma close_conn_advances k h : advances h (close_conn k h).
Proof. unfold close_conn. destruct (heap h !! k) as [c|]; [destruct (conn_done c)|]; done. Qed.
Lemma markSlow_advances k h : advances h (markSlow k h).
Proof. unfold markSlow. destruct (heap h !! k) as [c|]; [destruct (slowClosed c)|]; done. Qed.
Lemma closeAll_advances h : advances h (closeAll h).
Proof.
  unfold closeAll. transitivity (fold_left (λ h k, close_conn k h) (map_to_list (clients h)).*2 h); [|done].
  generalize (map_to_list (clients h)).*2. intros l. revert h.
  induction l as [|k l IH]; intros h; cbn [fold_left]; [done|].
  transitivity (close_conn k h); [apply close_conn_advances|apply IH].
Qed.
Lemma register_advances id pend h : advances h (register_op id pend h).2.
Proof.
  unfold register_op. destruct (draining h); [done|].
  destruct (clients h !! _) as [k|]; [|done]. destruct (heap h !! k) as [c|]; [|done].
  case_match; [done|]. by transitivity (close_conn k h); [apply close_conn_advances|].
Qed.
Lemma unregister_advances id h : advances h (unregister_op id h).2.
Proof.
  unfold unregister_op. destruct (clients h !! _) as [k|]; [|done]. destruct (heap h !! k) as [c|]; [|done].
  case_match; [|done]. cbn [snd].
  transitivity (set_clients (delete (pb.UserId id) (clients h)) h); [done|apply close_conn_advances].
Qed.
Lemma deliver_one_advances m id now h : advances h (deliver_one m id now h).2.
Proof.
  unfold deliver_one. case_match; [done|].
  destruct (clients h !! _) as [k|]; [|done]. destruct (heap h !! k) as [c|]; [|done].
  case_match; [done|]. case_match; [done|]. case_match; [done|]. cbn [snd].
  etransitivity; [|apply close_conn_advances]. by transitivity (markSlow k (count 1 0 0 h));
    [etransitivity; [|apply markSlow_advances]|].
Qed.
Lemma deliver_advances m targets nows h : advances h (deliver_op m targets nows h).2.
Proof.
  revert nows h. induction targets as [|id ts IH]; intros nows h; cbn [deliver_op]; [done|].
  pose proof (deliver_one_advances m id (nows 0%nat) h) as H1.
  destruct (deliver_one m id (nows 0%nat) h) as [o h1].
  pose proof (IH (λ i, nows (S i)) h1) as H2. destruct (deliver_op m ts (λ i, nows (S i)) h1) as [rs h2].
  by transitivity h1.
Qed.

Lemma step_advances h h' : step h h' → advances h h'.
Proof.
  intros Hs. inversion Hs; subst;
    auto using register_advances, unregister_advances, deliver_advances, markSlow_advances; try done.
  - unfold drain_op. by case_match.
  - unfold activate_op. case_match; [done|]. case_match; [|done]. by case_match.
  - unfold fire_timer. by etransitivity; [apply closeAll_advances|].
  - unfold stop. etransitivity; [apply closeAll_advances|]. split_and!; auto.
  - unfold offer_control. destruct (heap h !! k) as [c|]; [|done]. destruct (_ && _); [done|].
    destruct (_ <? _)%nat; [done|].
    by etransitivity; [|apply markSlow_advances].
Qed.
Lemma steps_advance h h' : rtc step h h' → advances h h'.
Proof. induction 1 as [|h1 h2 h3 Hs _ IH]; [done|]. by etransitivity; [apply step_advances|]. Qed.
End Hub.

(** ** Traces *)

Definition lease_of (st : instance_step) : option pb.CometLease :=
  match st with IRegister _ _ _ (Ok (Some l)) | IRenew _ _ _ (Ok (Some l)) => l | _ => None end.
Definition safe_until (l : pb.CometLease) : option Z := d ← pb.LeaseDeadline l; Some (as_ns d - instanceSafetyMargin).
(** The last lease Logic answered. *)
Definition last_lease (tr : list instance_step) : option pb.CometLease := last (omap lease_of tr).
Definition is_call (st : instance_step) : bool :=
  match st with IRegister _ _ _ _ | IRenew _ _ _ _ | IUnregister _ _ => true | _ => false end.
Definition is_unregister (st : instance_step) : bool := match st with IUnregister _ _ => true | _ => false end.

(** What a call of an instance may be after the steps [pre]: it carries the token and a
    deadline within the budget of the last reading of the clock; the registration is the
    first call; a renewal is made before the safe deadline of the last lease and must end
    before it; the unregistration is the last call. *)
Definition call_ok (i : Instance) (id : pb.CometIdentity) (pre : list instance_step) (st : instance_step) : Prop :=
  match st with
  | IRegister rpc id' a _ =>
    id' = id ∧ a = address i ∧ Forall (λ e, is_call e = false) pre
    ∧ ∃ t, last pre = Some (INow t) ∧ rpc = RpcContext ["Bearer " +:+ token i] (t + rpcTimeout i)
  | IRenew rpc id' _ _ =>
    id' = id ∧ Forall (λ e, is_unregister e = false) pre
    ∧ ∃ pre' t1 t2 safe, pre = pre' ++ [INow t1; INow t2] ∧ (last_lease pre ≫= safe_until) = Some safe ∧ t1 < safe
      ∧ rpc = RpcContext ["Bearer " +:+ token i] (Z.min (t2 + rpcTimeout i) safe)
  | IUnregister rpc id' =>
    id' = id ∧ Forall (λ e, is_unregister e = false) pre
    ∧ ∃ t, last pre = Some (INow t) ∧ rpc = RpcContext ["Bearer " +:+ token i] (t + rpcTimeout i)
  | _ => True
  end.
Definition trace_ok (i : Instance) (id : pb.CometIdentity) (tr : list instance_step) : Prop :=
  ∀ pre st post, tr = pre ++ st :: post → call_ok i id pre st.

Lemma trace_ok_snoc i id tr st : trace_ok i id tr → call_ok i id tr st → trace_ok i id (tr ++ [st]).
Proof.
  intros Htr Hst pre st' post E. destruct post as [|e post _] using rev_ind.
  - apply app_inj_tail in E as [-> ->]. done.
  - rewrite app_comm_cons, app_assoc in E. apply app_inj_tail in E as [-> _]. by eapply Htr.
Qed.
Lemma last_lease_snoc tr st : lease_of st = None → last_lease (tr ++ [st]) = last_lease tr.
Proof. intros Hl. unfold last_lease. rewrite omap_app. cbn. by rewrite Hl, app_nil_r. Qed.
Lemma last_lease_new tr st l : lease_of st = Some l → last_lease (tr ++ [st]) = Some l.
Proof. intros Hl. unfold last_lease. rewrite omap_app. cbn. by rewrite Hl, last_snoc. Qed.

Section Instance.
Context `{External} {W : Type} (env : instance_env W).
Hypothesis others_ok : ∀ w h, rtc step h (ie_others env w h).1.
Hypothesis clock_ok : ∀ w, zero_ns ≤ (ie_now env w).1.
Context (i : Instance) (id : pb.CometIdentity).
#[local] Abbreviation M := (ST (instance_state W)).

(** The trace is in order and the instance has not unregistered. *)
Record Inv (s : instance_state W) : Prop := {
  inv_id : hub_identity (i_hub s) = id;
  inv_trace : trace_ok i id (i_steps s);
  inv_open : Forall (λ e, is_unregister e = false) (i_steps s);
  inv_exited : exited s = false
}.
(** From [s] to [s'] the instance took [tr] and did not touch its own fields. *)
Record moved (tr : list instance_step) (s s' : instance_state W) : Prop := {
  moved_hub : advances (i_hub s) (i_hub s');
  moved_owned : owned s' = owned s;
  moved_safe : safeDeadline s' = safeDeadline s;
  moved_ready : ready s' = ready s;
  moved_exited : exited s' = exited s;
  moved_steps : i_steps s' = i_steps s ++ tr
}.
(** No step of [tr] is a call of Logic. *)
Definition quiet (tr : list instance_step) (s s' : instance_state W) : Prop :=
  moved tr s s' ∧ Forall (λ e, is_call e = false) tr.

Lemma still_refl s : quiet [] s s.
Proof. split; [|constructor]. split; try done. by rewrite app_nil_r. Qed.
Lemma still_trans tr1 tr2 s1 s2 s3 : quiet tr1 s1 s2 → quiet tr2 s2 s3 → quiet (tr1 ++ tr2) s1 s3.
Proof.
  intros [[] ?] [[] ?]. split; [|by apply Forall_app].
  split; try congruence; [by etransitivity|]. rewrite app_assoc. congruence.
Qed.
(** A property of traces that steps which are no calls keep. *)
Lemma quiet_keeps (P : list instance_step → Prop) tr s s' :
  (∀ pre st, is_call st = false → P pre → P (pre ++ [st])) →
  quiet tr s s' → P (i_steps s) → P (i_steps s').
Proof.
  intros HP [[_ _ _ _ _ ->] Hq]. generalize (i_steps s).
  induction Hq as [|st tr Hst _ IH]; intros pre Hpre; [by rewrite app_nil_r|].
  rewrite cons_middle, app_assoc. by apply IH, HP.
Qed.
Lemma quiet_Inv tr s s' : quiet tr s s' → Inv s → Inv s'.
Proof.
  intros Hq [Hi Ht Ho He]. pose proof Hq as [[(Hid&_) _ _ _ Hex _] _]. split; [congruence| | |congruence].
  - eapply quiet_keeps; [|done|done]. intros pre st Hst Hpre. apply trace_ok_snoc; [done|]. by destruct st.
  - eapply (quiet_keeps (Forall _)); [|done|done]. intros pre st Hst Hpre. apply Forall_app. split; [done|].
    constructor; [by destruct st|constructor].
Qed.

Lemma act_moved {A} (f : W → A * W) ev s : wp (act f ev) (λ a s', moved [ev a] s s') s.
Proof. unfold wp, act. destruct (f (i_world s)) as [a w]. by split. Qed.
Lemma now_quiet s : wp (now env) (λ t s', zero_ns ≤ t ∧ quiet [INow t] s s') s.
Proof.
  unfold wp, now, act. pose proof (clock_ok (i_world s)) as Hc.
  destruct (ie_now env (i_world s)) as [t w]. split; [done|]. split; [by split|by repeat constructor].
Qed.
Lemma ctx_done_quiet s : wp (ctx_done env) (λ b s', quiet [ICtxDone b] s s') s.
Proof. unfold ctx_done. wp_apply act_moved. intros b s' Hm. split; [done|by repeat constructor]. Qed.
Lemma see_hub_quiet s : wp (see_hub env) (λ h s', h = i_hub s' ∧ quiet [] s s') s.
Proof.
  unfold wp, see_hub. pose proof (steps_advance _ _ (others_ok (i_world s) (i_hub s))) as Ha.
  destruct (ie_others env (i_world s) (i_hub s)) as [h w]. split; [done|]. split; [|constructor].
  split; try done. cbn. by rewrite app_nil_r.
Qed.
Lemma rpcContext_quiet safe s :
  wp (rpcContext env i safe)
     (λ rpc s', ∃ t, quiet [INow t] s s' ∧ zero_ns ≤ t
        ∧ rpc = RpcContext ["Bearer " +:+ token i]
                  (if negb (safe =? zero_ns) && (safe <? t + rpcTimeout i) then safe else t + rpcTimeout i)) s.
Proof. unfold rpcContext. wp_apply now_quiet. intros t s' [Ht Hq]. wp_steps. by exists t. Qed.

(** What the instance accepts of an answer. *)
Record lease_valid (lease : option pb.CometLease) (drain : bool) (t safe : Z) : Prop := {
  lease_given : ∃ l, lease = Some l ∧ safe_until l = Some safe ∧ sameComet (pb.LeaseIdentity l) (Some id) = true
                     ∧ pb.RpcAddress l = address i ∧ pb.Draining l = drain;
  lease_later : t < safe
}.
Lemma validateLease_quiet lease drain s :
  hub_identity (i_hub s) = id →
  wp (validateLease env i lease drain)
     (λ r s', ∃ tr, quiet tr s s' ∧ ∀ safe, r = Some safe → ∃ t, tr = [INow t] ∧ lease_valid lease drain t safe) s.
Proof.
  intros Hid. assert (∃ tr, quiet tr s s ∧ ∀ safe, @None Z = Some safe → ∃ t, tr = [INow t] ∧ lease_valid lease drain t safe)
    as Hs by (exists []; split; [apply still_refl|done]).
  unfold validateLease, Identity. wp_steps. rewrite Hid.
  destruct lease as [l|]; [|done]. destruct (pb.LeaseDeadline l) as [d|] eqn:Hd; [|done].
  case_match eqn:Hb; [done|]. clear Hs. wp_apply now_quiet. intros t s' [_ Hq]. wp_steps.
  exists [INow t]. split; [done|].
  intros safe Hr. destruct (Z.ltb_spec t (as_ns d - instanceSafetyMargin)); [|done].
  apply (inj Some) in Hr as <-. exists t. split; [done|].
  rewrite !orb_false_iff, negb_false_iff, !bool_decide_eq_false in Hb. destruct Hb as [[[Hsame Ha] Hdr] _].
  apply dec_stable in Ha, Hdr. split; [|done]. exists l. unfold safe_until. by rewrite Hd.
Qed.

(** ** Renewing *)

(** Between two turns: the deadline is that of the last lease, which was accepted. *)
Definition running (s : instance_state W) : Prop :=
  Inv s ∧ ∃ drain t, lease_valid (last_lease (i_steps s)) drain t (safeDeadline s).
Lemma quiet_last_lease tr s s' : quiet tr s s' → last_lease (i_steps s') = last_lease (i_steps s).
Proof.
  intros Hq. eapply (quiet_keeps (λ tr, last_lease tr = _)); [|done|done].
  intros pre st Hst <-. apply last_lease_snoc. by destruct st.
Qed.
Lemma quiet_running tr s s' : quiet tr s s' → running s → running s'.
Proof.
  intros Hq [HI (drain&t&Hl)]. split; [by eapply quiet_Inv|]. exists drain, t.
  rewrite (quiet_last_lease _ _ _ Hq). by destruct Hq as [[_ _ -> _ _ _] _].
Qed.
Lemma running_safe s : running s → (last_lease (i_steps s) ≫= safe_until) = Some (safeDeadline s).
Proof. intros [_ (drain&t&[(l&->&?&_) _])]. done. Qed.

(** The state after the renewal call. *)
Lemma renew_call_Inv safe t1 t2 rpc drain reply tr0 s s' :
  running s → i_steps s = tr0 ++ [INow t1; INow t2] → safeDeadline s = safe → t1 < safe → zero_ns ≤ t1 →
  rpc = RpcContext ["Bearer " +:+ token i]
          (if negb (safe =? zero_ns) && (safe <? t2 + rpcTimeout i) then safe else t2 + rpcTimeout i) →
  moved [IRenew rpc id drain reply] s s' → Inv s'.
Proof.
  intros Hrun Htr Hd Ht Hz Hrpc [(Hid&_) _ _ _ Hex Hst].
  pose proof (running_safe _ Hrun) as Hsafe. destruct Hrun as [HI _].
  split; [by rewrite Hid; apply HI| | |rewrite Hex; apply HI].
  - rewrite Hst. apply trace_ok_snoc; [apply HI|]. split_and!; [done|apply HI|].
    exists tr0, t1, t2, safe. split_and!; [done|congruence|done|]. rewrite Hrpc. f_equal.
    destruct (Z.eqb_spec safe zero_ns); [lia|]. cbn [negb andb]. destruct (Z.ltb_spec safe (t2 + rpcTimeout i)); lia.
  - rewrite Hst. apply Forall_app. split; [apply HI|by repeat constructor].
Qed.

(** After a turn: the instance goes on, or it may leave. *)
Definition turned (r : option instance_error) (s : instance_state W) : Prop := Inv s ∧ (r = None → running s).
Lemma turned_stop tr s s' e : quiet tr s s' → Inv s → turned (Some e) s'.
Proof. intros Hq HI. split; [by eapply quiet_Inv|done]. Qed.

Lemma set_lease_running safe rdy drain t s :
  Inv s → lease_valid (last_lease (i_steps s)) drain t safe → wp (set_lease safe rdy) (λ _ s', running s') s.
Proof. intros [] Hs. split; [by split|]. by exists drain, t. Qed.

(** The last lease is that of the call, unless the call failed. *)
Lemma last_lease_renew rpc drain reply s s' :
  moved [IRenew rpc id drain reply] s s' →
  match reply with
  | Err _ => last_lease (i_steps s') = last_lease (i_steps s)
  | Ok (Some (Some l)) => last_lease (i_steps s') = Some l
  | _ => True
  end.
Proof.
  intros [_ _ _ _ _ ->].
  destruct reply as [[[l|]|]|e]; [by apply last_lease_new|done|done|by apply last_lease_snoc].
Qed.

Lemma renew_ok safe t1 tr0 s :
  running s → safeDeadline s = safe → i_steps s = tr0 ++ [INow t1] → t1 < safe → zero_ns ≤ t1 →
  wp (renew env i safe) turned s.
Proof.
  intros Hrun Hsafe Htr Ht Hz. unfold renew. wp_apply see_hub_quiet. intros h s1 [_ Hq1].
  wp_apply rpcContext_quiet. intros rpc s2 (t2&Hq2&Hz2&Hrpc).
  pose proof (still_trans _ _ _ _ _ Hq1 Hq2) as Hq12. cbn [app] in Hq12.
  pose proof (quiet_running _ _ _ Hq12 Hrun) as Hrun2. destruct Hq12 as [[_ _ Hs12 _ _ Ht12] _].
  unfold Identity. wp_steps. rewrite (inv_id _ (proj1 Hrun2)).
  wp_apply act_moved. intros reply s3 Hq3.
  assert (Inv s3) as HI3.
  { eapply (renew_call_Inv safe t1 t2 _ _ _ tr0 s2); try done; [|congruence]. by rewrite Ht12, Htr, <- app_assoc. }
  clear Hrpc. pose proof (last_lease_renew _ _ _ _ _ Hq3) as Hsafe3.
  wp_apply ctx_done_quiet. intros gone s4 Hq4. destruct gone; [wp_steps; by eapply turned_stop|].
  wp_apply now_quiet. intros t3 s5 [_ Hq5]. pose proof (still_trans _ _ _ _ _ Hq4 Hq5) as Hq.
  destruct (negb (t3 <? safe)); [wp_steps; by eapply turned_stop|].
  pose proof (quiet_Inv _ _ _ Hq HI3) as HI5.
  destruct reply as [[lease|]|e]; [| |].
  - wp_apply validateLease_quiet; [apply HI5|]. intros next s6 (tr&Hq6&Hnext).
    destruct next as [next|]; [|wp_steps; by eapply turned_stop].
    destruct (Hnext _ eq_refl) as (t&_&Hl). destruct lease as [l|]; [|by destruct Hl as [(?&?&_) _]].
    wp_apply see_hub_quiet. intros h' s7 [_ Hq7].
    pose proof (still_trans _ _ _ _ _ Hq (still_trans _ _ _ _ _ Hq6 Hq7)) as Hq37.
    wp_apply set_lease_running; [by eapply quiet_Inv|by rewrite (quiet_last_lease _ _ _ Hq37), Hsafe3|].
    intros _ s8 Hrun8. wp_steps. split; [apply Hrun8|done].
  - wp_steps. by eapply turned_stop.
  - wp_steps. split; [by destruct HI5|]. intros _. split; [by destruct HI5|]. cbn.
    destruct Hrun2 as [_ (drain&t&Hl)]. exists drain, t.
    rewrite (quiet_last_lease _ _ _ Hq), Hsafe3. destruct Hq as [[_ _ -> _ _ _] _]. by destruct Hq3 as [_ _ -> _ _ _].
Qed.

Lemma receive_signal_quiet w s : wp (receive_signal w) (λ _ s', quiet [] s s') s.
Proof.
  unfold receive_signal. wp_steps; [|apply still_refl].
  split; [|constructor]. split; try done. cbn. by rewrite app_nil_r.
Qed.

Lemma renewal_turn_ok s : running s → wp (turn env i) turned s.
Proof.
  intros Hrun. pose proof (proj1 Hrun) as HI. unfold turn. wp_steps. wp_apply now_quiet. intros t s1 [_ Hq1].
  destruct (time_sub (safeDeadline s) t <=? 0); [wp_steps; by eapply turned_stop|].
  wp_apply act_moved. intros w s2 Hm2.
  assert (quiet [IWait (Z.min (interval i) (Z.quot (time_sub (safeDeadline s) t) 2)) w] s1 s2) as Hq2
    by (split; [done|by repeat constructor]).
  pose proof (still_trans _ _ _ _ _ Hq1 Hq2) as Hq. clear Hq1 Hm2 Hq2.
  assert (wp (receive_signal w;; gone ← ctx_done env;
              if gone : bool then mret (Some ErrInstanceStopped)
              else t ← now env;
                   if negb (t <? safeDeadline s) then mret (Some ErrInstanceLeaseLost) else renew env i (safeDeadline s))
            turned s2) as Hrest; [|by destruct w; [wp_steps; by eapply turned_stop..| |]].
  wp_apply receive_signal_quiet. intros _ s3 Hq3. wp_apply ctx_done_quiet. intros gone s4 Hq4.
  pose proof (still_trans _ _ _ _ _ Hq (still_trans _ _ _ _ _ Hq3 Hq4)) as Hq14.
  destruct gone; [wp_steps; by eapply turned_stop|].
  wp_apply now_quiet. intros t1 s5 [Hz Hq5]. pose proof (still_trans _ _ _ _ _ Hq14 Hq5) as Hq15.
  destruct (Z.ltb_spec t1 (safeDeadline s)) as [Ht|_]; cbn [negb]; [|wp_steps; by eapply turned_stop].
  eapply renew_ok; [by eapply quiet_running| | |exact Ht|exact Hz].
  - by destruct Hq15 as [[_ _ -> _ _ _] _].
  - by destruct Hq5 as [[_ _ _ _ _ ->] _].
Qed.

(** ** Leaving *)

(** The instance is over: the hub is closed, it is not ready, and its last call was the
    unregistration of its own identity. *)
Record over (s : instance_state W) : Prop := {
  over_hub : hub_done (i_hub s) = true;
  over_trace : trace_ok i id (i_steps s);
  over_ready : ready s = false;
  over_last : ∃ rpc, last (i_steps s) = Some (IUnregister rpc id)
}.

Lemma close_hub_ok s :
  Inv s → wp (close_hub) (λ _ s', Inv s' ∧ hub_done (i_hub s') = true ∧ ready s' = ready s) s.
Proof.
  intros [Hid Ht Ho He]. unfold close_hub. wp_steps. cbn.
  assert (advances (set_hub_done (i_hub s)) (stop (set_hub_done (i_hub s)))) as (Hid'&_&_&Hd&_).
  { unfold stop. etransitivity; [apply closeAll_advances|]. split_and!; auto. }
  split_and!; [|by case_match; auto|done]. split; cbn; [|done..].
  by case_match; [|rewrite Hid'].
Qed.
Lemma unregister_call_ok s :
  Inv s → hub_done (i_hub s) = true → ready s = false → wp (unregister env i) (λ _ s', over s') s.
Proof.
  intros HI Hd Hr. unfold unregister. wp_apply rpcContext_quiet. intros rpc s1 (t&Hq&_&Hrpc).
  pose proof (quiet_Inv _ _ _ Hq HI) as HI1. unfold Identity. wp_steps. rewrite (inv_id _ HI1).
  eapply wp_mono; [apply act_moved|]. intros _ s2 [(_&_&_&Hd2&_) _ _ Hr2 _ Hst].
  destruct Hq as [[(_&_&_&Hd1&_) _ _ Hr1 _ Hst1] _].
  split; [auto| |congruence|rewrite Hst, last_snoc; by eexists].
  rewrite Hst. apply trace_ok_snoc; [apply HI1|]. split_and!; [done|apply HI1|].
  exists t. by rewrite Hst1, last_snoc.
Qed.

Lemma leave_ok failure s : Inv s → wp (leave env i failure) (λ _ s', over s' ∧ exited s' = true) s.
Proof.
  intros HI. unfold leave, set_failure, close_done. wp_steps.
  wp_apply close_hub_ok; [by destruct HI|]. intros _ s1 (HI1&Hd&Hr). cbn in Hr.
  wp_apply unregister_call_ok; [done..|]. intros _ s2 [Hd2 Ht2 Hr2 Hl2]. wp_steps. split; [by split|done].
Qed.
Lemma run_ok n s :
  running s → wp (run env n i) (λ r s', match r with Some _ => over s' ∧ exited s' = true | None => running s' end) s.
Proof.
  revert s. induction n as [|n IH]; intros s Hrun; cbn [run]; [by wp_steps|].
  wp_apply renewal_turn_ok; [done|]. intros r s1 [HI Hnext].
  destruct r as [e|]; [|by apply IH, Hnext].
  wp_apply leave_ok; [done|]. intros _ s2 Ho. by wp_steps.
Qed.

(** ** Starting *)

Lemma abandon_ok s : Inv s → ready s = false → wp (abandon env i) (λ r s', (∃ e, r = Err e) ∧ over s') s.
Proof.
  intros HI Hr. unfold abandon. wp_apply close_hub_ok; [done|]. intros _ s1 (HI1&Hd&Hr1).
  wp_apply unregister_call_ok; [done|done|congruence|]. intros _ s2 Ho. wp_steps. eauto.
Qed.

Lemma register_call_ok s :
  Inv s → Forall (λ e, is_call e = false) (i_steps s) →
  wp (register env i) (λ r s', Inv s' ∧ ready s' = ready s ∧
    ∀ safe, r = Some safe → ∃ t, lease_valid (last_lease (i_steps s')) false t safe) s.
Proof.
  intros HI Hc. unfold register, Identity. wp_apply rpcContext_quiet. intros rpc s1 (t1&Hq1&_&Hrpc).
  pose proof (quiet_Inv _ _ _ Hq1 HI) as HI1. wp_steps. rewrite (inv_id _ HI1).
  wp_apply act_moved. intros reply s2 [(Hid2&_) _ _ Hr2 He2 Hst2].
  destruct Hq1 as [[_ _ _ Hr1 _ Hst1] _].
  assert (Inv s2) as HI2.
  { split; [rewrite Hid2; apply HI1| | |rewrite He2; apply HI1]; rewrite Hst2.
    - apply trace_ok_snoc; [apply HI1|]. split_and!; [done|done| |].
      + rewrite Hst1. apply Forall_app. split; [done|by repeat constructor].
      + exists t1. by rewrite Hst1, last_snoc.
    - apply Forall_app. split; [apply HI1|by repeat constructor]. }
  destruct reply as [[lease|]|e]; [|wp_steps; split_and!; [done|congruence|done]..].
  eapply wp_mono; [apply validateLease_quiet, HI2|]. intros r s3 (tr&Hq3&Hr).
  split_and!; [by eapply quiet_Inv|destruct Hq3 as [[_ _ _ Hr3 _ _] _]; congruence|].
  intros safe ->. destruct (Hr _ eq_refl) as (t&_&Hl). exists t.
  rewrite (quiet_last_lease _ _ _ Hq3), Hst2. destruct lease as [l|]; [|by destruct Hl as [(?&?&_) _]].
  by rewrite (last_lease_new _ _ l).
Qed.

Lemma StartInstance_ok addr tok o s :
  configure addr tok o = Some i → owned s = false → ready s = false → exited s = false → i_steps s = [] →
  hub_identity (i_hub s) = id →
  wp (StartInstance env true addr tok o)
     (λ r s', match r with Ok i' => i' = i ∧ running s' | Err _ => over s' end) s.
Proof.
  intros Hc Ho Hr He Ht Hid. unfold StartInstance. cbn [negb]. rewrite Hc. wp_steps. rewrite Ho.
  unfold set_owned. wp_steps.
  wp_apply register_call_ok.
  { split; cbn; rewrite ?Ht; try done. by intros [|? ?] ? ?. }
  { cbn. rewrite Ht. constructor. }
  intros lease s1 (HI1&Hr1&Hlease). cbn in Hr1.
  assert (∀ s' tr, quiet tr s1 s' → wp (abandon env i) (λ r s', match r with Ok i' => i' = i ∧ running s' | Err _ => over s' end) s')
    as Hfail.
  { intros s' tr Hq. eapply wp_mono; [apply abandon_ok; [by eapply quiet_Inv|destruct Hq as [[_ _ _ -> _ _] _]; congruence]|].
    by intros r s'' [(e&->) ?]. }
  destruct lease as [safe|]; [|by eapply Hfail, still_refl]. destruct (Hlease _ eq_refl) as (t&Hl).
  wp_apply ctx_done_quiet. intros gone s2 Hq2. destruct gone; [by eapply Hfail|].
  wp_apply see_hub_quiet. intros h s3 [_ Hq3]. pose proof (still_trans _ _ _ _ _ Hq2 Hq3) as Hq13.
  destruct (draining h); [by eapply Hfail|].
  wp_apply see_hub_quiet. intros h' s4 [-> Hq4]. pose proof (still_trans _ _ _ _ _ Hq13 Hq4) as Hq14.
  pose proof (quiet_Inv _ _ _ Hq14 HI1) as HI4.
  destruct (hub_done (i_hub s4)) eqn:Hd.
  - wp_apply unregister_call_ok; [done|done|destruct Hq14 as [[_ _ _ -> _ _] _]; congruence|].
    intros _ s5 Hover. by wp_steps.
  - wp_apply set_lease_running; [done|by rewrite (quiet_last_lease _ _ _ Hq14)|]. intros _ s5 Hrun. by wp_steps.
Qed.
End Instance.

Section Life.
Context `{External} {W : Type} (env : instance_env W).

(** Starting an instance and [n] turns of its loop; the answer is an error once it is over. *)
Definition life (n : nat) (given : bool) (addr tok : string) (o : InstanceOptions)
  : ST (instance_state W) (option instance_error) :=
  r ← StartInstance env given addr tok o;
  match r with Ok i => run env n i | Err e => mret (Some e) end.
(** Nobody owns the hub yet and no step was taken. *)
Definition fresh (s : instance_state W) : Prop :=
  owned s = false ∧ ready s = false ∧ exited s = false ∧ i_steps s = [].

Lemma life_ok i n addr tok o s :
  (∀ w h, rtc step h (ie_others env w h).1) → (∀ w, zero_ns ≤ (ie_now env w).1) →
  configure addr tok o = Some i → fresh s →
  wp (life n true addr tok o) (λ r s', let id := hub_identity (i_hub s) in
     match r with Some _ => over i id s' | None => running i id s' end) s.
Proof.
  intros Hothers Hclock Hc (Ho&Hr&He&Ht). unfold life.
  wp_apply (StartInstance_ok env Hothers Hclock i (hub_identity (i_hub s))); try done.
  intros [i'|e] s1; [intros [-> Hrun]|intros Hover; by wp_steps].
  eapply wp_mono; [by eapply (run_ok env Hothers Hclock)|]. intros [e|] s2; [by intros [? _]|done].
Qed.

(** an instance calls Logic only as it should.  Whatever the clock, Logic, its context
    and the other users of the hub do, every call carries the token of the instance and the
    identity of the hub; the registration is made once and first; every renewal is made
    before the safe deadline of the last lease Logic answered, five seconds before it ends,
    and must be answered by then; nothing follows the unregistration, which is made at most
    once.  A rejected configuration, or a hub that has an owner, makes no call. *)
Theorem instance_calls n given addr tok o s :
  (∀ w h, rtc step h (ie_others env w h).1) → (∀ w, zero_ns ≤ (ie_now env w).1) →
  ready s = false → exited s = false → i_steps s = [] →
  match configure addr tok o with
  | Some i =>
    if given && negb (owned s) then trace_ok i (hub_identity (i_hub s)) (i_steps (life n given addr tok o s).2)
    else life n given addr tok o s = (Some InvalidConfiguration, s)
  | None => life n given addr tok o s = (Some InvalidConfiguration, s)
  end.
Proof.
  intros Hothers Hclock Hr He Ht. destruct (configure addr tok o) as [i|] eqn:Hc.
  - destruct given; [|done]. destruct (owned s) eqn:Ho; cbn [andb negb].
    + unfold life, StartInstance, mbind, ST_bind, gets. cbn [negb]. by rewrite Hc, Ho.
    + pose proof (life_ok i n addr tok o s Hothers Hclock Hc ltac:(done)) as Hl. unfold wp in Hl.
      destruct (life n true addr tok o s) as [[e|] s']; apply Hl.
  - unfold life, StartInstance. destruct given; [|done]. cbn. by rewrite Hc.
Qed.

(** The answer of [Ready] at the end, and what it means. *)
Lemma Ready_true s :
  (∀ w h, rtc step h (ie_others env w h).1) →
  wp (Ready env) (λ b s', b = true → ∃ t, i_steps s' = i_steps s ++ [INow t] ∧ t < safeDeadline s
     ∧ ready s = true ∧ draining (i_hub s) = false ∧ hub_done (i_hub s') = false ∧ exited s' = false) s.
Proof.
  intros Hothers. unfold Ready. wp_steps. destruct (ready s); [|wp_steps; done].
  unfold now. wp_steps. wp_apply @act_moved. intros t s1 [Ha1 _ Hs1 _ _ Ht1]. wp_steps. rewrite Hs1.
  destruct (Z.ltb_spec t (safeDeadline s)); cbn [negb]; [|wp_steps; done].
  wp_apply (see_hub_quiet env Hothers). intros h s2 [-> [[Ha2 _ _ _ _ Ht2] _]].
  destruct (draining (i_hub s2)) eqn:Hdr; [wp_steps; done|].
  wp_apply (see_hub_quiet env Hothers). intros h s3 [-> [[Ha3 _ _ _ _ Ht3] _]]. wp_steps.
  rewrite andb_true_iff, !negb_true_iff. intros [Hd He]. exists t.
  split_and!; try done; [by rewrite Ht3, Ht2, Ht1, !app_nil_r|].
  apply not_true_is_false. intros Hdr0. destruct Ha1 as (_&_&Hd1&_), Ha2 as (_&_&Hd2&_). assert (draining (i_hub s2) = true) by auto. congruence.
Qed.

(** an instance is ready only while it holds a lease, and leaves nothing behind.  If
    [Ready] answers true after any number of turns, the instance is not over, its hub was
    neither draining nor closed, and it holds a lease of Logic with its own identity and
    address that lasts for five more seconds at least.  Once the start has failed or the
    loop has ended, for whatever reason, the hub is closed, the last call of the instance
    was the unregistration of its identity, and [Ready] answers false. *)
Theorem instance_ready i n addr tok o s :
  (∀ w h, rtc step h (ie_others env w h).1) → (∀ w, zero_ns ≤ (ie_now env w).1) →
  configure addr tok o = Some i → fresh s →
  let '(r, s') := life n true addr tok o s in
  let '(rdy, s'') := Ready env s' in
  (rdy = true → r = None ∧ draining (i_hub s') = false ∧ hub_done (i_hub s'') = false ∧ exited s' = false
     ∧ ∃ t l d, last (i_steps s'') = Some (INow t) ∧ last_lease (i_steps s') = Some l
         ∧ sameComet (pb.LeaseIdentity l) (Some (hub_identity (i_hub s))) = true ∧ pb.RpcAddress l = addr
         ∧ pb.LeaseDeadline l = Some d ∧ t + 5 * second < as_ns d)
  ∧ (r ≠ None → rdy = false ∧ hub_done (i_hub s') = true
       ∧ ∃ rpc, last (i_steps s') = Some (IUnregister rpc (hub_identity (i_hub s)))).
Proof.
  intros Hothers Hclock Hc Hf. pose proof (life_ok i n addr tok o s Hothers Hclock Hc Hf) as Hl. unfold wp in Hl.
  destruct (life n true addr tok o s) as [r s']. cbn [fst snd] in Hl.
  pose proof (Ready_true s' Hothers) as Hrdy. unfold wp in Hrdy. destruct (Ready env s') as [rdy s''].
  cbn [fst snd] in Hrdy.
  assert (address i = addr) as Ha.
  { unfold configure in Hc. destruct (_ || _) in Hc; [done|]. destruct (_ || _) in Hc; by simplify_eq. }
  split.
  - intros ->. destruct (Hrdy eq_refl) as (t&Ht&Hlt&Hr&Hdr&Hd&_).
    destruct r as [e|]; [destruct Hl as [_ _ Hr' _]; congruence|]. destruct Hl as [[_ _ _ He] (drain&t'&[(l&Hl&Hs&Hid&Hla&_) _])].
    split_and!; try done. unfold safe_until in Hs. destruct (pb.LeaseDeadline l) as [d|] eqn:Hdl; [|done].
    apply (inj Some) in Hs. exists t, l, d. split_and!; try done; [by rewrite Ht, last_snoc|congruence|].
    unfold instanceSafetyMargin in Hs. lia.
  - intros Hr. destruct r as [e|]; [|done]. destruct Hl as [Hd _ Hr' (rpc&Hlast)]. split_and!; [|done|by exists rpc].
    destruct rdy; [|done]. destruct (Hrdy eq_refl) as (?&_&_&?&_). congruence.
Qed.
End Life.

(** ** Samples *)

(** The clock advances a second per reading; Logic registers the instance and refuses the
    second renewal. *)
Definition sample_lease (drain : bool) : option pb.CometLease :=
  Some (pb.MkCometLease (Some sample_comet) "127.0.0.1:7000" drain (Some (MkTimestamp 60 0))).
Definition sample_instance_env : instance_env nat := {|
  ie_others w h := (h, w);
  ie_now w := (Z.of_nat w * second, S w);
  ie_ctx_done w := (false, w);
  ie_wait _ w := (WokeTimer, w);
  ie_register _ _ _ w := (Ok (Some (sample_lease false)), w);
  ie_renew _ _ drain w :=
    (if (w <? 8)%nat then Ok (Some (sample_lease drain)) else Err (StatusError Unauthenticated []), w);
  ie_unregister _ _ w := w
|}.
Definition sample_token : string := "cccccccccccccccccccccccccccccccc".
Definition sample_options : InstanceOptions := MkInstanceOptions 0 0.
Definition sample_start : instance_state nat := InstanceState 0%nat empty_hub false 0 false None false [].

Lemma sample_clock w : zero_ns ≤ (ie_now sample_instance_env w).1.
Proof. cbn. unfold zero_ns, second, millisecond. lia. Qed.

Lemma instance_calls_witness :
  omap (λ st, match st with IRenew rpc _ _ _ => Some (rpc_deadline rpc / second) | _ => None end)
    (i_steps (life (H := Reference.external) sample_instance_env 5 true "127.0.0.1:7000" sample_token sample_options
                sample_start).2) = [6; 11]
  ∧ ∃ i, configure "127.0.0.1:7000" sample_token sample_options = Some i
         ∧ trace_ok i sample_comet (i_steps (life (H := Reference.external) sample_instance_env 5 true "127.0.0.1:7000"
                                               sample_token sample_options sample_start).2).
Proof.
  split; [by vm_compute|]. exists (MkInstance "127.0.0.1:7000" sample_token (10 * second) (2 * second)). split; [by vm_compute|].
  exact (instance_calls (H := Reference.external) sample_instance_env 5 true "127.0.0.1:7000" sample_token sample_options
           sample_start (λ w h, rtc_refl _ _) sample_clock eq_refl eq_refl eq_refl).
Defined.

Lemma instance_ready_witness :
  (Ready sample_instance_env
     (life (H := Reference.external) sample_instance_env 0 true "127.0.0.1:7000" sample_token sample_options sample_start).2).1 = true
  ∧ (life (H := Reference.external) sample_instance_env 5 true "127.0.0.1:7000" sample_token sample_options sample_start).1
    = Some ErrInstanceLeaseLost
  ∧ let '(r, s) := life (H := Reference.external) sample_instance_env 5 true "127.0.0.1:7000" sample_token sample_options
                     sample_start in
    hub_done (i_hub s) = true.
Proof.
  split; [by vm_compute|]. split; [by vm_compute|].
  pose proof (instance_ready (H := Reference.external) sample_instance_env
    (MkInstance "127.0.0.1:7000" sample_token (10 * second) (2 * second)) 5 "127.0.0.1:7000" sample_token sample_options
    sample_start (λ w h, rtc_refl _ _) sample_clock eq_refl ltac:(done)) as Hr.
  assert ((life (H := Reference.external) sample_instance_env 5 true "127.0.0.1:7000" sample_token sample_options
             sample_start).1 = Some ErrInstanceLeaseLost) as He by (by vm_compute).
  destruct (life _ 5 _ _ _ _ _) as [r s]. destruct (Ready _ s) as [rdy s']. cbn [fst] in He. subst r.
  by apply Hr.
Defined.
