(* ===== verification/JobComet.v ===== *)
(** * Job and Comet agree on their protocol

    A delivery request the processor may make passes every check of the Comet it
    addresses, and the answer of that Comet passes every check of the processor. *)
From S2P Require Import Prelude GoStd GoTime External Json Dto JobTask JobTaskProofs Samples JobProcessor JobProcessorProofs CometValidation CometHub CometHubProofs CometRpc.
Local Open Scope Z_scope.

(** ** A decoded chunk index is a uint32 *)

Definition chunk_in_range (t : im.PushTask) : Prop := 0 ≤ im.ChunkIndex t < 2 ^ 32.

Lemma decode_struct_inv {A} (field : A → string → json → option A) (P : A → Prop) x v y :
  (∀ x k v y, P x → field x k v = Some y → P y) → P x → decode_struct field x v = Some y → P y.
Proof.
  intros Hf Hx. destruct v; cbn; try done; [by intros [= <-]|].
  revert x Hx. induction l as [|[k v] ms IH]; intros x Hx; cbn; [by intros [= <-]|].
  destruct (field x k v) as [x'|] eqn:Hk; [by apply IH; eapply Hf|].
  intros Hn. exfalso. clear -Hn. induction ms; [done|]. by apply IHms.
Qed.

Lemma task_field_chunk x k v y : chunk_in_range x → task_field x k v = Some y → chunk_in_range y.
Proof.
  unfold chunk_in_range. intros Hx. destruct x as [sv kd ti msg rc tg ci cc ri pr rr]. cbn [im.ChunkIndex] in Hx.
  unfold task_field. cbv beta iota. intros Hf.
  repeat match type of Hf with
  | (if ?b then _ else _) = _ => destruct b; [apply bind_Some in Hf as (?&Hd&[= <-]); cbn; try done|]
  end; [|done].
  destruct v; cbn in Hd; simplify_eq; [done|]. revert Hd. unfold parse_uint. repeat case_match; [|done..].
  intros [= <-]. apply Z.ltb_lt in H0. lia.
Qed.

Lemma DecodeTask_chunk `{External} raw t : DecodeTask raw = Ok t → chunk_in_range t.
Proof.
  rewrite DecodeTask_iff. intros (ms&mv&_&_&_&_&Hd&_). revert Hd.
  apply decode_struct_inv; [apply task_field_chunk|]. by unfold chunk_in_range; cbn; lia.
Qed.

Section Compatibility.
Context `{External}.

(** ** The two validators agree *)

Lemma validUUID_agree s : JobTask.validUUID s = CometValidation.validUUID s.
Proof. done. Qed.
Lemma validID_agree s p : JobTask.validID s p = CometValidation.validID s p.
Proof. done. Qed.

Lemma validConnection_agree c instance :
  JobTask.validConnection (Some c) = true → pb.InstanceId c = instance →
  CometValidation.validateConnection (Some c) instance = true.
Proof.
  unfold JobTask.validConnection, CometValidation.validateConnection, validToken.
  rewrite !andb_true_iff. intros ((((Hu&_)&Hk)&Hl)&Ht) <-.
  rewrite bool_decide_true by done. rewrite validID_agree in Hu. rewrite validUUID_agree in Hk.
  split_and!; try done. destruct (base64_raw_url_decode _) as [raw|]; [|done].
  rewrite andb_true_iff in *. destruct Ht as [Ht ?]. split; [|done].
  apply Z.leb_le in Ht. apply negb_true_iff, Z.ltb_ge. lia.
Qed.

Lemma validInstance_comet comet :
  JobTask.validInstance (pb.CometInstanceId comet) = true → JobTask.validUUID (pb.BootId comet) = true →
  CometValidation.validateComet (Some comet) = true.
Proof.
  unfold JobTask.validInstance, CometValidation.validateComet. intros Hi Hu.
  rewrite validUUID_agree in Hu. rewrite Hu.
  apply andb_true_iff in Hi as [[Hl Hl']%negb_true_iff%orb_false_iff Hr]. by rewrite Hl, Hl'.
Qed.

Lemma timestamp_round_trip ns : as_ns (timestamp_of_ns ns) = ns.
Proof.
  unfold as_ns, timestamp_of_ns, second, millisecond. cbn [Seconds Nanos].
  pose proof (Z.div_mod ns (1000 * 1000000)). lia.
Qed.

(** What Job sends as a message is what Comet takes for one. *)
Lemma messageView_valid m v :
  messageView m = Ok v → validateMessage (Some v) = true ∧ pb.MessageId v = im.MessageID m.
Proof.
  unfold messageView. destruct (parse_int 64 (im.Position m)) as [pos|] eqn:Hpos; [|done].
  cbn [mbind result_bind]. rewrite !ensure_bind_Ok, !result_bind_Ok.
  intros [Hids [Htext (origin&Horigin&Hv)]]. apply result_bind_Ok in Hv as (receive&Hreceive&[= <-]).
  split; [|done]. rewrite !andb_true_iff in *.
  destruct Hids as ((((((?&?)&Hp)&_)&Hz)&_)&Ht), Htext as (((_&?)&Hlen)&?).
  apply Z.ltb_lt in Hp. apply Z.leb_le in Hlen. pose proof (parse_int_range _ _ Hpos).
  unfold validateMessage. cbn. rewrite !andb_true_iff. split_and!; try done.
  - apply negb_true_iff, Z.ltb_ge. lia.
  - destruct (bool_decide (im.Origin m = im.MessageOriginUser)); [by injection Horigin as <-|].
    destruct (bool_decide (im.Origin m = im.MessageOriginAI)); [by injection Horigin as <-|done].
  - by rewrite timestamp_round_trip.
  - apply negb_true_iff, Z.eqb_neq. lia.
  - apply negb_true_iff, Z.ltb_ge. lia.
  - destruct (bool_decide (im.ReceiveType m = im.ReceiveTypeUser));
      [|destruct (bool_decide (im.ReceiveType m = im.ReceiveTypeGroup)); [|done]];
      apply ensure_bind_Ok in Hreceive as [Hok [= <-]]; cbn; rewrite ?validID_agree in Hok; done.
Qed.

Lemma chunk_ok_format message n :
  0 ≤ n < 2 ^ 32 → chunk_ok ("push:v1:" +:+ message +:+ ":" +:+ format_uint n) message = true.
Proof.
  intros Hn. unfold chunk_ok.
  assert ("push:v1:" +:+ message +:+ ":" +:+ format_uint n
          = ("push:v1:" +:+ message +:+ ":") +:+ format_uint n) as -> by by rewrite !string_app_assoc.
  rewrite cut_prefix_app, parse_format_uint by done. by apply bool_decide_eq_true.
Qed.

Lemma delivery_targets_spec instance cs seen :
  Forall (λ c, validateConnection (Some c) instance = true) cs → NoDup cs → Forall (.∉ seen) cs →
  delivery_targets_ok instance seen (Some <$> cs) = true.
Proof.
  intros Hall Hnd. revert seen. induction Hnd as [|c cs Hc Hnd IH]; intros seen Hs; cbn [fmap list_fmap delivery_targets_ok]; [done|].
  apply Forall_cons in Hall as [Hok Hall], Hs as [Hs1 Hs]. rewrite Hok, bool_decide_false by done. cbn [negb andb].
  apply IH; [done|]. rewrite Forall_forall in *. set_solver.
Qed.

Lemma printable_request id : printable id 128 = true → validRequestID id = true.
Proof.
  unfold printable, validRequestID. rewrite !andb_true_iff. intros [[_ Hl]%negb_true_iff%orb_false_iff Hr].
  by rewrite Hl.
Qed.

Lemma sameTarget_refl c : sameTarget (Some c) (Some c) = true.
Proof. unfold sameTarget. by rewrite !bool_decide_true. Qed.

Lemma deliver_op_items m ts nows h :
  length (deliver_op m ts nows h).1 = length ts
  ∧ delivery_items_ok (deliver_op m ts nows h).1 (Some <$> ts) = true.
Proof.
  revert nows h. induction ts as [|c ts IH]; intros nows h; [done|]. cbn [deliver_op].
  pose proof (deliver_one_spec m c (nows 0%nat) h) as Hone.
  destruct (deliver_one m c (nows 0%nat) h) as [o h1]. destruct Hone as (_&[Hlo Hhi]&_).
  specialize (IH (λ i, nows (S i)) h1). destruct (deliver_op m ts _ h1) as [rs h2].
  destruct IH as [Hl Hok]. cbn [fst fmap list_fmap length delivery_items_ok] in *.
  split; [by rewrite Hl|]. cbn [pb.Target pb.Outcome]. rewrite sameTarget_refl, Hok.
  apply Z.leb_le in Hlo, Hhi. by rewrite Hlo, Hhi.
Qed.

(** The answer the header of a request carries to the handler. *)
Definition metadata_of (c : context) : list string :=
  match ctx_authorization c with Some a => [a] | None => [] end.

Lemma request_valid raw task message t ctx req h :
  DecodeTask raw = Ok task → messageView (im.Message_ task) = Ok message →
  request_ok task message (task_ids task) t ctx req → pb.ReqComet req = Some (hub_identity h) →
  validateComet (Some (hub_identity h)) = true
  ∧ validateDelivery (pb.ReqTaskId req) (pb.ReqMessage req) (pb.ReqTargets req)
      (pb.CometInstanceId (hub_identity h)) = true.
Proof.
  intros Hd Hm Hreq Hid. pose proof (DecodeTask_well_formed _ _ Hd) as Hwf.
  pose proof (DecodeTask_chunk _ _ Hd) as Hchunk. destruct (messageView_valid _ _ Hm) as [Hmv Hmid].
  destruct Hreq as (Htid&Hmsg&Hrid&lease&comet&deadline&cs&t0&t1&t2&Hres&_&Hl&Hc&_&_&_&Hcs&Hne&Hnd&Hall).
  rewrite Hid in Hc. injection Hc as Hc. rewrite Hc in *.
  destruct Hres as (?&?&?&?&comet'&_&_&_&Hl'&Hboot&_). assert (comet' = comet) as -> by congruence.
  assert (∃ c, c ∈ cs) as [c0 Hc0] by (destruct cs as [|c0 cs]; [done|exists c0; apply list_elem_of_here]).
  rewrite Forall_forall in Hall. split.
  - apply validInstance_comet; [|done]. destruct (Hall _ Hc0) as (_&Hv&<-&_).
    unfold JobTask.validConnection in Hv. rewrite !andb_true_iff in Hv. naive_solver.
  - unfold validateDelivery. rewrite Hmsg, Hmv, Htid, Hcs, (wf_id _ Hwf), Hmid, chunk_ok_format by done.
    cbn [andb]. rewrite delivery_targets_spec.
    + rewrite andb_true_r. apply negb_true_iff, orb_false_iff. split.
      * rewrite slen_nil_eqb. by destruct cs.
      * apply Z.ltb_ge. unfold slen. rewrite length_fmap, <-(length_fmap pb.UserId).
        assert ((pb.UserId <$> cs) ⊆+ im.Recipients task) as Hsub%submseteq_length.
        { apply NoDup_submseteq; [done|]. intros u (c&->&Hc')%list_elem_of_fmap.
          destruct (Hall _ Hc') as (Hin&_). unfold task_ids in Hin.
          destruct (im.PendingRecipients task) as [l|] eqn:Hp; [|done].
          destruct (wf_pending _ Hwf) as [_ Hsub]. rewrite Hp, Forall_forall in Hsub. by apply Hsub. }
        pose proof (wf_size _ Hwf) as Hsz. unfold slen in Hsz. lia.
    + apply Forall_forall. intros c Hc'. destruct (Hall _ Hc') as (_&?&?&_). by apply validConnection_agree.
    + by apply NoDup_fmap_1 in Hnd.
    + apply Forall_forall. intros c _. apply not_elem_of_nil.
Qed.

(** C36: Job and Comet agree on the protocol.  A request that [Process] may make for a task
    whose request id is one that Comet takes, sent to the Comet it names, whose credential
    of Job is the one Job carries, is authorised and passes every check of that Comet's handler,
    which has the effect of the delivery on its hub; and what the handler answers passes every
    check of [Process].  (A request id smuggled in under an alias of its name need not be
    printable, hence the hypothesis on it.) *)
Theorem Comet_accepts_Job p raw task message dl t ctx req reply nows s :
  DecodeTask raw = Ok task → messageView (im.Message_ task) = Ok message →
  event_ok p task message (task_ids task) dl t (EvDeliver ctx req reply) →
  validRequestID (im.RequestID task) = true →
  JobToken (credentials s) = token p → pb.ReqComet req = Some (hub_identity (hub s)) →
  ∃ resp ts,
    pb.ReqTargets req = Some <$> ts
    ∧ Deliver Answered (metadata_of ctx) (Some req) nows s
      = (Ok resp, set_hub (deliver_op message ts nows (hub s)).2 s)
    ∧ validDelivery (Some resp) (im.TaskID task) (pb.MessageId message) (pb.ReqTargets req) = true.
Proof.
  intros Hd Hm [[Hauth _] Hreq] Hrid Htok Hid.
  destruct (request_valid _ _ _ _ _ _ (hub s) Hd Hm Hreq Hid) as [Hcomet Hval].
  destruct Hreq as (Htid&Hmsg&Hri&_&_&_&cs&_&_&_&_&_&_&_&_&_&_&Hcs&_).
  unfold Deliver, metadata_of, authorize. rewrite Hauth, cut_prefix_app, Htok, bool_decide_true by done.
  unfold checkIdentity. rewrite Hri, Hrid, Hid, Hcomet. cbn [negb orb].
  assert (sameComet (Some (hub_identity (hub s))) (Some (hub_identity (hub s))) = true) as ->.
  { cbn. by rewrite !bool_decide_true. }
  cbn [negb]. unfold CometHub.Deliver. rewrite Hmsg in *. rewrite Hval. cbn [call].
  assert (omap id (pb.ReqTargets req) = cs) as ->.
  { rewrite Hcs. clear. induction cs as [|c cs IH]; [done|]. cbn. by rewrite IH. }
  destruct (deliver_op_items message cs nows (hub s)) as [Hlen Hitems].
  destruct (deliver_op message cs nows (hub s)) as [rs h'] eqn:Hop. cbn [fst snd] in *.
  eexists _, cs. split; [done|]. rewrite Hop. split; [reflexivity|].
  unfold validDelivery. cbn [pb.ResTaskId pb.ResMessageId pb.Results].
  rewrite !bool_decide_true by done. rewrite Hcs, Hitems. unfold slen.
  rewrite length_fmap, Hlen, Z.eqb_refl. done.
Qed.
End Compatibility.

(** The first delivery of a run, sent to a Comet where its target is connected. *)
Definition sample_service : RPCService := MkRPCService one_user (MkRPCCredentials job_token "logic" "admin").

Lemma Comet_accepts_Job_witness :
  ∃ resp ts, pb.ReqTargets (sample_request user1 "comet-1") = Some <$> ts
    ∧ Deliver (H := Reference.external) Answered (metadata_of sample_context)
        (Some (sample_request user1 "comet-1")) (λ _, 0) sample_service
      = (Ok resp, set_hub (deliver_op (match pb.ReqMessage (sample_request user1 "comet-1") with
                                       | Some m => m | None => sample_view end) ts (λ _, 0) one_user).2 sample_service)
    ∧ pb.Results resp = [result_of (sample_identity user1) pb.OUTCOME_ENQUEUED].
Proof.
  assert (DecodeTask (H := Reference.external) twice_hinted_task = Ok (decoded twice_hinted_task)) as Hd
    by (vm_compute; reflexivity).
  destruct (messageView (H := Reference.external) (im.Message_ (decoded twice_hinted_task))) as [message|] eqn:Hm;
    [|vm_compute in Hm; discriminate Hm].
  assert (pb.ReqMessage (sample_request user1 "comet-1") = Some message) as Hmsg
    by (unfold sample_request; cbn [pb.ReqMessage]; by rewrite Hm).
  pose proof (Process_ok (H := Reference.external) sample_env sample_processor twice_hinted_task
    (decoded twice_hinted_task) background tt Hd) as Hp.
  fold sample_run2 in Hp.
  assert (trace sample_run2.2 !! 15%nat = Some (sample_delivery user1 "comet-1")) as H15 by (vm_compute; reflexivity).
  destruct sample_run2 as [[res err] st]. destruct Hp as (_&_&_&_&_&message'&now&Hm'&_&Hev).
  assert (message' = message) as -> by congruence.
  specialize (Hev _ _ H15). unfold sample_delivery in Hev.
  assert (validRequestID (im.RequestID (decoded twice_hinted_task)) = true) as Hrid by (vm_compute; reflexivity).
  assert (pb.ReqComet (sample_request user1 "comet-1") = Some (hub_identity (hub sample_service))) as Hid
    by (vm_compute; reflexivity).
  destruct (@Comet_accepts_Job Reference.external _ _ _ _ _ _ _ _ _
    (λ _, 0) sample_service Hd Hm Hev Hrid eq_refl Hid) as (resp&ts&Hts&Hrun&_).
  exists resp, ts. rewrite Hmsg. split; [done|]. split; [done|].
  change (Some <$> [sample_identity user1] = Some <$> ts) in Hts. apply (inj (fmap Some)) in Hts. subst ts.
  assert (match (Deliver (H := Reference.external) Answered (metadata_of sample_context)
                   (Some (sample_request user1 "comet-1")) (λ _, 0) sample_service).1 with
          | Ok r => pb.Results r | Err _ => []
          end = [result_of (sample_identity user1) pb.OUTCOME_ENQUEUED]) as Hr by (vm_compute; reflexivity).
  rewrite Hrun in Hr. exact Hr.
Defined.
