(* ===== verification/RoutingStore.v ===== *)
(** * Leases in Redis: [internal/logic/routing/store.go] and the Lua script of [scripts.go]

    Redis runs a script atomically, so the script is a function on the key space: a finite
    map from keys to records, with GET, SET and DEL as lookup, insert and delete.  The
    expiry that SET arms is a step of its own, which may remove a key past its deadline.
    The record has the fields of the Go type; a field the JSON omits is the empty value. *)
From S2P Require Import Prelude GoStd GoTime External Dto.
Local Open Scope Z_scope.

Inductive store_error : Type :=
| ErrInvalid | ErrConflict | ErrNotRegistered | ErrSuperseded | ErrLeaseExpired | ErrDraining
| ErrDependency (ctx : option context_error).

Record record : Type := MkRecord {
  User : string; Instance_ : string; Boot : string; Connection : string; Token : string;
  Address : string; Draining : bool; Auth : Z; Deadline : Z; IDs : list string
}.
Definition set_deadline (d : Z) (r : record) : record :=
  MkRecord (User r) (Instance_ r) (Boot r) (Connection r) (Token r) (Address r) (Draining r) (Auth r) d (IDs r).
Definition set_draining (b : bool) (r : record) : record :=
  MkRecord (User r) (Instance_ r) (Boot r) (Connection r) (Token r) (Address r) b (Auth r) (Deadline r) (IDs r).

Abbreviation db := (gmap string record).

(** ** The script *)

Record item : Type := MkItem { item_id : string; item_reason : Z; item_route : option record; item_instance : option record }.
Record reply : Type := MkReply {
  Err_ : string; rep_instance : option record; rep_route : option record; previous : option record;
  outcome : Z; results : list item
}.
Definition answer_instance (r : record) : reply := MkReply "" (Some r) None None 0 [].
Definition answer_route (r : record) (old : option record) : reply := MkReply "" None (Some r) old 0 [].
Definition answer_outcome (o : Z) : reply := MkReply "" None None None o [].
Definition answer_results (l : list item) : reply := MkReply "" None None None 0 l.
Definition err (code : string) : reply := MkReply code None None None 0 [].

Module Lua.
Definition digit_or_lower (b : Z) : bool := in_range 97 122 b || in_range 48 57 b.
Definition xdigit (b : Z) : bool := in_range 48 57 b || in_range 97 102 b || in_range 65 70 b.
Definition zero_uuid : string := "00000000-0000-0000-0000-000000000000".
Definition uuid (v : string) : bool :=
  (len v =? 36) && bool_decide (v ≠ zero_uuid)
  && forallb (λ i, bool_decide (bytes v !! i = Some 45)) [8; 13; 18; 23]%nat
  && (let hex := List.filter (λ b, negb (b =? 45)) (bytes v) in (slen hex =? 32) && forallb xdigit hex).
Definition instanceid (v : string) : bool :=
  (1 <=? len v) && (len v <=? 64) && forallb (λ b, digit_or_lower b || (b =? 45)) (bytes v).
Definition timestamp (v : Z) : bool := (0 <? v) && (v <=? 253402300799999).
Definition token_byte (b : Z) : bool :=
  in_range 65 90 b || in_range 97 122 b || in_range 48 57 b || (b =? 95) || (b =? 45).
Definition token (v : string) : bool :=
  negb ((len v <? 22) || (128 <? len v)) && forallb token_byte (bytes v)
  && (let m := len v mod 4 in
      let e := default 0 (last (bytes v)) in
      if m =? 1 then false
      else if m =? 2 then bool_decide (e ∈ bytes "AQgw")
      else if m =? 3 then bool_decide (e ∈ bytes "AEIMQUYcgkosw048")
      else true).

Section Script.
(** [ip] and [rp] are the key prefixes, [ittl] and [rttl] the lifetimes, [now] the clock of Redis. *)
Context (ip rp : string) (ittl rttl now : Z).

(** The shape of the value under [key]; the script raises an error on any other. *)
Definition stored_ok (key : string) (v : record) : bool :=
  instanceid (Instance_ v) && uuid (Boot v) && timestamp (Deadline v)
  && (if has_prefix key ip then
        bool_decide (key = ip +:+ Instance_ v) && negb (len (Address v) =? 0)
      else
        (len (User v) =? 37) && head_is (User v) "U" && uuid (tail (User v)) && bool_decide (key = rp +:+ User v)
        && uuid (Connection v) && token (Token v) && timestamp (Auth v) && (Deadline v <=? Auth v)).
(** [None] is a raised error. *)
Definition read (d : db) (key : string) : option (option record) :=
  match d !! key with
  | None => Some None
  | Some v => if stored_ok key v then Some (Some v) else None
  end.
Definition live (v : option record) : bool := match v with Some v => now <? Deadline v | None => false end.
Definition save (key : string) (v : record) (d : db) : db := <[key := v]> d.
Definition same (a b : record) : bool :=
  bool_decide (User a = User b) && bool_decide (Instance_ a = Instance_ b)
  && bool_decide (Connection a = Connection b) && bool_decide (Token a = Token b).
Definition instance (d : db) (id : string) : option (option record) := read d (ip +:+ id).
Definition is_live_boot (i : option record) (boot : string) : bool :=
  match i with Some i => (now <? Deadline i) && bool_decide (Boot i = boot) | None => false end.
Definition validinstance (d : db) (r : record) : option bool :=
  i ← instance d (Instance_ r); Some (is_live_boot i (Boot r)).

Definition register (key : string) (p : record) (d : db) : option (reply * db) :=
  old ← read d key;
  match old with
  | Some o =>
    if now <? Deadline o then
      if bool_decide (Boot o ≠ Boot p) || bool_decide (Address o ≠ Address p) then Some (err "conflict", d)
      else let p := set_deadline (now + ittl) (set_draining (Draining o) p) in
           Some (answer_instance p, save key p d)
    else let p := set_deadline (now + ittl) (set_draining false p) in Some (answer_instance p, save key p d)
  | None => let p := set_deadline (now + ittl) (set_draining false p) in Some (answer_instance p, save key p d)
  end.
Definition renew (key : string) (p : record) (d : db) : option (reply * db) :=
  old ← read d key;
  match old with
  | Some o =>
    if is_live_boot old (Boot p)
    then let o := set_deadline (now + ittl) (set_draining (Draining o || Draining p) o) in
         Some (answer_instance o, save key o d)
    else Some (err "not_registered", d)
  | None => Some (err "not_registered", d)
  end.
Definition unregister (key : string) (p : record) (d : db) : option (reply * db) :=
  old ← read d key;
  match old with
  | Some o =>
    if negb (now <? Deadline o) then Some (answer_outcome pb.NOT_FOUND, d)
    else if bool_decide (Boot o ≠ Boot p) then Some (answer_outcome pb.NOT_CURRENT, d)
    else Some (answer_outcome pb.DELETED, delete key d)
  | None => Some (answer_outcome pb.NOT_FOUND, d)
  end.
(** An [auth] of zero is omitted from the JSON, and arithmetic on nil raises an error. *)
Definition connect (key ikey : string) (p : record) (d : db) : option (reply * db) :=
  i ← read d ikey;
  if negb (is_live_boot i (Boot p)) then Some (err "not_registered", d)
  else if match i with Some i => Draining i | None => false end then Some (err "draining", d)
  else if Auth p =? 0 then None
  else if Auth p - now <=? 5000 then Some (err "expired", d)
  else
    let p := set_deadline (Z.min (now + rttl) (Auth p)) p in
    old ← read d key;
    let old := match old with
               | Some o => if negb (now <? Deadline o) || (Auth o <=? now) then None else Some o
               | None => None
               end in
    Some (answer_route p old, save key p d).
Definition check (heartbeat : bool) (key : string) (p : record) (d : db) : option (reply * db) :=
  old ← read d key;
  match old with
  | None => Some (err "expired", d)
  | Some o =>
    if negb (same o p) then Some (err "superseded", d)
    else if negb (now <? Deadline o) || (Auth o <=? now) then Some (err "expired", d)
    else
      ok ← validinstance d o;
      if negb ok then Some (err "not_registered", d)
      else if heartbeat
           then let o := set_deadline (Z.min (now + rttl) (Auth o)) o in Some (answer_route o None, save key o d)
           else Some (answer_route o None, d)
  end.
Definition disconnect (key : string) (p : record) (d : db) : option (reply * db) :=
  old ← read d key;
  match old with
  | Some o =>
    if negb (now <? Deadline o) then Some (answer_outcome pb.NOT_FOUND, d)
    else if negb (same o p) then Some (answer_outcome pb.NOT_CURRENT, d)
    else Some (answer_outcome pb.DELETED, delete key d)
  | None => Some (answer_outcome pb.NOT_FOUND, d)
  end.
Definition lookup_one (d : db) (key id : string) : option item :=
  r ← read d key;
  match r with
  | None => Some (MkItem id 1 None None)
  | Some v =>
    if negb (now <? Deadline v) || (Auth v <=? now) then Some (MkItem id 2 None None)
    else ok ← validinstance d v;
         if ok : bool then Some (MkItem id 0 (Some v) None) else Some (MkItem id 3 None None)
  end.
Definition resolve_one (d : db) (key id : string) : option item :=
  i ← read d key;
  match i with
  | None => Some (MkItem id 1 None None)
  | Some v => if negb (now <? Deadline v) then Some (MkItem id 2 None None) else Some (MkItem id 0 None (Some v))
  end.
Definition batch (one : db → string → string → option item) (keys : list string) (p : record) (d : db)
  : option (reply * db) :=
  l ← mapM (λ kid, one d kid.1 kid.2) (zip keys (IDs p)); Some (answer_results l, d).

Definition script (op : string) (p : record) (keys : list string) (d : db) : option (reply * db) :=
  match keys with
  | [] => Some (err "invalid", d)
  | key :: rest =>
    if bool_decide (op = "register") then register key p d
    else if bool_decide (op = "renew") then renew key p d
    else if bool_decide (op = "unregister") then unregister key p d
    else if bool_decide (op = "connect") then connect key (default "" (head rest)) p d
    else if bool_decide (op = "check") then check false key p d
    else if bool_decide (op = "heartbeat") then check true key p d
    else if bool_decide (op = "disconnect") then disconnect key p d
    else if bool_decide (op = "lookup") then batch lookup_one keys p d
    else if bool_decide (op = "resolve") then batch resolve_one keys p d
    else Some (err "invalid", d)
  end.
End Script.
End Lua.

(** ** The Go side *)

(** [client] is borrowed; the whole key space is an argument of the operations. *)
Record Store : Type := MkStore { instances : string; routes : string; instanceTTL : Z; routeTTL : Z }.

(** A duration rounded up to milliseconds; zero is the default of a minute. *)
Definition ttl (d : Z) : Z := let d := if d =? 0 then minute else d in (d - 1) / millisecond + 1.
Definition New (client : bool) (prefix : string) (instance_ttl route_ttl : Z) : result store_error Store :=
  if negb client || (instance_ttl <? 0) || (route_ttl <? 0) || (256 <? len prefix)
     || contains_any prefix (of_bytes [123; 125; 13; 10; 0])
  then Err ErrInvalid
  else let base := prefix +:+ "{logic-routing}:" in
       Ok (MkStore (base +:+ "instance:") (base +:+ "route:") (ttl instance_ttl) (ttl route_ttl)).

Section Store.
Context `{External}.

Definition nil_uuid : string := "00000000-0000-0000-0000-000000000000".
Definition validUUID (s : string) : bool := (len s =? 36) && bool_decide (s ≠ nil_uuid) && uuid_validate s.
Definition validUser (s : string) : bool := (len s =? 37) && head_is s "U" && validUUID (tail s).
Definition instance_rune (c : Z) : bool := in_range 97 122 c || in_range 48 57 c || (c =? 45).
Definition validInstance (s : string) : bool :=
  negb ((len s <? 1) || (64 <? len s)) && forallb instance_rune (runes s).
Definition validComet (id : option pb.CometIdentity) : bool :=
  match id with Some id => validInstance (pb.CometInstanceId id) && validUUID (pb.BootId id) | None => false end.
Definition validConnection (id : option pb.ConnectionIdentity) : bool :=
  match id with
  | None => false
  | Some id =>
    validUser (pb.UserId id) && validInstance (pb.InstanceId id) && validUUID (pb.ConnectionId id)
    && negb (128 <? len (pb.RouteToken id))
    && match base64_raw_url_decode (pb.RouteToken id) with
       | Some raw => (16 <=? len raw) && bool_decide (base64_raw_url_encode raw = pb.RouteToken id)
       | None => false
       end
  end.
Definition address_chars : string := "/@?#" +:+ of_bytes [13; 10; 9; 32].
Definition validAddress (address : string) : bool :=
  negb ((512 <? len address) || contains_any address address_chars)
  && match split_host_port address with
     | None => false
     | Some (host, port) =>
       bool_decide (host ≠ "")
       && match atoi port with
          | Some n => (0 <? n) && (n <=? 65535) && bool_decide (format_int n = port)
          | None => false
          end
     end.

Definition blank : record := MkRecord "" "" "" "" "" "" false 0 0 [].
Definition connectionRecord (id : pb.ConnectionIdentity) : record :=
  MkRecord (pb.UserId id) (pb.InstanceId id) "" (pb.ConnectionId id) (pb.RouteToken id) "" false 0 0 [].
Definition cometRecord (id : pb.CometIdentity) (address : string) (draining : bool) : record :=
  MkRecord "" (pb.CometInstanceId id) (pb.BootId id) "" "" address draining 0 0 [].

Definition unix_milli (ns : Z) : Z := ns / millisecond.
Definition from_milli (ms : Z) : Timestamp := timestamp_of_ns (ms * millisecond).
Definition cometLease (r : record) : pb.CometLease :=
  pb.MkCometLease (Some (pb.MkCometIdentity (Instance_ r) (Boot r))) (Address r) (Draining r)
    (Some (from_milli (Deadline r))).
Definition record_identity (r : record) : pb.ConnectionIdentity :=
  pb.MkConnectionIdentity (User r) (Instance_ r) (Connection r) (Token r).
Definition routeLease (r : record) : pb.RouteLease :=
  pb.MkRouteLease (Some (record_identity r)) (Some (from_milli (Auth r))) (Some (from_milli (Deadline r))).

(** How far a script got: it did not run, it ran and was answered, or its answer was lost. *)
Inductive fate : Type :=
| NotRun (e : option context_error) | Answered | Lost (e : option context_error).

Context (s : Store).

Definition run_script (now : Z) (op : string) (p : record) (keys : list string) (d : db) : option (reply * db) :=
  Lua.script (instances s) (routes s) (instanceTTL s) (routeTTL s) now op p keys d.

Definition script_error (code : string) : store_error :=
  if bool_decide (code = "conflict") then ErrConflict
  else if bool_decide (code = "not_registered") then ErrNotRegistered
  else if bool_decide (code = "superseded") then ErrSuperseded
  else if bool_decide (code = "expired") then ErrLeaseExpired
  else if bool_decide (code = "draining") then ErrDraining
  else if bool_decide (code = "invalid") then ErrInvalid
  else ErrDependency None.
Definition run (f : fate) (now : Z) (op : string) (p : record) (keys : list string) (d : db)
  : result store_error reply * db :=
  match f with
  | NotRun e => (Err (ErrDependency e), d)
  | Answered =>
    match run_script now op p keys d with
    | None => (Err (ErrDependency None), d)
    | Some (r, d') => (if bool_decide (Err_ r = "") then Ok r else Err (script_error (Err_ r)), d')
    end
  | Lost e =>
    (Err (ErrDependency e), match run_script now op p keys d with Some (_, d') => d' | None => d end)
  end.

(** What a method makes of the reply. *)
Definition answer {A} (g : reply → result store_error A) (out : result store_error reply * db)
  : result store_error A * db :=
  let '(r, d) := out in (r ≫= g, d).

Definition Register (f : fate) (now : Z) (id : option pb.CometIdentity) (address : string) (d : db)
  : result store_error (option pb.CometLease) * db :=
  match id with
  | Some c =>
    if validComet id && validAddress address
    then answer (λ r, Ok (cometLease <$> rep_instance r))
           (run f now "register" (cometRecord c address false) [instances s +:+ pb.CometInstanceId c] d)
    else (Err ErrInvalid, d)
  | None => (Err ErrInvalid, d)
  end.
Definition Renew (f : fate) (now : Z) (id : option pb.CometIdentity) (draining : bool) (d : db)
  : result store_error (option pb.CometLease) * db :=
  match id with
  | Some c =>
    if validComet id
    then answer (λ r, Ok (cometLease <$> rep_instance r))
           (run f now "renew" (cometRecord c "" draining) [instances s +:+ pb.CometInstanceId c] d)
    else (Err ErrInvalid, d)
  | None => (Err ErrInvalid, d)
  end.
Definition Unregister (f : fate) (now : Z) (id : option pb.CometIdentity) (d : db) : result store_error Z * db :=
  match id with
  | Some c =>
    if validComet id
    then answer (λ r, Ok (outcome r))
           (run f now "unregister" (cometRecord c "" false) [instances s +:+ pb.CometInstanceId c] d)
    else (Err ErrInvalid, d)
  | None => (Err ErrInvalid, d)
  end.
(** [auth] is the instant [authExpires]. *)
Definition connect_record (c : pb.CometIdentity) (user connectionID token : string) (auth : Z) : record :=
  MkRecord user (pb.CometInstanceId c) (pb.BootId c) connectionID token "" false (unix_milli auth) 0 [].
Definition Connect (f : fate) (now : Z) (id : option pb.CometIdentity) (user connectionID token : string)
    (auth : Z) (d : db) : result store_error (option pb.RouteLease * option pb.RouteLease) * db :=
  match id with
  | Some c =>
    if validComet id && validConnection (Some (pb.MkConnectionIdentity user (pb.CometInstanceId c) connectionID token))
       && negb (auth =? zero_ns) && timestamp_check_valid (timestamp_of_ns auth)
    then answer (λ r, Ok (routeLease <$> rep_route r, routeLease <$> previous r))
           (run f now "connect" (connect_record c user connectionID token auth)
              [routes s +:+ user; instances s +:+ pb.CometInstanceId c] d)
    else (Err ErrInvalid, d)
  | None => (Err ErrInvalid, d)
  end.
Definition route (f : fate) (now : Z) (op : string) (id : option pb.ConnectionIdentity) (d : db)
  : result store_error (option pb.RouteLease) * db :=
  match id with
  | Some c =>
    if validConnection id
    then answer (λ r, Ok (routeLease <$> rep_route r))
           (run f now op (connectionRecord c) [routes s +:+ pb.UserId c] d)
    else (Err ErrInvalid, d)
  | None => (Err ErrInvalid, d)
  end.
Definition Heartbeat (f : fate) (now : Z) : option pb.ConnectionIdentity → db → result store_error (option pb.RouteLease) * db :=
  route f now "heartbeat".
Definition Check_ (f : fate) (now : Z) : option pb.ConnectionIdentity → db → result store_error (option pb.RouteLease) * db :=
  route f now "check".
Definition Disconnect (f : fate) (now : Z) (id : option pb.ConnectionIdentity) (d : db) : result store_error Z * db :=
  match id with
  | Some c =>
    if validConnection id
    then answer (λ r, Ok (outcome r)) (run f now "disconnect" (connectionRecord c) [routes s +:+ pb.UserId c] d)
    else (Err ErrInvalid, d)
  | None => (Err ErrInvalid, d)
  end.

Definition validBatch (ids : list string) (valid : string → bool) : bool :=
  negb ((slen ids <? 1) || (100 <? slen ids)) && forallb valid ids && bool_decide (NoDup ids).
Definition id_record (ids : list string) : record := MkRecord "" "" "" "" "" "" false 0 0 ids.
Definition route_result (i : item) : result store_error pb.RouteLookupResult :=
  match item_route i with
  | Some r => Ok (pb.MkRouteLookupResult (item_id i) (pb.StateRoute (Some (routeLease r))))
  | None => if in_range 1 3 (item_reason i)
            then Ok (pb.MkRouteLookupResult (item_id i) (pb.StateOffline (item_reason i)))
            else Err (ErrDependency None)
  end.
Definition comet_result (i : item) : result store_error pb.CometResolution :=
  match item_instance i with
  | Some r => Ok (pb.MkCometResolution (item_id i) (pb.StateLease (Some (cometLease r))))
  | None => if in_range 1 2 (item_reason i)
            then Ok (pb.MkCometResolution (item_id i) (pb.StateMissing (item_reason i)))
            else Err (ErrDependency None)
  end.
Fixpoint each_result {A} (g : item → result store_error A) (l : list item) : result store_error (list A) :=
  match l with [] => Ok [] | i :: l' => a ← g i; r ← each_result g l'; Ok (a :: r) end.
Definition batch_answer {A} (n : Z) (g : item → result store_error A) (r : reply) : result store_error (list A) :=
  if slen (results r) =? n then each_result g (results r) else Err (ErrDependency None).
Definition Lookup (f : fate) (now : Z) (ids : list string) (d : db) : result store_error (list pb.RouteLookupResult) * db :=
  if validBatch ids validUser
  then answer (batch_answer (slen ids) route_result)
         (run f now "lookup" (id_record ids) (map (String.append (routes s)) ids) d)
  else (Err ErrInvalid, d).
Definition Resolve (f : fate) (now : Z) (ids : list string) (d : db) : result store_error (list pb.CometResolution) * db :=
  if validBatch ids validInstance
  then answer (batch_answer (slen ids) comet_result)
         (run f now "resolve" (id_record ids) (map (String.append (instances s)) ids) d)
  else (Err ErrInvalid, d).
End Store.

(** A key whose deadline has passed may disappear. *)
Inductive expires (now : Z) : db → db → Prop :=
| expires_key d key v : d !! key = Some v → Deadline v ≤ now → expires now d (delete key d).
