(* ===== verification/RoutingStoreProofs.v ===== *)
(** * The lease table: fences, deadlines and readable records *)
From S2P Require Import Prelude GoStd GoTime GoText External Dto Samples RoutingStore.
Local Open Scope Z_scope.

(** ** What the Go side validates, the script can read back *)

Section Agreement.
Context `{External, !ExternalLaws _}.

Lemma instance_readable i : validInstance i = true → Lua.instanceid i = true.
Proof.
  unfold validInstance, Lua.instanceid. rewrite andb_true_iff. intros [[H1 H2]%negb_true_iff%orb_false_iff Hr].
  assert (runes i = bytes i) as Heq.
  { eapply runes_ascii; [|exact Hr]. unfold instance_rune, in_range. intros r.
    rewrite !orb_true_iff, !andb_true_iff, !Z.leb_le, Z.eqb_eq. lia. }
  rewrite Heq in Hr. apply Z.ltb_ge in H1, H2. rewrite !andb_true_iff, !Z.leb_le. split_and!; [lia|lia|].
  exact Hr.
Qed.

Lemma hex_digit_lua b : match hex_digit b with Some _ => true | None => false end = true →
  Lua.xdigit b = true ∧ (b =? 45) = false.
Proof.
  unfold hex_digit, Lua.xdigit, in_range. intros Hh. split.
  - destruct (_ && _); [done|]. destruct (_ && _); [done|]. by destruct (_ && _).
  - apply Z.eqb_neq. intros ->. done.
Qed.

Definition hyphen (i : nat) : bool := existsb (Nat.eqb i) [8; 13; 18; 23]%nat.
Lemma hyphen_spec i : hyphen i = bool_decide (i ∈ [8; 13; 18; 23]%nat).
Proof.
  apply eq_true_iff_eq. unfold hyphen. rewrite existsb_exists, bool_decide_eq_true.
  setoid_rewrite <-list_elem_of_In. setoid_rewrite Nat.eqb_eq. naive_solver.
Qed.
Lemma canonical_byte i b : canonical_uuid_byte i b = true →
  if hyphen i then b = 45 else Lua.xdigit b = true ∧ (b =? 45) = false.
Proof.
  unfold canonical_uuid_byte. rewrite <-hyphen_spec. destruct (hyphen i); [by intros ?%Z.eqb_eq|].
  apply hex_digit_lua.
Qed.

(** A list with the hyphens of a UUID keeps the other bytes when they are dropped. *)
Lemma filter_hyphens o (l : list Z) :
  (∀ i b, l !! i = Some b → if hyphen (o + i) then b = 45 else Lua.xdigit b = true ∧ (b =? 45) = false) →
  length (List.filter (λ b, negb (b =? 45)) l) = length (List.filter (λ i, negb (hyphen i)) (seq o (length l))).
Proof.
  revert o. induction l as [|b l IH]; intros o Hb; [done|]. cbn [List.filter length seq].
  pose proof (Hb 0%nat b eq_refl) as H0. rewrite Nat.add_0_r in H0.
  assert (length (List.filter (λ b, negb (b =? 45)) l)
          = length (List.filter (λ i, negb (hyphen i)) (seq (S o) (length l)))) as IHl.
  { apply IH. intros i b' Hi. specialize (Hb (S i) b' Hi). by rewrite Nat.add_succ_r in Hb. }
  destruct (hyphen o); cbn [negb].
  - by rewrite H0.
  - destruct H0 as [_ ->]. cbn [negb length]. by rewrite IHl.
Qed.

Lemma uuid_readable u : validUUID u = true → Lua.uuid u = true.
Proof.
  unfold validUUID, Lua.uuid. rewrite !andb_true_iff. intros [[Hl Hn] Hu].
  apply Z.eqb_eq in Hl as Hl'. rewrite (uuid_validate_canonical u Hl') in Hu.
  rewrite len_bytes in Hl'. unfold canonical_uuid in Hu.
  assert (length (bytes u) = 36%nat) as Hlen by (unfold slen in Hl'; lia). clear Hl'.
  split; [split; [by split|]|]; revert Hlen Hu; generalize (bytes u); intros l Hlen Hc.
  all: rewrite forallb_Forall, Forall_lookup in Hc; setoid_rewrite list_lookup_imap in Hc.
  all: assert (∀ i b, l !! i = Some b → if hyphen i then b = 45 else Lua.xdigit b = true ∧ (b =? 45) = false) as Hb
    by (intros i b Hi; apply canonical_byte, (Hc i); by rewrite Hi).
  - assert (∀ i, hyphen i = true → (i < 36)%nat → l !! i = Some 45) as Hat.
    { intros i Hh Hi. destruct (lookup_lt_is_Some_2 l i) as [b Hib]; [lia|].
      specialize (Hb i b Hib). rewrite Hh in Hb. congruence. }
    cbn [forallb]. by rewrite !Hat, !bool_decide_true by (done || lia).
  - split.
    + unfold slen. rewrite (filter_hyphens 0) by exact Hb. by rewrite Hlen.
    + rewrite forallb_Forall, Forall_forall. intros b Hin.
      apply list_elem_of_In, filter_In in Hin as [Hin%list_elem_of_In Hne].
      apply list_elem_of_lookup_1 in Hin as [i Hi]. specialize (Hb i b Hi).
      destruct (hyphen i); [by subst b|by destruct Hb].
Qed.

Lemma token_readable c : validConnection (Some c) = true → Lua.token (pb.RouteToken c) = true.
Proof.
  unfold validConnection. rewrite !andb_true_iff. intros [[_ Hlen] Ht]. unfold Lua.token.
  destruct (base64_raw_url_decode _) as [raw|]; [|done].
  apply andb_true_iff in Ht as [Hraw Hcanon]. apply bool_decide_eq_true in Hcanon. rewrite <-Hcanon in *. clear Hcanon.
  apply Z.leb_le in Hraw. apply negb_true_iff in Hlen. rewrite Hlen, orb_false_r. apply Z.ltb_ge in Hlen.
  rewrite len_bytes in *. rewrite encode_bytes in *.
  pose proof (bytes_range raw) as Hb. set (l := bytes raw) in *.
  destruct (raw_encode_spec _ l (le_n _) Hb) as [Hall Hsize].
  destruct (raw_encode_last _ l (le_n _) Hb) as [H1 H2].
  unfold slen in Hlen |- *. rewrite length_map in *. fold (slen (raw_encode l)) in *.
  rewrite !andb_true_iff. split_and!.
  - apply negb_true_iff, Z.ltb_ge. rewrite Hsize. Z.to_euclidean_division_equations. lia.
  - rewrite forallb_forall. intros b (v&<-&Hv)%in_map_iff. rewrite Forall_forall in Hall.
    specialize (Hall v). rewrite list_elem_of_In in Hall. specialize (Hall Hv). clear -Hall.
    unfold char_url, Lua.token_byte, in_range. repeat case_match; rewrite ?Z.ltb_lt, ?Z.ltb_ge, ?Z.eqb_eq, ?Z.eqb_neq in *;
      rewrite ?orb_true_iff, ?andb_true_iff, ?Z.leb_le, ?Z.eqb_eq; lia.
  - rewrite Hsize. assert (last (map char_url (raw_encode l)) = char_url <$> last (raw_encode l)) as ->
      by apply fmap_last.
    assert (slen l mod 3 = 0 ∨ slen l mod 3 = 1 ∨ slen l mod 3 = 2) as [Hm|[Hm|Hm]]
      by (Z.to_euclidean_division_equations; lia).
    + assert (((slen l * 4 + 2) / 3) mod 4 = 0) as -> by (Z.to_euclidean_division_equations; lia). done.
    + assert (((slen l * 4 + 2) / 3) mod 4 = 2) as -> by (Z.to_euclidean_division_equations; lia). cbn [Z.eqb Pos.eqb].
      destruct (H1 Hm) as (k&Hk&->). assert (k = 0 ∨ k = 1 ∨ k = 2 ∨ k = 3) as Hcase by lia.
      by destruct_or! Hcase; subst k.
    + assert (((slen l * 4 + 2) / 3) mod 4 = 3) as -> by (Z.to_euclidean_division_equations; lia). cbn [Z.eqb Pos.eqb].
      destruct (H2 Hm) as (k&Hk&->).
      assert (∃ n, (n < 16)%nat ∧ k = Z.of_nat n) as (n&Hn&->) by (exists (Z.to_nat k); lia).
      do 16 (destruct n as [|n]; [done|]). lia.
Qed.
End Agreement.

(** ** Keys *)

Lemma string_app_inj (p a b : string) : p +:+ a = p +:+ b → a = b.
Proof. induction p as [|c p IH]; [done|]. intros Heq. apply IH. by injection Heq. Qed.
Lemma cut_prefix_none p q r a b : q ≠ r → cut_prefix (p +:+ String q a) (p +:+ String r b) = None.
Proof.
  intros Hne. induction p as [|c p IH]; cbn [cut_prefix].
  - change (cut_prefix (String q a) (String r b) = None). cbn [cut_prefix]. by rewrite bool_decide_false.
  - change (cut_prefix (String c (p +:+ String q a)) (String c (p +:+ String r b)) = None).
    cbn [cut_prefix]. by rewrite bool_decide_true.
Qed.

(** What [New] makes of its arguments. *)
Record shaped (s : Store) : Prop := Shaped {
  shaped_instance i : has_prefix (instances s +:+ i) (instances s) = true;
  shaped_route u : has_prefix (routes s +:+ u) (instances s) = false;
  shaped_ittl : 0 < instanceTTL s;
  shaped_rttl : 0 < routeTTL s
}.
Lemma ttl_positive d : 0 ≤ d → 0 < ttl d.
Proof.
  unfold ttl, minute, second, millisecond. intros Hd.
  destruct (Z.eqb_spec d 0); [reflexivity|]. Z.to_euclidean_division_equations. lia.
Qed.
Lemma New_shaped client prefix it rt s : New client prefix it rt = Ok s → shaped s.
Proof.
  unfold New. destruct (_ || _) eqn:Hok; [done|]. intros [= <-].
  rewrite !orb_false_iff, !Z.ltb_ge in Hok. destruct Hok as ((((_&?)&?)&_)&_).
  constructor; cbn.
  - intros i. unfold has_prefix. by rewrite cut_prefix_app.
  - intros u. unfold has_prefix.
    rewrite <-(string_app_assoc (prefix +:+ "{logic-routing}:") "route:" u).
    change ("instance:") with (String "i" "nstance:"). change ("route:" +:+ u) with (String "r" ("oute:" +:+ u)).
    by rewrite cut_prefix_none.
  - by apply ttl_positive.
  - by apply ttl_positive.
Qed.
Lemma keys_differ s i u : shaped s → instances s +:+ i ≠ routes s +:+ u.
Proof.
  intros Hs Heq. pose proof (shaped_instance s Hs i) as Hi. rewrite Heq in Hi.
  by rewrite (shaped_route s Hs u) in Hi.
Qed.

Section Table.
Context `{External, !ExternalLaws _} (s : Store) (Hs : shaped s).

(** ** Calls and steps *)

(** A call of a method with its arguments. *)
Inductive call : Type :=
| CRegister (id : option pb.CometIdentity) (address : string)
| CRenew (id : option pb.CometIdentity) (draining : bool)
| CUnregister (id : option pb.CometIdentity)
| CConnect (id : option pb.CometIdentity) (user connectionID token : string) (auth : Z)
| CHeartbeat (id : option pb.ConnectionIdentity)
| CCheck (id : option pb.ConnectionIdentity)
| CDisconnect (id : option pb.ConnectionIdentity)
| CLookup (ids : list string)
| CResolve (ids : list string).
Definition effect (f : fate) (now : Z) (c : call) (d : db) : db :=
  match c with
  | CRegister id a => (Register s f now id a d).2
  | CRenew id b => (Renew s f now id b d).2
  | CUnregister id => (Unregister s f now id d).2
  | CConnect id u k t a => (Connect s f now id u k t a d).2
  | CHeartbeat id => (Heartbeat s f now id d).2
  | CCheck id => (Check_ s f now id d).2
  | CDisconnect id => (Disconnect s f now id d).2
  | CLookup ids => (Lookup s f now ids d).2
  | CResolve ids => (Resolve s f now ids d).2
  end.

(** The clock of Redis, so early that numbers survive the 14 digits of cjson. *)
Definition clock_ok (now : Z) : Prop :=
  0 < now ∧ now + instanceTTL s < 10 ^ 14 ∧ now + routeTTL s < 10 ^ 14.
Inductive reachable : db → Prop :=
| reach_empty : reachable ∅
| reach_call f now c d : reachable d → clock_ok now → reachable (effect f now c d)
| reach_expire now d d' : reachable d → expires now d d' → reachable d'.

Definition ikey (i : string) : string := instances s +:+ i.
Definition rkey (u : string) : string := routes s +:+ u.
Abbreviation stored := (Lua.stored_ok (instances s) (routes s)).
Definition db_ok (d : db) : Prop := ∀ key v, d !! key = Some v → stored key v = true.

Lemma read_ok d key : db_ok d → Lua.read (instances s) (routes s) d key = Some (d !! key).
Proof. intros Hd. unfold Lua.read. destruct (d !! key) as [v|] eqn:Hk; [|done]. by rewrite (Hd _ _ Hk). Qed.
Lemma read_Some d key v : Lua.read (instances s) (routes s) d key = Some (Some v) → d !! key = Some v ∧ stored key v = true.
Proof. unfold Lua.read. destruct (d !! key) as [w|]; [|done]. destruct (Lua.stored_ok _ _ key w) eqn:?; naive_solver. Qed.
Lemma read_None d key : Lua.read (instances s) (routes s) d key = Some None → d !! key = None.
Proof. unfold Lua.read. destruct (d !! key); [|done]. by destruct (Lua.stored_ok _ _ _ _). Qed.

(** What a call can do to the table at the instant [now]: the records it writes, and why. *)
Inductive change (now : Z) (d : db) : call → db → Prop :=
| ch_none c : change now d c d
| ch_register id address b :
    validComet (Some id) = true → validAddress address = true →
    (∀ o, d !! ikey (pb.CometInstanceId id) = Some o → now < Deadline o →
       Boot o = pb.BootId id ∧ Address o = address ∧ b = Draining o) →
    change now d (CRegister (Some id) address)
      (<[ikey (pb.CometInstanceId id) := set_deadline (now + instanceTTL s) (cometRecord id address b)]> d)
| ch_renew id b o :
    d !! ikey (pb.CometInstanceId id) = Some o → now < Deadline o → Boot o = pb.BootId id →
    stored (ikey (pb.CometInstanceId id)) o = true →
    change now d (CRenew (Some id) b)
      (<[ikey (pb.CometInstanceId id) := set_deadline (now + instanceTTL s) (set_draining (Draining o || b) o)]> d)
| ch_unregister id o :
    d !! ikey (pb.CometInstanceId id) = Some o → now < Deadline o → Boot o = pb.BootId id →
    change now d (CUnregister (Some id)) (delete (ikey (pb.CometInstanceId id)) d)
| ch_connect id user k t auth i :
    validComet (Some id) = true →
    validConnection (Some (pb.MkConnectionIdentity user (pb.CometInstanceId id) k t)) = true →
    timestamp_check_valid (timestamp_of_ns auth) = true → 5000 < unix_milli auth - now →
    d !! ikey (pb.CometInstanceId id) = Some i → now < Deadline i → Boot i = pb.BootId id → Draining i = false →
    change now d (CConnect (Some id) user k t auth)
      (<[rkey user := set_deadline (Z.min (now + routeTTL s) (unix_milli auth)) (connect_record id user k t auth)]> d)
| ch_heartbeat id o i :
    d !! rkey (pb.UserId id) = Some o → record_identity o = id → now < Deadline o → now < Auth o →
    d !! ikey (Instance_ o) = Some i → now < Deadline i → Boot i = Boot o →
    stored (rkey (pb.UserId id)) o = true →
    change now d (CHeartbeat (Some id))
      (<[rkey (pb.UserId id) := set_deadline (Z.min (now + routeTTL s) (Auth o)) o]> d)
| ch_disconnect id o :
    d !! rkey (pb.UserId id) = Some o → record_identity o = id → now < Deadline o →
    change now d (CDisconnect (Some id)) (delete (rkey (pb.UserId id)) d).
#[local] Hint Constructors change : core.

Lemma run_change f now op p keys d c :
  (∀ r d', run_script s now op p keys d = Some (r, d') → change now d c d') →
  change now d c (run s f now op p keys d).2.
Proof.
  intros Hc. unfold run. destruct f; [done| |]; destruct (run_script s now op p keys d) as [[r d']|] eqn:Hr;
    eauto; by destruct (bool_decide _).
Qed.
Lemma answer_db {A} (g : reply → result store_error A) out : (answer g out).2 = out.2.
Proof. by destruct out. Qed.
Lemma answer_change {A} (g : reply → result store_error A) f now op p keys d c :
  (∀ r d', run_script s now op p keys d = Some (r, d') → change now d c d') →
  change now d c (answer g (run s f now op p keys d)).2.
Proof. intros Hc. rewrite answer_db. by apply run_change. Qed.
Lemma same_identity o id : Lua.same o (connectionRecord id) = true ↔ record_identity o = id.
Proof.
  unfold Lua.same, record_identity. rewrite !andb_true_iff, !bool_decide_eq_true. destruct id; cbn.
  split; [intros [[[-> ->] ->] ->]; done|by intros [= -> -> -> ->]].
Qed.
Lemma live_boot i now boot : Lua.is_live_boot now i boot = true ↔ ∃ v, i = Some v ∧ now < Deadline v ∧ Boot v = boot.
Proof.
  unfold Lua.is_live_boot. destruct i as [v|]; [|naive_solver].
  rewrite andb_true_iff, Z.ltb_lt, bool_decide_eq_true. naive_solver.
Qed.

Ltac unchanged := cbn [orb negb] in *; simplify_eq; apply ch_none.

Lemma register_change now id address d r d' :
  validComet (Some id) = true → validAddress address = true →
  run_script s now "register" (cometRecord id address false) [ikey (pb.CometInstanceId id)] d = Some (r, d') →
  change now d (CRegister (Some id) address) d'.
Proof.
  intros Hid Ha Hr. change (Lua.register (instances s) (routes s) (instanceTTL s) now (ikey (pb.CometInstanceId id))
    (cometRecord id address false) d = Some (r, d')) in Hr.
  unfold Lua.register in Hr. apply bind_Some in Hr as ([o|]&Hread&Hr).
  - apply read_Some in Hread as [Hk _]. destruct (Z.ltb_spec now (Deadline o)).
    + destruct (bool_decide_reflect (Boot o ≠ Boot (cometRecord id address false))) as [|Hb]; [unchanged|].
      destruct (bool_decide_reflect (Address o ≠ Address (cometRecord id address false))) as [|Hadr]; [unchanged|].
      cbn [orb] in Hr. simplify_eq. apply (ch_register now d id address (Draining o)); [done..|].
      intros o' Ho' _. simplify_eq. cbn in *. split_and!; [by apply dec_stable|by apply dec_stable|done].
    + simplify_eq. apply (ch_register now d id address false); [done..|]. intros o' Ho' Hl. simplify_eq. lia.
  - apply read_None in Hread. simplify_eq. apply (ch_register now d id address false); [done..|]. congruence.
Qed.
Lemma renew_change now id b d r d' :
  run_script s now "renew" (cometRecord id "" b) [ikey (pb.CometInstanceId id)] d = Some (r, d') →
  change now d (CRenew (Some id) b) d'.
Proof.
  intros Hr. change (Lua.renew (instances s) (routes s) (instanceTTL s) now (ikey (pb.CometInstanceId id))
    (cometRecord id "" b) d = Some (r, d')) in Hr.
  unfold Lua.renew in Hr. apply bind_Some in Hr as ([o|]&Hread&Hr); [|unchanged].
  apply read_Some in Hread as [Hk Hok]. destruct (Lua.is_live_boot _ _ _) eqn:Hl; [|unchanged].
  apply live_boot in Hl as (v&[= <-]&Hlive&Hboot). simplify_eq. by eapply ch_renew.
Qed.
Lemma unregister_change now id d r d' :
  run_script s now "unregister" (cometRecord id "" false) [ikey (pb.CometInstanceId id)] d = Some (r, d') →
  change now d (CUnregister (Some id)) d'.
Proof.
  intros Hr. change (Lua.unregister (instances s) (routes s) now (ikey (pb.CometInstanceId id))
    (cometRecord id "" false) d = Some (r, d')) in Hr.
  unfold Lua.unregister in Hr. apply bind_Some in Hr as ([o|]&Hread&Hr); [|unchanged].
  apply read_Some in Hread as [Hk Hok]. destruct (Z.ltb_spec now (Deadline o)); [|unchanged].
  cbn [negb] in Hr. case_bool_decide as Hb; [unchanged|]. simplify_eq. eapply ch_unregister; [done|done|].
  cbn in Hb. destruct (decide (Boot o = pb.BootId id)); naive_solver.
Qed.
Lemma connect_change now id user k t auth d r d' :
  validComet (Some id) = true →
  validConnection (Some (pb.MkConnectionIdentity user (pb.CometInstanceId id) k t)) = true →
  timestamp_check_valid (timestamp_of_ns auth) = true →
  run_script s now "connect" (connect_record id user k t auth) [rkey user; ikey (pb.CometInstanceId id)] d = Some (r, d') →
  change now d (CConnect (Some id) user k t auth) d'.
Proof.
  intros Hid Hc Ha Hr. change (Lua.connect (instances s) (routes s) (routeTTL s) now (rkey user)
    (ikey (pb.CometInstanceId id)) (connect_record id user k t auth) d = Some (r, d')) in Hr.
  unfold Lua.connect in Hr. apply bind_Some in Hr as (i&Hread&Hr).
  destruct (Lua.is_live_boot _ _ _) eqn:Hl; [|unchanged].
  apply live_boot in Hl as (v&->&Hlive&Hboot). apply read_Some in Hread as [Hk _]. cbn [negb] in Hr.
  destruct (Draining v) eqn:Hdr; [unchanged|]. destruct (_ =? 0); [done|].
  destruct (Z.leb_spec (Auth (connect_record id user k t auth) - now) 5000) as [?|Hauth]; [unchanged|].
  apply bind_Some in Hr as (old&_&Hr). simplify_eq. by eapply ch_connect.
Qed.
Lemma check_change now (hb : bool) id d r d' :
  run_script s now (if hb then "heartbeat" else "check") (connectionRecord id) [rkey (pb.UserId id)] d = Some (r, d') →
  change now d (if hb then CHeartbeat (Some id) else CCheck (Some id)) d'.
Proof.
  intros Hr. assert (Lua.check (instances s) (routes s) (routeTTL s) now hb (rkey (pb.UserId id))
    (connectionRecord id) d = Some (r, d')) as Hr' by by destruct hb. clear Hr.
  unfold Lua.check in Hr'. apply bind_Some in Hr' as ([o|]&Hread&Hr); [|unchanged].
  apply read_Some in Hread as [Hk Hok]. destruct (Lua.same o _) eqn:Hsame; cbn [negb] in Hr; [|unchanged].
  apply same_identity in Hsame. destruct (Z.ltb_spec now (Deadline o)); cbn [negb orb] in Hr; [|unchanged].
  destruct (Z.leb_spec (Auth o) now); [unchanged|].
  apply bind_Some in Hr as (ok&Hv&Hr). unfold Lua.validinstance, Lua.instance in Hv.
  apply bind_Some in Hv as (i&Hi&[= <-]). destruct (Lua.is_live_boot _ _ _) eqn:Hl; cbn [negb] in Hr; [|unchanged].
  apply live_boot in Hl as (v&->&Hlive&Hboot). apply read_Some in Hi as [Hik _].
  destruct hb; [|unchanged]. simplify_eq. by eapply ch_heartbeat.
Qed.
Lemma disconnect_change now id d r d' :
  run_script s now "disconnect" (connectionRecord id) [rkey (pb.UserId id)] d = Some (r, d') →
  change now d (CDisconnect (Some id)) d'.
Proof.
  intros Hr. change (Lua.disconnect (instances s) (routes s) now (rkey (pb.UserId id))
    (connectionRecord id) d = Some (r, d')) in Hr.
  unfold Lua.disconnect in Hr. apply bind_Some in Hr as ([o|]&Hread&Hr); [|unchanged].
  apply read_Some in Hread as [Hk Hok]. destruct (Z.ltb_spec now (Deadline o)); [|unchanged].
  cbn [negb] in Hr. destruct (Lua.same o _) eqn:Hsame; cbn [negb] in Hr; [|unchanged]. simplify_eq.
  eapply ch_disconnect; [done| |done]. by apply same_identity.
Qed.
Lemma batch_same op now keys p d r d' :
  (op = "lookup" ∨ op = "resolve") → run_script s now op p keys d = Some (r, d') → d' = d.
Proof.
  intros Hop Hr. destruct keys as [|key keys]; [by injection Hr as _ <-|].
  assert (∃ one, Lua.batch one (key :: keys) p d = Some (r, d')) as [one Hb]
    by (destruct Hop as [-> | ->]; [exists (Lua.lookup_one (instances s) (routes s) now)|exists (Lua.resolve_one (instances s) (routes s) now)]; exact Hr).
  unfold Lua.batch in Hb. apply bind_Some in Hb as (l&_&Heq). by injection Heq.
Qed.

Lemma effect_change f now c d : change now d c (effect f now c d).
Proof.
  destruct c as [id a|id b|id|id u k t a|id|id|id|ids|ids]; cbn [effect].
  - unfold Register. destruct id as [id|]; [|apply ch_none]. destruct (_ && _) eqn:Hv; [|apply ch_none].
    apply andb_true_iff in Hv as [? ?]. apply answer_change. intros r d'. by apply register_change.
  - unfold Renew. destruct id as [id|]; [|apply ch_none]. destruct (validComet _); [|apply ch_none].
    apply answer_change. intros r d'. apply renew_change.
  - unfold Unregister. destruct id as [id|]; [|apply ch_none]. destruct (validComet _); [|apply ch_none].
    apply answer_change. intros r d'. apply unregister_change.
  - unfold Connect. destruct id as [id|]; [|apply ch_none]. destruct (_ && _) eqn:Hv; [|apply ch_none].
    rewrite !andb_true_iff in Hv. destruct Hv as (((?&?)&_)&?). apply answer_change.
    intros r d'. by apply connect_change.
  - unfold Heartbeat, route. destruct id as [id|]; [|apply ch_none]. destruct (validConnection _); [|apply ch_none].
    apply answer_change. intros r d'. apply (check_change now true).
  - unfold Check_, route. destruct id as [id|]; [|apply ch_none]. destruct (validConnection _); [|apply ch_none].
    apply answer_change. intros r d'. apply (check_change now false).
  - unfold Disconnect. destruct id as [id|]; [|apply ch_none]. destruct (validConnection _); [|apply ch_none].
    apply answer_change. intros r d'. apply disconnect_change.
  - unfold Lookup. destruct (validBatch _ _); [|apply ch_none]. apply answer_change. intros r d' Hr.
    rewrite (batch_same _ _ _ _ _ _ _ (or_introl eq_refl) Hr). apply ch_none.
  - unfold Resolve. destruct (validBatch _ _); [|apply ch_none]. apply answer_change. intros r d' Hr.
    rewrite (batch_same _ _ _ _ _ _ _ (or_intror eq_refl) Hr). apply ch_none.
Qed.

(** ** Every stored lease can be read back *)

Lemma stored_ikey i v : stored (ikey i) v = true ↔
  (Instance_ v = i ∧ Lua.instanceid i = true ∧ Lua.uuid (Boot v) = true)
  ∧ Lua.timestamp (Deadline v) = true ∧ Address v ≠ "".
Proof.
  unfold Lua.stored_ok, ikey. rewrite (shaped_instance s Hs), !andb_true_iff, bool_decide_eq_true, negb_true_iff, Z.eqb_neq.
  assert (instances s +:+ i = instances s +:+ Instance_ v ↔ Instance_ v = i) as ->
    by (split; [by intros ?%string_app_inj|by intros ->]).
  assert (len (Address v) ≠ 0 ↔ Address v ≠ "") as -> by (unfold len; destruct (Address v); cbn; naive_solver lia).
  naive_solver.
Qed.
Definition readable_user (u : string) : bool := (len u =? 37) && head_is u "U" && Lua.uuid (tail u).
Lemma stored_rkey u v : stored (rkey u) v = true ↔
  (User v = u ∧ Lua.instanceid (Instance_ v) = true ∧ Lua.uuid (Boot v) = true ∧ readable_user u = true
   ∧ Lua.uuid (Connection v) = true ∧ Lua.token (Token v) = true)
  ∧ Lua.timestamp (Deadline v) = true ∧ Lua.timestamp (Auth v) = true ∧ Deadline v ≤ Auth v.
Proof.
  unfold Lua.stored_ok, rkey, readable_user.
  rewrite (shaped_route s Hs), !andb_true_iff, bool_decide_eq_true, Z.leb_le.
  assert (routes s +:+ u = routes s +:+ User v ↔ User v = u) as ->
    by (split; [by intros ?%string_app_inj|by intros ->]).
  naive_solver.
Qed.
Lemma timestamp_spec t : Lua.timestamp t = true ↔ 0 < t ≤ 253402300799999.
Proof. unfold Lua.timestamp. by rewrite andb_true_iff, Z.ltb_lt, Z.leb_le. Qed.

Lemma comet_readable id :
  validComet (Some id) = true → Lua.instanceid (pb.CometInstanceId id) = true ∧ Lua.uuid (pb.BootId id) = true.
Proof. cbn. intros [? ?]%andb_true_iff. split; [by apply instance_readable|by apply uuid_readable]. Qed.
Lemma connection_readable c :
  validConnection (Some c) = true →
  Lua.instanceid (pb.InstanceId c) = true ∧ readable_user (pb.UserId c) = true
  ∧ Lua.uuid (pb.ConnectionId c) = true ∧ Lua.token (pb.RouteToken c) = true.
Proof.
  intros Hc. pose proof (token_readable _ Hc). unfold validConnection, validUser, readable_user in *.
  rewrite !andb_true_iff in *. destruct Hc as ((((((?&?)&?)&?)&?)&_)&_).
  split_and!; try done; by (apply instance_readable || apply uuid_readable).
Qed.
Lemma address_nonempty a : validAddress a = true → a ≠ "".
Proof. by intros Ha ->. Qed.
Lemma auth_bound auth : timestamp_check_valid (timestamp_of_ns auth) = true → unix_milli auth ≤ 253402300799999.
Proof.
  intros Ha. apply timestamp_check_valid_range in Ha as [[_ Hb] Hn]. unfold timestamp_of_ns in *. cbn [Seconds Nanos] in *.
  unfold unix_milli, second, millisecond in *. Z.to_euclidean_division_equations. lia.
Qed.

Lemma db_ok_insert key v d : db_ok d → stored key v = true → db_ok (<[key := v]> d).
Proof. intros Hd Hv k w [[<- <-]|[_ Hk]]%lookup_insert_Some; [done|by apply Hd]. Qed.
Lemma db_ok_delete key d : db_ok d → db_ok (delete key d).
Proof. intros Hd k w [_ Hk]%lookup_delete_Some. by apply Hd. Qed.

Lemma change_ok now d c d' : clock_ok now → db_ok d → change now d c d' → db_ok d'.
Proof.
  intros (Hnow&Hi&Hr) Hd Hc. pose proof (shaped_ittl s Hs). pose proof (shaped_rttl s Hs).
  inversion Hc; subst; auto using db_ok_delete.
  - apply db_ok_insert; [done|]. apply stored_ikey. destruct (comet_readable _ H2).
    rewrite timestamp_spec. cbn. split_and!; try done; [lia|lia|by apply address_nonempty].
  - apply db_ok_insert; [done|]. apply stored_ikey in H5. apply stored_ikey. cbn in *.
    rewrite timestamp_spec in *. naive_solver lia.
  - apply db_ok_insert; [done|]. apply stored_rkey. destruct (comet_readable _ H2).
    destruct (connection_readable _ H3) as (?&?&?&?). pose proof (auth_bound _ H4). cbn in *.
    rewrite !timestamp_spec. split_and!; try done; lia.
  - apply db_ok_insert; [done|]. apply stored_rkey in H9. apply stored_rkey. cbn in *.
    rewrite !timestamp_spec in *. naive_solver lia.
Qed.

Lemma reachable_ok d : reachable d → db_ok d.
Proof.
  induction 1 as [|f now c d _ IH Hc|now d d' _ IH He]; [done| |].
  - eapply change_ok; [exact Hc|exact IH|apply effect_change].
  - destruct He. by apply db_ok_delete.
Qed.

(** no lease is ever written that the script refuses to read.  Whatever calls reach
    the store, answered or lost, and whatever expires, the validation of the Go side is
    strong enough for the checks of the script: every read of every key succeeds. *)
Theorem stored_leases_readable d :
  reachable d → ∀ key, Lua.read (instances s) (routes s) d key = Some (d !! key).
Proof. intros Hd key. by apply read_ok, reachable_ok. Qed.

(** ** Fences *)

Lemma ikey_inj i j : ikey i = ikey j → i = j.
Proof. apply string_app_inj. Qed.
Lemma rkey_inj u v : rkey u = rkey v → u = v.
Proof. apply string_app_inj. Qed.

(** a live instance is fenced by its boot.  No call takes its lease over with another
    boot or address, or makes it stop draining; a call that touches the lease renews it
    for the full lifetime; only an unregistration by that very boot removes it. *)
Theorem instance_fence f now c d i o :
  d !! ikey i = Some o → now < Deadline o →
  match effect f now c d !! ikey i with
  | Some o' => Boot o' = Boot o ∧ Address o' = Address o ∧ (Draining o = true → Draining o' = true)
               ∧ (o' = o ∨ Deadline o' = now + instanceTTL s)
  | None => ∃ id, c = CUnregister (Some id) ∧ pb.CometInstanceId id = i ∧ pb.BootId id = Boot o
  end.
Proof.
  intros Ho Hl. pose proof (effect_change f now c d) as Hc. revert Hc. generalize (effect f now c d). intros d' Hc.
  destruct Hc as [c|id address b Hid Ha Hfree|id b v Hv Hlv Hb Hst|id v Hv Hlv Hb|id user k t auth v Hid Hcon Hts Hau Hv Hlv Hb Hdr|id v w Hv Hid Hlv Hau Hw Hlw Hb Hst|id v Hv Hid Hlv].
  { rewrite Ho. naive_solver. }
  - destruct (decide (ikey i = ikey (pb.CometInstanceId id))) as [Heq|Hne].
    + rewrite <-Heq, lookup_insert_eq. rewrite <-Heq in Hfree. destruct (Hfree o Ho Hl) as (?&?&?). cbn. split_and!; [done|done|congruence|by right].
    + rewrite lookup_insert_ne, Ho by done. naive_solver.
  - destruct (decide (ikey i = ikey (pb.CometInstanceId id))) as [Heq|Hne].
    + rewrite <-Heq, lookup_insert_eq. rewrite <-Heq, Ho in Hv. simplify_eq. cbn.
      split_and!; [done|done|by intros ->|by right].
    + rewrite lookup_insert_ne, Ho by done. naive_solver.
  - destruct (decide (ikey i = ikey (pb.CometInstanceId id))) as [Heq|Hne].
    + rewrite <-Heq, lookup_delete_eq. rewrite <-Heq, Ho in Hv. simplify_eq. exists id.
      done.
    + rewrite lookup_delete_ne, Ho by done. naive_solver.
  - rewrite lookup_insert_ne, Ho by (symmetry; by apply keys_differ). naive_solver.
  - rewrite lookup_insert_ne, Ho by (symmetry; by apply keys_differ). naive_solver.
  - rewrite lookup_delete_ne, Ho by (symmetry; by apply keys_differ). naive_solver.
Qed.

(** C8: a live route belongs to one connection.  Its record changes only by a heartbeat
    of that very connection, which never outlives the authorisation, or by a new
    connection of the same user through a live instance that is not draining; only a
    disconnection of that very connection removes it. *)
Theorem route_fence f now c d u o :
  d !! rkey u = Some o → now < Deadline o →
  match effect f now c d !! rkey u with
  | Some o' =>
    o' = o
    ∨ (c = CHeartbeat (Some (record_identity o))
       ∧ o' = set_deadline (Z.min (now + routeTTL s) (Auth o)) o)
    ∨ (∃ id k t auth i, c = CConnect (Some id) u k t auth
       ∧ o' = set_deadline (Z.min (now + routeTTL s) (unix_milli auth)) (connect_record id u k t auth)
       ∧ d !! ikey (pb.CometInstanceId id) = Some i ∧ now < Deadline i ∧ Boot i = pb.BootId id ∧ Draining i = false)
  | None => c = CDisconnect (Some (record_identity o))
  end.
Proof.
  intros Ho Hl. pose proof (effect_change f now c d) as Hc. revert Hc. generalize (effect f now c d). intros d' Hc.
  destruct Hc as [c|id address b Hid Ha Hfree|id b v Hv Hlv Hb Hst|id v Hv Hlv Hb|id user k t auth v Hid Hcon Hts Hau Hv Hlv Hb Hdr|id v w Hv Hid Hlv Hau Hw Hlw Hb Hst|id v Hv Hid Hlv].
  { rewrite Ho. naive_solver. }
  - rewrite lookup_insert_ne, Ho by by apply keys_differ. by left.
  - rewrite lookup_insert_ne, Ho by by apply keys_differ. by left.
  - rewrite lookup_delete_ne, Ho by by apply keys_differ. by left.
  - destruct (decide (rkey u = rkey user)) as [Heq|Hne].
    + apply rkey_inj in Heq as ->. rewrite lookup_insert_eq. right. right. by exists id, k, t, auth, v.
    + rewrite lookup_insert_ne, Ho by done. by left.
  - destruct (decide (rkey u = rkey (pb.UserId id))) as [Heq|Hne].
    + apply rkey_inj in Heq as ->. rewrite Hv in Ho. injection Ho as ->. rewrite lookup_insert_eq, Hid. right. by left.
    + rewrite lookup_insert_ne, Ho by done. by left.
  - destruct (decide (rkey u = rkey (pb.UserId id))) as [Heq|Hne].
    + apply rkey_inj in Heq as ->. rewrite Hv in Ho. injection Ho as ->. by rewrite lookup_delete_eq, Hid.
    + rewrite lookup_delete_ne, Ho by done. by left.
Qed.

(** A connection that is not the holder of its user's live route is refused: its
    heartbeat and check report that it was superseded, its disconnection that it is not
    current, and none of them changes the table. *)
Theorem superseded_is_fenced now d c o :
  reachable d → validConnection (Some c) = true →
  d !! rkey (pb.UserId c) = Some o → now < Deadline o → record_identity o ≠ c →
  Heartbeat s Answered now (Some c) d = (Err ErrSuperseded, d)
  ∧ Check_ s Answered now (Some c) d = (Err ErrSuperseded, d)
  ∧ Disconnect s Answered now (Some c) d = (Ok pb.NOT_CURRENT, d).
Proof.
  intros Hd Hv Ho Hl Hne. pose proof (read_ok d (rkey (pb.UserId c)) (reachable_ok d Hd)) as Hread.
  rewrite Ho in Hread. assert (Lua.same o (connectionRecord c) = false) as Hsame.
  { destruct (Lua.same o _) eqn:Heq; [|done]. by apply same_identity in Heq. }
  assert (∀ hb, Lua.check (instances s) (routes s) (routeTTL s) now hb (rkey (pb.UserId c)) (connectionRecord c) d
     = Some (err "superseded", d)) as Hcheck by (intros hb; unfold Lua.check; rewrite Hread; cbn [mbind option_bind]; by rewrite Hsame).
  assert (Lua.disconnect (instances s) (routes s) now (rkey (pb.UserId c)) (connectionRecord c) d
     = Some (answer_outcome pb.NOT_CURRENT, d)) as Hdis.
  { unfold Lua.disconnect. rewrite Hread. cbn [mbind option_bind]. apply Z.ltb_lt in Hl. by rewrite Hl, Hsame. }
  unfold Heartbeat, Check_, route, Disconnect, run. rewrite Hv.
  change (run_script s now "heartbeat" (connectionRecord c) [routes s +:+ pb.UserId c] d) with
    (Lua.check (instances s) (routes s) (routeTTL s) now true (rkey (pb.UserId c)) (connectionRecord c) d).
  change (run_script s now "check" (connectionRecord c) [routes s +:+ pb.UserId c] d) with
    (Lua.check (instances s) (routes s) (routeTTL s) now false (rkey (pb.UserId c)) (connectionRecord c) d).
  change (run_script s now "disconnect" (connectionRecord c) [routes s +:+ pb.UserId c] d) with
    (Lua.disconnect (instances s) (routes s) now (rkey (pb.UserId c)) (connectionRecord c) d).
  by rewrite !Hcheck, Hdis.
Qed.

(** ** Reading the table *)

(** The specification: the live route of a user through the live boot it came from. *)
Definition boot_live (now : Z) (d : db) (i boot : string) : Prop :=
  ∃ v, d !! ikey i = Some v ∧ now < Deadline v ∧ Boot v = boot.
Definition route_of (now : Z) (d : db) (u : string) : option record :=
  r ← d !! rkey u;
  if (now <? Deadline r) && (now <? Auth r) && Lua.is_live_boot now (d !! ikey (Instance_ r)) (Boot r)
  then Some r else None.
Definition offline_reason (now : Z) (d : db) (u : string) : Z :=
  match d !! rkey u with
  | None => pb.OFFLINE_REASON_NO_ROUTE
  | Some r => if (now <? Deadline r) && (now <? Auth r) then pb.OFFLINE_REASON_INSTANCE_EXPIRED
              else pb.OFFLINE_REASON_LEASE_EXPIRED
  end.
Definition route_answer (now : Z) (d : db) (u : string) : pb.RouteLookupResult :=
  pb.MkRouteLookupResult u (match route_of now d u with
                            | Some r => pb.StateRoute (Some (routeLease r))
                            | None => pb.StateOffline (offline_reason now d u)
                            end).
Definition comet_answer (now : Z) (d : db) (i : string) : pb.CometResolution :=
  pb.MkCometResolution i
    (match d !! ikey i with
     | Some v => if now <? Deadline v then pb.StateLease (Some (cometLease v))
                 else pb.StateMissing pb.MISSING_COMET_LEASE_EXPIRED
     | None => pb.StateMissing pb.MISSING_COMET_NOT_REGISTERED
     end).

Lemma route_of_Some now d u r : route_of now d u = Some r ↔
  d !! rkey u = Some r ∧ now < Deadline r ∧ now < Auth r ∧ boot_live now d (Instance_ r) (Boot r).
Proof.
  unfold route_of, boot_live. destruct (d !! rkey u) as [v|]; cbn [mbind option_bind]; [|naive_solver].
  destruct (_ && _) eqn:Hl.
  - rewrite !andb_true_iff, !Z.ltb_lt, live_boot in Hl. naive_solver.
  - split; [done|]. intros ([= ->]&?&?&?). apply andb_false_iff in Hl.
    rewrite andb_false_iff, !Z.ltb_ge in Hl. rewrite <-not_true_iff_false, live_boot in Hl. naive_solver lia.
Qed.

(** A batched read whose items are answered one by one. *)
Lemma batch_exact {A} (one : db → string → string → option item) (g : item → result store_error A)
    (key : string → string) (a : string → A) ids d :
  (∀ u, u ∈ ids → ∃ i, one d (key u) u = Some i ∧ g i = Ok (a u)) →
  ∃ r, Lua.batch one (map key ids) (id_record ids) d = Some (r, d) ∧ Err_ r = ""
    ∧ batch_answer (slen ids) g r = Ok (a <$> ids).
Proof.
  intros Hone. assert (∃ l, mapM (λ kid, one d kid.1 kid.2) (zip (map key ids) ids) = Some l
    ∧ length l = length ids ∧ each_result g l = Ok (a <$> ids)) as (l&Hl&Hlen&Hres).
  { induction ids as [|u ids IH]; [by exists []|].
    destruct IH as (l&Hl&Hlen&Hres); [intros v Hv; by apply Hone, list_elem_of_further|].
    destruct (Hone u) as (i&Hi&Hgi); [apply list_elem_of_here|]. exists (i :: l).
    cbn [map zip zip_with mapM fst snd]. rewrite Hi. cbn [mbind option_bind]. setoid_rewrite Hl.
    split; [done|]. split; [by cbn; rewrite Hlen|]. cbn [each_result fmap list_fmap]. rewrite Hgi.
    cbn [mbind result_bind]. by rewrite Hres. }
  exists (answer_results l). unfold Lua.batch. cbn [IDs id_record]. rewrite Hl. split; [done|]. split; [done|].
  unfold batch_answer. cbn [results answer_results]. unfold slen. rewrite Hlen, Z.eqb_refl. exact Hres.
Qed.

Lemma valid_batch_cons ids valid : validBatch ids valid = true → ∃ u us, ids = u :: us.
Proof. destruct ids as [|u us]; [done|]. intros _. by exists u, us. Qed.

Lemma lookup_one_exact now u d : db_ok d →
  ∃ i, Lua.lookup_one (instances s) (routes s) now d (rkey u) u = Some i ∧ route_result i = Ok (route_answer now d u).
Proof.
  intros Hd. unfold Lua.lookup_one. rewrite (read_ok _ _ Hd). cbn [mbind option_bind].
  unfold route_answer, route_of, offline_reason.
  destruct (d !! rkey u) as [v|]; cbn [mbind option_bind]; [|by eexists].
  assert (negb (now <? Deadline v) || (Auth v <=? now) = negb ((now <? Deadline v) && (now <? Auth v))) as ->.
  { rewrite negb_andb. f_equal. by rewrite Z.leb_antisym. }
  destruct (_ && _) eqn:Hl; cbn [negb andb]; [|by eexists].
  unfold Lua.validinstance, Lua.instance. fold (ikey (Instance_ v)). rewrite (read_ok _ _ Hd). cbn [mbind option_bind].
  destruct (Lua.is_live_boot _ _ _); by eexists.
Qed.
Lemma resolve_one_exact now i d : db_ok d →
  ∃ it, Lua.resolve_one (instances s) (routes s) now d (ikey i) i = Some it ∧ comet_result it = Ok (comet_answer now d i).
Proof.
  intros Hd. unfold Lua.resolve_one. rewrite (read_ok _ _ Hd). cbn [mbind option_bind]. unfold comet_answer.
  destruct (d !! ikey i) as [v|]; [|by eexists]. destruct (now <? Deadline v); by eexists.
Qed.
Lemma Lookup_exact now users d : reachable d → validBatch users validUser = true →
  Lookup s Answered now users d = (Ok (route_answer now d <$> users), d).
Proof.
  intros Hd Hu. apply reachable_ok in Hd. unfold Lookup, run. rewrite Hu.
  destruct (batch_exact (Lua.lookup_one (instances s) (routes s) now) route_result rkey (route_answer now d) users d)
    as (r&Hr&He&Ha); [intros u _; by apply lookup_one_exact|].
  destruct (valid_batch_cons _ _ Hu) as (u&us&->).
  change (run_script s now "lookup" (id_record (u :: us)) (map (String.append (routes s)) (u :: us)) d)
    with (Lua.batch (Lua.lookup_one (instances s) (routes s) now) (map rkey (u :: us)) (id_record (u :: us)) d).
  rewrite Hr, He, bool_decide_true by done. unfold answer. cbn [mbind result_bind]. by rewrite Ha.
Qed.
Lemma Resolve_exact now ids d : reachable d → validBatch ids validInstance = true →
  Resolve s Answered now ids d = (Ok (comet_answer now d <$> ids), d).
Proof.
  intros Hd Hi. apply reachable_ok in Hd. unfold Resolve, run. rewrite Hi.
  destruct (batch_exact (Lua.resolve_one (instances s) (routes s) now) comet_result ikey (comet_answer now d) ids d)
    as (r&Hr&He&Ha); [intros i _; by apply resolve_one_exact|].
  destruct (valid_batch_cons _ _ Hi) as (i&is_&->).
  change (run_script s now "resolve" (id_record (i :: is_)) (map (String.append (instances s)) (i :: is_)) d)
    with (Lua.batch (Lua.resolve_one (instances s) (routes s) now) (map ikey (i :: is_)) (id_record (i :: is_)) d).
  rewrite Hr, He, bool_decide_true by done. unfold answer. cbn [mbind result_bind]. by rewrite Ha.
Qed.
(** Whatever becomes of the script, a lookup answers the truth or an error. *)
Lemma Lookup_answer f now users d : reachable d →
  (Lookup s f now users d).2 = d
  ∧ ∀ l, (Lookup s f now users d).1 = Ok l → l = route_answer now d <$> users ∧ validBatch users validUser = true.
Proof.
  intros Hd. assert ((Lookup s f now users d).2 = d) as Hsame.
  { change (effect f now (CLookup users) d = d). pose proof (effect_change f now (CLookup users) d) as Hc. inversion Hc; congruence. }
  split; [done|]. intros l. destruct (validBatch users validUser) eqn:Hv; [|unfold Lookup; by rewrite Hv].
  destruct f; [unfold Lookup, run; by rewrite Hv| |unfold Lookup, run; by rewrite Hv].
  rewrite Lookup_exact by done. intros Hl. cbn in Hl. by injection Hl.
Qed.
Lemma Resolve_answer f now ids d : reachable d →
  (Resolve s f now ids d).2 = d
  ∧ ∀ l, (Resolve s f now ids d).1 = Ok l → l = comet_answer now d <$> ids ∧ validBatch ids validInstance = true.
Proof.
  intros Hd. assert ((Resolve s f now ids d).2 = d) as Hsame.
  { change (effect f now (CResolve ids) d = d). pose proof (effect_change f now (CResolve ids) d) as Hc. inversion Hc; congruence. }
  split; [done|]. intros l. destruct (validBatch ids validInstance) eqn:Hv; [|unfold Resolve; by rewrite Hv].
  destruct f; [unfold Resolve, run; by rewrite Hv| |unfold Resolve, run; by rewrite Hv].
  rewrite Resolve_exact by done. intros Hl. cbn in Hl. by injection Hl.
Qed.

(** C7: [Lookup] and [Resolve] answer every id, in order, with the truth about the table.
    A route is handed out exactly when it is live, its authorisation has not expired and
    its instance is live under the very boot that connected it; otherwise the reason says
    which of these fails.  Neither changes the table. *)
Theorem Lookup_Resolve_exact now users instances_ d :
  reachable d → validBatch users validUser = true → validBatch instances_ validInstance = true →
  Lookup s Answered now users d = (Ok (route_answer now d <$> users), d)
  ∧ Resolve s Answered now instances_ d = (Ok (comet_answer now d <$> instances_), d).
Proof. intros. by rewrite Lookup_exact, Resolve_exact. Qed.

(** ** What is stored was validated by the Go side *)

Definition route_valid (u : string) (v : record) : Prop :=
  User v = u ∧ validConnection (Some (record_identity v)) = true ∧ validUUID (Boot v) = true.
Definition lease_valid (i : string) (v : record) : Prop :=
  Instance_ v = i ∧ validComet (Some (pb.MkCometIdentity (Instance_ v) (Boot v))) = true ∧ validAddress (Address v) = true.
Record db_valid (d : db) : Prop := DbValid {
  valid_routes u v : d !! rkey u = Some v → route_valid u v;
  valid_leases i v : d !! ikey i = Some v → lease_valid i v
}.
Lemma db_valid_delete key d : db_valid d → db_valid (delete key d).
Proof. intros [Hr Hl]. constructor; intros k v [_ Hk]%lookup_delete_Some; eauto. Qed.
Lemma db_valid_route u v d : db_valid d → route_valid u v → db_valid (<[rkey u := v]> d).
Proof.
  intros [Hr Hl] Hv. constructor; intros k w [[Hk <-]|[_ Hk]]%lookup_insert_Some; eauto.
  - by apply rkey_inj in Hk as ->.
  - by destruct (keys_differ s k u Hs).
Qed.
Lemma db_valid_lease i v d : db_valid d → lease_valid i v → db_valid (<[ikey i := v]> d).
Proof.
  intros [Hr Hl] Hv. constructor; intros k w [[Hk <-]|[_ Hk]]%lookup_insert_Some; eauto.
  - by destruct (keys_differ s i k Hs).
  - by apply ikey_inj in Hk as ->.
Qed.
Lemma change_valid now d c d' : db_valid d → change now d c d' → db_valid d'.
Proof.
  intros Hd [|id a b Hv Ha _|id b o Ho _ _ _|id o _ _ _|id u k t auth i Hv Hc _ _ _ _ _ _|id o i Ho _ _ _ _ _ _ _|id o _ _ _];
    auto using db_valid_delete.
  - apply db_valid_lease; [done|]. by destruct id.
  - apply db_valid_lease; [done|]. by apply (valid_leases _ Hd) in Ho as (?&?&?).
  - apply db_valid_route; [done|]. apply andb_true_iff in Hv as [_ Hv]. by split_and!.
  - apply db_valid_route; [done|]. by apply (valid_routes _ Hd) in Ho as (?&?&?).
Qed.
Lemma reachable_valid d : reachable d → db_valid d.
Proof.
  induction 1 as [|f now c d _ IH Hc|now d d' _ IH He].
  - constructor; intros ? ? Hk; by rewrite lookup_empty in Hk.
  - eapply change_valid; [exact IH|apply effect_change].
  - destruct He. by apply db_valid_delete.
Qed.
End Table.

(** ** A concrete table *)

Definition sample_store : Store :=
  match New true "app:" 0 0 with Ok s => s | Err _ => MkStore "" "" 0 0 end.
Lemma sample_shaped : shaped sample_store.
Proof. by apply (New_shaped true "app:" 0 0). Qed.
Definition sample_comet : pb.CometIdentity := pb.MkCometIdentity "comet-1" boot1.
Definition sample_holder : pb.ConnectionIdentity := pb.MkConnectionIdentity user1 "comet-1" connection1 token1.
Definition other_holder : pb.ConnectionIdentity := pb.MkConnectionIdentity user1 "comet-2" connection1 token1.
Definition registered : db :=
  effect (H := Reference.external) sample_store Answered 1000 (CRegister (Some sample_comet) "127.0.0.1:7000") ∅.
Definition connected : db :=
  effect (H := Reference.external) sample_store Answered 1000
    (CConnect (Some sample_comet) user1 connection1 token1 (1000000 * second)) registered.
Definition sample_instance : record :=
  MkRecord "" "comet-1" boot1 "" "" "127.0.0.1:7000" false 0 61000 [].
Definition sample_route : record :=
  MkRecord user1 "comet-1" boot1 connection1 token1 "" false 1000000000 61000 [].

Lemma sample_instance_stored : connected !! ikey sample_store "comet-1" = Some sample_instance.
Proof. vm_compute. reflexivity. Qed.
Lemma sample_route_stored : connected !! rkey sample_store user1 = Some sample_route.
Proof. vm_compute. reflexivity. Qed.
Lemma connected_reachable : reachable (H := Reference.external) sample_store connected.
Proof.
  assert (clock_ok sample_store 1000) by (unfold clock_ok; by vm_compute).
  by apply reach_call; [apply reach_call; [apply reach_empty|]|].
Qed.

Lemma stored_leases_readable_witness :
  Lua.read (instances sample_store) (routes sample_store) connected (rkey sample_store user1) = Some (Some sample_route).
Proof.
  rewrite <-sample_route_stored.
  apply (@stored_leases_readable Reference.external Reference.external_laws sample_store sample_shaped).
  apply connected_reachable.
Defined.

Lemma instance_fence_witness :
  match effect (H := Reference.external) sample_store Answered 2000 (CRenew (Some sample_comet) true) connected
        !! ikey sample_store "comet-1" with
  | Some o' => Boot o' = boot1 ∧ Draining o' = true
  | None => False
  end.
Proof.
  pose proof (@instance_fence Reference.external sample_store sample_shaped Answered 2000
    (CRenew (Some sample_comet) true) connected "comet-1" sample_instance sample_instance_stored ltac:(done)) as Hf.
  destruct (effect _ _ _ _ _ !! _) as [o'|] eqn:He.
  - destruct Hf as (Hb&_). split; [exact Hb|]. vm_compute in He. injection He as <-. reflexivity.
  - by destruct Hf as (id&?&_).
Defined.

Lemma route_fence_witness :
  effect (H := Reference.external) sample_store Answered 2000 (CHeartbeat (Some other_holder)) connected
    !! rkey sample_store user1 = Some sample_route.
Proof.
  pose proof (@route_fence Reference.external sample_store sample_shaped Answered 2000
    (CHeartbeat (Some other_holder)) connected user1 sample_route sample_route_stored ltac:(done)) as Hf.
  destruct (effect _ _ _ _ _ !! _) as [o'|] eqn:He; [|done].
  destruct Hf as [->|[[Hh _]|(?&?&?&?&?&?&_)]]; [done|discriminate Hh|done].
Defined.

Lemma superseded_is_fenced_witness :
  Heartbeat (H := Reference.external) sample_store Answered 2000 (Some other_holder) connected
  = (Err ErrSuperseded, connected).
Proof.
  apply (@superseded_is_fenced Reference.external Reference.external_laws sample_store sample_shaped
           2000 connected other_holder sample_route).
  - apply connected_reachable.
  - vm_compute. reflexivity.
  - apply sample_route_stored.
  - done.
  - done.
Defined.

Lemma Lookup_Resolve_exact_witness :
  Lookup (H := Reference.external) sample_store Answered 2000 [user1; user2] connected
  = (Ok [pb.MkRouteLookupResult user1 (pb.StateRoute (Some (routeLease sample_route)));
         pb.MkRouteLookupResult user2 (pb.StateOffline pb.OFFLINE_REASON_NO_ROUTE)], connected).
Proof.
  destruct (@Lookup_Resolve_exact Reference.external Reference.external_laws sample_store sample_shaped
    2000 [user1; user2] ["comet-1"] connected connected_reachable) as [-> _];
    [vm_compute; reflexivity..|].
  assert (route_answer sample_store 2000 connected <$> [user1; user2]
    = [pb.MkRouteLookupResult user1 (pb.StateRoute (Some (routeLease sample_route)));
       pb.MkRouteLookupResult user2 (pb.StateOffline pb.OFFLINE_REASON_NO_ROUTE)]) as Hr by (vm_compute; reflexivity).
  by rewrite Hr.
Defined.
