(* ===== verification/KafkaPush.v ===== *)
(** * The push publisher of Logic: [internal/logic/kafkapush/publisher.go]

    [kafka.Writer] and [kafka.Client] are the operations of an environment; every call of
    [WriteMessages] is recorded with the key and the value it was given.  The theorems: what the
    answers of the publisher promise. *)
From S2P Require Import Prelude GoStd GoTime GoText External Json Dto JobTask JobTaskProofs JsonPrint JsonRound TextRound TaskRound Samples.
Local Open Scope Z_scope.

(** ** Errors and configuration *)

Inductive publish_base : Type := ErrNotPublished | errUnknown | errNotReady | errInvalidConfig.
(** An error, joined with the error of a context. *)
Record publish_error : Type := PublishError { base : publish_base; joined : option context_error }.
Definition plain_error (b : publish_base) : publish_error := PublishError b None.

(** What [WriteMessages] answers: nil, [io.ErrClosedPipe] itself, or another error with the
    context error it wraps, if any. *)
Inductive write_result : Type := Written | ClosedPipe | WriteFailed (wraps : option context_error).

Definition maxPayload : Z := 256 * 1024.

Definition topic_rune (c : Z) : bool :=
  in_range 97 122 c || in_range 65 90 c || in_range 48 57 c || (c =? 46) || (c =? 95) || (c =? 45).
Definition validTopic (topic : string) : bool :=
  negb ((249 <? len topic)
        || (bool_decide (topic ≠ "fable.push.v1")
            && (negb (has_prefix topic "fable.push.v1.") || (len topic =? len "fable.push.v1."))))
  && forallb topic_rune (runes topic).

Definition broker_chars : string := "/@?# " +:+ of_bytes [9; 10; 13].
Definition validBroker (broker : string) : bool :=
  negb ((512 <? len broker) || contains_any broker broker_chars)
  && match split_host_port broker with
     | None => false
     | Some (host, port) =>
       bool_decide (host ≠ "")
       && match atoi port with
          | Some n => (0 <? n) && (n <=? 65535) && bool_decide (format_int n = port)
          | None => false
          end
     end.

(** The publisher: its topic, and whether [Close] ran and with which answer. *)
Record Publisher : Type := MkPublisher {
  topic : string; closed : bool; closeErr : bool;
  writes : list (string * string)
}.
Definition New (brokers : list string) (topic : string) : option Publisher :=
  if (slen brokers =? 0) || negb (validTopic topic) || negb (forallb validBroker brokers) then None
  else Some (MkPublisher topic false false []).

Section Publish.
Context `{External}.

(** ** Keys *)

Definition nil_uuid : string := "00000000-0000-0000-0000-000000000000".
Definition validKey (key : string) : bool :=
  let id := match cut_prefix "direct:S" key with
            | Some id => Some id
            | None => cut_prefix "group:G" key
            end in
  match id with
  | None => false
  | Some id =>
    if negb (len id =? 36) then false
    else match uuid_parse id with
         | Some text => bool_decide (text ≠ nil_uuid) && bool_decide (text = id)
         | None => false
         end
  end.

(** ** Publishing.  [ctx1] and [ctx2] are the two readings of the error of the context,
    [write] the answer of the writer and [ctx3] the reading that classifies it; a nil
    receiver or context is a closed publisher. *)

Definition payload_ok (raw : string) : bool :=
  negb (maxPayload <? len raw)
  && head_is (trim_space raw) "{" && valid raw.

Definition safeError (b : publish_base) (ctx wraps : option context_error) : publish_error :=
  match ctx with Some e => PublishError b (Some e) | None => PublishError b wraps end.

Definition record_write (key raw : string) (p : Publisher) : Publisher :=
  MkPublisher (topic p) (closed p) (closeErr p) (writes p ++ [(key, raw)]).
Definition Publish (ctx1 ctx2 : option context_error) (write : write_result) (ctx3 : option context_error)
    (key raw : string) (p : Publisher) : result publish_error unit * Publisher :=
  if closed p || negb (validKey key) || negb (payload_ok raw) then (Err (plain_error ErrNotPublished), p)
  else
    match ctx1, ctx2 with
    | Some e, _ => (Err (PublishError ErrNotPublished (Some e)), p)
    | None, Some e => (Err (PublishError ErrNotPublished (Some e)), p)
    | None, None =>
      let p := record_write key raw p in
      (match write with
       | Written => Ok tt
       | ClosedPipe => Err (plain_error ErrNotPublished)
       | WriteFailed wraps => Err (safeError errUnknown ctx3 wraps)
       end, p)
    end.

(** ** Readiness *)

Record partition_metadata : Type := MkPartition {
  partition_error : bool; leader_host : string; leader_port : Z; isr : Z
}.
Record topic_metadata : Type := MkTopic {
  topic_name : string; topic_error : bool; partitions : list partition_metadata
}.
Record metadata : Type := MkMetadata { brokers : Z; topics : list topic_metadata }.

Definition partition_ok (x : partition_metadata) : bool :=
  negb (partition_error x || bool_decide (leader_host x = "") || (leader_port x <=? 0) || (isr x =? 0)).
(** The first topic of that name decides. *)
Fixpoint topic_ready (name : string) (l : list topic_metadata) : bool :=
  match l with
  | [] => false
  | t :: l' =>
    if negb (bool_decide (topic_name t = name)) then topic_ready name l'
    else negb (topic_error t || (slen (partitions t) =? 0)) && forallb partition_ok (partitions t)
  end.
(** [reply] is what the broker answers, or the context error its error wraps. *)
Definition Ping (reply : result (option context_error) metadata) (ctx : option context_error) (p : Publisher)
  : result publish_error unit :=
  if closed p then Err (plain_error errNotReady)
  else
    match reply with
    | Err wraps => Err (safeError errNotReady ctx wraps)
    | Ok m =>
      if (brokers m =? 0) || negb (topic_ready (topic p) (topics m)) then Err (plain_error errNotReady) else Ok tt
    end.

(** The first [Close] closes the writer, whose error every later one repeats. *)
Definition Close (writer_ok : bool) (p : Publisher) : result publish_error unit * Publisher :=
  let p := if closed p then p else MkPublisher (topic p) true (negb writer_ok) (writes p) in
  (if closeErr p then Err (plain_error errNotReady) else Ok tt, p).
End Publish.

(** ** The text of a task is a payload *)

Lemma drop_spaces_last l x : ∃ k, drop_spaces (l ++ [(false, x)]) = k ++ [(false, x)].
Proof.
  induction l as [|[b y] l IH]; [by exists []|]. cbn [app drop_spaces]. destruct b; [done|]. by exists ((false, y) :: l).
Qed.
Lemma trim_space_head s : head_is s "{" = true → head_is (trim_space s) "{" = true.
Proof.
  destruct s as [|c s]; [done|]. intros Hc. apply bool_decide_eq_true in Hc as ->.
  unfold trim_space. cbn [String.length bytes].
  assert (∃ l, chunks_from (S (String.length s)) (bytes (String "{" s)) = (false, [123]) :: l) as [l Hl] by (eexists; reflexivity).
  cbn [bytes] in Hl. rewrite Hl. cbn [drop_spaces]. rewrite reverse_cons.
  destruct (drop_spaces_last (reverse l) [123]) as [k ->]. rewrite reverse_app. done.
Qed.
Lemma print_task_head t raw : print_task t = Some raw → head_is raw "{" = true.
Proof. unfold print_task. destruct (print_message _); [|done]. cbn [mbind option_bind]. by intros [= <-]. Qed.

Section Publish.
Context `{External}.

Lemma payload_task t raw t' : print_task t = Some raw → DecodeTask raw = Ok t' → payload_ok raw = true.
Proof.
  intros Hp (ms&message&[Hsize _ _ Hparse _]&_)%DecodeTask_iff. unfold payload_ok, maxPayload, valid.
  rewrite Hparse, trim_space_head by by eapply print_task_head. rewrite (proj2 (Z.ltb_ge _ _)) by lia. done.
Qed.
(** The key of a conversation with a lower-case id. *)
Lemma validKey_conversation `{!ExternalLaws _} kind session :
  kind = "direct:S" ∨ kind = "group:G" → validUUID session = true → lower_ascii session = session →
  validKey (kind +:+ session) = true.
Proof.
  intros Hk Hs Hl. assert (match cut_prefix "direct:S" (kind +:+ session) with
    | Some id => Some id | None => cut_prefix "group:G" (kind +:+ session) end = Some session) as Hcut.
  { destruct Hk as [-> | ->]; [by rewrite cut_prefix_app|]. exact (cut_prefix_app "group:G" session). }
  unfold validKey. rewrite Hcut. unfold validUUID in Hs. rewrite !andb_true_iff in Hs. destruct Hs as [[Hlen Hnil] Hv].
  rewrite Hlen. apply Z.eqb_eq in Hlen. cbn [negb]. rewrite uuid_parse_canonical by done.
  rewrite <-uuid_validate_canonical, Hv, Hl by done. rewrite (bool_decide_true (session = session)) by done.
  apply andb_true_iff. split; [exact Hnil|done].
Qed.

(** ** Answers *)

Definition accepted (key raw : string) (p : Publisher) (ctx1 ctx2 : option context_error) : Prop :=
  closed p = false ∧ validKey key = true ∧ payload_ok raw = true ∧ ctx1 = None ∧ ctx2 = None.
Lemma Publish_cases ctx1 ctx2 write ctx3 key raw p :
  (accepted key raw p ctx1 ctx2
   ∧ Publish ctx1 ctx2 write ctx3 key raw p
     = (match write with
        | Written => Ok tt
        | ClosedPipe => Err (plain_error ErrNotPublished)
        | WriteFailed wraps => Err (safeError errUnknown ctx3 wraps)
        end, record_write key raw p))
  ∨ (¬ accepted key raw p ctx1 ctx2
     ∧ ∃ e, Publish ctx1 ctx2 write ctx3 key raw p = (Err e, p) ∧ base e = ErrNotPublished).
Proof.
  unfold accepted, Publish. destruct (closed p); cbn [orb]; [right; split; [naive_solver|by eexists]|].
  destruct (validKey key); cbn [orb negb]; [|right; split; [naive_solver|by eexists]].
  destruct (payload_ok raw); cbn [negb]; [|right; split; [naive_solver|by eexists]].
  destruct ctx1, ctx2; [right; split; [naive_solver|by eexists]..|]. by left.
Qed.

(** what an answer of [Publish] promises.  It is nil exactly when the publisher is
    open, the key and the payload are valid, the context is live and the writer wrote the
    record; a writer is handed the record at most once, with this very key and these very
    bytes.  [ErrNotPublished] is the answer exactly when no writer was handed the record
    or the writer refused it because it was closed; every other failure of the writer is
    reported as unknown, so the caller never takes a record that may be out for one that
    is not. *)
Theorem Publish_promises ctx1 ctx2 write ctx3 key raw p :
  let '(r, p') := Publish ctx1 ctx2 write ctx3 key raw p in
  (r = Ok tt ↔ accepted key raw p ctx1 ctx2 ∧ write = Written)
  ∧ (writes p' = writes p ∨ writes p' = writes p ++ [(key, raw)])
  ∧ ((∃ e, r = Err e ∧ base e = ErrNotPublished) ↔ writes p' = writes p ∨ write = ClosedPipe)
  ∧ ((∃ e, r = Err e ∧ base e = errUnknown) ↔ writes p' ≠ writes p ∧ ∃ wraps, write = WriteFailed wraps)
  ∧ topic p' = topic p ∧ closed p' = closed p.
Proof.
  assert (writes (record_write key raw p) ≠ writes p) as Hne.
  { cbn. intros Heq%(f_equal length). rewrite length_app in Heq. cbn in Heq. lia. }
  destruct (Publish_cases ctx1 ctx2 write ctx3 key raw p) as [[Ha ->]|[Hn (e&->&He)]]; cbn [topic closed record_write].
  - assert (∀ w, base (safeError errUnknown ctx3 w) = errUnknown) as Hb by by destruct ctx3.
    split_and!; try done; [split; [by destruct write|by intros [_ ->]]|by right|..].
    + destruct write as [| |w]; (split; [intros (e&[= <-]&Hbe)|intros [Hw|Hw]]); try done; [by right|by eexists|by rewrite Hb in Hbe].
    + destruct write as [| |w]; (split; [intros (e&[= <-]&Hbe)|intros [_ [wraps Hw]]]); try done; [|by eexists].
      split; [done|by eexists].
  - split_and!; try done; [naive_solver|by left|naive_solver|]. split; [|naive_solver].
    intros (e'&[= <-]&Hbe). by rewrite He in Hbe.
Qed.

(** ** The life of a publisher *)

Inductive step : Publisher → Publisher → Prop :=
| step_publish ctx1 ctx2 write ctx3 key raw p : step p (Publish ctx1 ctx2 write ctx3 key raw p).2
| step_close writer_ok p : step p (Close writer_ok p).2.
Definition sound (p : Publisher) : Prop :=
  validTopic (topic p) = true ∧ Forall (λ w, validKey w.1 = true ∧ payload_ok w.2 = true) (writes p).
Lemma step_sound p p' : sound p → step p p' → sound p' ∧ topic p' = topic p
  ∧ (closed p = true → p' = p) ∧ ∃ l, writes p' = writes p ++ l.
Proof.
  intros Hp Hstep. destruct Hstep as [ctx1 ctx2 write ctx3 key raw q|writer_ok q]; destruct Hp as [Ht Hw].
  - destruct (Publish_cases ctx1 ctx2 write ctx3 key raw q) as [[(Hc&Hk&Hr&_) ->]|[_ (e&->&_)]]; cbn [snd].
    + split_and!; try done; [|by rewrite Hc|by eexists]. split; [done|]. cbn. apply Forall_app. split; [done|]. by apply Forall_singleton.
    + split_and!; try done. exists []. by rewrite app_nil_r.
  - unfold Close. destruct (closed q) eqn:Hc; cbn [snd]; (split_and!; try done; exists []; cbn; by rewrite app_nil_r).
Qed.

(** a publisher that [New] made, after whatever calls: its topic is a versioned topic
    of this program, every record handed to the writer had a conversation for its key and
    one JSON object within the bound for its value, and once it is closed nothing is
    written any more and every [Close] repeats the first answer. *)
Theorem publisher_life brokers name p0 p :
  New brokers name = Some p0 → rtc step p0 p →
  validTopic name = true ∧ topic p = name ∧ forallb validBroker brokers = true
  ∧ Forall (λ w, validKey w.1 = true ∧ payload_ok w.2 = true) (writes p)
  ∧ (closed p = true → ∀ p', rtc step p p' → p' = p)
  ∧ (∀ ok1 ok2, let '(r, p1) := Close ok1 p in Close ok2 p1 = (r, p1)).
Proof.
  unfold New. destruct (_ || _) eqn:Hv; [done|]. rewrite !orb_false_iff, !negb_false_iff in Hv.
  destruct Hv as [[_ Ht] Hb]. intros [= <-] Hsteps.
  assert (sound p ∧ topic p = name) as [[_ Hw] Htopic].
  { remember (MkPublisher name false false []) as p0 eqn:Hp0.
    assert (sound p0 ∧ topic p0 = name) as Hp by (subst; split; [split; [done|constructor]|done]). clear Hp0.
    induction Hsteps as [q|q1 q2 q3 Hs _ IH]; [done|]. apply IH. destruct Hp as [Hp <-].
    by destruct (step_sound _ _ Hp Hs) as (?&?&_). }
  split_and!; try done.
  - intros Hc p' Hs. clear -Hc Hs Hw Ht Htopic. assert (sound p) as Hp by by (split; [rewrite Htopic|]).
    induction Hs as [q|q1 q2 q3 Hs _ IH]; [done|]. destruct (step_sound _ _ Hp Hs) as (?&?&Heq&_).
    rewrite (Heq Hc) in *. by apply IH.
  - intros ok1 ok2. unfold Close. destruct (closed p) eqn:Hc; [by rewrite Hc|done].
Qed.
End Publish.

(** ** A concrete publisher *)

Definition sample_key : string := "direct:" +:+ session1.
Definition sample_publisher : Publisher := MkPublisher "fable.push.v1" false false [].
Lemma publisher_life_witness :
  New ["127.0.0.1:9092"] "fable.push.v1" = Some sample_publisher
  ∧ writes (Publish (H := Reference.external) None None Written None sample_key plain_task sample_publisher).2
    = [(sample_key, plain_task)]
  ∧ Forall (λ w, validKey (H := Reference.external) w.1 = true ∧ payload_ok w.2 = true)
      (writes (Publish (H := Reference.external) None None Written None sample_key plain_task sample_publisher).2).
Proof.
  assert (New ["127.0.0.1:9092"] "fable.push.v1" = Some sample_publisher) as Hnew by (vm_compute; reflexivity).
  split; [exact Hnew|]. split; [vm_compute; reflexivity|].
  apply (publisher_life (H := Reference.external) ["127.0.0.1:9092"] "fable.push.v1" sample_publisher _ Hnew).
  eapply rtc_once, step_publish.
Defined.
