(* ===== verification/MessageStore.v ===== *)
(** * Messages and their history: [internal/logic/messagestore]

    A transaction runs alone: the rows it locks first (the sender, the conversation) are
    the ones two conflicting transactions share.  Each query may fail, as the stream
    [fault] says, and so may the commit; an error rolls the rows back.  Columns compare
    as strings.  A new message gets its id from a counter no rollback resets. *)
From S2P Require Import Prelude GoStd GoTime GoText External Json Dto JsonPrint Sha256.
Local Open Scope Z_scope.

(** ** Rows ([internal/model], [schema.go]) *)

Definition MessageTypeText : Z := 0.
Definition MessageOriginUser : Z := 0.
Definition MessageOriginAI : Z := 1.
Definition SessionTypeUser : Z := 0.
Definition SessionTypeGroup : Z := 1.
Definition GroupStatusNormal : Z := 0.

Record Session : Type := MkSession { ses_uuid : string; ses_send : string; ses_receive : string; ses_type : Z }.
(** The columns of [GroupInfo] a message needs; [g_members] is JSON text. *)
Record GroupInfo : Type := MkGroupInfo { g_uuid : string; g_members : string; g_status : Z }.
Record message : Type := MkRow {
  ID : Z; UUID : string; SessionID : string; Type_ : Z; Content : string; Origin : Z;
  SendID : string; ReceiveID : string; CreatedAt : Z;
  ClientMessageID : string; RequestFingerprint : list Z; RecipientIDs : string
}.
Global Instance message_eq_dec : EqDecision message.
Proof. solve_decision. Defined.
Definition set_id (i : Z) (r : message) : message :=
  MkRow i (UUID r) (SessionID r) (Type_ r) (Content r) (Origin r) (SendID r) (ReceiveID r) (CreatedAt r)
    (ClientMessageID r) (RequestFingerprint r) (RecipientIDs r).

(** The tables; [access] are the sessions a user opened to the assistant, [messages] are
    in the order of their ids. *)
Record database : Type := MkDatabase {
  users : list string; sessions : list Session; groups : list GroupInfo;
  access : list (string * string); messages : list message; next_id : Z
}.
Definition set_messages (l : list message) (d : database) : database :=
  MkDatabase (users d) (sessions d) (groups d) (access d) l (next_id d).
Definition set_next_id (n : Z) (d : database) : database :=
  MkDatabase (users d) (sessions d) (groups d) (access d) (messages d) n.

Inductive store_error : Type := ErrInvalid | ErrForbidden | ErrConflict | ErrDatabase.

Record Input : Type := MkInput {
  SenderID : string; InClientMessageID : string; InDestination : option pb.Destination; InContent : string
}.
Record Saved : Type := MkSaved { SavedMessage : pb.MessageView; Recipients : list string; Replayed : bool }.
Record SyncPage : Type := MkSyncPage {
  PageConversation : string; Messages : list im.Message; NextCursor : string; HasMore : bool
}.

Section Validation.
Context `{External}.

(** ** Validation ([validation.go]) *)

Definition nil_uuid : string := "00000000-0000-0000-0000-000000000000".
Definition validUUID (s : string) : bool := (len s =? 36) && bool_decide (s ≠ nil_uuid) && uuid_validate s.
Definition validID (s : string) (prefix : ascii) : bool :=
  (len s =? 37) && head_is s prefix && validUUID (tail s).
Definition validText (s : string) : bool :=
  bool_decide (s ≠ "") && (len s <=? 16 * 1024) && utf8_valid s.
Definition validateInput (i : Input) : result store_error unit :=
  match InDestination i with
  | None => Err ErrInvalid
  | Some d =>
    _ ← ensure (validID (SenderID i) "U" && validUUID (InClientMessageID i) && validText (InContent i)) ErrInvalid;
    if pb.DestReceiveType d =? pb.RECEIVE_TYPE_USER then
      ensure (validID (pb.DestReceiveId d) "U" && bool_decide (pb.DestReceiveId d ≠ SenderID i)) ErrInvalid
    else if pb.DestReceiveType d =? pb.RECEIVE_TYPE_GROUP then
      ensure (validID (pb.DestReceiveId d) "G") ErrInvalid
    else Err ErrInvalid
  end.

(** The cursor: its members and their decoding. *)
Record syncCursor : Type := MkSyncCursor { Version : Z; CursorConversation : string; AfterPosition : string }.
Definition cursor_field (c : syncCursor) (key : string) (v : json) : option syncCursor :=
  let '(MkSyncCursor ver conv after) := c in
  if names key "v" then match v with
                        | JNull => Some c
                        | JNum lit => ver ← parse_int 64 lit; Some (MkSyncCursor ver conv after)
                        | _ => None
                        end
  else if names key "conversation_id" then conv ← decode_string conv v; Some (MkSyncCursor ver conv after)
  else if names key "after_position" then after ← decode_string after v; Some (MkSyncCursor ver conv after)
  else Some c.
Definition cursor_json (conversation : string) (after : Z) : string :=
  print_object [field "v" (format_int 1); field "conversation_id" (print_string conversation);
                field "after_position" (print_string (format_int after))].
Definition encodeCursor (conversation : string) (after : Z) : string :=
  base64_raw_url_encode (cursor_json conversation after).
Definition decodeCursor (conversation cursor : string) : result store_error Z :=
  if bool_decide (cursor = "") then Ok 0
  else
    match base64_raw_url_decode cursor with
    | None => Err ErrInvalid
    | Some raw =>
      match v ← parse raw; decode_struct cursor_field (MkSyncCursor 0 "" "") v with
      | None => Err ErrInvalid
      | Some c =>
        if negb (Version c =? 1) || bool_decide (CursorConversation c ≠ conversation) then Err ErrInvalid
        else
          match parse_int 64 (AfterPosition c) with
          | None => Err ErrInvalid
          | Some after =>
            if (after <=? 0) || bool_decide (format_int after ≠ AfterPosition c)
               || bool_decide (encodeCursor conversation after ≠ cursor)
            then Err ErrInvalid else Ok after
          end
      end
    end.
Definition parseConversation (conversation : string) : result store_error (string * bool) :=
  let group :=
    match cut_prefix "group:" conversation with
    | Some id => if validID id "G" then Ok (id, true) else Err ErrInvalid
    | None => Err ErrInvalid
    end in
  match cut_prefix "direct:" conversation with
  | Some id => if validID id "S" then Ok (id, false) else group
  | None => group
  end.

(** ** Views ([sync.go]) *)

Definition messageView (row : message) : result store_error pb.MessageView :=
  _ ← ensure ((0 <? ID row) && validID (UUID row) "M" && validID (SendID row) "U" && validText (Content row)
              && (Type_ row =? MessageTypeText) && negb (CreatedAt row =? zero_ns)) ErrDatabase;
  origin ← (if Origin row =? MessageOriginUser then Ok pb.MESSAGE_ORIGIN_USER
            else if Origin row =? MessageOriginAI then Ok pb.MESSAGE_ORIGIN_AI else Err ErrDatabase);
  '(kind, conversation) ←
    (if validID (SessionID row) "G" then
       _ ← ensure (bool_decide (ReceiveID row = SessionID row)) ErrDatabase;
       Ok (pb.RECEIVE_TYPE_GROUP, "group:" +:+ SessionID row)
     else
       _ ← ensure (validID (SessionID row) "S" && validID (ReceiveID row) "U"
                   && bool_decide (SendID row ≠ ReceiveID row)) ErrDatabase;
       Ok (pb.RECEIVE_TYPE_USER, "direct:" +:+ SessionID row));
  let created := timestamp_of_ns (CreatedAt row) in
  _ ← ensure (timestamp_check_valid created) ErrDatabase;
  Ok (pb.MkMessageView (UUID row) conversation (SessionID row) (SendID row)
        (Some (pb.MkDestination kind (ReceiveID row))) pb.MESSAGE_TYPE_TEXT (Content row) origin
        (Some created) (ID row)).
Definition publicMessage (v : pb.MessageView) : im.Message :=
  let d := default (pb.MkDestination 0 "") (pb.Destination_ v) in
  im.MkMessage (pb.MessageId v) (pb.ConversationId v) (pb.SessionId v) (pb.SenderId v) (pb.DestReceiveId d)
    (if pb.DestReceiveType d =? pb.RECEIVE_TYPE_GROUP then im.ReceiveTypeGroup else im.ReceiveTypeUser)
    im.MessageTypeText (pb.Content v)
    (if pb.Origin v =? pb.MESSAGE_ORIGIN_AI then im.MessageOriginAI else im.MessageOriginUser)
    (Time (as_ns (default (timestamp_of_ns 0) (pb.CreatedAt v))) 0) (format_uint (pb.Position v)).

(** ** Recipients *)

(** The loop over the sorted ids, which keeps the first of equal neighbours. *)
Fixpoint dedup (prev : option string) (l : list string) : list string :=
  match l with
  | [] => []
  | id :: l' => if bool_decide (prev = Some id) then dedup prev l' else id :: dedup (Some id) l'
  end.
Definition sortedUnique (ids : list string) : list string := dedup None (sort_strings ids).
Definition decode_ids (raw : string) : option (list string) :=
  v ← parse raw; decode_list decode_string "" [] v.
Definition decodeRecipients (raw : string) : result store_error (list string) :=
  match decode_ids raw with
  | None => Err ErrDatabase
  | Some ids =>
    _ ← ensure (bool_decide (ids ≠ []) && forallb (λ id, validID id "U") ids
                && bool_decide (sortedUnique ids = ids)) ErrDatabase;
    Ok ids
  end.

Definition fingerprint_json (receive : pb.Destination) (content : string) (origin : Z) : string :=
  print_object
    [field "v" "1";
     field "destination"
       (print_object [field "receive_type" (print_string (if pb.DestReceiveType receive =? pb.RECEIVE_TYPE_GROUP then "group" else "user"));
                      field "receive_id" (print_string (pb.DestReceiveId receive))]);
     field "content" (print_string content); field "type" (print_string "text");
     field "origin" (print_string (if origin =? MessageOriginAI then "ai" else "user"))].
Definition fingerprintV1 (receive : pb.Destination) (content : string) (origin : Z) : list Z :=
  sha256 (fingerprint_json receive content origin).
End Validation.

(** ** Transactions *)

(** The database and the number of queries made. *)
Definition Tx (A : Type) : Type := database * nat → result store_error A * (database * nat).
Global Instance Tx_ret : MRet Tx := λ A a s, (Ok a, s).
Global Instance Tx_bind : MBind Tx := λ A B f m s,
  match m s with (Ok a, s) => f a s | (Err e, s) => (Err e, s) end.
Definition tx_err {A} (e : store_error) : Tx A := λ s, (Err e, s).
Definition tx_lift {A} (r : result store_error A) : Tx A := λ s, (r, s).

Inductive commit : Type := Committed | RolledBack | CommitLost.

Section Store.
Context `{External} (fault : nat → bool).

(** A query that reads the tables, and one that finds a row or answers [none]. *)
Definition query {A} (f : database → A) : Tx A := λ '(d, n),
  if fault n then (Err ErrDatabase, (d, S n)) else (Ok (f d), (d, S n)).
Definition take_row {A} (none : store_error) (f : database → option A) : Tx A :=
  (r ← query f; match r with Some a => mret a | None => tx_err none end).
Definition guard (b : bool) (e : store_error) : Tx unit := if b then mret tt else tx_err e.

(** A row that no longer exists means no authority. *)
Definition authorityError {A} : (database → option A) → Tx A := take_row ErrForbidden.
Definition lockUser (user : string) : Tx unit :=
  authorityError (λ d, if bool_decide (user ∈ users d) then Some tt else None).

Definition pair_of (user peer : string) (r : Session) : bool :=
  (bool_decide (ses_send r = user) && bool_decide (ses_receive r = peer))
  || (bool_decide (ses_send r = peer) && bool_decide (ses_receive r = user)).
Definition find_direct (user peer sessionID : string) (d : database) : option Session :=
  find (λ r, (ses_type r =? SessionTypeUser)
             && if bool_decide (sessionID ≠ "") then bool_decide (ses_uuid r = sessionID) else pair_of user peer r)
       (sessions d).
Definition lockDirect (user peer sessionID : string) : Tx Session :=
  (r ← authorityError (find_direct user peer sessionID);
   guard (validID (ses_uuid r) "S" && validID (ses_send r) "U" && validID (ses_receive r) "U"
          && bool_decide (ses_send r ≠ ses_receive r)) ErrDatabase;;
   guard (bool_decide (ses_send r = user) || bool_decide (ses_receive r = user)) ErrForbidden;;
   mret r).
Definition lockGroup (user id : string) : Tx (GroupInfo * list string) :=
  (g ← authorityError (λ d, find (λ g, bool_decide (g_uuid g = id)) (groups d));
   guard (g_status g =? GroupStatusNormal) ErrForbidden;;
   match decode_ids (g_members g) with
   | None => tx_err ErrDatabase
   | Some members =>
     guard (bool_decide (members ≠ []) && forallb (λ m, validID m "U") members) ErrDatabase;;
     guard (bool_decide (user ∈ members)) ErrForbidden;;
     mret (g, sortedUnique members)
   end).

(** The loop over chunks of a hundred; the fuel is the number of ids, and every step
    takes one at least. *)
Fixpoint requireUsers_from (fuel : nat) (ids : list string) : Tx unit :=
  match fuel, ids with
  | S n, _ :: _ =>
    (let chunk := take 100 ids in
     count ← query (λ d, length (filter (.∈ chunk) (users d)));
     guard (Z.of_nat count =? slen chunk) ErrForbidden;;
     requireUsers_from n (drop 100 ids))
  | _, _ => mret tt
  end.
Definition requireUsers (ids : list string) : Tx unit := requireUsers_from (length ids) ids.

Definition sent_by (sender client : string) (r : message) : bool :=
  bool_decide (SendID r = sender) && bool_decide (ClientMessageID r = client).
(** INSERT: the unique keys are the uuid and the pair of sender and client id. *)
Definition create (row : message) : Tx message := λ '(d, n),
  if fault n then (Err ErrDatabase, (d, S n))
  else if existsb (λ r, bool_decide (UUID r = UUID row) || sent_by (SendID row) (ClientMessageID row) r) (messages d)
  then (Err ErrDatabase, (set_next_id (next_id d + 1) d, S n))
  else let row := set_id (next_id d) row in
       (Ok row, (set_next_id (next_id d + 1) (set_messages (messages d ++ [row]) d), S n)).

(** What the sender chose: the session, the receiver and who gets the message. *)
Definition choose (i : Input) (aiSession : string) : Tx (string * pb.Destination * list string) :=
  (if bool_decide (aiSession ≠ "") then
     session ← lockDirect (SenderID i) "" aiSession;
     let peer := if bool_decide (ses_send session = SenderID i) then ses_receive session else ses_send session in
     authorityError (λ d, if bool_decide ((SenderID i, ses_uuid session) ∈ access d) then Some tt else None);;
     mret (ses_uuid session, pb.MkDestination pb.RECEIVE_TYPE_USER peer, [SenderID i; peer])
   else
     match InDestination i with
     | None => tx_err ErrDatabase
     | Some dest =>
       if pb.DestReceiveType dest =? pb.RECEIVE_TYPE_GROUP then
         '(group, members) ← lockGroup (SenderID i) (pb.DestReceiveId dest);
         mret (g_uuid group, dest, members)
       else
         session ← lockDirect (SenderID i) (pb.DestReceiveId dest) "";
         mret (ses_uuid session, dest, [SenderID i; pb.DestReceiveId dest])
     end).
Definition truncate_micro (ns : Z) : Z := ns / 1000 * 1000.
(** The body of the transaction; [fresh] is the random UUID, [now] the clock. *)
Definition save_body (fresh : string) (now : Z) (i : Input) (aiSession : string) (origin : Z) : Tx Saved :=
  (lockUser (SenderID i);;
   '(session, dest, recipients) ← choose i aiSession;
   let recipients := sortedUnique recipients in
   requireUsers recipients;;
   let fingerprint := fingerprintV1 dest (InContent i) origin in
   existing ← query (λ d, find (sent_by (SenderID i) (InClientMessageID i)) (messages d));
   match existing with
   | Some row =>
     guard (bool_decide (RequestFingerprint row = fingerprint)) ErrConflict;;
     snapshot ← tx_lift (decodeRecipients (RecipientIDs row));
     view ← tx_lift (messageView row);
     mret (MkSaved view snapshot true)
   | None =>
     row ← create (MkRow 0 ("M" +:+ fresh) session MessageTypeText (InContent i) origin (SenderID i)
                      (pb.DestReceiveId dest) (truncate_micro now) (InClientMessageID i) fingerprint
                      (print_array (print_string <$> recipients)));
     view ← tx_lift (messageView row);
     mret (MkSaved view recipients false)
   end).

(** [Transaction]: an error of the body or of the commit rolls back all but the counter;
    a commit whose answer is lost is an error that has happened. *)
Definition transaction {A} (c : commit) (m : Tx A) (d : database) : result store_error A * database :=
  match m (d, 0%nat) with
  | (Ok a, (d', _)) =>
    match c with
    | Committed => (Ok a, d')
    | CommitLost => (Err ErrDatabase, d')
    | RolledBack => (Err ErrDatabase, set_next_id (next_id d') d)
    end
  | (Err e, (d', _)) => (Err e, set_next_id (next_id d') d)
  end.

Definition Save (c : commit) (fresh : string) (now : Z) (i : Input) (d : database) : result store_error Saved * database :=
  match validateInput i with
  | Err e => (Err e, d)
  | Ok _ => transaction c (save_body fresh now i "" MessageOriginUser) d
  end.
Definition SaveAI (c : commit) (fresh : string) (now : Z) (user session clientID content : string) (d : database)
  : result store_error Saved * database :=
  let user := trim_space user in
  let session := trim_space session in
  let content := trim_space content in
  if negb (validID user "U") || negb (validID session "S") || negb (validUUID clientID) || negb (validText content)
     || (4000 <? rune_count content)
  then (Err ErrInvalid, d)
  else transaction c (save_body fresh now (MkInput user clientID None content) session MessageOriginAI) d.

(** ** Sync *)

Fixpoint page_rows (conversation cursor : string) (rows : list message) : result store_error (list im.Message * string) :=
  match rows with
  | [] => Ok ([], cursor)
  | row :: rows' =>
    view ← messageView row;
    '(ms, next) ← page_rows conversation (encodeCursor conversation (ID row)) rows';
    Ok (publicMessage view :: ms, next)
  end.
Definition rows_after (session : string) (after : Z) (d : database) : list message :=
  filter (λ r, SessionID r = session ∧ after < ID r) (messages d).
Definition sync_body (user conversation cursor session : string) (group : bool) (after limit : Z) : Tx SyncPage :=
  (lockUser user;;
   (if group then '(_, _) ← lockGroup user session; mret tt
    else _ ← lockDirect user "" session; mret tt);;
   rows ← query (λ d, take (Z.to_nat (limit + 1)) (rows_after session after d));
   let more := limit <? slen rows in
   let rows := if more then take (Z.to_nat limit) rows else rows in
   '(ms, next) ← tx_lift (page_rows conversation cursor rows);
   mret (MkSyncPage conversation ms next more)).
Definition Sync (c : commit) (user conversation cursor : string) (limit : Z) (d : database)
  : result store_error SyncPage * database :=
  if negb (validID user "U") || (limit <? 0) || (500 <? limit) then (Err ErrInvalid, d)
  else
    match parseConversation conversation with
    | Err e => (Err e, d)
    | Ok (session, group) =>
      match decodeCursor conversation cursor with
      | Err e => (Err e, d)
      | Ok after =>
        let limit := if limit =? 0 then 100 else limit in
        transaction c (sync_body user conversation cursor session group after limit) d
      end
    end.
End Store.
