(* ===== verification/MessageStoreProofs.v ===== *)
(** * Messages are saved once and read back in order *)
From S2P Require Import Prelude GoStd GoTime GoText External Json Dto JsonPrint JsonRound Samples MessageStore.
Local Open Scope Z_scope.

(** ** Recipients *)

Lemma sort_strings_spec l : StronglySorted String.le (sort_strings l) ∧ sort_strings l ≡ₚ l.
Proof. split; [apply StronglySorted_merge_sort; apply _|apply merge_sort_Permutation]. Qed.
(** Ids in strictly increasing order, none below [prev]. *)
Definition above (prev : option string) (l : list string) : Prop :=
  match prev with Some p => Forall (strict String.le p) l | None => True end.
Lemma dedup_spec prev l :
  StronglySorted String.le l → match prev with Some p => Forall (String.le p) l | None => True end →
  StronglySorted (strict String.le) (dedup prev l) ∧ above prev (dedup prev l)
  ∧ ∀ x, x ∈ dedup prev l ↔ x ∈ l ∧ prev ≠ Some x.
Proof.
  revert prev. induction l as [|a l IH]; intros prev Hs Hp; cbn [dedup].
  { split_and!; [constructor|destruct prev; cbn; constructor|]. set_solver. }
  apply StronglySorted_inv in Hs as [Hs Ha]. case_bool_decide as Heq.
  - subst prev. destruct (IH (Some a) Hs Ha) as (?&?&Hin). split_and!; [done|done|]. intros x. rewrite Hin. set_solver.
  - destruct (IH (Some a) Hs Ha) as (Hss&Hab&Hin). cbn in Hab. split_and!.
    + by constructor.
    + destruct prev as [p|]; [|done]. cbn. apply Forall_cons in Hp as [Hpa Hp].
      assert (strict String.le p a) as Hlt by (split; [done|intros Hap; apply Heq; f_equal; by apply (anti_symm String.le)]).
      constructor; [done|]. eapply Forall_impl; [exact Hab|]. intros x Hx. by etrans.
    + intros x. rewrite elem_of_cons, Hin, elem_of_cons. destruct (decide (x = a)) as [->|Hne]; [naive_solver|].
      split; [|naive_solver]. intros [->|[Hx _]]; [done|]. split; [by right|].
      intros ->. apply Forall_cons in Hp as [Hpa _]. rewrite Forall_forall in Ha.
      apply Hne, (anti_symm String.le); [done|by apply Ha].
Qed.
Lemma sortedUnique_spec l :
  StronglySorted (strict String.le) (sortedUnique l) ∧ ∀ x, x ∈ sortedUnique l ↔ x ∈ l.
Proof.
  destruct (sort_strings_spec l) as [Hs Hp]. destruct (dedup_spec None (sort_strings l) Hs I) as (?&_&Hin).
  split; [done|]. intros x. unfold sortedUnique. rewrite Hin, Hp. naive_solver.
Qed.
Lemma sortedUnique_elem l x : x ∈ sortedUnique l ↔ x ∈ l.
Proof. apply sortedUnique_spec. Qed.
Lemma strict_weak l : StronglySorted (strict String.le) l → StronglySorted String.le l.
Proof.
  induction 1 as [|x l _ IH Hx]; constructor; [done|]. eapply Forall_impl; [exact Hx|]. by intros y [? _].
Qed.
Lemma dedup_id prev l : StronglySorted (strict String.le) l → (∀ x, x ∈ l → prev ≠ Some x) → dedup prev l = l.
Proof.
  intros Hs. revert prev. induction Hs as [|x l _ IH Hx]; intros prev Hp; cbn [dedup]; [done|].
  rewrite bool_decide_false by (apply Hp, list_elem_of_here). f_equal. apply IH. intros y Hy [= ->].
  rewrite Forall_forall in Hx. by destruct (Hx y Hy).
Qed.
Lemma sortedUnique_id l : StronglySorted (strict String.le) l → sortedUnique l = l.
Proof.
  intros Hs. unfold sortedUnique. destruct (sort_strings_spec l) as [Hss Hp].
  rewrite (StronglySorted_unique String.le _ l Hss (strict_weak _ Hs) Hp). by apply dedup_id.
Qed.

Section Text.
Context `{External, !ExternalLaws _}.

(** ** Identifiers are plain text *)

Lemma stored_uuid_plain s : validUUID s = true → plain s = true.
Proof.
  unfold validUUID. rewrite !andb_true_iff. intros [[Hl%Z.eqb_eq _] Hu]. by apply valid_uuid_plain.
Qed.
Lemma stored_id_plain s p : plain_byte (byte_val p) = true → validID s p = true → plain s = true.
Proof.
  unfold validID. rewrite !andb_true_iff. intros Hp [[_ Hh] Hu]. destruct s as [|c s]; [done|].
  cbn in Hh. apply bool_decide_eq_true in Hh as ->. unfold plain. cbn [bytes forallb]. rewrite Hp.
  by apply stored_uuid_plain in Hu.
Qed.

(** ** The cursor *)

Lemma parse_conversation_plain conversation r :
  parseConversation conversation = Ok r → plain conversation = true.
Proof.
  assert (∀ p q r', plain p = true → plain_byte (byte_val q) = true →
    (match cut_prefix p conversation with
     | Some id => if validID id q then Ok r' else Err ErrInvalid | None => Err ErrInvalid end) = Ok r →
    plain conversation = true) as Hone.
  { intros p q r' Hp Hq. destruct (cut_prefix p conversation) as [id|] eqn:Hc; [|done].
    apply cut_prefix_Some in Hc as ->. destruct (validID id q) eqn:Hv; [|done]. intros _.
    by rewrite plain_app, Hp, (stored_id_plain _ _ Hq Hv). }
  unfold parseConversation. intros Hr.
  destruct (cut_prefix "direct:" conversation) as [id|] eqn:Hc.
  - destruct (validID id "S") eqn:Hv.
    + apply (Hone "direct:" "S"%char (id, false)); [done|done|]. by rewrite Hc, Hv.
    + destruct (cut_prefix "group:" conversation) as [gid|] eqn:Hg; [|done].
      apply (Hone "group:" "G"%char (gid, true)); [done|done|]. by rewrite Hg.
  - destruct (cut_prefix "group:" conversation) as [gid|] eqn:Hg; [|done].
    apply (Hone "group:" "G"%char (gid, true)); [done|done|]. by rewrite Hg.
Qed.

Lemma cursor_parses conversation n :
  plain conversation = true → 0 < n →
  parse (cursor_json conversation n)
  = Some (JObj [("v", JNum "1"); ("conversation_id", JStr conversation conversation);
                ("after_position", JStr (format_int n) (format_int n))]).
Proof.
  intros Hc Hn. apply (parse_object 1); [|cbn; lia]. repeat constructor; apply member_intro; try done.
  - apply (parses_uint 1).
  - by apply parses_string.
  - apply parses_string. unfold format_int. assert (n <? 0 = false) as -> by (apply Z.ltb_ge; lia). apply plain_digits.
Qed.

Lemma decode_encode_cursor conversation r n :
  parseConversation conversation = Ok r → 0 < n ≤ max_int64 →
  decodeCursor conversation (encodeCursor conversation n) = Ok n.
Proof.
  intros Hconv%parse_conversation_plain Hn. unfold decodeCursor.
  rewrite bool_decide_false.
  2:{ intros Heq. pose proof (base64_round_trip (cursor_json conversation n)) as Hr. unfold encodeCursor in Heq.
      rewrite Heq in Hr. discriminate Hr. }
  unfold encodeCursor at 1. rewrite base64_round_trip, cursor_parses by (done || lia). cbn [mbind option_bind].
  assert (decode_struct cursor_field (MkSyncCursor 0 "" "")
    (JObj [("v", JNum "1"); ("conversation_id", JStr conversation conversation);
           ("after_position", JStr (format_int n) (format_int n))])
    = Some (MkSyncCursor 1 conversation (format_int n))) as -> by done.
  cbn [Version CursorConversation AfterPosition]. rewrite bool_decide_false by naive_solver. cbn [Z.eqb Pos.eqb negb orb].
  rewrite parse_format_int by done. rewrite !bool_decide_false by naive_solver.
  assert (n <=? 0 = false) as -> by (apply Z.leb_gt; lia). done.
Qed.

(** a cursor is a faithful position.  What [encodeCursor] makes of a position
    decodes to that position, in its conversation and in no other; and a cursor that
    decodes to a position is exactly the one [encodeCursor] makes of it. *)
Theorem cursor_round_trip conversation r n :
  parseConversation conversation = Ok r → 0 < n ≤ max_int64 →
  decodeCursor conversation (encodeCursor conversation n) = Ok n
  ∧ (∀ other, other ≠ conversation → decodeCursor other (encodeCursor conversation n) = Err ErrInvalid)
  ∧ (∀ cursor, decodeCursor conversation cursor = Ok n → cursor = encodeCursor conversation n).
Proof.
  intros Hconv Hn. split; [by eapply decode_encode_cursor|]. split.
  - intros other Hne. apply parse_conversation_plain in Hconv. unfold decodeCursor.
    destruct (bool_decide_reflect (encodeCursor conversation n = "")) as [Heq|_].
    { pose proof (base64_round_trip (cursor_json conversation n)) as Hr. unfold encodeCursor in Heq.
      rewrite Heq in Hr. discriminate Hr. }
    unfold encodeCursor at 1. rewrite base64_round_trip, cursor_parses by (done || lia). cbn [mbind option_bind].
    assert (decode_struct cursor_field (MkSyncCursor 0 "" "")
      (JObj [("v", JNum "1"); ("conversation_id", JStr conversation conversation);
             ("after_position", JStr (format_int n) (format_int n))])
      = Some (MkSyncCursor 1 conversation (format_int n))) as -> by done.
    cbn [Version CursorConversation]. by rewrite bool_decide_true by done.
  - intros cursor. unfold decodeCursor. case_bool_decide; [intros [= <-]; lia|].
    destruct (base64_raw_url_decode cursor) as [raw|]; [|done]. destruct (v ← parse raw; _) as [c|]; [|done].
    destruct (_ || _); [done|]. destruct (parse_int 64 _) as [after|]; [|done].
    destruct (_ || _) eqn:Hor; [done|]. intros [= ->]. apply orb_false_iff in Hor as [_ Hor].
    apply bool_decide_eq_false in Hor. symmetry. by apply dec_stable.
Qed.

(** ** The snapshot of the recipients *)

Lemma decode_ids_print ids :
  Forall (λ id, plain id = true) ids → decode_ids (print_array (print_string <$> ids)) = Some ids.
Proof.
  intros Hids. unfold decode_ids. rewrite (parse_array 1 _ ((λ id, JStr id id) <$> ids)); [|..|lia].
  - cbn [mbind option_bind]. unfold decode_list, decode_slice. 
    assert (∀ old, decode_elements decode_string "" old ((λ id, JStr id id) <$> ids) = Some ids) as Hd.
    { clear. induction ids as [|id ids IH]; intros old; [done|]. cbn. by rewrite IH. }
    rewrite Hd. done.
  - clear -Hids. induction Hids as [|id ids Hid _ IH]; constructor; [by apply parses_string|done].
Qed.
Lemma decodeRecipients_print ids :
  ids ≠ [] → Forall (λ id, validID id "U" = true) ids → StronglySorted (strict String.le) ids →
  decodeRecipients (print_array (print_string <$> ids)) = Ok ids.
Proof.
  intros Hne Hv Hs. unfold decodeRecipients. rewrite decode_ids_print.
  - rewrite bool_decide_true, sortedUnique_id, bool_decide_true by done.
    assert (forallb (λ id, validID id "U") ids = true) as -> by by apply forallb_Forall. done.
  - eapply Forall_impl; [exact Hv|]. intros id. by apply stored_id_plain.
Qed.
End Text.

(** ** Reading under a transaction *)

Definition no_fault : nat → bool := λ _, false.
(** The tables that say who may write where. *)
Definition same_authority (d d' : database) : Prop :=
  users d' = users d ∧ sessions d' = sessions d ∧ groups d' = groups d ∧ access d' = access d.
Lemma same_authority_refl d : same_authority d d.
Proof. done. Qed.

(** [m] only reads, and what it found under faults, [m'] finds without any in tables with
    the same authority. *)
Definition reads {A} (m m' : Tx A) : Prop :=
  ∀ d n r d1 n1, m (d, n) = (r, (d1, n1)) →
    d1 = d ∧ ∀ a, r = Ok a → ∀ d' n', same_authority d d' → ∃ n2, m' (d', n') = (Ok a, (d', n2)).

Section Reads.
Context `{External} (fault : nat → bool).

Lemma reads_ret {A} (a : A) : reads (mret a) (mret a).
Proof. intros d n r d1 n1 [= <- <- <-]. split; [done|]. intros ? [= <-] d' n' _. by exists n'. Qed.
Lemma reads_err {A} (e : store_error) : reads (A := A) (tx_err e) (tx_err e).
Proof. intros d n r d1 n1 [= <- <- <-]. by split. Qed.
Lemma reads_bind {A B} (m m' : Tx A) (f f' : A → Tx B) :
  reads m m' → (∀ a, reads (f a) (f' a)) → reads (m ≫= f) (m' ≫= f').
Proof.
  intros Hm Hf d n r d1 n1. unfold mbind, Tx_bind. destruct (m (d, n)) as [[a|e] [d2 n2]] eqn:Hrun.
  - destruct (Hm _ _ _ _ _ Hrun) as [-> Hm']. intros Hr. destruct (Hf a _ _ _ _ _ Hr) as [-> Hf']. split; [done|].
    intros b Hb d' n' Hd. destruct (Hm' a eq_refl d' n' Hd) as [k ->]. by apply Hf'.
  - destruct (Hm _ _ _ _ _ Hrun) as [-> _]. intros [= <- <- <-]. by split.
Qed.
Lemma reads_query {A} (f : database → A) :
  (∀ d d', same_authority d d' → f d' = f d) → reads (query fault f) (query no_fault f).
Proof.
  intros Hf d n r d1 n1. unfold query. destruct (fault n); intros [= <- <- <-]; (split; [done|]); [done|].
  intros a [= <-] d' n' Hd. cbn. rewrite (Hf d d' Hd). by eexists.
Qed.
Lemma reads_guard b e : reads (guard b e) (guard b e).
Proof. destruct b; [apply reads_ret|apply reads_err]. Qed.
Lemma reads_take {A} e (f : database → option A) :
  (∀ d d', same_authority d d' → f d' = f d) → reads (take_row fault e f) (take_row no_fault e f).
Proof.
  intros Hf. apply reads_bind; [by apply reads_query|]. intros [a|]; [apply reads_ret|apply reads_err].
Qed.
Lemma reads_lockUser u : reads (lockUser fault u) (lockUser no_fault u).
Proof. apply reads_take. intros d d' (->&_). done. Qed.
Lemma reads_lockDirect u p s : reads (lockDirect fault u p s) (lockDirect no_fault u p s).
Proof.
  apply reads_bind; [apply reads_take; intros d d' (_&Hs&_); unfold find_direct; by rewrite Hs|].
  intros r. apply reads_bind; [apply reads_guard|]. intros _. apply reads_bind; [apply reads_guard|].
  intros _. apply reads_ret.
Qed.
Lemma reads_lockGroup u i : reads (lockGroup fault u i) (lockGroup no_fault u i).
Proof.
  apply reads_bind; [apply reads_take; by intros d d' (_&_&->&_)|]. intros g.
  apply reads_bind; [apply reads_guard|]. intros _. destruct (decode_ids _); [|apply reads_err].
  apply reads_bind; [apply reads_guard|]. intros _. apply reads_bind; [apply reads_guard|]. intros _. apply reads_ret.
Qed.
Lemma reads_choose i ai : reads (choose fault i ai) (choose no_fault i ai).
Proof.
  unfold choose. destruct (bool_decide _).
  - apply reads_bind; [apply reads_lockDirect|]. intros r. apply reads_bind; [|intros _; apply reads_ret].
    apply reads_take. by intros d d' (_&_&_&->).
  - destruct (InDestination i) as [dest|]; [|apply reads_err]. destruct (_ =? _).
    + apply reads_bind; [apply reads_lockGroup|]. intros [g ms]. apply reads_ret.
    + apply reads_bind; [apply reads_lockDirect|]. intros r. apply reads_ret.
Qed.
Lemma reads_requireUsers ids : reads (requireUsers fault ids) (requireUsers no_fault ids).
Proof.
  unfold requireUsers. generalize (length ids) as n. intros n. revert ids.
  induction n as [|n IH]; intros [|id ids]; try apply reads_ret. cbn [requireUsers_from].
  apply reads_bind; [apply reads_query; by intros d d' (->&_)|]. intros c.
  apply reads_bind; [apply reads_guard|]. intros _. apply IH.
Qed.

(** ** Inverting a run *)

Lemma bind_Ok {A B} (m : Tx A) (f : A → Tx B) s b s' :
  (m ≫= f) s = (Ok b, s') ↔ ∃ a s1, m s = (Ok a, s1) ∧ f a s1 = (Ok b, s').
Proof. unfold mbind, Tx_bind. destruct (m s) as [[a|e] s1]; naive_solver. Qed.
Lemma guard_Ok b e s u s' : guard b e s = (Ok u, s') ↔ b = true ∧ s' = s.
Proof. unfold guard. destruct b; [|naive_solver]. destruct u. unfold mret, Tx_ret. naive_solver. Qed.
Lemma query_Ok {A} (f : database → A) d n a d1 n1 :
  query fault f (d, n) = (Ok a, (d1, n1)) → a = f d ∧ d1 = d.
Proof. unfold query. destruct (fault n); naive_solver. Qed.
Lemma take_Ok {A} e (f : database → option A) d n a d1 n1 :
  take_row fault e f (d, n) = (Ok a, (d1, n1)) → f d = Some a ∧ d1 = d.
Proof.
  intros ([x|]&[d2 n2]&Hq&Hr)%bind_Ok; [|done]. apply query_Ok in Hq as [Hx ->]. injection Hr as -> -> _. by rewrite <-Hx.
Qed.

(** What authority a successful choice gives. *)
Record party (d : database) (user : string) (session : string) (dest : pb.Destination) (ids : list string) : Prop := Party {
  party_kind : pb.DestReceiveType dest ≠ pb.RECEIVE_TYPE_GROUP → ∃ r, r ∈ sessions d ∧ ses_type r = SessionTypeUser
    ∧ ses_uuid r = session ∧ validID session "S" = true
    ∧ ((ses_send r = user ∧ ses_receive r = pb.DestReceiveId dest) ∨ (ses_send r = pb.DestReceiveId dest ∧ ses_receive r = user))
    ∧ ids = [user; pb.DestReceiveId dest];
  party_group : pb.DestReceiveType dest = pb.RECEIVE_TYPE_GROUP → ∃ g members, g ∈ groups d ∧ g_uuid g = session
    ∧ session = pb.DestReceiveId dest ∧ g_status g = GroupStatusNormal
    ∧ decode_ids (g_members g) = Some members ∧ ids = sortedUnique members;
  party_valid : Forall (λ id, validID id "U" = true) ids;
  party_member : user ∈ ids
}.

Lemma find_direct_Some u p sid d r : find_direct u p sid d = Some r →
  r ∈ sessions d ∧ ses_type r = SessionTypeUser
  ∧ if bool_decide (sid ≠ "") then ses_uuid r = sid else pair_of u p r = true.
Proof.
  intros Hf. apply List.find_some in Hf as [Hin Hb]. split; [by apply list_elem_of_In|].
  apply andb_true_iff in Hb as [?%Z.eqb_eq Hb]. split; [done|]. destruct (bool_decide _); [|done].
  by apply bool_decide_eq_true in Hb.
Qed.
Lemma lockDirect_Ok u p sid d n r d1 n1 : lockDirect fault u p sid (d, n) = (Ok r, (d1, n1)) →
  d1 = d ∧ find_direct u p sid d = Some r
  ∧ (validID (ses_uuid r) "S" = true ∧ validID (ses_send r) "U" = true ∧ validID (ses_receive r) "U" = true)
  ∧ ses_send r ≠ ses_receive r ∧ (ses_send r = u ∨ ses_receive r = u).
Proof.
  intros (x&[d2 n2]&Hq&Hr)%bind_Ok. apply take_Ok in Hq as [Hf ->].
  apply bind_Ok in Hr as (?&?&[Hg ->]%guard_Ok&Hr). apply bind_Ok in Hr as (?&?&[Hg2 ->]%guard_Ok&Hr).
  injection Hr as -> -> _. rewrite !andb_true_iff, bool_decide_eq_true in Hg.
  rewrite orb_true_iff, !bool_decide_eq_true in Hg2. naive_solver.
Qed.
Lemma lockGroup_Ok u id d n g ms d1 n1 : lockGroup fault u id (d, n) = (Ok (g, ms), (d1, n1)) →
  d1 = d ∧ g ∈ groups d ∧ g_uuid g = id ∧ g_status g = GroupStatusNormal
  ∧ ∃ members, decode_ids (g_members g) = Some members ∧ ms = sortedUnique members
    ∧ Forall (λ m, validID m "U" = true) members ∧ u ∈ members.
Proof.
  intros (x&[d2 n2]&Hq&Hr)%bind_Ok. apply take_Ok in Hq as [Hf ->].
  apply List.find_some in Hf as [Hin Hid]. apply bool_decide_eq_true in Hid.
  apply bind_Ok in Hr as (?&?&[Hg%Z.eqb_eq ->]%guard_Ok&Hr).
  destruct (decode_ids (g_members x)) as [members|] eqn:Hm; [|done].
  apply bind_Ok in Hr as (?&?&[Hv ->]%guard_Ok&Hr). apply bind_Ok in Hr as (?&?&[Hu ->]%guard_Ok&Hr).
  injection Hr as -> <- <- _. apply andb_true_iff in Hv as [_ Hv]. apply forallb_Forall in Hv.
  apply bool_decide_eq_true in Hu. apply list_elem_of_In in Hin. naive_solver.
Qed.

Lemma choose_party i ai d n ses dest ids d1 n1 :
  validID (SenderID i) "U" = true →
  choose fault i ai (d, n) = (Ok (ses, dest, ids), (d1, n1)) →
  d1 = d ∧ party d (SenderID i) ses dest ids ∧ (ai = "" → InDestination i = Some dest)
  ∧ (ai ≠ "" → ses = ai ∧ (SenderID i, ses) ∈ access d ∧ pb.DestReceiveType dest = pb.RECEIVE_TYPE_USER).
Proof.
  intros Hsender Hrun. unfold choose in Hrun.
  destruct (bool_decide_reflect (ai ≠ "")) as [Hai|Hai].
  - apply bind_Ok in Hrun as (r&[d2 n2]&Hl&Hr).
    apply lockDirect_Ok in Hl as (->&Hf&(Hv1&Hv2&Hv3)&Hne&Hparty). apply find_direct_Some in Hf as (Hin&Ht&Hu).
    apply bind_Ok in Hr as (?&[d3 n3]&Ht2&Hr). apply take_Ok in Ht2 as [Hacc ->]. injection Hr as <- <- <- -> _.
    split; [done|]. split; [|split; [done|]].
    2:{ intros _. rewrite bool_decide_true in Hu by done. split; [done|]. split; [|done].
        by destruct (bool_decide_reflect ((SenderID i, ses_uuid r) ∈ access d1)). }
    constructor; cbn [pb.DestReceiveType pb.DestReceiveId].
    + intros _. exists r. split_and!; try done. destruct (bool_decide_reflect (ses_send r = SenderID i)); [left|right]; naive_solver.
    + done.
    + destruct (bool_decide_reflect (ses_send r = SenderID i)); repeat constructor; done.
    + apply list_elem_of_here.
  - destruct (InDestination i) as [dest0|]; [|done]. destruct (Z.eqb_spec (pb.DestReceiveType dest0) pb.RECEIVE_TYPE_GROUP).
    + apply bind_Ok in Hrun as ([g ms]&[d2 n2]&Hl&Hr). injection Hr as <- <- <- -> _.
      apply lockGroup_Ok in Hl as (->&Hin&Hid&Hst&members&Hm&->&Hv&Hu). split; [done|]. split; [|done].
      constructor; [done| | |by apply sortedUnique_elem].
      * intros _. exists g, members. by rewrite Hid.
      * apply Forall_forall. intros x Hx. rewrite sortedUnique_elem in Hx. rewrite Forall_forall in Hv. by apply Hv.
    + apply bind_Ok in Hrun as (r&[d2 n2]&Hl&Hr). injection Hr as <- <- <- -> _.
      apply lockDirect_Ok in Hl as (->&Hf&(Hv1&Hv2&Hv3)&Hne&Hparty). apply find_direct_Some in Hf as (Hin&Ht&Hu).
      rewrite bool_decide_false in Hu by (intros Hc; by apply Hc). unfold pair_of in Hu.
      rewrite orb_true_iff, !andb_true_iff, !bool_decide_eq_true in Hu.
      split; [done|]. split; [|done]. constructor; [|done| |apply list_elem_of_here].
      * intros _. exists r. split_and!; done || naive_solver.
      * repeat constructor; [done|]. destruct Hu as [[? Hp]|[Hp ?]]; by rewrite <-Hp.
Qed.

Lemma requireUsers_Ok ids d n u d1 n1 :
  NoDup (users d) → requireUsers fault ids (d, n) = (Ok u, (d1, n1)) → d1 = d ∧ (NoDup ids → ids ⊆ users d).
Proof.
  intros Hnd. unfold requireUsers. assert (length ids ≤ length ids)%nat as Hle by done. revert Hle.
  generalize (length ids) at 2 3 as k. intros k. revert ids n.
  induction k as [|k IH]; intros [|id ids] n Hle; cbn in Hle; try lia;
    try (intros [= _ -> _]; split; [done|intros _; set_solver]).
  cbn [requireUsers_from]. intros Hrun. apply bind_Ok in Hrun as (c&[d2 n2]&Hq&Hr).
  apply query_Ok in Hq as [-> ->]. apply bind_Ok in Hr as (?&?&[Hg ->]%guard_Ok&Hr).
  apply IH in Hr as [-> Hsub]; [|rewrite length_drop; cbn; lia]. split; [done|].
  intros Hids. set (l := id :: ids) in *. apply Z.eqb_eq in Hg.
  assert (NoDup (take 100 l) ∧ NoDup (drop 100 l)) as [Ht Hd].
  { rewrite <-(take_drop 100 l) in Hids. apply NoDup_app in Hids. naive_solver. }
  assert (filter (.∈ take 100 l) (users d) ≡ₚ take 100 l) as Hperm.
  { assert (filter (.∈ take 100 l) (users d) ⊆+ take 100 l) as Hsm.
    { apply NoDup_submseteq; [by apply NoDup_filter|]. intros y Hy. apply list_elem_of_filter in Hy. naive_solver. }
    apply submseteq_length_Permutation; [done|]. unfold slen in Hg. lia. }
  rewrite <-(take_drop 100 l). intros y [Hy|Hy]%elem_of_app; [|by apply Hsub].
  rewrite <-Hperm in Hy. apply list_elem_of_filter in Hy. naive_solver.
Qed.
End Reads.

(** ** Saving *)

(** Between two users, nobody else is a recipient. *)
Definition direct_within `{External} (r : message) : Prop :=
  ∀ v dest ids, messageView r = Ok v → pb.Destination_ v = Some dest →
    pb.DestReceiveType dest = pb.RECEIVE_TYPE_USER → decodeRecipients (RecipientIDs r) = Ok ids →
    ids ⊆ [SendID r; ReceiveID r].
(** The invariant of the tables: ids grow and stay below the counter, a client id names
    one message of its sender, every message can be viewed with its recipients. *)
Record db_ok `{External} (d : database) : Prop := DbOk {
  ok_users : NoDup (users d);
  ok_next : 0 < next_id d;
  ok_order : StronglySorted Z.lt (ID <$> messages d);
  ok_ids : Forall (λ r, 0 < ID r < next_id d) (messages d);
  ok_keys : NoDup ((λ r, (SendID r, ClientMessageID r)) <$> messages d);
  ok_rows : Forall (λ r, (∃ v, messageView r = Ok v) ∧ ∃ ids, decodeRecipients (RecipientIDs r) = Ok ids) (messages d);
  ok_direct : Forall direct_within (messages d)
}.

Section Save.
Context `{External, !ExternalLaws _}.

(** The row a new message gets. *)
Definition new_row (d : database) (fresh : string) (now : Z) (i : Input) (origin : Z) (session : string)
    (dest : pb.Destination) (ids : list string) : message :=
  MkRow (next_id d) ("M" +:+ fresh) session MessageTypeText (InContent i) origin (SenderID i) (pb.DestReceiveId dest)
    (truncate_micro now) (InClientMessageID i) (fingerprintV1 dest (InContent i) origin)
    (print_array (print_string <$> ids)).
(** What a successful save has found out, and done. *)
Record saved_as (d : database) (fresh : string) (now : Z) (i : Input) (ai : string) (origin : Z) (sv : Saved)
    (d' : database) (session : string) (dest : pb.Destination) (ids : list string) : Prop := SavedAs {
  sa_sender : SenderID i ∈ users d;
  sa_party : party d (SenderID i) session dest ids;
  sa_dest : ai = "" → InDestination i = Some dest;
  sa_access : ai ≠ "" → session = ai ∧ (SenderID i, session) ∈ access d ∧ pb.DestReceiveType dest = pb.RECEIVE_TYPE_USER;
  sa_users : sortedUnique ids ⊆ users d;
  sa_message :
    (∃ row, row ∈ messages d ∧ sent_by (SenderID i) (InClientMessageID i) row = true
       ∧ RequestFingerprint row = fingerprintV1 dest (InContent i) origin
       ∧ decodeRecipients (RecipientIDs row) = Ok (Recipients sv) ∧ messageView row = Ok (SavedMessage sv)
       ∧ Replayed sv = true ∧ d' = d)
    ∨ (Forall (λ r, sent_by (SenderID i) (InClientMessageID i) r = false) (messages d)
       ∧ Recipients sv = sortedUnique ids ∧ Replayed sv = false
       ∧ (let row := new_row d fresh now i origin session dest (sortedUnique ids) in
          messageView row = Ok (SavedMessage sv)
          ∧ d' = set_next_id (next_id d + 1) (set_messages (messages d ++ [row]) d)))
}.

Lemma find_None_Forall {A} (f : A → bool) l : find f l = None → Forall (λ x, f x = false) l.
Proof.
  intros Hf. apply Forall_forall. intros x Hx%list_elem_of_In. by apply (find_none f l Hf).
Qed.

(** The part of the body that reads. *)
Definition granted (fault : nat → bool) (i : Input) (ai : string) : Tx (string * pb.Destination * list string) :=
  _ ← lockUser fault (SenderID i);
  '(session, dest, ids) ← choose fault i ai;
  _ ← requireUsers fault (sortedUnique ids);
  mret (session, dest, ids).
Lemma reads_granted fault i ai : reads (granted fault i ai) (granted no_fault i ai).
Proof.
  apply reads_bind; [apply reads_lockUser|]. intros _. apply reads_bind; [apply reads_choose|].
  intros [[session dest] ids]. apply reads_bind; [apply reads_requireUsers|]. intros _. apply reads_ret.
Qed.
Definition record_message (fault : nat → bool) (fresh : string) (now : Z) (i : Input) (origin : Z)
    (choice : string * pb.Destination * list string) : Tx Saved :=
  let '(session, dest, ids) := choice in
  existing ← query fault (λ d, find (sent_by (SenderID i) (InClientMessageID i)) (messages d));
  match existing with
  | Some row =>
    guard (bool_decide (RequestFingerprint row = fingerprintV1 dest (InContent i) origin)) ErrConflict;;
    snapshot ← tx_lift (decodeRecipients (RecipientIDs row));
    view ← tx_lift (messageView row);
    mret (MkSaved view snapshot true)
  | None =>
    row ← create fault (MkRow 0 ("M" +:+ fresh) session MessageTypeText (InContent i) origin (SenderID i)
                    (pb.DestReceiveId dest) (truncate_micro now) (InClientMessageID i)
                    (fingerprintV1 dest (InContent i) origin) (print_array (print_string <$> sortedUnique ids)));
    view ← tx_lift (messageView row);
    mret (MkSaved view (sortedUnique ids) false)
  end.
Lemma bind_assoc {A B C} (m : Tx A) (f : A → Tx B) (g : B → Tx C) s :
  ((m ≫= f) ≫= g) s = (m ≫= λ a, f a ≫= g) s.
Proof. unfold mbind, Tx_bind. by destruct (m s) as [[a|e] s1]. Qed.
Lemma bind_ext {A B} (m : Tx A) (f g : A → Tx B) s : (∀ a s, f a s = g a s) → (m ≫= f) s = (m ≫= g) s.
Proof. intros Hfg. unfold mbind, Tx_bind. by destruct (m s) as [[a|e] s1]. Qed.
Lemma save_body_split fault fresh now i ai origin s :
  save_body fault fresh now i ai origin s = (granted fault i ai ≫= record_message fault fresh now i origin) s.
Proof.
  unfold granted, save_body. rewrite bind_assoc. apply bind_ext. intros _ s1.
  rewrite bind_assoc. apply bind_ext. intros [[session dest] ids] s2.
  rewrite bind_assoc. by apply bind_ext.
Qed.

Lemma record_new fault fresh now i origin session dest ids d n sv d' n' :
  record_message fault fresh now i origin (session, dest, ids) (d, n) = (Ok sv, (d', n')) →
  (∃ row, row ∈ messages d ∧ sent_by (SenderID i) (InClientMessageID i) row = true
     ∧ RequestFingerprint row = fingerprintV1 dest (InContent i) origin
     ∧ decodeRecipients (RecipientIDs row) = Ok (Recipients sv) ∧ messageView row = Ok (SavedMessage sv)
     ∧ Replayed sv = true ∧ d' = d)
  ∨ (Forall (λ r, sent_by (SenderID i) (InClientMessageID i) r = false) (messages d)
     ∧ Recipients sv = sortedUnique ids ∧ Replayed sv = false
     ∧ (let row := new_row d fresh now i origin session dest (sortedUnique ids) in
        messageView row = Ok (SavedMessage sv)
        ∧ d' = set_next_id (next_id d + 1) (set_messages (messages d ++ [row]) d))).
Proof.
  unfold record_message. intros (e&[d2 n2]&Hq&Hr)%bind_Ok. apply query_Ok in Hq as [-> ->].
  destruct (find _ (messages d)) as [row|] eqn:Hf.
  - left. apply List.find_some in Hf as [Hin Hs]. apply bind_Ok in Hr as (?&?&[Hg ->]%guard_Ok&Hr).
    apply bool_decide_eq_true in Hg. unfold tx_lift in Hr.
    apply bind_Ok in Hr as (ids'&?&[= Hd <-]&Hr). apply bind_Ok in Hr as (v&?&[= Hv <-]&Hr). injection Hr as <- <- _.
    exists row. split_and!; try done. by apply list_elem_of_In.
  - right. split; [by apply find_None_Forall|]. apply bind_Ok in Hr as (row&[d3 n3]&Hc&Hr).
    unfold create in Hc. destruct (fault n2); [done|]. destruct (existsb _ _); [done|]. injection Hc as <- <- _.
    unfold tx_lift in Hr. apply bind_Ok in Hr as (v&?&[= Hv <-]&Hr). injection Hr as <- <- _. done.
Qed.

Lemma save_body_Ok fault fresh now i ai origin d n sv d' n' :
  NoDup (users d) → validID (SenderID i) "U" = true →
  save_body fault fresh now i ai origin (d, n) = (Ok sv, (d', n')) →
  ∃ session dest ids n1, granted fault i ai (d, n) = (Ok (session, dest, ids), (d, n1))
    ∧ saved_as d fresh now i ai origin sv d' session dest ids.
Proof.
  intros Hnd Hsender. rewrite save_body_split. intros ([[session dest] ids]&[d1 n1]&Hg&Hr)%bind_Ok.
  pose proof (reads_granted _ _ _ _ _ _ _ _ Hg) as [-> _]. exists session, dest, ids, n1. split; [done|].
  unfold granted in Hg. apply bind_Ok in Hg as (?&[d2 n2]&Hu&Hg). apply take_Ok in Hu as [Hu ->].
  destruct (bool_decide_reflect (SenderID i ∈ users d)) as [Hin|]; [|done]. clear Hu.
  apply bind_Ok in Hg as ([[session' dest'] ids']&[d3 n3]&Hc&Hg).
  destruct (choose_party _ _ _ _ _ _ _ _ _ _ Hsender Hc) as (->&Hparty&Hdest&Hacc).
  apply bind_Ok in Hg as (?&[d4 n4]&Hreq&Hg). injection Hg as -> -> -> -> _.
  apply requireUsers_Ok in Hreq as [_ Hsub]; [|done]. constructor; try done.
  - apply Hsub. destruct (sortedUnique_spec ids) as [Hs _]. clear -Hs.
    induction Hs as [|x l _ IH Hx]; constructor; [|done]. intros Hin. rewrite Forall_forall in Hx. by destruct (Hx x Hin).
  - by apply record_new in Hr.
Qed.

Lemma validateInput_sender i u : validateInput i = Ok u → validID (SenderID i) "U" = true ∧ is_Some (InDestination i).
Proof.
  unfold validateInput. destruct (InDestination i) as [dest|]; [|done]. intros [Hv _]%ensure_bind_Ok.
  rewrite !andb_true_iff in Hv. split; [naive_solver|done].
Qed.
Lemma party_snapshot d user session dest ids :
  party d user session dest ids → decodeRecipients (print_array (print_string <$> sortedUnique ids)) = Ok (sortedUnique ids).
Proof.
  intros Hp. pose proof (party_member _ _ _ _ _ Hp) as Hm. apply decodeRecipients_print.
  - intros Hnil. apply (sortedUnique_elem ids user) in Hm. rewrite Hnil in Hm. by apply not_elem_of_nil in Hm.
  - apply Forall_forall. intros x Hx. rewrite sortedUnique_elem in Hx.
    pose proof (party_valid _ _ _ _ _ Hp) as Hv. rewrite Forall_forall in Hv. by apply Hv.
  - apply sortedUnique_spec.
Qed.

(** A view of the user kind is of a row between two users. *)
Lemma messageView_Ok r v : messageView r = Ok v →
  v = pb.MkMessageView (UUID r) (pb.ConversationId v) (SessionID r) (SendID r) (pb.Destination_ v)
        pb.MESSAGE_TYPE_TEXT (Content r) (pb.Origin v) (Some (timestamp_of_ns (CreatedAt r))) (ID r)
  ∧ 0 < ID r ∧ validID (UUID r) "M" = true ∧ validID (SendID r) "U" = true ∧ validText (Content r) = true
  ∧ CreatedAt r ≠ zero_ns ∧ timestamp_check_valid (timestamp_of_ns (CreatedAt r)) = true
  ∧ (pb.Origin v = pb.MESSAGE_ORIGIN_USER ∨ pb.Origin v = pb.MESSAGE_ORIGIN_AI)
  ∧ ((pb.Destination_ v = Some (pb.MkDestination pb.RECEIVE_TYPE_GROUP (ReceiveID r))
      ∧ validID (SessionID r) "G" = true ∧ ReceiveID r = SessionID r
      ∧ pb.ConversationId v = "group:" +:+ SessionID r)
     ∨ (pb.Destination_ v = Some (pb.MkDestination pb.RECEIVE_TYPE_USER (ReceiveID r))
        ∧ validID (SessionID r) "S" = true ∧ validID (ReceiveID r) "U" = true ∧ SendID r ≠ ReceiveID r
        ∧ pb.ConversationId v = "direct:" +:+ SessionID r)).
Proof.
  unfold messageView. rewrite ensure_bind_Ok, !andb_true_iff, Z.ltb_lt, negb_true_iff, Z.eqb_neq.
  intros [(((((?&?)&?)&?)&_)&?) Hv]. apply result_bind_Ok in Hv as (o&Ho&Hv).
  apply result_bind_Ok in Hv as ([kind conv]&Hk&Hv). cbv zeta in Hv. rewrite ensure_bind_Ok in Hv.
  destruct Hv as [? [= <-]]. cbn. split; [done|]. split_and!; try done.
  - destruct (_ =? _); [left; by injection Ho|]. destruct (_ =? _); [right; by injection Ho|done].
  - destruct (validID (SessionID r) "G") eqn:Hg.
    + apply ensure_bind_Ok in Hk as [Hr%bool_decide_eq_true [= <- <-]]. by left.
    + rewrite ensure_bind_Ok, !andb_true_iff, bool_decide_eq_true in Hk. destruct Hk as [((?&?)&?) [= <- <-]]. by right.
Qed.
Lemma validID_prefix s p q : validID s p = true → validID s q = true → p = q.
Proof.
  unfold validID. rewrite !andb_true_iff. intros [[_ Hp] _] [[_ Hq] _]. destruct s as [|c s]; [done|].
  cbn in Hp, Hq. apply bool_decide_eq_true in Hp, Hq. congruence.
Qed.
Lemma party_direct d fresh now i origin session dest ids :
  party d (SenderID i) session dest ids → direct_within (new_row d fresh now i origin session dest (sortedUnique ids)).
Proof.
  intros Hp v dst snap Hv Hdst Hkind. cbn [RecipientIDs new_row]. rewrite (party_snapshot _ _ _ _ _ Hp).
  intros [= <-]. apply messageView_Ok in Hv as (_&_&_&_&_&_&_&_&[(Hd&_)|(_&Hs&Hr&_)]);
    [rewrite Hd in Hdst; by injection Hdst as <-|].
  cbn [SendID ReceiveID new_row SessionID] in *. intros x. rewrite sortedUnique_elem.
  destruct (decide (pb.DestReceiveType dest = pb.RECEIVE_TYPE_GROUP)) as [Hg|Hn].
  - destruct (party_group _ _ _ _ _ Hp Hg) as (g&members&_&_&Hses&_).
    subst session. by pose proof (validID_prefix _ _ _ Hs Hr).
  - destruct (party_kind _ _ _ _ _ Hp Hn) as (_&_&_&_&_&_&->). done.
Qed.

(** Tables in which the message has been saved. *)
Definition holds (d : database) (i : Input) (fp : list Z) (sv : Saved) : Prop :=
  ∃ row, row ∈ messages d ∧ sent_by (SenderID i) (InClientMessageID i) row = true
    ∧ RequestFingerprint row = fp
    ∧ decodeRecipients (RecipientIDs row) = Ok (Recipients sv) ∧ messageView row = Ok (SavedMessage sv).
Lemma sent_by_true s c r : sent_by s c r = true ↔ (SendID r, ClientMessageID r) = (s, c).
Proof. unfold sent_by. rewrite andb_true_iff, !bool_decide_eq_true. naive_solver. Qed.
Lemma find_unique s c l row :
  NoDup ((λ r, (SendID r, ClientMessageID r)) <$> l) → row ∈ l → sent_by s c row = true →
  find (sent_by s c) l = Some row ∧ filter (λ r, sent_by s c r = true) l = [row].
Proof.
  intros Hnd. induction l as [|r l IH]; intros Hin Hs; [by apply not_elem_of_nil in Hin|].
  cbn [fmap list_fmap] in Hnd. apply NoDup_cons in Hnd as [Hr Hnd]. apply sent_by_true in Hs as Hs'.
  apply elem_of_cons in Hin as [->|Hin].
  - cbn [find]. rewrite Hs. split; [done|]. rewrite filter_cons_True by done. f_equal.
    apply elem_of_nil_inv. intros x [Hsx Hx]%list_elem_of_filter. apply Hr. apply sent_by_true in Hsx.
    apply list_elem_of_fmap. exists x. split; [congruence|done].
  - assert (sent_by s c r = false) as Hno.
    { destruct (sent_by s c r) eqn:Hsr; [|done]. apply sent_by_true in Hsr. exfalso. apply Hr.
      apply list_elem_of_fmap. exists row. split; [congruence|done]. }
    cbn [find]. rewrite Hno, filter_cons_False by congruence. by apply IH.
Qed.

Lemma saved_holds d fresh now i ai origin sv d' session dest ids :
  db_ok d → saved_as d fresh now i ai origin sv d' session dest ids →
  holds d' i (fingerprintV1 dest (InContent i) origin) sv ∧ same_authority d d'
  ∧ NoDup ((λ r, (SendID r, ClientMessageID r)) <$> messages d').
Proof.
  intros Hd [_ Hparty _ _ _ [(row&Hin&Hs&Hf&Hdec&Hv&_&->)|(Hno&Hrec&_&Hv&->)]].
  - split; [by exists row|]. split; [done|apply Hd].
  - split; [|split; [done|]].
    + eexists. split; [apply elem_of_app; right; apply list_elem_of_here|]. split; [by apply sent_by_true|].
      split; [done|]. split; [|done]. rewrite Hrec. by apply (party_snapshot d (SenderID i) session dest).
    + cbn [messages set_next_id set_messages]. rewrite fmap_app. apply NoDup_app. split; [apply Hd|].
      split; [|apply NoDup_singleton]. intros k Hk Hk'. cbn in Hk'. apply list_elem_of_singleton in Hk' as ->.
      apply list_elem_of_fmap in Hk as (r&Heq&Hr). rewrite Forall_forall in Hno. specialize (Hno r Hr).
      symmetry in Heq. apply sent_by_true in Heq. congruence.
Qed.

(** Asking again for what the tables hold. *)
Lemma record_again fresh now i origin session dest ids d n sv :
  NoDup ((λ r, (SendID r, ClientMessageID r)) <$> messages d) →
  holds d i (fingerprintV1 dest (InContent i) origin) sv →
  ∃ n', record_message no_fault fresh now i origin (session, dest, ids) (d, n)
        = (Ok (MkSaved (SavedMessage sv) (Recipients sv) true), (d, n')).
Proof.
  intros Hnd (row&Hin&Hs&Hf&Hdec&Hv). destruct (find_unique _ _ _ _ Hnd Hin Hs) as [Hfind _].
  unfold record_message, mbind, Tx_bind, query. cbn. rewrite Hfind. unfold guard. rewrite bool_decide_true by done.
  cbn. unfold tx_lift. rewrite Hdec, Hv. by eexists.
Qed.

Lemma transaction_Committed {A} (m : Tx A) d a d' :
  transaction Committed m d = (Ok a, d') → ∃ n, m (d, 0%nat) = (Ok a, (d', n)).
Proof. unfold transaction. destruct (m (d, 0%nat)) as [[x|e] [d2 n]]; naive_solver. Qed.
Lemma set_next_id_same d : set_next_id (next_id d) d = d.
Proof. by destruct d. Qed.

(** C4: a message is saved at most once.  When [Save] has committed, whether or not its
    answer was lost, the tables hold exactly one message of that sender with that client
    id; asking again returns the same message and recipients as a replay and changes
    nothing; asking for something else under the same client id succeeds only if it has
    the same fingerprint, and never adds or changes a message. *)
Theorem Save_once fault fresh now i d sv d1 :
  db_ok d → Save fault Committed fresh now i d = (Ok sv, d1) →
  Save fault CommitLost fresh now i d = (Err ErrDatabase, d1)
  ∧ length (filter (λ r, sent_by (SenderID i) (InClientMessageID i) r = true) (messages d1)) = 1%nat
  ∧ (∀ fresh2 now2, Save no_fault Committed fresh2 now2 i d1
       = (Ok (MkSaved (SavedMessage sv) (Recipients sv) true), d1))
  ∧ (∀ fault2 c2 fresh2 now2 i2, SenderID i2 = SenderID i → InClientMessageID i2 = InClientMessageID i →
       let '(r2, d2) := Save fault2 c2 fresh2 now2 i2 d1 in
       messages d2 = messages d1
       ∧ ∀ sv2, r2 = Ok sv2 → SavedMessage sv2 = SavedMessage sv ∧ Recipients sv2 = Recipients sv ∧ Replayed sv2 = true).
Proof.
  intros Hd Hsave. unfold Save in Hsave. destruct (validateInput i) as [u|e] eqn:Hi; [|done].
  destruct (validateInput_sender _ _ Hi) as [Hsender _].
  apply transaction_Committed in Hsave as [n Hrun].
  destruct (save_body_Ok _ _ _ _ _ _ _ _ _ _ _ (ok_users _ Hd) Hsender Hrun) as (session&dest&ids&n1&Hg&Hsa).
  destruct (saved_holds _ _ _ _ _ _ _ _ _ _ _ Hd Hsa) as (Hholds&Hauth&Hkeys).
  destruct Hholds as (row&Hin&Hs&Hf&Hdec&Hv). destruct (find_unique _ _ _ _ Hkeys Hin Hs) as [Hfind Hfilter].
  split_and!.
  - unfold Save, transaction. by rewrite Hi, Hrun.
  - by rewrite Hfilter.
  - intros fresh2 now2. unfold Save, transaction. rewrite Hi, save_body_split.
    destruct (reads_granted _ _ _ _ _ _ _ _ Hg) as [_ Hagain].
    destruct (Hagain _ eq_refl d1 0%nat Hauth) as [n2 Hg2].
    destruct (record_again fresh2 now2 i MessageOriginUser session dest ids d1 n2 sv Hkeys) as [n3 Hr].
    { by exists row. }
    unfold mbind, Tx_bind. rewrite Hg2, Hr. done.
  - intros fault2 c2 fresh2 now2 i2 Hs2 Hc2. unfold Save. destruct (validateInput i2) as [u2|e2] eqn:Hi2; [|done].
    destruct (validateInput_sender _ _ Hi2) as [Hsender2 _]. unfold transaction.
    destruct (save_body fault2 fresh2 now2 i2 "" MessageOriginUser (d1, 0%nat)) as [[sv2|e2] [d2 n2]] eqn:Hrun2; [|done].
    assert (NoDup (users d1)) as Hu1 by (destruct Hauth as [-> _]; apply Hd).
    destruct (save_body_Ok _ _ _ _ _ _ _ _ _ _ _ Hu1 Hsender2 Hrun2) as (session2&dest2&ids2&n4&_&Hsa2).
    destruct Hsa2 as [_ _ _ _ _ [(row2&Hin2&Hs3&_&Hdec2&Hv2&Hrep&->)|(Hno&_)]].
    + assert (row2 = row) as ->.
      { rewrite Hs2, Hc2 in Hs3. destruct (find_unique _ _ _ _ Hkeys Hin2 Hs3) as [Hfind2 _]. congruence. }
      destruct c2; (split; [done|]); try done. intros sv3 [= <-]. split_and!; congruence.
    + exfalso. rewrite Forall_forall in Hno. specialize (Hno row Hin). rewrite Hs2, Hc2 in Hno. congruence.
Qed.

Lemma transaction_Ok {A} c (m : Tx A) d a d' :
  transaction c m d = (Ok a, d') → c = Committed ∧ ∃ n, m (d, 0%nat) = (Ok a, (d', n)).
Proof. unfold transaction. destruct (m (d, 0%nat)) as [[x|e] [d2 n]], c; naive_solver. Qed.
Lemma SaveAI_valid fault c fresh now user session clientID content d sv d1 :
  SaveAI fault c fresh now user session clientID content d = (Ok sv, d1) →
  validID (trim_space user) "U" = true ∧ trim_space session ≠ ""
  ∧ transaction c (save_body fault fresh now (MkInput (trim_space user) clientID None (trim_space content))
                     (trim_space session) MessageOriginAI) d = (Ok sv, d1).
Proof.
  unfold SaveAI. destruct (_ || _) eqn:Hv; [done|]. intros Hr.
  rewrite !orb_false_iff, !negb_false_iff in Hv. destruct Hv as ((((?&Hs)&_)&_)&_).
  split; [done|]. split; [|done]. intros Hnil. by rewrite Hnil in Hs.
Qed.

(** C5: nobody writes where he may not.  A save that succeeds was committed, its sender
    exists and is a party of the conversation: of the direct session of the two users, of
    the group in normal state, or, for the assistant, of a direct session the user opened
    to it; all recipients exist.  A new message is one row at the end of the table, whose
    view is what the caller gets, with the recipients in increasing order; nothing else
    changes.  A save that fails leaves the messages as they were, unless the commit was
    lost. *)
Theorem Save_authorized fault c fresh now i user session clientID content d :
  NoDup (users d) →
  (∀ sv d1, Save fault c fresh now i d = (Ok sv, d1) → c = Committed ∧ ∃ ses dest ids,
     saved_as d fresh now i "" MessageOriginUser sv d1 ses dest ids)
  ∧ (∀ sv d1, SaveAI fault c fresh now user session clientID content d = (Ok sv, d1) → c = Committed ∧ ∃ dest ids,
     saved_as d fresh now (MkInput (trim_space user) clientID None (trim_space content)) (trim_space session)
       MessageOriginAI sv d1 (trim_space session) dest ids)
  ∧ (c ≠ CommitLost → ∀ e d1, Save fault c fresh now i d = (Err e, d1)
       ∨ SaveAI fault c fresh now user session clientID content d = (Err e, d1) →
       messages d1 = messages d ∧ same_authority d d1).
Proof.
  intros Hnd. split_and!.
  - intros sv d1 Hs. unfold Save in Hs. destruct (validateInput i) as [u|e] eqn:Hi; [|done].
    destruct (validateInput_sender _ _ Hi) as [Hsender _]. apply transaction_Ok in Hs as [-> [n Hrun]].
    split; [done|]. destruct (save_body_Ok _ _ _ _ _ _ _ _ _ _ _ Hnd Hsender Hrun) as (ses&dest&ids&_&_&?). by exists ses, dest, ids.
  - intros sv d1 Hs. apply SaveAI_valid in Hs as (Hsender&Hses&Hs). apply transaction_Ok in Hs as [-> [n Hrun]].
    split; [done|]. destruct (save_body_Ok _ _ _ (MkInput (trim_space user) clientID None (trim_space content)) _ _ _ _ _ _ _ Hnd Hsender Hrun)
      as (ses&dest&ids&_&_&Hsa). destruct (sa_access _ _ _ _ _ _ _ _ _ _ _ Hsa Hses) as [-> _]. by exists dest, ids.
  - intros Hc e d1. assert (∀ A (m : Tx A), transaction c m d = (Err e, d1) → messages d1 = messages d ∧ same_authority d d1) as Htx.
    { intros A m. unfold transaction. destruct (m (d, 0%nat)) as [[x|e'] [d2 n]], c; intros Heq; try discriminate Heq; try (by destruct Hc);
        by injection Heq as _ <-. }
    intros [Hs|Hs].
    + unfold Save in Hs. destruct (validateInput i); [by eapply Htx|]. by injection Hs as _ <-.
    + unfold SaveAI in Hs. destruct (_ || _); [by injection Hs as _ <-|]. by eapply Htx.
Qed.

(** ** The history *)

Inductive reachable : database → Prop :=
| reach_start us ss gs acc : NoDup us → reachable (MkDatabase us ss gs acc [] 1)
| reach_authority d us ss gs acc :
    reachable d → NoDup us → reachable (MkDatabase us ss gs acc (messages d) (next_id d))
| reach_save fault c fresh now i d : reachable d → reachable (Save fault c fresh now i d).2
| reach_ai fault c fresh now user session clientID content d :
    reachable d → reachable (SaveAI fault c fresh now user session clientID content d).2.

Lemma counter_grows fault fresh now i ai origin d n r d' n' :
  save_body fault fresh now i ai origin (d, n) = (r, (d', n')) → next_id d ≤ next_id d'.
Proof.
  rewrite save_body_split. unfold mbind at 1, Tx_bind.
  destruct (granted fault i ai (d, n)) as [[[[session dest] ids]|e] [d1 n1]] eqn:Hg;
    destruct (reads_granted _ _ _ _ _ _ _ _ Hg) as [-> _]; [|intros [= _ <- _]; lia].
  unfold record_message, mbind, Tx_bind, query. destruct (fault n1); [intros [= _ <- _]; lia|].
  destruct (find _ _) as [row|].
  - unfold guard, tx_lift. case_bool_decide; cbn; [|intros [= _ <- _]; lia].
    destruct (decodeRecipients _); [|intros [= _ <- _]; lia]. destruct (messageView _); intros [= _ <- _]; lia.
  - unfold create. destruct (fault (S n1)); [intros [= _ <- _]; lia|].
    destruct (existsb _ _); [intros [= _ <- _]; cbn; lia|]. unfold tx_lift. destruct (messageView _); intros [= _ <- _]; cbn; lia.
Qed.
Lemma next_id_ok n d : db_ok d → next_id d ≤ n → db_ok (set_next_id n d).
Proof.
  intros [? ? ? Hids ? ? ?] Hn. constructor; cbn; try done; [lia|]. eapply Forall_impl; [exact Hids|]. cbn. intros r ?. lia.
Qed.
Lemma saved_ok d fresh now i ai origin sv d' session dest ids :
  db_ok d → saved_as d fresh now i ai origin sv d' session dest ids → db_ok d'.
Proof.
  intros Hd Hsa. pose proof (saved_holds _ _ _ _ _ _ _ _ _ _ _ Hd Hsa) as (_&_&Hkeys).
  destruct Hsa as [_ Hparty _ _ _ [(row&_&_&_&_&_&_&->)|(Hno&Hrec&_&Hv&->)]]; [done|].
  pose proof Hd as []. constructor; cbn [users next_id messages set_next_id set_messages]; try done; [lia|..].
  - rewrite fmap_app. apply StronglySorted_app_2; [|done|repeat constructor].
    intros x y Hx Hy. apply list_elem_of_singleton in Hy as ->. apply list_elem_of_fmap in Hx as (r&->&Hr).
    rewrite Forall_forall in ok_ids0. apply (ok_ids0 r Hr).
  - apply Forall_app. split; [|repeat constructor; cbn; lia]. eapply Forall_impl; [exact ok_ids0|]. cbn. intros r ?. lia.
  - apply Forall_app. split; [done|]. repeat constructor; [by eexists|]. eexists. by apply (party_snapshot d (SenderID i) session dest).
  - apply Forall_app. split; [done|]. apply Forall_singleton. by apply (party_direct d).
Qed.
Lemma transaction_ok fault c fresh now i ai origin d :
  validID (SenderID i) "U" = true → db_ok d → db_ok (transaction c (save_body fault fresh now i ai origin) d).2.
Proof.
  intros Hsender Hd. unfold transaction.
  destruct (save_body fault fresh now i ai origin (d, 0%nat)) as [[sv|e] [d' n']] eqn:Hrun.
  - pose proof (counter_grows _ _ _ _ _ _ _ _ _ _ _ Hrun).
    destruct (save_body_Ok _ _ _ _ _ _ _ _ _ _ _ (ok_users _ Hd) Hsender Hrun) as (ses&dest&ids&_&_&Hsa).
    pose proof (saved_ok _ _ _ _ _ _ _ _ _ _ _ Hd Hsa). destruct c; cbn; [done|by apply next_id_ok|done].
  - apply next_id_ok; [done|]. by eapply counter_grows.
Qed.

(** What a save hands to the caller is a row of valid tables. *)
Definition readable_as (sv : Saved) : Prop :=
  ∃ row, messageView row = Ok (SavedMessage sv) ∧ decodeRecipients (RecipientIDs row) = Ok (Recipients sv)
    ∧ direct_within row.
Lemma transaction_readable fault c fresh now i ai origin d sv d1 :
  validID (SenderID i) "U" = true → db_ok d → transaction c (save_body fault fresh now i ai origin) d = (Ok sv, d1) →
  readable_as sv ∧ db_ok d1.
Proof.
  intros Hsender Hd Htx. pose proof (transaction_ok fault c fresh now i ai origin d Hsender Hd) as Hok. rewrite Htx in Hok.
  split; [|done]. apply transaction_Ok in Htx as [-> [n Hrun]].
  destruct (save_body_Ok _ _ _ _ _ _ _ _ _ _ _ (ok_users _ Hd) Hsender Hrun) as (ses&dest&ids&_&_&Hsa).
  destruct (saved_holds _ _ _ _ _ _ _ _ _ _ _ Hd Hsa) as [(row&Hin&_&_&Hdec&Hv) _]. exists row. split_and!; try done.
  pose proof (ok_direct _ Hok) as Hdir. rewrite Forall_forall in Hdir. by apply Hdir.
Qed.
Lemma Save_readable fault c fresh now i d sv d1 :
  db_ok d → Save fault c fresh now i d = (Ok sv, d1) → readable_as sv ∧ db_ok d1.
Proof.
  intros Hd Hs. unfold Save in Hs. destruct (validateInput i) as [u|e] eqn:Hi; [|done].
  destruct (validateInput_sender _ _ Hi) as [Hsender _]. by apply transaction_readable in Hs.
Qed.
Lemma SaveAI_readable fault c fresh now user session clientID content d sv d1 :
  db_ok d → SaveAI fault c fresh now user session clientID content d = (Ok sv, d1) → readable_as sv ∧ db_ok d1.
Proof. intros Hd (Hsender&_&Hs)%SaveAI_valid. by apply transaction_readable in Hs. Qed.
Lemma Save_ok fault c fresh now i d : db_ok d → db_ok (Save fault c fresh now i d).2.
Proof.
  intros Hd. unfold Save. destruct (validateInput i) as [u|e] eqn:Hi; [|done].
  destruct (validateInput_sender _ _ Hi) as [Hsender _]. by apply transaction_ok.
Qed.
Lemma SaveAI_ok fault c fresh now user session clientID content d :
  db_ok d → db_ok (SaveAI fault c fresh now user session clientID content d).2.
Proof.
  intros Hd. unfold SaveAI. destruct (_ || _) eqn:Hv; [done|]. rewrite !orb_false_iff, !negb_false_iff in Hv.
  apply transaction_ok; [apply Hv|done].
Qed.

(** the history stays readable.  Whatever is saved, answered, failed or lost, and
    however memberships change, the ids of the messages grow, a client id names one
    message of its sender, every message has a view and its recipients decode, and a
    message between two users has no other recipient. *)
Theorem history_readable d : reachable d → db_ok d.
Proof.
  induction 1 as [us ss gs acc Hnd|d us ss gs acc _ [] Hnd|fault c fresh now i d _ IH|fault c fresh now user session clientID content d _ IH].
  - constructor; cbn; try done; constructor.
  - by constructor.
  - by apply Save_ok.
  - by apply SaveAI_ok.
Qed.
End Save.

(** ** Reading the history page by page *)

Section Sync.
Context `{External, !ExternalLaws _}.

(** The messages of a conversation, oldest first. *)
Definition history (session : string) (d : database) : list message :=
  filter (λ r, SessionID r = session) (messages d).
(** A client that follows the cursors until a page says there are no more. *)
Fixpoint sync_all (fuel : nat) (user conversation cursor : string) (limit : Z) (d : database)
  : option (list im.Message) :=
  match fuel with
  | O => None
  | S n =>
    match (Sync no_fault Committed user conversation cursor limit d).1 with
    | Ok p => if HasMore p
              then rest ← sync_all n user conversation (NextCursor p) limit d; Some (Messages p ++ rest)
              else Some (Messages p)
    | Err _ => None
    end
  end.

Definition may_read (fault : nat → bool) (user session : string) (group : bool) : Tx unit :=
  lockUser fault user;;
  (if group then '(_, _) ← lockGroup fault user session; mret tt
   else _ ← lockDirect fault user "" session; mret tt).
Definition read_page (fault : nat → bool) (conversation cursor session : string) (after limit : Z) : Tx SyncPage :=
  rows ← query fault (λ d, take (Z.to_nat (limit + 1)) (rows_after session after d));
  let more := limit <? slen rows in
  let rows := if more then take (Z.to_nat limit) rows else rows in
  '(ms, next) ← tx_lift (page_rows conversation cursor rows);
  mret (MkSyncPage conversation ms next more).
Lemma sync_body_split fault user conversation cursor session group after limit s :
  sync_body fault user conversation cursor session group after limit s
  = (may_read fault user session group ≫= λ _, read_page fault conversation cursor session after limit) s.
Proof. unfold sync_body, may_read. rewrite bind_assoc. by apply bind_ext. Qed.
Lemma reads_may_read fault user session group : reads (may_read fault user session group) (may_read no_fault user session group).
Proof.
  apply reads_bind; [apply reads_lockUser|]. intros _. destruct group.
  - apply reads_bind; [apply reads_lockGroup|]. intros [g ms]. apply reads_ret.
  - apply reads_bind; [apply reads_lockDirect|]. intros r. apply reads_ret.
Qed.

Lemma page_rows_ok conversation cursor rows views :
  Forall2 (λ r v, messageView r = Ok v) rows views →
  page_rows conversation cursor rows
  = Ok (publicMessage <$> views, match last rows with Some r => encodeCursor conversation (ID r) | None => cursor end).
Proof.
  intros Hall. revert cursor. induction Hall as [|r v rows views Hv Hall IH]; intros cursor; [done|].
  cbn [page_rows]. rewrite Hv. cbn [mbind result_bind]. rewrite IH. cbn [mbind result_bind fmap list_fmap].
  do 2 f_equal. destruct rows as [|r' rows]; [done|]. rewrite last_cons_cons.
  destruct (last (r' :: rows)) eqn:Hl; [done|by apply last_None in Hl].
Qed.

Lemma filter_all {A} (P : A → Prop) `{∀ x, Decision (P x)} l : Forall P l → filter P l = l.
Proof. induction 1 as [|x l Hx _ IH]; [done|]. by rewrite filter_cons_True, IH. Qed.
(** The rows after the last one of a page are the rest. *)
Lemma rows_after_drop session after n d r :
  StronglySorted Z.lt (ID <$> messages d) → last (take n (rows_after session after d)) = Some r →
  rows_after session (ID r) d = drop n (rows_after session after d).
Proof.
  intros Hs Hlast.
  assert (StronglySorted Z.lt (ID <$> rows_after session after d)) as Hs'.
  { unfold rows_after. clear Hlast. induction (messages d) as [|x l IH]; [constructor|].
    cbn [fmap list_fmap] in Hs. apply StronglySorted_inv in Hs as [Hs Hx]. rewrite filter_cons.
    destruct (decide _); [|by apply IH]. cbn [fmap list_fmap]. constructor; [by apply IH|].
    apply Forall_forall. intros y (z&->&Hz)%list_elem_of_fmap. apply list_elem_of_filter in Hz as [_ Hz].
    rewrite Forall_forall in Hx. apply Hx, list_elem_of_fmap. by exists z. }
  assert (after < ID r) as Hr.
  { apply last_Some in Hlast as [l' Hl]. assert (r ∈ rows_after session after d) as Hin.
    { rewrite <-(take_drop n (rows_after session after d)), Hl. set_solver. }
    apply list_elem_of_filter in Hin. naive_solver. }
  assert (rows_after session (ID r) d = filter (λ x, ID r < ID x) (rows_after session after d)) as ->.
  { unfold rows_after. rewrite list_filter_filter. apply list_filter_iff. intros x. split; [|naive_solver]. intros [? ?]. split; [done|]. split; [done|lia]. }
  apply last_Some in Hlast as [l' Hl]. set (rows := rows_after session after d) in *.
  rewrite <-(take_drop n rows) in Hs' at 1. rewrite <-(take_drop n rows) at 1. rewrite Hl in *.
  rewrite fmap_app in Hs'. rewrite filter_app.
  apply StronglySorted_app in Hs' as (Hcross&Hs1&_).
  assert (filter (λ x, ID r < ID x) (l' ++ [r]) = []) as ->.
  { apply elem_of_nil_inv. intros x [Hx Hin]%list_elem_of_filter.
    rewrite fmap_app in Hs1. apply StronglySorted_app in Hs1 as (Hc1&_&_).
    apply elem_of_app in Hin as [Hin|Hin%list_elem_of_singleton]; [|subst x; lia].
    assert (ID x < ID r); [|lia]. apply Hc1; [apply list_elem_of_fmap; by exists x|apply list_elem_of_here]. }
  cbn [app]. apply filter_all, Forall_forall. intros x Hx. apply (Hcross (ID r) (ID x)).
  - rewrite fmap_app. apply elem_of_app. right. apply list_elem_of_here.
  - apply list_elem_of_fmap. by exists x.
Qed.

Lemma Forall2_exists {A B} (P : A → B → Prop) l : Forall (λ x, ∃ y, P x y) l → ∃ k, Forall2 P l k.
Proof. induction 1 as [|x l [y Hy] _ [k IH]]; [by exists []|]. exists (y :: k). by constructor. Qed.
Lemma rows_viewable session after d :
  db_ok d → ∃ views, Forall2 (λ r v, messageView r = Ok v) (rows_after session after d) views.
Proof.
  intros Hd. apply Forall2_exists, Forall_forall. intros r [_ Hr]%list_elem_of_filter.
  pose proof (ok_rows _ Hd) as Hrows. rewrite Forall_forall in Hrows. by destruct (Hrows r Hr).
Qed.
Lemma rows_after_start session d : db_ok d → rows_after session 0 d = history session d.
Proof.
  intros Hd. pose proof (ok_ids _ Hd) as Hids. unfold rows_after, history.
  induction Hids as [|r l Hr _ IH]; [done|]. rewrite !filter_cons, IH.
  destruct (decide (SessionID r = session ∧ 0 < ID r)), (decide (SessionID r = session)); naive_solver lia.
Qed.

(** What the client knows when it asks for a page, and the page it gets. *)
Section Pages.
Context (user conversation session : string) (group : bool) (limit : Z) (d : database).
Definition page_size : Z := if limit =? 0 then 100 else limit.
Hypothesis user_ok : validID user "U" = true.
Hypothesis limit_ok : 0 ≤ limit ≤ 500.
Hypothesis conversation_ok : parseConversation conversation = Ok (session, group).
Hypothesis allowed : ∃ n, may_read no_fault user session group (d, 0%nat) = (Ok tt, (d, n)).

Lemma page_size_pos : 0 < page_size.
Proof using limit_ok. unfold page_size. destruct (Z.eqb_spec limit 0); lia. Qed.
Lemma Sync_page cursor after views :
  decodeCursor conversation cursor = Ok after →
  Forall2 (λ r v, messageView r = Ok v) (rows_after session after d) views →
  let rows := rows_after session after d in
  let n := Z.to_nat page_size in
  Sync no_fault Committed user conversation cursor limit d
  = (Ok (MkSyncPage conversation (publicMessage <$> take n views)
           (match last (take n rows) with Some r => encodeCursor conversation (ID r) | None => cursor end)
           (page_size <? slen rows)), d).
Proof.
  intros Hcur Hviews rows n. pose proof page_size_pos as Hpos. destruct allowed as [k Hread].
  unfold Sync. rewrite user_ok, conversation_ok, Hcur. cbn [negb orb].
  rewrite !(proj2 (Z.ltb_ge _ _)) by lia. cbn [orb]. fold page_size.
  unfold transaction. rewrite sync_body_split. unfold mbind at 1, Tx_bind. rewrite Hread.
  unfold read_page, mbind, Tx_bind, query, no_fault. cbn.
  assert (page_size <? slen (take (Z.to_nat (page_size + 1)) rows) = (page_size <? slen rows)) as Hmore.
  { unfold slen. rewrite length_take. apply eq_true_iff_eq. rewrite !Z.ltb_lt. lia. }
  fold rows. rewrite Hmore.
  assert ((if page_size <? slen rows then take (Z.to_nat page_size) (take (Z.to_nat (page_size + 1)) rows)
           else take (Z.to_nat (page_size + 1)) rows) = take n rows) as ->.
  { destruct (Z.ltb_spec page_size (slen rows)) as [Hlt|Hge]; unfold slen in *.
    - rewrite take_take. f_equal. lia.
    - rewrite !take_ge by lia. done. }
  unfold tx_lift. rewrite (page_rows_ok conversation cursor (take n rows) (take n views)) by by apply Forall2_take.
  done.
Qed.

Lemma sync_all_from fuel cursor after views :
  db_ok d → next_id d ≤ max_int64 →
  decodeCursor conversation cursor = Ok after →
  Forall2 (λ r v, messageView r = Ok v) (rows_after session after d) views →
  (length views < fuel)%nat →
  sync_all fuel user conversation cursor limit d = Some (publicMessage <$> views).
Proof.
  intros Hd Hmax. revert cursor after views. pose proof page_size_pos as Hpos.
  induction fuel as [|fuel IH]; intros cursor after views Hcur Hviews Hfuel; [lia|].
  cbn [sync_all]. rewrite (Sync_page cursor after views Hcur Hviews). cbn [fst HasMore NextCursor Messages].
  pose proof (Forall2_length _ _ _ Hviews) as Hlen. set (rows := rows_after session after d) in *.
  set (n := Z.to_nat page_size) in *.
  destruct (Z.ltb_spec page_size (slen rows)) as [Hlt|Hge]; unfold slen in *.
  2:{ by rewrite take_ge by lia. }
  destruct (last (take n rows)) as [r|] eqn:Hlast.
  2:{ apply last_None in Hlast. apply (f_equal length) in Hlast. rewrite length_take in Hlast. cbn in Hlast. lia. }
  assert (0 < ID r ≤ max_int64) as Hid.
  { pose proof (ok_ids _ Hd) as Hids. rewrite Forall_forall in Hids.
    assert (r ∈ rows) as Hin. { apply last_Some in Hlast as [l Hl]. rewrite <-(take_drop n rows), Hl. set_solver. }
    apply list_elem_of_filter in Hin as [_ Hin]. specialize (Hids r Hin). lia. }
  rewrite (IH (encodeCursor conversation (ID r)) (ID r) (drop n views)).
  - cbn [mbind option_bind]. by rewrite <-fmap_app, take_drop.
  - by eapply decode_encode_cursor.
  - rewrite (rows_after_drop session after n d r (ok_order _ Hd) Hlast). by apply Forall2_drop.
  - rewrite length_drop. lia.
Qed.
End Pages.

Lemma Sync_allowed fault c user conversation cursor limit d p d1 session group :
  parseConversation conversation = Ok (session, group) →
  Sync fault c user conversation cursor limit d = (Ok p, d1) →
  validID user "U" = true ∧ 0 ≤ limit ≤ 500
  ∧ ∃ n, may_read no_fault user session group (d, 0%nat) = (Ok tt, (d, n)).
Proof.
  intros Hconv. unfold Sync. destruct (_ || _) eqn:Hv; [done|]. rewrite Hconv.
  rewrite !orb_false_iff, negb_false_iff, !Z.ltb_ge in Hv. destruct Hv as [[Hu ?] ?].
  destruct (decodeCursor conversation cursor) as [after|]; [|done].
  intros [_ [n Hrun]]%transaction_Ok. rewrite sync_body_split in Hrun.
  apply bind_Ok in Hrun as ([]&[d2 n2]&Hread&_). split; [done|]. split; [lia|].
  destruct (reads_may_read _ _ _ _ _ _ _ _ _ Hread) as [-> Hagain]. by apply (Hagain tt eq_refl d 0%nat).
Qed.

(** C6: a client that may read a conversation and follows the cursors reads every message
    of it exactly once, oldest first, whatever page size it asks for; a page never exceeds
    that size, and reading changes nothing. *)
Theorem Sync_complete user conversation limit d p d1 session group :
  db_ok d → next_id d ≤ max_int64 → parseConversation conversation = Ok (session, group) →
  Sync no_fault Committed user conversation "" limit d = (Ok p, d1) →
  d1 = d ∧ slen (Messages p) ≤ (if limit =? 0 then 100 else limit)
  ∧ ∃ views, Forall2 (λ r v, messageView r = Ok v) (history session d) views
    ∧ ∀ fuel, (length views < fuel)%nat →
        sync_all fuel user conversation "" limit d = Some (publicMessage <$> views).
Proof.
  intros Hd Hmax Hconv Hsync. destruct (Sync_allowed _ _ _ _ _ _ _ _ _ _ _ Hconv Hsync) as (Hu&Hl&Hread).
  destruct (rows_viewable session 0 d Hd) as [views Hviews].
  pose proof (Sync_page user conversation session group limit d Hu Hl Hconv Hread "" 0 views eq_refl Hviews) as Hpage.
  rewrite Hsync in Hpage. injection Hpage as -> ->. split; [done|]. cbn [Messages]. split.
  - pose proof (page_size_pos limit Hl) as Hpos. fold (page_size limit).
    unfold slen. rewrite length_fmap, length_take. lia.
  - exists views. rewrite <-(rows_after_start session d Hd). split; [done|]. intros fuel Hfuel.
    by apply (sync_all_from user conversation session group limit d Hu Hl Hconv Hread fuel "" 0).
Qed.
End Sync.

(** ** A concrete history *)

Definition direct1 : string := "direct:" +:+ session1.
Definition sample_tables : database :=
  MkDatabase [user1; user2] [MkSession session1 user1 user2 SessionTypeUser] [] [] [] 1.
Definition fresh1 : string := "00000000-0000-0000-0000-000000000001".
Definition client1 : string := "00000000-0000-0000-0000-0000000000c1".
Definition sample_input : Input :=
  MkInput user1 client1 (Some (pb.MkDestination pb.RECEIVE_TYPE_USER user2)) "hi".
Definition sample_saved : Saved :=
  MkSaved (pb.MkMessageView message1 direct1 session1 user1 (Some (pb.MkDestination pb.RECEIVE_TYPE_USER user2))
             pb.MESSAGE_TYPE_TEXT "hi" pb.MESSAGE_ORIGIN_USER (Some (MkTimestamp 5 0)) 1) [user1; user2] false.
Definition sample_save : result store_error Saved * database :=
  Save (H := Reference.external) no_fault Committed fresh1 (5 * second) sample_input sample_tables.
Definition sample_history : database := sample_save.2.

Lemma sample_tables_reachable : reachable (H := Reference.external) sample_tables.
Proof. apply reach_start. by apply (bool_decide_unpack _). Qed.
Lemma sample_tables_ok : db_ok (H := Reference.external) sample_tables.
Proof. constructor; [by apply (bool_decide_unpack (NoDup [user1; user2]))|done|constructor..]. Qed.
Lemma sample_save_Ok : sample_save = (Ok sample_saved, sample_history).
Proof.
  assert (sample_save.1 = Ok sample_saved) as Hs by (vm_compute; reflexivity).
  unfold sample_history. by rewrite <-Hs, <-surjective_pairing.
Qed.

Lemma cursor_round_trip_witness :
  parseConversation (H := Reference.external) direct1 = Ok (session1, false)
  ∧ decodeCursor direct1 (encodeCursor direct1 42) = Ok 42.
Proof.
  assert (parseConversation (H := Reference.external) direct1 = Ok (session1, false)) as Hp by (vm_compute; reflexivity).
  split; [exact Hp|].
  apply (@cursor_round_trip Reference.external Reference.external_laws direct1 (session1, false) 42 Hp). done.
Defined.

Lemma Save_once_witness :
  sample_save.1 = Ok sample_saved
  ∧ Save (H := Reference.external) no_fault Committed client1 (9 * second) sample_input sample_history
    = (Ok (MkSaved (SavedMessage sample_saved) [user1; user2] true), sample_history).
Proof.
  pose proof sample_save_Ok as Hs. split; [by rewrite Hs|].
  destruct (@Save_once Reference.external Reference.external_laws no_fault fresh1 (5 * second) sample_input
    sample_tables sample_saved sample_history sample_tables_ok Hs) as (_&_&Hagain&_).
  apply Hagain.
Defined.

Lemma Save_authorized_witness :
  NoDup (users sample_tables) ∧ user1 ∈ users sample_tables.
Proof.
  assert (NoDup (users sample_tables)) as Hnd by by apply (bool_decide_unpack (NoDup [user1; user2])).
  split; [exact Hnd|].
  destruct (@Save_authorized Reference.external no_fault Committed fresh1 (5 * second) sample_input
    user1 session1 client1 "hi" sample_tables Hnd) as (Hsave&_&_).
  destruct (Hsave _ _ sample_save_Ok) as (_&ses&dest&ids&Hsa). exact (sa_sender _ _ _ _ _ _ _ _ _ _ _ Hsa).
Defined.

Lemma history_readable_witness : db_ok (H := Reference.external) sample_history.
Proof.
  apply (@history_readable Reference.external Reference.external_laws).
  apply (reach_save no_fault Committed fresh1 (5 * second) sample_input). apply sample_tables_reachable.
Defined.

Lemma Sync_complete_witness :
  is_ok (Sync (H := Reference.external) no_fault Committed user2 direct1 "" 0 sample_tables).1 = true
  ∧ sync_all (H := Reference.external) 1 user2 direct1 "" 0 sample_tables = Some [].
Proof.
  assert (Sync (H := Reference.external) no_fault Committed user2 direct1 "" 0 sample_tables
    = (Ok (MkSyncPage direct1 [] "" false), sample_tables)) as Hs by (vm_compute; reflexivity).
  split; [by rewrite Hs|].
  destruct (@Sync_complete Reference.external Reference.external_laws user2 direct1 0 sample_tables
    (MkSyncPage direct1 [] "" false) sample_tables session1 false sample_tables_ok) as (_&_&views&Hviews&Hall);
    [done|vm_compute; reflexivity|exact Hs|].
  inversion Hviews; subst. apply Hall. cbn. lia.
Defined.
