(* ===== verification/LogicDispatch.v ===== *)
(** * Dispatching saved messages: [internal/logic/dispatch.go], and the state of the Logic
    service with its counters ([internal/logic/observability.go])

    Logic borrows a routing store, a message store and a publisher.  The routing store is
    the component [RoutingStore] on its key space, which is part of the state; the
    interfaces [MessageStore] and [Publisher] of the code, the users table, the JWT library
    and the Comet clients are the operations of an environment over a world [W].  Logging
    and measured durations are left out. *)
From S2P Require Import Prelude GoStd GoTime External Dto JsonPrint RoutingStore KafkaPush MessageStore CometRpc.
Local Open Scope Z_scope.

(** ** State *)

Record CometGrant : Type := MkGrant { g_identity : pb.CometIdentity; g_address : string; g_token : string }.
Record Service : Type := MkService {
  s_routes : RoutingStore.Store; jwtKey : string; jobToken : string; kickToken : string; grants : list CometGrant
}.

(** The counters of [observability]: each index of its arrays. *)
Inductive metric : Type := MSave (outcome : Z) | MPublish (outcome : Z) | MDispatch (outcome : Z).
Global Instance metric_eq_dec : EqDecision metric.
Proof. solve_decision. Defined.

Record claims : Type := MkClaims { UserUUID : string; ExpiresAt : Z }.
(** The environment: [le_redis] tells how far the next script gets and the clock of Redis,
    [le_jwt] is [jwt.ParseWithClaims] with its key function, whose answer tells whether the
    token is valid. *)
Record logic_env (W : Type) : Type := LogicEnv {
  le_redis : W → (RoutingStore.fate * Z) * W;
  le_save : Input → W → result MessageStore.store_error Saved * W;
  le_save_ai : string → string → string → string → W → result MessageStore.store_error Saved * W;
  le_publish : string → string → W → result publish_error unit * W;
  le_jwt : string → (string → option string) → W → option (bool * claims) * W;
  le_user_exists : string → W → result (option context_error) bool * W;
  le_uuid : W → string * W;
  le_ping : W → result RoutingStore.store_error unit * W;
  le_dial : string → W → bool * W;
  le_kick : string → string → KickRequest → W → W
}.
Global Arguments le_redis {W}. Global Arguments le_save {W}. Global Arguments le_save_ai {W}.
Global Arguments le_publish {W}. Global Arguments le_jwt {W}. Global Arguments le_user_exists {W}.
Global Arguments le_uuid {W}. Global Arguments le_ping {W}. Global Arguments le_dial {W}. Global Arguments le_kick {W}.

(** The leases, the queue of kicks, the counters, and what was published so far. *)
Record logic_state (W : Type) : Type := LogicState {
  l_world : W; routing : gmap string record; kicks : list pb.ConnectionIdentity; metrics : metric → Z;
  publications : list (string * string * result publish_error unit)
}.
Global Arguments LogicState {W}. Global Arguments l_world {W}. Global Arguments routing {W}.
Global Arguments kicks {W}. Global Arguments metrics {W}. Global Arguments publications {W}.

Section Dispatch.
Context `{External} {W : Type} (env : logic_env W) (svc : Service).
#[local] Abbreviation M := (ST (logic_state W)).

Definition on_world {A} (f : W → A * W) : M A := λ s,
  let '(a, w) := f (l_world s) in (a, LogicState w (routing s) (kicks s) (metrics s) (publications s)).
Definition set_routing (d : gmap string record) : M unit :=
  modify (λ s, LogicState (l_world s) d (kicks s) (metrics s) (publications s)).
Definition push_kick (id : pb.ConnectionIdentity) : M unit :=
  modify (λ s, LogicState (l_world s) (routing s) (kicks s ++ [id]) (metrics s) (publications s)).
Definition count_metric (m : metric) : M unit :=
  modify (λ s, LogicState (l_world s) (routing s) (kicks s)
    (λ m', if decide (m = m') then (metrics s m' + 1) mod 2 ^ 64 else metrics s m') (publications s)).
Definition log_publication (key raw : string) (r : result publish_error unit) : M unit :=
  modify (λ s, LogicState (l_world s) (routing s) (kicks s) (metrics s) (publications s ++ [(key, raw, r)])).

(** A method of the routing store. *)
Definition routes {A} (f : RoutingStore.fate → Z → gmap string record → result RoutingStore.store_error A * gmap string record)
  : M (result RoutingStore.store_error A) :=
  (fn ← on_world (le_redis env);
   d ← gets routing;
   let '(r, d) := f fn.1 fn.2 d in
   set_routing d;; mret r).

(** ** Counters *)

Definition save_outcome (saved : result MessageStore.store_error Saved) : Z :=
  match saved with
  | Err MessageStore.ErrConflict => 2
  | Err MessageStore.ErrInvalid | Err ErrForbidden => 3
  | Err ErrDatabase => 4
  | Ok sv => if Replayed sv then 1 else 0
  end.
Definition observeSave (saved : result MessageStore.store_error Saved) : M unit := count_metric (MSave (save_outcome saved)).
Definition not_published (e : publish_error) : bool := match base e with ErrNotPublished => true | _ => false end.
Definition publish_outcome (r : result publish_error unit) : Z :=
  match r with Ok _ => 0 | Err e => if not_published e then 1 else 2 end.
Definition observePublish (r : result publish_error unit) : M unit := count_metric (MPublish (publish_outcome r)).
Definition dispatch_outcome (state : Z) : Z :=
  if state =? pb.DISPATCH_STATE_QUEUED then 0 else if state =? pb.DISPATCH_STATE_NOT_QUEUED then 1 else 2.
Definition observeDispatch (state : Z) : M unit := count_metric (MDispatch (dispatch_outcome state)).

(** ** Dispatching *)

Record SendResult : Type := MkSendResult {
  ClientMessageId : string; Stored : bool; ResultMessage : pb.MessageView; Dispatch : Z; ResultReplayed : bool
}.

Definition publicMessage (m : pb.MessageView) : im.Message :=
  let d := default (pb.MkDestination 0 "") (pb.Destination_ m) in
  im.MkMessage (pb.MessageId m) (pb.ConversationId m) (pb.SessionId m) (pb.SenderId m) (pb.DestReceiveId d)
    (if pb.DestReceiveType d =? pb.RECEIVE_TYPE_GROUP then im.ReceiveTypeGroup else im.ReceiveTypeUser)
    im.MessageTypeText (pb.Content m)
    (if pb.Origin m =? pb.MESSAGE_ORIGIN_AI then im.MessageOriginAI else im.MessageOriginUser)
    (Time (as_ns (default (timestamp_of_ns 0) (pb.CreatedAt m))) 0) (format_uint (pb.Position m)).

(** The hints: the routes Logic knows, none when the lookup fails. *)
Definition hint_of (r : pb.RouteLookupResult) : option im.ConnectionIdentity :=
  l ← pb.GetRoute r; a ← pb.RouteIdentity l;
  Some (im.MkConnectionIdentity (pb.UserId a) (pb.InstanceId a) (pb.ConnectionId a) (pb.RouteToken a)).
Definition hints_of (r : result RoutingStore.store_error (list pb.RouteLookupResult)) : list im.ConnectionIdentity :=
  match r with Ok l => omap hint_of l | Err _ => [] end.
Definition push_task (message : pb.MessageView) (requestID : string) (count index : Z) (ids : list string)
    (targets : list im.ConnectionIdentity) : im.PushTask :=
  im.MkPushTask 1 im.PushKind ("push:v1:" +:+ pb.MessageId message +:+ ":" +:+ format_int index)
    (publicMessage message) ids (Some targets) (index mod 2 ^ 32) (count mod 2 ^ 32) requestID None "".

(** The loop over the chunks of a hundred recipients, from number [index] on, [published]
    of which were published. *)
Fixpoint dispatch_chunks (message : pb.MessageView) (requestID : string) (count index published : Z)
    (chunks : list (list string)) : M Z :=
  match chunks with
  | [] => mret pb.DISPATCH_STATE_QUEUED
  | ids :: chunks' =>
    (looked ← routes (λ f now d, Lookup (s_routes svc) f now ids d);
     match print_task (push_task message requestID count index ids (hints_of looked)) with
     | None => mret (if published =? 0 then pb.DISPATCH_STATE_NOT_QUEUED else pb.DISPATCH_STATE_UNKNOWN)
     | Some raw =>
       if 256 * 1024 <? len raw
       then mret (if published =? 0 then pb.DISPATCH_STATE_NOT_QUEUED else pb.DISPATCH_STATE_UNKNOWN)
       else
         r ← on_world (le_publish env (pb.ConversationId message) raw);
         log_publication (pb.ConversationId message) raw r;;
         observePublish r;;
         match r with
         | Err e => mret (if (published =? 0) && not_published e then pb.DISPATCH_STATE_NOT_QUEUED
                          else pb.DISPATCH_STATE_UNKNOWN)
         | Ok _ => dispatch_chunks message requestID count (index + 1) (published + 1) chunks'
         end
     end)
  end.
(** The recipients in slices of a hundred; the fuel is their number. *)
Fixpoint chunks_of (fuel : nat) (ids : list string) : list (list string) :=
  match fuel, ids with
  | S n, _ :: _ => take 100 ids :: chunks_of n (drop 100 ids)
  | _, _ => []
  end.
Definition dispatch (clientID : string) (saved : Saved) (requestID : string) : M SendResult :=
  (let ids := Recipients saved in
   state ← dispatch_chunks (SavedMessage saved) requestID ((slen ids + 99) / 100) 0 0 (chunks_of (length ids) ids);
   observeDispatch state;;
   mret (MkSendResult clientID true (SavedMessage saved) state (Replayed saved))).
End Dispatch.
