(* ===== verification/LogicDispatchProofs.v ===== *)
(** * Dispatching: every recipient once, in records Job accepts

    What [dispatch] hands to the publisher for a saved message, and what its answer says
    of it; every record it publishes decodes, on the side of Job, to the task it is the
    text of.  What Logic relies on of the message store is a class, which the message
    store of this development implements. *)
From S2P Require Import Prelude GoStd GoTime GoText External Json Dto JobTask JobTaskProofs JsonPrint JsonRound TaskRound TaskSize RoutingStore RoutingStoreProofs KafkaPush MessageStore MessageStoreProofs CometRpc LogicDispatch Samples.
Local Open Scope Z_scope.

(** ** Chunks *)

Lemma chunks_of_spec fuel ids : (length ids ≤ fuel)%nat →
  mjoin (chunks_of fuel ids) = ids ∧ Forall (λ c, 1 ≤ slen c ≤ 100) (chunks_of fuel ids)
  ∧ slen (chunks_of fuel ids) = (slen ids + 99) / 100.
Proof.
  revert ids. induction fuel as [|n IH]; intros ids Hn; [destruct ids; [done|cbn in Hn; lia]|].
  destruct ids as [|x ids]; [done|]. cbn [chunks_of].
  destruct (IH (drop 100 (x :: ids))) as (Hj&Hc&Hl); [rewrite length_drop; cbn in *; lia|].
  split_and!.
  - change (take 100 (x :: ids) ++ mjoin (chunks_of n (drop 100 (x :: ids))) = x :: ids). rewrite Hj. apply take_drop.
  - constructor; [|done]. unfold slen. rewrite length_take. cbn [length]. lia.
  - rewrite slen_cons, Hl. unfold slen. rewrite length_drop. cbn [length].
    destruct (Nat.le_gt_cases (S (length ids)) 100) as [Hle|Hgt].
    + replace (S (length ids) - 100)%nat with 0%nat by lia. rewrite Nat2Z.inj_succ.
      Z.to_euclidean_division_equations. lia.
    + rewrite Nat2Z.inj_sub by lia. Z.to_euclidean_division_equations. lia.
Qed.
Lemma chunks_of_sub fuel ids c : c ∈ chunks_of fuel ids → ∃ l r, ids = l ++ c ++ r.
Proof.
  revert ids. induction fuel as [|n IH]; intros ids Hc; [by apply not_elem_of_nil in Hc|].
  destruct ids as [|x ids]; [by apply not_elem_of_nil in Hc|]. cbn [chunks_of] in Hc.
  apply elem_of_cons in Hc as [->|Hc].
  - exists [], (drop 100 (x :: ids)). by rewrite app_nil_l, take_drop.
  - destruct (IH _ Hc) as (l&r&Hd). exists (take 100 (x :: ids) ++ l), r.
    rewrite <-app_assoc, <-Hd. by rewrite take_drop.
Qed.
Lemma sorted_part (l c r : list string) : StronglySorted (strict String.le) (l ++ c ++ r) → StronglySorted (strict String.le) c.
Proof. intros Hs. apply StronglySorted_app_1_r, StronglySorted_app_1_l in Hs. exact Hs. Qed.

(** ** What is published *)

Section Dispatch.
Context `{External, !ExternalLaws _} {W : Type} (env : logic_env W) (svc : Service) (Hs : shaped (s_routes svc)).

(** The hints of a chunk: the live routes of its users, or none when the lookup failed. *)
Definition hint (r : record) : im.ConnectionIdentity :=
  im.MkConnectionIdentity (User r) (Instance_ r) (Connection r) (Token r).
Definition hints_for (d : gmap string record) (ids : list string) (ts : list im.ConnectionIdentity) : Prop :=
  ts = [] ∨ ∃ now, ts = hint <$> omap (route_of (s_routes svc) now d) ids.
Lemma hints_of_lookup f now ids d : RoutingStoreProofs.reachable (s_routes svc) d →
  (Lookup (s_routes svc) f now ids d).2 = d ∧ hints_for d ids (hints_of (Lookup (s_routes svc) f now ids d).1).
Proof.
  intros Hd. destruct (Lookup_answer _ Hs f now ids d Hd) as [Hsame Hok]. split; [done|].
  destruct (Lookup (s_routes svc) f now ids d).1 as [l|e]; [|by left]. destruct (Hok l eq_refl) as [-> _]. right. exists now.
  cbn [hints_of]. clear. induction ids as [|u ids IH]; [done|]. cbn [fmap list_fmap omap list_omap].
  unfold hint_of at 1, route_answer at 1, pb.GetRoute. cbn [pb.State].
  destruct (route_of _ now d u); cbn [mbind option_bind pb.RouteIdentity routeLease record_identity]; cbn; by rewrite IH.
Qed.

Abbreviation publication := (string * string * result publish_error unit)%type.
(** A record for the chunk of that number. *)
Definition chunk_record (message : pb.MessageView) (requestID : string) (count : Z) (d : gmap string record)
    (index : Z) (ids : list string) (p : publication) : Prop :=
  ∃ ts raw, p.1 = (pb.ConversationId message, raw) ∧ hints_for d ids ts
    ∧ print_task (push_task message requestID count index ids ts) = Some raw ∧ len raw ≤ 256 * 1024.
(** A chunk whose task has no text, or too long a one. *)
Definition unprintable (message : pb.MessageView) (requestID : string) (count : Z) (d : gmap string record)
    (index : Z) (ids : list string) : Prop :=
  ∃ ts, hints_for d ids ts ∧ ∀ raw, print_task (push_task message requestID count index ids ts) = Some raw → 256 * 1024 < len raw.

(** The run of the loop over the chunks from number [index] on: what it published, why it
    stopped and what it answers. *)
Inductive dispatched (message : pb.MessageView) (requestID : string) (count : Z) (d : gmap string record)
  : Z → Z → list (list string) → list publication → Z → Prop :=
| dispatched_all index published : dispatched message requestID count d index published [] [] pb.DISPATCH_STATE_QUEUED
| dispatched_one index published ids chunks p pubs st :
    chunk_record message requestID count d index ids p → p.2 = Ok tt →
    dispatched message requestID count d (index + 1) (published + 1) chunks pubs st →
    dispatched message requestID count d index published (ids :: chunks) (p :: pubs) st
| dispatched_failed index published ids chunks p e :
    chunk_record message requestID count d index ids p → p.2 = Err e →
    dispatched message requestID count d index published (ids :: chunks) [p]
      (if (published =? 0) && not_published e then pb.DISPATCH_STATE_NOT_QUEUED else pb.DISPATCH_STATE_UNKNOWN)
| dispatched_unprintable index published ids chunks :
    unprintable message requestID count d index ids →
    dispatched message requestID count d index published (ids :: chunks) []
      (if published =? 0 then pb.DISPATCH_STATE_NOT_QUEUED else pb.DISPATCH_STATE_UNKNOWN).

Lemma wp_on_world {A} (f : W → A * W) Q s :
  Q (f (l_world s)).1 (LogicState (f (l_world s)).2 (routing s) (kicks s) (metrics s) (publications s)) → wp (on_world f) Q s.
Proof. unfold wp, on_world. by destruct (f (l_world s)). Qed.

(** What a state keeps while nothing but publishing and counting happens. *)
Record extends (pubs : list publication) (s s' : logic_state W) : Prop := Extends {
  ext_routing : routing s' = routing s; ext_kicks : kicks s' = kicks s;
  ext_pubs : publications s' = publications s ++ pubs
}.
Lemma extends_refl s : extends [] s s.
Proof. constructor; try done. by rewrite app_nil_r. Qed.
Lemma extends_trans ps qs s1 s2 s3 : extends ps s1 s2 → extends qs s2 s3 → extends (ps ++ qs) s1 s3.
Proof. intros [? ? Hp] [? ? Hq]. constructor; [congruence..|]. by rewrite Hq, Hp, app_assoc. Qed.

Lemma wp_lookup ids s (Q : result RoutingStore.store_error (list pb.RouteLookupResult) → logic_state W → Prop) :
  RoutingStoreProofs.reachable (s_routes svc) (routing s) →
  (∀ looked s', hints_for (routing s) ids (hints_of looked) → extends [] s s' → Q looked s') →
  wp (routes env (λ f now d, Lookup (s_routes svc) f now ids d)) Q s.
Proof.
  intros Hd HQ. unfold routes. apply wp_bind, wp_on_world. cbn beta. apply wp_bind, wp_gets. cbn [routing].
  destruct (hints_of_lookup (le_redis env (l_world s)).1.1 (le_redis env (l_world s)).1.2 ids (routing s) Hd) as [Hsame Hh].
  destruct (Lookup _ _ _ ids (routing s)) as [r d]. cbn [fst snd] in Hsame, Hh. subst d.
  apply wp_bind, wp_modify, wp_ret. apply HQ; [done|]. constructor; try done. cbn. by rewrite app_nil_r.
Qed.
Lemma dispatch_chunks_spec message requestID count chunks index published s :
  RoutingStoreProofs.reachable (s_routes svc) (routing s) →
  wp (dispatch_chunks env svc message requestID count index published chunks)
     (λ st s', ∃ pubs, extends pubs s s' ∧ dispatched message requestID count (routing s) index published chunks pubs st) s.
Proof.
  revert index published s. induction chunks as [|ids chunks IH]; intros index published s Hd; cbn [dispatch_chunks].
  { apply wp_ret. exists []. split; [apply extends_refl|constructor]. }
  apply wp_bind, wp_lookup; [done|]. intros looked s1 Hh H1.
  destruct (print_task _) as [raw|] eqn:Hraw.
  2:{ apply wp_ret. exists []. split; [done|]. constructor. exists (hints_of looked). split; [done|]. by rewrite Hraw. }
  destruct (Z.ltb_spec (256 * 1024) (len raw)) as [Hlong|Hfits].
  { apply wp_ret. exists []. split; [done|]. constructor. exists (hints_of looked). split; [done|].
    rewrite Hraw. by intros ? [= <-]. }
  apply wp_bind, wp_on_world. cbn beta. destruct (le_publish env _ raw (l_world s1)) as [r w] eqn:Hr. cbn [fst snd].
  apply wp_bind, wp_modify. apply wp_bind. unfold observePublish, count_metric. apply wp_modify.
  assert (chunk_record message requestID count (routing s) index ids (pb.ConversationId message, raw, r)) as Hrec
    by (by exists (hints_of looked), raw).
  match goal with |- wp _ _ ?x => assert (extends [(pb.ConversationId message, raw, r)] s x) as H2 end.
  { destruct H1 as [Hrt Hk Hp]. constructor; cbn; try congruence. by rewrite Hp, app_nil_r. }
  destruct r as [[]|e].
  - eapply wp_mono; [apply IH; by rewrite (ext_routing _ _ _ H2)|]. intros st s3 (pubs&H3&Hds).
    exists ((pb.ConversationId message, raw, Ok tt) :: pubs). split; [exact (extends_trans _ _ _ _ _ H2 H3)|].
    rewrite (ext_routing _ _ _ H2) in Hds. by apply dispatched_one.
  - apply wp_ret. eexists. split; [exact H2|]. by apply dispatched_failed.
Qed.

Definition ok_publication (p : publication) : Prop := p.2 = Ok tt.
(** What the answer says of the records. *)
Lemma dispatched_answer message requestID count d index published chunks pubs st :
  0 ≤ published → dispatched message requestID count d index published chunks pubs st →
  (∀ k p, pubs !! k = Some p → ∃ ids, chunks !! k = Some ids ∧ chunk_record message requestID count d (index + Z.of_nat k) ids p)
  ∧ ((st = pb.DISPATCH_STATE_QUEUED ∧ length pubs = length chunks ∧ Forall ok_publication pubs)
     ∨ (¬ (length pubs = length chunks ∧ Forall ok_publication pubs)
        ∧ ((st = pb.DISPATCH_STATE_NOT_QUEUED ∧ published = 0
            ∧ (pubs = [] ∨ ∃ p e, pubs = [p] ∧ p.2 = Err e ∧ not_published e = true))
           ∨ (st = pb.DISPATCH_STATE_UNKNOWN ∧ (published = 0 → pubs ≠ [] ∧ ∀ p e, pubs = [p] → p.2 = Err e → not_published e = false))))).
Proof.
  intros Hp Hd. induction Hd as [index published|index published ids chunks p pubs st Hr Hok _ IH|index published ids chunks p e Hr He|index published ids chunks Hun].
  - split; [intros k p Hk; by rewrite lookup_nil in Hk|]. left. split_and!; [done|done|constructor].
  - destruct (IH ltac:(lia)) as [Hrec Hst]. split.
    + intros [|k] q Hk; cbn in Hk; [injection Hk as <-; exists ids; by rewrite Z.add_0_r|].
      destruct (Hrec k q Hk) as (ids'&Hc&Hq). exists ids'. split; [done|].
      by replace (index + Z.of_nat (S k)) with (index + 1 + Z.of_nat k) by lia.
    + destruct Hst as [(->&Hlen&Hall)|[Hn [(->&?&_)|(->&Hu)]]]; [left|lia|right].
      * split_and!; [done|cbn; congruence|by constructor].
      * split; [intros [Hlen Hall]; apply Hn; inversion Hall; split; [cbn in Hlen; lia|done]|]. right. split; [done|].
        intros _. split; [done|]. intros q e [= -> _] Hq. by rewrite Hok in Hq.
  - split; [intros [|k] q Hk; [injection Hk as <-; exists ids; by rewrite Z.add_0_r|done]|].
    right. split; [intros [_ Hall]; inversion Hall as [|? ? Hok]; unfold ok_publication in Hok; congruence|].
    destruct (Z.eqb_spec published 0) as [->|Hne]; cbn [andb]; [|right; done].
    destruct (not_published e) eqn:Hnp; [left|right].
    + split_and!; [done|done|right]. by exists p, e.
    + split; [done|]. intros _. split; [done|]. intros q e' [= ->] Hq. congruence.
  - split; [intros k q Hk; by rewrite lookup_nil in Hk|]. right. split; [by intros [? _]|].
    destruct (Z.eqb_spec published 0) as [->|Hne]; [left|right; done]. split_and!; [done|done|by left].
Qed.
(** When every task has a text within the bound, only the publisher stops the loop. *)
Lemma dispatched_stops message requestID count d index published chunks pubs st :
  (∀ k ids, chunks !! k = Some ids → ¬ unprintable message requestID count d (index + Z.of_nat k) ids) →
  dispatched message requestID count d index published chunks pubs st → Forall ok_publication pubs → length pubs = length chunks.
Proof.
  intros Hpr Hd. induction Hd as [| index published ids chunks p pubs st _ _ _ IH|index published ids chunks p e _ He|index published ids chunks Hun];
    intros Hall.
  - done.
  - cbn. f_equal. apply IH; [|by inversion Hall]. intros k ids' Hk. specialize (Hpr (S k) ids' Hk).
    by replace (index + 1 + Z.of_nat k) with (index + Z.of_nat (S k)) by lia.
  - inversion Hall as [|? ? Hok]. unfold ok_publication in Hok. congruence.
  - exfalso. apply (Hpr 0%nat ids eq_refl). by rewrite Z.add_0_r.
Qed.

Lemma dispatch_spec clientID saved requestID s :
  RoutingStoreProofs.reachable (s_routes svc) (routing s) →
  wp (dispatch env svc clientID saved requestID)
     (λ res s', ∃ pubs, extends pubs s s'
        ∧ dispatched (SavedMessage saved) requestID ((slen (Recipients saved) + 99) / 100) (routing s) 0 0
            (chunks_of (length (Recipients saved)) (Recipients saved)) pubs (Dispatch res)
        ∧ res = MkSendResult clientID true (SavedMessage saved) (Dispatch res) (Replayed saved)) s.
Proof.
  intros Hd. unfold dispatch. apply wp_bind. eapply wp_mono; [by apply dispatch_chunks_spec|].
  intros st s1 (pubs&H1&Hds). apply wp_bind. unfold observeDispatch, count_metric. apply wp_modify, wp_ret.
  exists pubs. split; [|done]. destruct H1 as []. by constructor.
Qed.

(** what [dispatch] does and says.  The recipients are cut into chunks of at most a
    hundred, in order and without loss; each record handed to the publisher is the task of
    the next chunk, under the key of the conversation, with the live routes of its users
    as hints or none.  The answer is QUEUED exactly when every chunk was published;
    NOT_QUEUED only when at most one record was handed out and the publisher said it was
    not published, and UNKNOWN only when some record may be out.  Whatever happens the
    message counts as stored and no lease or kick changes. *)
Theorem dispatch_exact clientID saved requestID s :
  RoutingStoreProofs.reachable (s_routes svc) (routing s) →
  let '(res, s') := dispatch env svc clientID saved requestID s in
  let chunks := chunks_of (length (Recipients saved)) (Recipients saved) in
  ∃ pubs,
    publications s' = publications s ++ pubs ∧ routing s' = routing s ∧ kicks s' = kicks s
    ∧ mjoin chunks = Recipients saved ∧ Forall (λ c, 1 ≤ slen c ≤ 100) chunks
    ∧ (∀ k p, pubs !! k = Some p → ∃ ids, chunks !! k = Some ids
         ∧ chunk_record (SavedMessage saved) requestID (slen chunks) (routing s) (Z.of_nat k) ids p)
    ∧ (Dispatch res = pb.DISPATCH_STATE_QUEUED ↔ length pubs = length chunks ∧ Forall ok_publication pubs)
    ∧ (Dispatch res = pb.DISPATCH_STATE_NOT_QUEUED ↔
         ¬ (length pubs = length chunks ∧ Forall ok_publication pubs)
         ∧ (pubs = [] ∨ ∃ p e, pubs = [p] ∧ p.2 = Err e ∧ not_published e = true))
    ∧ Stored res = true ∧ ResultMessage res = SavedMessage saved ∧ ResultReplayed res = Replayed saved
    ∧ ClientMessageId res = clientID.
Proof.
  intros Hd. pose proof (dispatch_spec clientID saved requestID s Hd) as Hspec. unfold wp in Hspec.
  destruct (dispatch env svc clientID saved requestID s) as [res s']. cbn [fst snd] in Hspec.
  destruct Hspec as (pubs&[Hr Hk Hp]&Hds&Hres). cbv zeta.
  destruct (chunks_of_spec _ (Recipients saved) (le_n _)) as (Hj&Hc&Hl). rewrite <-Hl in Hds.
  destruct (dispatched_answer _ _ _ _ _ _ _ _ _ (Z.le_refl 0) Hds) as [Hrec Hst].
  exists pubs. split_and!; try done; try (rewrite Hres; done).
  - destruct Hst as [(->&?&?)|[Hn [(->&_)|(->&_)]]]; split; done || intros Hh; by destruct (Hn Hh).
  - destruct Hst as [(->&?&?)|[Hn [(->&_&?)|(->&Hu)]]]; split; try done.
    + intros [Hn _]. by destruct Hn.
    + intros [_ [->|(p&e&->&Hpe&Hnp)]]; destruct (Hu eq_refl) as [Hne Hun]; [done|]. by rewrite (Hun p e eq_refl Hpe) in Hnp.
Qed.

(** ** What Job makes of it *)

Lemma validUser_agree s : RoutingStore.validUser s = JobTask.validID s "U".
Proof. done. Qed.
Lemma validInstance_agree s : RoutingStore.validInstance s = true → JobTask.validInstance s = true.
Proof.
  unfold RoutingStore.validInstance, JobTask.validInstance. rewrite !andb_true_iff, !negb_true_iff, !orb_false_iff, !Z.ltb_ge.
  intros [[? ?] ?]. rewrite Z.eqb_neq. split_and!; [lia|done|done].
Qed.
Lemma stored_connection_agree c : RoutingStore.validConnection (Some c) = true → JobTask.validConnection (Some c) = true.
Proof.
  unfold RoutingStore.validConnection, JobTask.validConnection. rewrite !andb_true_iff. intros [[[[Hu Hi] Hk] Hl] Ht].
  split_and!; try done. by apply validInstance_agree.
Qed.

Lemma timestamp_instant ns : as_ns (timestamp_of_ns ns) = ns.
Proof.
  unfold as_ns, timestamp_of_ns, second, millisecond. cbn [Seconds Nanos]. pose proof (Z.div_mod ns (1000 * 1000000)). lia.
Qed.
(** The message of a stored row is, for Job, the view of that row. *)
Lemma row_view row v : MessageStore.messageView row = Ok v → pb.Position v < 2 ^ 63 →
  JobTask.messageView (publicMessage v) = Ok v.
Proof.
  intros Hv Hpos. apply messageView_Ok in Hv as (Hv&Hid&Hm&Hsend&Ht&Hz&Htime&Ho&Hd). rewrite Hv in *.
  set (conv := pb.ConversationId v) in *. set (dst := pb.Destination_ v) in *. set (origin := pb.Origin v) in *. clearbody conv dst origin.
  cbn [pb.Position pb.ConversationId pb.Destination_ pb.Origin] in *.
  unfold publicMessage, JobTask.messageView. cbn [pb.Position pb.MessageId pb.ConversationId pb.SessionId pb.SenderId
    pb.Destination_ pb.Content pb.Origin pb.CreatedAt im.Position im.MessageID im.SendID im.CreatedAt im.Type_ im.Content
    im.Origin im.ReceiveType im.ReceiveID im.SessionID im.ConversationID t_ns t_offset default from_option].
  unfold id. rewrite timestamp_instant. fold (format_uint (ID row)).
  assert (format_uint (ID row) = format_int (ID row)) as -> by (unfold format_int; by rewrite (proj2 (Z.ltb_ge _ _)) by lia).
  rewrite parse_format_int by (unfold max_int64; lia). cbn [mbind result_bind].
  apply ensure_bind_Ok. split.
  { rewrite !andb_true_iff. split_and!; try done; [by apply Z.ltb_lt|by apply bool_decide_eq_true|].
    unfold is_zero. cbn [t_ns]. by apply negb_true_iff, Z.eqb_neq. }
  apply ensure_bind_Ok. split; [unfold validText in Ht; rewrite !andb_true_iff in *; naive_solver|].
  assert (∀ o : Z, o = pb.MESSAGE_ORIGIN_USER ∨ o = pb.MESSAGE_ORIGIN_AI →
    (let text := if o =? pb.MESSAGE_ORIGIN_AI then im.MessageOriginAI else im.MessageOriginUser in
     if bool_decide (text = im.MessageOriginUser) then Ok (E := task_error) pb.MESSAGE_ORIGIN_USER
     else if bool_decide (text = im.MessageOriginAI) then Ok pb.MESSAGE_ORIGIN_AI else Err ErrInvalidTask) = Ok o) as Horigin.
  { intros o' [-> | ->]; reflexivity. }
  specialize (Horigin origin Ho). cbv zeta in Horigin. rewrite Horigin. cbn [mbind result_bind].
  change (@MessageStore.validID H) with (@JobTask.validID H) in *.
  destruct Hd as [(->&Hses&Hrec&->)|(->&Hses&Hrec&Hne&->)]; cbn [default from_option pb.DestReceiveType pb.DestReceiveId].
  - change (if pb.RECEIVE_TYPE_GROUP =? pb.RECEIVE_TYPE_GROUP then im.ReceiveTypeGroup else im.ReceiveTypeUser) with im.ReceiveTypeGroup.
    rewrite (bool_decide_false (im.ReceiveTypeGroup = im.ReceiveTypeUser)), !(bool_decide_true (_ = _)), Hses by done. done.
  - change (if pb.RECEIVE_TYPE_USER =? pb.RECEIVE_TYPE_GROUP then im.ReceiveTypeGroup else im.ReceiveTypeUser) with im.ReceiveTypeUser.
    rewrite !(bool_decide_true (_ = _)), Hses, Hrec, (bool_decide_true (_ ≠ _)) by done. done.
Qed.

Lemma decodeRecipients_Ok raw ids : decodeRecipients raw = Ok ids →
  ids ≠ [] ∧ Forall (λ id, JobTask.validID id "U" = true) ids ∧ StronglySorted (strict String.le) ids.
Proof.
  unfold decodeRecipients. destruct (decode_ids raw) as [l|]; [|done]. rewrite ensure_bind_Ok, !andb_true_iff, !bool_decide_eq_true.
  intros [[[Hne Hv%forallb_Forall] Hsorted] [= <-]]. split_and!; [done|done|]. rewrite <-Hsorted. apply sortedUnique_spec.
Qed.
Lemma hints_users now d ids : db_valid (s_routes svc) d →
  im.UserID <$> (hint <$> omap (route_of (s_routes svc) now d) ids) `sublist_of` ids
  ∧ Forall (λ h, im.UserID h ∈ ids ∧ JobTask.validConnection (Some (connectionView h)) = true)
      (hint <$> omap (route_of (s_routes svc) now d) ids).
Proof.
  intros Hd. induction ids as [|u ids [IHs IHf]]; [split; constructor|]. cbn [omap list_omap].
  destruct (route_of (s_routes svc) now d u) as [r|] eqn:Hr; cbn [fmap list_fmap].
  - apply route_of_Some in Hr as [Hr _]. destruct (valid_routes _ _ Hd _ _ Hr) as (Hu&Hc&_). cbn [im.UserID hint]. rewrite Hu.
    split; [by constructor|]. constructor.
    + split; [cbn; rewrite Hu; apply list_elem_of_here|]. by apply stored_connection_agree.
    + eapply Forall_impl; [exact IHf|]. intros h [? ?]. split; [by apply list_elem_of_further|done].
  - split; [by constructor|]. eapply Forall_impl; [exact IHf|]. intros h [? ?]. split; [by apply list_elem_of_further|done].
Qed.

(** A message Logic may dispatch: one the store handed out, at a position that fits its
    column, with fewer than 2^32 recipients, and a request id that was validated. *)
Record dispatchable (saved : Saved) (requestID : string) : Prop := Dispatchable {
  dsp_row : readable_as saved;
  dsp_position : pb.Position (SavedMessage saved) < 2 ^ 63;
  dsp_count : slen (Recipients saved) < 2 ^ 32;
  dsp_request : requestID = "" ∨ printable requestID 128 = true
}.
Lemma push_publishable saved requestID d k ids ts :
  dispatchable saved requestID → RoutingStoreProofs.reachable (s_routes svc) d → hints_for d ids ts →
  chunks_of (length (Recipients saved)) (Recipients saved) !! k = Some ids →
  publishable (push_task (SavedMessage saved) requestID ((slen (Recipients saved) + 99) / 100) (Z.of_nat k) ids ts).
Proof.
  intros [(row&Hv&Hdec&Hdirect) Hpos Hcount Hreq] Hd Hts Hk.
  destruct (decodeRecipients_Ok _ _ Hdec) as (Hne&Hvalid&Hsorted).
  destruct (chunks_of_spec _ (Recipients saved) (le_n _)) as (_&Hsizes&Hlen).
  assert (1 ≤ slen ids ≤ 100) as Hsize by (rewrite Forall_lookup in Hsizes; by eapply Hsizes).
  destruct (chunks_of_sub _ _ ids ltac:(by eapply list_elem_of_lookup_2)) as (l&r&Hparts).
  assert (StronglySorted (strict String.le) ids) as Hids by (rewrite Hparts in Hsorted; by eapply sorted_part).
  assert (∀ x, x ∈ ids → x ∈ Recipients saved) as Hin by (intros x Hx; rewrite Hparts; set_solver).
  assert (0 ≤ Z.of_nat k < (slen (Recipients saved) + 99) / 100) as Hk'.
  { rewrite <-Hlen. unfold slen. apply lookup_lt_Some in Hk. lia. }
  assert ((slen (Recipients saved) + 99) / 100 < 2 ^ 32) as Hc32.
  { apply Z.div_lt_upper_bound; lia. }
  constructor; unfold push_task; cbn [im.ChunkIndex im.ChunkCount im.RequestID im.ReplayRunID];
    [|rewrite ?Z.mod_small by lia; try lia..| |done|by left].
  - constructor; cbn [im.SchemaVersion im.Kind im.ChunkIndex im.ChunkCount im.TaskID im.Message_ im.Recipients im.Targets im.PendingRecipients];
      rewrite ?Z.mod_small by lia; try done; try lia.
    + unfold format_int. by rewrite (proj2 (Z.ltb_ge (Z.of_nat k) 0)) by lia.
    + apply JobTaskProofs.messageView_ok. exists (SavedMessage saved). by eapply row_view.
    + apply Forall_forall. intros x Hx. rewrite Forall_forall in Hvalid. split; [by apply Hvalid, Hin|].
      intros Huser. pose proof (messageView_Ok _ _ Hv) as (Heq&_&_&_&_&_&_&_&Hdst).
      destruct Hdst as [(Hdst&_)|(Hdst&_)]; unfold publicMessage in Huser |- *; rewrite Hdst in *;
        cbn [default from_option pb.DestReceiveType pb.DestReceiveId im.ReceiveType im.SendID im.ReceiveID] in *;
        [by vm_compute in Huser|].
      pose proof (Hdirect _ _ _ Hv Hdst eq_refl Hdec x (Hin x Hx)) as Hx2.
      assert (pb.SenderId (SavedMessage saved) = SendID row) as -> by (by rewrite Heq).
      apply elem_of_cons in Hx2 as [->|Hx2]; [by left|right]. by apply list_elem_of_singleton in Hx2.
    + exists ts. split; [done|]. destruct Hts as [->|[now ->]]; [split; constructor|].
      destruct (hints_users now d ids (reachable_valid _ Hs d Hd)) as [Hsub Hall]. split; [|done].
      eapply sublist_NoDup; [|exact Hsub]. clear -Hids. induction Hids as [|x l _ IH Hx]; constructor; [|done].
      intros Hin. rewrite Forall_forall in Hx. by destruct (Hx x Hin).
    + split; constructor.
  - done.
Qed.

(** A list of answers for a list of questions. *)
Lemma choose_list {A B} (P : nat → A → B → Prop) l :
  (∀ k a, l !! k = Some a → ∃ b, P k a b) →
  ∃ bs, length bs = length l ∧ ∀ k a b, l !! k = Some a → bs !! k = Some b → P k a b.
Proof.
  revert P. induction l as [|x l IH]; intros P HP; [by exists []|].
  destruct (HP 0%nat x eq_refl) as [b Hb]. destruct (IH (λ k, P (S k))) as (bs&Hlen&Hbs); [intros k a Ha; by apply (HP (S k))|].
  exists (b :: bs). split; [by cbn; rewrite Hlen|]. intros [|k] a b' Ha Hb'; cbn in *; [by simplify_eq|by eapply Hbs].
Qed.
Lemma mjoin_take_prefix {A} n (l : list (list A)) : mjoin (take n l) `prefix_of` mjoin l.
Proof. exists (mjoin (drop n l)). rewrite <-join_app. by rewrite take_drop. Qed.

(** The task Job reads from a record for the chunk of that number. *)
Definition decodes_to (saved : Saved) (requestID : string) (p : publication) (t : im.PushTask) : Prop :=
  DecodeTask p.1.2 = Ok t ∧ payload_ok p.1.2 = true ∧ p.1.1 = pb.ConversationId (SavedMessage saved)
  ∧ (let session := pb.SessionId (SavedMessage saved) in lower_ascii (tail session) = tail session → validKey p.1.1 = true)
  ∧ JobTask.messageView (im.Message_ t) = Ok (SavedMessage saved) ∧ im.RequestID t = requestID
  ∧ im.PendingRecipients t = None.

(** The key of a stored message is one the publisher takes, if the id is in lower case. *)
Lemma row_key row v : MessageStore.messageView row = Ok v → lower_ascii (tail (pb.SessionId v)) = tail (pb.SessionId v) →
  validKey (pb.ConversationId v) = true.
Proof.
  intros Hv. apply messageView_Ok in Hv as (Heq&_&_&_&_&_&_&_&Hd).
  assert (pb.SessionId v = SessionID row) as -> by by rewrite Heq. intros Hl. clear Heq.
  assert (∀ prefix, MessageStore.validID (SessionID row) prefix = true →
    SessionID row = String prefix (tail (SessionID row)) ∧ JobTask.validUUID (tail (SessionID row)) = true) as Hid.
  { intros prefix. unfold MessageStore.validID. rewrite !andb_true_iff. intros [[_ Hh] Hu]. split; [|exact Hu].
    destruct (SessionID row) as [|c sid]; [done|]. apply bool_decide_eq_true in Hh as ->. done. }
  destruct Hd as [(_&Hg&_&->)|(_&Hses&_&_&->)].
  - destruct (Hid _ Hg) as [-> Hu]. cbn [tail]. apply (validKey_conversation "group:G"); [by right|done..].
  - destruct (Hid _ Hses) as [-> Hu]. cbn [tail]. apply (validKey_conversation "direct:S"); [by left|done..].
Qed.
Lemma record_task saved requestID d k ids p :
  dispatchable saved requestID → RoutingStoreProofs.reachable (s_routes svc) d →
  chunks_of (length (Recipients saved)) (Recipients saved) !! k = Some ids →
  chunk_record (SavedMessage saved) requestID ((slen (Recipients saved) + 99) / 100) d (Z.of_nat k) ids p →
  ∃ t, decodes_to saved requestID p t ∧ im.Recipients t = ids ∧ im.ChunkIndex t = Z.of_nat k mod 2 ^ 32.
Proof.
  intros Hdsp Hd Hk (ts&raw&Hp&Hts&Hraw&_). pose proof (push_publishable saved requestID d k ids ts Hdsp Hd Hts Hk) as Hpub.
  eexists. unfold decodes_to. rewrite Hp. cbn [fst snd].
  destruct (task_size _ Hpub) as (raw'&Hraw'&Hlen). rewrite Hraw in Hraw'. injection Hraw' as <-.
  pose proof (print_decode _ _ Hpub Hraw Hlen) as Hdec.
  destruct Hdsp as [(row&Hv&_) Hpos _ _].
  split_and!; [exact Hdec|by eapply payload_task|done|by eapply row_key|by eapply row_view|done..].
Qed.

Lemma dispatch_to_job clientID saved requestID s :
  RoutingStoreProofs.reachable (s_routes svc) (routing s) → dispatchable saved requestID →
  let '(res, s') := dispatch env svc clientID saved requestID s in
  ∃ pubs tasks, publications s' = publications s ++ pubs
    ∧ Forall2 (decodes_to saved requestID) pubs tasks
    ∧ mjoin (im.Recipients <$> tasks) `prefix_of` Recipients saved
    ∧ (Dispatch res = pb.DISPATCH_STATE_QUEUED ↔ Forall ok_publication pubs)
    ∧ (Dispatch res = pb.DISPATCH_STATE_QUEUED → mjoin (im.Recipients <$> tasks) = Recipients saved ∧ NoDup (mjoin (im.Recipients <$> tasks))).
Proof.
  intros Hd Hdsp. pose proof (dispatch_spec clientID saved requestID s Hd) as Hspec. unfold wp in Hspec.
  destruct (dispatch env svc clientID saved requestID s) as [res s']. cbn [fst snd] in Hspec.
  destruct Hspec as (pubs&[_ _ Hp]&Hds&_). set (chunks := chunks_of (length (Recipients saved)) (Recipients saved)) in *.
  destruct (chunks_of_spec _ (Recipients saved) (le_n _)) as (Hj&_&_). fold chunks in Hj.
  destruct (dispatched_answer _ _ _ _ _ _ _ _ _ (Z.le_refl 0) Hds) as [Hrec Hst].
  destruct (choose_list (λ k p t, decodes_to saved requestID p t ∧ chunks !! k = Some (im.Recipients t)) pubs) as (tasks&Hlen&Htasks).
  { intros k p Hk. destruct (Hrec k p Hk) as (ids&Hids&Hrecord). rewrite Z.add_0_l in Hrecord.
    destruct (record_task saved requestID (routing s) k ids p Hdsp Hd Hids Hrecord) as (t&?&<-&_). by exists t. }
  assert (im.Recipients <$> tasks = take (length pubs) chunks) as Htake.
  { apply list_eq. intros k. rewrite list_lookup_fmap. destruct (tasks !! k) as [t|] eqn:Ht.
    - assert (is_Some (pubs !! k)) as [p Hk] by (apply lookup_lt_is_Some; rewrite <-Hlen; by eapply lookup_lt_Some).
      destruct (Htasks k p t Hk Ht) as [_ Hc]. rewrite lookup_take_lt by (by eapply lookup_lt_Some). by rewrite Hc.
    - apply lookup_ge_None in Ht. symmetry. apply lookup_take_ge. lia. }
  assert (Forall ok_publication pubs → length pubs = length chunks) as Hstop.
  { eapply dispatched_stops; [|exact Hds]. intros k ids Hk (ts&Hts&Hun). rewrite Z.add_0_l in Hun.
    destruct (task_size _ (push_publishable saved requestID (routing s) k ids ts Hdsp Hd Hts Hk)) as (raw&Hraw&Hle).
    specialize (Hun raw Hraw). lia. }
  assert (Dispatch res = pb.DISPATCH_STATE_QUEUED ↔ Forall ok_publication pubs) as Hqueued.
  { destruct Hst as [(->&?&?)|[Hn [(->&_)|(->&_)]]]; (split; [done|]); [done|intros Hall; destruct Hn; auto..]. }
  exists pubs, tasks. split_and!; [done| | |done|].
  - apply Forall2_same_length_lookup_2; [done|]. intros k p t Hk Ht. by apply (Htasks k).
  - rewrite Htake, <-Hj. apply mjoin_take_prefix.
  - intros Hq%Hqueued. rewrite Htake, Hstop, firstn_all, Hj by done. split; [done|].
    destruct Hdsp as [(row&_&Hdec&_) _ _ _]. destruct (decodeRecipients_Ok _ _ Hdec) as (_&_&Hsorted).
    clear -Hsorted. induction Hsorted as [|x l _ IH Hx]; constructor; [|done].
    intros Hin. rewrite Forall_forall in Hx. by destruct (Hx x Hin).
Qed.

(** C11: what Logic publishes, Job accepts.  For every message the store handed out, each
    record [dispatch] gives to the publisher is a payload the publisher takes, under a key
    it takes when the id of the session is in lower case, and Job decodes it to a task for this very message, for the next recipients, and for nobody
    else.  No task is ever too large or unprintable: the answer is QUEUED exactly when no
    publication failed, and then the tasks name every recipient exactly once, in order. *)
Theorem Logic_to_Job clientID saved requestID s :
  RoutingStoreProofs.reachable (s_routes svc) (routing s) → dispatchable saved requestID →
  let '(res, s') := dispatch env svc clientID saved requestID s in
  ∃ pubs tasks, publications s' = publications s ++ pubs
    ∧ Forall2 (decodes_to saved requestID) pubs tasks
    ∧ mjoin (im.Recipients <$> tasks) `prefix_of` Recipients saved
    ∧ (Dispatch res = pb.DISPATCH_STATE_QUEUED ↔ Forall ok_publication pubs)
    ∧ (Dispatch res = pb.DISPATCH_STATE_QUEUED → mjoin (im.Recipients <$> tasks) = Recipients saved ∧ NoDup (mjoin (im.Recipients <$> tasks))).
Proof. apply dispatch_to_job. Qed.
End Dispatch.

(** ** A concrete dispatch *)

(** A world in which everything answers: Redis at one instant, the publisher always. *)
Definition quiet_env : logic_env unit :=
  LogicEnv unit (λ w, ((Answered, 2000), w)) (λ _ w, (Err ErrDatabase, w)) (λ _ _ _ _ w, (Err ErrDatabase, w))
    (λ _ _ w, (Ok tt, w)) (λ _ _ w, (None, w)) (λ _ w, (Ok true, w)) (λ w, (fresh1, w)) (λ w, (Ok tt, w))
    (λ _ w, (true, w)) (λ _ _ _ w, w).
Definition kick_token : string := "0123456789abcdef0123456789abcdeX".
Definition comet_token : string := "0123456789abcdef0123456789abcdeY".
Definition sample_grant : CometGrant := MkGrant sample_comet "127.0.0.1:7000" comet_token.
Definition sample_service : Service := MkService sample_store job_token job_token kick_token [sample_grant].
Definition connected_state : logic_state unit := LogicState tt connected [] (λ _, 0) [].
Definition sample_dispatch : SendResult * logic_state unit :=
  dispatch (H := Reference.external) quiet_env sample_service client1 sample_saved "request 1" connected_state.

Lemma sample_dispatchable : dispatchable (H := Reference.external) sample_saved "request 1".
Proof.
  constructor; [|done|done|by right].
  by destruct (@Save_readable Reference.external Reference.external_laws no_fault Committed fresh1 (5 * second) sample_input
    sample_tables sample_saved sample_history sample_tables_ok sample_save_Ok).
Qed.
Lemma sample_dispatch_queued : Dispatch sample_dispatch.1 = pb.DISPATCH_STATE_QUEUED.
Proof. vm_compute. reflexivity. Qed.

Lemma dispatch_exact_witness :
  Dispatch sample_dispatch.1 = pb.DISPATCH_STATE_QUEUED ∧ length (publications sample_dispatch.2) = 1%nat.
Proof.
  split; [exact sample_dispatch_queued|].
  pose proof (@dispatch_exact Reference.external Reference.external_laws unit quiet_env sample_service sample_shaped
    client1 sample_saved "request 1" connected_state connected_reachable) as Hd.
  pose proof sample_dispatch_queued as Hq. unfold sample_dispatch in *.
  destruct (dispatch _ _ _ _ _ _) as [res s']. destruct Hd as (pubs&Hp&_&_&_&_&_&Hqueued&_).
  apply Hqueued in Hq as [Hlen _]. cbn [snd]. rewrite Hp. exact Hlen.
Defined.
Lemma Logic_to_Job_witness :
  ∃ pubs tasks, publications sample_dispatch.2 = pubs
    ∧ Forall2 (decodes_to (H := Reference.external) sample_saved "request 1") pubs tasks
    ∧ mjoin (im.Recipients <$> tasks) = [user1; user2].
Proof.
  pose proof (@Logic_to_Job Reference.external Reference.external_laws unit quiet_env sample_service sample_shaped
    client1 sample_saved "request 1" connected_state connected_reachable sample_dispatchable) as Hd.
  pose proof sample_dispatch_queued as Hq. unfold sample_dispatch in *.
  destruct (dispatch _ _ _ _ _ _) as [res s']. destruct Hd as (pubs&tasks&Hp&Hall&_&_&Hqueued).
  destruct (Hqueued Hq) as [Hj _]. by exists pubs, tasks.
Defined.
