(* ===== verification/LogicService.v ===== *)
(** * The Logic service: [internal/logic/service.go], [transport.go] and [auth/jwt.go]

    The handlers of the internal RPC, over the state of [LogicDispatch].  [md] is the list
    of authorization values of the request's metadata; a nil request is [None].  A context
    that ends shows as an error of the operation that notices it. *)
From S2P Require Import Prelude GoStd GoTime GoNet External Dto RoutingStore KafkaPush MessageStore CometRpc LogicDispatch.
Local Open Scope Z_scope.

(** ** Errors *)

(** What the handlers map to a status: the errors of the stores and of the users table. *)
Inductive service_error : Type :=
| FromRoutes (e : RoutingStore.store_error)
| FromMessages (e : MessageStore.store_error)
| FromUsers (e : option context_error).

Definition rpcError (c : code) (reason retry : Z) (id : string) : status_error :=
  StatusError c [Some (pb.MkErrorDetail reason retry id)].
Definition error_context (e : service_error) : option context_error :=
  match e with FromRoutes (ErrDependency c) => c | FromUsers c => c | _ => None end.
Definition mapError (e : service_error) (id : string) : status_error :=
  match error_context e with
  | Some c => StatusError (context_code c) []
  | None =>
    match e with
    | FromRoutes RoutingStore.ErrInvalid | FromMessages MessageStore.ErrInvalid =>
      rpcError InvalidArgument pb.REASON_INVALID_ARGUMENT pb.DO_NOT_RETRY id
    | FromMessages ErrForbidden => rpcError PermissionDenied pb.REASON_PERMISSION_DENIED pb.DO_NOT_RETRY id
    | FromMessages MessageStore.ErrConflict | FromRoutes RoutingStore.ErrConflict =>
      rpcError AlreadyExists pb.REASON_IDEMPOTENCY_CONFLICT pb.DO_NOT_RETRY id
    | FromRoutes ErrNotRegistered => rpcError FailedPrecondition pb.REASON_INSTANCE_NOT_REGISTERED pb.REFRESH_ROUTE id
    | FromRoutes ErrSuperseded => rpcError FailedPrecondition pb.REASON_SUPERSEDED pb.RECONNECT id
    | FromRoutes ErrLeaseExpired => rpcError FailedPrecondition pb.REASON_LEASE_EXPIRED pb.RECONNECT id
    | FromRoutes ErrDraining => rpcError Unavailable pb.REASON_DRAINING pb.REFRESH_ROUTE id
    | _ => rpcError Unavailable pb.REASON_DEPENDENCY_UNAVAILABLE pb.SAME_REQUEST id
    end
  end.
Definition invalidRequest (id : string) : status_error := mapError (FromRoutes RoutingStore.ErrInvalid) id.
Definition unauthenticated (id : string) : status_error :=
  rpcError Unauthenticated pb.REASON_UNAUTHENTICATED pb.REAUTHENTICATE id.
Definition permissionDenied : status_error := rpcError PermissionDenied pb.REASON_PERMISSION_DENIED pb.DO_NOT_RETRY "".

(** ** Requests *)

Record RegisterCometRequest : Type := MkRegister { RegIdentity : option pb.CometIdentity; RegAddress : string; RegRequestId : string }.
Record RenewCometRequest : Type := MkRenew { RenIdentity : option pb.CometIdentity; RenDraining : bool; RenRequestId : string }.
Record UnregisterCometRequest : Type := MkUnregister { UnrIdentity : option pb.CometIdentity; UnrRequestId : string }.
Record ConnectRequest : Type := MkConnect {
  ConComet : option pb.CometIdentity; ConConnectionId : string; ConRouteToken : string; UserJwt : string; ConRequestId : string
}.
(** [HeartbeatRequest] and [DisconnectRequest]. *)
Record ConnectionRequest : Type := MkConnectionRequest { CnrIdentity : option pb.ConnectionIdentity; CnrRequestId : string }.
Record SubmitMessageRequest : Type := MkSubmit {
  SubIdentity : option pb.ConnectionIdentity; SubClientMessageId : string; SubDestination : option pb.Destination;
  SubContent : string; SubRequestId : string
}.
(** [LookupRoutesRequest] and [ResolveCometsRequest]. *)
Record IdsRequest : Type := MkIds { ReqIds : list string; IdsRequestId : string }.

(** The arguments of [NewService]; the [bool]s tell whether a dependency is given. *)
Record Config : Type := MkConfig {
  cfg_routes : option RoutingStore.Store; cfg_messages : bool; cfg_publisher : bool; JWTSecret : string;
  cfg_jobToken : string; cfg_kickToken : string;
  Comets : list (option pb.CometIdentity * string * string); cfg_userExists : bool
}.

Section Service.
Context `{External}.

(** ** Validation *)

Definition validToken (s : string) : bool :=
  negb ((len s <? 32) || (256 <? len s)) && forallb (λ r, negb ((r <=? 32) || (126 <? r))) (runes s).
Definition nil_uuid : string := "00000000-0000-0000-0000-000000000000".
Definition validUUID (s : string) : bool := (len s =? 36) && bool_decide (s ≠ nil_uuid) && uuid_validate s.
Definition validID (s : string) (p : ascii) : bool := (len s =? 37) && head_is s p && validUUID (tail s).
Definition instance_rune (r : Z) : bool := in_range 97 122 r || in_range 48 57 r || (r =? 45).
Definition validInstance (s : string) : bool :=
  negb ((len s =? 0) || (64 <? len s)) && forallb instance_rune (runes s).
Definition validComet (i : option pb.CometIdentity) : bool :=
  match i with Some i => validInstance (pb.CometInstanceId i) && validUUID (pb.BootId i) | None => false end.
Definition validRequestID (s : string) : bool :=
  negb (128 <? len s) && forallb (λ r, negb ((r <? 32) || (126 <? r))) (runes s).
Definition localAddress (address : string) : bool :=
  match split_host_port address with
  | None => false
  | Some (host, port) =>
    match atoi port with
    | None => false
    | Some n =>
      (0 <? n) && (n <=? 65535)
      && (bool_decide (host = "localhost") || match parse_ip host with Some ip => is_loopback ip | None => false end)
    end
  end.

(** ** Construction *)

(** The loop over the grants, with the tokens and the instances seen so far. *)
Fixpoint check_grants (tokens ids : list string) (l : list (option pb.CometIdentity * string * string)) : option (list CometGrant) :=
  match l with
  | [] => Some []
  | (id, address, token) :: l' =>
    match id with
    | Some c =>
      if negb (validComet id) || negb (validToken token) || bool_decide (token ∈ tokens)
         || bool_decide (pb.CometInstanceId c ∈ ids) || negb (localAddress address)
      then None
      else r ← check_grants (token :: tokens) (pb.CometInstanceId c :: ids) l'; Some (MkGrant c address token :: r)
    | None => None
    end
  end.
Definition NewService (c : Config) : option Service :=
  match cfg_routes c with
  | None => None
  | Some routes =>
    if negb (cfg_messages c) || negb (cfg_publisher c) || (len (JWTSecret c) <? 32) || negb (validToken (cfg_jobToken c))
       || negb (validToken (cfg_kickToken c)) || bool_decide (cfg_jobToken c = cfg_kickToken c)
       || (slen (Comets c) =? 0) || negb (cfg_userExists c)
    then None
    else grants ← check_grants [cfg_jobToken c; cfg_kickToken c] [] (Comets c);
         Some (MkService routes (JWTSecret c) (cfg_jobToken c) (cfg_kickToken c) grants)
  end.

(** ** Authorisation *)

(** No token is the empty string. *)
Definition bearer (md : list string) : string :=
  match md with [v] => default "" (cut_prefix "Bearer " v) | _ => "" end.

Context {W : Type} (env : logic_env W) (svc : Service).
#[local] Abbreviation M := (ST (logic_state W)).

(** The first grant with that token. *)
Definition cometAuth (md : list string) (id : option pb.CometIdentity) (instance : string) : result status_error CometGrant :=
  let token := bearer md in
  match find (λ g, bool_decide (token = g_token g)) (grants svc) with
  | Some g =>
    let mine := g_identity g in
    match id with
    | Some id =>
      if bool_decide (pb.CometInstanceId id ≠ pb.CometInstanceId mine) || bool_decide (pb.BootId id ≠ pb.BootId mine)
      then Err permissionDenied else Ok g
    | None => if bool_decide (instance ≠ pb.CometInstanceId mine) then Err permissionDenied else Ok g
    end
  | None =>
    if bool_decide (token = jobToken svc) || bool_decide (token = kickToken svc) then Err permissionDenied
    else Err (unauthenticated "")
  end.
Definition jobAuth (md : list string) : result status_error unit :=
  let token := bearer md in
  if bool_decide (token = jobToken svc) then Ok tt
  else if existsb (λ g, bool_decide (token = g_token g)) (grants svc) then Err permissionDenied
  else if bool_decide (token = kickToken svc) then Err permissionDenied
  else Err (unauthenticated "").

(** [auth.ParseJWT]: only HS256 has a key, and the claims name a user. *)
Definition ParseJWT (raw : string) : M (option claims) :=
  (r ← on_world (le_jwt env raw (λ method, if bool_decide (method = "HS256") then Some (jwtKey svc) else None));
   mret (match r with
         | Some (valid, c) => if negb valid || bool_decide (UserUUID c = "") then None else Some c
         | None => None
         end)).

(** ** Comet leases *)

Definition answer_route {A B} (id : string) (f : A → B) (r : result RoutingStore.store_error A) : result status_error B :=
  match r with Ok a => Ok (f a) | Err e => Err (mapError (FromRoutes e) id) end.

Definition RegisterComet (md : list string) (r : option RegisterCometRequest) : M (result status_error (option pb.CometLease)) :=
  match r with
  | None => mret (Err (invalidRequest ""))
  | Some r =>
    match cometAuth md (RegIdentity r) "" with
    | Err e => mret (Err e)
    | Ok grant =>
      if negb (validRequestID (RegRequestId r)) || bool_decide (RegAddress r ≠ g_address grant)
      then mret (Err (invalidRequest ""))
      else answer_route (RegRequestId r) id <$>
           routes env (λ f now, Register (s_routes svc) f now (RegIdentity r) (RegAddress r))
    end
  end.
Definition RenewComet (md : list string) (r : option RenewCometRequest) : M (result status_error (option pb.CometLease)) :=
  match r with
  | None => mret (Err (invalidRequest ""))
  | Some r =>
    match cometAuth md (RenIdentity r) "" with
    | Err e => mret (Err e)
    | Ok _ =>
      if negb (validRequestID (RenRequestId r)) then mret (Err (invalidRequest ""))
      else answer_route (RenRequestId r) id <$>
           routes env (λ f now, Renew (s_routes svc) f now (RenIdentity r) (RenDraining r))
    end
  end.
Definition UnregisterComet (md : list string) (r : option UnregisterCometRequest) : M (result status_error Z) :=
  match r with
  | None => mret (Err (invalidRequest ""))
  | Some r =>
    match cometAuth md (UnrIdentity r) "" with
    | Err e => mret (Err e)
    | Ok _ =>
      if negb (validRequestID (UnrRequestId r)) then mret (Err (invalidRequest ""))
      else answer_route (UnrRequestId r) id <$> routes env (λ f now, Unregister (s_routes svc) f now (UnrIdentity r))
    end
  end.

(** ** Connections *)

Definition sameConnection (a b : option pb.ConnectionIdentity) : bool :=
  match a, b with
  | Some a, Some b =>
    bool_decide (pb.UserId a = pb.UserId b) && bool_decide (pb.InstanceId a = pb.InstanceId b)
    && bool_decide (pb.ConnectionId a = pb.ConnectionId b) && bool_decide (pb.RouteToken a = pb.RouteToken b)
  | _, _ => false
  end.
(** The queue of kicks holds 128; a kick that does not fit is dropped. *)
Definition queue_kick (old : option pb.ConnectionIdentity) : M unit :=
  match old with
  | Some target => n ← gets (λ s, slen (kicks s)); when (n <? 128) (push_kick target)
  | None => mret tt
  end.
Definition Connect (md : list string) (r : option ConnectRequest)
  : M (result status_error (option pb.RouteLease * option pb.RouteLease)) :=
  match r with
  | None => mret (Err (invalidRequest ""))
  | Some r =>
    match cometAuth md (ConComet r) "" with
    | Err e => mret (Err e)
    | Ok _ =>
      if negb (validRequestID (ConRequestId r)) || (8192 <? len (UserJwt r)) then mret (Err (invalidRequest ""))
      else
        c ← ParseJWT (UserJwt r);
        match c with
        | None => mret (Err (unauthenticated (ConRequestId r)))
        | Some c =>
          if negb (validID (UserUUID c) "U") then mret (Err (unauthenticated (ConRequestId r)))
          else
            exists_ ← on_world (le_user_exists env (UserUUID c));
            match exists_ with
            | Err e => mret (Err (mapError (FromUsers e) (ConRequestId r)))
            | Ok false => mret (Err (unauthenticated (ConRequestId r)))
            | Ok true =>
              out ← routes env (λ f now, RoutingStore.Connect (s_routes svc) f now (ConComet r) (UserUUID c)
                                           (ConConnectionId r) (ConRouteToken r) (ExpiresAt c));
              match out with
              | Err e => mret (Err (mapError (FromRoutes e) (ConRequestId r)))
              | Ok (route, old) =>
                match old with
                | Some o =>
                  when (negb (sameConnection (pb.RouteIdentity o) (r ← route; pb.RouteIdentity r)))
                    (queue_kick (pb.RouteIdentity o));;
                  mret (Ok (route, old))
                | None => mret (Ok (route, old))
                end
              end
            end
        end
    end
  end.

Definition connectionAuth (md : list string) (id : option pb.ConnectionIdentity) : M (result status_error CometGrant) :=
  match id with
  | None => mret (Err (invalidRequest ""))
  | Some id =>
    match cometAuth md None (pb.InstanceId id) with
    | Err e => mret (Err e)
    | Ok g =>
      leases ← routes env (λ f now, Resolve (s_routes svc) f now [pb.InstanceId id]);
      mret (match leases with
            | Err e => Err (mapError (FromRoutes e) "")
            | Ok [r] =>
              match l ← pb.GetLease r; pb.LeaseIdentity l with
              | Some i => if bool_decide (pb.BootId i ≠ pb.BootId (g_identity g))
                          then Err (mapError (FromRoutes ErrNotRegistered) "") else Ok g
              | None => Err (mapError (FromRoutes ErrNotRegistered) "")
              end
            | Ok _ => Err (mapError (FromRoutes ErrNotRegistered) "")
            end)
    end
  end.
Definition Heartbeat (md : list string) (r : option ConnectionRequest) : M (result status_error (option pb.RouteLease)) :=
  match r with
  | None => mret (Err (invalidRequest ""))
  | Some r =>
    if negb (validRequestID (CnrRequestId r)) then mret (Err (invalidRequest ""))
    else
      a ← connectionAuth md (CnrIdentity r);
      match a with
      | Err e => mret (Err e)
      | Ok _ => answer_route (CnrRequestId r) id <$>
                routes env (λ f now, RoutingStore.Heartbeat (s_routes svc) f now (CnrIdentity r))
      end
  end.
Definition Disconnect (md : list string) (r : option ConnectionRequest) : M (result status_error Z) :=
  match r with
  | None => mret (Err (invalidRequest ""))
  | Some r =>
    if negb (validRequestID (CnrRequestId r)) then mret (Err (invalidRequest ""))
    else
      match CnrIdentity r with
      | None => mret (Err (invalidRequest ""))
      | Some c =>
        match cometAuth md None (pb.InstanceId c) with
        | Err e => mret (Err e)
        | Ok _ => answer_route (CnrRequestId r) id <$>
                  routes env (λ f now, RoutingStore.Disconnect (s_routes svc) f now (Some c))
        end
      end
  end.

(** ** Messages *)

(** The checks of a submission before anything is looked up. *)
Definition submit_ok (r : SubmitMessageRequest) : bool :=
  validRequestID (SubRequestId r) && validUUID (SubClientMessageId r) && bool_decide (SubContent r ≠ "")
  && negb (16384 <? len (SubContent r)) && utf8_valid (SubContent r).
Definition SubmitMessage (md : list string) (r : option SubmitMessageRequest) : M (result status_error SendResult) :=
  match r with
  | None => mret (Err (invalidRequest ""))
  | Some r =>
    if negb (submit_ok r) then mret (Err (invalidRequest ""))
    else
      a ← connectionAuth md (SubIdentity r);
      match a, SubIdentity r with
      | Err e, _ => mret (Err e)
      | Ok _, None => mret (Err (invalidRequest ""))
      | Ok _, Some c =>
        checked ← routes env (λ f now, Check_ (s_routes svc) f now (Some c));
        match checked with
        | Err e => mret (Err (mapError (FromRoutes e) (SubRequestId r)))
        | Ok _ =>
          saved ← on_world (le_save env (MkInput (pb.UserId c) (SubClientMessageId r) (SubDestination r) (SubContent r)));
          observeSave saved;;
          match saved with
          | Err e => mret (Err (mapError (FromMessages e) (SubRequestId r)))
          | Ok sv => Ok <$> dispatch env svc (SubClientMessageId r) sv (SubRequestId r)
          end
        end
      end
  end.
Definition SendAI (user session clientID content : string) : M (result service_error SendResult) :=
  (requestID ← on_world (le_uuid env);
   p ← on_world (le_ping env);
   match p with
   | Err e => mret (Err (FromRoutes e))
   | Ok _ =>
     clientID ← (if bool_decide (clientID = "") then on_world (le_uuid env) else mret clientID);
     saved ← on_world (le_save_ai env user session clientID content);
     observeSave saved;;
     match saved with
     | Err e => mret (Err (FromMessages e))
     | Ok sv => Ok <$> dispatch env svc clientID sv requestID
     end
   end).

(** ** Job's questions *)

Definition LookupRoutes (md : list string) (r : option IdsRequest) : M (result status_error (list pb.RouteLookupResult)) :=
  match jobAuth md with
  | Err e => mret (Err e)
  | Ok _ =>
    match r with
    | None => mret (Err (invalidRequest ""))
    | Some r =>
      if negb (validRequestID (IdsRequestId r)) then mret (Err (invalidRequest ""))
      else answer_route (IdsRequestId r) id <$> routes env (λ f now, Lookup (s_routes svc) f now (ReqIds r))
    end
  end.
Definition ResolveComets (md : list string) (r : option IdsRequest) : M (result status_error (list pb.CometResolution)) :=
  match jobAuth md with
  | Err e => mret (Err e)
  | Ok _ =>
    match r with
    | None => mret (Err (invalidRequest ""))
    | Some r =>
      if negb (validRequestID (IdsRequestId r)) then mret (Err (invalidRequest ""))
      else answer_route (IdsRequestId r) id <$> routes env (λ f now, Resolve (s_routes svc) f now (ReqIds r))
    end
  end.

(** ** Kicking ([transport.go]) *)

(** Whether a lease is of a provisioned instance, boot and address. *)
Definition provisioned (l : pb.CometLease) : bool :=
  match pb.LeaseIdentity l with
  | None => false
  | Some i =>
    existsb (λ g, bool_decide (pb.CometInstanceId (g_identity g) = pb.CometInstanceId i)
                  && bool_decide (pb.BootId (g_identity g) = pb.BootId i)
                  && bool_decide (g_address g = pb.RpcAddress l)) (grants svc)
  end.
Definition pop_kick : M (option pb.ConnectionIdentity) := λ s,
  match kicks s with
  | [] => (None, s)
  | t :: ts => (Some t, LogicState (l_world s) (routing s) ts (metrics s) (publications s))
  end.
(** One task of a worker.  It answers the call it made, if any: the address it dialled, the
    credential and the request. *)
Definition kickWorker : M (option (string * string * KickRequest)) :=
  (t ← pop_kick;
   match t with
   | None => mret None
   | Some target =>
     resolved ← routes env (λ f now, Resolve (s_routes svc) f now [pb.InstanceId target]);
     match resolved with
     | Ok [r] =>
       match pb.GetLease r with
       | None => mret None
       | Some lease =>
         if negb (provisioned lease) then mret None
         else
           ok ← on_world (le_dial env (pb.RpcAddress lease));
           if negb ok then mret None
           else
             let authorization := "Bearer " +:+ kickToken svc in
             let request := MkKickRequest (pb.LeaseIdentity lease) (Some target) pb.KICK_REASON_REPLACED "" in
             on_world (λ w, (tt, le_kick env (pb.RpcAddress lease) authorization request w));;
             mret (Some (pb.RpcAddress lease, authorization, request))
       end
     | _ => mret None
     end
   end).
End Service.
