(* ===== verification/LogicServiceProofs.v ===== *)
(** * The Logic service: grants, leases and what Job may rely on

    Every handler is one call of the routing store at most, made on behalf of the grant
    whose token the request carries.  From that follow the fences between Comets, an
    invariant of the state of the service, and the agreement with Job. *)
From S2P Require Import Prelude GoStd GoTime GoText GoNet External Json Dto JobTask JobTaskProofs JsonPrint TaskRound TaskSize JobProcessor JobProcessorProofs JobComet RoutingStore RoutingStoreProofs KafkaPush MessageStore MessageStoreProofs CometRpc LogicDispatch LogicDispatchProofs LogicService Samples.
Local Open Scope Z_scope.

(** ** What the service relies on

    [inv] is an invariant of the world which no operation breaks.  Redis answers at sane
    instants, and a saved message is one the store can read back: its position fits the
    column and its recipients a JSON column. *)
Class LogicWorld `{External} {W} (env : logic_env W) (store : RoutingStore.Store) (inv : W → Prop) : Prop := {
  world_redis w : inv w → clock_ok store (le_redis env w).1.2 ∧ inv (le_redis env w).2;
  world_save i w : inv w → inv (le_save env i w).2
    ∧ ∀ sv, (le_save env i w).1 = Ok sv →
        readable_as sv ∧ pb.Position (SavedMessage sv) < 2 ^ 63 ∧ slen (Recipients sv) < 2 ^ 32;
  world_save_ai u ses c t w : inv w → inv (le_save_ai env u ses c t w).2
    ∧ ∀ sv, (le_save_ai env u ses c t w).1 = Ok sv →
        readable_as sv ∧ pb.Position (SavedMessage sv) < 2 ^ 63 ∧ slen (Recipients sv) < 2 ^ 32;
  world_publish k raw w : inv w → inv (le_publish env k raw w).2;
  world_jwt raw key w : inv w → inv (le_jwt env raw key w).2;
  world_user u w : inv w → inv (le_user_exists env u w).2;
  world_uuid w : inv w → printable (le_uuid env w).1 128 = true ∧ inv (le_uuid env w).2;
  world_ping w : inv w → inv (le_ping env w).2;
  world_dial a w : inv w → inv (le_dial env a w).2;
  world_kick a b k w : inv w → inv (le_kick env a b k w)
}.

Section Service.
Context `{External, !ExternalLaws _} {W : Type} (env : logic_env W) (svc : Service) (Hs : shaped (s_routes svc)).
Context (inv : W → Prop) `{!LogicWorld env (s_routes svc) inv}.
Abbreviation store := (s_routes svc).
Abbreviation publication := (string * string * result publish_error unit)%type.

(** ** One call at most *)

(** The calls a Comet may cause: about itself, with its address, or about connections
    through itself. *)
Definition on_behalf (g : CometGrant) (c : call) : Prop :=
  match c with
  | CRegister (Some id) a => id = g_identity g ∧ a = g_address g
  | CRenew (Some id) _ | CUnregister (Some id) | CConnect (Some id) _ _ _ _ => id = g_identity g
  | CHeartbeat (Some id) | CDisconnect (Some id) => pb.InstanceId id = pb.CometInstanceId (g_identity g)
  | _ => False
  end.
(** The change of the lease table a request with these credentials may cause. *)
Definition served_for (md : list string) (d d' : gmap string record) : Prop :=
  d' = d ∨ ∃ g f now c, g ∈ grants svc ∧ bearer md = g_token g ∧ on_behalf g c ∧ clock_ok store now
    ∧ d' = effect store f now c d.

Lemma reads_same f now c d : (match c with CCheck _ | CLookup _ | CResolve _ => True | _ => False end) →
  effect store f now c d = d.
Proof. intros Hc. pose proof (effect_change store f now c d) as Hch. inversion Hch; subst; try done; congruence. Qed.
Lemma comet_auth_grant md id instance g : cometAuth svc md id instance = Ok g →
  g ∈ grants svc ∧ bearer md = g_token g
  ∧ match id with Some i => i = g_identity g | None => instance = pb.CometInstanceId (g_identity g) end.
Proof.
  unfold cometAuth. destruct (find _ (grants svc)) as [g0|] eqn:Hf; [|by destruct (_ || _)].
  apply List.find_some in Hf as [Hin Ht%bool_decide_eq_true]. apply list_elem_of_In in Hin.
  destruct id as [i|].
  - destruct (bool_decide_reflect (pb.CometInstanceId i ≠ pb.CometInstanceId (g_identity g0))) as [|Hi]; [done|].
    destruct (bool_decide_reflect (pb.BootId i ≠ pb.BootId (g_identity g0))) as [|Hb]; [done|]. intros [= <-].
    split_and!; [done|done|]. destruct i as [i1 i2], (g_identity g0) as [j1 j2]. cbn in *.
    f_equal; apply dec_stable; auto.
  - destruct (bool_decide_reflect (instance ≠ pb.CometInstanceId (g_identity g0))) as [|Hi]; [done|]. intros [= <-].
    split_and!; [done|done|]. by apply dec_stable.
Qed.

(** A step that changes nothing the service owns. *)
Record quiet (s s' : logic_state W) : Prop := Quiet {
  qt_routing : routing s' = routing s; qt_world : inv (l_world s');
  qt_kicks : kicks s' = kicks s; qt_pubs : publications s' = publications s
}.
Lemma wp_routes {A} (op : RoutingStore.fate → Z → gmap string record → result RoutingStore.store_error A * gmap string record)
    (Q : result RoutingStore.store_error A → logic_state W → Prop) s :
  inv (l_world s) →
  (∀ f now s', clock_ok store now → inv (l_world s') → kicks s' = kicks s → publications s' = publications s →
     routing s' = (op f now (routing s)).2 → Q (op f now (routing s)).1 s') →
  wp (routes env op) Q s.
Proof.
  intros Hinv HQ. unfold routes. apply wp_bind, wp_on_world. cbn beta. apply wp_bind, wp_gets. cbn [routing].
  destruct (world_redis (l_world s) Hinv) as [Hclock Hinv'].
  specialize (HQ (le_redis env (l_world s)).1.1 (le_redis env (l_world s)).1.2
    (LogicState (le_redis env (l_world s)).2 (op (le_redis env (l_world s)).1.1 (le_redis env (l_world s)).1.2 (routing s)).2
       (kicks s) (metrics s) (publications s)) Hclock Hinv' eq_refl eq_refl eq_refl).
  destruct (op _ _ (routing s)) as [r d]. apply wp_bind, wp_modify, wp_ret. exact HQ.
Qed.

(** What a handler does with the state: the invariant of the world stays, at most one kick
    of a valid connection joins a queue with room, and what is published Job accepts. *)
Definition job_accepts (p : publication) : Prop :=
  ∃ t, DecodeTask p.1.2 = Ok t ∧ payload_ok p.1.2 = true ∧ p.1.1 = im.ConversationID (im.Message_ t).
Record handled (md : list string) (s s' : logic_state W) : Prop := Handled {
  hd_routing : served_for md (routing s) (routing s');
  hd_world : inv (l_world s');
  hd_kicks : kicks s' = kicks s ∨ (slen (kicks s) < 128 ∧ ∃ k, kicks s' = kicks s ++ [k] ∧ JobTask.validConnection (Some k) = true);
  hd_pubs : ∃ pubs, publications s' = publications s ++ pubs ∧ Forall job_accepts pubs
}.
Lemma handled_plain md s s' : served_for md (routing s) (routing s') → inv (l_world s') → kicks s' = kicks s →
  publications s' = publications s → handled md s s'.
Proof. intros ? ? ? Hp. constructor; [done|done|by left|]. exists []. by rewrite app_nil_r. Qed.
Lemma handled_same md s : inv (l_world s) → handled md s s.
Proof. intros. apply handled_plain; [by left|done..]. Qed.
Lemma handled_grant md s s' g f now c :
  g ∈ grants svc → bearer md = g_token g → on_behalf g c → clock_ok store now → inv (l_world s') → kicks s' = kicks s →
  publications s' = publications s → routing s' = effect store f now c (routing s) → handled md s s'.
Proof. intros. apply handled_plain; [|done..]. right. by exists g, f, now, c. Qed.
Lemma handled_quiet md s s1 s' : quiet s s1 → handled md s1 s' → handled md s s'.
Proof. intros [Hr _ Hk Hp] [Hr' Hw' Hk' Hp']. constructor; [by rewrite <-Hr|done|by rewrite <-Hk|by rewrite <-Hp]. Qed.
Lemma quiet_refl s : inv (l_world s) → quiet s s.
Proof. by constructor. Qed.
Lemma quiet_trans s1 s2 s3 : quiet s1 s2 → quiet s2 s3 → quiet s1 s3.
Proof. intros [] []. constructor; congruence. Qed.
Lemma quiet_handled md s s' : quiet s s' → handled md s s'.
Proof. intros [Hr Hw Hk Hp]. apply handled_plain; try done. by left. Qed.
Lemma wp_fmap {S A B} (f : A → B) (m : ST S A) (Q : B → S → Prop) s : wp m (λ a, Q (f a)) s → wp (f <$> m) Q s.
Proof. unfold wp, fmap, ST_fmap. by destruct (m s). Qed.

(** ** The handlers, one by one *)

Lemma RegisterComet_handled md r s : inv (l_world s) → wp (RegisterComet env svc md r) (λ _, handled md s) s.
Proof.
  intros Hinv. destruct r as [r|]; [|by apply handled_same]. cbn [RegisterComet].
  destruct (cometAuth svc md (RegIdentity r) "") as [g|e] eqn:Ha; [|by apply handled_same].
  destruct (comet_auth_grant _ _ _ _ Ha) as (Hg&Ht&Hi).
  destruct (_ || _) eqn:Hv; [by apply handled_same|]. apply orb_false_iff in Hv as [_ Haddr].
  apply wp_fmap, wp_routes; [done|]. intros f now s' Hc Hw Hk Hp Hr.
  destruct (RegIdentity r) as [i|].
  - apply (handled_grant md s s' g f now (CRegister (Some i) (RegAddress r))); try done.
    split; [done|]. apply dec_stable. by apply bool_decide_eq_false in Haddr.
  - apply handled_plain; try done. by left.
Qed.
Lemma RenewComet_handled md r s : inv (l_world s) → wp (RenewComet env svc md r) (λ _, handled md s) s.
Proof.
  intros Hinv. destruct r as [r|]; [|by apply handled_same]. cbn [RenewComet].
  destruct (cometAuth svc md (RenIdentity r) "") as [g|e] eqn:Ha; [|by apply handled_same].
  destruct (comet_auth_grant _ _ _ _ Ha) as (Hg&Ht&Hi). destruct (negb _); [by apply handled_same|].
  apply wp_fmap, wp_routes; [done|]. intros f now s' Hc Hw Hk Hp Hr.
  destruct (RenIdentity r) as [i|].
  - by apply (handled_grant md s s' g f now (CRenew (Some i) (RenDraining r))).
  - apply handled_plain; try done. by left.
Qed.
Lemma UnregisterComet_handled md r s : inv (l_world s) → wp (UnregisterComet env svc md r) (λ _, handled md s) s.
Proof.
  intros Hinv. destruct r as [r|]; [|by apply handled_same]. cbn [UnregisterComet].
  destruct (cometAuth svc md (UnrIdentity r) "") as [g|e] eqn:Ha; [|by apply handled_same].
  destruct (comet_auth_grant _ _ _ _ Ha) as (Hg&Ht&Hi). destruct (negb _); [by apply handled_same|].
  apply wp_fmap, wp_routes; [done|]. intros f now s' Hc Hw Hk Hp Hr.
  destruct (UnrIdentity r) as [i|].
  - by apply (handled_grant md s s' g f now (CUnregister (Some i))).
  - apply handled_plain; try done. by left.
Qed.

(** The route a connection replaces was stored, so its identity was validated. *)
Lemma connect_previous f now id u k t auth d r old :
  RoutingStoreProofs.reachable store d →
  (RoutingStore.Connect store f now id u k t auth d).1 = Ok (r, Some old) →
  ∃ o, pb.RouteIdentity old = Some o ∧ JobTask.validConnection (Some o) = true.
Proof.
  intros Hd. unfold RoutingStore.Connect. destruct id as [i|]; [|done]. destruct (_ && _); [|done].
  unfold run. destruct f; try done. destruct (run_script _ _ _ _ _ _) as [[rep d']|] eqn:Hr; [|done].
  unfold answer. destruct (bool_decide _); [|done]. cbn [mbind result_bind fst]. intros [= _ Hold].
  destruct (previous rep) as [o|] eqn:Hp; [|done]. cbn in Hold. injection Hold as <-. exists (record_identity o). split; [done|].
  apply stored_connection_agree. assert (d !! rkey store u = Some o) as Ho.
  { revert Hr. cbn [run_script Lua.script]. unfold run_script, Lua.script. cbn [bool_decide].
    change (Lua.connect (instances store) (RoutingStore.routes store) (routeTTL store) now (rkey store u) (ikey store (pb.CometInstanceId i))
              (connect_record i u k t auth) d = Some (rep, d') → d !! rkey store u = Some o).
    unfold Lua.connect. destruct (Lua.read _ _ d (ikey store _)) as [inst|]; [|done]. cbn [mbind option_bind].
    repeat (match goal with |- (if ?b then _ else _) = _ → _ => destruct b; [intros [= <- <-]; done|] end).
    destruct (Lua.read _ _ d (rkey store u)) as [prev|] eqn:Hread; [|done]. cbn [mbind option_bind].
    destruct prev as [v|]; [|intros [= <- <-]; done]. apply read_Some in Hread as [Hv _].
    destruct (_ || _); intros [= <- <-]; [done|]. cbn in Hp. by injection Hp as ->. }
  by destruct (valid_routes _ _ (reachable_valid _ Hs d Hd) _ _ Ho) as (_&?&_).
Qed.
Lemma wp_world {A} (op : W → A * W) (Q : A → logic_state W → Prop) s :
  inv (op (l_world s)).2 → (∀ s', quiet s s' → Q (op (l_world s)).1 s') → wp (on_world op) Q s.
Proof. intros Hinv HQ. apply wp_on_world, HQ. by constructor. Qed.
(** A call that only reads the lease table. *)
Lemma wp_reads {A} (op : RoutingStore.fate → Z → gmap string record → result RoutingStore.store_error A * gmap string record)
    (c : call) (Q : result RoutingStore.store_error A → logic_state W → Prop) s :
  inv (l_world s) → (∀ f now d, (op f now d).2 = effect store f now c d) →
  (match c with CCheck _ | CLookup _ | CResolve _ => True | _ => False end) →
  (∀ f now s', clock_ok store now → quiet s s' → Q (op f now (routing s)).1 s') → wp (routes env op) Q s.
Proof.
  intros Hinv Hop Hc HQ. apply wp_routes; [done|]. intros f now s' Hclock Hw Hk Hp Hr. apply HQ; [done|].
  constructor; [|done..]. by rewrite Hr, Hop, reads_same.
Qed.

Lemma connectionAuth_spec md id s : inv (l_world s) →
  wp (connectionAuth env svc md id)
     (λ a s', quiet s s' ∧ ∀ g, a = Ok g → g ∈ grants svc ∧ bearer md = g_token g
        ∧ ∃ c, id = Some c ∧ pb.InstanceId c = pb.CometInstanceId (g_identity g)) s.
Proof.
  intros Hinv. destruct id as [c|]; [|by apply wp_ret]. cbn [connectionAuth].
  destruct (cometAuth svc md None (pb.InstanceId c)) as [g|e] eqn:Ha; [|by apply wp_ret].
  destruct (comet_auth_grant _ _ _ _ Ha) as (Hg&Ht&Hi).
  apply wp_bind. apply (wp_reads _ (CResolve [pb.InstanceId c])); [done|done|done|]. intros f now s' _ Hq. apply wp_ret.
  split; [done|]. intros g' Heq. assert (g' = g) as ->; [|split_and!; try done; by exists c].
  destruct (Resolve _ _ _ _ _).1 as [[|l [|? ?]]|]; try done. destruct (_ ≫= _); [|done]. destruct (bool_decide _); [done|]. by injection Heq.
Qed.
Lemma Heartbeat_handled md r s : inv (l_world s) → wp (LogicService.Heartbeat env svc md r) (λ _, handled md s) s.
Proof.
  intros Hinv. destruct r as [r|]; [|by apply handled_same]. cbn [LogicService.Heartbeat].
  destruct (negb _); [by apply handled_same|]. apply wp_bind. eapply wp_mono; [by apply connectionAuth_spec|].
  intros a s1 [Hq Hg]. destruct a as [g|e]; [|by apply wp_ret, quiet_handled].
  destruct (Hg g eq_refl) as (Hin&Ht&c&Hc&Hi). rewrite Hc. apply wp_fmap, wp_routes; [by apply Hq|].
  intros f now s' Hclock Hw Hk Hp Hr. eapply handled_quiet; [done|].
  by apply (handled_grant md s1 s' g f now (CHeartbeat (Some c))).
Qed.
Lemma Disconnect_handled md r s : inv (l_world s) → wp (LogicService.Disconnect env svc md r) (λ _, handled md s) s.
Proof.
  intros Hinv. destruct r as [r|]; [|by apply handled_same]. cbn [LogicService.Disconnect].
  destruct (negb _); [by apply handled_same|]. destruct (CnrIdentity r) as [c|]; [|by apply handled_same].
  destruct (cometAuth svc md None (pb.InstanceId c)) as [g|e] eqn:Ha; [|by apply handled_same].
  destruct (comet_auth_grant _ _ _ _ Ha) as (Hg&Ht&Hi). apply wp_fmap, wp_routes; [done|].
  intros f now s' Hclock Hw Hk Hp Hr. by apply (handled_grant md s s' g f now (CDisconnect (Some c))).
Qed.
Lemma Connect_handled md r s : RoutingStoreProofs.reachable store (routing s) → inv (l_world s) →
  wp (LogicService.Connect env svc md r) (λ _, handled md s) s.
Proof.
  intros Hd Hinv. destruct r as [r|]; [|by apply handled_same]. cbn [LogicService.Connect].
  destruct (cometAuth svc md (ConComet r) "") as [g|e] eqn:Ha; [|by apply handled_same].
  destruct (comet_auth_grant _ _ _ _ Ha) as (Hg&Ht&Hi). destruct (_ || _); [by apply handled_same|].
  apply wp_bind. unfold ParseJWT. apply wp_bind, wp_world; [by apply world_jwt|]. intros s1 Hq1. apply wp_ret.
  destruct (match _ with Some _ => _ | None => _ end) as [c|]; [|by apply wp_ret, quiet_handled].
  destruct (negb _); [by apply wp_ret, quiet_handled|].
  apply wp_bind, wp_world; [by apply world_user, Hq1|]. intros s2 Hq2.
  assert (quiet s s2) as Hq by (by eapply quiet_trans).
  destruct (le_user_exists _ _ _).1 as [[|]|e]; [|by apply wp_ret, quiet_handled..].
  apply wp_bind, wp_routes; [by apply Hq|]. intros f now s3 Hclock Hw Hk Hp Hr.
  assert (served_for md (routing s2) (routing s3)) as Hserved.
  { destruct (ConComet r) as [i|].
    - right. exists g, f, now, (CConnect (Some i) (UserUUID c) (ConConnectionId r) (ConRouteToken r) (ExpiresAt c)). by split_and!.
    - left. by rewrite Hr. }
  assert (handled md s s3) as H3 by (eapply handled_quiet; [exact Hq|]; by apply handled_plain).
  destruct (RoutingStore.Connect _ _ _ _ _ _ _ _ _).1 as [[route old]|e] eqn:Hout; [|by apply wp_ret].
  destruct old as [o|]; [|by apply wp_ret].
  rewrite (qt_routing _ _ Hq) in Hout. destruct (connect_previous _ _ _ _ _ _ _ _ _ _ Hd Hout) as (k&Hok&Hvalid).
  apply wp_bind. rewrite Hok. cbn [queue_kick]. apply wp_when; [|intros _; by apply wp_ret].
  intros _. apply wp_bind, wp_gets, wp_when; [|intros _; by apply wp_ret]. intros Hroom%Z.ltb_lt.
  apply wp_modify, wp_ret. destruct H3 as [Hr3 Hw3 Hk3 Hp3]. constructor; [done|done| |done].
  right. cbn [kicks]. rewrite <-(qt_kicks _ _ Hq), <-Hk. split; [done|]. by exists k.
Qed.

(** ** Messages *)

Lemma dispatch_chunks_world message requestID count index published chunks s : inv (l_world s) →
  wp (dispatch_chunks env svc message requestID count index published chunks) (λ _ s', inv (l_world s')) s.
Proof.
  revert index published s. induction chunks as [|ids chunks IH]; intros index published s Hinv; cbn [dispatch_chunks]; [by apply wp_ret|].
  apply wp_bind, (wp_reads _ (CLookup ids)); [done|done|done|]. intros f now s1 _ Hq.
  destruct (print_task _) as [raw|]; [|by apply wp_ret, Hq]. destruct (_ <? _); [by apply wp_ret, Hq|].
  apply wp_bind, wp_world; [by apply world_publish, Hq|]. intros s2 Hq2. apply wp_bind, wp_modify, wp_bind.
  unfold observePublish, count_metric. apply wp_modify.
  destruct (le_publish _ _ _ _).1 as [[]|e]; [|apply wp_ret; apply Hq2]. apply IH. apply Hq2.
Qed.
Lemma validRequestID_printable id : validRequestID id = true → id = "" ∨ printable id 128 = true.
Proof.
  unfold validRequestID, printable. rewrite !andb_true_iff. intros [Hl Hr]. destruct (decide (id = "")) as [|Hne]; [by left|right].
  split; [|done]. apply negb_true_iff in Hl. rewrite Hl. destruct id; [done|]. rewrite orb_false_r. apply negb_true_iff, Z.eqb_neq.
  unfold len. cbn [String.length]. lia.
Qed.
Lemma dispatch_handled md clientID sv requestID s :
  RoutingStoreProofs.reachable store (routing s) → inv (l_world s) → dispatchable sv requestID →
  wp (dispatch env svc clientID sv requestID) (λ _, handled md s) s.
Proof.
  intros Hd Hinv Hdsp. pose proof (dispatch_to_job env svc Hs clientID sv requestID s Hd Hdsp) as Hjob.
  pose proof (dispatch_spec env svc Hs clientID sv requestID s Hd) as Hspec.
  assert (wp (dispatch env svc clientID sv requestID) (λ _ s', inv (l_world s')) s) as Hworld.
  { unfold dispatch. apply wp_bind. eapply wp_mono; [by apply dispatch_chunks_world|]. intros st s1 Hw.
    apply wp_bind. unfold observeDispatch, count_metric. apply wp_modify, wp_ret. exact Hw. }
  unfold wp in *. destruct (dispatch env svc clientID sv requestID s) as [res s']. cbn [fst snd] in *.
  destruct Hspec as (pubs0&[Hr Hk Hp0]&_). destruct Hjob as (pubs&tasks&Hp&Hall&_).
  constructor; [by left; rewrite Hr|done|by left|]. exists pubs. split; [done|].
  clear -Hall. induction Hall as [|p t ps ts (Hdec&Hpay&Hkey&_&Hview&_) _ IH]; constructor; [|done]. exists t. split_and!; [done|done|].
  rewrite Hkey. unfold JobTask.messageView in Hview. destruct (parse_int 64 _); [|done]. cbn [mbind result_bind] in Hview.
  rewrite !ensure_bind_Ok in Hview. destruct Hview as (_&_&Hv). apply result_bind_Ok in Hv as (?&_&Hv). apply result_bind_Ok in Hv as (?&_&[= <-]). done.
Qed.
Lemma save_dispatchable sv requestID :
  readable_as sv ∧ pb.Position (SavedMessage sv) < 2 ^ 63 ∧ slen (Recipients sv) < 2 ^ 32 →
  requestID = "" ∨ printable requestID 128 = true → dispatchable sv requestID.
Proof. intros (?&?&?) ?. by constructor. Qed.

Lemma SubmitMessage_handled md r s : RoutingStoreProofs.reachable store (routing s) → inv (l_world s) →
  wp (SubmitMessage env svc md r) (λ _, handled md s) s.
Proof.
  intros Hd Hinv. destruct r as [r|]; [|by apply handled_same]. cbn [SubmitMessage].
  destruct (submit_ok r) eqn:Hv; cbn [negb]; [|by apply handled_same]. unfold submit_ok in Hv. guards in Hv.
  destruct Hv as ((((Hreq&_)&_)&_)&_). apply validRequestID_printable in Hreq.
  apply wp_bind. eapply wp_mono; [by apply connectionAuth_spec|]. intros a s1 [Hq1 Hg].
  destruct a as [g|e]; [|by apply wp_ret, quiet_handled]. destruct (Hg g eq_refl) as (_&_&c&Hc&_). rewrite Hc.
  apply wp_bind, (wp_reads _ (CCheck (Some c))); [apply Hq1|done|done|]. intros f now s2 _ Hq2.
  assert (quiet s s2) as Hq by (by eapply quiet_trans).
  destruct (Check_ _ _ _ _ _).1 as [l|e]; [|by apply wp_ret, quiet_handled].
  destruct (world_save (MkInput (pb.UserId c) (SubClientMessageId r) (SubDestination r) (SubContent r)) (l_world s2) ltac:(apply Hq)) as [Hw3 Hsaved].
  apply wp_bind, wp_world; [done|]. intros s3 Hq3. apply wp_bind. unfold observeSave, count_metric. apply wp_modify.
  match goal with |- wp _ _ ?x => assert (quiet s x) as Hq4 by (destruct Hq, Hq3; constructor; cbn; congruence); set (s4 := x) in * end.
  destruct (le_save _ _ _).1 as [sv|e]; [|by apply wp_ret, quiet_handled]. apply wp_fmap. eapply wp_mono.
  - apply (dispatch_handled md); [by rewrite (qt_routing _ _ Hq4)|apply Hq4|by apply save_dispatchable; [apply Hsaved|]].
  - intros res s5 H5. by apply (handled_quiet _ _ s4).
Qed.
Lemma SendAI_handled md user session clientID content s : RoutingStoreProofs.reachable store (routing s) → inv (l_world s) →
  wp (SendAI env svc user session clientID content) (λ _, handled md s) s.
Proof.
  intros Hd Hinv. unfold SendAI. destruct (world_uuid (l_world s) Hinv) as [Hid Hw1].
  apply wp_bind, wp_world; [done|]. intros s1 Hq1. apply wp_bind, wp_world; [by apply world_ping, Hq1|]. intros s2 Hq2.
  assert (quiet s s2) as Hq by (by eapply quiet_trans).
  destruct (le_ping _ _).1 as [[]|e]; [|by apply wp_ret, quiet_handled]. apply wp_bind.
  assert (∀ s3 id, quiet s s3 →
    wp (saved ← on_world (le_save_ai env user session id content); observeSave saved;;
        match saved with Err e => mret (Err (FromMessages e)) | Ok sv => Ok <$> dispatch env svc id sv (le_uuid env (l_world s)).1 end)
       (λ _, handled md s) s3) as Hrest.
  { intros s3 id Hq3. destruct (world_save_ai user session id content (l_world s3) ltac:(apply Hq3)) as [Hw4 Hsaved].
    apply wp_bind, wp_world; [done|]. intros s4 Hq4. apply wp_bind. unfold observeSave, count_metric. apply wp_modify.
    match goal with |- wp _ _ ?x => assert (quiet s x) as Hq5 by (destruct Hq3, Hq4; constructor; cbn; congruence); set (s5 := x) in * end.
    destruct (le_save_ai _ _ _ _ _ _).1 as [sv|e]; [|by apply wp_ret, quiet_handled]. apply wp_fmap. eapply wp_mono.
    - apply (dispatch_handled md); [by rewrite (qt_routing _ _ Hq5)|apply Hq5|apply save_dispatchable; [by apply Hsaved|by right]].
    - intros res s6 H6. by apply (handled_quiet _ _ s5). }
  destruct (bool_decide (clientID = "")).
  - apply wp_world; [by destruct (world_uuid (l_world s2) (qt_world _ _ Hq))|]. intros s3 Hq3. apply Hrest. by eapply quiet_trans.
  - apply wp_ret. by apply Hrest.
Qed.

(** ** Questions and kicks *)

Lemma LookupRoutes_quiet md r s : inv (l_world s) → wp (LogicService.LookupRoutes env svc md r) (λ _, quiet s) s.
Proof.
  intros Hinv. unfold LogicService.LookupRoutes. destruct (jobAuth _ _); [|by apply wp_ret, quiet_refl]. destruct r as [r|]; [|by apply wp_ret, quiet_refl].
  destruct (negb _); [by apply wp_ret, quiet_refl|]. by apply wp_fmap, (wp_reads _ (CLookup (ReqIds r))).
Qed.
Lemma ResolveComets_quiet md r s : inv (l_world s) → wp (LogicService.ResolveComets env svc md r) (λ _, quiet s) s.
Proof.
  intros Hinv. unfold LogicService.ResolveComets. destruct (jobAuth _ _); [|by apply wp_ret, quiet_refl]. destruct r as [r|]; [|by apply wp_ret, quiet_refl].
  destruct (negb _); [by apply wp_ret, quiet_refl|]. by apply wp_fmap, (wp_reads _ (CResolve (ReqIds r))).
Qed.

(** What a worker does with a kick: it leaves the queue, and a call is made only to the
    provisioned address of the live boot of the instance the connection was on. *)
Definition kick_call (d : gmap string record) (target : pb.ConnectionIdentity) (k : string * string * KickRequest) : Prop :=
  ∃ g v now, g ∈ grants svc ∧ d !! ikey store (pb.InstanceId target) = Some v ∧ now < Deadline v
    ∧ g_identity g = pb.MkCometIdentity (Instance_ v) (Boot v) ∧ g_address g = Address v
    ∧ k = (g_address g, "Bearer " +:+ kickToken svc, MkKickRequest (Some (g_identity g)) (Some target) pb.KICK_REASON_REPLACED "").
Lemma provisioned_grant l : provisioned svc l = true →
  ∃ g, g ∈ grants svc ∧ pb.LeaseIdentity l = Some (g_identity g) ∧ pb.RpcAddress l = g_address g.
Proof.
  unfold provisioned. destruct (pb.LeaseIdentity l) as [[i b]|]; [|done]. rewrite existsb_exists. intros (g&Hin&Hb).
  rewrite !andb_true_iff, !bool_decide_eq_true in Hb. destruct Hb as [[Hi Hb] Ha]. exists g.
  apply list_elem_of_In in Hin. split_and!; [done| |done]. destruct (g_identity g). cbn in *. by subst.
Qed.
Lemma kickWorker_spec s : RoutingStoreProofs.reachable store (routing s) → inv (l_world s) →
  wp (kickWorker env svc)
     (λ k s', routing s' = routing s ∧ inv (l_world s') ∧ kicks s' = list.tail (kicks s) ∧ publications s' = publications s
        ∧ ∀ call, k = Some call → ∃ target, head (kicks s) = Some target ∧ kick_call (routing s) target call) s.
Proof.
  intros Hd Hinv. unfold kickWorker. apply wp_bind. unfold wp at 1, pop_kick. destruct (kicks s) as [|target ts] eqn:Hk; cbn [fst snd].
  { apply wp_ret. by rewrite Hk. }
  set (s0 := LogicState (l_world s) (routing s) ts (metrics s) (publications s)).
  assert (∀ s', quiet s0 s' → routing s' = routing s ∧ inv (l_world s') ∧ kicks s' = list.tail (target :: ts) ∧ publications s' = publications s) as Hq0
    by (by intros s' []).
  apply wp_bind, (wp_reads _ (CResolve [pb.InstanceId target])); [done|done|done|]. intros f now s1 _ Hq1.
  destruct (Resolve_answer _ Hs f now [pb.InstanceId target] (routing s) Hd) as [_ Hres]. cbn [routing s0] in *.
  destruct (Resolve store f now [pb.InstanceId target] (routing s)).1 as [l|e]; [|apply wp_ret; by destruct (Hq0 s1 Hq1) as (?&?&?&?)].
  destruct (Hres l eq_refl) as [-> _]. cbn [fmap list_fmap].
  destruct (pb.GetLease (comet_answer store now (routing s) (pb.InstanceId target))) as [lease|] eqn:Hl;
    [|apply wp_ret; by destruct (Hq0 s1 Hq1) as (?&?&?&?)].
  destruct (provisioned svc lease) eqn:Hp; [|apply wp_ret; by destruct (Hq0 s1 Hq1) as (?&?&?&?)].
  apply wp_bind, wp_world; [by apply world_dial, Hq1|]. intros s2 Hq2.
  pose proof (quiet_trans _ _ _ Hq1 Hq2) as Hq12.
  destruct (le_dial _ _ _).1; [|apply wp_ret; by destruct (Hq0 s2 Hq12) as (?&?&?&?)].
  apply wp_bind, wp_world; [by apply world_kick, Hq2|]. intros s3 Hq3. apply wp_ret.
  destruct (Hq0 s3 (quiet_trans _ _ _ Hq12 Hq3)) as (?&?&?&?). split_and!; try done.
  intros call [= <-]. exists target. split; [done|].
  unfold comet_answer, pb.GetLease in Hl. cbn [pb.CState] in Hl.
  destruct (routing s !! ikey store (pb.InstanceId target)) as [v|] eqn:Hv; [|done].
  destruct (Z.ltb_spec now (Deadline v)) as [Hlive|]; [|done]. injection Hl as <-.
  destruct (provisioned_grant _ Hp) as (g&Hg&Hi&Ha). cbn [pb.LeaseIdentity pb.RpcAddress cometLease] in *. injection Hi as Hi.
  exists g, v, now. rewrite <-Hi, <-Ha. by split_and!.
Qed.

(** ** The invariant of the service *)

Record service_ok (s : logic_state W) : Prop := ServiceOk {
  sok_routes : RoutingStoreProofs.reachable store (routing s);
  sok_leases i v : routing s !! ikey store i = Some v →
    ∃ g, g ∈ grants svc ∧ g_identity g = pb.MkCometIdentity i (Boot v) ∧ g_address g = Address v;
  sok_connections u v : routing s !! rkey store u = Some v →
    ∃ g, g ∈ grants svc ∧ g_identity g = pb.MkCometIdentity (Instance_ v) (Boot v);
  sok_kicks : slen (kicks s) ≤ 128 ∧ Forall (λ k, JobTask.validConnection (Some k) = true) (kicks s);
  sok_published : Forall job_accepts (publications s);
  sok_world : inv (l_world s)
}.

Definition leases_granted (d : gmap string record) : Prop :=
  (∀ i v, d !! ikey store i = Some v → ∃ g, g ∈ grants svc ∧ g_identity g = pb.MkCometIdentity i (Boot v) ∧ g_address g = Address v)
  ∧ (∀ u v, d !! rkey store u = Some v → ∃ g, g ∈ grants svc ∧ g_identity g = pb.MkCometIdentity (Instance_ v) (Boot v)).
Lemma granted_delete key d : leases_granted d → leases_granted (delete key d).
Proof. intros [Hl Hr]. split; intros k v [_ Hk]%lookup_delete_Some; eauto. Qed.
Lemma granted_lease i v d : leases_granted d →
  (∃ g, g ∈ grants svc ∧ g_identity g = pb.MkCometIdentity i (Boot v) ∧ g_address g = Address v) → leases_granted (<[ikey store i := v]> d).
Proof.
  intros [Hl Hr] Hv. split; intros k w [[Hk <-]|[_ Hk]]%lookup_insert_Some; eauto.
  - by apply ikey_inj in Hk as ->.
  - by destruct (keys_differ store i k Hs).
Qed.
Lemma granted_route u v d : leases_granted d →
  (∃ g, g ∈ grants svc ∧ g_identity g = pb.MkCometIdentity (Instance_ v) (Boot v)) → leases_granted (<[rkey store u := v]> d).
Proof.
  intros [Hl Hr] Hv. split; intros k w [[Hk <-]|[_ Hk]]%lookup_insert_Some; eauto.
  by destruct (keys_differ store k u Hs).
Qed.
Lemma served_granted md d d' : leases_granted d → served_for md d d' → leases_granted d'.
Proof.
  intros Hd [->|(g&f&now&c&Hg&_&Hb&_&->)]; [done|]. pose proof (effect_change store f now c d) as Hc. revert Hc.
  generalize (effect store f now c d). intros d' Hc. revert Hb.
  destruct Hc as [c|id a b Hv Ha _|id b o Ho _ _ _|id o _ _ _|id u k t auth i Hv Hc _ _ _ _ _ _|id o i Ho _ _ _ _ _ _ _|id o _ _ _];
    cbn [on_behalf]; intros Hb; auto using granted_delete.
  - destruct Hb as [-> ->]. apply granted_lease; [done|]. exists g. by destruct (g_identity g).
  - apply granted_lease; [done|]. destruct (proj1 Hd _ _ Ho) as (g'&?&?&?). by exists g'.
  - subst id. apply granted_route; [done|]. exists g. by destruct (g_identity g).
  - apply granted_route; [done|]. destruct (proj2 Hd _ _ Ho) as (g'&?&?). by exists g'.
Qed.
Lemma served_reachable md d d' : RoutingStoreProofs.reachable store d → served_for md d d' → RoutingStoreProofs.reachable store d'.
Proof. intros Hd [->|(g&f&now&c&_&_&_&Hclock&->)]; [done|]. by apply reach_call. Qed.
Lemma handled_ok md s s' : service_ok s → handled md s s' → service_ok s'.
Proof.
  intros [Hr Hl Hc [Hk Hkv] Hp Hw] [Hr' Hw' Hk' (pubs&Hp'&Hpv)].
  destruct (served_granted _ _ _ (conj Hl Hc) Hr') as [Hl' Hc']. constructor; [by eapply served_reachable|done|done| | |done].
  - destruct Hk' as [->|(Hroom&k&->&Hvalid)]; [done|]. split; [rewrite slen_app, slen_cons, slen_nil; lia|].
    apply Forall_app. split; [done|]. by apply Forall_singleton.
  - rewrite Hp'. by apply Forall_app.
Qed.

(** ** Requests *)

Inductive request : Type :=
| QRegister (r : option RegisterCometRequest) | QRenew (r : option RenewCometRequest)
| QUnregister (r : option UnregisterCometRequest) | QConnect (r : option ConnectRequest)
| QHeartbeat (r : option ConnectionRequest) | QDisconnect (r : option ConnectionRequest)
| QSubmit (r : option SubmitMessageRequest) | QLookup (r : option IdsRequest) | QResolve (r : option IdsRequest).
(** The error a handler answers, if any. *)
Definition error_of {A} (r : result status_error A) : option status_error := match r with Ok _ => None | Err e => Some e end.
Definition serve (md : list string) (q : request) : ST (logic_state W) (option status_error) :=
  match q with
  | QRegister r => error_of <$> RegisterComet env svc md r
  | QRenew r => error_of <$> RenewComet env svc md r
  | QUnregister r => error_of <$> UnregisterComet env svc md r
  | QConnect r => error_of <$> LogicService.Connect env svc md r
  | QHeartbeat r => error_of <$> LogicService.Heartbeat env svc md r
  | QDisconnect r => error_of <$> LogicService.Disconnect env svc md r
  | QSubmit r => error_of <$> SubmitMessage env svc md r
  | QLookup r => error_of <$> LogicService.LookupRoutes env svc md r
  | QResolve r => error_of <$> LogicService.ResolveComets env svc md r
  end.
Lemma serve_handled md q s : service_ok s → wp (serve md q) (λ _, handled md s) s.
Proof.
  intros [Hr _ _ _ _ Hw]. destruct q; apply wp_fmap;
    [by apply RegisterComet_handled|by apply RenewComet_handled|by apply UnregisterComet_handled|by apply Connect_handled
    |by apply Heartbeat_handled|by apply Disconnect_handled|by apply SubmitMessage_handled|..].
  - eapply wp_mono; [by apply LookupRoutes_quiet|]. intros a s' Hq. by apply quiet_handled.
  - eapply wp_mono; [by apply ResolveComets_quiet|]. intros a s' Hq. by apply quiet_handled.
Qed.

(** Everything that happens to the service: requests, messages of the assistant, workers,
    leases that expire and the world around it. *)
Inductive step : logic_state W → logic_state W → Prop :=
| step_serve md q s : step s (serve md q s).2
| step_ai user session clientID content s : step s (SendAI env svc user session clientID content s).2
| step_kick s : step s (kickWorker env svc s).2
| step_expire now d s : expires now (routing s) d → step s (LogicState (l_world s) d (kicks s) (metrics s) (publications s))
| step_world w s : inv w → step s (LogicState w (routing s) (kicks s) (metrics s) (publications s)).
Definition start (w : W) : logic_state W := LogicState w ∅ [] (λ _, 0) [].

Lemma start_ok w : inv w → service_ok (start w).
Proof.
  intros Hw. constructor; cbn; try done; apply reach_empty.
Qed.
Lemma service_step_ok s s' : service_ok s → step s s' → service_ok s'.
Proof.
  intros Hok Hstep. destruct Hstep as [md q s|user session clientID content s|s|now d s He|w s Hw].
  - eapply handled_ok; [exact Hok|]. exact (serve_handled md q s Hok).
  - eapply (handled_ok []); [exact Hok|]. exact (SendAI_handled [] user session clientID content s (sok_routes s Hok) (sok_world s Hok)).
  - destruct (kickWorker_spec s (sok_routes s Hok) (sok_world s Hok)) as (Hr&Hw&Hk&Hp&_).
    destruct Hok as [Hr0 Hl Hc [Hn Hkv] Hpub _]. constructor; rewrite ?Hr, ?Hk, ?Hp; try done.
    destruct (kicks s) as [|k ks]; [done|]. apply Forall_cons in Hkv as [_ ?]. rewrite slen_cons in Hn. cbn [list.tail]. split; [lia|done].
  - destruct Hok as [Hr0 Hl Hc Hk Hpub Hw]. assert (leases_granted d) as [Hl' Hc'] by (destruct He; by apply granted_delete).
    constructor; try done. by eapply reach_expire.
  - destruct Hok. by constructor.
Qed.

(** C12: whatever requests reach the service, with whatever credentials, and whatever the
    stores, Redis and the publisher do: every lease in the table belongs to a provisioned
    boot at its provisioned address, every route goes through such a boot, the queue of
    kicks never exceeds its size and names valid connections, and every record handed to
    the publisher decodes on the side of Job to a task of its conversation. *)
Theorem service_invariant w s : inv w → rtc step (start w) s → service_ok s.
Proof.
  intros Hw Hsteps. apply (rtc_ind_r (λ s, service_ok s) (start w)) in Hsteps; [done|by apply start_ok|].
  intros s1 s2 _ Hstep Hok. by eapply service_step_ok.
Qed.

(** ** Construction *)

(** The grants of a service: valid, local and pairwise distinct. *)
Record grants_ok (l : list CometGrant) (tokens ids : list string) : Prop := GrantsOk {
  gr_valid : Forall (λ g, LogicService.validComet (Some (g_identity g)) = true ∧ LogicService.validToken (g_token g) = true
                         ∧ localAddress (g_address g) = true) l;
  gr_tokens : NoDup (g_token <$> l);
  gr_instances : NoDup ((λ g, pb.CometInstanceId (g_identity g)) <$> l);
  gr_fresh : Forall (λ g, g_token g ∉ tokens ∧ pb.CometInstanceId (g_identity g) ∉ ids) l
}.
Lemma check_grants_ok tokens ids l gs : check_grants tokens ids l = Some gs →
  grants_ok gs tokens ids ∧ l = (λ g, (Some (g_identity g), g_address g, g_token g)) <$> gs.
Proof.
  revert tokens ids gs. induction l as [|[[id address] token] l IH]; intros tokens ids gs Hc; cbn [check_grants] in Hc.
  { injection Hc as <-. split; [|done]. constructor; constructor. }
  destruct id as [c|]; [|done]. destruct (_ || _) eqn:Hv; [done|].
  rewrite !orb_false_iff, !negb_false_iff, !bool_decide_eq_false in Hv. destruct Hv as ((((Hcomet&Htoken)&Hft)&Hfi)&Hlocal).
  destruct (check_grants _ _ l) as [r|] eqn:Hr; [|done]. cbn [mbind option_bind] in Hc. injection Hc as <-.
  destruct (IH _ _ _ Hr) as [[Hgv Hgt Hgi Hgf] ->]. split; [|done]. rewrite Forall_forall in Hgf. constructor; cbn [fmap list_fmap g_token g_identity].
  - by constructor.
  - constructor; [|done]. intros Hin. apply list_elem_of_fmap in Hin as (g&Heq&Hg). destruct (Hgf g Hg) as [Hnt _]. set_solver.
  - constructor; [|done]. intros Hin. apply list_elem_of_fmap in Hin as (g&Heq&Hg). destruct (Hgf g Hg) as [_ Hni]. set_solver.
  - constructor; [done|]. apply Forall_forall. intros g Hg. destruct (Hgf g Hg). set_solver.
Qed.
Lemma NewService_ok c : NewService c = Some svc →
  grants_ok (grants svc) [jobToken svc; kickToken svc] [] ∧ jobToken svc ≠ kickToken svc
  ∧ LogicService.validToken (jobToken svc) = true ∧ LogicService.validToken (kickToken svc) = true ∧ grants svc ≠ [].
Proof.
  unfold NewService. destruct (cfg_routes c); [|done]. destruct (_ || _) eqn:Hv; [done|].
  rewrite !orb_false_iff, !negb_false_iff, bool_decide_eq_false in Hv.
  destruct Hv as (((((((_&_)&_)&Hj)&Hk)&Hne)&Hn)&_).
  destruct (check_grants _ _ _) as [gs|] eqn:Hg; [|done]. cbn [mbind option_bind]. intros Heq. apply (inj Some) in Heq. rewrite <-Heq.
  destruct (check_grants_ok _ _ _ _ Hg) as [Hok Hl]. split_and!; try done. cbn [grants].
  intros ->. rewrite Hl in Hn. done.
Qed.
Lemma token_nonempty t : LogicService.validToken t = true → t ≠ "".
Proof. intros Ht ->. done. Qed.

(** ** Fences between callers *)

Lemma cometAuth_unknown md id instance : (∀ g, g ∈ grants svc → bearer md ≠ g_token g) →
  ∃ e, cometAuth svc md id instance = Err e ∧ err_code e ∈ [InvalidArgument; PermissionDenied; Unauthenticated].
Proof.
  intros Hno. unfold cometAuth. destruct (find _ (grants svc)) as [g|] eqn:Hf.
  - apply List.find_some in Hf as [Hin Ht%bool_decide_eq_true]. apply list_elem_of_In in Hin. by destruct (Hno g Hin).
  - destruct (_ || _); (eexists; split; [reflexivity|]); set_solver.
Qed.
Definition about_job (q : request) : bool := match q with QLookup _ | QResolve _ => true | _ => false end.
(** Without the token of a grant a Comet's request does nothing at all. *)
Lemma serve_unknown md q s : (∀ g, g ∈ grants svc → bearer md ≠ g_token g) → about_job q = false →
  ∃ e, serve md q s = (Some e, s) ∧ err_code e ∈ [InvalidArgument; PermissionDenied; Unauthenticated].
Proof.
  intros Hno Hq. assert (err_code (invalidRequest "") ∈ [InvalidArgument; PermissionDenied; Unauthenticated]) as Hinvalid by set_solver.
  destruct q as [r|r|r|r|r|r|r|r|r]; try done; cbn [serve]; unfold fmap, ST_fmap; (destruct r as [r|]; [|by eexists]).
  - destruct (cometAuth_unknown md (RegIdentity r) "" Hno) as (e&He&?). unfold RegisterComet. rewrite He. by eexists.
  - destruct (cometAuth_unknown md (RenIdentity r) "" Hno) as (e&He&?). unfold RenewComet. rewrite He. by eexists.
  - destruct (cometAuth_unknown md (UnrIdentity r) "" Hno) as (e&He&?). unfold UnregisterComet. rewrite He. by eexists.
  - destruct (cometAuth_unknown md (ConComet r) "" Hno) as (e&He&?). unfold LogicService.Connect. rewrite He. by eexists.
  - unfold LogicService.Heartbeat. destruct (negb _); [by eexists|]. unfold connectionAuth. destruct (CnrIdentity r) as [c|]; [|by eexists].
    destruct (cometAuth_unknown md None (pb.InstanceId c) Hno) as (e&He&?). rewrite He. by eexists.
  - unfold LogicService.Disconnect. destruct (negb _); [by eexists|]. destruct (CnrIdentity r) as [c|]; [|by eexists].
    destruct (cometAuth_unknown md None (pb.InstanceId c) Hno) as (e&He&?). rewrite He. by eexists.
  - unfold SubmitMessage. destruct (negb (submit_ok r)); [by eexists|]. unfold connectionAuth. destruct (SubIdentity r) as [c|]; [|by eexists].
    destruct (cometAuth_unknown md None (pb.InstanceId c) Hno) as (e&He&?). unfold mbind, ST_bind. rewrite He. by eexists.
Qed.
Lemma serve_not_job md q s : bearer md ≠ jobToken svc → about_job q = true →
  ∃ e, serve md q s = (Some e, s) ∧ err_code e ∈ [InvalidArgument; PermissionDenied; Unauthenticated].
Proof.
  intros Hno Hq. assert (∃ e, jobAuth svc md = Err e ∧ err_code e ∈ [InvalidArgument; PermissionDenied; Unauthenticated]) as (e&He&Hcode).
  { unfold jobAuth. rewrite bool_decide_false by done. destruct (existsb _ _); [|destruct (bool_decide _)]; (eexists; split; [reflexivity|]); set_solver. }
  destruct q; try done; cbn [serve]; unfold fmap, ST_fmap, LogicService.LookupRoutes, LogicService.ResolveComets; rewrite He; by eexists.
Qed.

(** The change a request makes on behalf of a grant. *)
Lemma served_keys g md d d' : NoDup (g_token <$> grants svc) → g ∈ grants svc → bearer md = g_token g → served_for md d d' →
  ∀ key, d' !! key ≠ d !! key →
    key = ikey store (pb.CometInstanceId (g_identity g))
    ∨ ∃ u, key = rkey store u ∧ match d' !! key with
                                | Some v => Instance_ v = pb.CometInstanceId (g_identity g)
                                | None => ∃ o, d !! key = Some o ∧ Instance_ o = pb.CometInstanceId (g_identity g)
                                end.
Proof.
  intros Hnd Hg Ht [->|(g'&f&now&c&Hg'&Ht'&Hb&_&->)] key Hkey; [done|].
  assert (g' = g) as ->.
  { apply list_elem_of_lookup in Hg as [i Hi]. apply list_elem_of_lookup in Hg' as [j Hj].
    assert ((g_token <$> grants svc) !! i = Some (bearer md)) as Hi' by (rewrite list_lookup_fmap, Hi; cbn; congruence).
    assert ((g_token <$> grants svc) !! j = Some (bearer md)) as Hj' by (rewrite list_lookup_fmap, Hj; cbn; congruence).
    assert (i = j) by (by eapply NoDup_lookup). subst. congruence. }
  pose proof (effect_change store f now c d) as Hc. revert Hkey Hc. generalize (effect store f now c d). intros d' Hkey Hc. revert Hb Hkey.
  assert (∀ k v, <[k := v]> d !! key ≠ d !! key → key = k ∧ <[k := v]> d !! key = Some v) as Hins.
  { intros k v Hne. destruct (decide (key = k)) as [->|Hk]; [by rewrite lookup_insert_eq|]. by rewrite lookup_insert_ne in Hne. }
  assert (∀ k, delete k d !! key ≠ d !! key → key = k ∧ delete k d !! key = None) as Hdel.
  { intros k Hne. destruct (decide (key = k)) as [->|Hk]; [by rewrite lookup_delete_eq|]. by rewrite lookup_delete_ne in Hne. }
  destruct Hc as [c|id a b Hv Ha _|id b o Ho _ _ _|id o _ _ _|id u k t auth i Hv Hc _ _ _ _ _ _|id o i Ho Hid _ _ _ _ _ _|id o Ho Hid _];
    cbn [on_behalf]; intros Hb Hkey; [done|..].
  - destruct Hb as [-> ->]. left. by destruct (Hins _ _ Hkey).
  - subst id. left. by destruct (Hins _ _ Hkey).
  - subst id. left. by destruct (Hdel _ Hkey).
  - subst id. right. destruct (Hins _ _ Hkey) as [-> ->]. by exists u.
  - right. destruct (Hins _ _ Hkey) as [-> ->]. exists (pb.UserId id). split; [done|]. by rewrite <-Hb, <-Hid.
  - right. destruct (Hdel _ Hkey) as [-> ->]. exists (pb.UserId id). split; [done|]. exists o. split; [done|]. by rewrite <-Hb, <-Hid.
Qed.

(** a Comet can only act as itself.  A request changes the lease of no other instance
    than the one whose token it carries; a route changes only to one through that instance,
    and a route it removes went through it.  Without a provisioned token no request of a
    Comet has any effect, and without the Job token no question is answered; the Job token
    itself changes nothing. *)
Theorem comet_fence c md q s :
  NewService c = Some svc → service_ok s →
  let '(e, s') := serve md q s in
  (∀ g, g ∈ grants svc → bearer md = g_token g →
     (∀ key, routing s' !! key ≠ routing s !! key →
        key = ikey store (pb.CometInstanceId (g_identity g))
        ∨ ∃ u, key = rkey store u ∧ match routing s' !! key with
                                    | Some v => Instance_ v = pb.CometInstanceId (g_identity g)
                                    | None => ∃ o, routing s !! key = Some o ∧ Instance_ o = pb.CometInstanceId (g_identity g)
                                    end)
     ∧ (about_job q = true → s' = s ∧ is_Some e))
  ∧ ((∀ g, g ∈ grants svc → bearer md ≠ g_token g) →
       routing s' = routing s ∧ kicks s' = kicks s ∧ publications s' = publications s
       ∧ (about_job q = false ∨ bearer md ≠ jobToken svc →
            s' = s ∧ ∃ err, e = Some err ∧ err_code err ∈ [InvalidArgument; PermissionDenied; Unauthenticated])).
Proof.
  intros Hnew Hok. destruct (NewService_ok c Hnew) as ([_ Htok _ Hfresh]&_).
  pose proof (serve_handled md q s Hok) as Hh. pose proof (serve_unknown md q s) as Hun. pose proof (serve_not_job md q s) as Hnj.
  assert (about_job q = true → quiet s (serve md q s).2) as Hquiet.
  { intros Hq. destruct q as [r|r|r|r|r|r|r|r|r]; try done; cbn [serve]; unfold fmap, ST_fmap.
    - pose proof (LookupRoutes_quiet md r s (sok_world s Hok)) as Hr. unfold wp in Hr. by destruct (LogicService.LookupRoutes _ _ _ _ _).
    - pose proof (ResolveComets_quiet md r s (sok_world s Hok)) as Hr. unfold wp in Hr. by destruct (LogicService.ResolveComets _ _ _ _ _). }
  unfold wp in Hh. destruct (serve md q s) as [e s']. cbn [fst snd] in *. split.
  - intros g Hg Ht. split; [by apply (served_keys g md _ _ Htok Hg Ht (hd_routing _ _ _ Hh))|].
    intros Hq. assert (bearer md ≠ jobToken svc) as Hnot.
    { rewrite Forall_forall in Hfresh. destruct (Hfresh g Hg) as [Hf _]. rewrite Ht. set_solver. }
    destruct (Hnj Hnot Hq) as (err&Heq&_). injection Heq as -> ->. by split; [|eexists].
  - intros Hno. destruct (about_job q) eqn:Hq.
    + destruct (Hquiet eq_refl) as [Hr _ Hk Hp]. split_and!; try done. intros [|Hnot]; [done|].
      destruct (Hnj Hnot eq_refl) as (err&Heq&?). injection Heq as -> ->. split; [done|]. by exists err.
    + destruct (Hun Hno eq_refl) as (err&Heq&?). injection Heq as -> ->. split_and!; try done. intros _. split; [done|]. by exists err.
Qed.

(** ** Job accepts the answers *)

Lemma local_address_job a : localAddress a = true → JobProcessor.validAddress a = true.
Proof.
  unfold localAddress, JobProcessor.validAddress. destruct (split_host_port a) as [[host port]|]; [|done].
  destruct (atoi port) as [n|]; [|done]. rewrite !andb_true_iff, orb_true_iff. intros [[Hlo Hhi] Hhost].
  assert (host ≠ "" ∧ contains_any host JobProcessor.address_chars = false) as [Hne Hchars].
  { destruct Hhost as [Hl|Hip]; [by apply bool_decide_eq_true in Hl as ->; split|].
    destruct (parse_ip host) as [ip|] eqn:Hparse; [|done]. split; [by intros ->|].
    pose proof (parse_ip_chars _ _ Hparse) as Hall. unfold contains_any. apply not_true_is_false. rewrite existsb_exists.
    intros (b&Hb%list_elem_of_In&Hin). rewrite Forall_forall in Hall. specialize (Hall b Hb). rewrite existsb_exists in Hin.
    destruct Hin as (x&Hx&->%Z.eqb_eq). clear -Hall Hx. cbn in Hx.
    repeat (destruct Hx as [<-|Hx]; [destruct Hall as [[? Hh]|[Hh|Hh]]; by vm_compute in Hh|]). done. }
  split_and!; [done|done|by apply bool_decide_eq_true|by rewrite Hchars].
Qed.
Lemma from_milli_valid ms : Lua.timestamp ms = true → timestamp_check_valid (from_milli ms) = true ∧ as_ns (from_milli ms) = ms * millisecond.
Proof.
  rewrite timestamp_spec. intros Hms. unfold from_milli. split; [|by rewrite timestamp_instant].
  apply timestamp_check_valid_range. cbn [Seconds Nanos timestamp_of_ns]. unfold second, millisecond.
  split; [|apply Z.mod_pos_bound; lia]. Z.to_euclidean_division_equations. lia.
Qed.

Section Job.
Context {Wj Cl : Type} (jenv : environment Wj Cl).
(** Every reading of Job's clock is before that instant. *)
Definition before (t : option Timestamp) : Prop := ∀ w, (env_now jenv w).1 < default 0 (as_ns <$> t).

Lemma future_before ms (Q : bool → job_state Wj → Prop) js : Lua.timestamp ms = true → before (Some (from_milli ms)) →
  (∀ js', Q true js') → wp (future jenv (Some (from_milli ms))) Q js.
Proof.
  intros Hms Hb HQ. destruct (from_milli_valid ms Hms) as [Hv Hns]. unfold future. rewrite Hv.
  apply wp_bind. unfold wp, time_now, JobProcessor.call. specialize (Hb (world js)). destruct (env_now jenv (world js)) as [t w].
  cbn [fst snd default fmap option_fmap option_map from_option] in *. unfold id in Hb. cbn in Hb.
  rewrite (proj2 (Z.ltb_lt t _) Hb). apply HQ.
Qed.
Lemma lookups_accepted now d ids js : RoutingStoreProofs.reachable store d →
  (∀ u r, u ∈ ids → route_of store now d u = Some r → before (Some (from_milli (Deadline r)))) →
  wp (validLookups jenv (Some (Some <$> (route_answer store now d <$> ids))) ids) (λ ok _, ok = true) js.
Proof.
  intros Hd Hb. cbn [validLookups]. unfold slen. rewrite !length_fmap, Z.eqb_refl. cbn [negb]. revert js.
  induction ids as [|u ids IH]; intros js; [by apply wp_ret|]. cbn [fmap list_fmap zip zip_with lookups_ok].
  apply wp_and_then. cbn [validLookup route_answer pb.LookupUserId pb.State]. rewrite (bool_decide_true (u = u)) by done. cbn [negb].
  destruct (route_of store now d u) as [r|] eqn:Hr.
  - pose proof (Hb u r ltac:(apply list_elem_of_here) Hr) as Hbr. apply route_of_Some in Hr as (Hr&_&_&_).
    destruct (valid_routes _ _ (reachable_valid _ Hs d Hd) _ _ Hr) as (Hu&Hc&_). apply stored_connection_agree in Hc.
    pose proof (reachable_ok _ Hs d Hd _ _ Hr) as Hst. apply stored_rkey in Hst; [|done].
    assert (Lua.timestamp (Deadline r) = true ∧ Lua.timestamp (Auth r) = true ∧ Deadline r ≤ Auth r) as (Hd1&Ha1&Hle) by naive_solver.
    cbn [pb.RouteIdentity routeLease pb.AuthExpiresAt pb.RouteDeadline]. rewrite Hc.
    rewrite bool_decide_true by (cbn; by rewrite Hu). cbn [andb].
    destruct (from_milli_valid _ Hd1) as [_ Hn1], (from_milli_valid _ Ha1) as [_ Hn2].
    apply wp_and_then, future_before; [done| |].
    { intros w. specialize (Hbr w). cbn [fmap option_fmap option_map default from_option] in *. unfold id in *. rewrite Hn1 in Hbr. rewrite Hn2.
      unfold millisecond in *. nia. }
    intros js1. apply wp_and_then, future_before; [done|done|]. intros js2. apply wp_ret. rewrite Hn1, Hn2.
    assert ((Auth r * millisecond <? Deadline r * millisecond) = false) as -> by (apply Z.ltb_ge; unfold millisecond; nia).
    apply IH. intros v r' Hv. apply Hb. by apply list_elem_of_further.
  - apply wp_ret. assert (∀ x, x = pb.OFFLINE_REASON_NO_ROUTE ∨ x = pb.OFFLINE_REASON_LEASE_EXPIRED ∨ x = pb.OFFLINE_REASON_INSTANCE_EXPIRED →
      ((x =? pb.OFFLINE_REASON_NO_ROUTE) || (x =? pb.OFFLINE_REASON_LEASE_EXPIRED) || (x =? pb.OFFLINE_REASON_INSTANCE_EXPIRED)) = true) as Hreason
      by (by intros x [->|[->| ->]]).
    rewrite Hreason; [apply IH; intros v r' Hv; apply Hb; by apply list_elem_of_further|].
    unfold offline_reason. destruct (d !! rkey store u); [destruct (_ && _)|]; auto.
Qed.
Lemma resolutions_accepted now d ids js : RoutingStoreProofs.reachable store d → leases_granted d → Forall (λ g, localAddress (g_address g) = true) (grants svc) →
  (∀ i v, i ∈ ids → d !! ikey store i = Some v → now < Deadline v → before (Some (from_milli (Deadline v)))) →
  wp (validResolutions jenv (Some (Some <$> (comet_answer store now d <$> ids))) ids) (λ ok _, ok = true) js.
Proof.
  intros Hd Hgr Hlocal Hb. cbn [validResolutions]. unfold slen. rewrite !length_fmap, Z.eqb_refl. cbn [negb]. revert js.
  induction ids as [|i ids IH]; intros js; [by apply wp_ret|]. cbn [fmap list_fmap zip zip_with resolutions_ok].
  assert (∀ js', wp (resolutions_ok jenv (zip (Some <$> (comet_answer store now d <$> ids)) ids)) (λ ok _, ok = true) js') as IH'
    by (intros js'; apply IH; intros j v Hj; apply Hb; by apply list_elem_of_further).
  apply wp_and_then. cbn [validResolution comet_answer pb.ResolvedId pb.CState]. rewrite (bool_decide_true (i = i)) by done. cbn [negb].
  destruct (d !! ikey store i) as [v|] eqn:Hv; [|by apply wp_ret, IH'].
  destruct (Z.ltb_spec now (Deadline v)) as [Hlive|]; [|by apply wp_ret, IH'].
  pose proof (Hb i v ltac:(apply list_elem_of_here) Hv Hlive) as Hbv.
  destruct (valid_leases _ _ (reachable_valid _ Hs d Hd) _ _ Hv) as (Hi&Hc&_).
  pose proof (reachable_ok _ Hs d Hd _ _ Hv) as Hst. apply stored_ikey in Hst; [|done].
  destruct (proj1 Hgr _ _ Hv) as (g&Hg&_&Ha). rewrite Forall_forall in Hlocal. pose proof (local_address_job _ (Hlocal g Hg)) as Haddr.
  cbn [cometLease pb.LeaseIdentity pb.CometInstanceId pb.BootId pb.LeaseDeadline pb.RpcAddress].
  unfold RoutingStore.validComet in Hc. cbn [pb.CometInstanceId pb.BootId] in Hc. apply andb_true_iff in Hc as [_ Hboot].
  rewrite bool_decide_true by done. change (JobTask.validUUID (Boot v)) with (RoutingStore.validUUID (Boot v)). rewrite Hboot. cbn [andb].
  apply wp_and_then, future_before; [naive_solver|done|]. intros js1. apply wp_ret. rewrite <-Ha, Haddr. apply IH'.
Qed.
End Job.

Lemma wp_pair {S A} (m : ST S A) (Q : A → S → Prop) s a s' : wp m Q s → m s = (a, s') → Q a s'.
Proof. unfold wp. intros HQ Hm. by rewrite Hm in HQ. Qed.
Lemma lookup_listed md users req s l s' : service_ok s →
  LogicService.LookupRoutes env svc md (Some (MkIds users req)) s = (Ok l, s') →
  ∃ now, l = route_answer store now (routing s) <$> users.
Proof.
  intros Hok Hl. assert (wp (LogicService.LookupRoutes env svc md (Some (MkIds users req)))
    (λ r _, ∀ l, r = Ok l → ∃ now, l = route_answer store now (routing s) <$> users) s) as Hw.
  { unfold LogicService.LookupRoutes. destruct (jobAuth _ _); [|by apply wp_ret]. cbn [IdsRequestId ReqIds].
    destruct (negb _); [by apply wp_ret|]. apply wp_fmap, (wp_reads _ (CLookup users)); [apply Hok|done|done|].
    intros f now s1 _ _ l0. destruct (Lookup_answer _ Hs f now users (routing s) (sok_routes s Hok)) as [_ Ha].
    destruct (Lookup _ _ _ _ _).1 as [l1|e]; [|done]. cbn [answer_route]. unfold id. intros [= <-]. exists now. by apply Ha. }
  by apply (wp_pair _ _ _ _ _ Hw Hl).
Qed.
Lemma resolve_listed md ids req s l s' : service_ok s →
  LogicService.ResolveComets env svc md (Some (MkIds ids req)) s = (Ok l, s') →
  ∃ now, l = comet_answer store now (routing s) <$> ids.
Proof.
  intros Hok Hl. assert (wp (LogicService.ResolveComets env svc md (Some (MkIds ids req)))
    (λ r _, ∀ l, r = Ok l → ∃ now, l = comet_answer store now (routing s) <$> ids) s) as Hw.
  { unfold LogicService.ResolveComets. destruct (jobAuth _ _); [|by apply wp_ret]. cbn [IdsRequestId ReqIds].
    destruct (negb _); [by apply wp_ret|]. apply wp_fmap, (wp_reads _ (CResolve ids)); [apply Hok|done|done|].
    intros f now s1 _ _ l0. destruct (Resolve_answer _ Hs f now ids (routing s) (sok_routes s Hok)) as [_ Ha].
    destruct (Resolve _ _ _ _ _).1 as [l1|e]; [|done]. cbn [answer_route]. unfold id. intros [= <-]. exists now. by apply Ha. }
  by apply (wp_pair _ _ _ _ _ Hw Hl).
Qed.

(** Job takes what Logic answers.  As long as Job's clock is before the deadlines
    listed, every list of routes and every list of leases the service returns passes the
    checks of the processor: each item answers the id asked, routes are valid and within
    their authorisation, leases are of provisioned boots at addresses Job may dial. *)
Theorem Job_takes_answers {Wj Cl : Type} (jenv : environment Wj Cl) c md ids req s js :
  NewService c = Some svc → service_ok s →
  (∀ l s', LogicService.LookupRoutes env svc md (Some (MkIds ids req)) s = (Ok l, s') →
     (∀ x a, x ∈ l → pb.GetRoute x = Some a → before jenv (pb.RouteDeadline a)) →
     wp (validLookups jenv (Some (Some <$> l)) ids) (λ ok _, ok = true) js)
  ∧ (∀ l s', LogicService.ResolveComets env svc md (Some (MkIds ids req)) s = (Ok l, s') →
     (∀ x a, x ∈ l → pb.GetLease x = Some a → before jenv (pb.LeaseDeadline a)) →
     wp (validResolutions jenv (Some (Some <$> l)) ids) (λ ok _, ok = true) js).
Proof.
  intros Hnew Hok. destruct (NewService_ok c Hnew) as ([Hvalid _ _ _]&_). split; intros l s' Hl Hb.
  - destruct (lookup_listed _ _ _ _ _ _ Hok Hl) as [now ->]. apply lookups_accepted; [apply Hok|].
    intros u r Hu Hr. apply (Hb (route_answer store now (routing s) u) (routeLease r)).
    + by apply list_elem_of_fmap_2.
    + unfold pb.GetRoute, route_answer. cbn [pb.State]. by rewrite Hr.
  - destruct (resolve_listed _ _ _ _ _ _ Hok Hl) as [now ->].
    apply (resolutions_accepted jenv now (routing s) ids js); [apply Hok|split; apply Hok| |].
    + eapply Forall_impl; [exact Hvalid|]. by intros g (_&_&?).
    + intros i v Hi Hv Hlive. apply (Hb (comet_answer store now (routing s) i) (cometLease v)).
      * by apply list_elem_of_fmap_2.
      * unfold pb.GetLease, comet_answer. cbn [pb.CState]. rewrite Hv. by rewrite (proj2 (Z.ltb_lt _ _) Hlive).
Qed.

(** a kick reaches the boot that owns the replaced connection, and only it.  The call a
    worker makes goes to a provisioned local address, carries the kick token, and names the
    connection that was queued and the live boot of its instance; the Comet of that boot,
    with that token, lets it through all its checks to the hub. *)
Theorem kick_reaches_owner c s s' address authorization request :
  NewService c = Some svc → service_ok s → kickWorker env svc s = (Some (address, authorization, request), s') →
  ∃ target g, head (kicks s) = Some target ∧ g ∈ grants svc
    ∧ address = g_address g ∧ localAddress address = true
    ∧ pb.CometInstanceId (g_identity g) = pb.InstanceId target
    ∧ request = MkKickRequest (Some (g_identity g)) (Some target) pb.KICK_REASON_REPLACED ""
    ∧ ∀ f cs, LogicToken (credentials cs) = kickToken svc → CometHub.hub_identity (hub cs) = g_identity g →
        CometRpc.Kick f [authorization] (Some request) cs
        = (let '(r, h) := CometHub.call f (λ h, let '(o, h) := CometHub.unregister_op target h in (Ok o, h)) (hub cs) in
           (CometRpc.map_result "" r, set_hub h cs)).
Proof.
  intros Hnew Hok Hrun. destruct (NewService_ok c Hnew) as ([Hvalid _ _ _]&_).
  destruct (wp_pair _ _ _ _ _ (kickWorker_spec s (sok_routes s Hok) (sok_world s Hok)) Hrun) as (_&_&_&_&Hcall).
  destruct (Hcall _ eq_refl) as (target&Hhead&g&v&now&Hg&Hv&Hlive&Hid&Ha&[= -> -> ->]).
  rewrite Forall_forall in Hvalid. destruct (Hvalid g Hg) as (Hcomet&_&Hlocal).
  destruct (valid_leases _ _ (reachable_valid _ Hs _ (sok_routes s Hok)) _ _ Hv) as (Hi&_&_).
  assert (pb.CometInstanceId (g_identity g) = pb.InstanceId target) as Hinst by (by rewrite Hid).
  exists target, g. split_and!; try done. intros f cs Htok Hhub. unfold CometRpc.Kick, authorize. rewrite cut_prefix_app, Htok, bool_decide_true by done. cbn [KickComet KickRequestId KickReason KickTarget].
  unfold checkIdentity. rewrite Hhub.
  assert (CometValidation.validateComet (Some (g_identity g)) = true) as ->.
  { revert Hcomet. unfold LogicService.validComet, CometValidation.validateComet, LogicService.validInstance.
    rewrite !andb_true_iff, !negb_true_iff, orb_false_iff. intros [[[? ?] ?] ?]. split_and!; done. }
  assert (CometValidation.sameComet (Some (g_identity g)) (Some (g_identity g)) = true) as ->
    by (unfold CometValidation.sameComet; by rewrite !bool_decide_true).
  cbn [negb orb Z.eqb Pos.eqb pb.KICK_REASON_REPLACED]. unfold CometHub.Unregister. rewrite Hhub, Hinst.
  assert (JobTask.validConnection (Some target) = true) as Htarget.
  { pose proof (proj2 (sok_kicks s Hok)) as Hk. destruct (kicks s) as [|k ks]; [done|]. injection Hhead as ->. by inversion Hk. }
  by rewrite (JobComet.validConnection_agree target _ Htarget eq_refl).
Qed.

(** ** Submitting *)

(** A connection passes [Check] exactly while it holds the live route of its user. *)
Lemma check_live f now c d l :
  (Check_ store f now (Some c) d).1 = Ok l → ∃ r, route_of store now d (pb.UserId c) = Some r ∧ record_identity r = c.
Proof.
  unfold Check_, route. destruct (RoutingStore.validConnection _); [|done]. unfold run. destruct f; try done.
  change (run_script store now "check" (connectionRecord c) [RoutingStore.routes store +:+ pb.UserId c] d)
    with (Lua.check (instances store) (RoutingStore.routes store) (routeTTL store) now false (rkey store (pb.UserId c)) (connectionRecord c) d).
  unfold Lua.check. destruct (Lua.read _ _ d (rkey store _)) as [[o|]|] eqn:Hread; [|done..]. cbn [mbind option_bind].
  apply read_Some in Hread as [Ho _]. destruct (Lua.same o (connectionRecord c)) eqn:Hsame; [|done]. cbn [negb].
  destruct (negb (now <? Deadline o) || (Auth o <=? now)) eqn:Hlive; [done|].
  destruct (Lua.validinstance _ _ _ d o) as [[|]|] eqn:Hinst; [|done..]. intros _. exists o.
  rewrite orb_false_iff, negb_false_iff, Z.ltb_lt, Z.leb_gt in Hlive. destruct Hlive as [Hdl Hau].
  split; [|by apply same_identity in Hsame]. unfold route_of. rewrite Ho. cbn [mbind option_bind].
  rewrite (proj2 (Z.ltb_lt _ _) Hdl), (proj2 (Z.ltb_lt _ _) Hau). cbn [andb].
  unfold Lua.validinstance, Lua.instance in Hinst. fold (ikey store (Instance_ o)) in Hinst.
  destruct (Lua.read _ _ d (ikey store (Instance_ o))) as [i|] eqn:Hi; [|done]. cbn [mbind option_bind] in Hinst. injection Hinst as Hb.
  assert (d !! ikey store (Instance_ o) = i) as ->; [|by rewrite Hb].
  destruct i as [v|]; [by apply read_Some in Hi as [? _]|by apply read_None in Hi].
Qed.

(** C13: only the holder of a live route sends.  A submission that is answered came from the
    Comet whose token it carries, for a connection through that Comet that held the live
    route of its user in the table, and was saved for that very user under the client id
    and the content of the request; its answer says it is stored. *)
Theorem submit_requires_route md r s res s' :
  service_ok s → SubmitMessage env svc md (Some r) s = (Ok res, s') →
  ∃ c g now route_ w sv,
    SubIdentity r = Some c ∧ g ∈ grants svc ∧ bearer md = g_token g ∧ pb.InstanceId c = pb.CometInstanceId (g_identity g)
    ∧ route_of store now (routing s) (pb.UserId c) = Some route_ ∧ record_identity route_ = c
    ∧ (le_save env (MkInput (pb.UserId c) (SubClientMessageId r) (SubDestination r) (SubContent r)) w).1 = Ok sv
    ∧ Stored res = true ∧ ResultMessage res = SavedMessage sv ∧ ResultReplayed res = Replayed sv
    ∧ ClientMessageId res = SubClientMessageId r.
Proof.
  intros Hok Hrun. assert (wp (SubmitMessage env svc md (Some r)) (λ a _, ∀ res, a = Ok res →
    ∃ c g now route_ w sv,
      SubIdentity r = Some c ∧ g ∈ grants svc ∧ bearer md = g_token g ∧ pb.InstanceId c = pb.CometInstanceId (g_identity g)
      ∧ route_of store now (routing s) (pb.UserId c) = Some route_ ∧ record_identity route_ = c
      ∧ (le_save env (MkInput (pb.UserId c) (SubClientMessageId r) (SubDestination r) (SubContent r)) w).1 = Ok sv
      ∧ Stored res = true ∧ ResultMessage res = SavedMessage sv ∧ ResultReplayed res = Replayed sv
      ∧ ClientMessageId res = SubClientMessageId r) s) as Hw; [|by apply (wp_pair _ _ _ _ _ Hw Hrun)].
  cbn [SubmitMessage]. destruct (negb (submit_ok r)); [by apply wp_ret|].
  apply wp_bind. eapply wp_mono; [apply connectionAuth_spec, Hok|]. intros a s1 [Hq1 Hg].
  destruct a as [g|e]; [|by apply wp_ret]. destruct (Hg g eq_refl) as (Hin&Ht&c&Hc&Hi). rewrite Hc.
  apply wp_bind, (wp_reads _ (CCheck (Some c))); [apply Hq1|done|done|]. intros f now s2 _ Hq2.
  destruct (Check_ store f now (Some c) (routing s1)).1 as [l|e] eqn:Hcheck; [|by apply wp_ret].
  rewrite (qt_routing _ _ Hq1) in Hcheck. destruct (check_live _ _ _ _ _ Hcheck) as (rt&Hrt&Hid).
  set (i := MkInput (pb.UserId c) (SubClientMessageId r) (SubDestination r) (SubContent r)).
  pose proof (world_save i (l_world s2) (qt_world _ _ Hq2)) as [Hw3 _].
  apply wp_bind, wp_world; [done|]. intros s3 Hq3. apply wp_bind. unfold observeSave, count_metric. apply wp_modify.
  destruct (le_save env i (l_world s2)).1 as [sv|e] eqn:Hsave; [|by apply wp_ret]. apply wp_fmap. eapply wp_mono.
  - apply dispatch_spec; [exact Hs|]. cbn [routing]. rewrite (qt_routing _ _ Hq3), (qt_routing _ _ Hq2), (qt_routing _ _ Hq1). apply Hok.
  - intros res0 s4 (pubs&_&_&Hres) res1 [= <-]. rewrite Hres. exists c, g, now, rt, (l_world s2), sv. by split_and!.
Qed.
End Service.

(** ** The message store of this development is a world for the service *)

(** The tables, and how many operations were made. *)
Record store_world : Type := MkWorld { w_db : database; w_tick : nat }.
(** What the other dependencies answer at every operation. *)
Record oracle : Type := MkOracle {
  o_redis : nat → RoutingStore.fate * Z; o_fault : nat → nat → bool; o_commit : nat → commit; o_uuid : nat → string;
  o_now : nat → Z; o_publish : nat → string → string → result publish_error unit;
  o_jwt : nat → string → option string → option (bool * claims); o_ping : nat → result RoutingStore.store_error unit;
  o_dial : nat → string → bool
}.
Section StoreWorld.
Context `{External, !ExternalLaws _} (o : oracle).

Definition tick (w : store_world) : store_world := MkWorld (w_db w) (S (w_tick w)).
Definition at_tick {A} (f : nat → A) (w : store_world) : A * store_world := (f (w_tick w), tick w).
(** The limits of the columns: a BIGINT position and a JSON text of recipients. *)
Definition within_columns (out : result MessageStore.store_error Saved * database) (d : database) : result MessageStore.store_error Saved * database :=
  match out with
  | (Ok sv, d') =>
    if (pb.Position (SavedMessage sv) <? 2 ^ 63) && (slen (Recipients sv) <? 2 ^ 32) then (Ok sv, d') else (Err ErrDatabase, d)
  | (Err e, d') => (Err e, d')
  end.
Definition save_in (f : nat → database → result MessageStore.store_error Saved * database) (w : store_world)
  : result MessageStore.store_error Saved * store_world :=
  let '(r, d) := within_columns (f (w_tick w) (w_db w)) (w_db w) in (r, MkWorld d (S (w_tick w))).
Definition store_env : logic_env store_world :=
  LogicEnv store_world (at_tick (o_redis o))
    (λ i, save_in (λ t, Save (o_fault o t) (o_commit o t) (o_uuid o t) (o_now o t) i))
    (λ u ses c text, save_in (λ t, SaveAI (o_fault o t) (o_commit o t) (o_uuid o t) (o_now o t) u ses c text))
    (λ key raw, at_tick (λ t, o_publish o t key raw))
    (λ raw key, at_tick (λ t, o_jwt o t raw (key "HS256")))
    (λ u w, (Ok (bool_decide (u ∈ users (w_db w))), tick w))
    (at_tick (o_uuid o)) (at_tick (o_ping o)) (λ a, at_tick (λ t, o_dial o t a)) (λ _ _ _, tick).

Lemma save_in_ok f w :
  (∀ t d, db_ok d → db_ok (f t d).2) → (∀ t d sv d', db_ok d → f t d = (Ok sv, d') → readable_as sv ∧ db_ok d') →
  db_ok (w_db w) → db_ok (w_db (save_in f w).2)
    ∧ ∀ sv, (save_in f w).1 = Ok sv → readable_as sv ∧ pb.Position (SavedMessage sv) < 2 ^ 63 ∧ slen (Recipients sv) < 2 ^ 32.
Proof.
  intros Hf Hread Hd. unfold save_in. pose proof (Hf (w_tick w) _ Hd) as Hok. pose proof (Hread (w_tick w) (w_db w)) as Hr.
  destruct (f (w_tick w) (w_db w)) as [[sv|e] d']; cbn [within_columns fst snd] in *; [|done].
  destruct (_ && _) eqn:Hb; [|done]. rewrite andb_true_iff, !Z.ltb_lt in Hb. destruct (Hr sv d' Hd eq_refl).
  split; [done|]. intros sv' [= <-]. by split.
Qed.
#[export] Instance store_logic_world store :
  (∀ t, clock_ok store (o_redis o t).2) → (∀ t, printable (o_uuid o t) 128 = true) →
  LogicWorld store_env store (λ w, db_ok (w_db w)).
Proof.
  intros Hclock Huuid. constructor; try done.
  - intros w Hw. split; [apply Hclock|done].
  - intros i w. apply save_in_ok; [intros t d; apply Save_ok|intros t d sv d'; apply Save_readable].
  - intros u ses c text w. apply save_in_ok; [intros t d; apply SaveAI_ok|intros t d sv d'; apply SaveAI_readable].
  - intros w Hw. by split; [apply Huuid|].
Qed.
End StoreWorld.

(** ** A concrete service *)

Definition sample_oracle : oracle :=
  MkOracle (λ _, (Answered, 2000)) (λ _, no_fault) (λ _, Committed) (λ t, if Nat.eqb t 9 then fresh1 else client1) (λ _, 5 * second)
    (λ _ _ _, Ok tt) (λ _ _ _, Some (true, MkClaims user1 (1000000 * second))) (λ _, Ok tt) (λ _ _, true).
Definition sample_env : logic_env store_world := store_env (H := Reference.external) sample_oracle.
Definition sample_config : Config :=
  MkConfig (Some sample_store) true true job_token job_token kick_token [(Some sample_comet, "127.0.0.1:7000", comet_token)] true.
Definition sample_inv (w : store_world) : Prop := db_ok (H := Reference.external) (w_db w).
Lemma sample_world : LogicWorld (H := Reference.external) sample_env (s_routes sample_service) sample_inv.
Proof.
  apply (store_logic_world (H := Reference.external) (ExternalLaws0 := Reference.external_laws) sample_oracle).
  - intros t. unfold clock_ok. by vm_compute.
  - intros t. cbn. by destruct (Nat.eqb t 9); vm_compute.
Qed.
Lemma sample_new : NewService (H := Reference.external) sample_config = Some sample_service.
Proof. vm_compute. reflexivity. Qed.

Definition sample_start : logic_state store_world := start (MkWorld sample_tables 0).
Abbreviation sample_serve := (serve (H := Reference.external) sample_env sample_service).
Definition comet_md : list string := ["Bearer " +:+ comet_token].
(** The Comet registers, and its user connects twice. *)
Definition connection2 : string := "00000000-0000-0000-0000-00000000000d".
Definition sample_requests : list request :=
  [QRegister (Some (MkRegister (Some sample_comet) "127.0.0.1:7000" ""));
   QConnect (Some (MkConnect (Some sample_comet) connection1 token1 "jwt" ""));
   QConnect (Some (MkConnect (Some sample_comet) connection2 token1 "jwt" ""))].
Definition served : logic_state store_world := fold_left (λ s q, (sample_serve comet_md q s).2) sample_requests sample_start.
Lemma served_steps : rtc (step (H := Reference.external) sample_env sample_service sample_inv) sample_start served.
Proof. do 3 (eapply rtc_l; [apply step_serve|]). apply rtc_refl. Qed.
Lemma served_kick : kicks served = [sample_holder].
Proof. vm_compute. reflexivity. Qed.

Lemma service_invariant_witness :
  kicks served = [sample_holder] ∧ service_ok (H := Reference.external) sample_service sample_inv served.
Proof.
  split; [exact served_kick|].
  apply (@service_invariant Reference.external Reference.external_laws store_world sample_env sample_service sample_shaped
    sample_inv sample_world (MkWorld sample_tables 0) served sample_tables_ok served_steps).
Defined.
Lemma served_ok : service_ok (H := Reference.external) sample_service sample_inv served.
Proof.
  eapply (rtc_ind_r (λ s, service_ok (H := Reference.external) sample_service sample_inv s) sample_start); [| |apply served_steps].
  - apply start_ok. exact sample_tables_ok.
  - intros s1 s2 _ Hstep Hok. exact (@service_step_ok Reference.external Reference.external_laws store_world sample_env sample_service
      sample_shaped sample_inv sample_world s1 s2 Hok Hstep).
Qed.
Lemma comet_fence_witness :
  (sample_serve ["Bearer nobody"] (QHeartbeat (Some (MkConnectionRequest (Some sample_holder) ""))) served).2 = served.
Proof.
  pose proof (@comet_fence Reference.external Reference.external_laws store_world sample_env sample_service sample_shaped
    sample_inv sample_world sample_config ["Bearer nobody"] (QHeartbeat (Some (MkConnectionRequest (Some sample_holder) "")))
    served sample_new served_ok) as Hf.
  destruct (serve _ _ _ _ _) as [e s']. destruct Hf as [_ Hno]. destruct Hno as (_&_&_&Hsame); [|by destruct Hsame as [-> _]; [left|]].
  intros g Hg. apply list_elem_of_singleton in Hg as ->. done.
Defined.
Definition early_job : environment unit unit :=
  Environment unit unit (λ w, (0, w)) (λ _ w, (None, w)) (λ _ _ w, w) (λ _ _ _ w, (Ok None, w)) (λ _ _ _ w, (Ok None, w))
    (λ _ _ w, (None, w)) (λ _ _ _ w, (Ok None, w)).
Definition job_md : list string := ["Bearer " +:+ job_token].
Definition sample_lookup := LogicService.LookupRoutes (H := Reference.external) sample_env sample_service job_md (Some (MkIds [user1] "")) served.
Lemma served_lookup : sample_lookup.1 = Ok [route_answer sample_store 2000 (routing served) user1].
Proof. vm_compute. reflexivity. Qed.
Lemma Job_takes_answers_witness :
  match sample_lookup.1 with
  | Ok l => l ≠ [] ∧ (validLookups (H := Reference.external) early_job (Some (Some <$> l)) [user1] (JobState tt [] [] false)).1 = true
  | Err _ => False
  end.
Proof.
  destruct (@Job_takes_answers Reference.external Reference.external_laws store_world sample_env sample_service sample_shaped
    sample_inv sample_world unit unit early_job sample_config job_md [user1] "" served (JobState tt [] [] false) sample_new served_ok) as [Hl _].
  pose proof served_lookup as Hr. unfold sample_lookup in *. destruct (LogicService.LookupRoutes _ _ _ _ _) as [r s'].
  cbn [fst] in *. subst r. split; [done|]. apply (Hl _ s' eq_refl). intros x a Hx Ha w. apply list_elem_of_singleton in Hx as ->.
  assert (before early_job (pb.RouteDeadline a)) as Hb; [|apply Hb].
  assert (pb.GetRoute (route_answer sample_store 2000 (routing served) user1) ≫= pb.RouteDeadline = Some (from_milli 62000)) as Hd
    by (vm_compute; reflexivity).
  rewrite Ha in Hd. cbn [mbind option_bind] in Hd. rewrite Hd. intros w'. by vm_compute.
Defined.
Lemma served_kick_call : (kickWorker sample_env sample_service served).1
  = Some ("127.0.0.1:7000", "Bearer " +:+ kick_token, MkKickRequest (Some sample_comet) (Some sample_holder) pb.KICK_REASON_REPLACED "").
Proof. vm_compute. reflexivity. Qed.
Lemma kick_reaches_owner_witness :
  ∃ k, (kickWorker sample_env sample_service served).1 = Some k
    ∧ k = ("127.0.0.1:7000", "Bearer " +:+ kick_token, MkKickRequest (Some sample_comet) (Some sample_holder) pb.KICK_REASON_REPLACED "").
Proof.
  pose proof served_kick_call as Hk. destruct (kickWorker sample_env sample_service served) as [k s'] eqn:Hrun. cbn [fst] in *. subst k.
  destruct (@kick_reaches_owner Reference.external Reference.external_laws store_world sample_env sample_service sample_shaped
    sample_inv sample_world sample_config served s' _ _ _ sample_new served_ok Hrun) as (target&g&Hhead&Hg&Ha&_&_&Hreq&_).
  apply list_elem_of_singleton in Hg as ->. rewrite served_kick in Hhead. injection Hhead as <-.
  eexists. split; [reflexivity|]. by rewrite Ha, Hreq.
Defined.

Definition sample_submit : SubmitMessageRequest :=
  MkSubmit (Some (pb.MkConnectionIdentity user1 "comet-1" connection2 token1)) client1 (Some (pb.MkDestination pb.RECEIVE_TYPE_USER user2)) "hi" "".
Definition submitted := SubmitMessage (H := Reference.external) sample_env sample_service comet_md (Some sample_submit) served.
Lemma submitted_ok : is_ok submitted.1 = true.
Proof. vm_compute. reflexivity. Qed.
Lemma submit_requires_route_witness : ∃ res, submitted.1 = Ok res ∧ Stored res = true ∧ ClientMessageId res = client1.
Proof.
  pose proof submitted_ok as Hok. unfold submitted in *.
  destruct (SubmitMessage (H := Reference.external) sample_env sample_service comet_md (Some sample_submit) served) as [[res|e] s'] eqn:Hrun; [|done].
  destruct (@submit_requires_route Reference.external Reference.external_laws store_world sample_env sample_service sample_shaped
    sample_inv sample_world comet_md sample_submit served res s' served_ok Hrun) as (c&g&now&rt&w&sv&_&_&_&_&_&_&_&Hst&_&_&Hc).
  exists res. by split_and!.
Defined.
