(* ===== verification/CometFrames.v ===== *)
(** * WebSocket frames: [internal/comet/websocket.go] and the frames of [handler.go] *)
From S2P Require Import Prelude GoStd GoTime External Json Dto CometValidation.
Local Open Scope Z_scope.

(** ** Decoding a frame ([strictJSON]) *)

(** The nesting of arrays and objects, which the decoder limits to 10000. *)
Fixpoint depth (v : json) : Z :=
  match v with
  | JArr l => 1 + foldr (λ v n, Z.max (depth v) n) 0 l
  | JObj ms => 1 + foldr (λ kv n, Z.max (depth kv.2) n) 0 ms
  | _ => 0
  end.
(** [Decode] into a struct of plain fields: a member that has no field, or does not fit it,
    is an error, but the other members are decoded.  The answer is what the destination then
    holds, and whether there was no error. *)
Definition decode_members {A} (field : A → string → json → option A) (old : A) (v : json) : A * bool :=
  match v with
  | JNull => (old, true)
  | JObj ms =>
    fold_left (λ acc kv, match field acc.1 kv.1 kv.2 with
                         | Some a => (a, acc.2)
                         | None => (acc.1, false)
                         end) ms (old, true)
  | _ => (old, false)
  end.
Definition strictJSON {A} (field : A → string → json → option A) (zero : A) (raw : string) : A * bool :=
  if negb (utf8_valid raw) then (zero, false)
  else
    match parse_prefix raw with
    | None => (zero, false)
    | Some (v, rest) =>
      if 10000 <? depth v then (zero, false)
      else let '(a, ok) := decode_members field zero v in (a, ok && bool_decide (skip_ws rest = []))
    end.

Definition decode_int8 (old : Z) (v : json) : option Z :=
  match v with JNull => Some old | JNum lit => parse_int 8 lit | _ => None end.

Definition send_frame_field (f : im.SendFrame) (key : string) (v : json) : option im.SendFrame :=
  let 'im.MkSendFrame event client receive type content := f in
  if names key "event" then s ← decode_string event v; Some (im.MkSendFrame s client receive type content)
  else if names key "client_message_id" then
    s ← decode_string client v; Some (im.MkSendFrame event s receive type content)
  else if names key "receive_id" then s ← decode_string receive v; Some (im.MkSendFrame event client s type content)
  else if names key "receive_type" then s ← decode_string type v; Some (im.MkSendFrame event client receive s content)
  else if names key "content" then s ← decode_string content v; Some (im.MkSendFrame event client receive type s)
  else None.
Definition legacy_field (m : wschat.Message) (key : string) (v : json) : option wschat.Message :=
  let 'wschat.MkMessage send receive content origin type := m in
  if names key "send_id" then s ← decode_string send v; Some (wschat.MkMessage s receive content origin type)
  else if names key "receive_id" then s ← decode_string receive v; Some (wschat.MkMessage send s content origin type)
  else if names key "content" then s ← decode_string content v; Some (wschat.MkMessage send receive s origin type)
  else if names key "origin" then n ← decode_int8 origin v; Some (wschat.MkMessage send receive content n type)
  else if names key "receive_type" then n ← decode_int8 type v; Some (wschat.MkMessage send receive content origin n)
  else None.

(** ** Messages for the client *)

Definition destination (m : pb.MessageView) : pb.Destination := default (pb.MkDestination 0 "") (pb.Destination_ m).
Definition publicMessage (m : pb.MessageView) : im.Message :=
  im.MkMessage (pb.MessageId m) (pb.ConversationId m) (pb.SessionId m) (pb.SenderId m)
    (pb.DestReceiveId (destination m))
    (if pb.DestReceiveType (destination m) =? pb.RECEIVE_TYPE_GROUP then im.ReceiveTypeGroup else im.ReceiveTypeUser)
    im.MessageTypeText (pb.Content m)
    (if pb.Origin m =? pb.MESSAGE_ORIGIN_AI then im.MessageOriginAI else im.MessageOriginUser)
    (Time (as_ns (default (timestamp_of_ns 0) (pb.CreatedAt m))) 0) (format_uint (pb.Position m)).
Definition legacyMessage (m : pb.MessageView) : wschat.Message :=
  wschat.MkMessage (pb.SenderId m) (pb.DestReceiveId (destination m)) (pb.Content m)
    (if pb.Origin m =? pb.MESSAGE_ORIGIN_AI then 1 else 0)
    (if pb.DestReceiveType (destination m) =? pb.RECEIVE_TYPE_GROUP then 1 else 0).

(** ** Errors for the client *)

Definition error_codes : list string :=
  [""; im.ErrorInvalidArgument; im.ErrorIdempotencyConflict; im.ErrorUnauthenticated; im.ErrorPermissionDenied;
   im.ErrorSuperseded; im.ErrorLeaseExpired; im.ErrorInstanceNotRegistered; im.ErrorDependencyUnavailable;
   im.ErrorResourceExhausted; im.ErrorDraining].
Definition retries : list string :=
  [""; im.RetryDoNotRetry; im.RetrySameRequest; im.RetryReconnect; im.RetryReauthenticate; im.RetryRefreshRoute].
Definition unknown_result : im.SendError := im.MkSendError im.ErrorResultUnknown im.RetrySameRequest "".
(** One detail of a status; a [None] is of another type. *)
Definition apply_detail (result : im.SendError) (d : option pb.ErrorDetail) : im.SendError :=
  match d with
  | None => result
  | Some d =>
    if (0 <? pb.Reason d) && (pb.Reason d <? slen error_codes) && (0 <? pb.Retry d) && (pb.Retry d <? slen retries)
    then im.MkSendError (nth (Z.to_nat (pb.Reason d)) error_codes "") (nth (Z.to_nat (pb.Retry d)) retries "")
           (if validRequestID (pb.DetailRequestId d) then pb.DetailRequestId d else im.ErrorRequestID result)
    else result
  end.
(** [None] is a nil error. *)
Definition sendError (e : option status_error) : im.SendError :=
  match e with
  | None => unknown_result
  | Some e => fold_left apply_detail (err_details e) unknown_result
  end.

Definition terminal_reason (r : Z) : bool :=
  (r =? pb.REASON_SUPERSEDED) || (r =? pb.REASON_LEASE_EXPIRED) || (r =? pb.REASON_INSTANCE_NOT_REGISTERED)
  || (r =? pb.REASON_UNAUTHENTICATED).
Definition terminalSubmitError (e : option status_error) : bool :=
  match e with
  | None => false
  | Some e =>
    bool_decide (err_code e = Unauthenticated)
    || existsb (λ d, match d with Some d => terminal_reason (pb.Reason d) | None => false end) (err_details e)
  end.
