(* ===== verification/CometFramesProofs.v ===== *)
(** * WebSocket frames: properties *)
From S2P Require Import Prelude GoStd GoTime External GoText Json JsonPrint TextRound Dto CometValidation CometFrames.
Local Open Scope Z_scope.

(** ** What a decoded string holds *)

(** The code point that is encoded. *)
Definition code_point (r : Z) : Z :=
  if in_range 55296 57343 r || (r <? 0) || (1114111 <? r) then rune_error else r.
Lemma code_point_range r : 0 ≤ code_point r ≤ 1114111 ∧ (code_point r < 55296 ∨ 57343 < code_point r).
Proof.
  unfold code_point, in_range. destruct (_ || _) eqn:E; [unfold rune_error; lia|].
  rewrite !orb_false_iff, andb_false_iff, !Z.ltb_ge, !Z.leb_gt in E. lia.
Qed.
Lemma encode_rune_unfold r :
  encode_rune r =
    let c := code_point r in
    if c <? 128 then [c]
    else if c <? 2048 then [192 + c / 64; 128 + c mod 64]
    else if c <? 65536 then [224 + c / 4096; 128 + c / 64 mod 64; 128 + c mod 64]
    else [240 + c / 262144; 128 + c / 4096 mod 64; 128 + c / 64 mod 64; 128 + c mod 64].
Proof. done. Qed.
Lemma in_range_true lo hi b : lo ≤ b ≤ hi → in_range lo hi b = true.
Proof. intros Hb. unfold in_range. by rewrite !(proj2 (Z.leb_le _ _)) by lia. Qed.
Lemma in_range_false lo hi b : hi < b → in_range lo hi b = false.
Proof. intros Hb. unfold in_range. rewrite (proj2 (Z.leb_gt b hi)) by lia. apply andb_false_r. Qed.

(** Bytes of valid UTF-8. *)
Definition utf8_bytes (l : list Z) : Prop := text l ∧ Forall is_byte l.
Lemma utf8_bytes_nil : utf8_bytes [].
Proof. split; constructor. Qed.
Lemma utf8_bytes_app l k : utf8_bytes l → utf8_bytes k → utf8_bytes (l ++ k).
Proof. intros [] []. split; [by apply text_app|by apply Forall_app]. Qed.
Lemma utf8_bytes_one c : 0 ≤ c < 128 → utf8_bytes [c].
Proof. intros Hc. split; [by apply text_ascii; [lia|constructor]|repeat constructor; unfold is_byte; lia]. Qed.
Lemma utf8_bytes_two q m : 2 ≤ q < 32 → 0 ≤ m < 64 → utf8_bytes [192 + q; 128 + m].
Proof.
  intros Hq Hm. split; [|repeat constructor; unfold is_byte; lia].
  apply text_rune with (Z.land (192 + q) 31 * 64 + Z.land (128 + m) 63) 2%nat; [|constructor].
  unfold decode_rune, cont_byte. rewrite (proj2 (Z.ltb_ge _ _)) by lia. by rewrite !in_range_true by lia.
Qed.
Lemma utf8_bytes_three q2 m2 m :
  0 ≤ q2 < 16 → 0 ≤ m2 < 64 → 0 ≤ m < 64 → (q2 = 0 → 32 ≤ m2) → (q2 = 13 → m2 < 32) →
  utf8_bytes [224 + q2; 128 + m2; 128 + m].
Proof.
  intros Hq Hm2 Hm H0 H13. split; [|repeat constructor; unfold is_byte; lia].
  apply text_rune with (Z.land (224 + q2) 15 * 4096 + Z.land (128 + m2) 63 * 64 + Z.land (128 + m) 63) 3%nat; [|constructor].
  unfold decode_rune, cont_byte. rewrite (proj2 (Z.ltb_ge _ _)) by lia.
  rewrite (in_range_false 194 223) by lia. rewrite (in_range_true 224 239), (in_range_true 128 191 (128 + m)) by lia.
  rewrite in_range_true; [done|]. destruct (Z.eqb_spec (224 + q2) 224), (Z.eqb_spec (224 + q2) 237); lia.
Qed.
Lemma utf8_bytes_four q3 m3 m2 m :
  0 ≤ q3 < 5 → 0 ≤ m3 < 64 → 0 ≤ m2 < 64 → 0 ≤ m < 64 → (q3 = 0 → 16 ≤ m3) → (q3 = 4 → m3 < 16) →
  utf8_bytes [240 + q3; 128 + m3; 128 + m2; 128 + m].
Proof.
  intros Hq Hm3 Hm2 Hm H0 H4. split; [|repeat constructor; unfold is_byte; lia].
  apply text_rune with (Z.land (240 + q3) 7 * 262144 + Z.land (128 + m3) 63 * 4096 + Z.land (128 + m2) 63 * 64
                        + Z.land (128 + m) 63) 4%nat; [|constructor].
  unfold decode_rune, cont_byte. rewrite (proj2 (Z.ltb_ge _ _)) by lia.
  rewrite (in_range_false 194 223), (in_range_false 224 239) by lia.
  rewrite (in_range_true 240 244), (in_range_true 128 191 (128 + m2)), (in_range_true 128 191 (128 + m)) by lia.
  rewrite in_range_true; [done|]. destruct (Z.eqb_spec (240 + q3) 240), (Z.eqb_spec (240 + q3) 244); lia.
Qed.

Lemma div_digits c : 0 ≤ c →
  c = 64 * (c / 64) + c mod 64 ∧ 0 ≤ c mod 64 < 64 ∧ c / 64 = 64 * (c / 4096) + c / 64 mod 64 ∧ 0 ≤ c / 64 mod 64 < 64
  ∧ c / 4096 = 64 * (c / 262144) + c / 4096 mod 64 ∧ 0 ≤ c / 4096 mod 64 < 64.
Proof.
  intros Hc. change 4096 with (64 * 64). change 262144 with (64 * (64 * 64)).
  rewrite (Z.mul_comm 64 (64 * 64)), <- !Z.div_div by lia.
  split_and!; first [apply Z.div_mod; lia | apply Z.mod_pos_bound; lia].
Qed.
(** A rune is encoded as valid UTF-8. *)
Lemma encode_rune_utf8 r : utf8_bytes (encode_rune r).
Proof.
  rewrite encode_rune_unfold. destruct (code_point_range r) as [Hc Hs]. cbv zeta. generalize dependent (code_point r).
  intros c Hc Hs. destruct (div_digits c ltac:(lia)) as (E&Hm&E2&Hm2&E3&Hm3).
  destruct (Z.ltb_spec c 128); [by apply utf8_bytes_one; lia|].
  destruct (Z.ltb_spec c 2048); [apply utf8_bytes_two; lia|].
  destruct (Z.ltb_spec c 65536); [apply utf8_bytes_three; lia|apply utf8_bytes_four; lia].
Qed.

Lemma is_byte_range lo hi b : 0 ≤ lo → hi < 256 → in_range lo hi b = true → is_byte b.
Proof. unfold in_range, is_byte. rewrite andb_true_iff, !Z.leb_le. lia. Qed.
#[local] Ltac byte := eapply is_byte_range; [| |eassumption]; lia.
Lemma decode_rune_bytes b t r w : 0 ≤ b → decode_rune (b :: t) = Some (r, w) → utf8_bytes (take w (b :: t)).
Proof.
  intros Hb Hd. split; [by eapply text_prefix|]. cbn [decode_rune] in Hd.
  destruct (Z.ltb_spec b 128); [injection Hd as _ <-; repeat constructor; unfold is_byte; lia|].
  destruct (in_range 194 223 b) eqn:E1; [|destruct (in_range 224 239 b) eqn:E2; [|destruct (in_range 240 244 b) eqn:E3; [|done]]].
  - destruct t as [|b1 t]; [done|]. destruct (cont_byte b1) eqn:C1; [|done]. injection Hd as _ <-.
    cbn. rewrite take_0, !Forall_cons. split_and!; [byte..|done].
  - destruct t as [|b1 [|b2 t]]; try done. destruct (_ && _) eqn:C; [|done]. injection Hd as _ <-.
    apply andb_true_iff in C as [C1 C2]. cbn. rewrite take_0, !Forall_cons.
    split_and!; [byte| |byte|done].
    eapply is_byte_range; [..|exact C1]; destruct (b =? 224), (b =? 237); lia.
  - destruct t as [|b1 [|b2 [|b3 t]]]; try done. destruct (_ && _) eqn:C; [|done]. injection Hd as _ <-.
    apply andb_true_iff in C as [C C3]. apply andb_true_iff in C as [C1 C2].
    cbn. rewrite take_0, !Forall_cons. split_and!; [byte| |byte..|done].
    eapply is_byte_range; [..|exact C1]; destruct (b =? 240), (b =? 244); lia.
Qed.

Lemma simple_escape_ascii e c : simple_escape e = Some c → 0 ≤ c < 128.
Proof. unfold simple_escape. repeat case_match; intros [= <-]; lia. Qed.
(** The value of a JSON string is valid UTF-8, whatever its text. *)
Lemma string_body_utf8 n l s rest : string_body n l = Some (s, rest) → utf8_bytes s.
Proof.
  revert l s rest. induction n as [|n IH]; intros l s rest; [done|]. cbn [string_body].
  destruct l as [|b t]; [done|]. destruct (b =? 34); [intros [= <- _]; apply utf8_bytes_nil|].
  destruct (Z.ltb_spec b 32); [done|]. destruct (b =? 92).
  - destruct t as [|e t]; [done|]. destruct (e =? 117).
    + destruct (get_u4 t) as [[u r]|]; [|done]. cbn. destruct (unescape_unit u r) as [rn r'].
      destruct (string_body n r') as [[s' rest']|] eqn:Hs; [|done]. intros [= <- _].
      apply utf8_bytes_app; [apply encode_rune_utf8|by eapply IH].
    + destruct (simple_escape e) as [c|] eqn:He; [|done]. cbn.
      destruct (string_body n t) as [[s' rest']|] eqn:Hs; [|done]. intros [= <- _].
      apply (utf8_bytes_app [c]); [by eapply utf8_bytes_one, simple_escape_ascii|by eapply IH].
  - destruct (decode_rune (b :: t)) as [[r w]|] eqn:Hd.
    + destruct (string_body n (drop w (b :: t))) as [[s' rest']|] eqn:Hs; [|done]. intros [= <- _].
      apply utf8_bytes_app; [eapply decode_rune_bytes; [|done]; lia|by eapply IH].
    + destruct (string_body n t) as [[s' rest']|] eqn:Hs; [|done]. intros [= <- _].
      apply (utf8_bytes_app (encode_rune rune_error)); [apply encode_rune_utf8|by eapply IH].
Qed.
Lemma lex_string_utf8 l lit s r : lex_string l = Some (lit, s, r) → utf8_valid s = true.
Proof.
  unfold lex_string. destruct (string_body (length l) l) as [[s' r']|] eqn:Hs; [|done]. intros [= _ <- _].
  apply string_body_utf8 in Hs as [Ht Hb]. apply utf8_valid_text. by rewrite bytes_of_bytes.
Qed.

(** ** The strings of a decoded frame *)

Definition str_ok (v : json) : Prop := match v with JStr _ s => utf8_valid s = true | _ => True end.
Definition members_ok (v : json) : Prop := match v with JObj ms => Forall (λ kv, str_ok kv.2) ms | _ => True end.

Lemma parse_value_cases n l v r : parse_value (S n) l = Some (v, r) →
  match v with
  | JStr lit s => ∃ l' r', lex_string l' = Some (lit, s, r')
  | JObj ms => ms = [] ∨ ∃ l' r', parse_members n l' = Some (ms, r')
  | _ => True
  end.
Proof.
  cbn [parse_value]. destruct (skip_ws l) as [|b t]; [done|].
  destruct (b =? 123).
  { destruct (skip_ws t) as [|c t']; [done|]. destruct (c =? 125); [intros [= <- _]; by left|].
    destruct (parse_members n (c :: t')) as [[ms r']|] eqn:Hm; [|done]. intros [= <- _]. right. eauto. }
  destruct (b =? 91).
  { destruct (skip_ws t) as [|c t']; [done|]. destruct (c =? 93); [by intros [= <- _]|].
    destruct (parse_elements n (c :: t')) as [[vs r']|]; [|done]. by intros [= <- _]. }
  destruct (b =? 34).
  { destruct (lex_string t) as [[[lit s] r']|] eqn:Hs; [|done]. intros [= <- _]. eauto. }
  destruct (b =? 116); [destruct (lex_word "true" (b :: t)); [by intros [= <- _]|done]|].
  destruct (b =? 102); [destruct (lex_word "false" (b :: t)); [by intros [= <- _]|done]|].
  destruct (b =? 110); [destruct (lex_word "null" (b :: t)); [by intros [= <- _]|done]|].
  destruct (lex_number (b :: t)) as [[lit r']|]; [by intros [= <- _]|done].
Qed.
Lemma parse_value_str n l v r : parse_value n l = Some (v, r) → str_ok v.
Proof.
  destruct n as [|n]; [done|]. intros Hv. apply parse_value_cases in Hv. destruct v; try done.
  destruct Hv as (?&?&Hs). by eapply lex_string_utf8.
Qed.
Lemma parse_members_str n l ms r : parse_members n l = Some (ms, r) → Forall (λ kv, str_ok kv.2) ms.
Proof.
  revert l ms r. induction n as [|n IH]; intros l ms r; [done|]. cbn [parse_members].
  destruct (expect 34 (skip_ws l)) as [r1|]; [|done]. cbn.
  destruct (lex_string r1) as [[[? key] r2]|]; [|done]. cbn.
  destruct (expect 58 (skip_ws r2)) as [r3|]; [|done]. cbn.
  destruct (parse_value n r3) as [[v r4]|] eqn:Hv; [|done]. cbn. apply parse_value_str in Hv.
  destruct (skip_ws r4) as [|b r5]; [done|]. destruct (b =? 44).
  - destruct (parse_members n r5) as [[ms' r6]|] eqn:Hm; [|done]. intros [= <- _]. constructor; [done|by eapply IH].
  - destruct (b =? 125); [|done]. intros [= <- _]. by repeat constructor.
Qed.
Lemma parse_prefix_members raw v rest : parse_prefix raw = Some (v, rest) → members_ok v.
Proof.
  unfold parse_prefix. generalize (2 * length (bytes raw) + 1)%nat. intros [|n]; [done|]. intros Hv.
  apply parse_value_cases in Hv. destruct v; try done. destruct Hv as [->|(l'&r'&Hm)]; [constructor|by eapply parse_members_str].
Qed.

(** A property of a struct that decoding valid members keeps. *)
Lemma strictJSON_keeps {A} (field : A → string → json → option A) (P : A → Prop) zero raw :
  P zero → (∀ a key v a', P a → str_ok v → field a key v = Some a' → P a') → P (strictJSON field zero raw).1.
Proof.
  intros Hz Hf. unfold strictJSON. destruct (negb _); [done|].
  destruct (parse_prefix raw) as [[v rest]|] eqn:Hp; [|done]. apply parse_prefix_members in Hp.
  destruct (_ <? _); [done|].
  assert (P (decode_members field zero v).1) as Hd; [|by destruct (decode_members field zero v)].
  unfold decode_members. destruct v as [| | | | |ms]; try done. cbn in Hp.
  assert (∀ acc : A * bool, P acc.1 → P (fold_left (λ acc kv, match field acc.1 kv.1 kv.2 with
    | Some a => (a, acc.2) | None => (acc.1, false) end) ms acc).1) as Hfold; [|by apply Hfold].
  induction Hp as [|[key v] ms Hv _ IH]; intros acc Hacc; cbn [fold_left]; [done|]. apply IH.
  cbn. destruct (field acc.1 key v) as [a|] eqn:Ha; [by eapply Hf|done].
Qed.
Lemma decode_string_utf8 old v s : utf8_valid old = true → str_ok v → decode_string old v = Some s → utf8_valid s = true.
Proof. intros Ho Hv. destruct v; cbn; intros ?; by simplify_eq. Qed.
(** The content of a frame is valid UTF-8, whatever its bytes. *)
Lemma send_frame_content raw : utf8_valid (im.FrameContent (strictJSON send_frame_field im.zero_frame raw).1) = true.
Proof.
  apply (strictJSON_keeps _ (λ f, utf8_valid (im.FrameContent f) = true)); [done|].
  intros [] key v f' Hc Hv Hf. unfold send_frame_field in Hf. cbn [im.FrameContent] in Hc.
  repeat match type of Hf with context [if names ?a ?b then _ else _] => destruct (names a b) end; try done;
    match type of Hf with context [decode_string ?o v] => destruct (decode_string o v) as [s|] eqn:Hs; [|done] end;
    cbn in Hf; simplify_eq; cbn; first [done | by eapply decode_string_utf8].
Qed.
Lemma legacy_content raw : utf8_valid (wschat.Content (strictJSON legacy_field wschat.zero_message raw).1) = true.
Proof.
  apply (strictJSON_keeps _ (λ f, utf8_valid (wschat.Content f) = true)); [done|].
  intros [] key v f' Hc Hv Hf. unfold legacy_field in Hf. cbn [wschat.Content] in Hc.
  repeat match type of Hf with context [if names ?a ?b then _ else _] => destruct (names a b) end; try done;
    match type of Hf with
    | context [decode_string ?o v] => destruct (decode_string o v) as [s|] eqn:Hs; [|done]
    | context [decode_int8 ?o v] => destruct (decode_int8 o v) as [s|] eqn:Hs; [|done]
    end; cbn in Hf; simplify_eq; cbn; first [done | by eapply decode_string_utf8].
Qed.
