(* ===== verification/CometHandler.v ===== *)
(** * The public endpoint of a Comet: [internal/comet/handler.go]

    The clock, the JWT and UUID libraries, the random source, Logic, the socket and the
    requests' contexts are the operations of an environment over a world [W].  The hub
    belongs to other goroutines too: before the handler calls it, they move it
    ([he_others]); the writer, the heartbeat and the reader of a socket are such goroutines
    to each other. *)
From S2P Require Import Prelude GoStd GoTime External Json Dto LogicService LogicDispatch CometRpc CometInstance CometValidation CometFrames CometHub.
Local Open Scope Z_scope.

(** ** Configuration *)

(** A URL as [url.Parse] reads it, as far as it is used. *)
Record url : Type := MkUrl {
  Scheme : string; Host : string; has_user : bool; Path : string; RawQuery : string; Fragment : string
}.
(** [ReadyGiven] tells whether the function [Ready] is not nil. *)
Record HandlerConfig : Type := MkHandlerConfig {
  hc_secret : string; hc_token : string; AllowedOrigins : list string; ReadyGiven : bool;
  HeartbeatInterval : Z; hc_timeout : Z; ReadTimeout : Z
}.
Definition with_default (d n : Z) : Z := if n =? 0 then d else n.

(** ** Requests *)

(** An HTTP request: [header] and [query] give the first value of a name, [upgrade] is what
    the WebSocket library says of it. *)
Record http_request : Type := MkHttpRequest {
  Method : string; header : string → string; query : string → string; upgrade : bool
}.
Inductive Protocol : Type := ProtocolLegacy | ProtocolV2.
Global Instance Protocol_eq_dec : EqDecision Protocol.
Proof. solve_decision. Defined.
(** The protocol a request asks for; none is the first one. *)
Definition protocol_of (s : string) : option Protocol :=
  if bool_decide (s = "") || bool_decide (s = "legacy") then Some ProtocolLegacy
  else if bool_decide (s = "v2") then Some ProtocolV2 else None.

(** [base64.StdEncoding.DecodeString], which skips CR and LF. *)
Fixpoint std_decode (l : list Z) : option (list Z) :=
  match l with
  | [] => Some []
  | a :: b :: c :: d :: t =>
    a ← sextet_std a; b ← sextet_std b;
    if bool_decide (t = []) && (d =? 61) then
      if c =? 61 then Some [a * 4 + b / 16]
      else c ← sextet_std c; Some [a * 4 + b / 16; b mod 16 * 16 + c / 4]
    else c ← sextet_std c; d ← sextet_std d; r ← std_decode t;
         Some (a * 4 + b / 16 :: b mod 16 * 16 + c / 4 :: c mod 4 * 64 + d :: r)
  | _ => None
  end.
Definition base64_std_decode (s : string) : option (list Z) := std_decode (List.filter not_newline (bytes s)).
Definition upgrade_ok (r : http_request) : bool :=
  upgrade r && bool_decide (header r "Sec-WebSocket-Version" = "13")
  && match base64_std_decode (header r "Sec-WebSocket-Key") with Some key => slen key =? 16 | None => false end.

(** ** Environment and trace *)

Definition route_reply : Type := result status_error (option (option pb.RouteLease)).
Definition submit_reply : Type := result status_error (option (option pb.SubmitResult)).

Record handler_env (W : Type) : Type := HandlerEnv {
  he_others : W → Hub → Hub * W;
  he_now : W → Z * W;
  he_ctx_done : W → bool * W;
  he_fate : W → fate * W;
  he_pick : W → bool * W;
  he_ready : W → bool * W;
  he_jwt : string → (string → option string) → W → option (bool * claims) * W;
  he_random : W → option string * W;
  he_uuid : W → string * W;
  he_connect : rpc_context → ConnectRequest → W → route_reply * W;
  he_disconnect : rpc_context → ConnectionRequest → W → W;
  he_heartbeat : rpc_context → ConnectionRequest → W → route_reply * W;
  he_submit : rpc_context → SubmitMessageRequest → W → submit_reply * W;
  he_upgrade : W → bool * W;
  he_wait : Z → W → bool * W;
  he_read : W → option (Z * string) * W
}.
Global Arguments he_others {W}. Global Arguments he_now {W}. Global Arguments he_ctx_done {W}.
Global Arguments he_fate {W}. Global Arguments he_pick {W}. Global Arguments he_ready {W}.
Global Arguments he_jwt {W}. Global Arguments he_random {W}. Global Arguments he_uuid {W}.
Global Arguments he_connect {W}. Global Arguments he_disconnect {W}. Global Arguments he_heartbeat {W}.
Global Arguments he_submit {W}. Global Arguments he_upgrade {W}. Global Arguments he_wait {W}. Global Arguments he_read {W}.

(** The interactions of a handler with the hub, Logic, the client and the clock. *)
Inductive handler_step : Type :=
| HNow (t : Z)
| HRejected (code : Z)
| HRegister (id : pb.ConnectionIdentity) (r : result comet_error nat)
| HActivate (k : nat) (r : result comet_error unit)
| HUnregister (id : pb.ConnectionIdentity)
| HConnect (rpc : rpc_context) (req : ConnectRequest) (reply : route_reply)
| HDisconnect (rpc : rpc_context) (req : ConnectionRequest)
| HHeartbeat (rpc : rpc_context) (req : ConnectionRequest) (reply : route_reply)
| HSubmit (rpc : rpc_context) (req : SubmitMessageRequest) (reply : submit_reply)
| HUpgraded (ok : bool)
| HRead (kind : Z) (raw : string)
| HControl (k : nat) (ctl : socketControl) (ok : bool).

Inductive handler_counter : Type := NAccepted | NRejected | NActive | NUncertain | NHeartbeatFailures.
Global Instance handler_counter_eq_dec : EqDecision handler_counter.
Proof. solve_decision. Defined.

Record handler_state (W : Type) : Type := HandlerState {
  h_world : W; h_hub : Hub; counters : handler_counter → Z; h_steps : list handler_step
}.
Global Arguments HandlerState {W}. Global Arguments h_world {W}. Global Arguments h_hub {W}.
Global Arguments counters {W}. Global Arguments h_steps {W}.

(** What [NewHandler] builds. *)
Record publicHandler : Type := MkHandler { config : HandlerConfig; origins : list string }.

Section Handler.
Context `{External} {W : Type} (env : handler_env W).
#[local] Abbreviation M := (ST (handler_state W)).

(** ** Construction *)

Definition allowed_origin (parse : string → option url) (origin : string) : bool :=
  match parse origin with
  | None => false
  | Some u =>
    negb (bool_decide (Host u = "") || has_user u || bool_decide (Path u ≠ "") || bool_decide (RawQuery u ≠ "")
          || bool_decide (Fragment u ≠ "")
          || (bool_decide (Scheme u ≠ "http") && bool_decide (Scheme u ≠ "https")))
  end.
(** [given] tells whether the hub and the client of Logic are not nil; [parse] is [url.Parse]. *)
Definition NewHandler (parse : string → option url) (given : bool) (c : HandlerConfig) : result comet_error publicHandler :=
  if negb given || (len (hc_secret c) <? 32) || negb (instanceToken (hc_token c)) || (slen (AllowedOrigins c) =? 0)
  then Err ErrInvalid
  else
    let c := MkHandlerConfig (hc_secret c) (hc_token c) (AllowedOrigins c) (ReadyGiven c)
               (with_default (20 * second) (HeartbeatInterval c)) (with_default (2 * second) (hc_timeout c))
               (with_default (60 * second) (ReadTimeout c)) in
    if (ReadTimeout c <=? HeartbeatInterval c) || (60 * second <? ReadTimeout c) then Err ErrInvalid
    else if (HeartbeatInterval c <=? 0) || (20 * second <? HeartbeatInterval c)
            || (hc_timeout c <=? 0) || (2 * second <? hc_timeout c) then Err ErrInvalid
    else if forallb (allowed_origin parse) (AllowedOrigins c) then Ok (MkHandler c (AllowedOrigins c))
    else Err ErrInvalid.

Context (h : publicHandler).

(** ** Interactions *)

Definition world_op {A} (f : W → A * W) : M A := λ s,
  let '(a, w) := f (h_world s) in (a, HandlerState w (h_hub s) (counters s) (h_steps s)).
Definition log (st : handler_step) : M unit :=
  modify (λ s, HandlerState (h_world s) (h_hub s) (counters s) (h_steps s ++ [st])).
Definition bump_counter (c : handler_counter) (n : Z) : M unit :=
  modify (λ s, HandlerState (h_world s) (h_hub s)
    (λ c', if decide (c = c') then (counters s c' + n) mod 2 ^ 64 else counters s c') (h_steps s)).
Definition clock : M Z := (t ← world_op (he_now env); log (HNow t);; mret t).
(** The other users of the hub run, then [f] does. *)
Definition on_hub {A} (f : Hub → A * Hub) : M A := λ s,
  let '(hb, w) := he_others env (h_world s) (h_hub s) in
  let '(a, hb) := f hb in (a, HandlerState w hb (counters s) (h_steps s)).
Definition reject (code : Z) : M unit := (bump_counter NRejected 1;; log (HRejected code)).

(** ** Readiness and contexts *)

Definition handler_ready : M bool :=
  (hb ← on_hub (λ hb, (hb, hb));
   if draining hb then mret false
   else
     hb ← on_hub (λ hb, (hb, hb));
     if hub_done hb then mret false
     else if negb (ReadyGiven (config h)) then mret true else world_op (he_ready env)).
Definition rpc (safe : Z) : M rpc_context :=
  (t ← clock;
   let deadline := t + hc_timeout (config h) in
   mret (RpcContext ["Bearer " +:+ hc_token (config h)]
           (if negb (safe =? zero_ns) && (safe <? deadline) then safe else deadline))).

(** [auth.ParseJWT] with the key of the handler. *)
Definition parse_token (raw : string) : M (option claims) :=
  (r ← world_op (he_jwt env raw (λ method, if bool_decide (method = "HS256") then Some (hc_secret (config h)) else None));
   mret (match r with
         | Some (valid, c) => if negb valid || bool_decide (UserUUID c = "") then None else Some c
         | None => None
         end)).

(** ** Routes *)

(** The instant until which a route is safe; [None] is an error. *)
Definition routeDeadline (route : option pb.RouteLease) (id : pb.ConnectionIdentity) (authDeadline : Z) : M (option Z) :=
  match route with
  | None => mret None
  | Some r =>
    match pb.AuthExpiresAt r, pb.RouteDeadline r with
    | Some a, Some d =>
      if negb (sameConnection (pb.RouteIdentity r) (Some id)) || negb (timestamp_check_valid a) || negb (timestamp_check_valid d)
      then mret None
      else
        let safe := as_ns d in
        let safe := if as_ns a <? safe then as_ns a else safe in
        let safe := if authDeadline <? safe then authDeadline else safe in
        let safe := safe - instanceSafetyMargin in
        t ← clock;
        mret (if t <? safe then Some safe else None)
    | _, _ => mret None
    end
  end.

(** ** Control frames *)

Definition PingMessage : Z := 9.
Definition PongMessage : Z := 10.
Definition TextMessage : Z := 1.
Definition queue_control (k : nat) (ctl : socketControl) : M (result comet_error unit) :=
  (over ← world_op (he_ctx_done env);
   pick ← world_op (he_pick env);
   f ← world_op (he_fate env);
   r ← on_hub (queueControl over pick f k ctl);
   log (HControl k ctl (is_ok r));;
   mret r).
(** The handler of pings answers with a pong. *)
Definition pong (k : nat) (payload : string) : M (result comet_error unit) :=
  queue_control k (MkSocketControl None PongMessage payload false).

(** ** Heartbeats *)

(** The codes after which a heartbeat is not tried again. *)
Definition fatal_code (c : code) : bool :=
  bool_decide (c ∈ [InvalidArgument; NotFound; PermissionDenied; FailedPrecondition; Unimplemented; Unauthenticated]).
(** One turn of the loop: the next safe deadline, or [None] to end.  [he_wait] tells whether
    the timer fired before the context or the connection was done. *)
Definition heartbeat_turn (k : nat) (id : pb.ConnectionIdentity) (authDeadline safe : Z) : M (option Z) :=
  (t ← clock;
   let remaining := time_sub safe t in
   if remaining <=? 0 then mret None
   else
     fired ← world_op (he_wait env (Z.min (HeartbeatInterval (config h)) remaining));
     if negb fired then mret None
     else
       t ← clock;
       if negb (t <? safe) then mret None
       else
         queued ← queue_control k (MkSocketControl None PingMessage "" false);
         match queued with
         | Err _ => mret None
         | Ok _ =>
           ctx ← rpc safe;
           let req := MkConnectionRequest (Some id) "" in
           reply ← world_op (he_heartbeat env ctx req);
           log (HHeartbeat ctx req reply);;
           match reply with
           | Err e => bump_counter NHeartbeatFailures 1;; mret (if fatal_code (err_code e) then None else Some safe)
           | Ok None => mret None
           | Ok (Some route) => routeDeadline route id authDeadline
           end
         end).
(** [n] turns at most; the answer is the safe deadline while it goes on. *)
Fixpoint heartbeat (n : nat) (k : nat) (id : pb.ConnectionIdentity) (authDeadline safe : Z) : M (option Z) :=
  match n with
  | O => mret (Some safe)
  | S n' =>
    next ← heartbeat_turn k id authDeadline safe;
    match next with None => mret None | Some safe => heartbeat n' k id authDeadline safe end
  end.

(** ** Reading *)

Definition content_ok (content : string) : bool := negb ((len content =? 0) || (16 * 1024 <? len content)).
(** The request a frame asks for, and whether the frame is valid. *)
Definition v2_request (id : pb.ConnectionIdentity) (raw rid : string) : SubmitMessageRequest * bool :=
  let '(f, ok) := strictJSON send_frame_field im.zero_frame raw in
  let type := if bool_decide (im.FrameReceiveType f = im.ReceiveTypeUser) then pb.RECEIVE_TYPE_USER
              else if bool_decide (im.FrameReceiveType f = im.ReceiveTypeGroup) then pb.RECEIVE_TYPE_GROUP else 0 in
  (MkSubmit (Some id) (im.FrameClientID f) (Some (pb.MkDestination type (im.FrameReceiveID f))) (im.FrameContent f) rid,
   ok && negb (type =? 0) && bool_decide (im.FrameEvent f = im.EventSendMessage) && CometValidation.validUUID (im.FrameClientID f)
   && content_ok (im.FrameContent f)).
Definition legacy_request (id : pb.ConnectionIdentity) (raw rid cid : string) : SubmitMessageRequest * bool :=
  let '(f, ok) := strictJSON legacy_field wschat.zero_message raw in
  let type := if wschat.ReceiveType f =? 0 then pb.RECEIVE_TYPE_USER
              else if wschat.ReceiveType f =? 1 then pb.RECEIVE_TYPE_GROUP else 0 in
  (MkSubmit (Some id) cid (Some (pb.MkDestination type (wschat.ReceiveID f))) (wschat.Content f) rid,
   ok && bool_decide (wschat.SendID f = pb.UserId id) && (wschat.Origin f =? 0) && negb (type =? 0)
   && content_ok (wschat.Content f)).
Definition request_of (protocol : Protocol) (id : pb.ConnectionIdentity) (raw : string) : M (SubmitMessageRequest * bool) :=
  (rid ← world_op (he_uuid env);
   match protocol with
   | ProtocolV2 => mret (v2_request id raw rid)
   | ProtocolLegacy => cid ← world_op (he_uuid env); mret (legacy_request id raw rid cid)
   end).

Definition dispatch_name (state : Z) : string :=
  if state =? pb.DISPATCH_STATE_QUEUED then im.DispatchQueued
  else if state =? pb.DISPATCH_STATE_NOT_QUEUED then im.DispatchNotQueued
  else if state =? pb.DISPATCH_STATE_UNKNOWN then im.DispatchUnknown else "".
(** The result a reply carries for the client, if it is one for that request. *)
Definition result_of (client : string) (reply : submit_reply) : option im.SendResult :=
  match reply with
  | Ok (Some (Some r)) =>
    match pb.Submitted r with
    | Some m =>
      if pb.WasStored r && bool_decide (pb.SubmittedId r = client) && validateMessage (Some m)
         && bool_decide (dispatch_name (pb.DispatchState r) ≠ "")
      then Some (im.MkSendResult (pb.SubmittedId r) true (publicMessage m) (dispatch_name (pb.DispatchState r)) (pb.WasReplayed r))
      else None
    | None => None
    end
  | _ => None
  end.
Definition error_of (reply : submit_reply) : option status_error := match reply with Err e => Some e | Ok _ => None end.
Definition result_frame (client : string) (reply : submit_reply) : im.SendResultFrame :=
  let result := result_of client reply in
  im.MkSendResultFrame im.EventSendResult client result
    (match result with Some _ => None | None => Some (sendError (error_of reply)) end).
Definition invalid_frame (client : string) : im.SendResultFrame :=
  im.MkSendResultFrame im.EventSendResult client None (Some (im.MkSendError im.ErrorInvalidArgument im.RetryDoNotRetry "")).

(** One turn of the loop: whether it goes on. *)
Definition read_turn (protocol : Protocol) (k : nat) (id : pb.ConnectionIdentity) : M bool :=
  (message ← world_op (he_read env);
   match message with
   | None => mret false
   | Some (kind, raw) =>
     log (HRead kind raw);;
     if negb (kind =? TextMessage) then mret false
     else
       '(req, ok) ← request_of protocol id raw;
       if negb ok then
         match protocol with
         | ProtocolV2 =>
           queue_control k (MkSocketControl (Some (invalid_frame (SubClientMessageId req))) 0 "" false);; mret true
         | ProtocolLegacy => mret true
         end
       else
         ctx ← rpc zero_ns;
         reply ← world_op (he_submit env ctx req);
         log (HSubmit ctx req reply);;
         let terminal := terminalSubmitError (error_of reply) in
         match protocol with
         | ProtocolLegacy => mret (negb terminal)
         | ProtocolV2 =>
           queued ← queue_control k (MkSocketControl (Some (result_frame (SubClientMessageId req) reply)) 0 "" terminal);
           mret (is_ok queued && negb terminal)
         end
   end).
(** [n] turns at most; whether it goes on. *)
Fixpoint read (n : nat) (protocol : Protocol) (k : nat) (id : pb.ConnectionIdentity) : M bool :=
  match n with
  | O => mret true
  | S n' => more ← read_turn protocol k id; if more : bool then read n' protocol k id else mret false
  end.

(** ** The handshake *)

(** The checks before an identity is made. *)
Definition admission (r : http_request) : M (option (Protocol * claims * string)) :=
  if bool_decide (Method r ≠ "GET") then reject 405;; mret None
  else if negb (upgrade_ok r) then reject 400;; mret None
  else
    match protocol_of (query r "protocol") with
    | None => reject 400;; mret None
    | Some protocol =>
      if negb (bool_decide (header r "Origin" ∈ origins h)) then reject 403;; mret None
      else
        let raw := query r "token" in
        let raw := if bool_decide (raw = "") then trim_prefix (header r "Authorization") "Bearer " else raw in
        c ← parse_token raw;
        match c with
        | None => reject 401;; mret None
        | Some c =>
          if negb (CometValidation.validID (UserUUID c) "U") then reject 401;; mret None
          else
            t ← clock;
            if negb (t + instanceSafetyMargin <? ExpiresAt c) then reject 401;; mret None
            else
              ready ← handler_ready;
              if negb ready then reject 503;; mret None else mret (Some (protocol, c, raw))
        end
    end.
(** What is deferred once the identity is made. *)
Definition cleanup (id : pb.ConnectionIdentity) : M unit :=
  (f ← world_op (he_fate env);
   on_hub (λ hb, (tt, (Unregister f (Some id) hb).2));;
   log (HUnregister id);;
   ctx ← rpc zero_ns;
   let req := MkConnectionRequest (Some id) "" in
   world_op (λ w, (tt, he_disconnect env ctx req w));;
   log (HDisconnect ctx req)).
(** From the activation on; [n] bounds the turns of the reader. *)
Definition attach (n : nat) (protocol : Protocol) (k : nat) (id : pb.ConnectionIdentity) : M unit :=
  (f ← world_op (he_fate env);
   a ← on_hub (activate f k);
   log (HActivate k a);;
   match a with
   | Err _ => reject 503
   | Ok _ =>
     ok ← world_op (he_upgrade env);
     log (HUpgraded ok);;
     when ok (bump_counter NAccepted 1;; bump_counter NActive 1;; read n protocol k id;; bump_counter NActive (-1))
   end).
Definition connect (n : nat) (protocol : Protocol) (c : claims) (raw : string) (id : pb.ConnectionIdentity) (k : nat) : M unit :=
  (ctx ← rpc (ExpiresAt c - instanceSafetyMargin);
   comet ← gets (λ s, hub_identity (h_hub s));
   let req := MkConnect (Some comet) (pb.ConnectionId id) (pb.RouteToken id) raw "" in
   reply ← world_op (he_connect env ctx req);
   log (HConnect ctx req reply);;
   match reply with
   | Ok (Some route) =>
     safe ← routeDeadline route id (ExpiresAt c);
     match safe with
     | None => reject 401
     | Some _ =>
       over ← world_op (he_ctx_done env);
       if over : bool then reject 401 else attach n protocol k id
     end
   | _ => bump_counter NUncertain 1;; reject 503
   end).
Definition serve (n : nat) (protocol : Protocol) (c : claims) (raw : string) (id : pb.ConnectionIdentity) : M unit :=
  (f ← world_op (he_fate env);
   k ← on_hub (register f (Some id) true);
   log (HRegister id k);;
   match k with
   | Err _ => reject 503
   | Ok k => connect n protocol c raw id k
   end).
Definition socket (n : nat) (r : http_request) : M unit :=
  (a ← admission r;
   match a with
   | None => mret tt
   | Some (protocol, c, raw) =>
     token ← world_op (he_random env);
     match token with
     | None => reject 503
     | Some token =>
       connection ← world_op (he_uuid env);
       comet ← gets (λ s, hub_identity (h_hub s));
       let id := pb.MkConnectionIdentity (UserUUID c) (pb.CometInstanceId comet) connection (base64_raw_url_encode token) in
       serve n protocol c raw id;; cleanup id
     end
   end).

(** ** The other endpoints *)

(** [/healthz] and [/readyz]: the status and the text. *)
Definition healthz : M (Z * string) :=
  (hb ← on_hub (λ hb, (hb, hb)); mret (if hub_done hb then (503, "stopped") else (200, "ok"))).
Definition readyz : M (Z * string) :=
  (ready ← handler_ready; mret (if ready : bool then (200, "ready") else (503, "not ready"))).
End Handler.
