(* ===== verification/CometHandlerProofs.v ===== *)
(** * The public endpoint of a Comet: properties *)
From S2P Require Import Prelude GoStd GoTime External GoText Json Samples TextRound Dto LogicService LogicDispatch CometRpc.
From S2P Require Import CometHubProofs CometInstance CometInstanceProofs CometValidation CometFrames CometFramesProofs CometHub CometHandler.
Local Open Scope Z_scope.

(** ** The hub behind the handler *)

Section Hub.
Context `{External}.
Lemma call_advances {A} f (op : Hub → result comet_error A * Hub) h :
  (∀ h, advances h (op h).2) → advances h (call f op h).2.
Proof. intros Hop. destruct f; cbn; [done|apply Hop..]. Qed.
Lemma Unregister_advances f id h : advances h (Unregister f id h).2.
Proof.
  unfold Unregister. destruct id as [c|]; [|done]. case_match; [|done]. apply call_advances. intros h'.
  pose proof (unregister_advances c h') as Hu. by destruct (unregister_op c h').
Qed.
Lemma register_call_advances f id pend h : advances h (register f id pend h).2.
Proof.
  unfold register. destruct id as [c|]; [|done]. case_match; [|done]. apply call_advances. intros h'. apply register_advances.
Qed.
Lemma activate_advances f k h : advances h (activate f k h).2.
Proof.
  apply call_advances. intros h'. unfold activate_op. destruct (draining h'); [done|].
  destruct (heap h' !! k) as [c|]; [|done]. by case_match.
Qed.
Lemma queueControl_advances over pick f k ctl h : advances h (queueControl over pick f k ctl h).2.
Proof.
  unfold queueControl. destruct (offer_control over pick k ctl h) as [o h'] eqn:Ho.
  assert (advances h h') as Ha.
  { unfold offer_control in Ho. destruct (heap h !! k) as [c|]; [|by simplify_eq].
    destruct (_ && _); [by simplify_eq|]. destruct (_ <? _)%nat; simplify_eq; [done|].
    etransitivity; [|apply markSlow_advances]. done. }
  destruct o; [done..|]. cbn [snd]. etransitivity; [exact Ha|apply Unregister_advances].
Qed.
End Hub.

(** ** Traces *)

Definition calm (st : handler_step) : bool := match st with HNow _ | HRejected _ => true | _ => false end.
Definition unregisters (st : handler_step) : bool := match st with HUnregister _ => true | _ => false end.

Section Calls.
Context `{External}.

(** The request [req] is what the text of a valid frame asks for. *)
Definition asks (protocol : Protocol) (id : pb.ConnectionIdentity) (raw : string) (req : SubmitMessageRequest) : Prop :=
  ∃ rid cid, match protocol with
             | ProtocolV2 => v2_request id raw rid
             | ProtocolLegacy => legacy_request id raw rid cid
             end = (req, true).
(** What Logic must have answered before a socket opens at the instant [t]. *)
Definition route_good (route : option pb.RouteLease) (id : pb.ConnectionIdentity) (auth t : Z) : Prop :=
  ∃ r a d, route = Some r ∧ sameConnection (pb.RouteIdentity r) (Some id) = true
    ∧ pb.AuthExpiresAt r = Some a ∧ pb.RouteDeadline r = Some d
    ∧ t + 5 * second < as_ns d ∧ t + 5 * second < as_ns a ∧ t + 5 * second < auth.
(** A frame the reader queues for the client. *)
Definition answers (protocol : Protocol) (id : pb.ConnectionIdentity) (pre : list handler_step) (ctl : socketControl) : Prop :=
  protocol = ProtocolV2 ∧ ∃ pre',
    (∃ raw client, pre = pre' ++ [HRead TextMessage raw] ∧ ctl = MkSocketControl (Some (invalid_frame client)) 0 "" false)
    ∨ (∃ ctx req reply, pre = pre' ++ [HSubmit ctx req reply]
         ∧ ctl = MkSocketControl (Some (result_frame (SubClientMessageId req) reply)) 0 "" (terminalSubmitError (error_of reply))).

(** What a step of a handler may be after the steps [pre]: the connection [id] of a client
    who showed [jwt] is registered first, then Logic is asked once, then the connection is
    activated on an answer for exactly that connection, and only then the socket opens;
    what the reader submits is the text frame it has just read; the end is the cleanup. *)
Definition step_allowed (cfg : HandlerConfig) (comet : pb.CometIdentity) (protocol : Protocol) (jwt : string) (auth : Z)
    (id : pb.ConnectionIdentity) (pre : list handler_step) (st : handler_step) : Prop :=
  match st with
  | HNow _ | HRejected _ | HRead _ _ => True
  | HRegister id' _ => id' = id ∧ Forall (λ e, calm e = true) pre
  | HConnect ctx req _ =>
    req = MkConnect (Some comet) (pb.ConnectionId id) (pb.RouteToken id) jwt "" ∧ authorization ctx = ["Bearer " +:+ hc_token cfg]
    ∧ ∃ pre' k t, pre = pre' ++ [HRegister id (Ok k); HNow t] ∧ Forall (λ e, calm e = true) pre'
  | HActivate k _ =>
    HRegister id (Ok k) ∈ pre
    ∧ ∃ pre' ctx req route t, pre = pre' ++ [HConnect ctx req (Ok (Some route)); HNow t] ∧ route_good route id auth t
  | HUpgraded _ => ∃ pre' k, pre = pre' ++ [HActivate k (Ok tt)]
  | HSubmit ctx req _ =>
    HUpgraded true ∈ pre ∧ SubIdentity req = Some id ∧ authorization ctx = ["Bearer " +:+ hc_token cfg]
    ∧ submit_ok req = true ∧ ∃ pre' raw t, pre = pre' ++ [HRead TextMessage raw; HNow t] ∧ asks protocol id raw req
  | HControl k ctl _ => HUpgraded true ∈ pre ∧ HRegister id (Ok k) ∈ pre ∧ answers protocol id pre ctl
  | HUnregister id' => id' = id ∧ Forall (λ e, unregisters e = false) pre
  | HDisconnect ctx req =>
    req = MkConnectionRequest (Some id) "" ∧ authorization ctx = ["Bearer " +:+ hc_token cfg]
    ∧ ∃ pre' t, pre = pre' ++ [HUnregister id; HNow t]
  | HHeartbeat _ _ _ => False
  end.
Definition trace_allowed cfg comet protocol jwt auth id (tr : list handler_step) : Prop :=
  ∀ pre st post, tr = pre ++ st :: post → step_allowed cfg comet protocol jwt auth id pre st.
Lemma trace_allowed_snoc cfg comet protocol jwt auth id tr st :
  trace_allowed cfg comet protocol jwt auth id tr → step_allowed cfg comet protocol jwt auth id tr st →
  trace_allowed cfg comet protocol jwt auth id (tr ++ [st]).
Proof.
  intros Htr Hst pre st' post E. destruct post as [|e post _] using rev_ind.
  - apply app_inj_tail in E as [-> ->]. done.
  - rewrite app_comm_cons, app_assoc in E. apply app_inj_tail in E as [-> _]. by eapply Htr.
Qed.
Lemma calm_trace_allowed cfg comet protocol jwt auth id tr :
  Forall (λ e, calm e = true) tr → trace_allowed cfg comet protocol jwt auth id tr.
Proof.
  intros Hc pre st post ->. apply Forall_app in Hc as [_ Hc]. apply Forall_cons in Hc as [Hc _]. by destruct st.
Qed.
End Calls.

(** ** The commands of a handler *)

Section Handler.
Context `{External} {W : Type} (env : handler_env W) (h : publicHandler).
Hypothesis others_ok : ∀ w hb, rtc step hb (he_others env w hb).1.

(** From [s] to [s'] the handler took [tr]. *)
Definition logged (tr : list handler_step) (s s' : handler_state W) : Prop :=
  hub_identity (h_hub s') = hub_identity (h_hub s) ∧ h_steps s' = h_steps s ++ tr.
Lemma logged_nil s : logged [] s s.
Proof. split; [done|by rewrite app_nil_r]. Qed.
Lemma logged_trans tr1 tr2 s1 s2 s3 : logged tr1 s1 s2 → logged tr2 s2 s3 → logged (tr1 ++ tr2) s1 s3.
Proof. intros [Hi1 H1] [Hi2 H2]. split; [congruence|by rewrite H2, H1, app_assoc]. Qed.

Lemma world_op_ok {A} (f : W → A * W) s : wp (world_op f) (λ _ s', logged [] s s') s.
Proof. unfold wp, world_op. destruct (f (h_world s)). split; [done|by rewrite app_nil_r]. Qed.
Lemma log_ok st s : wp (log st) (λ _ s', logged [st] s s') s.
Proof. by split. Qed.
Lemma bump_ok c n s : wp (bump_counter c n) (λ _ s', logged [] s s') s.
Proof. split; [done|by rewrite app_nil_r]. Qed.
Lemma on_hub_ok {A} (f : Hub → A * Hub) s :
  (∀ hb, advances hb (f hb).2) → wp (on_hub env f) (λ _ s', logged [] s s') s.
Proof.
  intros Hf. unfold wp, on_hub. pose proof (steps_advance _ _ (others_ok (h_world s) (h_hub s))) as (Hi&_).
  destruct (he_others env (h_world s) (h_hub s)) as [hb w]. destruct (Hf hb) as (Hi'&_). destruct (f hb) as [a hb'].
  split; [cbn in *; congruence|by rewrite app_nil_r].
Qed.
Lemma clock_ok s : wp (clock env) (λ t s', logged [HNow t] s s') s.
Proof.
  unfold clock. wp_apply world_op_ok. intros t s1 H1. wp_apply log_ok. intros _ s2 H2. wp_steps.
  by apply (logged_trans _ _ _ _ _ H1 H2).
Qed.
Lemma rejection_ok c s : wp (reject c) (λ _ s', logged [HRejected c] s s') s.
Proof.
  unfold reject. wp_apply bump_ok. intros _ s1 H1. wp_apply log_ok. intros _ s2 H2.
  by apply (logged_trans _ _ _ _ _ H1 H2).
Qed.
Lemma rpc_ok safe s :
  wp (rpc env h safe) (λ ctx s', ∃ t, logged [HNow t] s s' ∧ authorization ctx = ["Bearer " +:+ hc_token (config h)]
        ∧ rpc_deadline ctx = if negb (safe =? zero_ns) && (safe <? t + hc_timeout (config h)) then safe else t + hc_timeout (config h)) s.
Proof. unfold rpc. wp_apply clock_ok. intros t s1 H1. wp_steps. by exists t. Qed.
(** The JWT library accepts the token, under the key of the handler, for those claims. *)
Definition token_valid (raw : string) (c : claims) : Prop :=
  ∃ w, (he_jwt env raw (λ method, if bool_decide (method = "HS256") then Some (hc_secret (config h)) else None) w).1
       = Some (true, c).
Lemma parse_token_ok raw s :
  wp (parse_token env h raw) (λ r s', logged [] s s' ∧ ∀ c, r = Some c → token_valid raw c) s.
Proof.
  unfold parse_token, world_op. wp_steps. unfold wp at 1, token_valid.
  set (key := λ method, if bool_decide (method = "HS256") then Some (hc_secret (config h)) else None).
  destruct (he_jwt env raw key (h_world s)) as [r w] eqn:Hr. wp_steps. split; [split; [done|by rewrite app_nil_r]|].
  intros c Hc. exists (h_world s). rewrite Hr. cbn. destruct r as [[[] c']|]; [|done|done]. cbn in Hc.
  destruct (bool_decide _); [done|]. by simplify_eq.
Qed.
Lemma handler_ready_ok s : wp (handler_ready env h) (λ _ s', logged [] s s') s.
Proof.
  unfold handler_ready. wp_apply on_hub_ok; [done|]. intros hb s1 H1. destruct (draining hb); [by wp_steps|].
  wp_apply on_hub_ok; [done|]. intros hb2 s2 H2. pose proof (logged_trans _ _ _ _ _ H1 H2) as H12.
  destruct (hub_done hb2); [by wp_steps|]. destruct (negb _); [by wp_steps|].
  eapply wp_mono; [apply world_op_ok|]. intros ready s3 H3. by apply (logged_trans _ _ _ _ _ H12 H3).
Qed.
Lemma queue_control_ok k ctl s :
  wp (queue_control env k ctl) (λ r s', logged [HControl k ctl (is_ok r)] s s') s.
Proof.
  unfold queue_control. wp_apply world_op_ok. intros over s1 H1. wp_apply world_op_ok. intros pick s2 H2.
  wp_apply world_op_ok. intros f s3 H3.
  wp_apply on_hub_ok; [intros hb; apply queueControl_advances|]. intros r s4 H4.
  wp_apply log_ok. intros _ s5 H5. wp_steps.
  pose proof (logged_trans _ _ _ _ _ (logged_trans _ _ _ _ _ H1 H2) (logged_trans _ _ _ _ _ H3 H4)) as H14.
  by apply (logged_trans _ _ _ _ _ H14 H5).
Qed.
Lemma routeDeadline_ok route id auth s :
  wp (routeDeadline env route id auth)
     (λ r s', ∃ tr, logged tr s s' ∧ Forall (λ e, calm e = true) tr
        ∧ ∀ safe, r = Some safe → ∃ t, tr = [HNow t] ∧ t < safe ∧ route_good route id auth t
             ∧ ∃ l d, route = Some l ∧ pb.RouteDeadline l = Some d ∧ safe ≤ as_ns d - 5 * second) s.
Proof.
  assert (∃ tr, logged tr s s ∧ Forall (λ e, calm e = true) tr ∧ ∀ safe, @None Z = Some safe →
    ∃ t, tr = [HNow t] ∧ t < safe ∧ route_good route id auth t
         ∧ ∃ l d, route = Some l ∧ pb.RouteDeadline l = Some d ∧ safe ≤ as_ns d - 5 * second) as Hnone.
  { exists []. split_and!; [apply logged_nil|constructor|done]. }
  unfold routeDeadline. destruct route as [r|]; [|done].
  destruct (pb.AuthExpiresAt r) as [a|] eqn:Ha; [|done]. destruct (pb.RouteDeadline r) as [d|] eqn:Hd; [|done].
  destruct (_ || _) eqn:Hb; [done|]. clear Hnone. guards in Hb. destruct Hb as ((Hsame&_)&_).
  wp_apply clock_ok. intros t s1 H1. wp_steps. exists [HNow t]. split_and!; [done|by repeat constructor|].
  set (m := if auth <? _ then _ else _) in *. intros safe Hs.
  assert (m ≤ as_ns d ∧ m ≤ as_ns a ∧ m ≤ auth) as (Hm1&Hm2&Hm3).
  { unfold m. destruct (Z.ltb_spec (as_ns a) (as_ns d));
      match goal with |- context [auth <? ?x] => destruct (Z.ltb_spec auth x) end; lia. }
  unfold instanceSafetyMargin in Hs. destruct (Z.ltb_spec t (m - 5 * second)); [|done]. apply (inj Some) in Hs as <-.
  exists t. split_and!; [done|lia| |exists r, d; split_and!; [done..|lia]].
  exists r, a, d. split_and!; [done..|lia|lia|lia].
Qed.
End Handler.

(** ** Requests *)

Section Requests.
Context `{External}.

Lemma content_ok_spec content : content_ok content = true → content ≠ "" ∧ len content ≤ 16384.
Proof.
  unfold content_ok. intros Hc. guards in Hc. destruct Hc as [Hne Hmax]. split; [|lia]. by intros ->.
Qed.
Lemma submit_ok_intro req :
  LogicService.validRequestID (SubRequestId req) = true → LogicService.validUUID (SubClientMessageId req) = true →
  content_ok (SubContent req) = true → utf8_valid (SubContent req) = true → submit_ok req = true.
Proof.
  intros Hr Hu Hc Hv. apply content_ok_spec in Hc as [Hne Hmax]. unfold submit_ok. rewrite Hr, Hu, Hv.
  rewrite bool_decide_true by done. rewrite (proj2 (Z.ltb_ge _ _)) by done. done.
Qed.
Lemma v2_request_ok id raw rid req :
  LogicService.validRequestID rid = true → v2_request id raw rid = (req, true) →
  SubIdentity req = Some id ∧ submit_ok req = true.
Proof.
  unfold v2_request. intros Hr. pose proof (send_frame_content raw) as Hc.
  destruct (strictJSON send_frame_field im.zero_frame raw) as [f ok]. cbn [fst] in Hc.
  intros Hreq. apply (inj2 pair) in Hreq as [<- Hg]. rewrite !andb_true_iff in Hg. destruct Hg as ((_&Hu)&Hcontent).
  split; [done|]. by apply submit_ok_intro.
Qed.
Lemma legacy_request_ok id raw rid cid req :
  LogicService.validRequestID rid = true → LogicService.validUUID cid = true → legacy_request id raw rid cid = (req, true) →
  SubIdentity req = Some id ∧ submit_ok req = true.
Proof.
  unfold legacy_request. intros Hr Hu. pose proof (legacy_content raw) as Hc.
  destruct (strictJSON legacy_field wschat.zero_message raw) as [f ok]. cbn [fst] in Hc.
  intros Hreq. apply (inj2 pair) in Hreq as [<- Hg]. rewrite !andb_true_iff in Hg. destruct Hg as (_&Hcontent).
  split; [done|]. by apply submit_ok_intro.
Qed.
End Requests.

(** ** A connection *)

Section Connection.
Context `{External} {W : Type} (env : handler_env W) (h : publicHandler).
Hypothesis others_ok : ∀ w hb, rtc step hb (he_others env w hb).1.
Hypothesis uuid_ok : ∀ w, LogicService.validUUID (he_uuid env w).1 = true
                          ∧ LogicService.validRequestID (he_uuid env w).1 = true.
Context (comet : pb.CometIdentity) (protocol : Protocol) (jwt : string) (auth : Z) (id : pb.ConnectionIdentity).
#[local] Abbreviation allowed := (step_allowed (config h) comet protocol jwt auth id).

(** The trace is in order and the connection was not cleaned up yet. *)
Record connected (s : handler_state W) : Prop := {
  con_comet : hub_identity (h_hub s) = comet;
  con_trace : trace_allowed (config h) comet protocol jwt auth id (h_steps s);
  con_open : Forall (λ e, unregisters e = false) (h_steps s)
}.
Lemma connected_step st s s' :
  logged [st] s s' → allowed (h_steps s) st → unregisters st = false → connected s → connected s'.
Proof.
  intros [Hi Hs] Hst Hu [Hc Ht Ho]. split; [congruence| |]; rewrite Hs; [by apply trace_allowed_snoc|].
  apply Forall_app. split; [done|by constructor].
Qed.
Lemma connected_calm tr s s' : logged tr s s' → Forall (λ e, calm e = true) tr → connected s → connected s'.
Proof.
  intros Hl Hc. revert s s' Hl. induction Hc as [|st tr Hst _ IH]; intros s s' [Hi Hs].
  - rewrite app_nil_r in Hs. intros [? ? ?]. split; [congruence|by rewrite Hs..].
  - intros Hcon. set (s1 := HandlerState (h_world s) (h_hub s) (counters s) (h_steps s ++ [st])).
    apply (IH s1); [split; [done|cbn; by rewrite Hs, <- app_assoc]|].
    eapply (connected_step st s); [done|by destruct st|by destruct st|done].
Qed.
Lemma connected_nil s s' : logged [] s s' → connected s → connected s'.
Proof. intros Hl. by apply (connected_calm []). Qed.

(** ** Reading *)

Definition reading (k : nat) (s : handler_state W) : Prop :=
  connected s ∧ HUpgraded true ∈ h_steps s ∧ HRegister id (Ok k) ∈ h_steps s.
Lemma reading_logged k tr s s' : logged tr s s' → connected s' → reading k s → reading k s'.
Proof. intros [_ Hs] Hc (_&Hu&Hr). split; [done|]. rewrite Hs. split; apply elem_of_app; by left. Qed.

Lemma request_ok raw s :
  wp (request_of env protocol id raw)
     (λ r s', logged [] s s' ∧ (r.2 = true → asks protocol id raw r.1 ∧ SubIdentity r.1 = Some id ∧ submit_ok r.1 = true)) s.
Proof.
  unfold request_of. wp_steps. unfold wp at 1, world_op. destruct (uuid_ok (h_world s)) as [_ Hrid].
  destruct (he_uuid env (h_world s)) as [rid w1]. cbn [fst snd] in *. destruct protocol.
  - wp_steps. unfold wp at 1, world_op. cbn [h_world]. destruct (uuid_ok w1) as [Hcid _].
    destruct (he_uuid env w1) as [cid w2]. cbn [fst snd] in *. wp_steps. split; [split; [done|by rewrite app_nil_r]|].
    destruct (legacy_request id raw rid cid) as [req ok] eqn:Hreq. cbn [fst snd]. intros ->.
    split; [by exists rid, cid|by eapply legacy_request_ok].
  - wp_steps. split; [split; [done|by rewrite app_nil_r]|].
    destruct (v2_request id raw rid) as [req ok] eqn:Hreq. cbn [fst snd]. intros ->.
    split; [by exists rid, rid|by eapply v2_request_ok].
Qed.

Lemma reading_nil k s s' : logged [] s s' → reading k s → reading k s'.
Proof. intros Hl Hr. eapply reading_logged; [done|by eapply connected_nil, Hr|done]. Qed.
Lemma reading_step k st s s' :
  logged [st] s s' → allowed (h_steps s) st → unregisters st = false → reading k s → reading k s'.
Proof. intros Hl Ha Hu Hr. eapply reading_logged; [done|by eapply connected_step, Hr|done]. Qed.

(** Answering the frame just read, or the submission just made. *)
Lemma answer_ok k ctl s :
  reading k s → answers protocol id (h_steps s) ctl → wp (queue_control env k ctl) (λ _ s', reading k s') s.
Proof.
  intros Hr Ha. eapply wp_mono; [by apply queue_control_ok|]. intros r s' Hl.
  eapply reading_step; [exact Hl| |done|exact Hr]. destruct Hr as (_&?&?). by split_and!.
Qed.
(** Submitting what the frame just read asks for. *)
Lemma submit_step_ok k raw req s ctx reply tr s' :
  reading k s → h_steps s = tr ++ [HRead TextMessage raw] → asks protocol id raw req → SubIdentity req = Some id →
  submit_ok req = true → authorization ctx = ["Bearer " +:+ hc_token (config h)] →
  (∃ t, logged ([HNow t] ++ [HSubmit ctx req reply]) s s') → reading k s'.
Proof.
  intros Hr Hs Ha Hid Hok Hauth (t&Hi&Hs').
  set (s1 := HandlerState (h_world s) (h_hub s) (counters s) (h_steps s ++ [HNow t])).
  assert (reading k s1) as Hr1 by (eapply (reading_step k (HNow t) s s1); [by split|done..]).
  eapply (reading_step k (HSubmit ctx req reply) s1); [|split_and!; try done; [apply Hr1|]|done|done].
  - split; [done|]. cbn. by rewrite Hs', <- app_assoc.
  - exists tr, raw, t. cbn. by rewrite Hs, <- app_assoc.
Qed.

Lemma read_turn_ok k s : reading k s → wp (read_turn env h protocol k id) (λ _ s', reading k s') s.
Proof.
  intros Hr. unfold read_turn. wp_apply @world_op_ok. intros [[kd raw]|] s1 H1; [|wp_steps; by eapply reading_nil].
  wp_apply @log_ok. intros _ s2 H2.
  assert (reading k s2) as Hr2 by (eapply reading_step; [done|done|done|by eapply reading_nil]).
  destruct (Z.eqb_spec kd TextMessage) as [->|_]; cbn [negb]; [|by wp_steps].
  wp_apply request_ok. intros [req ok] s3 [H3 Hreq]. cbn [fst snd] in Hreq.
  pose proof (reading_nil _ _ _ H3 Hr2) as Hr3.
  assert (h_steps s3 = h_steps s1 ++ [HRead TextMessage raw]) as Hs3.
  { destruct H2 as [_ H2], H3 as [_ H3]. by rewrite H3, H2, app_nil_r. }
  destruct ok; cbn [negb].
  - destruct (Hreq eq_refl) as (Ha&Hid&Hok).
    wp_apply @rpc_ok. intros ctx s4 (t&H4&Hauth&_). wp_apply @world_op_ok. intros reply s5 H5.
    wp_apply @log_ok. intros _ s6 H6.
    assert (logged ([HNow t] ++ [HSubmit ctx req reply]) s3 s6) as H36.
    { eapply logged_trans; [exact H4|]. by apply (logged_trans _ _ _ _ _ H5 H6). }
    assert (reading k s6) as Hr6 by (eapply submit_step_ok; [exact Hr3|exact Hs3|by eauto..]).
    destruct protocol eqn:Hp; [by wp_steps|].
    wp_apply answer_ok; [exact Hr6| |intros r s7 Hr7; by wp_steps].
    split; [done|]. exists (h_steps s3 ++ [HNow t]). right. exists ctx, req, reply. split; [|done].
    destruct H36 as [_ ->]. by rewrite <- app_assoc.
  - destruct protocol eqn:Hp; [by wp_steps|].
    wp_apply answer_ok; [exact Hr3| |intros r s4 Hr4; by wp_steps].
    split; [done|]. exists (h_steps s1). left. by eexists _, _.
Qed.
Lemma reading_ok n k s : reading k s → wp (read env h n protocol k id) (λ _ s', reading k s') s.
Proof.
  revert s. induction n as [|n IH]; intros s Hr; cbn [read]; [by wp_steps|].
  wp_apply read_turn_ok; [done|]. intros more s1 Hr1. destruct more; [by apply IH|by wp_steps].
Qed.

(** ** The handshake *)

Lemma reject_connected c s : connected s → wp (reject c) (λ _ s', connected s') s.
Proof.
  intros Hc. eapply wp_mono; [apply rejection_ok|]. intros u s' Hl. eapply connected_calm; [exact Hl|by repeat constructor|done].
Qed.

Lemma attach_ok n k s ctx req route t tr :
  connected s → HRegister id (Ok k) ∈ h_steps s →
  h_steps s = tr ++ [HConnect ctx req (Ok (Some route)); HNow t] → route_good route id auth t →
  wp (attach env h n protocol k id) (λ _ s', connected s') s.
Proof.
  intros Hc Hk Hs Hroute. unfold attach. wp_apply @world_op_ok. intros f s1 H1. pose proof (connected_nil _ _ H1 Hc) as Hc1.
  wp_apply @on_hub_ok; [done|intros hb; apply activate_advances|]. intros a s2 H2. pose proof (connected_nil _ _ H2 Hc1) as Hc2.
  wp_apply @log_ok. intros _ s3 H3.
  assert (h_steps s2 = h_steps s) as Hs2.
  { destruct H1 as [_ H1], H2 as [_ ->]. by rewrite H1, !app_nil_r. }
  assert (connected s3) as Hc3.
  { eapply connected_step; [done| |done|done]. rewrite Hs2. split; [done|]. by exists tr, ctx, req, route, t. }
  destruct a as [[]|e]; [|by apply reject_connected].
  wp_apply @world_op_ok. intros ok s4 H4. pose proof (connected_nil _ _ H4 Hc3) as Hc4.
  wp_apply @log_ok. intros _ s5 H5.
  assert (h_steps s4 = h_steps s2 ++ [HActivate k (Ok tt)]) as Hs4.
  { destruct H3 as [_ H3], H4 as [_ H4]. by rewrite H4, H3, app_nil_r. }
  assert (connected s5) as Hc5.
  { eapply connected_step; [done| |done|done]. rewrite Hs4. by exists (h_steps s2), k. }
  apply wp_when; intros ->; [|done].
  wp_apply @bump_ok. intros _ s6 H6. wp_apply @bump_ok. intros _ s7 H7.
  pose proof (logged_trans _ _ _ _ _ H5 (logged_trans _ _ _ _ _ H6 H7)) as H57.
  wp_apply reading_ok.
  - split_and!; [eapply connected_nil; [exact H7|by eapply connected_nil]| |];
      destruct H57 as [_ ->]; rewrite Hs4, Hs2; apply elem_of_app; [right; by left|left; apply elem_of_app; by left].
  - intros more s8 Hr8. eapply wp_mono; [apply bump_ok|]. intros u s9 H9. by eapply connected_nil, Hr8.
Qed.

Lemma connect_ok n c k s tr :
  ExpiresAt c = auth → connected s → h_steps s = tr ++ [HRegister id (Ok k)] → Forall (λ e, calm e = true) tr →
  wp (connect env h n protocol c jwt id k) (λ _ s', connected s') s.
Proof.
  intros Hauth Hc Hs Htr. unfold connect. wp_apply @rpc_ok. intros ctx s1 (t&H1&Hctx&_).
  assert (connected s1) as Hc1 by (eapply connected_calm; [done|by repeat constructor|done]).
  wp_steps. rewrite (con_comet _ Hc1). wp_apply @world_op_ok. intros reply s2 H2.
  pose proof (connected_nil _ _ H2 Hc1) as Hc2. wp_apply @log_ok. intros _ s3 H3.
  assert (h_steps s2 = tr ++ [HRegister id (Ok k); HNow t]) as Hs2.
  { destruct H1 as [_ H1], H2 as [_ H2]. by rewrite H2, H1, Hs, app_nil_r, <- app_assoc. }
  assert (connected s3) as Hc3.
  { eapply connected_step; [done| |done|done]. rewrite Hs2. split_and!; [done|done|]. by exists tr, k, t. }
  assert (∀ s', connected s' → wp (bump_counter NUncertain 1;; reject 503) (λ _ s', connected s') s') as Huncertain.
  { intros s' Hc'. wp_apply @bump_ok. intros _ s'' Hl. apply reject_connected. by eapply connected_nil. }
  destruct reply as [[route|]|e]; [|by apply Huncertain..].
  wp_apply @routeDeadline_ok. intros safe s4 (tr4&H4&Hcalm&Hsafe).
  pose proof (connected_calm _ _ _ H4 Hcalm Hc3) as Hc4.
  destruct safe as [safe|]; [|by apply reject_connected].
  destruct (Hsafe _ eq_refl) as (t4&->&_&Hroute&_). rewrite Hauth in Hroute.
  wp_apply @world_op_ok. intros over s5 H5. pose proof (connected_nil _ _ H5 Hc4) as Hc5.
  destruct over; [by apply reject_connected|].
  eapply (attach_ok n k s5 ctx _ route t4 (h_steps s2)); [done| | |done].
  - destruct H3 as [_ H3], H4 as [_ H4], H5 as [_ ->]. rewrite app_nil_r, H4, H3, Hs2, !elem_of_app. set_solver.
  - destruct H3 as [_ H3], H4 as [_ H4], H5 as [_ ->]. rewrite app_nil_r, H4, H3, <- app_assoc. done.
Qed.

Lemma serve_ok n c s :
  ExpiresAt c = auth → hub_identity (h_hub s) = comet → Forall (λ e, calm e = true) (h_steps s) →
  wp (serve env h n protocol c jwt id) (λ _ s', connected s') s.
Proof.
  intros Hauth Hi Hcalm. assert (connected s) as Hc.
  { split; [done|by apply calm_trace_allowed|]. eapply Forall_impl; [exact Hcalm|]. by intros []. }
  unfold serve. wp_apply @world_op_ok. intros f s1 H1. pose proof (connected_nil _ _ H1 Hc) as Hc1.
  wp_apply @on_hub_ok; [done|intros hb; apply register_call_advances|]. intros k s2 H2.
  pose proof (connected_nil _ _ H2 Hc1) as Hc2. wp_apply @log_ok. intros _ s3 H3.
  assert (h_steps s2 = h_steps s) as Hs2.
  { destruct H1 as [_ H1], H2 as [_ ->]. by rewrite H1, !app_nil_r. }
  assert (connected s3) as Hc3.
  { eapply connected_step; [done| |done|done]. by rewrite Hs2. }
  destruct k as [k|e]; [|by apply reject_connected].
  eapply connect_ok; [done|done| |exact Hcalm]. destruct H3 as [_ ->]. by rewrite Hs2.
Qed.

(** The cleanup ends the trace. *)
Lemma cleanup_ok s :
  connected s →
  wp (cleanup env h id) (λ _ s', trace_allowed (config h) comet protocol jwt auth id (h_steps s')
    ∧ ∃ pre t ctx, h_steps s' = pre ++ [HUnregister id; HNow t; HDisconnect ctx (MkConnectionRequest (Some id) "")]) s.
Proof.
  intros Hc. unfold cleanup. wp_apply @world_op_ok. intros f s1 H1. pose proof (connected_nil _ _ H1 Hc) as Hc1.
  wp_apply @on_hub_ok; [done|intros hb; apply Unregister_advances|]. intros _ s2 H2.
  pose proof (connected_nil _ _ H2 Hc1) as [_ Ht2 Ho2]. wp_apply @log_ok. intros _ s3 [_ H3].
  wp_apply @rpc_ok. intros ctx s4 (t&[_ H4]&Hctx&_). wp_apply @world_op_ok. intros _ s5 [_ H5].
  eapply wp_mono; [apply log_ok|]. intros u s6 [_ H6]. rewrite app_nil_r in H5.
  rewrite H6, H5, H4, H3. split.
  - apply trace_allowed_snoc; [apply trace_allowed_snoc; [by apply trace_allowed_snoc|done]|].
    split_and!; [done|done|]. exists (h_steps s2), t. by rewrite <- app_assoc.
  - exists (h_steps s2), t, ctx. by rewrite <- !app_assoc.
Qed.
End Connection.

Section Claims.
Context `{External} {W : Type} (env : handler_env W) (h : publicHandler).
Hypothesis others_ok : ∀ w hb, rtc step hb (he_others env w hb).1.

Lemma rejected_calm c (s s0 : handler_state W) tr :
  logged tr s0 s → Forall (λ e, calm e = true) tr →
  wp (reject c) (λ _ s', ∃ tr', logged tr' s0 s' ∧ Forall (λ e, calm e = true) tr') s.
Proof.
  intros Hl Hc. eapply wp_mono; [apply rejection_ok|]. intros u s' Hl'. eexists. split; [exact (logged_trans _ _ _ _ _ Hl Hl')|].
  apply Forall_app. split; [done|by repeat constructor].
Qed.
Definition admitted (r : http_request) (a : option (Protocol * claims * string)) : Prop :=
  ∀ protocol c raw, a = Some (protocol, c, raw) →
    header r "Origin" ∈ origins h ∧ token_valid env h raw c ∧ CometValidation.validID (UserUUID c) "U" = true.
Lemma admit_ok r s :
  wp (admission env h r) (λ a s', (∃ tr, logged tr s s' ∧ Forall (λ e, calm e = true) tr) ∧ admitted r a) s.
Proof.
  assert (∀ c s1 tr, logged tr s s1 → Forall (λ e, calm e = true) tr →
    wp (reject c;; mret None) (λ a s', (∃ tr, logged tr s s' ∧ Forall (λ e, calm e = true) tr) ∧ admitted r a) s1) as Hreject.
  { intros c s1 tr Hl Hc. wp_apply rejected_calm; [done..|]. intros _ s2 Hs2. wp_steps. by split. }
  pose proof (logged_nil s) as H0. unfold admission.
  destruct (bool_decide _); [eapply Hreject; [done|constructor]|].
  destruct (negb _); [eapply Hreject; [done|constructor]|].
  destruct (protocol_of _) as [protocol|]; [|eapply Hreject; [done|constructor]].
  destruct (bool_decide (header r "Origin" ∈ origins h)) eqn:Ho; cbn [negb]; [|eapply Hreject; [done|constructor]].
  apply bool_decide_eq_true in Ho. set (raw := if bool_decide (query r "token" = "") then _ else _).
  wp_apply parse_token_ok. intros c s1 [H1 Hjwt]. destruct c as [c|]; [|eapply Hreject; [done|constructor]].
  destruct (CometValidation.validID (UserUUID c) "U") eqn:Hu; cbn [negb]; [|eapply Hreject; [done|constructor]].
  wp_apply @clock_ok. intros t s2 H2. pose proof (logged_trans _ _ _ _ _ H1 H2) as H12.
  assert (Forall (λ e, calm e = true) ([] ++ [HNow t])) as Hc by (by repeat constructor).
  destruct (negb _); [by eapply Hreject|].
  wp_apply @handler_ready_ok; [done|]. intros ready s3 H3. pose proof (logged_trans _ _ _ _ _ H12 H3) as H13.
  assert (Forall (λ e, calm e = true) (([] ++ [HNow t]) ++ [])) as Hc' by (by repeat constructor).
  destruct ready; cbn [negb]; [|by eapply Hreject]. wp_steps. split; [by eexists|].
  intros ??? [= <- <- <-]. by split_and!; [|apply Hjwt|].
Qed.

(** The steps of a request: a rejection, or one connection from its handshake to its end. *)
Definition fenced (r : http_request) (comet : pb.CometIdentity) (tr : list handler_step) : Prop :=
  Forall (λ e, calm e = true) tr
  ∨ ∃ protocol c jwt id, header r "Origin" ∈ origins h ∧ token_valid env h jwt c
    ∧ pb.UserId id = UserUUID c ∧ CometValidation.validID (pb.UserId id) "U" = true
    ∧ pb.InstanceId id = pb.CometInstanceId comet
    ∧ trace_allowed (config h) comet protocol jwt (ExpiresAt c) id tr
    ∧ ∃ pre t ctx, tr = pre ++ [HUnregister id; HNow t; HDisconnect ctx (MkConnectionRequest (Some id) "")].

(** C33: nobody gets a socket without a route of their own, and nothing is left behind.
    However the hub's other users interleave and whatever Logic answers, the steps of
    [socket] are either a rejection, or those of one connection of the user whom the JWT
    names, from an allowed origin: it is registered in the hub first, Logic is asked for its
    route at most once, it is activated and upgraded only on an answer for exactly that
    connection which lasts five more seconds, and every submission carries that connection,
    asks what the text frame just read asks, and passes the checks of Logic.  A client of
    the second protocol gets at most one answer frame per frame.  The end is always the removal of
    that very connection from the hub and from Logic. *)
Theorem socket_fence n r s :
  (∀ w, LogicService.validUUID (he_uuid env w).1 = true ∧ LogicService.validRequestID (he_uuid env w).1 = true) →
  h_steps s = [] →
  fenced r (hub_identity (h_hub s)) (h_steps (socket env h n r s).2).
Proof.
  intros Huuid Hs.
  change (wp (socket env h n r) (λ _ s', fenced r (hub_identity (h_hub s)) (h_steps s')) s).
  unfold socket. wp_apply admit_ok. intros a s1 [(tr1&[Hi1 H1]&Hc1) Ha]. rewrite Hs in H1. cbn in H1.
  destruct a as [[[protocol c] jwt]|]; [|wp_steps; left; by rewrite H1].
  destruct (Ha _ _ _ eq_refl) as (Horigin&Hjwt&Hvalid).
  wp_apply @world_op_ok. intros [token|] s2 [Hi2 H2]; rewrite app_nil_r in H2.
  - wp_apply @world_op_ok. intros connection s3 [Hi3 H3]; rewrite app_nil_r in H3. wp_steps.
    match goal with |- context [serve env h n protocol c jwt ?i] => set (id := i) end.
    wp_apply (serve_ok env h others_ok Huuid (hub_identity (h_hub s)) protocol jwt (ExpiresAt c) id); [done|congruence| |].
    { by rewrite H3, H2, H1. }
    intros _ s4 Hc4. eapply wp_mono; [by apply (cleanup_ok env h others_ok)|]. intros u s5 [Ht5 Hend]. right.
    exists protocol, c, jwt, id. split_and!; try done. cbn. congruence.
  - eapply wp_mono; [apply rejection_ok|]. intros u s3 [_ H3]. left. rewrite H3, H2, H1. apply Forall_app.
    split; [done|by repeat constructor].
Qed.
End Claims.

(** ** Heartbeats *)

Section Heartbeat.
Context `{External} {W : Type} (env : handler_env W) (h : publicHandler).
Hypothesis others_ok : ∀ w hb, rtc step hb (he_others env w hb).1.
Hypothesis clock_after_zero : ∀ w, zero_ns ≤ (he_now env w).1.
Context (k : nat) (id : pb.ConnectionIdentity) (auth safe0 : Z).

Definition beat_route (st : handler_step) : option pb.RouteLease :=
  match st with HHeartbeat _ _ (Ok (Some (Some r))) => Some r | _ => None end.
(** The instant until which a route is safe: five seconds before its lease, its
    authorisation or the token of the user ends. *)
Definition safe_route (r : pb.RouteLease) : Z :=
  match pb.AuthExpiresAt r, pb.RouteDeadline r with
  | Some a, Some d => Z.min (Z.min (as_ns d) (as_ns a)) auth - 5 * second
  | _, _ => safe0
  end.
(** The safe deadline after the steps [pre]: that of the last route Logic answered. *)
Definition current_safe (pre : list handler_step) : Z :=
  match last (omap beat_route pre) with Some r => safe_route r | None => safe0 end.
Definition ping : socketControl := MkSocketControl None PingMessage "" false.
(** What a heartbeat may be after the steps [pre]: a ping was queued for the client just
    before, the route is still safe, and the call must be answered while it is. *)
Definition beat_allowed (pre : list handler_step) (st : handler_step) : Prop :=
  match st with
  | HNow _ => True
  | HControl k' ctl _ => k' = k ∧ ctl = ping
  | HHeartbeat ctx req _ =>
    req = MkConnectionRequest (Some id) "" ∧ authorization ctx = ["Bearer " +:+ hc_token (config h)]
    ∧ ∃ pre' t1 t2, pre = pre' ++ [HNow t1; HControl k ping true; HNow t2] ∧ t1 < current_safe pre
      ∧ rpc_deadline ctx = Z.min (t2 + hc_timeout (config h)) (current_safe pre)
  | _ => False
  end.
Definition beats_allowed (tr : list handler_step) : Prop :=
  ∀ pre st post, tr = pre ++ st :: post → beat_allowed pre st.
Lemma beats_snoc tr st : beats_allowed tr → beat_allowed tr st → beats_allowed (tr ++ [st]).
Proof.
  intros Htr Hst pre st' post E. destruct post as [|e post _] using rev_ind.
  - apply app_inj_tail in E as [-> ->]. done.
  - rewrite app_comm_cons, app_assoc in E. apply app_inj_tail in E as [-> _]. by eapply Htr.
Qed.
Lemma current_safe_snoc tr st : beat_route st = None → current_safe (tr ++ [st]) = current_safe tr.
Proof. intros Hst. unfold current_safe. rewrite omap_app. cbn. by rewrite Hst, app_nil_r. Qed.

Lemma clock_bounded s : wp (clock env) (λ t s', zero_ns ≤ t ∧ logged [HNow t] s s') s.
Proof.
  unfold clock. wp_steps. unfold wp at 1, world_op. pose proof (clock_after_zero (h_world s)) as Ht.
  destruct (he_now env (h_world s)) as [t w]. cbn [fst snd] in *. wp_apply @log_ok. intros _ s2 [Hi Hs]. by wp_steps.
Qed.
(** The deadline that is answered, after the last reading of the clock, if any. *)
Lemma routeDeadline_exact route s :
  wp (routeDeadline env route id auth) (λ r s', (logged [] s s' ∨ ∃ t, logged [HNow t] s s')
        ∧ ∀ safe, r = Some safe → ∃ l, route = Some l ∧ safe = safe_route l) s.
Proof.
  assert ((logged [] s s ∨ ∃ t, logged [HNow t] s s) ∧ ∀ safe, @None Z = Some safe → ∃ l, route = Some l ∧ safe = safe_route l)
    as Hnone by (split; [left; apply logged_nil|done]).
  unfold routeDeadline. destruct route as [r|]; [|done].
  destruct (pb.AuthExpiresAt r) as [a|] eqn:Ha; [|done]. destruct (pb.RouteDeadline r) as [d|] eqn:Hd; [|done].
  destruct (_ || _); [done|]. clear Hnone. wp_apply @clock_ok. intros t s1 H1. wp_steps.
  split; [right; by exists t|]. intros safe Hs. exists r. split; [done|]. unfold safe_route. rewrite Ha, Hd.
  destruct (t <? _); [|done]. apply (inj Some) in Hs as <-. unfold instanceSafetyMargin. f_equal.
  destruct (Z.ltb_spec (as_ns a) (as_ns d)); match goal with |- context [auth <? ?x] => destruct (Z.ltb_spec auth x) end; lia.
Qed.

(** Between two turns. *)
Definition beating (safe : Z) (s : handler_state W) : Prop :=
  beats_allowed (h_steps s) ∧ safe = current_safe (h_steps s).
Lemma beating_nil safe s s' : logged [] s s' → beating safe s → beating safe s'.
Proof. intros [_ Hs]. rewrite app_nil_r in Hs. unfold beating. by rewrite Hs. Qed.
Lemma beating_step safe st s s' :
  logged [st] s s' → beat_allowed (h_steps s) st → beat_route st = None → beating safe s → beating safe s'.
Proof.
  intros [_ Hs] Ha Hr [Hb He]. unfold beating. rewrite Hs. split; [by apply beats_snoc|by rewrite current_safe_snoc].
Qed.
(** After a turn: the loop goes on, or it has ended. *)
Definition beaten (r : option Z) (s : handler_state W) : Prop :=
  beats_allowed (h_steps s) ∧ ∀ safe, r = Some safe → beating safe s.
Lemma beaten_stop safe s : beating safe s → beaten None s.
Proof. intros [Hb _]. by split. Qed.

(** The call itself, and what follows it. *)
Lemma beat_call_ok safe t1 tr s :
  beating safe s → h_steps s = tr ++ [HNow t1; HControl k ping true] → t1 < safe → zero_ns ≤ t1 →
  wp (ctx ← rpc env h safe;
      reply ← world_op (he_heartbeat env ctx (MkConnectionRequest (Some id) ""));
      log (HHeartbeat ctx (MkConnectionRequest (Some id) "") reply);;
      match reply with
      | Err e => bump_counter NHeartbeatFailures 1;; mret (if fatal_code (err_code e) then None else Some safe)
      | Ok None => mret None
      | Ok (Some route) => routeDeadline env route id auth
      end) beaten s.
Proof.
  intros Hb Hs Ht Hz. wp_apply @rpc_ok. intros ctx s1 (t2&H1&Hauth&Hdeadline).
  assert (beating safe s1) as Hb1 by (by eapply beating_step).
  assert (h_steps s1 = tr ++ [HNow t1; HControl k ping true; HNow t2]) as Hs1.
  { destruct H1 as [_ ->]. by rewrite Hs, <- app_assoc. }
  wp_apply @world_op_ok. intros reply s2 H2. wp_apply @log_ok. intros _ s3 H3.
  pose proof (beating_nil _ _ _ H2 Hb1) as Hb2. destruct H2 as [_ H2]. rewrite app_nil_r in H2.
  assert (beats_allowed (h_steps s3)) as Ha3.
  { destruct H3 as [_ ->]. destruct Hb2 as [Ha2 He2]. apply beats_snoc; [done|]. split_and!; [done|done|].
    exists tr, t1, t2. rewrite <- He2. split_and!; [congruence|done|]. rewrite Hdeadline.
    destruct (Z.eqb_spec safe zero_ns); [lia|]. cbn [negb andb].
    destruct (Z.ltb_spec safe (t2 + hc_timeout (config h))); lia. }
  destruct reply as [[route|]|e].
  - eapply wp_mono; [apply routeDeadline_exact|]. intros r s4 [Hlog Hr].
    assert (∀ safe', r = Some safe' → current_safe (h_steps s3) = safe') as Hsafe3.
    { intros safe' Hsafe. destruct (Hr safe' Hsafe) as (l&->&->). destruct H3 as [_ ->].
      unfold current_safe. rewrite omap_app. cbn. by rewrite last_snoc. }
    destruct Hlog as [Hlog|[t Hlog]].
    + split; [destruct Hlog as [_ ->]; by rewrite app_nil_r|]. intros safe' Hs'.
      apply (beating_nil _ s3); [done|]. split; [done|]. symmetry. by apply Hsafe3.
    + split; [destruct Hlog as [_ ->]; by apply beats_snoc|]. intros safe' Hs'.
      eapply (beating_step _ (HNow t) s3); [done..|]. split; [done|]. symmetry. by apply Hsafe3.
  - wp_steps. by split.
  - wp_apply @bump_ok. intros _ s4 H4. wp_steps. split; [destruct H4 as [_ ->]; by rewrite app_nil_r|].
    intros safe' Hs'. destruct (fatal_code _); [done|]. apply (inj Some) in Hs' as <-.
    apply (beating_nil _ s3); [done|]. split; [done|]. destruct Hb2 as [_ He2]. destruct H3 as [_ ->].
    by rewrite current_safe_snoc.
Qed.

Lemma heartbeat_turn_ok safe s : beating safe s → wp (heartbeat_turn env h k id auth safe) beaten s.
Proof.
  intros Hb. unfold heartbeat_turn. wp_apply @clock_ok. intros t s1 H1.
  assert (beating safe s1) as Hb1 by (by eapply beating_step).
  destruct (_ <=? 0); [wp_steps; by eapply beaten_stop|].
  wp_apply @world_op_ok. intros fired s2 H2. pose proof (beating_nil _ _ _ H2 Hb1) as Hb2.
  destruct fired; cbn [negb]; [|wp_steps; by eapply beaten_stop].
  wp_apply clock_bounded. intros t1 s3 [Hz H3].
  assert (beating safe s3) as Hb3 by (by eapply beating_step).
  destruct (Z.ltb_spec t1 safe) as [Ht|_]; cbn [negb]; [|wp_steps; by eapply beaten_stop].
  wp_apply @queue_control_ok; [done|]. intros r s4 H4.
  assert (beating safe s4) as Hb4 by (by eapply beating_step).
  destruct r as [[]|e]; [|wp_steps; by eapply beaten_stop].
  apply (beat_call_ok safe t1 (h_steps s2)); [done| |done|done].
  destruct H3 as [_ H3], H4 as [_ ->]. by rewrite H3, <- app_assoc.
Qed.
Lemma heartbeat_ok n safe s : beating safe s → wp (heartbeat env h n k id auth safe) beaten s.
Proof.
  revert safe s. induction n as [|n IH]; intros safe s Hb; cbn [heartbeat].
  - wp_steps. split; [apply Hb|]. intros safe' Hs. by apply (inj Some) in Hs as <-.
  - wp_apply heartbeat_turn_ok; [done|]. intros [safe'|] s1 [Ha Hs]; [apply IH; by apply Hs|by wp_steps].
Qed.
End Heartbeat.

Section HeartbeatClaim.
Context `{External} {W : Type} (env : handler_env W) (h : publicHandler).

(** a heartbeat is never late.  Whatever the clock, the hub, the client and Logic do,
    every heartbeat names the connection, is made after a ping was queued for its client
    and while the route Logic answered last is safe, that is, five seconds before its
    lease, its authorisation and the user's token end, and must be answered while it is;
    and while the loop goes on its deadline is that of the last route. *)
Theorem heartbeat_in_time n k id auth safe s :
  (∀ w hb, rtc step hb (he_others env w hb).1) → (∀ w, zero_ns ≤ (he_now env w).1) → h_steps s = [] →
  let '(r, s') := heartbeat env h n k id auth safe s in
  beats_allowed h k id auth safe (h_steps s')
  ∧ ∀ safe', r = Some safe' → safe' = current_safe auth safe (h_steps s').
Proof.
  intros Hothers Hclock Hs.
  assert (beating h k id auth safe safe s) as Hb.
  { unfold beating. rewrite Hs. split; [by intros [|? ?] ? ?|done]. }
  pose proof (heartbeat_ok env h Hothers Hclock k id auth safe n safe s Hb) as Hok. unfold wp in Hok.
  destruct (heartbeat env h n k id auth safe s) as [r s']. destruct Hok as [Ha Hr]. split; [done|].
  intros safe' Hs'. by apply Hr.
Qed.
End HeartbeatClaim.

(** ** Samples *)

Definition sample_frame : string :=
  "{" +:+ Samples.text "event" "send_message" +:+ "," +:+ Samples.text "client_message_id" connection1
  +:+ "," +:+ Samples.text "receive_id" user2 +:+ "," +:+ Samples.text "receive_type" "user"
  +:+ "," +:+ Samples.text "content" "hi" +:+ "}".
(** The clock advances a second per reading; Logic routes whoever asks; the client sends one
    frame and leaves. *)
Definition sample_handler_env : handler_env (nat * nat) := {|
  he_others w hb := (hb, w);
  he_now w := (Z.of_nat w.1 * second, (S w.1, w.2));
  he_ctx_done w := (false, w);
  he_fate w := (Answered, w);
  he_pick w := (true, w);
  he_ready w := (true, w);
  he_jwt _ _ w := (Some (true, MkClaims user1 (100 * second)), w);
  he_random w := (Some "0123456789abcdef0123456789abcdef"%string, w);
  he_uuid w := (connection1, w);
  he_connect _ r w :=
    (Ok (Some (Some (pb.MkRouteLease
      (Some (pb.MkConnectionIdentity user1 "comet-1" (ConConnectionId r) (ConRouteToken r)))
      (Some (MkTimestamp 100 0)) (Some (MkTimestamp 60 0))))), w);
  he_disconnect _ _ w := w;
  he_heartbeat _ r w :=
    (Ok (Some (Some (pb.MkRouteLease (CnrIdentity r) (Some (MkTimestamp 100 0)) (Some (MkTimestamp 60 0))))), w);
  he_submit _ r w := (Err (StatusError Unavailable []), w);
  he_upgrade w := (true, w);
  he_wait _ w := (true, w);
  he_read w := (if (w.2 =? 0)%nat then Some (TextMessage, sample_frame) else None, (w.1, S w.2))
|}.
Definition sample_handler : publicHandler :=
  MkHandler (MkHandlerConfig "" "comet token" ["http://localhost"%string] false (20 * second) (2 * second) (60 * second))
    ["http://localhost"%string].
Definition sample_header (name : string) : string :=
  if bool_decide (name = "Origin") then "http://localhost"
  else if bool_decide (name = "Sec-WebSocket-Version") then "13"
  else if bool_decide (name = "Sec-WebSocket-Key") then "AAAAAAAAAAAAAAAAAAAAAA==" else "".
Definition sample_query (name : string) : string :=
  if bool_decide (name = "protocol") then "v2" else if bool_decide (name = "token") then "jwt" else "".
Definition sample_upgrade : http_request := MkHttpRequest "GET" sample_header sample_query true.
Definition sample_handler_state : handler_state (nat * nat) := HandlerState (0%nat, 0%nat) empty_hub (λ _, 0) [].

Lemma socket_fence_witness :
  omap (λ st, match st with HSubmit _ r _ => Some (SubContent r) | _ => None end)
    (h_steps (socket (H := Reference.external) sample_handler_env sample_handler 5 sample_upgrade sample_handler_state).2)
    = ["hi"%string]
  ∧ fenced (H := Reference.external) sample_handler_env sample_handler sample_upgrade sample_comet
      (h_steps (socket (H := Reference.external) sample_handler_env sample_handler 5 sample_upgrade sample_handler_state).2).
Proof.
  split; [by vm_compute|].
  refine (socket_fence (H := Reference.external) sample_handler_env sample_handler (λ w hb, rtc_refl _ _) 5 sample_upgrade
    sample_handler_state _ eq_refl). intros w. by vm_compute.
Defined.

Definition sample_identity1 : pb.ConnectionIdentity := sample_identity user1.
Definition beating_handler : handler_state (nat * nat) := HandlerState (0%nat, 0%nat) one_user (λ _, 0) [].
Lemma heartbeat_in_time_witness :
  (heartbeat (H := Reference.external) sample_handler_env sample_handler 2 0 sample_identity1 (100 * second) (30 * second)
     beating_handler).1 = Some (55 * second)
  ∧ 55 * second = current_safe (100 * second) (30 * second) (h_steps (heartbeat (H := Reference.external) sample_handler_env
      sample_handler 2 0 sample_identity1 (100 * second) (30 * second) beating_handler).2).
Proof.
  split; [by vm_compute|].
  assert (∀ w, zero_ns ≤ (he_now sample_handler_env w).1) as Hclock.
  { intros w. cbn. unfold zero_ns, second, millisecond. lia. }
  pose proof (heartbeat_in_time (H := Reference.external) sample_handler_env sample_handler 2 0 sample_identity1 (100 * second)
    (30 * second) beating_handler (λ w hb, rtc_refl _ _) Hclock eq_refl) as Hbeat.
  assert ((heartbeat (H := Reference.external) sample_handler_env sample_handler 2 0 sample_identity1 (100 * second) (30 * second)
     beating_handler).1 = Some (55 * second)) as Hr by (by vm_compute).
  destruct (heartbeat _ _ 2 0 _ _ _ _) as [r s']. cbn [fst snd] in *. destruct Hbeat as [_ Hbeat]. by apply Hbeat.
Defined.
