(* ===== verification/CometWriter.v ===== *)
(** * The writer of a connection: [Connection.WriteTo] in [internal/comet/websocket.go]

    The writer takes what waits for a connection and writes it to the socket.  The context,
    the choices of [select] and the socket are the operations of an environment over a world
    [W]; other goroutines move the hub between two looks of the writer ([we_others]). *)
From S2P Require Import Prelude GoStd GoTime External Dto CometValidation CometFrames CometHub CometHandler.
Local Open Scope Z_scope.

Inductive write_error : Type := WriterInvalid | ErrWriterAttached | WriterContext | WriterSocket.
(** The value of a frame for [WriteJSON], or a control frame. *)
Inductive wire_frame : Type :=
| WireMessage (m : im.Message) | WireLegacy (m : wschat.Message) | WireResult (f : option im.SendResultFrame)
| WireControl (kind : Z) (data : string).
(** What the writer takes from a connection. *)
Inductive item : Type := ItemControl (ctl : socketControl) | ItemMessage (m : pb.MessageView).
Inductive selected : Type := SelContext | SelDone | SelControl | SelMessage.
Inductive write_result : Type := Written | WriteTimeout | WriteFailed.

Record writer_env (W : Type) : Type := WriterEnv {
  we_others : W → Hub → Hub * W;
  we_ctx_done : W → bool * W;
  we_select : W → selected * W;
  we_deadline : W → bool * W;
  we_write : wire_frame → W → write_result * W;
  we_fate : W → fate * W
}.
Global Arguments we_others {W}. Global Arguments we_ctx_done {W}. Global Arguments we_select {W}.
Global Arguments we_deadline {W}. Global Arguments we_write {W}. Global Arguments we_fate {W}.

(** What was taken so far, and the frames given to the socket with their outcome. *)
Record writer_state (W : Type) : Type := WriterState {
  w_world : W; w_hub : Hub; taken : list item; frames : list (wire_frame * write_result)
}.
Global Arguments WriterState {W}. Global Arguments w_world {W}. Global Arguments w_hub {W}.
Global Arguments taken {W}. Global Arguments frames {W}.

(** The frame of an item; a control without a kind is for the second protocol only. *)
Definition frame_of (protocol : Protocol) (i : item) : option wire_frame :=
  match i with
  | ItemControl ctl =>
    if negb (kind ctl =? 0) then Some (WireControl (kind ctl) (data ctl))
    else match protocol with ProtocolV2 => Some (WireResult (frame ctl)) | ProtocolLegacy => None end
  | ItemMessage m =>
    Some (match protocol with
          | ProtocolV2 => WireMessage (publicMessage m)
          | ProtocolLegacy => WireLegacy (legacyMessage m)
          end)
  end.
(** Whether the writer ends after the item. *)
Definition last_item (i : item) : bool := match i with ItemControl ctl => closeAfter ctl | ItemMessage _ => false end.

Section Writer.
Context `{External} {W : Type} (env : writer_env W) (k : nat).
#[local] Abbreviation M := (ST (writer_state W)).

Definition sock {A} (f : W → A * W) : M A := λ s,
  let '(a, w) := f (w_world s) in (a, WriterState w (w_hub s) (taken s) (frames s)).
Definition at_hub {A} (f : Hub → A * Hub) : M A := λ s,
  let '(hb, w) := we_others env (w_world s) (w_hub s) in
  let '(a, hb) := f hb in (a, WriterState w hb (taken s) (frames s)).
(** [<-c.done] *)
Definition is_done : M bool :=
  at_hub (λ hb, (match heap hb !! k with Some c => conn_done c | None => true end, hb)).
(** The next item of a queue, if there is one. *)
Definition pop (sel : selected) (hb : Hub) : option item * Hub :=
  match heap hb !! k with
  | None => (None, hb)
  | Some c =>
    match sel with
    | SelControl =>
      match controls c with
      | ctl :: q => (Some (ItemControl ctl), update_conn (set_controls q) k hb)
      | [] => (None, hb)
      end
    | SelMessage =>
      match outbound c with
      | m :: q => (Some (ItemMessage m), update_conn (set_outbound q) k hb)
      | [] => (None, hb)
      end
    | _ => (None, hb)
    end
  end.
Definition take_item (sel : selected) : M (option item) :=
  (i ← at_hub (pop sel);
   match i with
   | Some i => modify (λ s, WriterState (w_world s) (w_hub s) (taken s ++ [i]) (frames s));; mret (Some i)
   | None => mret None
   end).
Definition send_frame (f : wire_frame) : M write_result :=
  (r ← sock (we_write env f);
   modify (λ s, WriterState (w_world s) (w_hub s) (taken s) (frames s ++ [(f, r)]));;
   mret r).
Definition observeWriteFailure (r : write_result) : M unit :=
  match r with WriteTimeout => at_hub (λ hb, (tt, markSlow k hb)) | _ => mret tt end.

(** The answer of a turn: [None] goes on, [Some] returns that error, or nil. *)
Definition failed_write (i : item) : M (option (option write_error)) :=
  match i with
  | ItemControl _ => mret (Some (Some WriterSocket))
  | ItemMessage _ =>
    over ← sock (we_ctx_done env);
    if over : bool then mret (Some (Some WriterContext))
    else gone ← is_done; mret (Some (if gone : bool then None else Some WriterSocket))
  end.
Definition write_item (protocol : Protocol) (i : item) : M (option (option write_error)) :=
  (over ← sock (we_ctx_done env);
   if over : bool then mret (Some (Some WriterContext))
   else
     gone ← is_done;
     if gone : bool then mret (Some None)
     else
       ok ← sock (we_deadline env);
       if negb ok then mret (Some (Some WriterSocket))
       else
         match frame_of protocol i with
         | None => mret (if last_item i then Some None else None)
         | Some f =>
           r ← send_frame f;
           match r with
           | Written => mret (if last_item i then Some None else None)
           | _ => observeWriteFailure r;; failed_write i
           end
         end).
Definition write_turn (protocol : Protocol) : M (option (option write_error)) :=
  (over ← sock (we_ctx_done env);
   if over : bool then mret (Some (Some WriterContext))
   else
     gone ← is_done;
     if gone : bool then mret (Some None)
     else
       sel ← sock (we_select env);
       match sel with
       | SelContext => mret (Some (Some WriterContext))
       | SelDone => mret (Some None)
       | _ =>
         i ← take_item sel;
         match i with None => mret None | Some i => write_item protocol i end
       end).
(** [n] turns at most. *)
Fixpoint write_loop (n : nat) (protocol : Protocol) : M (option (option write_error)) :=
  match n with
  | O => mret None
  | S n' =>
    r ← write_turn protocol;
    match r with None => write_loop n' protocol | Some e => mret (Some e) end
  end.

(** [protocol] is [None] when it is neither of the two; [given] tells whether the socket is
    not nil. *)
Definition WriteTo (n : nat) (given : bool) (protocol : option Protocol) : M (option (option write_error)) :=
  match protocol with
  | Some protocol =>
    if negb given then mret (Some (Some WriterInvalid))
    else
      attached ← at_hub (λ hb, match heap hb !! k with
                               | Some c => (writer c, if writer c then hb else update_conn set_writer k hb)
                               | None => (true, hb)
                               end);
      if attached : bool then mret (Some (Some ErrWriterAttached))
      else
        r ← write_loop n protocol;
        match r with
        | None => mret None
        | Some e =>
          f ← sock (we_fate env);
          at_hub (λ hb, (tt, (Unregister f (identity <$> heap hb !! k) hb).2));;
          mret (Some e)
        end
  | None => mret (Some (Some WriterInvalid))
  end.
End Writer.
