(* ===== verification/CometWriterProofs.v ===== *)
(** * The writer of a connection: properties *)
From S2P Require Import Prelude GoStd GoTime External Dto Samples CometValidation CometFrames CometHub CometHubProofs CometHandler CometWriter.
Local Open Scope Z_scope.

(** ** The queues of a connection *)

Definition messages_of (l : list item) : list pb.MessageView :=
  omap (λ i, match i with ItemMessage m => Some m | ItemControl _ => None end) l.
Definition controls_of (l : list item) : list socketControl :=
  omap (λ i, match i with ItemControl c => Some c | ItemMessage _ => None end) l.

Lemma messages_of_app l1 l2 : messages_of (l1 ++ l2) = messages_of l1 ++ messages_of l2.
Proof. apply omap_app. Qed.
Lemma controls_of_app l1 l2 : controls_of (l1 ++ l2) = controls_of l1 ++ controls_of l2.
Proof. apply omap_app. Qed.

(** Other goroutines may only append to the queues of connection [k]. *)
Definition grows (k : nat) (h h' : Hub) : Prop :=
  ∀ c, heap h !! k = Some c →
  ∃ c' q1 q2, heap h' !! k = Some c' ∧ outbound c' = outbound c ++ q1 ∧ controls c' = controls c ++ q2.
Global Instance grows_preorder k : PreOrder (grows k).
Proof.
  split.
  - intros h c Hc. exists c, [], []. by rewrite !app_nil_r.
  - intros h1 h2 h3 H12 H23 c Hc. destruct (H12 c Hc) as (c2&a1&a2&Hc2&Ha1&Ha2).
    destruct (H23 c2 Hc2) as (c3&b1&b2&Hc3&Hb1&Hb2). exists c3, (a1 ++ b1), (a2 ++ b2).
    split_and!; [done|rewrite Hb1, Ha1|rewrite Hb2, Ha2]; by rewrite app_assoc.
Qed.
Lemma grows_same k h h' : heap h' = heap h → grows k h h'.
Proof. intros Hh c Hc. exists c, [], []. by rewrite Hh, !app_nil_r. Qed.
(** Changing a connection, but not its queues. *)
Lemma grows_update f j k h :
  (∀ c, outbound (f c) = outbound c ∧ controls (f c) = controls c) → grows k h (update_conn f j h).
Proof.
  intros Hf c Hc. unfold update_conn. cbn. destruct (decide (j = k)) as [->|Hjk].
  - rewrite list_lookup_alter_eq, Hc. exists (f c), [], []. destruct (Hf c) as [-> ->]. by rewrite !app_nil_r.
  - rewrite list_lookup_alter_ne by done. exists c, [], []. by rewrite !app_nil_r.
Qed.
Lemma grows_close j k h : grows k h (close_conn j h).
Proof.
  unfold close_conn. destruct (heap h !! j) as [c|]; [|done]. destruct (conn_done c); [by apply grows_same|by apply grows_update].
Qed.
Lemma grows_slow j k h : grows k h (markSlow j h).
Proof.
  unfold markSlow. destruct (heap h !! j) as [c|]; [|done]. destruct (slowClosed c); [done|].
  transitivity (update_conn set_slow j h); [by apply grows_update|by apply grows_same].
Qed.
Lemma grows_Unregister `{External} f id k h : grows k h (Unregister f id h).2.
Proof.
  assert (∀ c, grows k h (unregister_op c h).2) as Hop.
  { intros c. unfold unregister_op. destruct (clients h !! _) as [j|]; [|done]. destruct (heap h !! j) as [d|]; [|done].
    case_match; [|done]. cbn [snd]. etransitivity; [|apply grows_close]. by apply grows_same. }
  unfold Unregister. destruct id as [c|]; [|done]. case_match; [|done]. specialize (Hop c).
  unfold call. destruct f; cbn; [done|by destruct (unregister_op c h)..].
Qed.

Section Writer.
Context `{External} {W : Type} (env : writer_env W) (k : nat) (protocol : Protocol).
Hypothesis others_ok : ∀ w hb, grows k hb (we_others env w hb).1.
Context (out0 : list pb.MessageView) (ctl0 : list socketControl).

(** Whatever was enqueued is what was taken followed by what waits. *)
Definition in_order (s : writer_state W) : Prop :=
  ∃ c q1 q2, heap (w_hub s) !! k = Some c
    ∧ out0 ++ q1 = messages_of (taken s) ++ outbound c ∧ ctl0 ++ q2 = controls_of (taken s) ++ controls c.
(** Every item taken was written. *)
Definition flushed (s : writer_state W) : Prop :=
  (frames s).*1 = omap (frame_of protocol) (taken s) ∧ Forall (λ f, f.2 = Written) (frames s).
(** At most the last item taken was not given to the socket, and at most the last frame
    given to it was not written. *)
Definition faithful (s : writer_state W) : Prop :=
  ∃ done rest, taken s = done ++ rest ∧ (length rest ≤ 1)%nat
    ∧ (frames s).*1 = omap (frame_of protocol) done ∧ Forall (λ f, f.2 = Written) (removelast (frames s)).

Lemma Forall_removelast {A} (P : A → Prop) l : Forall P l → Forall P (removelast l).
Proof. induction 1 as [|x l Hx Hl IH]; [done|]. cbn. destruct l; [constructor|by constructor]. Qed.
Lemma flushed_faithful s : flushed s → faithful s.
Proof.
  intros [Hf Hw]. exists (taken s), []. rewrite app_nil_r. split_and!; [done|cbn; lia|done|by apply Forall_removelast].
Qed.

Lemma in_order_grows s hb w :
  in_order s → grows k (w_hub s) hb → in_order (WriterState w hb (taken s) (frames s)).
Proof.
  intros (c&q1&q2&Hc&H1&H2) Hg. destruct (Hg c Hc) as (c'&p1&p2&Hc'&Ho&Hct).
  exists c', (q1 ++ p1), (q2 ++ p2). cbn. split_and!; [done| |].
  - rewrite Ho, !app_assoc. by rewrite H1.
  - rewrite Hct, !app_assoc. by rewrite H2.
Qed.

(** The invariant of every command: [P] speaks of what was taken and of the frames only. *)
Definition same_io (s s' : writer_state W) : Prop := taken s' = taken s ∧ frames s' = frames s.
Lemma sock_ok {A} (f : W → A * W) s : in_order s → wp (sock f) (λ _ s', in_order s' ∧ same_io s s') s.
Proof. intros Hs. unfold wp, sock. by destruct (f (w_world s)). Qed.
Lemma at_hub_ok {A} (f : Hub → A * Hub) s :
  (∀ hb, grows k hb (f hb).2) → in_order s → wp (at_hub env f) (λ _ s', in_order s' ∧ same_io s s') s.
Proof.
  intros Hf Hs. unfold wp, at_hub. pose proof (others_ok (w_world s) (w_hub s)) as Ho.
  destruct (we_others env (w_world s) (w_hub s)) as [hb w]. specialize (Hf hb). destruct (f hb) as [a hb'].
  split; [|done]. cbn in *. apply in_order_grows; [done|by etransitivity].
Qed.
Lemma is_done_ok s : in_order s → wp (is_done env k) (λ _ s', in_order s' ∧ same_io s s') s.
Proof. apply at_hub_ok. by intros hb. Qed.

Lemma popped f c hb : heap hb !! k = Some c → heap (update_conn f k hb) !! k = Some (f c).
Proof. intros Hc. unfold update_conn. cbn. by rewrite list_lookup_alter_eq, Hc. Qed.
Lemma in_order_control w hb tk fr c ctl q :
  heap hb !! k = Some c → controls c = ctl :: q → in_order (WriterState w hb tk fr) →
  in_order (WriterState w (update_conn (set_controls q) k hb) (tk ++ [ItemControl ctl]) fr).
Proof.
  intros Hc Hq (c'&q1&q2&Hc'&H1&H2). cbn [w_hub taken] in *. rewrite Hc in Hc'. simplify_eq.
  exists (set_controls q c'), q1, q2. cbn [w_hub taken]. split; [by apply popped|].
  rewrite messages_of_app, controls_of_app, H1, H2, Hq. cbn. by rewrite app_nil_r, <- app_assoc.
Qed.
Lemma in_order_message w hb tk fr c m q :
  heap hb !! k = Some c → outbound c = m :: q → in_order (WriterState w hb tk fr) →
  in_order (WriterState w (update_conn (set_outbound q) k hb) (tk ++ [ItemMessage m]) fr).
Proof.
  intros Hc Hq (c'&q1&q2&Hc'&H1&H2). cbn [w_hub taken] in *. rewrite Hc in Hc'. simplify_eq.
  exists (set_outbound q c'), q1, q2. cbn [w_hub taken]. split; [by apply popped|].
  rewrite messages_of_app, controls_of_app, H1, H2, Hq. cbn. by rewrite app_nil_r, <- app_assoc.
Qed.
Lemma take_item_ok sel s :
  in_order s →
  wp (take_item env k sel) (λ r s', in_order s' ∧ frames s' = frames s
        ∧ taken s' = taken s ++ match r with Some i => [i] | None => [] end) s.
Proof.
  intros Hs. unfold take_item. wp_steps. unfold wp at 1, at_hub.
  pose proof (others_ok (w_world s) (w_hub s)) as Ho.
  destruct (we_others env (w_world s) (w_hub s)) as [hb w].
  pose proof (in_order_grows s hb w Hs Ho) as Hs'. destruct (id Hs') as (c&_&_&Hc&_). cbn [w_hub] in Hc.
  unfold pop. rewrite Hc.
  destruct sel; [by apply wp_ret; rewrite app_nil_r..| |].
  - destruct (controls c) as [|ctl q] eqn:Hq; [by apply wp_ret; rewrite app_nil_r|].
    apply wp_bind, wp_modify, wp_ret. split; [|done]. by eapply in_order_control.
  - destruct (outbound c) as [|m q] eqn:Hq; [by apply wp_ret; rewrite app_nil_r|].
    apply wp_bind, wp_modify, wp_ret. split; [|done]. by eapply in_order_message.
Qed.

(** ** The loop *)

(** After a turn: everything was flushed, or it was the last turn. *)
Definition written_so_far (r : option (option write_error)) (s : writer_state W) : Prop :=
  in_order s ∧ match r with None => flushed s | Some _ => faithful s end.
Lemma stop_turn s s' e :
  in_order s' → same_io s s' → flushed s → written_so_far (Some e) s'.
Proof.
  intros Hs [Ht Hf] [Hfr Hw]. split; [done|]. apply flushed_faithful. split; by rewrite ?Ht, Hf.
Qed.
(** The item just taken was not given to the socket. *)
Definition unsent (i : item) (s : writer_state W) : Prop :=
  ∃ tk, taken s = tk ++ [i] ∧ (frames s).*1 = omap (frame_of protocol) tk ∧ Forall (λ f, f.2 = Written) (frames s).
Lemma unsent_same i s s' : same_io s s' → unsent i s → unsent i s'.
Proof. intros [Ht Hf] (tk&?&?&?). exists tk. by rewrite Ht, Hf. Qed.
Lemma unsent_faithful i s : unsent i s → faithful s.
Proof. intros (tk&Ht&Hf&Hw). exists tk, [i]. split_and!; [done|cbn; lia|done|by apply Forall_removelast]. Qed.

Lemma send_frame_ok i f s :
  in_order s → unsent i s → frame_of protocol i = Some f →
  wp (send_frame env f) (λ r s', in_order s' ∧ faithful s' ∧ (r = Written → flushed s')) s.
Proof.
  intros Hs (tk&Ht&Hfr&Hw) Hf. unfold send_frame. wp_apply sock_ok; [done|]. intros r s1 [Hs1 [Ht1 Hfr1]].
  wp_steps. split; [done|]. unfold faithful, flushed. cbn [taken frames]. rewrite Ht1, Hfr1, Ht. split.
  - exists (tk ++ [i]), []. rewrite app_nil_r, fmap_app, omap_app, Hfr. cbn. rewrite Hf.
    split_and!; [done|lia|done|]. by rewrite removelast_last.
  - intros ->. rewrite fmap_app, omap_app, Hfr. cbn. rewrite Hf. split; [done|]. apply Forall_app. split; [done|by constructor].
Qed.

Lemma observe_ok r s : in_order s → wp (observeWriteFailure env k r) (λ _ s', in_order s' ∧ same_io s s') s.
Proof.
  intros Hs. unfold observeWriteFailure. destruct r; [by wp_steps| |by wp_steps].
  apply at_hub_ok; [|done]. intros hb. apply grows_slow.
Qed.
Lemma same_io_trans s1 s2 s3 : same_io s1 s2 → same_io s2 s3 → same_io s1 s3.
Proof. intros [] []. split; congruence. Qed.
Lemma faithful_same s s' : same_io s s' → faithful s → faithful s'.
Proof. intros [Ht Hf] (d&r&?&?&?&?). exists d, r. by rewrite Ht, Hf. Qed.

Lemma failed_write_ok i s :
  in_order s → faithful s → wp (failed_write env k i) written_so_far s.
Proof.
  intros Hs Hf. unfold failed_write. destruct i; [by wp_steps|].
  wp_apply sock_ok; [done|]. intros over s1 [Hs1 H1]. pose proof (faithful_same _ _ H1 Hf) as Hf1.
  destruct over; [by wp_steps|]. wp_apply is_done_ok; [done|]. intros gone s2 [Hs2 H2]. wp_steps.
  split; [done|]. by eapply faithful_same.
Qed.

Lemma write_item_ok i s : in_order s → unsent i s → wp (write_item env k protocol i) written_so_far s.
Proof.
  intros Hs Hu. unfold write_item. wp_apply sock_ok; [done|]. intros over s1 [Hs1 H1].
  assert (∀ s', same_io s s' → in_order s' → ∀ e, written_so_far (Some e) s') as Hstop.
  { intros s' Hsame Hs' e. split; [done|]. eapply unsent_faithful, unsent_same; done. }
  destruct over; [wp_steps; by apply Hstop|].
  wp_apply is_done_ok; [done|]. intros gone s2 [Hs2 H2]. pose proof (same_io_trans _ _ _ H1 H2) as H12.
  destruct gone; [wp_steps; by apply Hstop|].
  wp_apply sock_ok; [done|]. intros ok s3 [Hs3 H3]. pose proof (same_io_trans _ _ _ H12 H3) as H13.
  destruct ok; [|wp_steps; by apply Hstop]. cbn [negb]. pose proof (unsent_same _ _ _ H13 Hu) as Hu3.
  destruct (frame_of protocol i) as [f|] eqn:Hf.
  - wp_apply send_frame_ok; [done..|]. intros r s4 (Hs4&Hf4&Hw). destruct r.
    + destruct (last_item i); wp_steps; split; auto.
    + wp_apply observe_ok; [done|]. intros _ s5 [Hs5 H5]. apply failed_write_ok; [done|by eapply faithful_same].
    + wp_apply observe_ok; [done|]. intros _ s5 [Hs5 H5]. apply failed_write_ok; [done|by eapply faithful_same].
  - assert (flushed s3) as Hfl.
    { destruct Hu3 as (tk&Ht&Hfr&Hw). split; [|done]. rewrite Hfr, Ht, omap_app. cbn. by rewrite Hf, app_nil_r. }
    destruct (last_item i); wp_steps; split; auto using flushed_faithful.
Qed.

Lemma write_turn_ok s : in_order s → flushed s → wp (write_turn env k protocol) written_so_far s.
Proof.
  intros Hs Hfl. unfold write_turn. wp_apply sock_ok; [done|]. intros over s1 [Hs1 H1].
  destruct over; [wp_steps; by eapply stop_turn|].
  wp_apply is_done_ok; [done|]. intros gone s2 [Hs2 H2]. pose proof (same_io_trans _ _ _ H1 H2) as H12.
  destruct gone; [wp_steps; by eapply stop_turn|].
  wp_apply sock_ok; [done|]. intros sel s3 [Hs3 H3]. pose proof (same_io_trans _ _ _ H12 H3) as [Ht Hf].
  assert (wp (i ← take_item env k sel; match i with None => mret None | Some i => write_item env k protocol i end)
            written_so_far s3) as Htake; [|by destruct sel; [wp_steps; by eapply (stop_turn s)..| |]].
  wp_apply take_item_ok; [done|]. intros [i|] s4 (Hs4&Hf4&Ht4).
  - apply write_item_ok; [done|]. exists (taken s). rewrite Ht4, Ht, Hf4, Hf. by destruct Hfl.
  - wp_steps. split; [done|]. destruct Hfl. rewrite app_nil_r in Ht4. split; congruence.
Qed.
Lemma write_loop_ok n s : in_order s → flushed s → wp (write_loop env k n protocol) written_so_far s.
Proof.
  revert s. induction n as [|n IH]; intros s Hs Hfl; cbn [write_loop]; [by wp_steps|].
  wp_apply write_turn_ok; [done..|]. intros [e|] s1 [Hs1 H1]; [by wp_steps|by apply IH].
Qed.
End Writer.

Section Claim.
Context `{External} {W : Type} (env : writer_env W).

(** C35: the writer of a connection loses, repeats and reorders nothing.  However the other
    goroutines, which only append to the queues of the connection, interleave with it, the
    messages ever enqueued are those the writer took, in order, followed by those that wait,
    and so are the control frames.  The frames given to the socket are exactly those of the
    items taken, in order, but for the last item when the writer ends before writing it;
    every frame but the last was written. *)
Theorem WriteTo_in_order k protocol n s c :
  (∀ w hb, grows k hb (we_others env w hb).1) →
  heap (w_hub s) !! k = Some c → taken s = [] → frames s = [] →
  let s' := (WriteTo env k n true (Some protocol) s).2 in
  in_order k (outbound c) (controls c) s' ∧ faithful protocol s'.
Proof.
  intros Hothers Hc Ht Hf.
  change (wp (WriteTo env k n true (Some protocol)) (λ _ s', in_order k (outbound c) (controls c) s' ∧ faithful protocol s') s).
  assert (in_order k (outbound c) (controls c) s) as Hs.
  { exists c, [], []. rewrite Ht. by rewrite !app_nil_r. }
  unfold WriteTo. cbn [negb].
  wp_apply (at_hub_ok env k Hothers); [|done|].
  { intros hb. destruct (heap hb !! k) as [d|]; [|done]. destruct (writer d); [done|]. by apply grows_update. }
  intros attached s1 [Hs1 [Ht1 Hf1]].
  assert (flushed protocol s1) as Hfl by (split; [by rewrite Ht1, Hf1, Ht, Hf|rewrite Hf1, Hf; constructor]).
  destruct attached; [wp_steps; split; [done|by apply flushed_faithful]|].
  wp_apply (write_loop_ok env k protocol Hothers); [done..|]. intros [e|] s2 [Hs2 Hr];
    [|wp_steps; split; [done|by apply flushed_faithful]].
  wp_apply (sock_ok k); [done|]. intros f s3 [Hs3 H3].
  wp_apply (at_hub_ok env k Hothers); [|done|]. { intros hb. apply grows_Unregister. }
  intros _ s4 [Hs4 H4]. wp_steps. split; [done|]. eapply faithful_same; [|done]. by eapply same_io_trans.
Qed.
End Claim.

(** ** Samples *)

(** A socket that takes everything; two more messages arrive in the second turn. *)
Definition sample_writer_env : writer_env nat := {|
  we_others w hb :=
    if (w =? 3)%nat then ((deliver_op sample_view [sample_identity user1] (λ _, 0) hb).2, w)
    else (hb, w);
  we_ctx_done w := (false, S w);
  we_select w := (SelMessage, w);
  we_deadline w := (true, w);
  we_write _ w := (Written, w);
  we_fate w := (Answered, w)
|}.
Definition writer_hub : Hub := (deliver_op sample_view [sample_identity user1] (λ _, 0) one_user).2.
Definition sample_writer : writer_state nat := WriterState 0%nat writer_hub [] [].

Lemma deliver_grows m targets k h : grows k h (deliver_op m targets (λ _, 0) h).2.
Proof.
  revert h. induction targets as [|id ts IH]; intros h; cbn [deliver_op]; [done|].
  assert (grows k h (deliver_one m id 0 h).2) as H1.
  { unfold deliver_one. destruct (_ && _); [done|]. destruct (clients h !! _) as [j|]; [|done].
    destruct (heap h !! j) as [c|] eqn:Hj; [|done]. destruct (pending c); [done|].
    destruct (negb _); [by apply grows_same|]. destruct (_ <? _)%nat; cbn [snd].
    - intros d Hd. destruct (decide (j = k)) as [->|Hjk]; rewrite lookup_update.
      + rewrite decide_True, Hj by done. simplify_eq. eexists _, [m], []. cbn. by rewrite app_nil_r.
      + rewrite decide_False by done. exists d, [], []. by rewrite !app_nil_r.
    - etransitivity; [|apply grows_close]. transitivity (markSlow j (count 1 0 0 h));
        [etransitivity; [|apply grows_slow]|]; by apply grows_same. }
  destruct (deliver_one m id 0 h) as [o h1]. specialize (IH h1).
  destruct (deliver_op m ts (λ _, 0) h1) as [rs h2]. by etransitivity.
Qed.

Lemma WriteTo_in_order_witness :
  messages_of (taken (WriteTo (H := Reference.external) sample_writer_env 0 5 true (Some ProtocolV2) sample_writer).2)
    = [sample_view; sample_view; sample_view]
  ∧ faithful ProtocolV2 (WriteTo (H := Reference.external) sample_writer_env 0 5 true (Some ProtocolV2) sample_writer).2.
Proof.
  split; [by vm_compute|].
  refine (proj2 (WriteTo_in_order (H := Reference.external) sample_writer_env 0 ProtocolV2 5 sample_writer
    (MkConnection (sample_identity user1) [sample_view] [] false false false false) _ _ _ _)); [|by vm_compute|done..].
  intros w hb. unfold sample_writer_env, we_others. destruct (w =? 3)%nat; [|done].
  exact (deliver_grows sample_view [sample_identity user1] 0 hb).
Defined.
