(* ===== verification/LogicToComet.v ===== *)
(** * From a stored message to its readers

    What Logic stores, Job carries and Comet writes is one message. *)
From S2P Require Import Prelude GoStd GoTime External Json Dto Samples JobTask JobTaskProofs JobComet RoutingStore RoutingStoreProofs.
From S2P Require Import KafkaPush MessageStore MessageStoreProofs CometValidation CometFrames CometHandler LogicDispatch LogicDispatchProofs.
Local Open Scope Z_scope.

(** The result of a submission as the wire carries it. *)
Definition on_wire (r : LogicDispatch.SendResult) : pb.SubmitResult :=
  pb.MkSubmitResult (ClientMessageId r) (Stored r) (Some (ResultMessage r)) (Dispatch r) (ResultReplayed r).

(** The two components render a message alike. *)
Lemma publicMessage_agree m : CometFrames.publicMessage m = LogicDispatch.publicMessage m.
Proof. done. Qed.

Section Readers.
Context `{External, !ExternalLaws _} {W : Type} (env : logic_env W) (svc : Service) (Hs : shaped (s_routes svc)).

(** The states [dispatch] answers have a name for the client. *)
Lemma dispatched_named message requestID count d index published chunks pubs st :
  0 ≤ published → dispatched svc message requestID count d index published chunks pubs st → dispatch_name st ≠ "".
Proof. intros Hp Hd. destruct (dispatched_answer svc _ _ _ _ _ _ _ _ _ Hp Hd) as [_ [(->&_)|(_&[(->&_)|(->&_)])]]; done. Qed.

(** A stored message passes the checks of Comet. *)
Lemma stored_valid saved requestID :
  dispatchable saved requestID → validateMessage (Some (SavedMessage saved)) = true.
Proof. intros [(row&Hv&_) Hpos _ _]. by apply (messageView_valid _ _ (row_view _ _ Hv Hpos)). Qed.

(** C34: everybody reads the message that was stored.  When Logic dispatches a stored
    message, the answer it gives makes the Comet of the sender report that very message, as
    stored, with the state of the dispatch; and every record it publishes decodes on the
    side of Job to a message that passes the checks of the Comets of the recipients and that
    they write to their sockets as that very message. *)
Theorem readers_agree clientID saved requestID s :
  RoutingStoreProofs.reachable (s_routes svc) (routing s) → dispatchable saved requestID →
  let '(res, s') := dispatch env svc clientID saved requestID s in
  let m := LogicDispatch.publicMessage (SavedMessage saved) in
  result_of clientID (Ok (Some (Some (on_wire res))))
    = Some (im.MkSendResult clientID true m (dispatch_name (Dispatch res)) (Replayed saved))
  ∧ ∃ pubs, publications s' = publications s ++ pubs
    ∧ Forall (λ p, ∃ t v, DecodeTask p.1.2 = Ok t ∧ JobTask.messageView (im.Message_ t) = Ok v
                ∧ validateMessage (Some v) = true ∧ CometFrames.publicMessage v = m
                ∧ wschat.Content (legacyMessage v) = im.Content m ∧ wschat.SendID (legacyMessage v) = im.SendID m) pubs.
Proof.
  intros Hd Hdsp.
  pose proof (dispatch_spec env svc Hs clientID saved requestID s Hd) as Hspec. unfold wp in Hspec.
  pose proof (dispatch_to_job env svc Hs clientID saved requestID s Hd Hdsp) as Hjob.
  destruct (dispatch env svc clientID saved requestID s) as [res s']. cbn [fst snd] in Hspec.
  destruct Hspec as (pubs0&_&Hds&Hres). destruct Hjob as (pubs&tasks&Hp&Hdec&_).
  pose proof (stored_valid _ _ Hdsp) as Hvalid. split.
  - rewrite Hres. unfold on_wire, result_of. cbn [pb.Submitted pb.WasStored pb.SubmittedId pb.DispatchState pb.WasReplayed
      ClientMessageId Stored ResultMessage Dispatch ResultReplayed].
    rewrite Hvalid, !bool_decide_true by (done || by eapply dispatched_named). done.
  - exists pubs. split; [done|]. apply Forall_forall. intros p Hin.
    apply list_elem_of_lookup in Hin as [k Hk]. destruct (Forall2_lookup_l _ _ _ _ _ Hdec Hk) as (t&_&Ht&_&_&_&Hview&_).
    exists t, (SavedMessage saved). by split_and!.
Qed.
End Readers.

Lemma readers_agree_witness :
  length (publications sample_dispatch.2) = 1%nat
  ∧ result_of (H := Reference.external) client1 (Ok (Some (Some (on_wire sample_dispatch.1))))
    = Some (im.MkSendResult client1 true (LogicDispatch.publicMessage (SavedMessage sample_saved)) im.DispatchQueued
              (Replayed sample_saved)).
Proof.
  split; [by vm_compute|].
  pose proof (@readers_agree Reference.external Reference.external_laws unit quiet_env LogicDispatchProofs.sample_service sample_shaped
    client1 sample_saved "request 1" connected_state connected_reachable sample_dispatchable) as Hd.
  pose proof sample_dispatch_queued as Hq. unfold sample_dispatch in *.
  destruct (dispatch _ _ _ _ _ _) as [res s']. cbn [fst snd] in *. rewrite Hq in Hd. by destruct Hd as [Hd _].
Defined.
