(* ===== verification/Tables.v ===== *)
(** * Tables, statements and the cache of the business services

    The rows of [internal/model], the database and the Redis cache of
    [internal/service/redisservice], and the programs that use them.  A statement runs alone;
    between two statements other requests may have moved the state ([others]).  A statement
    may fail, a transaction rolls back when it does, and the answer to its commit may be lost.
    Columns and cached texts are valid UTF-8, so what JSON transports it transports exactly;
    a cached value is therefore the Go value that was marshalled. *)
From S2P Require Import Prelude GoStd GoTime.
Local Open Scope Z_scope.

(** ** Rows ([internal/model]) *)

Module model.
Definition SessionTypeUser : Z := 0.
Definition SessionTypeGroup : Z := 1.
Definition MessageTypeText : Z := 0.
Definition MessageOriginUser : Z := 0.
Definition MessageOriginAI : Z := 1.
Definition ContactTypeUser : Z := 0.
Definition ContactTypeGroup : Z := 1.
Definition ContactStatusNormal : Z := 0.
Definition ContactApplyPending : Z := 0.
Definition ContactApplyAgreed : Z := 1.
Definition GroupAddModeDirect : Z := 0.
Definition GroupAddModeApprove : Z := 1.
Definition GroupAddModeForbidden : Z := 2.
Definition GroupStatusNormal : Z := 0.

Record UserInfo : Type := MkUserInfo {
  UserUUID : string; Nickname : string; Telephone : string; PasswordHash : string
}.
Record Session : Type := MkSession {
  SessionUUID : string; SessionSendId : string; SessionReceiveId : string; SessionType : Z; SessionCreatedAt : Z
}.
Record Message : Type := MkMessage {
  MessageID : Z; MessageUUID : string; SessionId : string; MessageType : Z; Content : string; Origin : Z;
  SendId : string; ReceiveId : string; MessageCreatedAt : Z
}.
(** [Members] and [Admins] are JSON text. *)
Record GroupInfo : Type := MkGroupInfo {
  GroupUUID : string; Name : string; OwnerID : string; Members : string; Admins : string;
  MemberCount : Z; AddMode : Z; Status : Z
}.
Record UserContact : Type := MkUserContact {
  ContactUser : string; ContactID : string; ContactType : Z; ContactStatus : Z
}.
Record ContactApply : Type := MkContactApply {
  ApplicantID : string; ApplyContact : string; ApplyType : Z; ApplyStatus : Z
}.
Record UserAISessionAccess : Type := MkAccess { AccessUser : string; AccessSession : string }.
Definition set_message_id (i : Z) (m : Message) : Message :=
  MkMessage i (MessageUUID m) (SessionId m) (MessageType m) (Content m) (Origin m) (SendId m) (ReceiveId m) (MessageCreatedAt m).
End model.

(** The tables, each in the order of its primary key. *)
Record tables : Type := MkTables {
  user_info : list model.UserInfo; session : list model.Session; messages : list model.Message;
  group_info : list model.GroupInfo; user_contact : list model.UserContact;
  contact_apply : list model.ContactApply; access : list model.UserAISessionAccess
}.
Definition set_user_info (l : list model.UserInfo) (t : tables) : tables :=
  MkTables l (session t) (messages t) (group_info t) (user_contact t) (contact_apply t) (access t).
Definition set_session (l : list model.Session) (t : tables) : tables :=
  MkTables (user_info t) l (messages t) (group_info t) (user_contact t) (contact_apply t) (access t).
Definition set_messages (l : list model.Message) (t : tables) : tables :=
  MkTables (user_info t) (session t) l (group_info t) (user_contact t) (contact_apply t) (access t).
Definition set_group_info (l : list model.GroupInfo) (t : tables) : tables :=
  MkTables (user_info t) (session t) (messages t) l (user_contact t) (contact_apply t) (access t).
Definition set_user_contact (l : list model.UserContact) (t : tables) : tables :=
  MkTables (user_info t) (session t) (messages t) (group_info t) l (contact_apply t) (access t).
Definition set_contact_apply (l : list model.ContactApply) (t : tables) : tables :=
  MkTables (user_info t) (session t) (messages t) (group_info t) (user_contact t) l (access t).
Definition set_access (l : list model.UserAISessionAccess) (t : tables) : tables :=
  MkTables (user_info t) (session t) (messages t) (group_info t) (user_contact t) (contact_apply t) l.

(** INSERT with the unique keys of the table; [None] is the duplicate-key error. *)
Definition insert_user (r : model.UserInfo) (t : tables) : option tables :=
  if existsb (λ x, bool_decide (model.UserUUID x = model.UserUUID r)
                   || bool_decide (model.Telephone x = model.Telephone r)) (user_info t)
  then None else Some (set_user_info (user_info t ++ [r]) t).
Definition insert_session (r : model.Session) (t : tables) : option tables :=
  if existsb (λ x, bool_decide (model.SessionUUID x = model.SessionUUID r)
                   || bool_decide (model.SessionSendId x = model.SessionSendId r)
                      && bool_decide (model.SessionReceiveId x = model.SessionReceiveId r)) (session t)
  then None else Some (set_session (session t ++ [r]) t).
(** The id counts the messages. *)
Definition insert_message (r : model.Message) (t : tables) : option tables :=
  if existsb (λ x, bool_decide (model.MessageUUID x = model.MessageUUID r)) (messages t)
  then None else Some (set_messages (messages t ++ [model.set_message_id (Z.of_nat (length (messages t)) + 1) r]) t).
Definition insert_group (r : model.GroupInfo) (t : tables) : option tables :=
  if existsb (λ x, bool_decide (model.GroupUUID x = model.GroupUUID r)) (group_info t)
  then None else Some (set_group_info (group_info t ++ [r]) t).
Definition insert_contact (r : model.UserContact) (t : tables) : option tables :=
  if existsb (λ x, bool_decide (model.ContactUser x = model.ContactUser r)
                   && bool_decide (model.ContactID x = model.ContactID r)
                   && bool_decide (model.ContactType x = model.ContactType r)) (user_contact t)
  then None else Some (set_user_contact (user_contact t ++ [r]) t).
Definition insert_apply (r : model.ContactApply) (t : tables) : option tables :=
  Some (set_contact_apply (contact_apply t ++ [r]) t).
Definition insert_access (rs : list model.UserAISessionAccess) (t : tables) : option tables :=
  let key (r : model.UserAISessionAccess) := (model.AccessUser r, model.AccessSession r) in
  if bool_decide (NoDup (key <$> access t ++ rs)) then Some (set_access (access t ++ rs) t) else None.

(** ORDER BY a column ASC, id ASC: a stable sort of rows in the order of their ids. *)
Section Order.
Context {A : Type} (created : A → Z).
Fixpoint place (x : A) (l : list A) : list A :=
  match l with
  | [] => [x]
  | y :: l' => if created y <=? created x then y :: place x l' else x :: y :: l'
  end.
Definition order_by (l : list A) : list A := foldl (λ acc x, place x acc) [] l.
End Order.

(** ** What the services answer and cache ([internal/dto/response]) *)

Module response.
Record GetUserInfoResponse : Type := MkUser { UserUUID : string; Nickname : string; Telephone : string }.
Record MessageResponse : Type := MkMessage {
  UUID : string; SessionID : string; Type_ : Z; Content : string; Origin : Z; SendID : string;
  ReceiveID : string; CreatedAt : Z
}.
Record UserSessionListResponse : Type := MkSession { SessionUUID : string; PeerUUID : string }.
Record GroupResponse : Type := MkGroup {
  GroupUUID : string; Name : string; OwnerID : string; Members : list string; Admins : list string;
  MemberCount : Z; AddMode : Z
}.
End response.

(** A cached text: an object, an array, or the bare text of a code. *)
Inductive item : Type :=
| IUser (u : response.GetUserInfoResponse)
| IMessage (m : response.MessageResponse)
| ISession (s : response.UserSessionListResponse)
| IGroup (g : response.GroupResponse)
| IId (id : string).
Inductive cached : Type :=
| CObject (i : item) | CArray (l : list item) | CText (s : string).

(** Unmarshalling into a type, an error when the text has another shape. *)
Definition as_user (c : cached) : option response.GetUserInfoResponse :=
  match c with CObject (IUser u) => Some u | _ => None end.
Definition as_group (c : cached) : option response.GroupResponse :=
  match c with CObject (IGroup g) => Some g | _ => None end.
Definition as_items (c : cached) : option (list item) :=
  match c with CArray l => Some l | _ => None end.
Definition as_users (c : cached) : option (list response.GetUserInfoResponse) :=
  l ← as_items c; mapM (λ i, match i with IUser u => Some u | _ => None end) l.
Definition as_messages (c : cached) : option (list response.MessageResponse) :=
  l ← as_items c; mapM (λ i, match i with IMessage m => Some m | _ => None end) l.
Definition as_sessions (c : cached) : option (list response.UserSessionListResponse) :=
  l ← as_items c; mapM (λ i, match i with ISession s => Some s | _ => None end) l.
Definition as_groups (c : cached) : option (list response.GroupResponse) :=
  l ← as_items c; mapM (λ i, match i with IGroup g => Some g | _ => None end) l.

(** ** Programs *)

Inductive db_error : Type := RecordNotFound | DbFailed.
Inductive redis_error : Type := ErrUnavailable | RedisNil | RedisFailed.
(** What became of a statement or command: it was answered, it never ran, or its answer was lost. *)
Inductive fate : Type := Answered | NotRun | Lost.

(** [redis] is [None] while the client is nil; [ops] counts the steps of the environment. *)
Record store : Type := Store { db : tables; redis : option (gmap string cached); ops : nat }.

Record env : Type := MkEnv {
  fates : nat → fate;
  others : nat → tables * option (gmap string cached) → tables * option (gmap string cached);
  clock : nat → Z;
  fresh : nat → string
}.
(** Nobody else: the statements of a transaction follow each other. *)
Definition alone (e : env) : env := MkEnv (fates e) (λ _ x, x) (clock e) (fresh e).

Definition Prog (E A : Type) : Type := store → result E A * store.
Global Instance Prog_ret E : MRet (Prog E) := λ A a s, (Ok a, s).
Global Instance Prog_bind E : MBind (Prog E) := λ A B f m s,
  match m s with (Ok a, s) => f a s | (Err e, s) => (Err e, s) end.
Definition fail {E A} (e : E) : Prog E A := λ s, (Err e, s).
Definition check {E} (b : bool) (e : E) : Prog E unit := if b then mret tt else fail e.
Definition lift {E A} (r : result E A) : Prog E A := λ s, (r, s).

Section Steps.
Context (e : env).

(** The state after the others moved. *)
Definition moved (s : store) : store :=
  let '(t, r) := others e (ops s) (db s, redis s) in Store t r (S (ops s)).
Definition set_db (t : tables) (s : store) : store := Store t (redis s) (ops s).
Definition set_redis (r : option (gmap string cached)) (s : store) : store := Store (db s) r (ops s).

(** One statement; [f] is [None] when a unique key refuses it. *)
Definition statement {E A} (f : tables → option (A * tables)) : Prog E (result db_error A) := λ s,
  let s1 := moved s in
  match fates e (ops s), f (db s1) with
  | Answered, Some (a, t) => (Ok (Ok a), set_db t s1)
  | Lost, Some (_, t) => (Ok (Err DbFailed), set_db t s1)
  | _, _ => (Ok (Err DbFailed), s1)
  end.
Definition query {E A} (f : tables → A) : Prog E (result db_error A) := statement (λ t, Some (f t, t)).
(** [First]: a row, or [gorm.ErrRecordNotFound]. *)
Definition first {E A} (f : tables → option A) : Prog E (result db_error A) :=
  (r ← query f;
   mret (match r with Ok (Some a) => Ok a | Ok None => Err RecordNotFound | Err x => Err x end)).
Definition write {E} (f : tables → option tables) : Prog E (result db_error unit) :=
  statement (λ t, t' ← f t; Some (tt, t')).
(** An error of the database that the code maps to [x]. *)
Definition or_fail {E A} (x : E) (m : Prog E (result db_error A)) : Prog E A :=
  (r ← m; match r with Ok a => mret a | Err _ => fail x end).

Definition now {E} : Prog E Z := λ s, (Ok (clock e (ops s)), Store (db s) (redis s) (S (ops s))).
Definition new_uuid {E} : Prog E string := λ s, (Ok (fresh e (ops s)), Store (db s) (redis s) (S (ops s))).

(** [Transaction]: the error of the body, or [x] for an error of the commit. *)
Definition transaction {E A} (x : E) (body : env → Prog E A) : Prog E A := λ s,
  let s0 := moved s in
  match body (alone e) s0 with
  | (Err y, s1) => (Err y, set_db (db s0) s1)
  | (Ok a, s1) =>
    let s2 := Store (db s1) (redis s1) (S (ops s1)) in
    match fates e (ops s1) with
    | Answered => (Ok a, s2)
    | Lost => (Err x, s2)
    | NotRun => (Err x, set_db (db s0) s2)
    end
  end.

(** ** The cache ([redisservice/client.go], [message_cache.go]) *)

(** One command; it fails with [ErrUnavailable] when the client is nil. *)
Definition command {E A} (f : gmap string cached → A * gmap string cached) : Prog E (result redis_error A) := λ s,
  let s1 := moved s in
  match redis s1 with
  | None => (Ok (Err ErrUnavailable), s1)
  | Some c =>
    match fates e (ops s) with
    | Answered => (Ok (Ok (f c).1), set_redis (Some (f c).2) s1)
    | Lost => (Ok (Err RedisFailed), set_redis (Some (f c).2) s1)
    | NotRun => (Ok (Err RedisFailed), s1)
    end
  end.
Definition Get {E} (key : string) : Prog E (result redis_error cached) :=
  (r ← command (λ c, (c !! key, c));
   mret (match r with Ok (Some v) => Ok v | Ok None => Err RedisNil | Err x => Err x end)).
Definition SetEX {E} (key : string) (v : cached) : Prog E (result redis_error unit) :=
  command (λ c, (tt, <[key := v]> c)).
Definition Delete {E} (keys : list string) : Prog E (result redis_error unit) :=
  match keys with
  | [] => mret (Ok tt)
  | _ => command (λ c, (tt, foldr delete c keys))
  end.
Definition GetJSON {E A} (as_ : cached → option A) (key : string) : Prog E (result redis_error A) :=
  (r ← Get key;
   match r with
   | Err x => mret (Err x)
   | Ok v => match as_ v with
             | Some a => mret (Ok a)
             | None => _ ← Delete [key]; mret (Err RedisFailed)
             end
   end).
Definition SetJSON {E} (key : string) (v : cached) : Prog E (result redis_error unit) := SetEX key v.
Definition AppendJSON {E} (key : string) (v : item) : Prog E (result redis_error unit) :=
  (r ← GetJSON as_items key;
   match r with
   | Err RedisNil | Err ErrUnavailable => mret (Ok tt)
   | Err x => mret (Err x)
   | Ok l => SetJSON key (CArray (l ++ [v]))
   end).
End Steps.

(** ** Keys ([redisservice/keys.go]) *)

Definition keyPrefix : string := "fable:v1:".
Definition AuthCodeKey (telephone : string) : string := keyPrefix +:+ "auth_code:" +:+ telephone.
Definition UserInfoKey (id : string) : string := keyPrefix +:+ "user_info:" +:+ id.
Definition ContactUserListKey (id : string) : string := keyPrefix +:+ "contact_user_list:" +:+ id.
Definition JoinedGroupListKey (id : string) : string := keyPrefix +:+ "my_joined_group_list:" +:+ id.
Definition OwnedGroupListKey (id : string) : string := keyPrefix +:+ "contact_mygroup_list:" +:+ id.
Definition GroupInfoKey (id : string) : string := keyPrefix +:+ "group_info:" +:+ id.
Definition GroupMemberListKey (id : string) : string := keyPrefix +:+ "group_memberlist:" +:+ id.
Definition SessionListKey (id : string) : string := keyPrefix +:+ "session_list:" +:+ id.
Definition GroupSessionListKey (id : string) : string := keyPrefix +:+ "group_session_list:" +:+ id.
(** The two ids in order. *)
Definition sorted_pair (a b : string) : string * string := if String.leb a b then (a, b) else (b, a).
Definition SessionPairKey (id peer : string) : string :=
  let '(a, b) := sorted_pair id peer in keyPrefix +:+ "session:" +:+ a +:+ ":" +:+ b.
Definition MessageListKey (id peer : string) : string :=
  let '(a, b) := sorted_pair id peer in keyPrefix +:+ "message_list:" +:+ a +:+ ":" +:+ b.
Definition GroupMessageListKey (id : string) : string := keyPrefix +:+ "group_messagelist:" +:+ id.

(** ** Codes ([redisservice/auth_code.go]) *)

Section Codes.
Context (e : env).
Definition Exists {E} (key : string) : Prog E (result redis_error bool) := command e (λ c, (bool_decide (is_Some (c !! key)), c)).
Definition SetAuthCode {E} (telephone code : string) : Prog E (result redis_error unit) := SetEX e (AuthCodeKey telephone) (CText code).
Definition GetAuthCode {E} (telephone : string) : Prog E (result redis_error cached) := Get e (AuthCodeKey telephone).
Definition ConsumeAuthCode {E} (telephone expected : string) : Prog E (result redis_error bool) :=
  (r ← GetAuthCode telephone;
   match r with
   | Err RedisNil => mret (Ok false)
   | Err x => mret (Err x)
   (* a text that is no code is not the one expected *)
   | Ok actual =>
     if negb (match actual with CText code => bool_decide (code = expected) | _ => false end) then mret (Ok false)
     else
       d ← Delete e [AuthCodeKey telephone];
       mret (match d with Ok _ => Ok true | Err x => Err x end)
   end).
End Codes.
