(* ===== verification/GormService.v ===== *)
(** * Accounts, sessions, messages and groups: [internal/service/gormservice]

    The operations over the tables and the cache of [Tables].  bcrypt and the JWT library are
    parameters; [bcrypt_generate] has the salt as its first argument. *)
From S2P Require Import Prelude GoStd GoTime Json JsonPrint Tables.
Local Open Scope Z_scope.

Inductive gorm_error : Type :=
| ErrInvalidRegister | ErrTelephoneExists | ErrUsernameExists | ErrCreateUserFailed
| ErrUserNotFound | ErrInvalidPassword | ErrLoginFailed
| ErrUserAccessDenied | ErrInvalidUUID | ErrForbidden
| ErrDatabase | ErrInvalidUserPair | ErrInvalidMessageContent
| ErrInvalidSession | ErrSessionCreateFail | ErrInvalidGroup | ErrGroupNotFound | ErrGroupUnavailable
| ErrGroupJoinForbidden | ErrGroupOwnerCannotLeave | ErrNotGroupMember | ErrGroupJoinPending | ErrNotGroupAdmin
(** An error of the database passed on as it is. *)
| ErrRaw.
Global Instance gorm_error_eq_dec : EqDecision gorm_error.
Proof. solve_decision. Defined.

(** ** Accounts ([user_info_service.go]) *)

Record RegisterRequest : Type := MkRegister { RegTelephone : string; RegPassword : string; RegNickname : string }.
Record LoginResponse : Type := MkLogin { LoginUUID : string; LoginNickname : string; LoginToken : string }.

(** [^1[3-9]\d{9}$] *)
Definition isPhone (phone : string) : bool :=
  match bytes phone with
  | b0 :: b1 :: r => (b0 =? 49) && in_range 51 57 b1 && bool_decide (length r = 9%nat) && forallb (in_range 48 57) r
  | _ => false
  end.

Section Accounts.
Context (bcrypt_generate : string → string → option string) (bcrypt_compare : string → string → bool).
Context (sign_token : string → Z → option string).
Context (e : env).
#[local] Abbreviation M := (Prog gorm_error).

(** An error leaves no hash. *)
Definition passwordHash (salt password : string) : string := default "" (bcrypt_generate salt password).

(** The error of a count is ignored; the count is then what it was, zero. *)
Definition count_users (f : model.UserInfo → bool) : M nat :=
  (r ← query e (λ t, length (List.filter f (user_info t)));
   mret (match r with Ok n => n | Err _ => 0%nat end)).
Definition Register (r : RegisterRequest) : M response.GetUserInfoResponse :=
  (check (isPhone (RegTelephone r)) ErrInvalidRegister;;
   n ← count_users (λ u, bool_decide (model.Telephone u = RegTelephone r));
   check (n =? 0)%nat ErrTelephoneExists;;
   n ← count_users (λ u, bool_decide (model.Nickname u = RegNickname r));
   check (n =? 0)%nat ErrUsernameExists;;
   id ← new_uuid e;
   salt ← new_uuid e;
   let uuid := "U" +:+ id in
   or_fail ErrCreateUserFailed
     (write e (insert_user (model.MkUserInfo uuid (RegNickname r) (RegTelephone r) (passwordHash salt (RegPassword r)))));;
   mret (response.MkUser uuid (RegNickname r) (RegTelephone r))).

Definition generateToken (id : string) : M (option string) :=
  (t ← now e; mret (sign_token id ((t + 24 * 60 * minute) / second))).
Definition Login (telephone password : string) : M LoginResponse :=
  (n ← count_users (λ u, bool_decide (model.Telephone u = telephone));
   check (negb (n =? 0)%nat) ErrUserNotFound;;
   user ← or_fail ErrLoginFailed (first e (λ t, find (λ u, bool_decide (model.Telephone u = telephone)) (user_info t)));
   check (bcrypt_compare (model.PasswordHash user) password) ErrInvalidPassword;;
   token ← generateToken (model.UserUUID user);
   match token with
   | None => fail ErrLoginFailed
   | Some token => mret (MkLogin (model.UserUUID user) (model.Nickname user) token)
   end).
End Accounts.

Section Services.
Context (e : env).
#[local] Abbreviation M := (Prog gorm_error).
#[local] Abbreviation quietly m := (_ ← m; mret tt).

Definition user_response (u : model.UserInfo) : response.GetUserInfoResponse :=
  response.MkUser (model.UserUUID u) (model.Nickname u) (model.Telephone u).
(** [uuid_any] is [None] when it is no string. *)
Definition GetUserInfo (uuid_any : option string) : M response.GetUserInfoResponse :=
  match uuid_any with
  | None => fail ErrInvalidUUID
  | Some uuid =>
    (c ← GetJSON e as_user (UserInfoKey uuid);
     match c with
     | Ok cached => mret cached
     | Err _ =>
       user ← or_fail ErrForbidden (first e (λ t, find (λ u, bool_decide (model.UserUUID u = uuid)) (user_info t)));
       check (bool_decide (model.UserUUID user = uuid)) ErrUserAccessDenied;;
       quietly (SetJSON e (UserInfoKey uuid) (CObject (IUser (user_response user))));;
       mret (user_response user)
     end)
  end.

(** ** Contacts ([contact_service.go]) *)

Definition GetContactUserList (userID : string) : M (list response.GetUserInfoResponse) :=
  (check (bool_decide (userID ≠ "")) ErrInvalidUUID;;
   c ← GetJSON e as_users (ContactUserListKey userID);
   match c with
   | Ok cached => mret cached
   | Err _ =>
     contacts ← or_fail ErrDatabase (query e (λ t,
       List.filter (λ c, bool_decide (model.ContactUser c = userID) && (model.ContactType c =? model.ContactTypeUser)
                         && (model.ContactStatus c =? model.ContactStatusNormal)) (user_contact t)));
     let ids := model.ContactID <$> contacts in
     users ← (if bool_decide (ids = []) then mret [] else
              or_fail ErrDatabase (query e (λ t, List.filter (λ u, bool_decide (model.UserUUID u ∈ ids)) (user_info t))));
     let result := user_response <$> users in
     quietly (SetJSON e (ContactUserListKey userID) (CArray (IUser <$> result)));;
     mret result
   end).

(** ** Sessions ([session_service.go]) *)

Definition OpenSession (sendUUID peerUUID : string) : M string :=
  (check (bool_decide (sendUUID ≠ "") && bool_decide (peerUUID ≠ "") && bool_decide (sendUUID ≠ peerUUID)) ErrInvalidSession;;
   n ← or_fail ErrDatabase (query e (λ t, length (List.filter (λ u, bool_decide (model.UserUUID u = peerUUID)) (user_info t))));
   check (negb (n =? 0)%nat) ErrUserNotFound;;
   let '(a, b) := sorted_pair sendUUID peerUUID in
   r ← first e (λ t, find (λ s, bool_decide (model.SessionSendId s = a) && bool_decide (model.SessionReceiveId s = b)) (session t));
   match r with
   | Ok s => mret (model.SessionUUID s)
   | Err RecordNotFound =>
     id ← new_uuid e;
     t ← now e;
     or_fail ErrSessionCreateFail (write e (insert_session (model.MkSession ("S" +:+ id) a b model.SessionTypeUser t)));;
     quietly (Delete e [SessionPairKey sendUUID peerUUID; SessionListKey sendUUID; SessionListKey peerUUID]);;
     mret ("S" +:+ id)
   | Err DbFailed => fail ErrDatabase
   end).

Definition peer_of (user : string) (s : model.Session) : string :=
  if bool_decide (model.SessionSendId s = user) then model.SessionReceiveId s else model.SessionSendId s.
Definition session_response (user : string) (s : model.Session) : response.UserSessionListResponse :=
  response.MkSession (model.SessionUUID s) (peer_of user s).
Definition GetUserSessionList (userUUID : string) : M (list response.UserSessionListResponse) :=
  (check (bool_decide (userUUID ≠ "")) ErrInvalidUUID;;
   c ← GetJSON e as_sessions (SessionListKey userUUID);
   match c with
   | Ok cached => mret cached
   | Err _ =>
     sessions ← or_fail ErrDatabase (query e (λ t, order_by model.SessionCreatedAt
       (List.filter (λ s, bool_decide (model.SessionSendId s = userUUID) || bool_decide (model.SessionReceiveId s = userUUID)) (session t))));
     let result := session_response userUUID <$> List.filter (λ s, model.SessionType s =? model.SessionTypeUser) sessions in
     quietly (SetJSON e (SessionListKey userUUID) (CArray (ISession <$> result)));;
     mret result
   end).
Definition GetGroupSessionList (userUUID : string) : M (list response.UserSessionListResponse) :=
  (check (bool_decide (userUUID ≠ "")) ErrInvalidUUID;;
   c ← GetJSON e as_sessions (GroupSessionListKey userUUID);
   match c with
   | Ok cached => mret cached
   | Err _ =>
     sessions ← or_fail ErrDatabase (query e (λ t, order_by model.SessionCreatedAt
       (List.filter (λ s, bool_decide (model.SessionSendId s = userUUID) && (model.SessionType s =? model.SessionTypeGroup)) (session t))));
     let result := (λ s, response.MkSession (model.SessionUUID s) (model.SessionReceiveId s)) <$> sessions in
     quietly (SetJSON e (GroupSessionListKey userUUID) (CArray (ISession <$> result)));;
     mret result
   end).
Definition GetSessionUsers (sessionUUID : string) : M (string * string) :=
  (s ← or_fail ErrRaw (first e (λ t, find (λ s, bool_decide (model.SessionUUID s = sessionUUID)) (session t)));
   mret (model.SessionSendId s, model.SessionReceiveId s)).

(** ** Direct messages ([message_service.go]) *)

Definition message_response (m : model.Message) : response.MessageResponse :=
  response.MkMessage (model.MessageUUID m) (model.SessionId m) (model.MessageType m) (model.Content m)
    (model.Origin m) (model.SendId m) (model.ReceiveId m) (model.MessageCreatedAt m).
Definition sendMessage (senderUUID receiverUUID content : string) (origin : Z) : M response.MessageResponse :=
  (check (bool_decide (senderUUID ≠ "") && bool_decide (receiverUUID ≠ "") && bool_decide (senderUUID ≠ receiverUUID)) ErrInvalidUserPair;;
   check (bool_decide (content ≠ "")) ErrInvalidMessageContent;;
   r ← first e (λ t, find (λ s, bool_decide (model.SessionSendId s = senderUUID) && bool_decide (model.SessionReceiveId s = receiverUUID)
                                || bool_decide (model.SessionSendId s = receiverUUID) && bool_decide (model.SessionReceiveId s = senderUUID))
                          (session t));
   match r with
   | Err RecordNotFound => fail ErrInvalidSession
   | Err DbFailed => fail ErrDatabase
   | Ok s =>
     id ← new_uuid e;
     t ← now e;
     let m := model.MkMessage 0 ("M" +:+ id) (model.SessionUUID s) model.MessageTypeText content origin senderUUID receiverUUID t in
     or_fail ErrDatabase (write e (insert_message m));;
     quietly (AppendJSON e (MessageListKey senderUUID receiverUUID) (IMessage (message_response m)));;
     quietly (Delete e [SessionListKey senderUUID; SessionListKey receiverUUID]);;
     mret (message_response m)
   end).
Definition SendMessage (senderUUID receiverUUID content : string) : M response.MessageResponse :=
  sendMessage senderUUID receiverUUID content model.MessageOriginUser.
Definition SendAIMessage (senderUUID receiverUUID content : string) : M response.MessageResponse :=
  sendMessage senderUUID receiverUUID content model.MessageOriginAI.

Definition between (a b : string) (m : model.Message) : bool :=
  bool_decide (model.SendId m = a) && bool_decide (model.ReceiveId m = b)
  || bool_decide (model.SendId m = b) && bool_decide (model.ReceiveId m = a).
Definition GetMessageList (userOneID userTwoID : string) : M (list response.MessageResponse) :=
  (check (bool_decide (userOneID ≠ "") && bool_decide (userTwoID ≠ "") && bool_decide (userOneID ≠ userTwoID)) ErrInvalidUUID;;
   c ← GetJSON e as_messages (MessageListKey userOneID userTwoID);
   match c with
   | Ok cached => mret cached
   | Err _ =>
     ms ← or_fail ErrDatabase (query e (λ t, order_by model.MessageCreatedAt (List.filter (between userOneID userTwoID) (messages t))));
     let result := message_response <$> ms in
     quietly (SetJSON e (MessageListKey userOneID userTwoID) (CArray (IMessage <$> result)));;
     mret result
   end).

(** ** Groups ([group_service.go]) *)

(** A column that holds null decodes to a nil slice in Go, here to the empty one: only the text
    of a response would tell them apart. *)
Definition decodeIDs (raw : string) : result gorm_error (list string) :=
  match v ← parse raw; decode_list decode_string "" [] v with Some ids => Ok ids | None => Err ErrDatabase end.
Definition marshalIDs (ids : list string) : string := print_array (print_string <$> ids).
Definition containsID (ids : list string) (id : string) : bool := existsb (λ v, bool_decide (v = id)) ids.
Definition groupResponse (g : model.GroupInfo) : result gorm_error response.GroupResponse :=
  members ← decodeIDs (model.Members g);
  admins ← decodeIDs (model.Admins g);
  Ok (response.MkGroup (model.GroupUUID g) (model.Name g) (model.OwnerID g) members admins
        (model.MemberCount g) (model.AddMode g)).
Fixpoint groupResponses (gs : list model.GroupInfo) : result gorm_error (list response.GroupResponse) :=
  match gs with
  | [] => Ok []
  | g :: gs' => r ← groupResponse g; rs ← groupResponses gs'; Ok (r :: rs)
  end.

Definition group_contact (user group : string) : model.UserContact :=
  model.MkUserContact user group model.ContactTypeGroup model.ContactStatusNormal.
(** The rows of a new member. *)
Definition add_member_rows (e : env) (user group : string) (x : gorm_error) : Prog gorm_error unit :=
  (or_fail x (write e (insert_contact (group_contact user group)));;
   id ← new_uuid e;
   t ← now e;
   or_fail x (write e (insert_session (model.MkSession ("S" +:+ id) user group model.SessionTypeGroup t)))).
Definition set_group_members (ids : list string) (g : model.GroupInfo) : model.GroupInfo :=
  model.MkGroupInfo (model.GroupUUID g) (model.Name g) (model.OwnerID g) (marshalIDs ids) (model.Admins g)
    (slen ids) (model.AddMode g) (model.Status g).
(** [Updates] of the row with the id of [g]. *)
Definition update_members (ids : list string) (g : model.GroupInfo) (t : tables) : option tables :=
  Some (set_group_info ((λ x, if bool_decide (model.GroupUUID x = model.GroupUUID g) then set_group_members ids x else x)
                          <$> group_info t) t).
Definition find_group (id : string) (t : tables) : option model.GroupInfo :=
  find (λ g, bool_decide (model.GroupUUID g = id)) (group_info t).

Definition CreateGroup (ownerID name : string) (addModes : list Z) : M response.GroupResponse :=
  (check (bool_decide (ownerID ≠ "") && bool_decide (name ≠ "")) ErrInvalidGroup;;
   n ← or_fail ErrDatabase (query e (λ t, length (List.filter (λ u, bool_decide (model.UserUUID u = ownerID)) (user_info t))));
   check (negb (n =? 0)%nat) ErrUserNotFound;;
   let addMode := hd model.GroupAddModeDirect addModes in
   check (negb ((addMode <? model.GroupAddModeDirect) || (model.GroupAddModeForbidden <? addMode))) ErrInvalidGroup;;
   id ← new_uuid e;
   let g := model.MkGroupInfo ("G" +:+ id) name ownerID (marshalIDs [ownerID]) (marshalIDs []) 1 addMode model.GroupStatusNormal in
   transaction e ErrDatabase (λ e,
     or_fail ErrDatabase (write e (insert_group g));;
     add_member_rows e ownerID (model.GroupUUID g) ErrDatabase);;
   quietly (Delete e [OwnedGroupListKey ownerID; JoinedGroupListKey ownerID; GroupInfoKey (model.GroupUUID g);
                      GroupMemberListKey (model.GroupUUID g)]);;
   lift (groupResponse g)).

Definition GetGroup (groupID : string) : M response.GroupResponse :=
  (check (bool_decide (groupID ≠ "")) ErrInvalidGroup;;
   c ← GetJSON e as_group (GroupInfoKey groupID);
   match c with
   | Ok cached => mret cached
   | Err _ =>
     r ← first e (find_group groupID);
     match r with
     | Err RecordNotFound => fail ErrGroupNotFound
     | Err DbFailed => fail ErrDatabase
     | Ok g =>
       check (model.Status g =? model.GroupStatusNormal) ErrGroupUnavailable;;
       result ← lift (groupResponse g);
       quietly (SetJSON e (GroupInfoKey groupID) (CObject (IGroup result)));;
       quietly (SetJSON e (GroupMemberListKey groupID) (CArray (IId <$> response.Members result)));;
       mret result
     end
   end).

(** The groups of a contact row, in the order of the groups. *)
Definition joined (userID : string) (t : tables) : list model.GroupInfo :=
  List.filter (λ g, (model.Status g =? model.GroupStatusNormal)
    && existsb (λ c, bool_decide (model.ContactID c = model.GroupUUID g) && (model.ContactType c =? model.ContactTypeGroup)
                     && bool_decide (model.ContactUser c = userID) && (model.ContactStatus c =? model.ContactStatusNormal))
               (user_contact t)) (group_info t).
Definition group_list (key : string) (rows : tables → list model.GroupInfo) : M (list response.GroupResponse) :=
  (c ← GetJSON e as_groups key;
   match c with
   | Ok cached => mret cached
   | Err _ =>
     groups ← or_fail ErrDatabase (query e rows);
     result ← lift (groupResponses groups);
     quietly (SetJSON e key (CArray (IGroup <$> result)));;
     mret result
   end).
Definition GetJoinedGroupList (userID : string) : M (list response.GroupResponse) :=
  (check (bool_decide (userID ≠ "")) ErrInvalidUUID;;
   group_list (JoinedGroupListKey userID) (joined userID)).
Definition GetOwnedGroupList (userID : string) : M (list response.GroupResponse) :=
  (check (bool_decide (userID ≠ "")) ErrInvalidUUID;;
   group_list (OwnedGroupListKey userID) (λ t,
     List.filter (λ g, bool_decide (model.OwnerID g = userID) && (model.Status g =? model.GroupStatusNormal)) (group_info t))).

Definition pending_for (user group : string) (a : model.ContactApply) : bool :=
  bool_decide (model.ApplicantID a = user) && bool_decide (model.ApplyContact a = group)
  && (model.ApplyType a =? model.ContactTypeGroup) && (model.ApplyStatus a =? model.ContactApplyPending).
(** A transaction whose first statement locks the row of the group excludes every other
    transaction on that group until it ends, so [LeaveGroup] and [ApproveGroupJoin] run alone.
    [JoinGroup] first counts users without a lock: others may move before it locks the group,
    and its later plain reads still read the snapshot of that count (REPEATABLE READ), while
    the locking read of the group reads the group as it then is.

    The transaction of [JoinGroup] from the lock on; [true] when an application is pending. *)
Definition join_body (snapshot : tables) (userID groupID : string) (e : env) : M bool :=
  (g ← or_fail ErrGroupNotFound (first e (find_group groupID));
   check (model.Status g =? model.GroupStatusNormal) ErrGroupUnavailable;;
   members ← lift (decodeIDs (model.Members g));
   if containsID members userID then mret false
   else if model.AddMode g =? model.GroupAddModeForbidden then fail ErrGroupJoinForbidden
   else if model.AddMode g =? model.GroupAddModeApprove then
     pending ← or_fail ErrDatabase (query e (λ _, length (List.filter (pending_for userID groupID) (contact_apply snapshot))));
     (if (pending =? 0)%nat
      then or_fail ErrDatabase (write e (insert_apply (model.MkContactApply userID groupID model.ContactTypeGroup model.ContactApplyPending)))
      else mret tt);;
     mret true
   else
     let members := (members ++ [userID])%list in
     or_fail ErrRaw (write e (update_members members g));;
     add_member_rows e userID groupID ErrRaw;;
     mret false).
Definition JoinGroup (userID groupID : string) : M unit :=
  (check (bool_decide (userID ≠ "") && bool_decide (groupID ≠ "")) ErrInvalidGroup;;
   snapshot ← or_fail ErrDatabase (query e (λ t, t));
   check (negb (length (List.filter (λ u, bool_decide (model.UserUUID u = userID)) (user_info snapshot)) =? 0)%nat) ErrUserNotFound;;
   pendingRequest ← transaction e ErrRaw (join_body snapshot userID groupID);
   if pendingRequest : bool then fail ErrGroupJoinPending
   else quietly (Delete e [GroupInfoKey groupID; GroupMemberListKey groupID; JoinedGroupListKey userID])).

(** DELETE of the rows of a member. *)
Definition delete_contact (user group : string) (t : tables) : option tables :=
  Some (set_user_contact (List.filter (λ c, negb (bool_decide (model.ContactUser c = user) && bool_decide (model.ContactID c = group)
                                             && (model.ContactType c =? model.ContactTypeGroup))) (user_contact t)) t).
Definition delete_session (user group : string) (t : tables) : option tables :=
  Some (set_session (List.filter (λ s, negb (bool_decide (model.SessionSendId s = user) && bool_decide (model.SessionReceiveId s = group)
                                        && (model.SessionType s =? model.SessionTypeGroup))) (session t)) t).
Definition leave_body (userID groupID : string) (e : env) : M unit :=
  (g ← or_fail ErrGroupNotFound (first e (find_group groupID));
   check (model.Status g =? model.GroupStatusNormal) ErrGroupUnavailable;;
   check (negb (bool_decide (model.OwnerID g = userID))) ErrGroupOwnerCannotLeave;;
   members ← lift (decodeIDs (model.Members g));
   let filtered := List.filter (λ id, negb (bool_decide (id = userID))) members in
   if slen filtered =? slen members then mret tt
   else
     or_fail ErrRaw (write e (update_members filtered g));;
     or_fail ErrRaw (write e (delete_contact userID groupID));;
     or_fail ErrRaw (write e (delete_session userID groupID))).
Definition LeaveGroup (userID groupID : string) : M unit :=
  (check (bool_decide (userID ≠ "") && bool_decide (groupID ≠ "")) ErrInvalidGroup;;
   transaction e ErrRaw (leave_body userID groupID);;
   quietly (Delete e [GroupInfoKey groupID; GroupMemberListKey groupID; JoinedGroupListKey userID; GroupSessionListKey userID])).

(** [Update] of the row that was found: the first that [p] selects. *)
Fixpoint update_first {A} (p : A → bool) (f : A → A) (l : list A) : list A :=
  match l with [] => [] | x :: l' => if p x then f x :: l' else x :: update_first p f l' end.
Definition agree (a : model.ContactApply) : model.ContactApply :=
  model.MkContactApply (model.ApplicantID a) (model.ApplyContact a) (model.ApplyType a) model.ContactApplyAgreed.
Definition approve_body (operatorID applicantID groupID : string) (e : env) : M unit :=
  (g ← or_fail ErrGroupNotFound (first e (find_group groupID));
   admins ← lift (decodeIDs (model.Admins g));
   check (bool_decide (operatorID = model.OwnerID g) || containsID admins operatorID) ErrNotGroupAdmin;;
   _ ← or_fail ErrGroupJoinPending (first e (λ t, find (pending_for applicantID groupID) (contact_apply t)));
   members ← lift (decodeIDs (model.Members g));
   let members := if containsID members applicantID then members else (members ++ [applicantID])%list in
   or_fail ErrRaw (write e (update_members members g));;
   or_fail ErrRaw (write e (λ t, Some (set_contact_apply (update_first (pending_for applicantID groupID) agree (contact_apply t)) t)));;
   add_member_rows e applicantID groupID ErrRaw).
Definition ApproveGroupJoin (operatorID applicantID groupID : string) : M unit :=
  (transaction e ErrRaw (approve_body operatorID applicantID groupID);;
   quietly (Delete e [GroupInfoKey groupID; GroupMemberListKey groupID; JoinedGroupListKey applicantID; GroupSessionListKey applicantID])).

Definition SendGroupMessage (senderID groupID content : string) : M response.MessageResponse :=
  (check (bool_decide (senderID ≠ "") && bool_decide (groupID ≠ "")) ErrInvalidGroup;;
   check (bool_decide (content ≠ "")) ErrInvalidMessageContent;;
   g ← GetGroup groupID;
   check (containsID (response.Members g) senderID) ErrNotGroupMember;;
   id ← new_uuid e;
   t ← now e;
   let m := model.MkMessage 0 ("M" +:+ id) groupID model.MessageTypeText content model.MessageOriginUser senderID groupID t in
   or_fail ErrDatabase (write e (insert_message m));;
   quietly (AppendJSON e (GroupMessageListKey groupID) (IMessage (message_response m)));;
   mret (message_response m)).

Definition getGroupMessageList (groupID : string) : M (list response.MessageResponse) :=
  (check (bool_decide (groupID ≠ "")) ErrInvalidGroup;;
   ms ← or_fail ErrDatabase (query e (λ t,
     order_by model.MessageCreatedAt (List.filter (λ m, bool_decide (model.ReceiveId m = groupID)) (messages t))));
   mret (message_response <$> ms)).
Definition GetGroupMessageList (userID groupID : string) : M (list response.MessageResponse) :=
  (g ← GetGroup groupID;
   check (containsID (response.Members g) userID) ErrNotGroupMember;;
   c ← GetJSON e as_messages (GroupMessageListKey groupID);
   match c with
   | Ok cached => mret cached
   | Err _ =>
     result ← getGroupMessageList groupID;
     quietly (SetJSON e (GroupMessageListKey groupID) (CArray (IMessage <$> result)));;
     mret result
   end).
End Services.
