(* ===== verification/TablesProofs.v ===== *)
(** * Reasoning about programs on the tables

    [keeps I m]: [m] ends in tables with [I] when it starts in such.  [runs e m t Q X]: inside
    a transaction that starts its statement on [t], [m] ends with a value and tables in [Q], or
    with an error, which is in [X] when every statement was answered. *)
From S2P Require Import Prelude GoStd Tables.
Local Open Scope Z_scope.

(** ** Lists *)

Lemma filter_sublist {A} (f : A → bool) l : List.filter f l `sublist_of` l.
Proof. induction l as [|x l IH]; cbn; [done|]. destruct (f x); by constructor. Qed.

Lemma find_app {A} (f : A → bool) l k :
  find f (l ++ k) = match find f l with Some x => Some x | None => find f k end.
Proof. induction l as [|x l IH]; cbn; [done|]. by destruct (f x). Qed.

(** ** Invariants of the tables *)

Definition keeps {E A} (I : tables → Prop) (m : Prog E A) : Prop := ∀ s, I (db s) → I (db (m s).2).
(** The others only make moves that keep [I]. *)
Definition others_keep (e : env) (I : tables → Prop) : Prop := ∀ n x, I x.1 → I (others e n x).1.
Definition reliable (e : env) : Prop := ∀ n, fates e n = Answered.

Section Keeps.
Context {E : Type} (I : tables → Prop) (e : env) (Ho : others_keep e I).

Lemma moved_keeps s : I (db s) → I (db (moved e s)).
Proof. intros Hs. unfold moved. pose proof (Ho (ops s) (db s, redis s) Hs) as H. by destruct (others _ _ _). Qed.
Lemma keeps_ret {A} (a : A) : keeps (E := E) I (mret a).
Proof. by intros s ?. Qed.
Lemma keeps_fail {A} (x : E) : keeps (A := A) I (fail x).
Proof. by intros s ?. Qed.
Lemma keeps_lift {A} (r : result E A) : keeps I (lift r).
Proof. by intros s ?. Qed.
Lemma keeps_check b (x : E) : keeps I (check b x).
Proof. destruct b; [apply keeps_ret|apply keeps_fail]. Qed.
Lemma keeps_bind {A B} (m : Prog E A) (f : A → Prog E B) : keeps I m → (∀ a, keeps I (f a)) → keeps I (m ≫= f).
Proof.
  intros Hm Hf s Hs. unfold mbind, Prog_bind. specialize (Hm s Hs). destruct (m s) as [[a|x] s1]; [by apply Hf|done].
Qed.
Lemma keeps_statement {A} (f : tables → option (A * tables)) :
  (∀ t a t', I t → f t = Some (a, t') → I t') → keeps (E := E) I (statement e f).
Proof.
  intros Hf s Hs. unfold statement. pose proof (moved_keeps s Hs) as Hm.
  destruct (fates e (ops s)), (f (db (moved e s))) as [[a t]|] eqn:Hft; cbn; eauto.
Qed.
Lemma keeps_query {A} (f : tables → A) : keeps (E := E) I (query e f).
Proof. apply keeps_statement. by intros t a t' ? [= _ <-]. Qed.
Lemma keeps_first {A} (f : tables → option A) : keeps (E := E) I (first e f).
Proof. apply keeps_bind; [apply keeps_query|]. intros [[a|]|x]; apply keeps_ret. Qed.
Lemma keeps_write (f : tables → option tables) :
  (∀ t t', I t → f t = Some t' → I t') → keeps (E := E) I (write e f).
Proof.
  intros Hf. apply keeps_statement. intros t [] t' Ht Hs. destruct (f t) as [t1|] eqn:H1; [|done].
  injection Hs as <-. by eapply Hf.
Qed.
Lemma keeps_or_fail {A} (x : E) (m : Prog E (result db_error A)) : keeps I m → keeps I (or_fail x m).
Proof. intros Hm. apply keeps_bind; [done|]. intros []; [apply keeps_ret|apply keeps_fail]. Qed.
Lemma keeps_now : keeps (E := E) I (now e).
Proof. by intros s ?. Qed.
Lemma keeps_new_uuid : keeps (E := E) I (new_uuid e).
Proof. by intros s ?. Qed.
Lemma keeps_command {A} (f : gmap string cached → A * gmap string cached) : keeps (E := E) I (command e f).
Proof.
  intros s Hs. unfold command. pose proof (moved_keeps s Hs) as Hm.
  destruct (redis (moved e s)); [|done]. by destruct (fates e (ops s)).
Qed.
Lemma keeps_Delete keys : keeps (E := E) I (Delete e keys).
Proof. destruct keys; [apply keeps_ret|apply keeps_command]. Qed.
Lemma keeps_GetJSON {A} (as_ : cached → option A) key : keeps (E := E) I (GetJSON e as_ key).
Proof.
  apply keeps_bind.
  - apply keeps_bind; [apply keeps_command|]. intros [[c|]|x]; apply keeps_ret.
  - intros [c|x]; [|apply keeps_ret]. destruct (as_ c); [apply keeps_ret|].
    apply keeps_bind; [apply keeps_Delete|]. intros ?. apply keeps_ret.
Qed.
Lemma keeps_SetJSON key v : keeps (E := E) I (SetJSON e key v).
Proof. apply keeps_command. Qed.
Lemma keeps_AppendJSON key v : keeps (E := E) I (AppendJSON e key v).
Proof. apply keeps_bind; [apply keeps_GetJSON|]. intros [l|[]]; try apply keeps_ret. apply keeps_SetJSON. Qed.
Lemma keeps_check_bind {B} b (x : E) (k : unit → Prog E B) :
  (b = true → keeps I (k tt)) → keeps I (check b x ≫= k).
Proof. destruct b; intros Hk; [by apply Hk|]. by intros s ?. Qed.
(** A random id is one of the ids of the environment. *)
Lemma keeps_uuid_bind {B} (k : string → Prog E B) : (∀ n, keeps I (k (fresh e n))) → keeps I (new_uuid e ≫= k).
Proof. intros Hk s Hs. by apply (Hk (ops s)). Qed.
(** What a query found may be used by what follows, while the others keep it. *)
Lemma keeps_query_bind {A B} (x : E) (f : tables → A) (P : A → tables → Prop) (k : A → Prog E B) :
  (∀ t, I t → P (f t) t) → (∀ a, keeps (λ t, I t ∧ P a t) (k a)) → keeps I (or_fail x (query e f) ≫= k).
Proof.
  intros HP Hk s Hs. pose proof (moved_keeps s Hs) as Hm.
  unfold or_fail, query, statement, mbind, Prog_bind. destruct (fates e (ops s)); cbn; [|done..].
  refine (proj1 (Hk (f (db (moved e s))) (set_db (db (moved e s)) (moved e s)) _)). split; [done|]. by apply HP.
Qed.
End Keeps.

Lemma keeps_static {E A} (I : tables → Prop) (P : Prop) (m : Prog E A) :
  (P → keeps I m) → keeps (λ t, I t ∧ P) m.
Proof. intros Hm s [HI HP]. split; [by apply Hm|done]. Qed.
Lemma keeps_weaken {E A} (I J : tables → Prop) (m : Prog E A) : keeps I m → (∀ t, J t ↔ I t) → keeps J m.
Proof. intros Hm HJ s Hs%HJ. by apply HJ, Hm. Qed.

(** Programs that only read tables and use the cache keep everything. *)
Create HintDb keeps.
Create HintDb raises.
#[export] Hint Resolve keeps_ret keeps_fail keeps_lift keeps_check keeps_query keeps_first keeps_now keeps_new_uuid
  keeps_Delete keeps_GetJSON keeps_SetJSON keeps_AppendJSON keeps_or_fail : keeps.
Ltac keeps_auto :=
  repeat match goal with
  | |- keeps _ (check _ _ ≫= _) => apply keeps_check_bind; intros ?
  | |- keeps _ (new_uuid _ ≫= _) => apply keeps_uuid_bind; intros ?
  | |- keeps _ (_ ≫= _) => apply keeps_bind; [|intros ?]
  | |- keeps _ (match ?x with _ => _ end) => destruct x
  | |- keeps _ _ => progress auto with keeps
  end.

(** ** Transactions *)

Section Runs.
Context {E : Type} (e : env).

Definition runs {A} (m : Prog E A) (t : tables) (Q : A → tables → Prop) (X : E → Prop) : Prop :=
  ∀ s, db s = t →
    match m s with (Ok a, s') => Q a (db s') | (Err x, _) => reliable e → X x end ∧ redis (m s).2 = redis s.

Lemma runs_ret {A} (a : A) t (Q : A → tables → Prop) X : Q a t → runs (mret a) t Q X.
Proof. by intros HQ s <-. Qed.
Lemma runs_fail {A} (x : E) t (Q : A → tables → Prop) (X : E → Prop) : X x → runs (fail x) t Q X.
Proof. intros HX s _. by split; [intros _|]. Qed.
Lemma runs_bind {A B} (m : Prog E A) (f : A → Prog E B) t Q X :
  runs m t (λ a t', runs (f a) t' Q X) X → runs (m ≫= f) t Q X.
Proof.
  intros Hm s Hs. unfold mbind, Prog_bind. destruct (Hm s Hs) as [H1 H2]. destruct (m s) as [[a|x] s1]; [|done].
  cbn in H2. rewrite <-H2. by apply (H1 s1).
Qed.
Lemma runs_check b (x : E) t (Q : unit → tables → Prop) (X : E → Prop) :
  (b = true → Q tt t) → (b = false → X x) → runs (check b x) t Q X.
Proof. destruct b; intros Ht Hf; [apply runs_ret, Ht|apply runs_fail, Hf]; done. Qed.
Lemma runs_lift {A} (r : result E A) t (Q : A → tables → Prop) (X : E → Prop) :
  (∀ a, r = Ok a → Q a t) → (∀ x, r = Err x → X x) → runs (lift r) t Q X.
Proof. intros HQ HX s <-. split; [|done]. unfold lift. destruct r; [by apply HQ|intros _; by apply HX]. Qed.
(** A statement of a transaction that fails when its answer is an error. *)
Lemma runs_statement {A} (x : E) (f : tables → option (A * tables)) t (Q : A → tables → Prop) (X : E → Prop) :
  (∀ a t', f t = Some (a, t') → Q a t') → (f t = None → X x) → runs (or_fail x (statement (alone e) f)) t Q X.
Proof.
  intros HQ HX s <-. unfold or_fail, statement, mbind, Prog_bind. cbn.
  destruct (fates e (ops s)) eqn:Hf, (f (db s)) as [[a t']|] eqn:Hft; cbn; (split; [|done]); auto;
    intros Hr; by rewrite Hr in Hf.
Qed.
Lemma runs_query {A} (x : E) (f : tables → A) t (Q : A → tables → Prop) X :
  Q (f t) t → runs (or_fail x (query (alone e) f)) t Q X.
Proof. intros HQ. apply runs_statement; [by intros a t' [= <- <-]|done]. Qed.
Lemma runs_first {A} (x : E) (f : tables → option A) t (Q : A → tables → Prop) (X : E → Prop) :
  (∀ a, f t = Some a → Q a t) → (f t = None → X x) → runs (or_fail x (first (alone e) f)) t Q X.
Proof.
  intros HQ HX s <-. unfold or_fail, first, query, statement, mbind, Prog_bind. cbn.
  destruct (fates e (ops s)) eqn:Hf; cbn; (split; [|by destruct (f (db s))]).
  2,3: intros Hr; by rewrite Hr in Hf.
  destruct (f (db s)) eqn:Hft; cbn; [by apply HQ|]. intros _. by apply HX.
Qed.
Lemma runs_write (x : E) (f : tables → option tables) t (Q : unit → tables → Prop) (X : E → Prop) :
  (∀ t', f t = Some t' → Q tt t') → (f t = None → X x) → runs (or_fail x (write (alone e) f)) t Q X.
Proof.
  intros HQ HX. apply runs_statement; intros *; destruct (f t) as [t1|] eqn:Hf; cbn; try done; [|by auto].
  intros [= <- <-]. by apply HQ.
Qed.
Lemma runs_now t (Q : Z → tables → Prop) X : (∀ v, Q v t) → runs (now (alone e)) t Q X.
Proof. intros HQ s <-. split; [apply HQ|done]. Qed.
Lemma runs_new_uuid t (Q : string → tables → Prop) X : (∀ n, Q (fresh e n) t) → runs (new_uuid (alone e)) t Q X.
Proof. intros HQ s <-. split; [apply HQ|done]. Qed.
Lemma runs_mono {A} (m : Prog E A) t (Q Q' : A → tables → Prop) (X X' : E → Prop) :
  runs m t Q X → (∀ a t', Q a t' → Q' a t') → (∀ x, X x → X' x) → runs m t Q' X'.
Proof. intros Hm HQ HX s Hs. destruct (Hm s Hs) as [H1 H2]. split; [|done]. destruct (m s) as [[a|x] s']; auto. Qed.

(** What a transaction does to the tables it starts on: its error changed nothing, or is that
    of a commit whose answer was lost. *)
Lemma transaction_runs {A} (x : E) (body : env → Prog E A) Q X s :
  runs (body (alone e)) (db (moved e s)) Q X →
  match transaction e x body s with
  | (Ok a, s') => Q a (db s')
  | (Err y, s') => (db s' = db (moved e s) ∧ (reliable e → X y)) ∨ (y = x ∧ ¬ reliable e ∧ ∃ a, Q a (db s'))
  end ∧ redis (transaction e x body s).2 = redis (moved e s).
Proof.
  intros Hb. unfold transaction. destruct (Hb (moved e s) eq_refl) as [H1 H2].
  destruct (body (alone e) (moved e s)) as [[a|y] s1]; cbn; [|by split; [left|]]. cbn in H2.
  assert (fates e (ops s1) ≠ Answered → ¬ reliable e) as Hn by auto.
  destruct (fates e (ops s1)); [done| |]; (split; [|done]); [left|right]; cbn; [by split; [|intros ?%Hn]|].
  split_and!; [done|by apply Hn|by exists a].
Qed.
Lemma keeps_transaction {A} (I : tables → Prop) (x : E) (body : env → Prog E A) :
  others_keep e I → (∀ t, I t → runs (body (alone e)) t (λ _, I) (λ _, True)) → keeps I (transaction e x body).
Proof.
  intros Ho Hb s Hs. pose proof (moved_keeps I e Ho s Hs) as Hm.
  destruct (transaction_runs x body _ _ s (Hb _ Hm)) as [Ht _].
  destruct (transaction e x body s) as [[a|y] s']; cbn; [exact Ht|]. destruct Ht as [[-> _]|(_&_&a&H)]; [exact Hm|exact H].
Qed.
End Runs.
(** ** What a program ends with *)

Section Ends.
Context {E : Type} (e : env).

Definition ends {A} (m : Prog E A) (s : store) (Q : result E A → tables → Prop) : Prop := Q (m s).1 (db (m s).2).
Lemma ends_bind {A B} (m : Prog E A) (f : A → Prog E B) s Q :
  ends m s (λ r t, match r with Ok a => ∀ s', db s' = t → ends (f a) s' Q | Err x => Q (Err x) t end) → ends (m ≫= f) s Q.
Proof. unfold ends, mbind, Prog_bind. destruct (m s) as [[a|x] s1]; [|done]. intros Hf. by apply Hf. Qed.
Lemma ends_mono {A} (m : Prog E A) s (Q Q' : result E A → tables → Prop) :
  ends m s Q → (∀ r t, Q r t → Q' r t) → ends m s Q'.
Proof. intros Hm HQ. apply HQ, Hm. Qed.
Lemma ends_ret {A} (a : A) s Q : Q (Ok a) (db s) → ends (mret a) s Q.
Proof. done. Qed.
Lemma ends_check_bind {B} b (x : E) (k : unit → Prog E B) s Q :
  (b = true → ends (k tt) s Q) → (b = false → Q (Err x) (db s)) → ends (check b x ≫= k) s Q.
Proof. destruct b; intros Hk Hx; [by apply Hk|by apply Hx]. Qed.
Lemma ends_uuid_bind {B} (k : string → Prog E B) s Q :
  (∀ n s', db s' = db s → ends (k (fresh e n)) s' Q) → ends (new_uuid e ≫= k) s Q.
Proof. intros Hk. by apply (Hk (ops s)). Qed.
Lemma keeps_ends {A} (I : tables → Prop) (m : Prog E A) s : keeps I m → I (db s) → ends m s (λ _, I).
Proof. intros Hm. by apply Hm. Qed.
(** A query reads the tables after the others moved; an error of it becomes [x]. *)
Lemma ends_query_bind {A B} (I : tables → Prop) (x : E) (f : tables → A) (k : A → Prog E B) s Q :
  others_keep e I → I (db s) →
  (∀ s', I (db s') → ends (k (f (db s'))) s' Q) → (∀ t, I t → Q (Err x) t) → ends (or_fail x (query e f) ≫= k) s Q.
Proof.
  intros Ho Hs Hk Hx. pose proof (moved_keeps I e Ho s Hs) as Hm.
  unfold ends, or_fail, query, statement, mbind, Prog_bind.
  destruct (fates e (ops s)); cbn; [|by apply Hx..]. by apply (Hk (set_db (db (moved e s)) (moved e s))).
Qed.

(** The errors a program can end with, whatever fails. *)
Definition raises {A} (P : E → Prop) (m : Prog E A) : Prop := ∀ s, match (m s).1 with Err x => P x | Ok _ => True end.
Lemma raises_ret {A} P (a : A) : raises P (mret a).
Proof. by intros s. Qed.
Lemma raises_fail {A} (P : E → Prop) (x : E) : P x → raises (A := A) P (fail x).
Proof. by intros HP s. Qed.
Lemma raises_check (P : E → Prop) b (x : E) : P x → raises P (check b x).
Proof. intros HP. destruct b; [apply raises_ret|by apply raises_fail]. Qed.
Lemma raises_lift {A} (P : E → Prop) (r : result E A) : (∀ x, r = Err x → P x) → raises P (lift r).
Proof. intros HP s. unfold lift. cbn. destruct r; [done|by apply HP]. Qed.
Lemma raises_bind {A B} P (m : Prog E A) (f : A → Prog E B) : raises P m → (∀ a, raises P (f a)) → raises P (m ≫= f).
Proof. intros Hm Hf s. unfold mbind, Prog_bind. specialize (Hm s). destruct (m s) as [[a|x] s1]; [apply Hf|done]. Qed.
Lemma raises_statement {A} (P : E → Prop) (f : tables → option (A * tables)) : raises P (statement e f).
Proof. intros s. unfold statement. destruct (fates e (ops s)), (f (db (moved e s))) as [[??]|]; done. Qed.
Lemma raises_query {A} (P : E → Prop) (f : tables → A) : raises P (query e f).
Proof. apply raises_statement. Qed.
Lemma raises_write (P : E → Prop) f : raises P (write e f).
Proof. apply raises_statement. Qed.
Lemma raises_first {A} (P : E → Prop) (f : tables → option A) : raises P (first e f).
Proof. apply raises_bind; [apply raises_query|]. intros ?. apply raises_ret. Qed.
Lemma raises_new_uuid (P : E → Prop) : raises P (new_uuid e).
Proof. by intros s. Qed.
Lemma raises_now (P : E → Prop) : raises P (now e).
Proof. by intros s. Qed.
Lemma raises_or_fail {A} (P : E → Prop) (x : E) (m : Prog E (result db_error A)) : raises P m → P x → raises P (or_fail x m).
Proof. intros Hm Hx. apply raises_bind; [done|]. intros []; [apply raises_ret|by apply raises_fail]. Qed.
Lemma raises_transaction {A} (P : E → Prop) (x : E) (body : env → Prog E A) :
  raises P (body (alone e)) → P x → raises P (transaction e x body).
Proof.
  intros Hb Hx s. unfold transaction. specialize (Hb (moved e s)). destruct (body (alone e) (moved e s)) as [[a|y] s1]; cbn in *; [|done].
  by destruct (fates e (ops s1)).
Qed.
Lemma ends_raises {A} (P : E → Prop) (m : Prog E A) s Q :
  raises P m → ends m s Q → ends m s (λ r t, Q r t ∧ match r with Err x => P x | Ok _ => True end).
Proof. intros Hp Hm. split; [done|]. specialize (Hp s). by destruct (m s).1. Qed.
End Ends.
#[export] Hint Resolve raises_ret raises_statement raises_query raises_write raises_first raises_new_uuid raises_now : raises.
Ltac raises_auto :=
  repeat match goal with
  | |- raises _ (_ ≫= _) => apply raises_bind; [|intros ?]
  | |- raises _ (or_fail _ _) => apply raises_or_fail
  | |- raises _ (check _ _) => apply raises_check
  | |- raises _ (fail _) => apply raises_fail
  | |- raises _ (match ?x with _ => _ end) => destruct x
  | |- raises _ _ => progress auto with raises
  end.

(** One step of a proof about the body of a transaction. *)
Ltac runs_rule :=
  lazymatch goal with
  | |- runs _ (_ ≫= _) _ _ _ => apply runs_bind
  | |- runs _ (mret _) _ _ _ => apply runs_ret
  | |- runs _ (fail _) _ _ _ => apply runs_fail
  | |- runs _ (check _ _) _ _ _ => apply runs_check; intros ?
  | |- runs _ (lift _) _ _ _ => apply runs_lift; intros ? ?
  | |- runs _ (or_fail _ (query _ _)) _ _ _ => apply runs_query
  | |- runs _ (or_fail _ (first _ _)) _ _ _ => apply runs_first; [intros ? ?|intros ?]
  | |- runs _ (or_fail _ (write _ _)) _ _ _ => apply runs_write; [intros ? ?|intros ?]
  | |- runs _ (now _) _ _ _ => apply runs_now; intros ?
  | |- runs _ (new_uuid _) _ _ _ => apply runs_new_uuid; intros ?
  end.
Ltac runs_steps := repeat (runs_rule; cbn beta).

(** ** Without failures and interference *)

Section Quiet.
Context (e : env).

(** Nobody interferes and everything is answered. *)
Record quiet : Prop := Quiet {
  quiet_fates : reliable e;
  quiet_others n x : others e n x = x
}.
Context (Hq : quiet).

Lemma moved_quiet s : moved e s = Store (db s) (redis s) (S (ops s)).
Proof. unfold moved. by rewrite (quiet_others Hq). Qed.

Lemma bind_run {E A B} (m : Prog E A) (k : A → Prog E B) s :
  (m ≫= k) s = match m s with (Ok a, s1) => k a s1 | (Err x, s1) => (Err x, s1) end.
Proof. done. Qed.
Lemma query_quiet {E A} (f : tables → A) s :
  query (E := E) e f s = (Ok (Ok (f (db s))), Store (db s) (redis s) (S (ops s))).
Proof. unfold query, statement. by rewrite moved_quiet, (quiet_fates Hq). Qed.
Lemma first_quiet {E A} (f : tables → option A) s :
  first (E := E) e f s = (Ok (match f (db s) with Some a => Ok a | None => Err RecordNotFound end), Store (db s) (redis s) (S (ops s))).
Proof. unfold first. rewrite bind_run, query_quiet. cbn. by destruct (f (db s)). Qed.
Lemma write_quiet {E} (f : tables → option tables) s :
  write (E := E) e f s = match f (db s) with
                         | Some t => (Ok (Ok tt), Store t (redis s) (S (ops s)))
                         | None => (Ok (Err DbFailed), Store (db s) (redis s) (S (ops s)))
                         end.
Proof. unfold write, statement. rewrite moved_quiet, (quiet_fates Hq). cbn. by destruct (f (db s)). Qed.
Lemma or_fail_run {E A} (x : E) (m : Prog E (result db_error A)) s :
  or_fail x m s = match m s with
                  | (Ok (Ok a), s') => (Ok a, s') | (Ok (Err _), s') => (Err x, s') | (Err y, s') => (Err y, s')
                  end.
Proof. unfold or_fail. rewrite bind_run. by destruct (m s) as [[[]|] ?]. Qed.
Lemma check_run {E B} b (x : E) (k : unit → Prog E B) s :
  (check b x ≫= k) s = if b then k tt s else (Err x, s).
Proof. by destruct b. Qed.
Lemma now_run {E} s : now (E := E) e s = (Ok (clock e (ops s)), Store (db s) (redis s) (S (ops s))).
Proof. done. Qed.
Lemma new_uuid_run {E} s : new_uuid (E := E) e s = (Ok (fresh e (ops s)), Store (db s) (redis s) (S (ops s))).
Proof. done. Qed.
Lemma lookup_foldr_delete (keys : list string) (c : gmap string cached) k :
  foldr delete c keys !! k = if bool_decide (k ∈ keys) then None else c !! k.
Proof.
  induction keys as [|k' keys IH]; cbn; [done|]. destruct (decide (k' = k)) as [->|Hne].
  - rewrite lookup_delete_eq. by rewrite bool_decide_true by constructor.
  - rewrite lookup_delete_ne, IH by done. rewrite (bool_decide_ext (k ∈ keys) (k ∈ k' :: keys)); [done|].
    rewrite elem_of_cons. naive_solver.
Qed.
Lemma Delete_quiet {E} keys s :
  let s' := (Delete (E := E) e keys s).2 in
  db s' = db s ∧ (Delete (E := E) e keys s).1 = Ok (match redis s, keys with None, _ :: _ => Err ErrUnavailable | _, _ => Ok tt end)
  ∧ redis s' = (λ c, foldr delete c keys) <$> redis s.
Proof.
  destruct keys as [|k keys]; cbn; [by destruct (redis s)|]. unfold command. rewrite moved_quiet. cbn.
  destruct (redis s); [|done]. by rewrite (quiet_fates Hq).
Qed.

Lemma transaction_quiet {E A} (x : E) (body : env → Prog E A) Q X s :
  runs e (body (alone e)) (db s) Q X →
  match transaction e x body s with
  | (Ok a, s') => Q a (db s') ∧ redis s' = redis s
  | (Err y, s') => X y ∧ db s' = db s ∧ redis s' = redis s
  end.
Proof.
  intros Hb. destruct (transaction_runs e x body Q X s) as [H1 H2]; [by rewrite moved_quiet|].
  destruct (transaction e x body s) as [[a|y] s']; cbn in H2; rewrite ?moved_quiet in H1; rewrite moved_quiet in H2; [done|].
  destruct H1 as [[Hd Hx]|(_&Hr&_)]; [|by destruct Hr; apply (quiet_fates Hq)]. split_and!; [apply Hx, (quiet_fates Hq)|done|done].
Qed.
Lemma GetJSON_quiet {E A} (as_ : cached → option A) k s :
  let p := GetJSON (E := E) e as_ k s in
  db p.2 = db s ∧ match redis s with
                  | None => p.1 = Ok (Err ErrUnavailable) ∧ redis p.2 = None
                  | Some c => match c !! k with
                              | None => p.1 = Ok (Err RedisNil) ∧ redis p.2 = Some c
                              | Some v => match as_ v with
                                          | Some a => p.1 = Ok (Ok a) ∧ redis p.2 = Some c
                                          | None => p.1 = Ok (Err RedisFailed) ∧ redis p.2 = Some (delete k c)
                                          end
                              end
                  end.
Proof.
  cbn. unfold GetJSON, Get, Delete, command, mbind, Prog_bind. rewrite moved_quiet. cbn.
  destruct (redis s) as [c|] eqn:Hr; cbn; [|done]. rewrite (quiet_fates Hq). cbn.
  destruct (c !! k) as [v|]; cbn; [|done]. destruct (as_ v); cbn; [done|].
  rewrite moved_quiet. cbn. rewrite (quiet_fates Hq). done.
Qed.
Lemma SetJSON_quiet {E} k v s :
  let p := SetJSON (E := E) e k v s in
  db p.2 = db s ∧ redis p.2 = (<[k := v]> : gmap string cached → _) <$> redis s ∧ ∃ r, p.1 = Ok r.
Proof.
  cbn. unfold SetJSON, SetEX, command. rewrite moved_quiet. cbn. destruct (redis s); cbn; [|by eauto].
  rewrite (quiet_fates Hq). cbn. by eauto.
Qed.

End Quiet.

(** ** Codes *)

(** What a consumption does alone: the code that was set, once. *)
Lemma ConsumeAuthCode_alone {E} e telephone code s c : quiet e → redis s = Some c →
  let p := ConsumeAuthCode (E := E) e telephone code s in
  p.1 = Ok (Ok (match c !! AuthCodeKey telephone with Some (CText t) => bool_decide (t = code) | _ => false end))
  ∧ (p.1 = Ok (Ok true) → redis p.2 = Some (delete (AuthCodeKey telephone) c)).
Proof.
  intros Hq Hs. cbn. unfold ConsumeAuthCode, GetAuthCode, Get, Delete, command, mbind, Prog_bind. rewrite (moved_quiet _ Hq). cbn [redis]. rewrite Hs.
  rewrite (quiet_fates _ Hq). cbn. destruct (c !! AuthCodeKey telephone) as [[| |t]|]; cbn; try done.
  destruct (bool_decide (t = code)); cbn; [|done]. rewrite (moved_quiet _ Hq). cbn. by rewrite (quiet_fates _ Hq).
Qed.
Lemma ConsumeAuthCode_once {E} e telephone code s c : quiet e → redis s = Some c →
  (ConsumeAuthCode (E := E) e telephone code s).1 = Ok (Ok true) →
  (ConsumeAuthCode (E := E) e telephone code (ConsumeAuthCode (E := E) e telephone code s).2).1 = Ok (Ok false).
Proof.
  intros Hq Hs Ht. destruct (ConsumeAuthCode_alone (E := E) e telephone code s c Hq Hs) as [_ Hr]. specialize (Hr Ht).
  destruct (ConsumeAuthCode_alone (E := E) e telephone code _ _ Hq Hr) as [-> _]. by rewrite lookup_delete_eq.
Qed.
(** The code is read and deleted by two commands: when another request consumes it between
    them, both are told that it was theirs. *)
Example code_consumed_twice :
  let code := <[AuthCodeKey "13900000000" := CText "1234"]> ∅ in
  let other := MkEnv (λ _, Answered) (λ _ x, x) Z.of_nat (λ _, "") in
  let meanwhile (n : nat) (x : tables * option (gmap string cached)) :=
    if bool_decide (n = 1%nat)
    then (x.1, redis (ConsumeAuthCode (E := unit) other "13900000000" "1234" (Store x.1 x.2 0)).2) else x in
  let e := MkEnv (λ _, Answered) meanwhile Z.of_nat (λ _, "") in
  ∀ t, (ConsumeAuthCode (E := unit) e "13900000000" "1234" (Store t (Some code) 0)).1 = Ok (Ok true)
    ∧ (ConsumeAuthCode (E := unit) other "13900000000" "1234" (Store t (Some code) 0)).1 = Ok (Ok true).
Proof. intros code other meanwhile e t. split; reflexivity. Qed.
