(* ===== verification/Directory.v ===== *)
(** * Groups, as the group service means them

    A directory maps group ids to an owner, the members in the order they joined, and a mode;
    [d_pending] are the applications that wait for approval, with their multiplicity: requests
    that do not see each other's application make more than one.  The operations are what a
    user is promised; [GroupProofs] shows that the tables and the code implement them. *)
From stdpp Require Import gmultiset.
From S2P Require Import Prelude GoStd Tables GormService.
Local Open Scope Z_scope.

Record group : Type := Grp { gr_name : string; gr_owner : string; gr_members : list string; gr_mode : Z }.
Record directory : Type := Dir { d_groups : gmap string group; d_pending : gmultiset (string * string) }.

Definition add_to (u : string) (G : group) : group := Grp (gr_name G) (gr_owner G) (gr_members G ++ [u])%list (gr_mode G).
Definition without (u : string) (l : list string) : list string := List.filter (λ id, negb (bool_decide (id = u))) l.
Definition drop_from (u : string) (G : group) : group := Grp (gr_name G) (gr_owner G) (without u (gr_members G)) (gr_mode G).

(** What each operation answers, [None] for success, and the directory it leaves. *)
Definition dir_create (g name owner : string) (mode : Z) (D : directory) : directory :=
  Dir (<[g := Grp name owner [owner] mode]> (d_groups D)) (d_pending D).
(** [seen]: whether the request was shown an application of the user that waits. *)
Definition dir_join (seen : bool) (u g : string) (D : directory) : option gorm_error * directory :=
  match d_groups D !! g with
  | None => (Some ErrGroupNotFound, D)
  | Some G =>
    if bool_decide (u ∈ gr_members G) then (None, D)
    else if gr_mode G =? model.GroupAddModeForbidden then (Some ErrGroupJoinForbidden, D)
    else if gr_mode G =? model.GroupAddModeApprove
    then (Some ErrGroupJoinPending, if seen then D else Dir (d_groups D) ({[+ (u, g) +]} ⊎ d_pending D))
    else (None, Dir (<[g := add_to u G]> (d_groups D)) (d_pending D))
  end.
Definition dir_leave (u g : string) (D : directory) : option gorm_error * directory :=
  match d_groups D !! g with
  | None => (Some ErrGroupNotFound, D)
  | Some G =>
    if bool_decide (gr_owner G = u) then (Some ErrGroupOwnerCannotLeave, D)
    else if bool_decide (u ∈ gr_members G)
    then (None, Dir (<[g := drop_from u G]> (d_groups D)) (d_pending D))
    else (None, D)
  end.
Definition dir_approve (op u g : string) (D : directory) : option gorm_error * directory :=
  match d_groups D !! g with
  | None => (Some ErrGroupNotFound, D)
  | Some G =>
    if negb (bool_decide (op = gr_owner G)) then (Some ErrNotGroupAdmin, D)
    else if negb (bool_decide ((u, g) ∈ d_pending D)) then (Some ErrGroupJoinPending, D)
    else if bool_decide (u ∈ gr_members G) then (Some ErrRaw, D)
    else (None, Dir (<[g := add_to u G]> (d_groups D)) (d_pending D ∖ {[+ (u, g) +]}))
  end.

Definition member (D : directory) (u g : string) : Prop := ∃ G, d_groups D !! g = Some G ∧ u ∈ gr_members G.

(** Who may make which step: existing users join and create, the owner approves. *)
Inductive dstep (users : string → Prop) (D : directory) : directory → Prop :=
| step_create g name owner mode :
    users owner → name ≠ "" → d_groups D !! g = None →
    model.GroupAddModeDirect ≤ mode ≤ model.GroupAddModeForbidden →
    dstep users D (dir_create g name owner mode D)
| step_join seen u g : users u → dstep users D (dir_join seen u g D).2
| step_leave u g : dstep users D (dir_leave u g D).2
| step_approve op u g : dstep users D (dir_approve op u g D).2.

(** ** What every directory satisfies *)

(** [valid] are well-formed user ids. *)
Record group_ok (G : group) : Prop := GroupOk {
  group_nodup : NoDup (gr_members G);
  group_owner : gr_owner G ∈ gr_members G;
  group_mode : model.GroupAddModeDirect ≤ gr_mode G ≤ model.GroupAddModeForbidden
}.
Record directory_ok (users : string → Prop) (D : directory) : Prop := DirOk {
  dir_group g G : d_groups D !! g = Some G → group_ok G;
  dir_member u g : member D u g → users u;
  dir_pending u g : (u, g) ∈ d_pending D → users u
    ∧ ∃ G, d_groups D !! g = Some G ∧ gr_mode G = model.GroupAddModeApprove
}.

Lemma member_insert D u g g' G P :
  member (Dir (<[g := G]> (d_groups D)) P) u g' ↔ (g' = g ∧ u ∈ gr_members G) ∨ (g' ≠ g ∧ member D u g').
Proof.
  unfold member. cbn. destruct (decide (g' = g)) as [->|Hne].
  - rewrite lookup_insert_eq. naive_solver.
  - rewrite lookup_insert_ne by done. naive_solver.
Qed.
Lemma elem_of_without u v l : v ∈ without u l ↔ v ∈ l ∧ v ≠ u.
Proof.
  unfold without. by rewrite !list_elem_of_In, List.filter_In, negb_true_iff, bool_decide_eq_false.
Qed.
Lemma NoDup_without u l : NoDup l → NoDup (without u l).
Proof.
  unfold without. induction 1 as [|x l Hx Hl IH]; cbn; [constructor|].
  case_bool_decide; cbn; [done|]. constructor; [|done]. contradict Hx. by apply elem_of_without in Hx as [? _].
Qed.
Lemma add_to_ok u G : group_ok G → u ∉ gr_members G → group_ok (add_to u G).
Proof.
  intros [Hn Ho Hm] Hu. constructor; cbn; [|by apply elem_of_app; left|done].
  apply NoDup_app. split_and!; [done| |by apply NoDup_singleton]. intros x Hx ->%list_elem_of_singleton. done.
Qed.
Lemma drop_from_ok u G : group_ok G → gr_owner G ≠ u → group_ok (drop_from u G).
Proof. intros [Hn Ho Hm] Hu. constructor; cbn; [by apply NoDup_without|by apply elem_of_without|done]. Qed.

(** Changing one group keeps a directory well-formed. *)
Lemma directory_ok_insert users D g G P :
  directory_ok users D → group_ok G → (∀ u, u ∈ gr_members G → users u) →
  (∀ u g', (u, g') ∈ P → (u, g') ∈ d_pending D ∧ (g' = g → gr_mode G = model.GroupAddModeApprove)) →
  directory_ok users (Dir (<[g := G]> (d_groups D)) P).
Proof.
  intros [Hg Hm Hp] HG Hu HP. constructor; cbn.
  - intros g' G'. rewrite lookup_insert_Some. naive_solver.
  - intros u g' [[_ ?]|[_ ?]]%member_insert; eauto.
  - intros u g' [Hin Hmode]%HP. apply Hp in Hin as (?&G'&?&?). split; [done|].
    destruct (decide (g' = g)) as [->|?]; [rewrite lookup_insert_eq|rewrite lookup_insert_ne by done]; naive_solver.
Qed.
Lemma dir_create_ok users D g name owner mode :
  directory_ok users D → users owner → d_groups D !! g = None →
  model.GroupAddModeDirect ≤ mode ≤ model.GroupAddModeForbidden →
  directory_ok users (dir_create g name owner mode D).
Proof.
  intros Hok Ho Hnew Hmode. apply directory_ok_insert; [done| | |]; cbn.
  - constructor; cbn; [apply NoDup_singleton|by apply list_elem_of_singleton|done].
  - by intros u ->%list_elem_of_singleton.
  - intros u g' Hin. split; [done|]. intros ->. apply Hok in Hin as (_&G&?&_). congruence.
Qed.
(** A change of the members of a group, with no new application. *)
Lemma change_members_ok users D g G G' P :
  directory_ok users D → d_groups D !! g = Some G → group_ok G' → gr_mode G' = gr_mode G →
  (∀ v, v ∈ gr_members G' → users v) → P ⊆ d_pending D →
  directory_ok users (Dir (<[g := G']> (d_groups D)) P).
Proof.
  intros Hok HG HG' Hmode Hu HP. apply directory_ok_insert; [done..|]. intros v g' Hv.
  pose proof (gmultiset_elem_of_subseteq _ _ _ Hv HP) as Hd. split; [done|]. intros ->.
  apply (dir_pending _ _ Hok) in Hd as (_&G1&?&?). congruence.
Qed.
(** A user joins who is no member yet. *)
Lemma add_member_ok users D u g G P :
  directory_ok users D → users u → d_groups D !! g = Some G → u ∉ gr_members G →
  P ⊆ d_pending D → directory_ok users (Dir (<[g := add_to u G]> (d_groups D)) P).
Proof.
  intros Hok Hu HG Hnot HP. pose proof Hok as [Hg Hm Hp].
  apply (change_members_ok users D g G); [done|done|apply add_to_ok; [by eapply Hg|done]|done| |done].
  cbn. intros v [Hv| ->%list_elem_of_singleton]%elem_of_app; [|done]. eapply Hm. by exists G.
Qed.
Lemma dir_join_ok users D seen u g : directory_ok users D → users u → directory_ok users (dir_join seen u g D).2.
Proof.
  intros Hok Hu. pose proof Hok as [Hg Hm Hp].
  unfold dir_join. destruct (d_groups D !! g) as [G|] eqn:HG; [|done]. case_bool_decide as Hin; [done|].
  destruct (_ =? _); [done|]. destruct (Z.eqb_spec (gr_mode G) model.GroupAddModeApprove) as [Hmode|Hmode].
  - destruct seen; [done|]. constructor; cbn [d_groups d_pending snd]; [done|done|].
    intros u' g' [H|H]%gmultiset_elem_of_disj_union; [|by apply Hp].
    apply gmultiset_elem_of_singleton in H as [= -> ->]. split; [done|by exists G].
  - by apply add_member_ok.
Qed.
Lemma dir_leave_ok users D u g : directory_ok users D → directory_ok users (dir_leave u g D).2.
Proof.
  intros Hok. pose proof Hok as [Hg Hm Hp]. unfold dir_leave. destruct (d_groups D !! g) as [G|] eqn:HG; [|done].
  case_bool_decide as Ho; [done|]. case_bool_decide; [|done].
  apply (change_members_ok users D g G); [done|done|apply drop_from_ok; [by eapply Hg|done]|done| |done].
  cbn. intros v [Hv _]%elem_of_without. eapply Hm. by exists G.
Qed.
Lemma dir_approve_ok users D op u g : directory_ok users D → directory_ok users (dir_approve op u g D).2.
Proof.
  intros Hok. pose proof Hok as [Hg Hm Hp]. unfold dir_approve. destruct (d_groups D !! g) as [G|] eqn:HG; [|done].
  destruct (negb _); [done|]. destruct (negb _) eqn:Hin; [done|]. apply negb_false_iff, bool_decide_eq_true in Hin.
  case_bool_decide; [done|]. cbn. apply Hp in Hin as (Hu&_). apply add_member_ok; [done..|]. multiset_solver.
Qed.
Lemma dstep_ok users D D' : dstep users D D' → directory_ok users D → directory_ok users D'.
Proof.
  intros [] Hok; auto using dir_create_ok, dir_join_ok, dir_leave_ok, dir_approve_ok.
Qed.

(** ** Who is a member after an operation that succeeded *)

Lemma dir_join_member seen u g D : (dir_join seen u g D).1 = None → member (dir_join seen u g D).2 u g.
Proof.
  unfold dir_join. destruct (d_groups D !! g) as [G|] eqn:HG; [|done]. case_bool_decide; [by exists G|].
  destruct (_ =? _); [done|]. destruct (_ =? _); [done|]. intros _. apply member_insert. left. split; [done|].
  apply elem_of_app. right. by apply list_elem_of_singleton.
Qed.
Lemma dir_approve_member op u g D : (dir_approve op u g D).1 = None → member (dir_approve op u g D).2 u g.
Proof.
  unfold dir_approve. destruct (d_groups D !! g) as [G|] eqn:HG; [|done]. destruct (negb _); [done|]. destruct (negb _); [done|].
  case_bool_decide; [done|]. intros _. apply member_insert. left. split; [done|].
  apply elem_of_app. right. by apply list_elem_of_singleton.
Qed.
Lemma dir_leave_no_member u g D : (dir_leave u g D).1 = None → ¬ member (dir_leave u g D).2 u g.
Proof.
  unfold dir_leave. destruct (d_groups D !! g) as [G|] eqn:HG; [|done]. case_bool_decide; [done|]. case_bool_decide as Hin; intros _.
  - cbn [snd]. rewrite member_insert. intros [[_ Hx]|[? _]]; [|done]. by apply elem_of_without in Hx as [_ ?].
  - intros (G'&HG'&?). cbn in HG'. congruence.
Qed.
