(* ===== verification/GroupProofs.v ===== *)
(** * The group service implements the directory

    [represents t D]: the tables hold the directory [D], each membership with its contact and
    its session row.  Every request, whatever fails and whoever interferes, moves the tables
    along steps of the directory; without failures it answers what the directory says. *)
From stdpp Require Import gmultiset.
From S2P Require Import Prelude GoStd GoTime External GoText Json JsonPrint JsonRound MessageStore MessageStoreProofs.
From S2P Require Import Tables TablesProofs GormService Directory.
Local Open Scope Z_scope.

Section Represents.
Context `{External}.

Definition known (t : tables) (u : string) : Prop := u ∈ (model.UserUUID <$> user_info t).
#[export] Instance known_dec t u : Decision (known t u).
Proof. unfold known. apply _. Defined.
Definition row (g : string) (G : group) : model.GroupInfo :=
  model.MkGroupInfo g (gr_name G) (gr_owner G) (marshalIDs (gr_members G)) (marshalIDs []) (slen (gr_members G))
    (gr_mode G) model.GroupStatusNormal.
(** How many applications of a user for a group wait. *)
Definition waiting (u g : string) (l : list model.ContactApply) : nat := length (List.filter (pending_for u g) l).
Definition applies (l : list model.ContactApply) (P : gmultiset (string * string)) : Prop :=
  ∀ u g, waiting u g l = multiplicity (u, g) P.
Record represents (t : tables) (D : directory) : Prop := Represents {
  rep_ok : directory_ok (known t) D;
  rep_users u : known t u → validID u "U" = true;
  rep_group g : find_group g t = row g <$> d_groups D !! g;
  rep_ids g G : d_groups D !! g = Some G → validID g "G" = true;
  rep_once : NoDup (model.GroupUUID <$> group_info t);
  rep_contact u g : member D u g → group_contact u g ∈ user_contact t;
  rep_contacts c : c ∈ user_contact t → model.ContactType c = model.ContactTypeGroup →
    c = group_contact (model.ContactUser c) (model.ContactID c) ∧ member D (model.ContactUser c) (model.ContactID c);
  rep_session u g : member D u g → ∃ s, s ∈ session t ∧ model.SessionSendId s = u ∧ model.SessionReceiveId s = g
    ∧ model.SessionType s = model.SessionTypeGroup;
  rep_sessions s : s ∈ session t →
    (model.SessionType s = model.SessionTypeGroup ∧ member D (model.SessionSendId s) (model.SessionReceiveId s))
    ∨ (model.SessionType s = model.SessionTypeUser ∧ head_is (model.SessionReceiveId s) "G" = false
       ∧ String.leb (model.SessionSendId s) (model.SessionReceiveId s) = true);
  rep_pairs : NoDup ((λ s, (model.SessionSendId s, model.SessionReceiveId s)) <$> session t);
  rep_applies : applies (contact_apply t) (d_pending D)
}.

(** ** Rows *)

Lemma find_group_update ids g0 g t t' : update_members ids g0 t = Some t' →
  find_group g t' = (if bool_decide (g = model.GroupUUID g0) then set_group_members ids <$> find_group g t else find_group g t)
  ∧ model.GroupUUID <$> group_info t' = model.GroupUUID <$> group_info t.
Proof.
  intros [= <-]. unfold find_group. cbn. induction (group_info t) as [|r l [IH1 IH2]]; cbn; [by case_bool_decide|].
  rewrite IH2. split; [|by destruct (bool_decide (model.GroupUUID r = model.GroupUUID g0))].
  destruct (decide (model.GroupUUID r = model.GroupUUID g0)) as [Hr|Hr];
    [rewrite (bool_decide_true (model.GroupUUID r = model.GroupUUID g0)) by done|rewrite (bool_decide_false (model.GroupUUID r = model.GroupUUID g0)) by done]; cbn;
    destruct (decide (model.GroupUUID r = g)) as [H1|H1];
    rewrite ?(bool_decide_true (model.GroupUUID r = g)), ?(bool_decide_false (model.GroupUUID r = g)) by done; cbn.
  - by rewrite bool_decide_true by congruence.
  - by rewrite IH1.
  - by rewrite bool_decide_false by congruence.
  - by rewrite IH1.
Qed.
Lemma find_group_uuid g t r : find_group g t = Some r → model.GroupUUID r = g ∧ r ∈ group_info t.
Proof. intros [Hin Hg]%List.find_some. apply bool_decide_eq_true in Hg. by apply list_elem_of_In in Hin. Qed.

(** ** Applications *)

Lemma pending_for_spec u g a : pending_for u g a = true ↔
  model.ApplicantID a = u ∧ model.ApplyContact a = g ∧ model.ApplyType a = model.ContactTypeGroup
  ∧ model.ApplyStatus a = model.ContactApplyPending.
Proof. unfold pending_for. rewrite !andb_true_iff, !bool_decide_eq_true, !Z.eqb_eq. tauto. Qed.
Lemma applies_add l P u g : applies l P →
  applies (l ++ [model.MkContactApply u g model.ContactTypeGroup model.ContactApplyPending]) ({[+ (u, g) +]} ⊎ P).
Proof.
  intros Hl u' g'. unfold waiting. rewrite List.filter_app, length_app. fold (waiting u' g' l).
  rewrite Hl, multiplicity_disj_union, (Nat.add_comm (multiplicity _ {[+ _ +]})). f_equal.
  cbn [List.filter]. unfold pending_for. cbn -[multiplicity]. rewrite !andb_true_r.
  destruct (decide ((u', g') = (u, g))) as [[= -> ->]|Hne].
  - rewrite !bool_decide_true by done. by rewrite multiplicity_singleton_eq.
  - rewrite multiplicity_singleton_ne by done.
    destruct (decide (u = u')) as [->|?]; [|by rewrite bool_decide_false].
    destruct (decide (g = g')) as [->|?]; [done|]. by rewrite (bool_decide_false (g = g')), andb_false_r.
Qed.
Lemma waiting_agree l u g u' g' :
  waiting u' g' (update_first (pending_for u g) agree l)
  = if bool_decide ((u', g') = (u, g)) then pred (waiting u' g' l) else waiting u' g' l.
Proof.
  unfold waiting. induction l as [|a l IH]; cbn; [by destruct (bool_decide _)|]. destruct (pending_for u g a) eqn:Ha; cbn.
  - pose proof (proj1 (pending_for_spec _ _ _) Ha) as (Hu&Hg&_).
    assert (pending_for u' g' (agree a) = false) as ->.
    { destruct (pending_for u' g' (agree a)) eqn:Hx; [|done]. apply pending_for_spec in Hx. naive_solver. }
    destruct (decide ((u', g') = (u, g))) as [[= -> ->]|Hne].
    + by rewrite bool_decide_true, Ha by done.
    + rewrite bool_decide_false by done. destruct (pending_for u' g' a) eqn:Hx; [|done].
      apply pending_for_spec in Hx. naive_solver.
  - destruct (pending_for u' g' a) eqn:Hx; cbn; rewrite IH; [|done].
    destruct (decide ((u', g') = (u, g))) as [[= -> ->]|Hne]; [congruence|]. by rewrite bool_decide_false.
Qed.
Lemma applies_agree l P u g :
  applies l P → applies (update_first (pending_for u g) agree l) (P ∖ {[+ (u, g) +]}).
Proof.
  intros Hl u' g'. rewrite waiting_agree, multiplicity_difference, <-Hl. destruct (decide ((u', g') = (u, g))) as [[= -> ->]|Hne].
  - rewrite bool_decide_true, multiplicity_singleton_eq by done. lia.
  - rewrite bool_decide_false, multiplicity_singleton_ne by done. lia.
Qed.
Lemma find_waiting u g l : find (pending_for u g) l = None ↔ waiting u g l = 0%nat.
Proof. unfold waiting. induction l as [|a l IH]; cbn; [done|]. by destruct (pending_for u g a). Qed.

(** ** A new member, and a member that leaves *)

(** The rows of a member of group [g]. *)
Definition member_session (u g : string) (s : model.Session) : Prop :=
  model.SessionSendId s = u ∧ model.SessionReceiveId s = g ∧ model.SessionType s = model.SessionTypeGroup.
#[local] Abbreviation pair := (λ s, (model.SessionSendId s, model.SessionReceiveId s)).

Lemma head_group_user g : validID g "G" = true → head_is g "G" = true.
Proof. unfold validID. rewrite !andb_true_iff. tauto. Qed.
(** No session has the pair of a user that is no member. *)
Lemma no_session t D u g s : represents t D → ¬ member D u g → validID g "G" = true → s ∈ session t → pair s ≠ (u, g).
Proof.
  intros HR Hn Hg Hs [= <- <-]. destruct (rep_sessions _ _ HR s Hs) as [[_ ?]|(_&Hx&_)]; [done|].
  by rewrite head_group_user in Hx.
Qed.
Lemma no_contact t D u g : represents t D → ¬ member D u g →
  ∀ c, c ∈ user_contact t → (model.ContactUser c, model.ContactID c, model.ContactType c) ≠ (u, g, model.ContactTypeGroup).
Proof. intros HR Hn c Hc [= <- <- Ht]. by destruct (rep_contacts _ _ HR c Hc Ht) as [_ ?]. Qed.

(** [D'] has the memberships of [D] and those in [new]. *)
Lemma represents_add t D u g s ap D' gs :
  represents t D → directory_ok (known t) D' → validID g "G" = true →
  ¬ member D u g → member_session u g s →
  (∀ v g', member D' v g' ↔ member D v g' ∨ (v = u ∧ g' = g)) →
  (∀ g', find (λ r, bool_decide (model.GroupUUID r = g')) gs = row g' <$> d_groups D' !! g') →
  (∀ g' G, d_groups D' !! g' = Some G → validID g' "G" = true) →
  NoDup (model.GroupUUID <$> gs) → applies ap (d_pending D') →
  represents (MkTables (user_info t) (session t ++ [s]) (messages t) gs (user_contact t ++ [group_contact u g]) ap (access t)) D'.
Proof.
  intros HR Hok Hg Hn (Hs1&Hs2&Hs3) Hm Hgs Hids Hnd Hap. constructor; cbn; try done.
  - intros v. apply (rep_users _ _ HR).
  - intros v g' [Hv|[-> ->]]%Hm; apply elem_of_app; [left|right; by apply list_elem_of_singleton].
    by apply (rep_contact _ _ HR).
  - intros c [Hc| ->%list_elem_of_singleton]%elem_of_app Ht; [|split; [done|apply Hm; by right]].
    destruct (rep_contacts _ _ HR c Hc Ht) as [??]. split; [done|]. apply Hm. by left.
  - intros v g' [Hv|[-> ->]]%Hm.
    + destruct (rep_session _ _ HR _ _ Hv) as (s'&?&?). exists s'. split; [|done]. apply elem_of_app. by left.
    + exists s. split; [|done]. apply elem_of_app. right. by apply list_elem_of_singleton.
  - intros s' [Hs'| ->%list_elem_of_singleton]%elem_of_app.
    + destruct (rep_sessions _ _ HR s' Hs') as [[??]|?]; [left; split; [done|]; apply Hm; by left|by right].
    + left. split; [done|]. apply Hm. right. by rewrite Hs1, Hs2.
  - rewrite fmap_app. cbn. rewrite Hs1, Hs2. apply NoDup_app. split_and!; [by apply (rep_pairs _ _ HR)| |by apply NoDup_singleton].
    intros p (s'&->&Hs')%list_elem_of_fmap Hp%list_elem_of_singleton. by eapply no_session.
Qed.

(** Only the applications change. *)
Lemma represents_apply t D ap P :
  represents t D → directory_ok (known t) (Dir (d_groups D) P) → applies ap P →
  represents (set_contact_apply ap t) (Dir (d_groups D) P).
Proof. intros [] ? ?. by constructor. Qed.

(** [D'] has the memberships of [D] but that of [u] in [g]. *)
Lemma represents_drop t D u g D' gs :
  represents t D → directory_ok (known t) D' →
  (∀ v g', member D' v g' ↔ member D v g' ∧ ¬ (v = u ∧ g' = g)) →
  (∀ g', find (λ r, bool_decide (model.GroupUUID r = g')) gs = row g' <$> d_groups D' !! g') →
  (∀ g' G, d_groups D' !! g' = Some G → validID g' "G" = true) →
  NoDup (model.GroupUUID <$> gs) → d_pending D' = d_pending D →
  ∀ t1 t2 t3, t1 = set_group_info gs t → delete_contact u g t1 = Some t2 → delete_session u g t2 = Some t3 →
  represents t3 D'.
Proof.
  intros HR Hok Hm Hgs Hids Hnd Hp t1 t2 t3 -> [= <-] [= <-]. constructor; cbn; try done.
  - intros v. apply (rep_users _ _ HR).
  - intros v g' [Hv Hne]%Hm. apply list_elem_of_In, List.filter_In. split; [by apply list_elem_of_In, (rep_contact _ _ HR)|].
    cbn. rewrite andb_true_r. apply negb_true_iff, andb_false_iff. rewrite !bool_decide_eq_false. 
    destruct (decide (v = u)); [right|by left]. naive_solver.
  - intros c Hc Ht. apply list_elem_of_In, List.filter_In in Hc as [Hc%list_elem_of_In Hne].
    destruct (rep_contacts _ _ HR c Hc Ht) as [??]. split; [done|]. apply Hm. split; [done|]. intros [Hu Hg].
    by rewrite Hu, Hg, Ht, !bool_decide_true in Hne.
  - intros v g' [Hv Hne]%Hm. destruct (rep_session _ _ HR _ _ Hv) as (s&Hs&Hu&Hg&Ht). exists s. split; [|done].
    apply list_elem_of_In, List.filter_In. split; [by apply list_elem_of_In|]. rewrite Hu, Hg, Ht. cbn. rewrite andb_true_r.
    apply negb_true_iff, andb_false_iff. rewrite !bool_decide_eq_false. destruct (decide (v = u)); [right|by left]. naive_solver.
  - intros s Hs. apply list_elem_of_In, List.filter_In in Hs as [Hs%list_elem_of_In Hne].
    destruct (rep_sessions _ _ HR s Hs) as [[Ht Hms]|?]; [left|by right]. split; [done|]. apply Hm. split; [done|].
    intros [Hu Hg]. by rewrite Hu, Hg, Ht, !bool_decide_true in Hne.
  - eapply sublist_NoDup; [apply (rep_pairs _ _ HR)|]. apply fmap_sublist, filter_sublist.
  - rewrite Hp. apply (rep_applies _ _ HR).
Qed.
End Represents.

Section Bodies.
Context `{External, !ExternalLaws _} (e : env).

(** The random ids are new. *)
Definition fresh_sessions (t : tables) : Prop := ∀ n s, s ∈ session t → model.SessionUUID s ≠ "S" +:+ fresh e n.

Lemma decodeIDs_marshal ids : Forall (λ u, validID u "U" = true) ids → decodeIDs (marshalIDs ids) = Ok ids.
Proof.
  intros Hv. pose proof (decode_ids_print ids) as Hd. unfold decode_ids in Hd. unfold decodeIDs, marshalIDs.
  rewrite Hd; [done|]. eapply Forall_impl; [exact Hv|]. intros u. by apply stored_id_plain.
Qed.
Lemma members_valid t D g G : represents t D → d_groups D !! g = Some G → Forall (λ u, validID u "U" = true) (gr_members G).
Proof.
  intros HR HG. apply Forall_forall. intros u Hu. apply (rep_users _ _ HR). eapply (dir_member _ _ (rep_ok _ _ HR)). by exists G.
Qed.
Lemma containsID_spec ids u : containsID ids u = bool_decide (u ∈ ids).
Proof.
  unfold containsID. apply Bool.eq_iff_eq_true. rewrite List.existsb_exists, bool_decide_eq_true. split.
  - intros (v&Hv%list_elem_of_In&Hb). apply bool_decide_eq_true in Hb. by subst.
  - intros Hu%list_elem_of_In. exists u. by rewrite bool_decide_true.
Qed.
Lemma known_count t u :
  length (List.filter (λ r, bool_decide (model.UserUUID r = u)) (user_info t)) = 0%nat ↔ ¬ known t u.
Proof.
  unfold known. induction (user_info t) as [|r l IH]; cbn; [by split; [intros _ ?%elem_of_nil|]|].
  rewrite elem_of_cons. case_bool_decide; cbn; naive_solver.
Qed.
Lemma find_group_row t D g r : represents t D → find_group g t = Some r →
  ∃ G, d_groups D !! g = Some G ∧ r = row g G.
Proof. intros HR. rewrite (rep_group _ _ HR). destruct (d_groups D !! g) as [G|]; [|done]. intros [= <-]. by eexists. Qed.
Lemma find_group_none t D g : represents t D → find_group g t = None → d_groups D !! g = None.
Proof. intros HR. rewrite (rep_group _ _ HR). by destruct (d_groups D !! g). Qed.

(** The groups after the members of one of them were replaced. *)
Lemma update_members_rows t D g G ids G' t' :
  represents t D → d_groups D !! g = Some G → update_members ids (row g G) t = Some t' →
  gr_members G' = ids → gr_name G' = gr_name G → gr_owner G' = gr_owner G → gr_mode G' = gr_mode G →
  (∀ g', find_group g' t' = row g' <$> <[g := G']> (d_groups D) !! g')
  ∧ (∀ g' G1, <[g := G']> (d_groups D) !! g' = Some G1 → validID g' "G" = true)
  ∧ NoDup (model.GroupUUID <$> group_info t').
Proof.
  intros HR HG Hu Hm Hn Ho Hmode. split; [|split].
  - intros g'. destruct (find_group_update _ _ g' _ _ Hu) as [-> _]. cbn. rewrite (rep_group _ _ HR).
    destruct (decide (g' = g)) as [->|Hne].
    + rewrite bool_decide_true, lookup_insert_eq, HG by done. cbn. unfold set_group_members, row. cbn. by rewrite Hn, Ho, Hmode, <-Hm.
    + by rewrite bool_decide_false, lookup_insert_ne by done.
  - intros g' G1 [[-> _]|[_ HG1]]%lookup_insert_Some; by eapply (rep_ids _ _ HR).
  - destruct (find_group_update _ _ g _ _ Hu) as [_ ->]. apply (rep_once _ _ HR).
Qed.

Lemma insert_contact_taken u g t t' : group_contact u g ∈ user_contact t → insert_contact (group_contact u g) t = Some t' → False.
Proof.
  intros Hin%list_elem_of_In. unfold insert_contact. destruct (existsb _ _) eqn:Hx; [done|]. intros _.
  apply not_true_iff_false in Hx. apply Hx, List.existsb_exists. exists (group_contact u g).
  split; [done|]. by rewrite !bool_decide_true.
Qed.
(** The rows of a new member are written unless they are there or an id is taken. *)
Lemma add_rows_runs t u g x (Q : unit → tables → Prop) (X : gorm_error → Prop) :
  (∀ c, c ∈ user_contact t → (model.ContactUser c, model.ContactID c, model.ContactType c) ≠ (u, g, model.ContactTypeGroup)) →
  (∀ s, s ∈ session t → (model.SessionSendId s, model.SessionReceiveId s) ≠ (u, g)) →
  (∀ s, member_session u g s →
     Q tt (MkTables (user_info t) (session t ++ [s]) (messages t) (group_info t) (user_contact t ++ [group_contact u g])
             (contact_apply t) (access t))) →
  (¬ fresh_sessions t → X x) →
  runs e (add_member_rows (alone e) u g x) t Q X.
Proof.
  intros Hc Hs HQ HX. unfold add_member_rows.
  assert (insert_contact (group_contact u g) t = Some (set_user_contact (user_contact t ++ [group_contact u g]) t)) as Hic.
  { unfold insert_contact. destruct (existsb _ _) eqn:Hx; [|done]. apply List.existsb_exists in Hx as (c&Hin%list_elem_of_In&Hb).
    rewrite !andb_true_iff, !bool_decide_eq_true in Hb. destruct Hb as [[Hu Hg] Ht]. destruct (Hc c Hin). cbn in *. congruence. }
  runs_steps; simplify_eq.
  - rename select (insert_session _ _ = Some _) into Hi. unfold insert_session in Hi.
    destruct (existsb _ _); [done|]. injection Hi as <-. by apply HQ.
  - rename select (insert_session _ _ = None) into Hi. unfold insert_session in Hi. apply HX. intros Hf.
    destruct (existsb _ _) eqn:Hx; [|done]. apply List.existsb_exists in Hx as (s&Hin%list_elem_of_In&Hb).
    apply orb_true_iff in Hb as [Hb|Hb]; cbn in *; rewrite ?andb_true_iff, ?bool_decide_eq_true in Hb; [by eapply Hf|].
    destruct (Hs s Hin). naive_solver congruence.
Qed.

(** ** The transactions *)

(** The error of a request when nothing fails: the refusal of the directory, or a random id
    that is taken. *)
Definition refused (t : tables) (r : option gorm_error) (x : gorm_error) : Prop :=
  r = Some x ∨ (x = ErrRaw ∧ ¬ fresh_sessions t).

Lemma add_to_member D u g G P v g' : d_groups D !! g = Some G →
  member (Dir (<[g := add_to u G]> (d_groups D)) P) v g' ↔ member D v g' ∨ (v = u ∧ g' = g).
Proof.
  intros HG. rewrite member_insert. unfold add_to. cbn. rewrite elem_of_app, list_elem_of_singleton.
  destruct (decide (g' = g)) as [->|Hne]; [|naive_solver].
  assert (member D v g ↔ v ∈ gr_members G) as -> by (split; [intros (?&?&?); congruence|by exists G]). naive_solver.
Qed.

(** Writing the rows of a new member of [g], in a directory that has its group. *)
Lemma add_member_runs t D u g G ap P t' t1 x (X : gorm_error → Prop) :
  represents t D → d_groups D !! g = Some G → u ∉ gr_members G →
  directory_ok (known t) (Dir (<[g := add_to u G]> (d_groups D)) P) →
  update_members (gr_members G ++ [u]) (row g G) t = Some t' → applies ap P →
  t1 = set_contact_apply ap t' → (¬ fresh_sessions t → X x) →
  runs e (add_member_rows (alone e) u g x) t1
    (λ _ t2, represents t2 (Dir (<[g := add_to u G]> (d_groups D)) P) ∧ user_info t2 = user_info t) X.
Proof.
  intros HR HG Hu Hok Hup Hap -> HX. assert (¬ member D u g) as Hn by (intros (?&?&?); congruence).
  destruct (update_members_rows t D g G _ (add_to u G) t' HR HG Hup) as (Hf&Hids&Hnd); [done..|].
  injection Hup as <-. apply add_rows_runs; cbn.
  - by eapply no_contact.
  - intros s Hs. eapply no_session; [done..| |done]. by eapply (rep_ids _ _ HR).
  - intros s Hs. split; [|done].
    apply (represents_add t D u g s ap (Dir (<[g := add_to u G]> (d_groups D)) P)
             ((λ r, if bool_decide (model.GroupUUID r = g) then set_group_members (gr_members G ++ [u]) r else r) <$> group_info t));
      try done; [by eapply (rep_ids _ _ HR)|].
    intros v g'. by apply add_to_member.
  - done.
Qed.

(** Whether a snapshot showed an application of the user. *)
Definition seen (u g : string) (snapshot : tables) : bool := negb (waiting u g (contact_apply snapshot) =? 0)%nat.
Lemma join_runs snapshot t D u g :
  represents t D → known t u →
  runs e (join_body snapshot u g (alone e)) t
    (λ pending t', represents t' (dir_join (seen u g snapshot) u g D).2 ∧ user_info t' = user_info t
       ∧ (dir_join (seen u g snapshot) u g D).1 = if pending then Some ErrGroupJoinPending else None)
    (refused t (dir_join (seen u g snapshot) u g D).1).
Proof.
  intros HR Hu. unfold join_body, dir_join. pose proof (dir_join_ok _ _ (seen u g snapshot) _ g (rep_ok _ _ HR) Hu) as Hd.
  apply runs_bind, runs_first; [intros r Hr|intros Hr; left; by rewrite (find_group_none _ _ _ HR Hr)].
  destruct (find_group_row _ _ _ _ HR Hr) as (G&HG&->).
  apply runs_bind, runs_check; [intros _|done].
  apply runs_bind, runs_lift; cbn; rewrite (decodeIDs_marshal _ (members_valid _ _ _ _ HR HG)); [intros ms [= <-]|done].
  rewrite HG, containsID_spec. case_bool_decide as Hin; [by apply runs_ret|].
  unfold dir_join in Hd. rewrite HG, (bool_decide_false (u ∈ _)) in Hd by done.
  destruct (Z.eqb_spec (gr_mode G) model.GroupAddModeForbidden) as [Hm|Hm]; [apply runs_fail; by left|].
  destruct (Z.eqb_spec (gr_mode G) model.GroupAddModeApprove) as [Ha|Ha].
  - apply runs_bind, runs_query. cbn beta. fold (waiting u g (contact_apply snapshot)). unfold seen in *.
    destruct (waiting u g (contact_apply snapshot) =? 0)%nat; cbn [negb] in *.
    + apply runs_bind, runs_write; [intros t' [= <-]|done]. apply runs_ret. split_and!; [|done|done].
      apply represents_apply; [done|by destruct D|]. apply applies_add, (rep_applies _ _ HR).
    + apply runs_bind, runs_ret, runs_ret. by split_and!.
  - apply runs_bind, runs_write; [intros t' Ht'|done]. apply runs_bind.
    eapply runs_mono; [eapply (add_member_runs t D u g G (contact_apply t) (d_pending D) t' t' ErrRaw (refused t None))| |done]; try done.
    + apply (rep_applies _ _ HR).
    + by injection Ht' as <-.
    + intros Hf. by right.
    + intros _ t2 [??]. by apply runs_ret.
Qed.

Lemma slen_without u l : slen (without u l) = slen l ↔ u ∉ l.
Proof.
  unfold slen, without. induction l as [|x l IH]; cbn; [by split; [intros _ ?%elem_of_nil|]|].
  rewrite not_elem_of_cons. case_bool_decide; cbn.
  - split; [|naive_solver]. intros Hl. pose proof (List.filter_length_le (λ id, negb (bool_decide (id = u))) l). lia.
  - rewrite <-(IH : _). split; [intros ?; split; [congruence|lia]|intros [_ ?]; lia].
Qed.
Lemma leave_runs t D u g :
  represents t D →
  runs e (leave_body u g (alone e)) t
    (λ _ t', represents t' (dir_leave u g D).2 ∧ user_info t' = user_info t ∧ (dir_leave u g D).1 = None)
    (λ x, (dir_leave u g D).1 = Some x).
Proof.
  intros HR. unfold leave_body, dir_leave.
  apply runs_bind, runs_first; [intros r Hr|intros Hr; by rewrite (find_group_none _ _ _ HR Hr)].
  destruct (find_group_row _ _ _ _ HR Hr) as (G&HG&->). rewrite HG.
  apply runs_bind, runs_check; [intros _|done].
  apply runs_bind, runs_check; cbn [model.OwnerID row]; intros Ho; [apply negb_true_iff in Ho|apply negb_false_iff in Ho]; rewrite Ho; [|done].
  apply bool_decide_eq_false in Ho.
  apply runs_bind, runs_lift; cbn; rewrite (decodeIDs_marshal _ (members_valid _ _ _ _ HR HG)); [intros ms [= <-]|done].
  fold (without u (gr_members G)). destruct (Z.eqb_spec (slen (without u (gr_members G))) (slen (gr_members G))) as [Hl|Hl].
  { apply slen_without in Hl. rewrite bool_decide_false by done. by apply runs_ret. }
  rewrite slen_without in Hl. apply dec_stable in Hl. rewrite bool_decide_true by done.
  apply runs_bind, runs_write; [intros t1 H1|done]. apply runs_bind, runs_write; [intros t2 H2|done].
  apply runs_write; [intros t3 H3|done].
  destruct (update_members_rows t D g G _ (drop_from u G) t1 HR HG H1) as (Hf&Hids&Hnd); [done..|].
  split_and!; [|by injection H3 as <-; injection H2 as <-; injection H1 as <-|done].
  eapply (represents_drop t D u g (Dir (<[g := drop_from u G]> (d_groups D)) (d_pending D)) (group_info t1)); try done.
  - pose proof (dir_leave_ok _ _ u g (rep_ok _ _ HR)) as Hd. unfold dir_leave in Hd.
    rewrite HG, (bool_decide_false (gr_owner G = u)), (bool_decide_true (u ∈ _)) in Hd by done. done.
  - intros v g'. rewrite member_insert. unfold drop_from. cbn. rewrite elem_of_without.
    destruct (decide (g' = g)) as [->|Hne]; [|naive_solver].
    assert (member D v g ↔ v ∈ gr_members G) as -> by (split; [intros (?&?&?); congruence|by exists G]). naive_solver.
  - injection H2 as <-. injection H1 as <-. exact H3.
Qed.

Lemma approve_runs t D op u g :
  represents t D →
  runs e (approve_body op u g (alone e)) t
    (λ _ t', represents t' (dir_approve op u g D).2 ∧ user_info t' = user_info t ∧ (dir_approve op u g D).1 = None)
    (refused t (dir_approve op u g D).1).
Proof.
  intros HR. unfold approve_body, dir_approve. pose proof (dir_approve_ok _ _ op u g (rep_ok _ _ HR)) as Hd.
  apply runs_bind, runs_first; [intros r Hr|intros Hr; left; by rewrite (find_group_none _ _ _ HR Hr)].
  destruct (find_group_row _ _ _ _ HR Hr) as (G&HG&->). rewrite HG. unfold dir_approve in Hd. rewrite HG in Hd.
  apply runs_bind, runs_lift; cbn; rewrite (decodeIDs_marshal []) by constructor; [intros ads [= <-]|done]. cbn [containsID existsb].
  rewrite orb_false_r. apply runs_bind, runs_check; intros Ho; rewrite Ho in *; cbn; [|by left].
  assert (find (pending_for u g) (contact_apply t) = None ↔ (u, g) ∉ d_pending D) as Hw.
  { rewrite find_waiting, (rep_applies _ _ HR), elem_of_multiplicity. lia. }
  apply runs_bind, runs_first; [intros a Ha|intros Ha%Hw; left; by rewrite bool_decide_false].
  assert ((u, g) ∈ d_pending D) as Hp.
  { destruct (decide ((u, g) ∈ d_pending D)) as [|Hn%Hw]; [done|congruence]. }
  rewrite (bool_decide_true (_ ∈ d_pending D)) in * by done. cbn [negb] in *.
  apply runs_bind, runs_lift; cbn; rewrite (decodeIDs_marshal _ (members_valid _ _ _ _ HR HG)); [intros ms [= <-]|done].
  rewrite containsID_spec. apply runs_bind, runs_write; [intros t1 H1|done].
  apply runs_bind, runs_write; [intros t2 [= <-]|done]. destruct (bool_decide (u ∈ gr_members G)) eqn:Hm.
  - apply bool_decide_eq_true in Hm. unfold add_member_rows. apply runs_bind, runs_write; [|intros _; by left].
    intros t2 Hi. exfalso. eapply (insert_contact_taken u g); [|exact Hi].
    injection H1 as <-. apply (rep_contact _ _ HR). by exists G.
  - apply bool_decide_eq_false in Hm.
    eapply runs_mono; [eapply (add_member_runs t D u g G _ (d_pending D ∖ {[+ (u, g) +]}) t1 _ ErrRaw (refused t None))|..]; try done.
    + apply applies_agree. injection H1 as <-. apply (rep_applies _ _ HR).
    + intros Hf. by right.
    + cbn. by intros _ t2 [??].
Qed.
End Bodies.
