(* ===== verification/GroupService.v ===== *)
(** * The requests of the business services, together

    What any mix of requests does to the directory, what a request answers when nothing
    fails, and when the cached group is the stored one. *)
From stdpp Require Import gmultiset.
From S2P Require Import Prelude GoStd GoTime External Json JsonPrint MessageStore MessageStoreProofs.
From S2P Require Import Tables TablesProofs GormService Directory GroupProofs.
Local Open Scope Z_scope.

Section Writes.
Context `{External, !ExternalLaws _} (e : env).

(** ** The other writes *)

Lemma represents_user t D r t' :
  represents t D → validID (model.UserUUID r) "U" = true → insert_user r t = Some t' → represents t' D.
Proof.
  intros HR Hr Hi. unfold insert_user in Hi. destruct (existsb _ _); [done|]. injection Hi as <-.
  assert (∀ u, known t u → known (set_user_info (user_info t ++ [r]) t) u) as Hk.
  { intros u Hu. unfold known. cbn. rewrite fmap_app. apply elem_of_app. by left. }
  destruct HR as [[? Hm Hp]]. constructor; try done.
  - constructor; [done|by intros; eapply Hk, Hm|]. intros u g Hin. apply Hp in Hin as (?&?). split; auto.
  - intros u. unfold known. cbn. rewrite fmap_app, elem_of_app. intros [?|?%list_elem_of_singleton]; [auto|by subst].
Qed.
Lemma represents_session t D r t' :
  represents t D → model.SessionType r = model.SessionTypeUser → head_is (model.SessionReceiveId r) "G" = false →
  String.leb (model.SessionSendId r) (model.SessionReceiveId r) = true → insert_session r t = Some t' → represents t' D.
Proof.
  intros HR Ht Hh Hl Hi. unfold insert_session in Hi. destruct (existsb _ _) eqn:Hx; [done|]. injection Hi as <-.
  destruct HR. constructor; cbn; try done.
  - intros u g (s&?&?)%rep_session. exists s. split; [|done]. apply elem_of_app. by left.
  - intros s [Hs| ->%list_elem_of_singleton]%elem_of_app; [by apply rep_sessions|by right].
  - rewrite fmap_app. cbn. apply NoDup_app. split_and!; [done| |by apply NoDup_singleton].
    intros p (s&->&Hs)%list_elem_of_fmap [= Ha Hb]%list_elem_of_singleton.
    assert (existsb (λ x, bool_decide (model.SessionUUID x = model.SessionUUID r)
        || bool_decide (model.SessionSendId x = model.SessionSendId r)
           && bool_decide (model.SessionReceiveId x = model.SessionReceiveId r)) (session t) = true) as Hc; [|congruence].
    apply List.existsb_exists. exists s. split; [by apply list_elem_of_In|].
    apply orb_true_iff. right. rewrite Ha, Hb. by rewrite !bool_decide_true.
Qed.
Lemma represents_message t D r t' : represents t D → insert_message r t = Some t' → represents t' D.
Proof. intros [] Hi. unfold insert_message in Hi. destruct (existsb _ _); [done|]. injection Hi as <-. by constructor. Qed.

(** The transaction of [CreateGroup]. *)
Definition new_group (g name owner : string) (mode : Z) : model.GroupInfo :=
  model.MkGroupInfo g name owner (marshalIDs [owner]) (marshalIDs []) 1 mode model.GroupStatusNormal.
Definition create_body (r : model.GroupInfo) (owner : string) (e : env) : Prog gorm_error unit :=
  (or_fail ErrDatabase (write e (insert_group r));; add_member_rows e owner (model.GroupUUID r) ErrDatabase).
Lemma create_runs t D g name owner mode :
  represents t D → known t owner → validID g "G" = true → model.GroupAddModeDirect ≤ mode ≤ model.GroupAddModeForbidden →
  runs e (create_body (new_group g name owner mode) owner (alone e)) t
    (λ _ t', d_groups D !! g = None ∧ represents t' (dir_create g name owner mode D) ∧ user_info t' = user_info t)
    (λ x, d_groups D !! g = None → ¬ fresh_sessions e t).
Proof.
  intros HR Ho Hg Hmode. unfold create_body.
  assert (find_group g t = None ↔ d_groups D !! g = None) as Hnone by (rewrite (rep_group _ _ HR); by destruct (d_groups D !! g)).
  apply runs_bind, runs_write.
  2:{ intros Hi Hn%Hnone. unfold insert_group in Hi. destruct (existsb _ _) eqn:Hx; [|done].
      apply List.existsb_exists in Hx as (r&Hin&Hb). apply (List.find_none _ _ Hn) in Hin. cbn in *. congruence. }
  intros t1 Hi. unfold insert_group in Hi. destruct (existsb _ _) eqn:Hx; [done|]. injection Hi as <-. cbn in Hx.
  assert (d_groups D !! g = None) as Hnew.
  { apply Hnone. unfold find_group. clear -Hx. induction (group_info t) as [|r l IH]; cbn in *; [done|].
    apply orb_false_iff in Hx as [-> ?]. auto. }
  assert (¬ member D owner g) as Hnm by (intros (?&?&?); congruence).
  apply add_rows_runs; cbn.
  - by eapply no_contact.
  - intros s Hs. by eapply no_session.
  - intros s Hs. split_and!; [done| |done].
    apply (represents_add t D owner g s (contact_apply t) (dir_create g name owner mode D) (group_info t ++ [new_group g name owner mode]));
      try done.
    + apply dir_create_ok; [by apply (rep_ok _ _ HR)|done..].
    + intros v g'. unfold dir_create. rewrite member_insert. cbn. rewrite list_elem_of_singleton.
      destruct (decide (g' = g)) as [->|?]; [|naive_solver]. assert (¬ member D v g) by (intros (?&?&?); congruence). naive_solver.
    + intros g'. unfold dir_create. cbn. rewrite find_app. fold (find_group g' t). rewrite (rep_group _ _ HR). cbn.
      destruct (decide (g' = g)) as [->|Hne].
      * rewrite Hnew, lookup_insert_eq. cbn. by rewrite bool_decide_true by done.
      * rewrite lookup_insert_ne by done. destruct (d_groups D !! g') as [G|]; cbn; [done|]. by rewrite bool_decide_false by done.
    + unfold dir_create. cbn. intros g' G [[<- _]|[_ ?]]%lookup_insert_Some; [done|]. by eapply (rep_ids _ _ HR).
    + rewrite fmap_app. apply NoDup_app. split_and!; [by apply (rep_once _ _ HR)| |by apply NoDup_singleton].
      intros g' (r&->&Hr)%list_elem_of_fmap Hg'%list_elem_of_singleton. cbn in Hg'.
      assert (find_group g t = None) as Hn by by apply Hnone. apply list_elem_of_In in Hr. apply (List.find_none _ _ Hn) in Hr.
      cbn in Hr. by rewrite bool_decide_true in Hr.
    + apply (rep_applies _ _ HR).
  - intros Hf _ Hf'. apply Hf. intros n r Hr. by apply (Hf' n r Hr).
Qed.
End Writes.

(** The answer for a group. *)
Definition group_view (g : string) (G : group) : response.GroupResponse :=
  response.MkGroup g (gr_name G) (gr_owner G) (gr_members G) [] (slen (gr_members G)) (gr_mode G).

(** ** Any mix of requests *)

(** The requests of the business endpoints. *)
Inductive request : Type :=
| RRegister (r : RegisterRequest) | RLogin (telephone password : string)
| RGetUserInfo (id : option string) | RContacts (user : string)
| ROpenSession (user peer : string) | RSessions (user : string) | RGroupSessions (user : string) | RSessionUsers (id : string)
| RSend (ai : bool) (sender receiver content : string) | RMessages (user peer : string)
| RCreateGroup (owner name : string) (modes : list Z) | RGetGroup (g : string) | RJoined (user : string) | ROwned (user : string)
| RJoin (user g : string) | RLeave (user g : string) | RApprove (operator user g : string)
| RSendGroup (sender g content : string) | RGroupMessages (user g : string).

Lemma prefixed_id `{External} p id : MessageStore.validUUID id = true → validID (String p id) p = true.
Proof.
  intros Hu. unfold validID. cbn [tail head_is]. rewrite Hu, andb_true_r, bool_decide_true by done.
  rewrite andb_true_r. unfold MessageStore.validUUID in Hu. rewrite !andb_true_iff in Hu. destruct Hu as [[Hl%Z.eqb_eq _] _].
  apply Z.eqb_eq. unfold len in *. cbn [String.length]. lia.
Qed.

Section Serve.
Context (bcrypt_generate : string → string → option string) (bcrypt_compare : string → string → bool).
Context (sign_token : string → Z → option string).
Context `{External, !ExternalLaws _} (e : env).

(** An answer, with the group that was created; other values are not looked at. *)
Definition reply : Type := option response.GroupResponse.
Definition run {A} (m : Prog gorm_error A) : Prog gorm_error reply := (_ ← m; mret None).
Definition serve (r : request) : Prog gorm_error reply :=
  match r with
  | RRegister r => run (Register bcrypt_generate e r)
  | RLogin t p => run (Login bcrypt_compare sign_token e t p)
  | RGetUserInfo id => run (GetUserInfo e id)
  | RContacts u => run (GetContactUserList e u)
  | ROpenSession u p => run (OpenSession e u p)
  | RSessions u => run (GetUserSessionList e u)
  | RGroupSessions u => run (GetGroupSessionList e u)
  | RSessionUsers s => run (GetSessionUsers e s)
  | RSend ai a b c => run (if ai then SendAIMessage e a b c else SendMessage e a b c)
  | RMessages a b => run (GetMessageList e a b)
  | RCreateGroup o n ms => g ← CreateGroup e o n ms; mret (Some g)
  | RGetGroup g => run (GetGroup e g)
  | RJoined u => run (GetJoinedGroupList e u)
  | ROwned u => run (GetOwnedGroupList e u)
  | RJoin u g => run (JoinGroup e u g)
  | RLeave u g => run (LeaveGroup e u g)
  | RApprove o u g => run (ApproveGroupJoin e o u g)
  | RSendGroup a g c => run (SendGroupMessage e a g c)
  | RGroupMessages u g => run (GetGroupMessageList e u g)
  end.

Definition valid_user (u : string) : Prop := validID u "U" = true.

(** [others_may D D']: the others may move the directory so.  Nothing else is assumed of them
    but that they delete no user; with [eq] they leave the directory alone, with
    [rtc (dstep valid_user)] they do what users may do. *)
Context (others_may : directory → directory → Prop) `{!PreOrder others_may}.
Record others_ok : Prop := OthersOk {
  others_move n x D : represents x.1 D → ∃ D', others_may D D' ∧ represents (others e n x).1 D';
  others_known u : others_keep e (λ t, known t u);
  uuids_ok n : MessageStore.validUUID (fresh e n) = true
}.

(** What a request that was answered [a] did to the directory, [op] being what it means: its
    step if it succeeded; nothing if it was refused, unless [lost] tells that the answer to
    its commit was lost.  When the database answers everything a refusal is that of the
    directory, or a random id was taken ([ErrRaw]), or an id was empty. *)
Definition did (lost : gorm_error) (op : directory → option gorm_error * directory) (a : result gorm_error reply)
    (D D' : directory) : Prop :=
  match a with
  | Ok _ => op D = (None, D')
  | Err x => (D' = D ∨ x = lost ∧ D' = (op D).2)
      ∧ (reliable e → D' = D ∧ ((op D).1 = Some x ∨ x = ErrRaw ∨ x = ErrInvalidGroup))
  end.
Definition joined_as (seen : bool) (u g : string) (a : result gorm_error reply) (D D' : directory) : Prop :=
  match a with
  | Err ErrGroupJoinPending => dir_join seen u g D = (Some ErrGroupJoinPending, D')
  | _ => did ErrRaw (dir_join seen u g) a D D'
  end.
Definition created (o n : string) (modes : list Z) (a : result gorm_error reply) (D D' : directory) : Prop :=
  let mode := hd model.GroupAddModeDirect modes in
  let makes g := valid_user o ∧ n ≠ "" ∧ d_groups D !! g = None
    ∧ model.GroupAddModeDirect ≤ mode ≤ model.GroupAddModeForbidden ∧ D' = dir_create g n o mode D in
  match a with
  | Ok r => ∃ g, makes g ∧ r = Some (group_view g (Grp n o [o] mode))
  | Err x => D' = D ∨ x = ErrDatabase ∧ ¬ reliable e ∧ ∃ g, makes g
  end.
(** A request answered [a] took the directory from [D] to [D'], the others moving before and
    after its own step.  An application is added when none waited at the snapshot [Ds]. *)
Definition served (r : request) (a : result gorm_error reply) (D D' : directory) : Prop :=
  match r with
  | RJoin u g =>
      (∃ x, a = Err x ∧ x ≠ ErrGroupJoinPending ∧ others_may D D')
      ∨ ∃ Ds D1 D2, others_may D Ds ∧ others_may Ds D1 ∧ valid_user u
          ∧ joined_as (bool_decide ((u, g) ∈ d_pending Ds)) u g a D1 D2 ∧ others_may D2 D'
  | RLeave u g => ∃ D1 D2, others_may D D1 ∧ did ErrRaw (dir_leave u g) a D1 D2 ∧ others_may D2 D'
  | RApprove o u g => ∃ D1 D2, others_may D D1 ∧ did ErrRaw (dir_approve o u g) a D1 D2 ∧ others_may D2 D'
  | RCreateGroup o n ms => ∃ D1 D2, others_may D D1 ∧ created o n ms a D1 D2 ∧ others_may D2 D'
  | _ => others_may D D'
  end.

Context (Hok : others_ok).

(** The tables hold a directory the others lead to from [D0]. *)
Definition sim (D0 : directory) (t : tables) : Prop := ∃ D, others_may D0 D ∧ represents t D.
Lemma others_sim D0 : others_keep e (sim D0).
Proof. intros n x (D&HD&HR). destruct (others_move Hok n x D HR) as (D'&?&?). exists D'. split; [by etrans|done]. Qed.
Lemma sim_start D t : represents t D → sim D t.
Proof. intros HR. by exists D. Qed.

Lemma fresh_id n p : validID (String p (fresh e n)) p = true.
Proof. apply prefixed_id, (uuids_ok Hok). Qed.
#[local] Hint Resolve others_sim others_known : keeps.
(** A write that changes nothing of the directory. *)
Lemma keeps_sim_write {E} D0 (f : tables → option tables) :
  (∀ t t' D, represents t D → f t = Some t' → represents t' D) → keeps (E := E) (sim D0) (write e f).
Proof. intros Hf. apply keeps_write; [by apply others_sim|]. intros t t' (D&HD&HR) Hw. exists D. split; [done|by eapply Hf]. Qed.
Lemma others_and D0 (P : tables → Prop) : others_keep e P → others_keep e (λ t, sim D0 t ∧ P t).
Proof. intros HP n x [Hx ?]. split; [by apply others_sim|by apply HP]. Qed.
(** A transaction: the others move, then its body takes one step or none. *)
Lemma ends_transaction {A} (x : gorm_error) (body : env → Prog gorm_error A) (P : tables → Prop)
    (own : A → directory → directory → Prop) (X : directory → gorm_error → Prop) D s :
  others_keep e P → sim D (db s) → P (db s) →
  (∀ t D1, represents t D1 → P t →
     runs e (body (alone e)) t (λ a t', ∃ D2, own a D1 D2 ∧ represents t' D2) (X D1)) →
  ends (transaction e x body) s (λ r t, ∃ D1 D2, others_may D D1 ∧ represents t D2 ∧
    match r with
    | Ok a => own a D1 D2
    | Err y => (D2 = D1 ∧ (reliable e → X D1 y)) ∨ (y = x ∧ ¬ reliable e ∧ ∃ a, own a D1 D2)
    end).
Proof.
  intros HP Hs HPs Hb. pose proof (moved_keeps _ e (others_sim D) s Hs) as (D1&HD1&HR). pose proof (moved_keeps P e HP s HPs) as Hp.
  destruct (transaction_runs e x body _ _ s (Hb _ D1 HR Hp)) as [Ht _]. unfold ends.
  destruct (transaction e x body s) as [[a|y] s']; cbn in *.
  - destruct Ht as (D2&?&?). by exists D1, D2.
  - destruct Ht as [[Hd Hr]|(->&Hr&a&D2&?&?)].
    + exists D1, D1. rewrite Hd. split_and!; [done|done|by left].
    + exists D1, D2. split_and!; [done|done|right; eauto].
Qed.

Lemma Register_sim D r : keeps (sim D) (Register bcrypt_generate e r).
Proof.
  pose proof (others_sim D). unfold Register, count_users. keeps_auto. apply keeps_or_fail, keeps_sim_write.
  intros t t' D' HR Hi. eapply represents_user; [done| |exact Hi]. apply fresh_id.
Qed.
(** In a pair of which one is a user id, the greater is no group id. *)
Lemma sorted_pair_user a b p : valid_user p → p = a ∨ p = b → head_is (sorted_pair a b).2 "G" = false.
Proof.
  intros Hp%andb_true_iff Hab. destruct Hp as [[_ Hh]%andb_true_iff _]. unfold sorted_pair.
  assert (∀ x y, head_is x "U" = true → String.leb x y = true → head_is y "G" = false) as Hle.
  { intros [|c x] [|c' y]; [done..|]. cbn. intros ->%bool_decide_eq_true Hc. apply bool_decide_eq_false. intros ->. done. }
  destruct (String.leb a b) eqn:Hl; cbn.
  - destruct Hab as [-> | ->]; [by eapply Hle|]. destruct b as [|c b]; [done|]. cbn in *.
    apply bool_decide_eq_true in Hh as ->. done.
  - assert (String.leb b a = true) as Hl' by (destruct (String.leb_total a b); congruence).
    destruct Hab as [-> | ->]; [|by eapply Hle]. destruct a as [|c a]; [done|]. cbn in *.
    apply bool_decide_eq_true in Hh as ->. done.
Qed.
Lemma sorted_pair_leb a b : String.leb (sorted_pair a b).1 (sorted_pair a b).2 = true.
Proof.
  unfold sorted_pair. destruct (String.leb a b) eqn:Hl; [done|]. destruct (String.leb_total a b); cbn; congruence.
Qed.
Lemma OpenSession_sim D u p : keeps (sim D) (OpenSession e u p).
Proof.
  pose proof (others_sim D). unfold OpenSession. apply keeps_bind; [apply keeps_check|]. intros _.
  apply (keeps_query_bind _ _ (others_sim D) _ _ (λ n _, n ≠ 0%nat → valid_user p)).
  { intros t (D'&_&HR) Hn. apply (rep_users _ _ HR). destruct (decide (known t p)) as [|Hc]; [done|]. by apply known_count in Hc. }
  intros n. apply keeps_static. intros Hp. apply keeps_check_bind. intros Hn%negb_true_iff%Nat.eqb_neq.
  specialize (Hp Hn). pose proof (sorted_pair_user u p p Hp (or_intror eq_refl)) as Hh. pose proof (sorted_pair_leb u p) as Hle.
  destruct (sorted_pair u p) as [a b]. keeps_auto. apply keeps_or_fail, keeps_sim_write.
  intros t t' D' HR Hi. eapply represents_session; [exact HR| | | |exact Hi]; [done|exact Hh|exact Hle].
Qed.
Lemma sendMessage_sim D a b c o : keeps (sim D) (sendMessage e a b c o).
Proof.
  pose proof (others_sim D). unfold sendMessage. keeps_auto. apply keeps_or_fail, keeps_sim_write.
  intros *. apply represents_message.
Qed.
Lemma GetGroup_keeps P g : others_keep e P → keeps P (GetGroup e g).
Proof. intros HP. unfold GetGroup. keeps_auto. Qed.
Lemma SendGroupMessage_sim D a g c : keeps (sim D) (SendGroupMessage e a g c).
Proof.
  pose proof (others_sim D). unfold SendGroupMessage. keeps_auto; [by apply GetGroup_keeps|].
  apply keeps_or_fail, keeps_sim_write. intros *. apply represents_message.
Qed.

(** ** Requests that change the directory *)

#[local] Abbreviation does r D := (λ a t, ∃ D', served r a D D' ∧ represents t D').
(** The keys are forgotten whatever the cache answers. *)
Lemma ends_forget keys D s (Q : result gorm_error unit → tables → Prop) :
  sim D (db s) → (∀ t, sim D t → Q (Ok tt) t) → ends (_ ← Delete e keys; mret tt) s Q.
Proof.
  intros Hs HQ. unfold ends. rewrite bind_run. pose proof (keeps_Delete (E := gorm_error) (sim D) e (others_sim D) keys s Hs) as Hd.
  assert (∃ r, (Delete (E := gorm_error) e keys s).1 = Ok r) as [r Hr].
  { destruct keys; cbn; [by eexists|]. unfold command. destruct (redis (moved e s)); [|by eexists]. destruct (fates e (ops s)); by eexists. }
  destruct (Delete e keys s) as [x s']. cbn in *. subst x. by apply HQ.
Qed.
(** A request that is one transaction on its group, then forgets keys. *)
Lemma group_request_ends r b (body : env → Prog gorm_error unit) keys (op : directory → option gorm_error * directory) D s :
  (∀ a D D', served r a D D' = ∃ D1 D2, others_may D D1 ∧ did ErrRaw op a D1 D2 ∧ others_may D2 D') →
  (∀ t D1, represents t D1 → runs e (body (alone e)) t
     (λ _ t', represents t' (op D1).2 ∧ user_info t' = user_info t ∧ (op D1).1 = None) (refused e t (op D1).1)) →
  sim D (db s) →
  ends (run (check b ErrInvalidGroup;; transaction e ErrRaw body;; _ ← Delete e keys; mret tt)) s (does r D).
Proof.
  intros Hserved Hb Hs. unfold run. apply ends_bind, ends_check_bind; intros _.
  2:{ destruct Hs as (D1&?&HR). exists D1. split; [|done]. rewrite Hserved. exists D1, D1. split_and!; [done| |done].
      split; [by left|]. intros _. split; [done|by right; right]. }
  apply ends_bind. eapply ends_mono.
  { apply (ends_transaction ErrRaw body (λ _, True) (λ _ D1 D2, op D1 = (None, D2)) (λ D1 y, (op D1).1 = Some y ∨ y = ErrRaw) D);
      [done..|]. intros t D1 HR _. eapply runs_mono; [by apply Hb| |].
    - intros _ t' (HR'&_&Hn). eexists. split; [|exact HR']. rewrite <-Hn. apply surjective_pairing.
    - intros x [?|[-> _]]; [by left|by right]. }
  intros [[]|y] t (D1&D2&HD&HR&Hown).
  - intros s' <-. apply (ends_forget _ D2); [by apply sim_start|]. intros t' (D'&?&?) s1 <-. apply ends_ret.
    exists D'. split; [|done]. rewrite Hserved. by exists D1, D2.
  - exists D2. split; [|done]. rewrite Hserved. exists D1, D2. split_and!; [done| |done].
    destruct Hown as [[-> Hx]|(->&Hn&[]&Hop)]; (split; [|intros Hr; try done]); [by left| |right; by rewrite Hop].
    split; [done|]. destruct (Hx Hr); auto.
Qed.
Lemma LeaveGroup_served D u g s : sim D (db s) → ends (run (LeaveGroup e u g)) s (does (RLeave u g) D).
Proof.
  apply (group_request_ends _ _ _ _ (dir_leave u g)); [done|]. intros t D1 HR.
  eapply runs_mono; [by apply leave_runs|done|]. intros x Hx. by left.
Qed.
Lemma ApproveGroupJoin_served D o u g s : sim D (db s) → ends (run (ApproveGroupJoin e o u g)) s (does (RApprove o u g) D).
Proof.
  apply (group_request_ends _ true _ _ (dir_approve o u g)); [done|]. intros t D1 HR. by apply approve_runs.
Qed.
Lemma seen_waits u g t D : represents t D → seen u g t = bool_decide ((u, g) ∈ d_pending D).
Proof.
  intros HR. unfold seen. rewrite (rep_applies _ _ HR). apply Bool.eq_iff_eq_true.
  rewrite negb_true_iff, Nat.eqb_neq, bool_decide_eq_true, elem_of_multiplicity. lia.
Qed.
Lemma join_raises snapshot u g : raises (λ x, x ≠ ErrGroupJoinPending) (join_body snapshot u g (alone e)).
Proof.
  unfold join_body, add_member_rows. raises_auto; try done.
  apply raises_lift. intros x. unfold decodeIDs. destruct (v ← _; _); [done|]. by intros [= <-].
Qed.
Lemma known_user t D u : represents t D → known t u → valid_user u.
Proof. intros HR. apply (rep_users _ _ HR). Qed.
Lemma joined_error seen u g x D D' : x ≠ ErrGroupJoinPending →
  joined_as seen u g (Err x) D D' = did ErrRaw (dir_join seen u g) (Err x) D D'.
Proof. by destruct x. Qed.
Lemma JoinGroup_served D u g s : sim D (db s) → ends (run (JoinGroup e u g)) s (does (RJoin u g) D).
Proof.
  intros Hs. unfold run, JoinGroup.
  assert (∀ x t, x ≠ ErrGroupJoinPending → sim D t → does (RJoin u g) D (Err x) t) as Hno.
  { intros x t Hx (D'&?&?). exists D'. split; [left; eauto|done]. }
  apply ends_bind, ends_check_bind; intros _; [|by apply Hno].
  apply (ends_query_bind _ (sim D)); [apply others_sim|done| |intros t; by apply Hno]. intros s1 Hs1.
  apply ends_check_bind; intros Hk; [|by apply Hno].
  assert (known (db s1) u) as Hku.
  { destruct (decide (known (db s1) u)) as [|Hc]; [done|]. apply known_count in Hc. by rewrite Hc in Hk. }
  destruct Hs1 as (Ds&HDs&HRs). pose proof (known_user _ _ _ HRs Hku) as Hu.
  apply ends_bind. eapply ends_mono.
  { apply ends_raises; [by apply raises_transaction; [apply (join_raises (db s1) u g)|]|].
    apply (ends_transaction ErrRaw (join_body (db s1) u g) (λ t, known t u)
      (λ p D1 D2, dir_join (seen u g (db s1)) u g D1 = (if p : bool then Some ErrGroupJoinPending else None, D2))
      (λ D1 y, (dir_join (seen u g (db s1)) u g D1).1 = Some y ∨ y = ErrRaw) Ds); [by apply others_known|by apply sim_start|done|].
    intros t D1 HR Hkt. eapply runs_mono; [by apply join_runs| |].
    - intros p t' (HR'&_&Hn). eexists. split; [|exact HR']. rewrite <-Hn. apply surjective_pairing.
    - intros x [?|[-> _]]; [by left|by right]. }
  rewrite (seen_waits u g _ _ HRs). intros [p|y] t [(D1&D2&HD&HR&Hown) Hy].
  - intros s2 <-. destruct p.
    + exists D2. split; [|done]. right. exists Ds, D1, D2. by split_and!.
    + apply (ends_forget _ D2); [by apply sim_start|]. intros t' (D'&?&?) s3 <-. apply ends_ret.
      exists D'. split; [|done]. right. exists Ds, D1, D2. by split_and!.
  - exists D2. split; [|done]. right. exists Ds, D1, D2. split_and!; try done. rewrite joined_error by done.
    destruct Hown as [[-> Hx]|(->&Hn&p&Hop)]; (split; [|intros Hr; try done]); [by left| |right; by rewrite Hop].
    split; [done|]. destruct (Hx Hr); auto.
Qed.

Lemma created_view g o n m : valid_user o → groupResponse (new_group g n o m) = Ok (group_view g (Grp n o [o] m)).
Proof.
  intros Ho. unfold groupResponse, new_group. cbn.
  by rewrite (decodeIDs_marshal [o]), (decodeIDs_marshal []) by (repeat constructor; done).
Qed.
Lemma CreateGroup_served D o n ms s :
  sim D (db s) → ends (serve (RCreateGroup o n ms)) s (does (RCreateGroup o n ms) D).
Proof.
  intros Hs. cbn [serve]. unfold CreateGroup.
  assert (∀ x t, sim D t → does (RCreateGroup o n ms) D (Err x) t) as Hno.
  { intros x t (D'&?&?). exists D'. split; [|done]. exists D', D'. split_and!; [done|by left|done]. }
  apply ends_bind, ends_check_bind; intros Hne; [|by apply Hno].
  apply andb_true_iff in Hne as [_ Hname%bool_decide_eq_true].
  apply (ends_query_bind _ (sim D)); [apply others_sim|done| |intros t; by apply Hno]. intros s1 Hs1.
  apply ends_check_bind; intros Hk; [|by apply Hno].
  assert (known (db s1) o) as Hko.
  { destruct (decide (known (db s1) o)) as [|Hc]; [done|]. apply known_count in Hc. by rewrite Hc in Hk. }
  cbn zeta. apply ends_check_bind; intros Hm; [|by apply Hno].
  apply negb_true_iff, orb_false_iff in Hm as [Hm1%Z.ltb_ge Hm2%Z.ltb_ge].
  set (m := hd model.GroupAddModeDirect ms) in *.
  apply ends_uuid_bind. intros k s2 Hs2. rewrite <-Hs2 in Hs1, Hko. clear Hs2. set (g := "G" +:+ fresh e k).
  pose proof (fresh_id k "G") as Hg. change (String "G" (fresh e k)) with g in Hg.
  apply ends_bind. eapply ends_mono.
  { apply (ends_transaction ErrDatabase (create_body (new_group g n o m) o) (λ t, known t o)
      (λ _ D1 D2, valid_user o ∧ d_groups D1 !! g = None ∧ D2 = dir_create g n o m D1) (λ _ _, True) D); [by apply others_known|done..|].
    intros t D1 HR Hkt. eapply runs_mono; [by apply create_runs| |done].
    intros _ t' (?&?&_). eexists. split_and!; [|done..|done]. by apply (known_user t D1). }
  assert (∀ a D1 D2 D' t, others_may D D1 → created o n ms a D1 D2 → others_may D2 D' → represents t D' →
    does (RCreateGroup o n ms) D a t) as Hdoes.
  { intros a D1 D2 D' t. intros. exists D'. split; [|done]. by exists D1, D2. }
  intros [[]|y] t (D1&D2&HD&HR&Hown).
  - intros s3 <-. destruct Hown as (Ho&Hnew&->). apply ends_bind, (ends_forget _ (dir_create g n o m D1)); [by apply sim_start|].
    intros t' (D'&HD'&HR') s4 <-. unfold ends, lift.
    match goal with |- context [groupResponse ?x] => change x with (new_group g n o m) end. rewrite created_view by done.
    cbn [fst snd]. intros s5 Hs5. rewrite <-Hs5 in HR'. apply ends_ret.
    eapply Hdoes; [exact HD| |exact HD'|exact HR']. exists g. by split_and!.
  - eapply Hdoes; [exact HD| |reflexivity|done].
    destruct Hown as [[-> _]|(->&Hn&_&?&?&->)]; [by left|right]. split_and!; [done..|]. exists g. by split_and!.
Qed.
Lemma serve_served D r s : sim D (db s) → ends (serve r) s (does r D).
Proof.
  intros Hs. pose proof (others_sim D).
  destruct r; try first [by apply CreateGroup_served|by apply JoinGroup_served|by apply LeaveGroup_served|by apply ApproveGroupJoin_served];
    cbn [serve]; (eapply ends_mono; [apply keeps_ends; [|exact Hs]|by intros ? t (D'&?&?); exists D']);
    unfold run; (apply keeps_bind; [|intros ?; apply keeps_ret]);
    try (destruct ai); unfold SendAIMessage, SendMessage;
    auto using Register_sim, OpenSession_sim, sendMessage_sim, SendGroupMessage_sim, GetGroup_keeps.
  - unfold Login, count_users, generateToken. keeps_auto.
  - unfold GetUserInfo. keeps_auto.
  - unfold GetContactUserList. keeps_auto.
  - unfold GetUserSessionList. keeps_auto.
  - unfold GetGroupSessionList. keeps_auto.
  - unfold GetSessionUsers. keeps_auto.
  - unfold GetMessageList. keeps_auto.
  - unfold GetJoinedGroupList, group_list. keeps_auto.
  - unfold GetOwnedGroupList, group_list. keeps_auto.
  - unfold GetGroupMessageList, getGroupMessageList. keeps_auto. by apply GetGroup_keeps.
Qed.

(** Steps of users, when the others make only such. *)
Lemma served_run r a D D' :
  (∀ D D', others_may D D' → rtc (dstep valid_user) D D') → served r a D D' → rtc (dstep valid_user) D D'.
Proof.
  intros Ho. assert (∀ D D1 D2 D', others_may D D1 → D2 = D1 ∨ dstep valid_user D1 D2 → others_may D2 D' → rtc (dstep valid_user) D D') as Hone.
  { intros D0 D1 D2 D3 H1%Ho Hs H2%Ho. etrans; [exact H1|]. destruct Hs as [->|?]; [done|by eapply rtc_l]. }
  assert (∀ lost op a D D', did lost op a D D' → D' = D ∨ D' = (op D).2) as Hdid.
  { intros lost op [b|x] D1 D2; cbn; [intros ->; by right|intros [[?|[_ ?]] _]; auto]. }
  destruct r; cbn [served]; try apply Ho.
  - intros (D1&D2&H1&Hc&H2). eapply Hone; [exact H1| |exact H2]. destruct a as [b|x]; cbn in Hc.
    + destruct Hc as (g&(?&?&?&?&->)&_). right. by apply step_create.
    + destruct Hc as [?|(_&_&g&?&?&?&?&->)]; [by left|right]. by apply step_create.
  - intros [(x&_&_&H1)|(Ds&D1&D2&H1&H2&Hu&Hj&H3)]; [by apply Ho|].
    eapply Hone; [by etrans| |exact H3]. set (b := bool_decide _) in Hj.
    assert (D2 = D1 ∨ D2 = (dir_join b user g D1).2) as [->| ->]; [|by left|right; by apply step_join].
    destruct a as [r|x]; [by apply (Hdid ErrRaw _ (Ok r))|].
    destruct (decide (x = ErrGroupJoinPending)) as [->|Hne]; [right; cbn in Hj; by rewrite Hj|].
    rewrite joined_error in Hj by done. by apply (Hdid _ _ _ _ _ Hj).
  - intros (D1&D2&H1&[->| ->]%Hdid&H2); (eapply Hone; [exact H1| |exact H2]); [by left|right; apply step_leave].
  - intros (D1&D2&H1&[->| ->]%Hdid&H2); (eapply Hone; [exact H1| |exact H2]); [by left|right; apply step_approve].
Qed.
End Serve.
