(* ===== verification/GroupExact.v ===== *)
(** * What a request answers when nothing fails

    One request at a time, with a database and a cache that answer: the group service does
    what the directory says, and the cached group is the stored one. *)
From stdpp Require Import gmultiset.
From S2P Require Import Prelude GoStd GoTime External Json JsonPrint MessageStore MessageStoreProofs.
From S2P Require Import Tables TablesProofs GormService Directory GroupProofs GroupService.
Local Open Scope Z_scope.

Section Exact.
Context `{External, !ExternalLaws _} (e : env).

Context (Hq : quiet e).

(** The cache agrees with a directory: a cached group is the stored one. *)
Definition coherent (r : option (gmap string cached)) (D : directory) : Prop :=
  ∀ c g v, r = Some c → c !! GroupInfoKey g = Some v →
    ∃ G, d_groups D !! g = Some G ∧ v = CObject (IGroup (group_view g G)).
Record view (s : store) (D : directory) : Prop := View {
  view_db : represents (db s) D;
  view_cache : coherent (redis s) D
}.

(** A change of the directory at [g] whose request forgets the cached group. *)
Lemma coherent_delete r D D' g keys :
  coherent r D → GroupInfoKey g ∈ keys → (∀ g', g' ≠ g → d_groups D' !! g' = d_groups D !! g') →
  coherent ((λ c, foldr delete c keys) <$> r) D'.
Proof.
  intros Hc Hk HD c g' v Hr. destruct r as [c0|]; [|done]. injection Hr as <-.
  rewrite lookup_foldr_delete. case_bool_decide as Hin; [done|]. intros Hv.
  destruct (decide (g' = g)) as [->|Hne]; [done|]. rewrite HD by done. by eapply Hc.
Qed.

(** The end of a request whose transaction went through. *)
Lemma finish s D D' g keys :
  coherent (redis s) D → represents (db s) D' → GroupInfoKey g ∈ keys →
  (∀ g', g' ≠ g → d_groups D' !! g' = d_groups D !! g') →
  let p := (_ ← Delete e keys; mret tt) s in p.1 = Ok (E := gorm_error) tt ∧ view p.2 D'.
Proof.
  intros Hc HR Hk HD. cbn. destruct (Delete_quiet e Hq (E := gorm_error) keys s) as (H1&H2&H3).
  unfold mbind, Prog_bind. destruct (Delete e keys s) as [r s1]. cbn in *. subst r. cbn. split; [done|].
  constructor; [by rewrite H1|]. rewrite H3. by eapply coherent_delete.
Qed.
#[local] Ltac elem := repeat (apply list_elem_of_here || apply list_elem_of_further).

Lemma dir_join_other b u g D g' : g' ≠ g → d_groups (dir_join b u g D).2 !! g' = d_groups D !! g'.
Proof.
  intros Hne. unfold dir_join. destruct (d_groups D !! g); [|done]. case_bool_decide; [done|].
  destruct (_ =? _); [done|]. destruct (_ =? _); [by destruct b|]. cbn. by rewrite lookup_insert_ne.
Qed.
Lemma dir_leave_other u g D g' : g' ≠ g → d_groups (dir_leave u g D).2 !! g' = d_groups D !! g'.
Proof.
  intros Hne. unfold dir_leave. destruct (d_groups D !! g); [|done]. case_bool_decide; [done|]. case_bool_decide; [|done].
  cbn. by rewrite lookup_insert_ne.
Qed.
Lemma dir_approve_other o u g D g' : g' ≠ g → d_groups (dir_approve o u g D).2 !! g' = d_groups D !! g'.
Proof.
  intros Hne. unfold dir_approve. destruct (d_groups D !! g); [|done]. destruct (negb _); [done|]. destruct (negb _); [done|].
  case_bool_decide; [done|]. cbn. by rewrite lookup_insert_ne.
Qed.
(** An error changes no group, and only a waiting user changes anything. *)
Lemma dir_join_error b u g D x : (dir_join b u g D).1 = Some x →
  d_groups (dir_join b u g D).2 = d_groups D ∧ (x ≠ ErrGroupJoinPending → (dir_join b u g D).2 = D).
Proof.
  unfold dir_join. destruct (d_groups D !! g); [|naive_solver]. case_bool_decide; [done|].
  destruct (_ =? _); [naive_solver|]. destruct (_ =? _); [|naive_solver]. destruct b; naive_solver.
Qed.
Lemma dir_leave_error u g D x : (dir_leave u g D).1 = Some x → (dir_leave u g D).2 = D.
Proof. unfold dir_leave. destruct (d_groups D !! g); [|done]. by repeat case_bool_decide. Qed.
Lemma dir_approve_error o u g D x : (dir_approve o u g D).1 = Some x → (dir_approve o u g D).2 = D.
Proof. unfold dir_approve. destruct (d_groups D !! g); [|done]. by repeat (case_bool_decide || destruct (negb _)). Qed.

(** The answer of an operation of the directory. *)
Definition answer_of (r : option gorm_error) : result gorm_error unit := match r with None => Ok tt | Some x => Err x end.

(** A refusal that changes nothing. *)
Lemma refused_view s s' D x (y : gorm_error) :
  view s D → db s' = db s → redis s' = redis s → x = y → (Err x, s').1 = Err (A := unit) y ∧ view (Err (A := unit) x, s').2 D.
Proof. intros [HR Hc] Hd Hr ->. split; [done|]. constructor; cbn; [by rewrite Hd|by rewrite Hr]. Qed.

Definition waits (D : directory) (u g : string) : bool := bool_decide ((u, g) ∈ d_pending D).
Lemma JoinGroup_exact s D u g :
  view s D → fresh_sessions e (db s) → u ≠ "" → g ≠ "" →
  let p := JoinGroup e u g s in
  if bool_decide (known (db s) u)
  then p.1 = answer_of (dir_join (waits D u g) u g D).1 ∧ view p.2 (dir_join (waits D u g) u g D).2
  else p.1 = Err ErrUserNotFound ∧ view p.2 D.
Proof.
  intros Hv Hf Hu Hg p. subst p. unfold JoinGroup. rewrite !(bool_decide_true (_ ≠ "")) by done.
  cbn [andb check]. change (mret tt ≫= ?k) with (k tt). cbn beta.
  rewrite bind_run, or_fail_run, (query_quiet e Hq), check_run. set (s1 := Store _ _ _).
  assert (view s1 D) as [HR Hc] by (by destruct Hv; constructor). 
  case_bool_decide as Hk.
  2:{ apply known_count in Hk. rewrite Hk. cbn [Nat.eqb negb]. by apply (refused_view s). }
  destruct (negb _) eqn:Hn.
  2:{ exfalso. apply negb_false_iff, Nat.eqb_eq, known_count in Hn. done. }
  pose proof (transaction_quiet e Hq ErrRaw (join_body (db s) u g) _ _ s1 (join_runs e (db s) (db s1) D u g HR Hk)) as Ht.
  rewrite (seen_waits u g (db s) D HR) in Ht. fold (waits D u g) in Ht.
  pose proof (raises_transaction e _ ErrRaw _ (join_raises e (db s) u g) ltac:(done) s1) as Hne.
  rewrite bind_run. destruct (transaction _ _ _ s1) as [[b|y] s2]; cbn [fst snd] in *.
  - destruct Ht as [(HR'&_&Hj) Hr]. rewrite Hj. destruct b; cbn [answer_of].
    + split; [done|]. constructor; [exact HR'|]. cbn. rewrite Hr. unfold coherent. by destruct (dir_join_error _ _ _ _ _ Hj) as [-> _].
    + eapply (finish s2 D); [by rewrite Hr|done| |apply dir_join_other]. elem.
  - destruct Ht as ([Hj|[_ Hn']]&Hd&Hr); [|done]. rewrite Hj.
    rewrite (proj2 (dir_join_error _ _ _ _ _ Hj) Hne). by apply (refused_view s1).
Qed.
#[local] Ltac run_request := cbn [andb check]; change (mret tt ≫= ?k) with (k tt); cbn beta.
Lemma LeaveGroup_exact s D u g :
  view s D → u ≠ "" → g ≠ "" →
  let p := LeaveGroup e u g s in p.1 = answer_of (dir_leave u g D).1 ∧ view p.2 (dir_leave u g D).2.
Proof.
  intros Hv Hu Hg p. pose proof Hv as [HR Hc]. subst p. unfold LeaveGroup. rewrite !(bool_decide_true (_ ≠ "")) by done. run_request.
  pose proof (transaction_quiet e Hq ErrRaw (leave_body u g) _ _ s (leave_runs e (db s) D u g HR)) as Ht.
  rewrite bind_run. destruct (transaction _ _ _ s) as [[b|y] s1]; cbn [fst snd].
  - destruct Ht as [(HR'&_&->) Hr]. eapply (finish s1 D); [by rewrite Hr|done| |apply dir_leave_other]. elem.
  - destruct Ht as (Hj&Hd&Hr). rewrite Hj, (dir_leave_error _ _ _ _ Hj). by apply (refused_view s).
Qed.
Lemma ApproveGroupJoin_exact s D o u g :
  view s D → fresh_sessions e (db s) →
  let p := ApproveGroupJoin e o u g s in p.1 = answer_of (dir_approve o u g D).1 ∧ view p.2 (dir_approve o u g D).2.
Proof.
  intros Hv Hf p. pose proof Hv as [HR Hc]. subst p. unfold ApproveGroupJoin.
  pose proof (transaction_quiet e Hq ErrRaw (approve_body o u g) _ _ s (approve_runs e (db s) D o u g HR)) as Ht.
  rewrite bind_run. destruct (transaction _ _ _ s) as [[b|y] s1]; cbn [fst snd].
  - destruct Ht as [(HR'&_&->) Hr]. eapply (finish s1 D); [by rewrite Hr|done| |apply dir_approve_other]. elem.
  - destruct Ht as ([Hj|[_ Hn]]&Hd&Hr); [|done]. rewrite Hj, (dir_approve_error _ _ _ _ _ Hj). by apply (refused_view s).
Qed.

(** The random ids are those of no group. *)
Definition fresh_groups (D : directory) : Prop := ∀ n, d_groups D !! ("G" +:+ fresh e n) = None.
(** The first refusal that applies; otherwise a group with a new id. *)
Definition create_refused (known_owner : bool) (owner name : string) (mode : Z) : option gorm_error :=
  if bool_decide (owner = "") || bool_decide (name = "") then Some ErrInvalidGroup
  else if negb known_owner then Some ErrUserNotFound
  else if (mode <? model.GroupAddModeDirect) || (model.GroupAddModeForbidden <? mode) then Some ErrInvalidGroup
  else None.
Lemma CreateGroup_exact s D owner name modes :
  (∀ n, MessageStore.validUUID (fresh e n) = true) → view s D → fresh_sessions e (db s) → fresh_groups D →
  let mode := hd model.GroupAddModeDirect modes in
  let p := CreateGroup e owner name modes s in
  match create_refused (bool_decide (known (db s) owner)) owner name mode with
  | Some x => p.1 = Err x ∧ view p.2 D
  | None => ∃ n, let g := "G" +:+ fresh e n in
      p.1 = Ok (group_view g (Grp name owner [owner] mode)) ∧ view p.2 (dir_create g name owner mode D)
  end.
Proof.
  intros Hids Hv Hf Hg mode p. subst p. unfold CreateGroup, create_refused.
  destruct (decide (owner = "")) as [->|Ho]; [done|]. destruct (decide (name = "")) as [->|Hn].
  { rewrite (bool_decide_true ("" = "")), orb_true_r, (bool_decide_false ("" ≠ "")), andb_false_r by (done || by intros []). done. }
  rewrite !(bool_decide_true (_ ≠ "")), !(bool_decide_false (_ = "")) by done. cbn [orb]. run_request.
  rewrite bind_run, or_fail_run, (query_quiet e Hq), check_run. set (s1 := Store _ _ _).
  assert (view s1 D) as Hv1 by (by destruct Hv; constructor). pose proof Hv1 as [HR Hc].
  case_bool_decide as Hk; cbn [negb].
  2:{ apply known_count in Hk. rewrite Hk. done. }
  destruct (negb _) eqn:Hz.
  2:{ exfalso. apply negb_false_iff, Nat.eqb_eq, known_count in Hz. done. }
  clear Hz. cbn zeta. fold mode. rewrite check_run. destruct (_ || _) eqn:Hm; cbn [negb]; [done|].
  apply orb_false_iff in Hm as [Hm1%Z.ltb_ge Hm2%Z.ltb_ge].
  rewrite bind_run, new_uuid_run. set (n := ops s1). set (s2 := Store _ _ _). exists n. set (g := "G" +:+ fresh e n).
  assert (db s2 = db s ∧ redis s2 = redis s1) as [Hd2 Hr2] by done.
  assert (represents (db s2) D ∧ known (db s2) owner) as [HR2 Hk2] by done. clearbody s2 n.
  pose proof (transaction_quiet e Hq ErrDatabase (create_body (new_group g name owner mode) owner) _ _ s2
    (create_runs e (db s2) D g name owner mode HR2 Hk2 (prefixed_id "G" _ (Hids n)) (conj Hm1 Hm2))) as Ht.
  unfold create_body in Ht. rewrite bind_run.
  destruct (transaction e ErrDatabase _ s2) as [[[]|y] s3]; [|by destruct Ht as [Hx _]; destruct (Hx (Hg n)); rewrite Hd2].
  destruct Ht as [(_&HR'&_) Hr]. rewrite bind_run.
  destruct (finish s3 D (dir_create g name owner mode D) g [OwnedGroupListKey owner; JoinedGroupListKey owner; GroupInfoKey g; GroupMemberListKey g])
    as [Hok Hview]; [by rewrite Hr, Hr2|done|elem| |].
  { intros g' Hne. unfold dir_create. cbn. by rewrite lookup_insert_ne. }
  cbn [model.GroupUUID] in *. rewrite bind_run in Hok, Hview. rewrite bind_run.
  destruct (Delete e _ s3) as [[r|x] s4]; cbn in Hok, Hview |- *; [|done].
  unfold lift. rewrite <-(created_view g owner name mode); [done|by apply (known_user _ _ _ HR)].
Qed.

(** An empty id is refused before anything else. *)
Lemma empty_refused s u g : u = "" ∨ g = "" →
  JoinGroup e u g s = (Err ErrInvalidGroup, s) ∧ LeaveGroup e u g s = (Err ErrInvalidGroup, s).
Proof.
  intros He. unfold JoinGroup, LeaveGroup. rewrite !check_run.
  assert (bool_decide (u ≠ "") && bool_decide (g ≠ "") = false) as ->; [|done].
  apply andb_false_iff. rewrite !bool_decide_eq_false. destruct He as [->| ->]; [left|right]; by intros [].
Qed.

(** ** Reading a group *)

Lemma append_inj_l p a b : (p +:+ a = p +:+ b)%string → a = b.
Proof. induction p as [|c p IH]; cbn; [done|]. intros [= ?]. by apply IH. Qed.
Lemma GroupInfoKey_inj a b : GroupInfoKey a = GroupInfoKey b → a = b.
Proof. unfold GroupInfoKey. by intros ?%append_inj_l%append_inj_l. Qed.
Lemma member_list_key a b : GroupMemberListKey a ≠ GroupInfoKey b.
Proof. unfold GroupMemberListKey, GroupInfoKey. intros Hk%append_inj_l%(f_equal (String.get 6)). done. Qed.

Lemma SetJSON_view {E} k v s D :
  view s D → (∀ g, k = GroupInfoKey g → ∃ G, d_groups D !! g = Some G ∧ v = CObject (IGroup (group_view g G))) →
  ∃ r s', SetJSON (E := E) e k v s = (Ok r, s') ∧ view s' D.
Proof.
  intros [HR Hc] Hk. destruct (SetJSON_quiet e Hq (E := E) k v s) as (Hd&Hr&r&H1).
  destruct (SetJSON e k v s) as [x s']. cbn in *. subst x. exists r, s'. split; [done|].
  constructor; [by rewrite Hd|]. rewrite Hr. intros c g w Hc' Hw. destruct (redis s) as [c0|]; [|done].
  injection Hc' as <-. apply lookup_insert_Some in Hw as [[Hkg <-]|[_ Hw]]; [by apply Hk|by eapply Hc].
Qed.
Lemma GetGroup_exact s D g :
  view s D → g ≠ "" →
  let p := GetGroup e g s in
  p.1 = (match d_groups D !! g with Some G => Ok (group_view g G) | None => Err ErrGroupNotFound end) ∧ view p.2 D.
Proof.
  intros [HR Hc] Hg p. subst p. unfold GetGroup. rewrite bool_decide_true by done.
  cbn [check]. change (mret tt ≫= ?k) with (k tt). cbn beta.
  destruct (GetJSON_quiet e Hq (E := gorm_error) as_group (GroupInfoKey g) s) as [Hd Hj].
  rewrite bind_run. destruct (GetJSON e as_group (GroupInfoKey g) s) as [r s1]. cbn [fst snd] in Hd, Hj.
  assert (represents (db s1) D ∧ coherent (redis s1) D
    ∧ ((∃ G, d_groups D !! g = Some G ∧ r = Ok (Ok (group_view g G))) ∨ ∃ x, r = Ok (Err x))) as (HR1&Hc1&Hr).
  { split; [by rewrite Hd|]. destruct (redis s) as [c|] eqn:Hred; [|destruct Hj as [-> ->]; by eauto].
    destruct (c !! GroupInfoKey g) as [v|] eqn:Hv; [|destruct Hj as [-> ->]; by eauto].
    destruct (Hc _ _ _ eq_refl Hv) as (G&HG&->). cbn in Hj. destruct Hj as [-> ->]. split; [done|]. left. by eexists. }
  destruct Hr as [(G&HG&->)|[x ->]]; [by rewrite HG|]. clear dependent s.
  rewrite bind_run. unfold first, query, statement. rewrite bind_run, (moved_quiet e Hq). cbn. rewrite (quiet_fates e Hq). cbn.
  rewrite (rep_group _ _ HR1). destruct (d_groups D !! g) as [G|] eqn:HG; cbn; [|done].
  unfold check. cbn. rewrite bind_run. unfold lift, groupResponse. cbn.
  rewrite (decodeIDs_marshal _ (members_valid _ _ _ _ HR1 HG)), (decodeIDs_marshal []) by constructor. cbn.
  rewrite bind_run. set (s2 := set_db _ _). assert (view s2 D) as Hv by by constructor. clearbody s2.
  rewrite !bind_run. edestruct (SetJSON_view (E := gorm_error) (GroupInfoKey g)) as (r1&s3&->&Hv3); [exact Hv| |].
  { intros g' ->%GroupInfoKey_inj. exists G. by split. }
  cbn. rewrite !bind_run. edestruct (SetJSON_view (E := gorm_error) (GroupMemberListKey g)) as (r2&s4&->&Hv4); [exact Hv3| |done].
  intros g' Hk. by apply member_list_key in Hk.
Qed.
End Exact.
