(* ===== verification/GroupGuarantees.v ===== *)
(** * What the group service guarantees *)
From stdpp Require Import gmultiset.
From S2P Require Import Prelude GoStd GoTime External Json JsonPrint Samples MessageStore MessageStoreProofs.
From S2P Require Import Tables TablesProofs GormService Directory GroupProofs GroupService GroupExact.
Local Open Scope Z_scope.

(** ** Concrete tables *)

Definition no_tables : tables := MkTables [] [] [] [] [] [] [].
Definition no_groups : directory := Dir ∅ ∅.
Lemma no_member u g : ¬ member no_groups u g.
Proof. intros (G&HG&_). cbn in HG. by rewrite lookup_empty in HG. Qed.
Lemma represents_nothing `{External} : represents no_tables no_groups.
Proof.
  constructor; try done; try (intros ? ? []%no_member); try (intros ? []%elem_of_nil); try constructor; try done.
  all: try (intros ? ? []%no_member); try (intros g G HG; cbn in HG; by rewrite lookup_empty in HG).
  all: try (intros ? ? []%gmultiset_not_elem_of_empty).
Qed.

Definition group1 : string := "G00000000-0000-0000-0000-000000000001".
(** A random source: the number of the step in its last two digits. *)
Definition digit_char (n : nat) : ascii := Ascii.ascii_of_nat (48 + n mod 10).
Definition sample_fresh (n : nat) : string :=
  "10000000-0000-0000-0000-0000000000" +:+ String (digit_char (n / 10)) (String (digit_char n) EmptyString).
Definition sample_env (f : nat → fate) : env := MkEnv f (λ _ x, x) (λ n, Z.of_nat n * second) sample_fresh.
(** The same, with one id that is used up. *)
Definition first_env : env :=
  MkEnv (λ _, Answered) (λ _ x, x) (λ _, second) (λ _, "00000000-0000-0000-0000-000000000009").
Definition row1 : model.UserInfo := model.MkUserInfo user1 "ann" "13900000001" "h1".
Definition row2 : model.UserInfo := model.MkUserInfo user2 "bob" "13900000002" "h2".
Definition user_tables : tables := set_user_info [row1; row2] no_tables.
Definition sample_created : result gorm_error unit * store :=
  create_body (new_group group1 "club" user1 model.GroupAddModeDirect) user1 (alone first_env) (Store user_tables (Some ∅) 0).
Definition sample_store : store := sample_created.2.
Definition sample_directory : directory := dir_create group1 "club" user1 model.GroupAddModeDirect no_groups.

Lemma sample_fresh_ok n : MessageStore.validUUID (H := Reference.external) (sample_fresh n) = true.
Proof.
  assert (∀ k, digit_char k = digit_char (k mod 10)) as Hd.
  { intros k. unfold digit_char. by rewrite Nat.Div0.mod_mod. }
  assert (Forall (λ a, Forall (λ b, MessageStore.validUUID (H := Reference.external)
    ("10000000-0000-0000-0000-0000000000" +:+ String (digit_char a) (String (digit_char b) EmptyString)) = true) (seq 0 10)) (seq 0 10)) as Hall.
  { repeat constructor; vm_compute; reflexivity. }
  unfold sample_fresh. rewrite (Hd (n / 10)%nat), (Hd n). rewrite Forall_forall in Hall.
  assert (∀ k, k mod 10 ∈ seq 0 10)%nat as Hin.
  { intros k. apply elem_of_seq. pose proof (Nat.mod_upper_bound k 10). lia. }
  specialize (Hall _ (Hin (n / 10)%nat)). rewrite Forall_forall in Hall. apply Hall, Hin.
Qed.
Lemma user_tables_represent : represents (H := Reference.external) user_tables no_groups.
Proof.
  apply (@represents_user Reference.external (set_user_info [row1] no_tables) no_groups row2); [|reflexivity..].
  by apply (@represents_user Reference.external no_tables no_groups row1); [apply represents_nothing|reflexivity..].
Qed.
Lemma sample_represents : represents (H := Reference.external) (db sample_store) sample_directory.
Proof.
  pose proof (@create_runs Reference.external first_env user_tables no_groups group1 "club" user1
    model.GroupAddModeDirect user_tables_represent) as Hc.
  destruct (Hc ltac:(by vm_compute; constructor) eq_refl ltac:(done) (Store user_tables (Some ∅) 0) eq_refl) as [Hr _].
  assert (sample_created.1 = Ok tt) as Hok by (vm_compute; reflexivity).
  unfold sample_store. unfold sample_created in *. destruct (create_body _ _ _ _) as [r s']. cbn in Hok. subst r. apply Hr.
Qed.

Lemma sample_others_ok f : others_ok (H := Reference.external) (sample_env f) eq.
Proof. constructor; [intros n x D ?; by exists D|by intros u n x|apply sample_fresh_ok]. Qed.
Lemma sample_quiet : quiet (sample_env (λ _, Answered)).
Proof. by constructor. Qed.
Lemma sample_view : view (H := Reference.external) sample_store sample_directory.
Proof.
  constructor; [apply sample_represents|]. intros c g v Hc. assert (redis sample_store = Some ∅) as Hr by (vm_compute; reflexivity).
  rewrite Hr in Hc. injection Hc as <-. by rewrite lookup_empty.
Qed.
Lemma sample_fresh_sessions f : fresh_sessions (sample_env f) (db sample_store).
Proof.
  intros n s Hs. assert (model.SessionUUID <$> session (db sample_store) = ["S00000000-0000-0000-0000-000000000009"]) as Hu
    by (vm_compute; reflexivity).
  assert (model.SessionUUID s ∈ ["S00000000-0000-0000-0000-000000000009"]) as Hin by (rewrite <-Hu; by apply list_elem_of_fmap_2).
  apply list_elem_of_singleton in Hin as ->. intros Hx%(f_equal (String.get 1)). done.
Qed.

Lemma sample_fresh_groups f : fresh_groups (sample_env f) sample_directory.
Proof.
  intros n. unfold sample_directory, dir_create, no_groups. cbn [d_groups].
  rewrite lookup_insert_ne, lookup_empty; [done|]. intros Hx%(f_equal (String.get 1)). done.
Qed.

(** ** The guarantees *)

Section Guarantees.
Context (bcrypt_generate : string → string → option string) (bcrypt_compare : string → string → bool).
Context (sign_token : string → Z → option string).
Context `{External, !ExternalLaws _}.

(** The answers to a sequence of requests and the tables after it. *)
Fixpoint serve_all (e : env) (rs : list request) (s : store) : list (result gorm_error reply) * store :=
  match rs with
  | [] => ([], s)
  | r :: rs' =>
    let '(a, s1) := serve bcrypt_generate bcrypt_compare sign_token e r s in
    let '(l, s2) := serve_all e rs' s1 in (a :: l, s2)
  end.
(** Each request took the directory on as its answer tells. *)
Inductive history (e : env) (may : directory → directory → Prop) : list (request * result gorm_error reply) → directory → directory → Prop :=
| history_nil D : history e may [] D D
| history_cons r a l D D1 D' : served e may r a D D1 → history e may l D1 D' → history e may ((r, a) :: l) D D'.
Lemma history_steps e may `{!PreOrder may} l D D' :
  (∀ D D', may D D' → rtc (dstep valid_user) D D') → history e may l D D' → rtc (dstep valid_user) D D'.
Proof. intros Hm. induction 1; [done|]. etrans; [by eapply served_run|done]. Qed.

(** C14: whatever requests are made, in whatever order, and whichever statements, commits and
    cache commands fail or lose their answer: if the others move the directory only along
    [may] (any preorder; [eq] says they leave it alone) and delete no user, the tables hold a
    directory at the end, and each request took it there as its answer tells.  A join, leave,
    approval or creation that succeeded did exactly its step; one that failed did nothing,
    unless the answer to its commit was lost, which only its error tells; every other request
    did nothing.  With others that make steps of users, all of it is steps of users.  Every
    directory held so has groups with their owner among distinct members, and each membership
    has its contact and its session row. *)
Theorem groups_simulated e may `{!PreOrder may} D rs s :
  represents (db s) D → others_ok e may →
  ∃ D', history e may (zip rs (serve_all e rs s).1) D D' ∧ represents (db (serve_all e rs s).2) D'
    ∧ ((∀ D D', may D D' → rtc (dstep valid_user) D D') → rtc (dstep valid_user) D D').
Proof.
  intros HR Hok.
  enough (∃ D', history e may (zip rs (serve_all e rs s).1) D D' ∧ represents (db (serve_all e rs s).2) D') as (D'&?&?).
  { exists D'. split_and!; [done..|]. intros Hm. by eapply history_steps. }
  revert s D HR. induction rs as [|r rs IH]; intros s D HR; [exists D; by split; [constructor|]|]. cbn [serve_all].
  pose proof (serve_served bcrypt_generate bcrypt_compare sign_token e may Hok D r s (sim_start may D _ HR)) as Hs. unfold ends in Hs.
  destruct (serve _ _ _ e r s) as [a s1]. destruct Hs as (D1&Hs&HR1). destruct (IH s1 D1 HR1) as (D'&Hh&HR').
  destruct (serve_all e rs s1) as [l s2]. cbn in *. exists D'. split; [|done]. by econstructor.
Qed.

(** C15: when nothing fails and nobody interferes, every group request answers what the directory
    says, with each refusal, and leaves the directory that it says, the cached groups being
    the stored ones before and after: creating (whose first refusal is that of an empty owner
    or name, then of an unknown owner, then of a mode out of range, and whose group has a new
    id and the owner as its only member), joining, leaving and approving; reading a group
    answers the stored group.  An empty id is refused before anything else is done. *)
Theorem group_requests_exact e s D u g :
  quiet e → view s D → fresh_sessions e (db s) → fresh_groups e D → (∀ n, MessageStore.validUUID (fresh e n) = true) →
  (∀ name modes, let mode := hd model.GroupAddModeDirect modes in let p := CreateGroup e u name modes s in
     match create_refused (bool_decide (known (db s) u)) u name mode with
     | Some x => p.1 = Err x ∧ view p.2 D
     | None => ∃ n, let g := "G" +:+ fresh e n in
         p.1 = Ok (group_view g (Grp name u [u] mode)) ∧ view p.2 (dir_create g name u mode D)
     end)
  ∧ (if bool_decide (u = "" ∨ g = "")
     then JoinGroup e u g s = (Err ErrInvalidGroup, s) ∧ LeaveGroup e u g s = (Err ErrInvalidGroup, s)
     else (if bool_decide (known (db s) u)
           then (JoinGroup e u g s).1 = answer_of (dir_join (waits D u g) u g D).1
                ∧ view (JoinGroup e u g s).2 (dir_join (waits D u g) u g D).2
           else (JoinGroup e u g s).1 = Err ErrUserNotFound ∧ view (JoinGroup e u g s).2 D)
          ∧ (LeaveGroup e u g s).1 = answer_of (dir_leave u g D).1 ∧ view (LeaveGroup e u g s).2 (dir_leave u g D).2)
  ∧ (∀ o, (ApproveGroupJoin e o u g s).1 = answer_of (dir_approve o u g D).1
          ∧ view (ApproveGroupJoin e o u g s).2 (dir_approve o u g D).2)
  ∧ (if bool_decide (g = "") then GetGroup e g s = (Err ErrInvalidGroup, s)
     else (GetGroup e g s).1 = (match d_groups D !! g with Some G => Ok (group_view g G) | None => Err ErrGroupNotFound end)
          ∧ view (GetGroup e g s).2 D).
Proof.
  clear bcrypt_generate bcrypt_compare sign_token. intros Hq Hv Hf Hg Hids. split; [|split; [|split]].
  - intros name modes. by apply CreateGroup_exact.
  - case_bool_decide as He; [by apply empty_refused|]. assert (u ≠ "" ∧ g ≠ "") as [Hu Hg'] by tauto.
    split; [by apply JoinGroup_exact|by apply LeaveGroup_exact].
  - intros o. by apply ApproveGroupJoin_exact.
  - case_bool_decide as He; [by subst|by apply GetGroup_exact].
Qed.
End Guarantees.

Lemma groups_simulated_witness :
  let rs := [RJoin user2 group1; RLeave user2 group1; RCreateGroup user2 "den" [1]; RJoin user1 group1] in
  let p := serve_all (λ _ p, Some p) String.eqb (λ u _, Some u)
             (sample_env (λ n, if Nat.even n then Answered else Lost)) rs sample_store in
  ∃ D', history (H := Reference.external) (sample_env (λ n, if Nat.even n then Answered else Lost)) eq (zip rs p.1) sample_directory D'
    ∧ represents (H := Reference.external) (db p.2) D'
    ∧ ((∀ D D', D = D' → rtc (dstep (valid_user (H := Reference.external))) D D')
       → rtc (dstep (valid_user (H := Reference.external))) sample_directory D').
Proof.
  intros rs p. apply (@groups_simulated _ _ _ Reference.external Reference.external_laws).
  - typeclasses eauto.
  - apply sample_represents.
  - apply sample_others_ok.
Defined.
Lemma group_requests_exact_witness :
  (JoinGroup (sample_env (λ _, Answered)) user2 group1 sample_store).1 = Ok tt
  ∧ (GetGroup (sample_env (λ _, Answered)) group1 (JoinGroup (sample_env (λ _, Answered)) user2 group1 sample_store).2).1
    = Ok (response.MkGroup group1 "club" user1 [user1; user2] [] 2 0).
Proof.
  destruct (@group_requests_exact Reference.external Reference.external_laws
    (sample_env (λ _, Answered)) sample_store sample_directory user2 group1 sample_quiet sample_view
    (sample_fresh_sessions _) (sample_fresh_groups _) sample_fresh_ok) as (_&Hj&_).
  rewrite (bool_decide_false (user2 = "" ∨ _)) in Hj by (by intros []).
  rewrite bool_decide_true in Hj by (apply (bool_decide_unpack _); vm_compute; reflexivity).
  destruct Hj as [[Hj _] _]. split; [|vm_compute; reflexivity].
  assert ((dir_join (waits sample_directory user2 group1) user2 group1 sample_directory).1 = None) as Hn by (vm_compute; reflexivity).
  by rewrite Hn in Hj.
Defined.


(** The list of group sessions is cached, and joining a group does not forget it: the session
    of the new member is not listed. *)
Theorem joined_group_not_listed :
  let e := sample_env (λ _, Answered) in
  let s1 := (GetGroupSessionList e user2 sample_store).2 in
  let s2 := (JoinGroup e user2 group1 s1).2 in
  (JoinGroup e user2 group1 s1).1 = Ok tt
  ∧ (GetGroupSessionList e user2 s2).1 = Ok []
  ∧ (λ s, (model.SessionSendId s, model.SessionReceiveId s)) <$> session (db s2) = [(user1, group1); (user2, group1)].
Proof. vm_compute. done. Qed.
