(* ===== verification/GroupToStore.v ===== *)
(** * From groups and sessions to the message store

    The message store reads the tables the business services write.  Whom a request made a
    member may send to the group, and the recipients are its members, the sender among them;
    who left may not.  A session that was opened lets both of its users send. *)
From stdpp Require Import gmultiset.
From S2P Require Import Prelude GoStd GoTime External Json JsonPrint Dto Samples MessageStore MessageStoreProofs.
From S2P Require Import Tables TablesProofs GormService Directory GroupProofs GroupService GroupExact GroupGuarantees.
Local Open Scope Z_scope.

Definition view_session (s : model.Session) : MessageStore.Session :=
  MessageStore.MkSession (model.SessionUUID s) (model.SessionSendId s) (model.SessionReceiveId s) (model.SessionType s).
Definition view_group (g : model.GroupInfo) : MessageStore.GroupInfo :=
  MessageStore.MkGroupInfo (model.GroupUUID g) (model.Members g) (model.Status g).
(** The columns of the tables that the message store reads; it has its own columns of messages. *)
Definition store_view (t : tables) (rows : list MessageStore.message) (next : Z) : database :=
  MkDatabase (model.UserUUID <$> user_info t) (view_session <$> session t) (view_group <$> group_info t)
    ((λ a, (model.AccessUser a, model.AccessSession a)) <$> access t) rows next.

Section View.
Context `{External, !ExternalLaws _}.

Lemma find_fmap {A B} (f : A → B) (p : B → bool) l : find p (f <$> l) = f <$> find (λ x, p (f x)) l.
Proof. induction l as [|x l IH]; cbn; [done|]. by destruct (p (f x)). Qed.

Lemma lockGroup_view t D rows next n u g :
  represents t D →
  let d := store_view t rows next in
  (lockGroup no_fault u g (d, n)).1 =
  match d_groups D !! g with
  | Some G => if bool_decide (u ∈ gr_members G) then Ok (view_group (row g G), sortedUnique (gr_members G))
              else Err MessageStore.ErrForbidden
  | None => Err MessageStore.ErrForbidden
  end.
Proof.
  intros HR d. unfold lockGroup, authorityError, take_row, query, mbind, Tx_bind, no_fault. cbn.
  rewrite find_fmap. cbn. fold (find_group g t). rewrite (rep_group _ _ HR).
  destruct (d_groups D !! g) as [G|] eqn:HG; cbn; [|done].
  assert (decode_ids (marshalIDs (gr_members G)) = Some (gr_members G)) as ->.
  { unfold marshalIDs. apply decode_ids_print. eapply Forall_impl; [by eapply members_valid|]. intros x. by apply stored_id_plain. }
  assert (gr_members G ≠ []) as Hne.
  { intros Hm. pose proof (group_owner _ (dir_group _ _ (rep_ok _ _ HR) _ _ HG)) as Ho. rewrite Hm in Ho. by apply elem_of_nil in Ho. }
  unfold guard. rewrite bool_decide_true by done. cbn.
  assert (forallb (λ m, validID m "U") (gr_members G) = true) as -> by by apply forallb_Forall; eapply members_valid.
  cbn. by case_bool_decide.
Qed.

Lemma find_by_key {A} (f : A → bool) l x : x ∈ l → f x = true → (∀ y, y ∈ l → f y = true → y = x) → find f l = Some x.
Proof.
  intros Hx Hf Hu. destruct (find f l) as [y|] eqn:Hy.
  - apply List.find_some in Hy as [Hin Hb]. f_equal. apply Hu; [by apply list_elem_of_In|done].
  - apply list_elem_of_In in Hx. by rewrite (List.find_none _ _ Hy _ Hx) in Hf.
Qed.
(** Recipients that are users pass. *)
Lemma requireUsers_view ids d n : NoDup (users d) → NoDup ids → ids ⊆ users d →
  (requireUsers no_fault ids (d, n)).1 = Ok tt.
Proof.
  intros Hu. unfold requireUsers. generalize (Nat.le_refl (length ids)). generalize (length ids) at 2 3 as k.
  intros k. revert ids n. induction k as [|k IH]; intros ids n Hk Hi Hs; [done|]. destruct ids as [|x ids]; [done|].
  cbn [requireUsers_from]. set (l := x :: ids) in *. unfold query, guard, mbind, Tx_bind, no_fault. cbn -[take drop].
  assert (NoDup (take 100 l) ∧ NoDup (drop 100 l)) as [Ht Hd].
  { rewrite <-(take_drop 100 l) in Hi. apply NoDup_app in Hi. naive_solver. }
  assert (take 100 l ⊆ users d ∧ drop 100 l ⊆ users d) as [Hst Hsd].
  { rewrite <-(take_drop 100 l) in Hs. set_solver. }
  assert (length (filter (.∈ take 100 l) (users d)) = length (take 100 l)) as ->.
  { apply Permutation_length, NoDup_Permutation; [by apply NoDup_filter|done|].
    intros y. rewrite list_elem_of_filter. set_solver. }
  unfold slen. rewrite Z.eqb_refl. apply IH; [|done..]. rewrite length_drop. subst l. cbn in *. lia.
Qed.
Lemma sortedUnique_nodup l : NoDup (sortedUnique l).
Proof.
  destruct (sortedUnique_spec l) as [Hs _]. clear -Hs.
  induction Hs as [|x k _ IH Hx]; constructor; [|done]. intros Hin. rewrite Forall_forall in Hx. by destruct (Hx x Hin).
Qed.

Lemma nonempty : bool_decide ("" ≠ "") = false.
Proof. apply bool_decide_eq_false. by intros []. Qed.

(** ** Direct sessions *)

(** The only session of a pair is the opened one, whoever asks. *)
Lemma find_direct_view t D rows next s u p :
  represents t D → s ∈ session t → valid_user u → valid_user p →
  (model.SessionSendId s, model.SessionReceiveId s) = sorted_pair u p →
  find_direct u p "" (store_view t rows next) = Some (view_session s)
  ∧ find_direct p u "" (store_view t rows next) = Some (view_session s).
Proof.
  intros HR Hs Hu Hp Hpair.
  assert (∀ x, x ∈ session t → (model.SessionSendId x, model.SessionReceiveId x) = (model.SessionSendId s, model.SessionReceiveId s) → x = s) as Huniq.
  { intros x Hx Hxs. pose proof (rep_pairs _ _ HR) as Hnd. apply list_elem_of_lookup in Hx as [i Hi], Hs as [j Hj].
    assert (i = j) as ->; [|congruence]. eapply NoDup_lookup; [exact Hnd|by rewrite list_lookup_fmap, Hi|].
    rewrite list_lookup_fmap, Hj. cbn. by rewrite Hxs. }
  assert (∀ a b, (a = u ∧ b = p) ∨ (a = p ∧ b = u) → find_direct a b "" (store_view t rows next) = Some (view_session s)) as Hfind; [|by auto].
  intros a b Hab. unfold find_direct. rewrite nonempty. cbn. rewrite find_fmap. rewrite (find_by_key _ _ s); [done|done| |].
  - cbn. apply andb_true_iff. split.
    + destruct (rep_sessions _ _ HR s Hs) as [[_ (G&HG&_)]|[-> _]]; [|done]. exfalso.
      pose proof (head_group_user _ (rep_ids _ _ HR _ _ HG)) as Hh.
      assert (∀ x, valid_user x → head_is x "G" = false) as Hv.
      { intros x [[_ Hx]%andb_true_iff _]%andb_true_iff. destruct x; [done|]. cbn in *. by apply bool_decide_eq_true in Hx as ->. }
      unfold sorted_pair in Hpair. destruct (String.leb u p); injection Hpair as Hs1 Hr1; rewrite Hr1, Hv in Hh; done.
    + unfold pair_of. cbn. unfold sorted_pair in Hpair. apply orb_true_iff. rewrite !andb_true_iff, !bool_decide_eq_true.
      destruct (String.leb u p); injection Hpair as -> ->; naive_solver.
  - intros y Hy [Ht Hpy]%andb_true_iff. apply Huniq; [done|]. rewrite Hpair. cbn in Ht. apply Z.eqb_eq in Ht.
    destruct (rep_sessions _ _ HR y Hy) as [[Hg _]|(_&_&Hle)]; [by rewrite Ht in Hg|].
    unfold pair_of in Hpy. cbn in Hpy. rewrite orb_true_iff, !andb_true_iff, !bool_decide_eq_true in Hpy.
    assert ((model.SessionSendId y = u ∧ model.SessionReceiveId y = p) ∨ (model.SessionSendId y = p ∧ model.SessionReceiveId y = u)) as Hyy
      by naive_solver. clear Hpy. unfold sorted_pair.
    destruct Hyy as [[Ha Hb]|[Ha Hb]]; rewrite Ha, Hb in *; [by rewrite Hle|].
    destruct (String.leb u p) eqn:Hup; [|done]. by rewrite (String.leb_antisym u p Hup Hle).
Qed.

Lemma lockDirect_run u p d n r :
  find_direct u p "" d = Some r → validID (ses_uuid r) "S" = true → validID (ses_send r) "U" = true →
  validID (ses_receive r) "U" = true → ses_send r ≠ ses_receive r → ses_send r = u ∨ ses_receive r = u →
  lockDirect no_fault u p "" (d, n) = (Ok r, (d, S n)).
Proof.
  intros Hf H1 H2 H3 Hne Hu. unfold lockDirect, authorityError, take_row, query, mbind, Tx_bind, no_fault, guard.
  cbn -[find_direct]. rewrite Hf. cbn -[validID]. rewrite H1, H2, H3, bool_decide_true by done. cbn.
  assert (bool_decide (ses_send r = u) || bool_decide (ses_receive r = u) = true) as ->; [|done].
  rewrite orb_true_iff, !bool_decide_eq_true. done.
Qed.
(** A session that [OpenSession] answered is there. *)
Lemma OpenSession_row e s D u p id :
  quiet e → represents (db s) D → valid_user p → (OpenSession e u p s).1 = Ok id →
  let t := db (OpenSession e u p s).2 in
  represents t D ∧ u ≠ p ∧ user_info t = user_info (db s) ∧ ∃ r, r ∈ session t ∧ model.SessionUUID r = id
    ∧ (model.SessionSendId r, model.SessionReceiveId r) = sorted_pair u p.
Proof.
  intros Hq HR Hp. unfold OpenSession. rewrite check_run. destruct (_ && _) eqn:Hne; [|done].
  rewrite !andb_true_iff, !bool_decide_eq_true in Hne. destruct Hne as [_ Hne].
  rewrite bind_run, or_fail_run, (query_quiet e Hq), check_run. destruct (negb _); [|done].
  pose proof (sorted_pair_user u p p Hp (or_intror eq_refl)) as Hh. pose proof (sorted_pair_leb u p) as Hl.
  destruct (sorted_pair u p) as [a b]. rewrite bind_run, (first_quiet e Hq). cbn [db redis ops].
  destruct (find _ (session (db s))) as [r|] eqn:Hf.
  - intros [= <-]. split_and!; try done. exists r. apply List.find_some in Hf as [Hin Hb].
    rewrite andb_true_iff, !bool_decide_eq_true in Hb. destruct Hb as [-> ->]. split_and!; [by apply list_elem_of_In|done|done].
  - rewrite bind_run, new_uuid_run, bind_run, now_run, bind_run, or_fail_run, (write_quiet e Hq). cbn [db redis ops].
    destruct (insert_session _ _) as [t'|] eqn:Hi; [|done]. rewrite !bind_run.
    destruct (Delete_quiet e Hq (E := gorm_error) [SessionPairKey u p; SessionListKey u; SessionListKey p]
      (Store t' (redis s) (S (S (S (S (S (ops s)))))))) as (Hd&Hok&_).
    destruct (Delete e _ _) as [rr s']. cbn in Hd, Hok. subst rr. cbn. intros [= <-]. rewrite Hd.
    assert (represents t' D) as HR' by (eapply represents_session; [exact HR| | | |exact Hi]; done).
    split; [done|]. split; [done|]. unfold insert_session in Hi. destruct (existsb _ _); [done|]. injection Hi as <-. split; [done|].
    eexists. split; [apply elem_of_app; right; by apply list_elem_of_singleton|]. done.
Qed.

(** ** Groups *)

(** What [choose] answers for a group: its members, without duplicates, or a refusal. *)
Definition group_choice (D : directory) (u g : string) : result store_error (string * pb.Destination * list string) :=
  match d_groups D !! g with
  | Some G => if bool_decide (u ∈ gr_members G)
              then Ok (g, pb.MkDestination pb.RECEIVE_TYPE_GROUP g, sortedUnique (gr_members G))
              else Err MessageStore.ErrForbidden
  | None => Err MessageStore.ErrForbidden
  end.
Definition to_group (u g cid text : string) : MessageStore.Input :=
  MkInput u cid (Some (pb.MkDestination pb.RECEIVE_TYPE_GROUP g)) text.
Lemma choose_group t D rows next n u g cid text :
  represents t D → (choose no_fault (to_group u g cid text) "" (store_view t rows next, n)).1 = group_choice D u g.
Proof.
  intros HR. unfold choose, group_choice, to_group. rewrite nonempty. cbn. pose proof (lockGroup_view t D rows next n u g HR) as Hl.
  cbv zeta in Hl. unfold mbind, Tx_bind. destruct (lockGroup no_fault u g _) as [r s]. cbn in Hl. subst r.
  destruct (d_groups D !! g); [|done]. by case_bool_decide.
Qed.
Lemma group_choice_member D u g : member D u g → ∃ l, group_choice D u g = Ok (g, pb.MkDestination pb.RECEIVE_TYPE_GROUP g, l) ∧ u ∈ l.
Proof.
  intros (G&HG&Hu). unfold group_choice. rewrite HG, bool_decide_true by done. eexists. split; [done|]. by rewrite sortedUnique_elem.
Qed.
Lemma group_choice_other D u g : ¬ member D u g → group_choice D u g = Err MessageStore.ErrForbidden.
Proof.
  intros Hn. unfold group_choice. destruct (d_groups D !! g) as [G|] eqn:HG; [|done].
  rewrite bool_decide_false; [done|]. intros ?. apply Hn. by exists G.
Qed.
(** What the requests that succeed do to a membership. *)
Lemma answer_delivered r : answer_of r = Ok tt → r = None.
Proof. by destruct r. Qed.
Lemma joined_member e s D u g :
  quiet e → view s D → fresh_sessions e (db s) → (JoinGroup e u g s).1 = Ok tt →
  ∃ D', represents (db (JoinGroup e u g s).2) D' ∧ member D' u g.
Proof.
  intros Hq Hv Hf Hj. destruct (decide (u = "" ∨ g = "")) as [He|Hne].
  { destruct (empty_refused e s u g He) as [Hx _]. by rewrite Hx in Hj. }
  assert (u ≠ "" ∧ g ≠ "") as [Hu Hg] by tauto. pose proof (JoinGroup_exact e Hq s D u g Hv Hf Hu Hg) as Hx. cbv zeta in Hx.
  case_bool_decide; destruct Hx as [Ha Hview]; rewrite Ha in Hj; [|done]. apply answer_delivered in Hj.
  eexists. split; [by apply view_db|by apply dir_join_member].
Qed.
Lemma approved_member e s D o u g :
  quiet e → view s D → fresh_sessions e (db s) → (ApproveGroupJoin e o u g s).1 = Ok tt →
  ∃ D', represents (db (ApproveGroupJoin e o u g s).2) D' ∧ member D' u g.
Proof.
  intros Hq Hv Hf Hj. destruct (ApproveGroupJoin_exact e Hq s D o u g Hv Hf) as [Ha Hview]. rewrite Ha in Hj. apply answer_delivered in Hj.
  eexists. split; [by apply view_db|by apply dir_approve_member].
Qed.
Lemma left_no_member e s D u g :
  quiet e → view s D → (LeaveGroup e u g s).1 = Ok tt →
  ∃ D', represents (db (LeaveGroup e u g s).2) D' ∧ ¬ member D' u g.
Proof.
  intros Hq Hv Hj. destruct (decide (u = "" ∨ g = "")) as [He|Hne].
  { destruct (empty_refused e s u g He) as [_ Hx]. by rewrite Hx in Hj. }
  assert (u ≠ "" ∧ g ≠ "") as [Hu Hg] by tauto. destruct (LeaveGroup_exact e Hq s D u g Hv Hu Hg) as [Ha Hview].
  rewrite Ha in Hj. apply answer_delivered in Hj. eexists. split; [by apply view_db|by apply dir_leave_no_member].
Qed.
(** A direct session that was opened, seen from both sides. *)
Lemma opened_authorises e s D rows next n u p id cid text :
  quiet e → represents (db s) D → valid_user u → valid_user p → validID id "S" = true → (OpenSession e u p s).1 = Ok id →
  let d := store_view (db (OpenSession e u p s).2) rows next in
  let dest := pb.MkDestination pb.RECEIVE_TYPE_USER in
  (choose no_fault (MkInput u cid (Some (dest p)) text) "" (d, n)).1 = Ok (id, dest p, [u; p])
  ∧ (choose no_fault (MkInput p cid (Some (dest u)) text) "" (d, n)).1 = Ok (id, dest u, [p; u]).
Proof.
  intros Hq HRs Hu Hp Hid Ho d dest.
  destruct (OpenSession_row e s D u p id Hq HRs Hp Ho) as (HR'&Hne&_&r&Hr&Hrid&Hpair).
  destruct (find_direct_view _ D rows next r u p HR' Hr Hu Hp Hpair) as [Hf1 Hf2]. fold d in Hf1, Hf2.
  unfold choose. rewrite nonempty. cbn -[lockDirect]. unfold mbind, Tx_bind. unfold sorted_pair in Hpair.
  destruct (String.leb u p); injection Hpair as Hs1 Hs2;
    rewrite (lockDirect_run _ _ _ n _ Hf1), (lockDirect_run _ _ _ n _ Hf2); cbn; rewrite ?Hs1, ?Hs2, ?Hrid; auto.
Qed.

(** C16: the message store lets exactly the members of a group send to it, and the recipients
    it stores are the members, each once and the sender included, all of whom are users; and
    the requests of the group service decide who that is: whose join or whose application's
    approval was answered with success may send and is a recipient, who left may not send,
    and who created a group is its only recipient.  Once [OpenSession] answered a session,
    both of its users may send in it, to the two of them. *)
Theorem memberships_authorise e s D rows next n :
  quiet e → view s D → fresh_sessions e (db s) → fresh_groups e D → (∀ k, MessageStore.validUUID (fresh e k) = true) →
  NoDup (model.UserUUID <$> user_info (db s)) →
  let sends s' u g cid text := (choose no_fault (to_group u g cid text) "" (store_view (db s') rows next, n)).1 in
  let recipient s' u g := ∀ cid text, ∃ l, sends s' u g cid text = Ok (g, pb.MkDestination pb.RECEIVE_TYPE_GROUP g, l) ∧ u ∈ l in
  (∀ u g cid text, sends s u g cid text = group_choice D u g)
  ∧ (∀ g G, d_groups D !! g = Some G →
       (requireUsers no_fault (sortedUnique (gr_members G)) (store_view (db s) rows next, n)).1 = Ok tt)
  ∧ (∀ u g, (JoinGroup e u g s).1 = Ok tt → recipient (JoinGroup e u g s).2 u g)
  ∧ (∀ o u g, (ApproveGroupJoin e o u g s).1 = Ok tt → recipient (ApproveGroupJoin e o u g s).2 u g)
  ∧ (∀ u g cid text, (LeaveGroup e u g s).1 = Ok tt → sends (LeaveGroup e u g s).2 u g cid text = Err MessageStore.ErrForbidden)
  ∧ (∀ u name modes r cid text, (CreateGroup e u name modes s).1 = Ok r → let g := response.GroupUUID r in
       sends (CreateGroup e u name modes s).2 u g cid text = Ok (g, pb.MkDestination pb.RECEIVE_TYPE_GROUP g, [u]))
  ∧ (∀ u p id cid text, let dest := pb.MkDestination pb.RECEIVE_TYPE_USER in
     valid_user u → valid_user p → validID id "S" = true → (OpenSession e u p s).1 = Ok id →
     let d := store_view (db (OpenSession e u p s).2) rows next in
     (choose no_fault (MkInput u cid (Some (dest p)) text) "" (d, n)).1 = Ok (id, dest p, [u; p])
     ∧ (choose no_fault (MkInput p cid (Some (dest u)) text) "" (d, n)).1 = Ok (id, dest u, [p; u])).
Proof.
  intros Hq Hv Hf Hg Hids Hnd sends recipient. pose proof (view_db _ _ Hv) as HR.
  assert (∀ s' D' u g, represents (db s') D' → member D' u g → recipient s' u g) as Hrec.
  { intros s' D' u g HR' Hm cid text. unfold sends. rewrite (choose_group _ D') by done. by apply group_choice_member. }
  split_and!.
  - intros u g cid text. by apply choose_group.
  - intros g G HG. apply requireUsers_view; [done|apply sortedUnique_nodup|].
    intros u Hu. rewrite sortedUnique_elem in Hu. apply (dir_member _ _ (rep_ok _ _ HR) u g). exists G. by split.
  - intros u g Hj. destruct (joined_member e s D u g Hq Hv Hf Hj) as (D'&?&?). by eapply Hrec.
  - intros o u g Hj. destruct (approved_member e s D o u g Hq Hv Hf Hj) as (D'&?&?). by eapply Hrec.
  - intros u g cid text Hl. destruct (left_no_member e s D u g Hq Hv Hl) as (D'&?&?).
    unfold sends. rewrite (choose_group _ D') by done. by apply group_choice_other.
  - intros u name modes r cid text Hc. pose proof (CreateGroup_exact e Hq s D u name modes Hids Hv Hf Hg) as Hx. cbv zeta in Hx.
    destruct (create_refused _ _ _ _); [by destruct Hx as [Ha _]; rewrite Ha in Hc|]. destruct Hx as (k&Ha&Hv').
    rewrite Ha in Hc. injection Hc as <-. unfold sends. rewrite (choose_group _ _ _ _ _ _ _ _ _ (view_db _ _ Hv')).
    unfold group_choice, dir_create. cbn [d_groups group_view response.GroupUUID]. rewrite lookup_insert_eq. cbn [gr_members].
    by rewrite bool_decide_true by by apply list_elem_of_singleton.
  - intros u p id cid text dest Hu Hp Hid Ho d. by apply (opened_authorises e s D).
Qed.
End View.

Lemma memberships_authorise_witness :
  let e := sample_env (λ _, Answered) in
  (choose (H := Reference.external) no_fault (to_group user1 group1 "" "hi") "" (store_view (db sample_store) [] 1, 0%nat)).1
    = Ok (group1, pb.MkDestination pb.RECEIVE_TYPE_GROUP group1, [user1])
  ∧ (∃ l, (choose (H := Reference.external) no_fault (to_group user2 group1 "" "hi") ""
             (store_view (db (JoinGroup e user2 group1 sample_store).2) [] 1, 0%nat)).1
          = Ok (group1, pb.MkDestination pb.RECEIVE_TYPE_GROUP group1, l) ∧ user2 ∈ l)
  ∧ (choose (H := Reference.external) no_fault
     (MkInput user2 "" (Some (pb.MkDestination pb.RECEIVE_TYPE_USER user1)) "hi") ""
       (store_view (db (OpenSession e user1 user2 sample_store).2) [] 1, 0%nat)).1
    = Ok ("S" +:+ sample_fresh 7, pb.MkDestination pb.RECEIVE_TYPE_USER user1, [user2; user1]).
Proof.
  assert (NoDup (model.UserUUID <$> user_info (db sample_store))) as Hnd by (apply (bool_decide_unpack _); vm_compute; reflexivity).
  destruct (@memberships_authorise Reference.external Reference.external_laws _ _ _ [] 1 0%nat sample_quiet sample_view
    (sample_fresh_sessions _) (sample_fresh_groups _) sample_fresh_ok Hnd) as (Hg&_&Hj&_&_&_&Hs).
  split_and!.
  - rewrite (Hg user1 group1 "" "hi"). vm_compute. reflexivity.
  - apply (Hj user2 group1). vm_compute. reflexivity.
  - eapply (Hs user1 user2 _ "" "hi"); vm_compute; reflexivity.
Defined.
