(* ===== verification/AccountsProofs.v ===== *)
(** * Accounts: registering and logging in *)
From S2P Require Import Prelude GoStd GoTime Samples Tables TablesProofs GormService GroupGuarantees.
Local Open Scope Z_scope.

Section Accounts.
Context (bcrypt_generate : string → string → option string) (bcrypt_compare : string → string → bool).
Context (sign_token : string → Z → option string).
(** golang.org/x/crypto/bcrypt: a password of at most 72 bytes has a hash, which compares with
    it, and no password compares with the empty text. *)
Class BcryptLaws : Prop := {
  bcrypt_hash salt password : len password ≤ 72 →
    ∃ h, bcrypt_generate salt password = Some h ∧ bcrypt_compare h password = true;
  bcrypt_too_long salt password : 72 < len password → bcrypt_generate salt password = None;
  bcrypt_empty password : bcrypt_compare "" password = false
}.
Context `{!BcryptLaws} (e : env) (Hq : quiet e).

#[local] Abbreviation register := (Register bcrypt_generate e).
#[local] Abbreviation login := (Login bcrypt_compare sign_token e).

Lemma count_users_run f s :
  count_users e f s = (Ok (length (List.filter f (user_info (db s)))), Store (db s) (redis s) (S (ops s))).
Proof. unfold count_users. by rewrite bind_run, (query_quiet e Hq). Qed.
Lemma no_rows {A} (f : A → bool) l : (length (List.filter f l) =? 0)%nat = negb (existsb f l).
Proof. induction l as [|x l IH]; cbn; [done|]. by destruct (f x). Qed.

Lemma existsb_last {A} (x : A) (f : A → bool) : f x = true → existsb f [x] = true.
Proof. cbn. by intros ->. Qed.
Definition has_phone (p : string) (u : model.UserInfo) : bool := bool_decide (model.Telephone u = p).
Definition has_name (n : string) (u : model.UserInfo) : bool := bool_decide (model.Nickname u = n).

(** What registering does. *)
Lemma Register_run r s :
  let id := "U" +:+ fresh e (S (S (ops s))) in
  let hash := passwordHash bcrypt_generate (fresh e (S (S (S (ops s))))) (RegPassword r) in
  let row := model.MkUserInfo id (RegNickname r) (RegTelephone r) hash in
  ∃ n, register r s =
    if negb (isPhone (RegTelephone r)) then (Err ErrInvalidRegister, s)
    else if existsb (has_phone (RegTelephone r)) (user_info (db s)) then (Err ErrTelephoneExists, Store (db s) (redis s) n)
    else if existsb (has_name (RegNickname r)) (user_info (db s)) then (Err ErrUsernameExists, Store (db s) (redis s) n)
    else match insert_user row (db s) with
         | None => (Err ErrCreateUserFailed, Store (db s) (redis s) n)
         | Some t => (Ok (response.MkUser id (RegNickname r) (RegTelephone r)), Store t (redis s) n)
         end.
Proof.
  cbn zeta. unfold Register. rewrite check_run. destruct (isPhone _); [|by exists 0%nat]. cbn.
  rewrite bind_run, count_users_run, check_run, no_rows. fold (has_phone (RegTelephone r)).
  destruct (existsb (has_phone _) _); [by eexists|]. cbn.
  rewrite bind_run, count_users_run, check_run, no_rows. fold (has_name (RegNickname r)). cbn.
  destruct (existsb (has_name _) _); [by eexists|]. cbn.
  rewrite bind_run, new_uuid_run, bind_run, new_uuid_run, bind_run, or_fail_run, (write_quiet e Hq). cbn.
  destruct (insert_user _ _); by eexists.
Qed.
Lemma Login_run telephone password s :
  ∃ n n', login telephone password s =
    match find (has_phone telephone) (user_info (db s)) with
    | None => (Err ErrUserNotFound, Store (db s) (redis s) n)
    | Some u =>
      if bcrypt_compare (model.PasswordHash u) password
      then match sign_token (model.UserUUID u) ((clock e n' + 24 * 60 * minute) / second) with
           | Some token => (Ok (MkLogin (model.UserUUID u) (model.Nickname u) token), Store (db s) (redis s) n)
           | None => (Err ErrLoginFailed, Store (db s) (redis s) n)
           end
      else (Err ErrInvalidPassword, Store (db s) (redis s) n)
    end.
Proof.
  unfold Login. rewrite bind_run, count_users_run, check_run, no_rows. fold (has_phone telephone). rewrite negb_involutive.
  destruct (find (has_phone telephone) (user_info (db s))) as [u|] eqn:Hf.
  2:{ exists (S (ops s)), 0%nat. destruct (existsb _ _) eqn:Hx; [|done]. apply List.existsb_exists in Hx as (u&Hin&Hb).
      by rewrite (List.find_none _ _ Hf _ Hin) in Hb. }
  assert (existsb (has_phone telephone) (user_info (db s)) = true) as ->.
  { apply List.existsb_exists. exists u. by apply List.find_some in Hf. }
  rewrite bind_run, or_fail_run, (first_quiet e Hq). cbn. fold (has_phone telephone). rewrite Hf, check_run.
  destruct (bcrypt_compare _ _); [|by eexists _, 0%nat]. unfold generateToken. rewrite !bind_run, now_run. cbn.
  destruct (sign_token _ _) eqn:Ht; eexists _, _; by rewrite Ht.
Qed.

(** C17: a free telephone number and name can be registered and are taken from then on.  The
    row of the account holds the hash that bcrypt makes of the password and a random salt, and
    no hash when bcrypt makes none.  From then on a login with the number and any password [q]
    succeeds, as that user, if bcrypt accepts [q] for the stored hash, and is refused as a
    wrong password otherwise.  So the account's password logs in if it has at most 72 bytes;
    an account with a longer password is registered all the same, and nothing logs it in. *)
Theorem register_and_login r s :
  isPhone (RegTelephone r) = true →
  existsb (has_phone (RegTelephone r)) (user_info (db s)) = false →
  existsb (has_name (RegNickname r)) (user_info (db s)) = false →
  (∀ n u, u ∈ user_info (db s) → model.UserUUID u ≠ "U" +:+ fresh e n) →
  (∀ u t, is_Some (sign_token u t)) →
  ∃ id salt s1, register r s = (Ok (response.MkUser id (RegNickname r) (RegTelephone r)), s1)
    ∧ let hash := default "" (bcrypt_generate salt (RegPassword r)) in
      model.MkUserInfo id (RegNickname r) (RegTelephone r) hash ∈ user_info (db s1)
    ∧ (∀ r', isPhone (RegTelephone r') = true → RegTelephone r' = RegTelephone r → (register r' s1).1 = Err ErrTelephoneExists)
    ∧ (∀ r', isPhone (RegTelephone r') = true → existsb (has_phone (RegTelephone r')) (user_info (db s1)) = false →
         RegNickname r' = RegNickname r → (register r' s1).1 = Err ErrUsernameExists)
    ∧ (∀ q, if bcrypt_compare hash q
            then ∃ token at_, sign_token id at_ = Some token ∧ (login (RegTelephone r) q s1).1 = Ok (MkLogin id (RegNickname r) token)
            else (login (RegTelephone r) q s1).1 = Err ErrInvalidPassword)
    ∧ if len (RegPassword r) <=? 72 then bcrypt_compare hash (RegPassword r) = true else ∀ q, bcrypt_compare hash q = false.
Proof.
  intros Hphone Hp Hn Hfresh Hsign. destruct (Register_run r s) as [n Hr]. cbn zeta in Hr. rewrite Hphone, Hp, Hn in Hr. cbn in Hr.
  set (id := "U" +:+ fresh e (S (S (ops s)))) in *.
  set (u := model.MkUserInfo id (RegNickname r) (RegTelephone r)
              (passwordHash bcrypt_generate (fresh e (S (S (S (ops s))))) (RegPassword r))) in *.
  assert (insert_user u (db s) = Some (set_user_info (user_info (db s) ++ [u]) (db s))) as Hi.
  { unfold insert_user. match goal with |- (if ?b then _ else _) = _ => destruct b eqn:Hx; [|done] end. apply List.existsb_exists in Hx as (v&Hin&Hb).
    apply orb_true_iff in Hb as [Hb|Hb]; apply bool_decide_eq_true in Hb.
    - by destruct (Hfresh (S (S (ops s))) v); [apply list_elem_of_In|].
    - assert (existsb (has_phone (RegTelephone r)) (user_info (db s)) = true) as Hc; [|by rewrite Hp in Hc].
      apply List.existsb_exists. exists v. split; [done|]. by apply bool_decide_eq_true. }
  rewrite Hi in Hr. eexists id, (fresh e (S (S (S (ops s))))), _. split; [exact Hr|]. cbn zeta.
  fold (passwordHash bcrypt_generate (fresh e (S (S (S (ops s))))) (RegPassword r)).
  assert (find (has_phone (RegTelephone r)) (user_info (db s) ++ [u]) = Some u) as Hf.
  { rewrite find_app. destruct (find _ (user_info (db s))) as [v|] eqn:Hv.
    - apply List.find_some in Hv. assert (existsb (has_phone (RegTelephone r)) (user_info (db s)) = true) as Hc; [|by rewrite Hp in Hc].
      apply List.existsb_exists. by exists v.
    - cbn. unfold has_phone. by rewrite bool_decide_true. }
  split; [apply elem_of_app; right; by apply list_elem_of_singleton|].
  split; [|split; [|split]].
  - intros r' Hphone' Ht. edestruct (Register_run r') as [n' ->]. rewrite Hphone'. cbn [negb db user_info set_user_info].
    assert (has_phone (RegTelephone r') u = true) as Hu by by apply bool_decide_eq_true.
    by rewrite List.existsb_app, (existsb_last u _ Hu), orb_true_r.
  - intros r' Hphone' Hno Hname. edestruct (Register_run r') as [n' ->]. rewrite Hphone'. cbn [negb]. rewrite Hno. cbn [db user_info set_user_info].
    assert (has_name (RegNickname r') u = true) as Hu by by apply bool_decide_eq_true.
    by rewrite List.existsb_app, (existsb_last u _ Hu), orb_true_r.
  - intros q. destruct (Login_run (RegTelephone r) q (Store (set_user_info (user_info (db s) ++ [u]) (db s)) (redis s) n)) as (n1&n2&->).
    cbn [db user_info set_user_info]. rewrite Hf. cbn [model.PasswordHash u]. destruct (bcrypt_compare _ q); [|done].
    destruct (Hsign id ((clock e n2 + 24 * 60 * minute) / second)) as [token Ht]. exists token. eexists. split; [exact Ht|]. cbn. by rewrite Ht.
  - unfold passwordHash. destruct (Z.leb_spec (len (RegPassword r)) 72) as [Hle|Hlong].
    + destruct (bcrypt_hash (fresh e (S (S (S (ops s))))) _ Hle) as (h&Hh&Hc). by rewrite Hh.
    + intros q. by rewrite bcrypt_too_long, bcrypt_empty.
Qed.
End Accounts.

(** A hash for the witness: the salt and the password. *)
Definition toy_generate (salt password : string) : option string :=
  if len password <=? 72 then Some ("$" +:+ password) else None.
Definition toy_compare (hash password : string) : bool := bool_decide (hash = "$" +:+ password).
#[export] Instance toy_laws : BcryptLaws toy_generate toy_compare.
Proof.
  constructor.
  - intros salt p Hp. exists ("$" +:+ p). unfold toy_generate, toy_compare. rewrite (proj2 (Z.leb_le _ _) Hp).
    by rewrite bool_decide_true.
  - intros salt p Hp. unfold toy_generate. by rewrite (proj2 (Z.leb_gt _ _) Hp).
  - intros p. unfold toy_compare. by apply bool_decide_eq_false.
Qed.

Definition sample_request : RegisterRequest := MkRegister "13900000003" "secret" "cid".
Lemma register_and_login_witness :
  let e := sample_env (λ _, Answered) in
  ∃ id s1 token, Register toy_generate e sample_request sample_store = (Ok (response.MkUser id "cid" "13900000003"), s1)
    ∧ (Login toy_compare (λ u _, Some u) e "13900000003" "secret" s1).1 = Ok (MkLogin id "cid" token)
    ∧ (Login toy_compare (λ u _, Some u) e "13900000003" "guess" s1).1 = Err ErrInvalidPassword.
Proof.
  assert (user_info (db sample_store) = [row1; row2]) as Hu by (vm_compute; reflexivity).
  destruct (register_and_login toy_generate toy_compare (λ u _, Some u) (sample_env (λ _, Answered)) sample_quiet sample_request sample_store)
    as (id&salt&s1&Hr&_&_&_&Hl&_).
  - vm_compute. reflexivity.
  - rewrite Hu. vm_compute. reflexivity.
  - rewrite Hu. vm_compute. reflexivity.
  - rewrite Hu. intros n u [-> |[-> |[]%elem_of_nil]%elem_of_cons]%elem_of_cons; intros Hx%(f_equal (String.get 1)); done.
  - intros u t. by eexists.
  - destruct (Hl "secret") as (token&at_&_&Ht). by exists id, s1, token; split_and!; [|exact Ht|exact (Hl "guess")].
Defined.
