(* ===== verification/AiService.v ===== *)
(** * The access of the assistant: [internal/service/aiservice]

    Which sessions a user opened to the assistant, and what it may then list, read, search and
    send.  [like] is the [LIKE] of the database. *)
From S2P Require Import Prelude GoStd GoText Tables GormService.
Local Open Scope Z_scope.

Inductive ai_error : Type :=
| ErrInvalidSetting | ErrInvalidToolInput | ErrAccessForbidden | ErrMessageNotFound | ErrAiDatabase
(** An error of the commit, passed on as it is. *)
| ErrCommit.
Global Instance ai_error_eq_dec : EqDecision ai_error.
Proof. solve_decision. Defined.

Definition MaxAllowedSessions : Z := 200.
Definition DefaultSessionLimit : Z := 50.
Definition MaxSessionLimit : Z := 100.
Definition DefaultRecentMessageLimit : Z := 50.
Definition MaxRecentMessageLimit : Z := 100.
Definition DefaultSearchMessageLimit : Z := 30.
Definition MaxSearchMessageLimit : Z := 50.
Definition MaxSearchQueryLength : Z := 200.
Definition MaxAIMessageContentLength : Z := 4000.

Record AISettingPeerResponse : Type := MkPeer { PeerId : string; PeerNickname : string }.
Record AISettingSessionResponse : Type := MkSetting {
  SettingSession : string; Peer : AISettingPeerResponse; AIAccessAllowed : bool
}.
Record AllowedSession : Type := MkAllowed {
  AllowedUUID : string; PeerUUID : string; PeerName : string; AllowedCreatedAt : Z
}.
Record AIMessage : Type := MkAIMessage {
  AiUUID : string; AiSession : string; SenderUUID : string; SenderName : string; ReceiverUUID : string;
  AiType : Z; AiContent : string; AiOrigin : Z; AiCreatedAt : Z
}.
Record MessagePage : Type := MkPage { PageMessages : list AIMessage; HasMore : bool }.

(** ** Conditions on rows *)

Definition blank (s : string) : bool := bool_decide (trim_space s = "").
Definition party (user : string) (s : model.Session) : bool :=
  bool_decide (model.SessionSendId s = user) || bool_decide (model.SessionReceiveId s = user).
Definition granted (user session : string) (a : model.UserAISessionAccess) : bool :=
  bool_decide (model.AccessSession a = session) && bool_decide (model.AccessUser a = user).
(** The sessions of [user] joined with the rows that open them. *)
Definition accessible (user : string) (t : tables) : list model.Session :=
  flat_map (λ s, if party user s then (λ _, s) <$> List.filter (granted user (model.SessionUUID s)) (access t) else [])
    (session t).
Definition accessible_at (user session : string) (t : tables) : list model.Session :=
  List.filter (λ s, bool_decide (model.SessionUUID s = session)) (accessible user t).
Definition nickname_of (id : string) (t : tables) : option string :=
  model.Nickname <$> find (λ u, bool_decide (model.UserUUID u = id)) (user_info t).
(** The nicknames of some users by their id. *)
Definition names_of (users : list model.UserInfo) : gmap string string :=
  foldl (λ names u, <[model.UserUUID u := model.Nickname u]> names) ∅ users.
Definition users_in (ids : list string) (t : tables) : list model.UserInfo :=
  List.filter (λ u, bool_decide (model.UserUUID u ∈ ids)) (user_info t).

Definition normalizeSessionUUIDs (uuids : list string) : result ai_error (list string) :=
  if MaxAllowedSessions <? slen uuids then Err ErrInvalidSetting
  else
    let trimmed := trim_space <$> uuids in
    if existsb (λ s, bool_decide (s = "")) trimmed then Err ErrInvalidSetting
    else
      let unique : gset string := list_to_set trimmed in
      if MaxAllowedSessions <? Z.of_nat (size unique) then Err ErrInvalidSetting
      else Ok (sort_strings (elements unique)).
Definition normalizeLimit (value defaultValue maximum : Z) : result ai_error Z :=
  if value =? 0 then Ok defaultValue
  else if (value <? 1) || (maximum <? value) then Err ErrInvalidToolInput
  else Ok value.

(** One pass over the text: the three special characters are put behind a backslash. *)
Fixpoint escapeLike (value : string) : string :=
  match value with
  | "" => ""
  | String c rest =>
    if bool_decide (c = "\"%char) || bool_decide (c = "%"%char) || bool_decide (c = "_"%char)
    then String "\"%char (String c (escapeLike rest))
    else String c (escapeLike rest)
  end.

(** Swapping the ends until the indices meet. *)
Fixpoint reverse_from {A} (fuel left right : nat) (l : list A) : list A :=
  match fuel with
  | O => l
  | S fuel =>
    if (left <? right)%nat then
      match l !! left, l !! right with
      | Some x, Some y => reverse_from fuel (S left) (right - 1) (<[right := x]> (<[left := y]> l))
      | _, _ => l
      end
    else l
  end.
Definition reverseMessages {A} (l : list A) : list A := reverse_from (length l) 0 (length l - 1) l.

Section AiService.
Context (like : string → string → bool) (e : env).
#[local] Abbreviation M := (Prog ai_error).
#[local] Abbreviation database m := (or_fail ErrAiDatabase m).

(** ** Settings ([setting_service.go]) *)

Definition setting_of (allowed : gset string) (names : gmap string string) (user : string) (s : model.Session)
  : AISettingSessionResponse :=
  MkSetting (model.SessionUUID s) (MkPeer (peer_of user s) (default "" (names !! peer_of user s)))
    (bool_decide (model.SessionUUID s ∈ allowed)).
Definition getAISetting (user : string) : M (list AISettingSessionResponse) :=
  (sessions ← database (query e (λ t, order_by model.SessionCreatedAt (List.filter (party user) (session t))));
   if bool_decide (length sessions = 0%nat) then mret []
   else
     accesses ← database (query e (λ t,
       List.filter (λ a, bool_decide (model.AccessUser a = user)
                         && bool_decide (model.AccessSession a ∈ model.SessionUUID <$> sessions)) (access t)));
     peers ← database (query e (users_in (peer_of user <$> sessions)));
     mret (setting_of (list_to_set (model.AccessSession <$> accesses)) (names_of peers) user <$> sessions)).
Definition GetAISetting (user : string) : M (list AISettingSessionResponse) :=
  (check (negb (blank user)) ErrInvalidSetting;;
   getAISetting user).

Definition revoked (user : string) (uuids : list string) (a : model.UserAISessionAccess) : bool :=
  bool_decide (model.AccessUser a = user) && negb (bool_decide (model.AccessSession a ∈ uuids)).
(** The transaction of [ChangeAISetting]. *)
Definition change_body (user : string) (uuids : list string) (e : env) : M unit :=
  ((if bool_decide (uuids = []) then mret tt
    else
      count ← or_fail ErrAiDatabase (query e (λ t,
        slen (List.filter (λ s, bool_decide (model.SessionUUID s ∈ uuids) && party user s) (session t))));
      check (count =? slen uuids) ErrAccessForbidden);;
   or_fail ErrAiDatabase (write e (λ t, Some (set_access (List.filter (λ a, negb (revoked user uuids a)) (access t)) t)));;
   if bool_decide (uuids = []) then mret tt
   else
     existing ← or_fail ErrAiDatabase (query e (λ t,
       List.filter (λ a, bool_decide (model.AccessUser a = user) && bool_decide (model.AccessSession a ∈ uuids)) (access t)));
     let existingIDs : gset string := list_to_set (model.AccessSession <$> existing) in
     let toCreate := List.filter (λ id, negb (bool_decide (id ∈ existingIDs))) uuids in
     if bool_decide (toCreate = []) then mret tt
     else or_fail ErrAiDatabase (write e (insert_access (model.MkAccess user <$> toCreate)))).
Definition ChangeAISetting (user : string) (allowedSessionUUIDs : list string) : M (list AISettingSessionResponse) :=
  (check (negb (blank user)) ErrInvalidSetting;;
   uuids ← lift (normalizeSessionUUIDs allowedSessionUUIDs);
   transaction e ErrCommit (change_body user uuids);;
   getAISetting user).
Definition ListAllowedSessionUUIDs (user : string) : M (list string) :=
  (check (negb (blank user)) ErrInvalidSetting;;
   database (query e (λ t,
     sort_strings (model.AccessSession <$> List.filter (λ a, bool_decide (model.AccessUser a = user)) (access t))))).

(** ** Sessions ([session_service.go]) *)

(** The join with the peer drops sessions whose peer is no user. *)
Definition allowed_session (user : string) (t : tables) (s : model.Session) : list AllowedSession :=
  match nickname_of (peer_of user s) t with
  | Some name => [MkAllowed (model.SessionUUID s) (peer_of user s) name (model.SessionCreatedAt s)]
  | None => []
  end.
Definition ListAllowedSessions (user : string) (limit : Z) : M (list AllowedSession) :=
  (check (negb (blank user)) ErrInvalidToolInput;;
   limit ← lift (normalizeLimit limit DefaultSessionLimit MaxSessionLimit);
   database (query e (λ t,
     take (Z.to_nat limit) (flat_map (allowed_session user t) (reverse (order_by model.SessionCreatedAt (accessible user t))))))).
Definition ensureSessionAccess (user session : string) : M unit :=
  (check (negb (blank user || blank session)) ErrInvalidToolInput;;
   count ← database (query e (λ t, slen (accessible_at user session t)));
   check (count =? 1) ErrAccessForbidden).

(** ** Messages ([message_service.go]) *)

Definition map_error {A} (x : ai_error) (m : Prog gorm_error A) : M A := λ s,
  match m s with (Ok a, s') => (Ok a, s') | (Err _, s') => (Err x, s') end.
Definition SendMessage (user session content : string) : M AIMessage :=
  (let user := trim_space user in
   let session := trim_space session in
   let content := trim_space content in
   check (negb (bool_decide (user = "") || bool_decide (session = "") || bool_decide (content = "")
                || (MaxAIMessageContentLength <? rune_count content))) ErrInvalidToolInput;;
   r ← first e (λ t, head (accessible_at user session t));
   match r with
   | Err RecordNotFound => fail ErrAccessForbidden
   | Err DbFailed => fail ErrAiDatabase
   | Ok s =>
     sender ← database (first e (λ t, find (λ u, bool_decide (model.UserUUID u = user)) (user_info t)));
     created ← map_error ErrAiDatabase (SendAIMessage e user (peer_of user s) content);
     mret (MkAIMessage (response.UUID created) (response.SessionID created) (response.SendID created)
             (model.Nickname sender) (response.ReceiveID created) (response.Type_ created)
             (response.Content created) (response.Origin created) (response.CreatedAt created))
   end).

Definition ai_message (names : gmap string string) (m : model.Message) : AIMessage :=
  MkAIMessage (model.MessageUUID m) (model.SessionId m) (model.SendId m) (default "" (names !! model.SendId m))
    (model.ReceiveId m) (model.MessageType m) (model.Content m) (model.Origin m) (model.MessageCreatedAt m).
Definition mapMessages (ms : list model.Message) : M (list AIMessage) :=
  match ms with
  | [] => mret []
  | _ =>
    senders ← database (query e (users_in (remove_dups (model.SendId <$> ms))));
    mret (ai_message (names_of senders) <$> ms)
  end.
(** Newest first: the rows come in the order of their ids. *)
Definition newest (p : model.Message → bool) (t : tables) : list model.Message :=
  reverse (order_by model.MessageCreatedAt (List.filter p (messages t))).
Definition before (b : option model.Message) (m : model.Message) : bool :=
  match b with
  | None => true
  | Some b => (model.MessageCreatedAt m <? model.MessageCreatedAt b)
              || (model.MessageCreatedAt m =? model.MessageCreatedAt b) && (model.MessageID m <? model.MessageID b)
  end.
Definition in_session (session : string) (m : model.Message) : bool := bool_decide (model.SessionId m = session).
Definition boundary_of (session beforeMessageUUID : string) : M (option model.Message) :=
  if bool_decide (beforeMessageUUID = "") then mret None
  else
    (r ← first e (λ t, find (λ m, bool_decide (model.MessageUUID m = beforeMessageUUID) && in_session session m) (messages t));
     match r with
     | Ok m => mret (Some m)
     | Err RecordNotFound => fail ErrMessageNotFound
     | Err DbFailed => fail ErrAiDatabase
     end).
Definition GetRecentMessages (user session beforeMessageUUID : string) (limit : Z) : M MessagePage :=
  (ensureSessionAccess user session;;
   limit ← lift (normalizeLimit limit DefaultRecentMessageLimit MaxRecentMessageLimit);
   boundary ← boundary_of session beforeMessageUUID;
   ms ← database (query e (λ t, take (Z.to_nat (limit + 1)) (newest (λ m, in_session session m && before boundary m) t)));
   let hasMore := limit <? slen ms in
   let ms := if hasMore then take (Z.to_nat limit) ms else ms in
   result ← mapMessages (reverseMessages ms);
   mret (MkPage result hasMore)).

(** The sessions a search looks at. *)
Definition searched (user session : string) (t : tables) (m : model.Message) : bool :=
  if bool_decide (session ≠ "") then in_session session m
  else existsb (λ s, bool_decide (model.SessionUUID s = model.SessionId m)) (accessible user t).
Definition SearchMessages (user queryText session : string) (limit : Z) : M (list AIMessage) :=
  (let queryText := trim_space queryText in
   check (negb (bool_decide (user = "") || bool_decide (queryText = "") || (MaxSearchQueryLength <? rune_count queryText)))
     ErrInvalidToolInput;;
   limit ← lift (normalizeLimit limit DefaultSearchMessageLimit MaxSearchMessageLimit);
   (if bool_decide (session ≠ "") then ensureSessionAccess user session else mret tt);;
   ms ← database (query e (λ t,
     take (Z.to_nat limit)
       (newest (λ m, like (model.Content m) ("%" +:+ escapeLike queryText +:+ "%") && searched user session t m) t)));
   mapMessages ms).
End AiService.
