(* ===== verification/AiSearch.v ===== *)
(** * Rows in order, and searching for a text with LIKE

    [order_by] is the sorted arrangement of rows that come in the order of their ids, so a
    selection of the rows is arranged as the arrangement is selected; reversing in place is
    [reverse].  The documented meaning of [LIKE] and what [escapeLike] makes of it: the pattern of
    a search matches exactly the texts that contain the words of the user, whatever characters
    they are made of. *)
From S2P Require Import Prelude GoStd GoText JsonRound TextRound CometFramesProofs Tables GormService AiService.
Local Open Scope Z_scope.

(** ** Rows *)

Section Sorted.
Context {A : Type} (created id : A → Z).

(** First by the instant, then by the id. *)
Definition earlier (x y : A) : Prop := created x < created y ∨ created x = created y ∧ id x < id y.
Lemma earlier_irrefl x : ¬ earlier x x.
Proof. unfold earlier. lia. Qed.
Lemma earlier_trans x y z : earlier x y → earlier y z → earlier x z.
Proof. unfold earlier. lia. Qed.

Lemma place_permutation x l : place created x l ≡ₚ x :: l.
Proof.
  induction l as [|y l IH]; cbn; [done|]. destruct (_ <=? _); [|done].
  rewrite IH. apply Permutation_swap.
Qed.
Lemma order_by_app l x : order_by created (l ++ [x]) = place created x (order_by created l).
Proof. unfold order_by. by rewrite foldl_app. Qed.
Lemma order_by_permutation l : order_by created l ≡ₚ l.
Proof.
  induction l as [|x l IH] using rev_ind; [done|].
  by rewrite order_by_app, place_permutation, IH, Permutation_cons_append.
Qed.
Lemma elem_of_order_by x l : x ∈ order_by created l ↔ x ∈ l.
Proof. by rewrite order_by_permutation. Qed.
Lemma length_order_by l : length (order_by created l) = length l.
Proof. by rewrite order_by_permutation. Qed.

Lemma place_sorted x l :
  StronglySorted earlier l → Forall (λ y, id y < id x) l → StronglySorted earlier (place created x l).
Proof.
  intros Hl Hx. induction Hl as [|y l Hl IH Hy]; cbn; [by repeat constructor|].
  apply Forall_cons in Hx as [Hyx Hx]. destruct (created y <=? created x) eqn:Hc.
  - constructor; [by apply IH|]. rewrite place_permutation. constructor; [|done]. unfold earlier. lia.
  - assert (earlier x y) as Hxy by (unfold earlier; lia). constructor; [by constructor|]. constructor; [done|].
    eapply Forall_impl; [exact Hy|]. intros z. by apply earlier_trans.
Qed.
(** Rows in the order of their ids. *)
Definition by_id : list A → Prop := StronglySorted (λ x y, id x < id y).
Lemma by_id_app l x : by_id (l ++ [x]) → by_id l ∧ Forall (λ y, id y < id x) l.
Proof.
  unfold by_id. induction l as [|y l IH]; cbn; intros Hs; [by repeat constructor|].
  apply StronglySorted_inv in Hs as [Hs Hy]. destruct (IH Hs) as [Hl Hx]. apply Forall_app in Hy as [Hyl [Hyx _]%Forall_cons].
  by repeat constructor.
Qed.
Lemma order_by_sorted l : by_id l → StronglySorted earlier (order_by created l).
Proof.
  induction l as [|x l IH] using rev_ind; [constructor|]. intros [Hl Hx]%by_id_app. rewrite order_by_app.
  apply place_sorted; [by apply IH|]. by rewrite order_by_permutation.
Qed.

Lemma filter_sorted (R : A → A → Prop) (p : A → bool) l : StronglySorted R l → StronglySorted R (List.filter p l).
Proof.
  induction 1 as [|x l _ IH Hx]; cbn; [constructor|]. destruct (p x); [|done]. constructor; [done|].
  rewrite Forall_forall in *. intros y Hy. apply Hx. apply list_elem_of_In, List.filter_In in Hy as [Hy _]. by apply list_elem_of_In.
Qed.
Lemma filter_permutation (p : A → bool) l k : l ≡ₚ k → List.filter p l ≡ₚ List.filter p k.
Proof.
  induction 1 as [|x l k _ IH|x y l|l k m _ IH1 _ IH2]; cbn; [done| | |by etrans].
  - destruct (p x); [by constructor|done].
  - destruct (p x), (p y); (done || constructor).
Qed.
Lemma sorted_unique l k : StronglySorted earlier l → StronglySorted earlier k → l ≡ₚ k → l = k.
Proof.
  intros Hl. revert k. induction Hl as [|x l Hl IH Hx]; intros k Hk Hp; [by apply Permutation_nil_l in Hp|].
  destruct Hk as [|y k Hk Hy]; [by apply Permutation_nil_r in Hp|].
  assert (x = y) as <-.
  { assert (x ∈ y :: k) as Hxk by (rewrite <-Hp; by constructor). assert (y ∈ x :: l) as Hyl by (rewrite Hp; by constructor).
    apply elem_of_cons in Hxk as [->|Hxk]; [done|]. apply elem_of_cons in Hyl as [<-|Hyl]; [done|].
    rewrite Forall_forall in Hx, Hy. destruct (earlier_irrefl x). eapply earlier_trans; [by apply Hx|by apply Hy]. }
  f_equal. apply IH; [done|]. by apply Permutation_cons_inv in Hp.
Qed.
Lemma order_by_filter p l : by_id l → order_by created (List.filter p l) = List.filter p (order_by created l).
Proof.
  intros Hl. apply sorted_unique.
  - apply order_by_sorted. by apply filter_sorted.
  - by apply filter_sorted, order_by_sorted.
  - rewrite order_by_permutation. by apply filter_permutation, Permutation_sym, order_by_permutation.
Qed.
End Sorted.

(** ** Reversing in place *)

Lemma reverse_from_spec {A} fuel (pre mid post : list A) left right :
  left = length pre → right = (length pre + length mid - 1)%nat → (length mid ≤ fuel)%nat →
  reverse_from fuel left right (pre ++ mid ++ post) = pre ++ reverse mid ++ post.
Proof.
  revert pre mid post left right. induction fuel as [|fuel IH]; intros pre mid post left right Hl Hr Hf.
  { destruct mid; [done|cbn in Hf; lia]. }
  cbn [reverse_from]. destruct mid as [|x mid].
  { by rewrite (proj2 (Nat.ltb_ge left right)) by (cbn in *; lia). }
  destruct mid as [|y mid _] using rev_ind.
  { by rewrite (proj2 (Nat.ltb_ge left right)) by (cbn in *; lia). }
  cbn [length] in *. rewrite length_app in *. cbn [length] in *.
  assert ((left <? right)%nat = true) as -> by (apply Nat.ltb_lt; lia).
  set (l := pre ++ (x :: mid ++ [y]) ++ post).
  assert (l !! left = Some x) as -> by (subst l left; by apply list_lookup_middle).
  assert (∀ z, pre ++ z :: (mid ++ [y]) ++ post = (pre ++ z :: mid) ++ y :: post) as Hly
    by (intros z; by rewrite <-!app_assoc).
  assert (∀ z, length (pre ++ z :: mid) = right) as Hlen by (intros z; rewrite length_app; cbn; lia).
  assert (l !! right = Some y) as -> by (subst l; cbn; rewrite Hly; by apply list_lookup_middle).
  assert (<[right := x]> (<[left := y]> l) = (pre ++ [y]) ++ mid ++ (x :: post)) as ->.
  { subst l left. cbn. rewrite insert_app_r_alt, Nat.sub_diag by done. cbn.
    rewrite Hly, <-(Hlen y), insert_app_r_alt, Nat.sub_diag by done. cbn. by rewrite <-!app_assoc. }
  rewrite IH; [|rewrite length_app; cbn; lia|rewrite length_app; cbn; lia|lia].
  rewrite reverse_cons, reverse_app. cbn. by rewrite <-!app_assoc.
Qed.
Lemma reverseMessages_spec {A} (l : list A) : reverseMessages l = reverse l.
Proof.
  unfold reverseMessages. pose proof (reverse_from_spec (length l) [] l [] 0 (length l - 1) eq_refl eq_refl (le_n _)) as H.
  cbn in H. rewrite !app_nil_r in H. done.
Qed.

(** ** The documented meaning of LIKE *)

(** A percent sign, an underscore, a character; a backslash takes the next character as it is. *)
Inductive like_token : Type := AnyRun | AnyOne | Literal (r : Z).
Fixpoint like_tokens (rs : list Z) : list like_token :=
  match rs with
  | [] => []
  | r :: rs' =>
    if r =? 92 then match rs' with [] => [Literal 92] | x :: rs'' => Literal x :: like_tokens rs'' end
    else if r =? 37 then AnyRun :: like_tokens rs'
    else if r =? 95 then AnyOne :: like_tokens rs'
    else Literal r :: like_tokens rs'
  end.
(** [same] is the equality of characters of the collation. *)
Inductive like_matches (same : Z → Z → bool) : list like_token → list Z → Prop :=
| like_end : like_matches same [] []
| like_literal r x ts rs : same x r = true → like_matches same ts rs → like_matches same (Literal r :: ts) (x :: rs)
| like_one x ts rs : like_matches same ts rs → like_matches same (AnyOne :: ts) (x :: rs)
| like_run skipped ts rs : like_matches same ts rs → like_matches same (AnyRun :: ts) (skipped ++ rs).
Class LikeLaws (like : string → string → bool) (same : Z → Z → bool) : Prop := {
  like_spec text pattern : utf8_valid text = true → utf8_valid pattern = true →
    like text pattern = true ↔ like_matches same (like_tokens (runes pattern)) (runes text)
}.

(** The words of [q] stand somewhere in [text]. *)
Definition contains (same : Z → Z → bool) (text q : string) : Prop :=
  ∃ a b c, runes text = a ++ b ++ c ∧ Forall2 (λ x r, same x r = true) b (runes q).

(** ** Runes of escaped texts *)

Lemma runes_from_fuel n m l : (length l ≤ n)%nat → (length l ≤ m)%nat → runes_from n l = runes_from m l.
Proof.
  revert m l. induction n as [|n IH]; intros m l Hn Hm; [destruct l; [by destruct m|cbn in Hn; lia]|].
  destruct l as [|b t]; [by destruct m|]. destruct m as [|m]; [cbn in Hm; lia|]. cbn [runes_from].
  destruct (decode_rune (b :: t)) as [[r w]|] eqn:Hd.
  - apply decode_rune_width in Hd. f_equal. apply IH; rewrite length_drop; cbn in *; lia.
  - f_equal. apply IH; cbn in *; lia.
Qed.
Definition runes_of (l : list Z) : list Z := runes_from (length l) l.
Lemma runes_bytes s : runes s = runes_of (bytes s).
Proof. unfold runes, runes_of. by rewrite length_bytes. Qed.
Lemma runes_of_step l r w : decode_rune l = Some (r, w) → runes_of l = r :: runes_of (drop w l).
Proof.
  intros Hd. unfold runes_of. pose proof (decode_rune_width _ _ _ Hd) as Hw. destruct l as [|b t]; [done|].
  cbn [length runes_from]. rewrite Hd. f_equal. apply runes_from_fuel; rewrite length_drop; cbn in *; lia.
Qed.
Lemma runes_of_prefix l r w k : decode_rune l = Some (r, w) → runes_of (take w l ++ k) = r :: runes_of k.
Proof.
  intros Hd. rewrite (runes_of_step _ r w) by (by apply decode_rune_prefix).
  rewrite drop_prefix; [done|]. apply decode_rune_width in Hd. lia.
Qed.
Lemma runes_of_ascii b k : b < 128 → runes_of (b :: k) = b :: runes_of k.
Proof. intros Hb. apply (runes_of_prefix [b] b 1). cbn. by rewrite (proj2 (Z.ltb_lt _ _) Hb). Qed.
Lemma runes_of_app l k : text l → runes_of (l ++ k) = runes_of l ++ runes_of k.
Proof.
  induction 1 as [|l r w Hd _ IH]; [done|]. rewrite (runes_of_step l r w Hd).
  rewrite <-(take_drop w l) at 1. rewrite <-app_assoc, (runes_of_prefix _ _ _ _ Hd), IH. done.
Qed.

Definition escape_rune (r : Z) : list Z := if (r =? 92) || (r =? 37) || (r =? 95) then [92; r] else [r].
Lemma escape_high l : Forall (λ b, 128 ≤ b) l → flat_map escape_rune l = l.
Proof.
  induction 1 as [|b l Hb _ IH]; cbn; [done|]. rewrite IH. unfold escape_rune.
  destruct (b =? 92) eqn:?, (b =? 37) eqn:?, (b =? 95) eqn:?; (lia || done).
Qed.
Lemma decode_rune_bytes_of l r w : decode_rune l = Some (r, w) → Forall is_byte l →
  take w l = [r] ∧ r < 128 ∨ Forall (λ b, 128 ≤ b) (take w l) ∧ 128 ≤ r.
Proof.
  intros Hd Hl. destruct (decide (r < 128)) as [Hr|Hr].
  - left. destruct (decode_rune_ascii l r w Hl Hd Hr) as (t&->&->). by cbn.
  - right. split; [|lia]. destruct l as [|b0 t]; [done|]. cbn [decode_rune] in Hd. unfold cont_byte, in_range in Hd.
    destruct (b0 <? 128) eqn:E0; [injection Hd as <- <-; lia|].
    repeat match type of Hd with
    | (if ?c then _ else _) = _ => destruct c eqn:?
    | match ?t with [] => _ | _ => _ end = _ => destruct t
    end; try done; injection Hd as <- <-; cbn [take];
    rewrite ?andb_true_iff, ?Z.leb_le in *; repeat constructor; repeat case_match; lia.
Qed.
Lemma runes_escape l : text l → Forall is_byte l →
  text (flat_map escape_rune l) ∧ runes_of (flat_map escape_rune l) = flat_map escape_rune (runes_of l).
Proof.
  induction 1 as [|l r w Hd _ IH]; intros Hl; [by split; [constructor|]|].
  destruct IH as [IHt IHr]; [by apply Forall_drop|]. rewrite (runes_of_step l r w Hd). cbn [flat_map]. rewrite <-IHr.
  rewrite <-(take_drop w l) at 1 2. rewrite flat_map_app.
  destruct (decode_rune_bytes_of l r w Hd Hl) as [[Htake Hr]|[Hhigh Hr]].
  - rewrite Htake. cbn [flat_map]. rewrite app_nil_r. unfold escape_rune at 1 3 5. destruct (_ || _); cbn [app]; split;
      repeat (apply text_ascii; [lia|]); try done; by rewrite !runes_of_ascii by lia.
  - rewrite (escape_high (take w l)) by done.
    assert (escape_rune r = [r]) as ->.
    { unfold escape_rune. destruct (r =? 92) eqn:?, (r =? 37) eqn:?, (r =? 95) eqn:?; (lia || done). }
    split; [apply text_app; [by eapply text_prefix|done]|]. by rewrite (runes_of_prefix _ _ _ _ Hd).
Qed.
Lemma bytes_escapeLike s : bytes (escapeLike s) = flat_map escape_rune (bytes s).
Proof.
  induction s as [|c s IH]; cbn [escapeLike bytes flat_map]; [done|]. rewrite <-IH. unfold escape_rune.
  assert (∀ d, bool_decide (c = d) = (byte_val c =? byte_val d)) as Heq.
  { intros d. unfold byte_val. destruct (decide (c = d)) as [->|Hne]; [by rewrite bool_decide_true, Z.eqb_refl|].
    rewrite bool_decide_false by done. symmetry. apply Z.eqb_neq. intros H. apply Hne.
    apply N2Z.inj in H. by rewrite <-(Ascii.ascii_N_embedding c), H, Ascii.ascii_N_embedding. }
  rewrite !Heq. change (byte_val "\") with 92. change (byte_val "%") with 37. change (byte_val "_") with 95.
  by destruct (_ || _).
Qed.

(** Trimming a valid text leaves a valid text. *)
Lemma chunks_text n l : (length l ≤ n)%nat → text l → Forall text (snd <$> chunks_from n l).
Proof.
  intros Hn Ht. revert n Hn. induction Ht as [|l r w Hd _ IH]; intros n Hn; [by destruct n|].
  pose proof (decode_rune_width _ _ _ Hd) as Hw. destruct n as [|n], l as [|b t]; try (cbn in *; lia). cbn [chunks_from].
  rewrite Hd. cbn [fmap list_fmap snd]. constructor; [by eapply text_prefix|]. apply IH. rewrite length_drop. cbn in *. lia.
Qed.
Lemma chunks_bytes n l : Forall is_byte l → Forall (Forall is_byte) (snd <$> chunks_from n l).
Proof.
  revert l. induction n as [|n IH]; intros l Hl; [by destruct l|]. destruct l as [|b t]; [constructor|]. cbn [chunks_from].
  destruct (decode_rune _) as [[r w]|]; cbn [fmap list_fmap snd]; (constructor; [|apply IH]).
  - by apply Forall_take.
  - by apply Forall_drop.
  - apply Forall_cons in Hl as [? _]. constructor; [done|constructor].
  - by apply Forall_cons in Hl as [_ ?].
Qed.
Lemma drop_spaces_sub l : ∃ k, l = k ++ drop_spaces l.
Proof. induction l as [|[[] x] l [k IH]]; [by exists []| |by exists []]. exists ((true, x) :: k). cbn. by rewrite <-IH. Qed.
Lemma trimmed_chunks (P : list Z → Prop) l : Forall P (snd <$> l) →
  Forall P (snd <$> reverse (drop_spaces (reverse (drop_spaces l)))).
Proof.
  assert (∀ k, Forall P (snd <$> k) → Forall P (snd <$> drop_spaces k)) as Hd.
  { intros k Hk. destruct (drop_spaces_sub k) as [k' Hk']. rewrite Hk', fmap_app, Forall_app in Hk. apply Hk. }
  intros Hl. rewrite fmap_reverse. apply Forall_reverse, Hd. rewrite fmap_reverse. by apply Forall_reverse, Hd.
Qed.
Lemma trim_space_valid s : utf8_valid s = true → utf8_valid (trim_space s) = true.
Proof.
  rewrite !utf8_valid_text. intros Ht. unfold trim_space. rewrite bytes_of_bytes.
  - pose proof (trimmed_chunks _ _ (chunks_text _ _ (le_n _) Ht)) as H. rewrite length_bytes in H.
    induction H as [|x l Hx _ IH]; cbn; [constructor|by apply text_app].
  - pose proof (trimmed_chunks _ _ (chunks_bytes (String.length s) _ (bytes_range s))) as H.
    induction H as [|x l Hx _ IH]; cbn; [constructor|by apply Forall_app].
Qed.

(** ** What a search finds *)

Lemma like_tokens_escaped rs : like_tokens (flat_map escape_rune rs ++ [37]) = (Literal <$> rs) ++ [AnyRun].
Proof.
  induction rs as [|r rs IH]; [done|]. cbn [flat_map]. rewrite <-app_assoc. unfold escape_rune at 1. cbn [fmap list_fmap app].
  destruct (r =? 92) eqn:E1, (r =? 37) eqn:E2, (r =? 95) eqn:E3; cbn [orb app like_tokens]; rewrite ?E1, ?E2, ?E3, ?IH; try done;
    cbn; by rewrite IH.
Qed.
Lemma like_matches_prefix same rs xs :
  like_matches same ((Literal <$> rs) ++ [AnyRun]) xs ↔ ∃ b c, xs = b ++ c ∧ Forall2 (λ x r, same x r = true) b rs.
Proof.
  revert xs. induction rs as [|r rs IH]; intros xs; cbn; split.
  - intros H. exists [], xs. by split.
  - intros (b&c&->&->%Forall2_nil_inv_r). cbn. rewrite <-(app_nil_r c). repeat constructor.
  - inversion 1 as [|? x ? xs' Hx Hm| |]; subst. apply IH in Hm as (b&c&->&Hb). exists (x :: b), c. by split; [|constructor].
  - intros (b&c&->&Hb). apply Forall2_cons_inv_r in Hb as (x&b'&Hx&Hb&->). cbn. constructor; [done|]. apply IH. by exists b', c.
Qed.
Lemma pattern_contains like same text q : LikeLaws like same → utf8_valid text = true → utf8_valid q = true →
  like text ("%" +:+ escapeLike q +:+ "%") = true ↔ contains same text q.
Proof.
  intros HL Ht Hq.
  apply utf8_valid_text in Hq. destruct (runes_escape _ Hq (bytes_range q)) as [Htext Hrunes].
  assert (bytes ("%" +:+ escapeLike q +:+ "%") = 37 :: flat_map escape_rune (bytes q) ++ [37]) as Hb.
  { rewrite !bytes_app, bytes_escapeLike. done. }
  rewrite like_spec; [|done|].
  2: { apply utf8_valid_text. rewrite Hb. apply text_ascii; [lia|]. apply text_app; [done|]. apply text_all_ascii. by repeat constructor. }
  rewrite (runes_bytes (_ +:+ _)), Hb, runes_of_ascii, runes_of_app, Hrunes by (done || lia).
  change (runes_of [37]) with [37]. rewrite <-runes_bytes. cbn [like_tokens Z.eqb Pos.eqb]. rewrite like_tokens_escaped.
  unfold contains. split.
  - inversion 1 as [| | |skipped ? rs Hm Hts Hrs]; subst. apply like_matches_prefix in Hm as (b&c&->&Hm). by exists skipped, b, c.
  - intros (a&b&c&->&Hm). constructor. apply like_matches_prefix. by exists b, c.
Qed.

(** ** One database that matches so *)

Fixpoint token_match (same : Z → Z → bool) (ts : list like_token) (rs : list Z) : bool :=
  match ts with
  | [] => match rs with [] => true | _ => false end
  | Literal r :: ts => match rs with x :: rs => same x r && token_match same ts rs | [] => false end
  | AnyOne :: ts => match rs with _ :: rs => token_match same ts rs | [] => false end
  | AnyRun :: ts => existsb (λ k, token_match same ts (drop k rs)) (seq 0 (S (length rs)))
  end.
Lemma token_match_spec same ts rs : token_match same ts rs = true ↔ like_matches same ts rs.
Proof.
  revert rs. induction ts as [|[| |r] ts IH]; intros rs; cbn [token_match].
  - destruct rs; split; try done; [constructor|inversion 1].
  - rewrite List.existsb_exists. split.
    + intros (k&_&Hk%IH). rewrite <-(take_drop k rs). by constructor.
    + inversion 1 as [| | |skipped ? rs' Hm]; subst. exists (length skipped). rewrite List.in_seq, length_app. split; [lia|].
      rewrite drop_app_length. by apply IH.
  - destruct rs as [|x rs]; [by split; [|inversion 1]|]. rewrite IH. split; [by constructor|by inversion 1].
  - destruct rs as [|x rs]; [by split; [|inversion 1]|]. rewrite andb_true_iff, IH. split; [intros []; by constructor|by inversion 1].
Qed.
(** Characters are compared as they are. *)
Definition binary_like (text pattern : string) : bool := token_match Z.eqb (like_tokens (runes pattern)) (runes text).
Lemma binary_like_laws : LikeLaws binary_like Z.eqb.
Proof. constructor. intros text pattern _ _. apply token_match_spec. Qed.
