(* ===== verification/AiAccess.v ===== *)
(** * What the assistant may see

    Which sessions are open to the assistant after [ChangeAISetting], and what a search
    answers, on a healthy database; and that a session that is never opened is never read. *)
From S2P Require Import Prelude GoStd GoText TextRound Tables GormService AiService TablesProofs AiSearch.
Local Open Scope Z_scope.

(** ** Keys *)

Lemma filter_key {A K} `{EqDecision K} (f : A → K) k l : NoDup (f <$> l) →
  List.filter (λ x, bool_decide (f x = k)) l
  = match find (λ x, bool_decide (f x = k)) l with Some x => [x] | None => [] end.
Proof.
  induction l as [|x l IH]; [done|]. cbn. intros [Hx Hl]%NoDup_cons. case_bool_decide as Hk; [|by apply IH]. f_equal.
  rewrite IH by done. destruct (find _ l) as [y|] eqn:Hf; [|done]. exfalso. apply Hx.
  apply List.find_some in Hf as [Hy Hyk%bool_decide_eq_true]. rewrite Hk, <-Hyk. apply list_elem_of_fmap_2. by apply list_elem_of_In.
Qed.
Lemma key_inj {A K} (f : A → K) l x y : NoDup (f <$> l) → x ∈ l → y ∈ l → f x = f y → x = y.
Proof.
  intros Hl [i Hi]%list_elem_of_lookup [j Hj]%list_elem_of_lookup Hf. assert (i = j) as ->; [|congruence].
  eapply NoDup_lookup; [exact Hl|by rewrite list_lookup_fmap, Hi|]. rewrite list_lookup_fmap, Hj. cbn. by rewrite Hf.
Qed.
Lemma elem_of_List_filter {A} (p : A → bool) l x : x ∈ List.filter p l ↔ x ∈ l ∧ p x = true.
Proof. by rewrite !list_elem_of_In, List.filter_In. Qed.
Lemma existsb_elem {A} (p : A → bool) l : existsb p l = true ↔ ∃ x, x ∈ l ∧ p x = true.
Proof. rewrite List.existsb_exists. by setoid_rewrite list_elem_of_In. Qed.

Global Instance access_eq_dec : EqDecision model.UserAISessionAccess.
Proof. solve_decision. Defined.
Definition access_key (a : model.UserAISessionAccess) : string * string := (model.AccessUser a, model.AccessSession a).
(** The unique keys of sessions and of access rows. *)
Record keys_ok (t : tables) : Prop := KeysOk {
  session_keys : NoDup (model.SessionUUID <$> session t);
  access_keys : NoDup (access_key <$> access t)
}.
Definition owns (user session : string) (t : tables) : bool :=
  existsb (λ s, bool_decide (model.SessionUUID s = session) && party user s) (Tables.session t).
Definition opened (user session : string) (t : tables) : bool :=
  owns user session t && existsb (granted user session) (access t).

Lemma owns_spec user id t : owns user id t = true ↔ ∃ s, s ∈ session t ∧ model.SessionUUID s = id ∧ party user s = true.
Proof. unfold owns. rewrite existsb_elem. setoid_rewrite andb_true_iff. by setoid_rewrite bool_decide_eq_true. Qed.
Lemma granted_key user id a : granted user id a = bool_decide (access_key a = (user, id)).
Proof.
  unfold granted, access_key. destruct a as [u s]. cbn. repeat case_bool_decide; naive_solver.
Qed.
Lemma granted_rows user id t : keys_ok t →
  List.filter (granted user id) (access t)
  = if existsb (granted user id) (access t) then [model.MkAccess user id] else [].
Proof.
  intros Hk. rewrite (List.filter_ext _ _ (granted_key user id)), (filter_key access_key) by apply Hk.
  destruct (find _ _) as [a|] eqn:Hf.
  - apply List.find_some in Hf as [Ha Hak]. rewrite (proj2 (existsb_elem _ _)).
    + apply bool_decide_eq_true in Hak. destruct a. by injection Hak as -> ->.
    + exists a. rewrite granted_key. by rewrite list_elem_of_In.
  - destruct (existsb _ _) eqn:He; [|done]. apply existsb_elem in He as (a&Ha%list_elem_of_In&Hg). rewrite granted_key in Hg.
    by rewrite (List.find_none _ _ Hf a Ha) in Hg.
Qed.
Lemma filter_flat_map {A B} (p : B → bool) (f : A → list B) l :
  List.filter p (flat_map f l) = flat_map (λ x, List.filter p (f x)) l.
Proof. induction l as [|x l IH]; cbn; [done|]. by rewrite List.filter_app, IH. Qed.
Lemma flat_map_guard {A B} (p : A → bool) (f : A → list B) l :
  flat_map (λ x, if p x then f x else []) l = flat_map f (List.filter p l).
Proof. induction l as [|x l IH]; cbn; [done|]. rewrite IH. by destruct (p x). Qed.
Lemma filter_constant {A B} (p : A → bool) (x : A) (l : list B) :
  List.filter p ((λ _, x) <$> l) = if p x then (λ _, x) <$> l else [].
Proof. induction l as [|y l IH]; cbn; [by destruct (p x)|]. rewrite IH. by destruct (p x). Qed.
(** At most one session joins. *)
Lemma accessible_at_spec user id t : keys_ok t →
  if opened user id t
  then ∃ s, accessible_at user id t = [s] ∧ s ∈ session t ∧ model.SessionUUID s = id ∧ party user s = true
  else accessible_at user id t = [].
Proof.
  intros Hk. unfold accessible_at, accessible. rewrite filter_flat_map.
  rewrite (List.flat_map_ext _ (λ s, if bool_decide (model.SessionUUID s = id)
    then if party user s && existsb (granted user id) (access t) then [s] else [] else [])).
  2: { intros s. destruct (party user s); cbn; [|by case_bool_decide]. rewrite filter_constant.
    case_bool_decide as Hs; [|done]. rewrite Hs, granted_rows by done. by destruct (existsb _ _). }
  rewrite flat_map_guard, (filter_key model.SessionUUID) by apply Hk. unfold opened.
  destruct (find _ _) as [s|] eqn:Hf; cbn.
  - apply List.find_some in Hf as [Hs%list_elem_of_In Hid%bool_decide_eq_true]. rewrite app_nil_r.
    assert (owns user id t = party user s) as ->.
    { destruct (party user s) eqn:Hp; [apply owns_spec; by exists s|]. apply not_true_iff_false. rewrite owns_spec.
      intros (s'&Hs'&Hid'&Hp'). assert (s = s') as ->; [|congruence].
      apply (key_inj model.SessionUUID _ _ _ (session_keys _ Hk)); congruence. }
    destruct (party user s) eqn:Hp, (existsb _ _); cbn; try done. exists s. by split_and!.
  - destruct (owns user id t) eqn:Ho; [|done]. apply owns_spec in Ho as (s&Hs&Hid&_).
    apply list_elem_of_In in Hs. pose proof (List.find_none _ _ Hf s Hs) as Hn. by apply bool_decide_eq_false in Hn.
Qed.

(** ** Changing the access *)

Definition kept_access (user : string) (uuids : list string) (acc : list model.UserAISessionAccess) :=
  List.filter (λ a, negb (revoked user uuids a)) acc.
Definition missing_access (user : string) (uuids : list string) (acc : list model.UserAISessionAccess) : list string :=
  List.filter (λ id, negb (bool_decide (id ∈ (list_to_set (model.AccessSession <$>
    List.filter (λ a, bool_decide (model.AccessUser a = user) && bool_decide (model.AccessSession a ∈ uuids)) acc) : gset string)))) uuids.
Lemma elem_of_missing user uuids acc id :
  id ∈ missing_access user uuids acc ↔ id ∈ uuids ∧ ∀ a, a ∈ acc → access_key a ≠ (user, id).
Proof.
  unfold missing_access. rewrite elem_of_List_filter, negb_true_iff, bool_decide_eq_false, elem_of_list_to_set.
  split; (intros [Hid Hno]; split; [done|]).
  - intros [u x] Ha [= -> ->]. apply Hno. apply (list_elem_of_fmap_2 model.AccessSession _ (model.MkAccess user id)).
    apply elem_of_List_filter. split; [done|]. cbn. by rewrite !bool_decide_true.
  - intros ([u x]&->&Hm)%list_elem_of_fmap_1. apply elem_of_List_filter in Hm as [Ha [Hu _]%andb_true_iff].
    apply bool_decide_eq_true in Hu. apply (Hno _ Ha). cbn in *. by subst.
Qed.
Definition changed_access (user : string) (uuids : list string) (acc : list model.UserAISessionAccess) :=
  let kept := kept_access user uuids acc in kept ++ (model.MkAccess user <$> missing_access user uuids kept).
(** The rows of the user are the sessions asked for, those of others are untouched. *)
Lemma elem_of_changed user uuids acc a :
  a ∈ changed_access user uuids acc ↔ if bool_decide (model.AccessUser a = user) then model.AccessSession a ∈ uuids else a ∈ acc.
Proof.
  unfold changed_access. rewrite elem_of_app. unfold kept_access at 1. rewrite elem_of_List_filter. unfold revoked.
  rewrite list_elem_of_fmap. setoid_rewrite elem_of_missing. destruct a as [u x]. cbn. case_bool_decide as Hu; subst; cbn.
  - rewrite negb_involutive, bool_decide_eq_true. split.
    + intros [[_ Hx]|(y&[= ->]&Hy&_)]; done.
    + intros Hx. destruct (decide (model.MkAccess user x ∈ acc)) as [Hin|Hout]; [by left|]. right. exists x. split_and!; [done..|].
      intros [u y] Ha [= -> ->]. apply Hout. unfold kept_access in Ha. by apply elem_of_List_filter in Ha as [? _].
  - split; [|by left]. intros [[Ha _]|(y&[= Heq _]&_)]; done.
Qed.
Lemma changed_keys user uuids acc : NoDup uuids → NoDup (access_key <$> acc) → NoDup (access_key <$> changed_access user uuids acc).
Proof.
  intros Hu Ha. unfold changed_access. rewrite fmap_app. apply NoDup_app. split_and!.
  - eapply sublist_NoDup; [exact Ha|]. apply fmap_sublist, filter_sublist.
  - intros k (a&->&Hk)%list_elem_of_fmap_1 (b&Hb&(x&->&Hx)%list_elem_of_fmap_1)%list_elem_of_fmap_1.
    apply elem_of_missing in Hx as [_ Hx]. by apply (Hx a Hk).
  - rewrite <-list_fmap_compose. apply NoDup_fmap_2; [by intros x y [=]|]. eapply sublist_NoDup; [done|apply filter_sublist].
Qed.
Lemma count_owned user uuids t : keys_ok t → NoDup uuids →
  slen (List.filter (λ s, bool_decide (model.SessionUUID s ∈ uuids) && party user s) (session t)) = slen uuids
  ↔ Forall (λ id, owns user id t = true) uuids.
Proof.
  intros Hk Hu. set (l := List.filter _ _). set (ids := model.SessionUUID <$> l).
  assert (NoDup ids) as Hids.
  { eapply sublist_NoDup; [exact (session_keys _ Hk)|]. apply fmap_sublist, filter_sublist. }
  assert (∀ id, id ∈ ids ↔ id ∈ uuids ∧ owns user id t = true) as Hin.
  { intros id. unfold ids. rewrite list_elem_of_fmap, owns_spec. subst l. setoid_rewrite elem_of_List_filter.
    setoid_rewrite andb_true_iff. setoid_rewrite bool_decide_eq_true. naive_solver. }
  unfold slen. assert (length l = length ids) as -> by (unfold ids; by rewrite length_fmap). rewrite Forall_forall. split.
  - intros Hlen id Hid. assert (ids ≡ₚ uuids) as Hp.
    { apply submseteq_length_Permutation; [|lia]. apply NoDup_submseteq; [done|]. intros x. rewrite Hin. tauto. }
    rewrite <-Hp in Hid. by apply Hin in Hid as [_ ?].
  - intros Hall. f_equal. apply Permutation_length, NoDup_Permutation; [done..|]. intros id. rewrite Hin. naive_solver.
Qed.

Lemma change_runs e user uuids t : keys_ok t → NoDup uuids →
  runs e (change_body user uuids (alone e)) t
    (λ _ t', Forall (λ id, owns user id t = true) uuids ∧ t' = set_access (changed_access user uuids (access t)) t)
    (λ x, x = ErrAccessForbidden ∧ ¬ Forall (λ id, owns user id t = true) uuids).
Proof.
  intros Hk Hu. pose proof (count_owned user uuids t Hk Hu) as Hcount. unfold change_body.
  apply runs_bind. eapply (runs_mono _ _ _ (λ _ t', Forall (λ id, owns user id t = true) uuids ∧ t' = t) _
    (λ x, x = ErrAccessForbidden ∧ ¬ Forall (λ id, owns user id t = true) uuids)).
  { case_bool_decide as Hnil; [subst; by apply runs_ret|]. runs_steps.
    - split; [|done]. by apply Hcount, Z.eqb_eq.
    - split; [done|]. rewrite <-Hcount. by apply Z.eqb_neq. }
  2: by intros x.
  intros [] ? [Hown ->]. runs_rule. runs_rule; [|done].
  match goal with H : _ = Some _ |- _ => injection H as <- end. fold (kept_access user uuids (access t)).
  assert (uuids = [] → changed_access user uuids (access t) = kept_access user uuids (access t)) as Hempty.
  { intros ->. unfold changed_access. cbn. by rewrite app_nil_r. }
  case_bool_decide as Hnil.
  { apply runs_ret. by rewrite Hempty. }
  runs_rule. runs_rule. cbn [access set_access]. fold (missing_access user uuids (kept_access user uuids (access t))).
  case_bool_decide as Hm.
  { apply runs_ret. split; [done|]. unfold changed_access. by rewrite Hm, app_nil_r. }
  pose proof (changed_keys user uuids _ Hu (access_keys _ Hk)) as Hnd. fold access_key.
  runs_rule; unfold insert_access in *; fold access_key in *; cbn [access set_access] in *;
    change (kept_access user uuids (access t) ++ (model.MkAccess user <$> missing_access user uuids (kept_access user uuids (access t))))
      with (changed_access user uuids (access t)) in *.
  - rewrite bool_decide_true in * by done. match goal with H : _ = Some _ |- _ => injection H as <- end. done.
  - by rewrite bool_decide_true in * by done.
Qed.

(** ** Healthy runs *)

Lemma normalize_spec ids : match normalizeSessionUUIDs ids with
  | Ok uuids => NoDup uuids ∧ (∀ id, id ∈ uuids ↔ id ∈ trim_space <$> ids) ∧ slen uuids ≤ MaxAllowedSessions ∧ "" ∉ uuids
  | Err x => x = ErrInvalidSetting
             ∧ (MaxAllowedSessions < slen ids ∨ "" ∈ trim_space <$> ids)
  end.
Proof.
  unfold normalizeSessionUUIDs. set (trimmed := trim_space <$> ids). destruct (_ <? slen ids) eqn:Hlen; [split; [done|lia]|].
  assert (existsb (λ s, bool_decide (s = "")) trimmed = bool_decide ("" ∈ trimmed)) as ->.
  { apply eq_true_iff_eq. rewrite existsb_elem, bool_decide_eq_true. setoid_rewrite bool_decide_eq_true. naive_solver. }
  case_bool_decide as Hempty; [split; [done|lia || by right]|].
  set (unique := list_to_set trimmed : gset string).
  assert (Z.of_nat (size unique) ≤ MaxAllowedSessions) as Hsize.
  { assert (size unique ≤ length ids)%nat; [|unfold slen in Hlen; lia]. subst unique trimmed.
    assert (∀ l : list string, size (list_to_set l : gset string) ≤ length l)%nat as H; [|rewrite <-(length_fmap trim_space ids); apply H].
    induction l as [|x l IH]; cbn; [by rewrite size_empty|]. rewrite size_union_alt, size_singleton.
    pose proof (subseteq_size (list_to_set l ∖ {[x]}) (list_to_set l : gset string) ltac:(set_solver)). lia. }
  rewrite (proj2 (Z.ltb_ge _ _)) by done.
  assert (∀ id, id ∈ sort_strings (elements unique) ↔ id ∈ trimmed) as Hin.
  { intros id. unfold sort_strings. rewrite merge_sort_Permutation, elem_of_elements. unfold unique. by rewrite elem_of_list_to_set. }
  split_and!; [|done| |by rewrite Hin].
  - unfold sort_strings. rewrite merge_sort_Permutation. apply NoDup_elements.
  - unfold slen, sort_strings. rewrite merge_sort_Permutation. done.
Qed.

Section Quiet.
Context (e : env) (Hq : quiet e).

Lemma ensureSessionAccess_run user id s : keys_ok (db s) →
  ensureSessionAccess e user id s =
  if blank user || blank id then (Err ErrInvalidToolInput, s)
  else (if opened user id (db s) then Ok tt else Err ErrAccessForbidden, Store (db s) (redis s) (S (ops s))).
Proof.
  intros Hk. unfold ensureSessionAccess. rewrite check_run. destruct (_ || _); cbn [negb]; [done|].
  rewrite bind_run, or_fail_run, (query_quiet e Hq). pose proof (accessible_at_spec user id (db s) Hk) as Ha.
  destruct (opened user id (db s)); [destruct Ha as (r&->&_)|rewrite Ha]; done.
Qed.

(** The list of settings, with the state of each session. *)
Lemma getAISetting_run user s :
  ∃ answer n, getAISetting e user s = (Ok answer, Store (db s) (redis s) n)
  ∧ ((λ r, (SettingSession r, PeerId (Peer r), AIAccessAllowed r)) <$> answer)
    = (λ x, (model.SessionUUID x, peer_of user x, existsb (granted user (model.SessionUUID x)) (access (db s))))
        <$> order_by model.SessionCreatedAt (List.filter (party user) (session (db s))).
Proof.
  unfold getAISetting. rewrite bind_run, or_fail_run, (query_quiet e Hq). cbn [fst].
  set (l := order_by _ _). case_bool_decide as Hnil.
  { apply nil_length_inv in Hnil. rewrite Hnil. by eexists _, _. }
  rewrite bind_run, or_fail_run, (query_quiet e Hq), bind_run, or_fail_run, (query_quiet e Hq). cbn [db redis ops].
  eexists _, _. split; [done|]. rewrite <-list_fmap_compose. apply list_fmap_ext. intros i x Hx. cbn. f_equal.
  apply eq_true_iff_eq. rewrite bool_decide_eq_true, elem_of_list_to_set, list_elem_of_fmap, existsb_elem.
  setoid_rewrite elem_of_List_filter. unfold granted. setoid_rewrite andb_true_iff. setoid_rewrite bool_decide_eq_true. split.
  - intros (a&Ha&Hin&Hu&_). exists a. by split_and!.
  - intros (a&Hin&Ha&Hu). exists a. split_and!; [done..|]. rewrite Ha. apply list_elem_of_fmap_2. by eapply list_elem_of_lookup_2.
Qed.
End Quiet.

(** The answer shows the sessions of the user in order, each with its state. *)
Definition shows (user : string) (opened_ : string → bool) (t : tables) (answer : list AISettingSessionResponse) : Prop :=
  ((λ r, (SettingSession r, PeerId (Peer r), AIAccessAllowed r)) <$> answer)
  = (λ x, (model.SessionUUID x, peer_of user x, opened_ (model.SessionUUID x)))
      <$> order_by model.SessionCreatedAt (List.filter (party user) (session t)).

(** what [ChangeAISetting] does.  The sessions asked for, trimmed, without repetition and
    at most 200, must all be of the user, else nothing changes; then exactly they are open to
    the assistant, nobody else's sessions are affected, the answer shows it, the list of open
    sessions is theirs, and the tools of the assistant reach exactly them. *)
Theorem ChangeAISetting_exact e user ids s :
  quiet e → keys_ok (db s) → blank user = false →
  let p := ChangeAISetting e user ids s in
  let t := db p.2 in
  match normalizeSessionUUIDs ids with
  | Err x => p = (Err x, s) ∧ x = ErrInvalidSetting ∧ (MaxAllowedSessions < slen ids ∨ "" ∈ trim_space <$> ids)
  | Ok uuids =>
    NoDup uuids ∧ (∀ id, id ∈ uuids ↔ id ∈ trim_space <$> ids) ∧
    if forallb (λ id, owns user id (db s)) uuids
    then
      keys_ok t ∧ t = set_access (access t) (db s)
      ∧ (∀ a, a ∈ access t ↔ if bool_decide (model.AccessUser a = user) then model.AccessSession a ∈ uuids else a ∈ access (db s))
      ∧ (∃ answer, p.1 = Ok answer ∧ shows user (λ id, bool_decide (id ∈ uuids)) t answer)
      ∧ (∃ l, (ListAllowedSessionUUIDs e user p.2).1 = Ok l ∧ l ≡ₚ uuids)
      ∧ ∀ id, blank id = false →
          (ensureSessionAccess e user id p.2).1 = if bool_decide (id ∈ uuids) then Ok tt else Err ErrAccessForbidden
    else p.1 = Err ErrAccessForbidden ∧ t = db s
  end.
Proof.
  intros Hq Hk Hb p t. subst t. pose proof (normalize_spec ids) as Hn. subst p. unfold ChangeAISetting.
  rewrite check_run, Hb. cbn [negb]. rewrite bind_run. unfold lift.
  destruct (normalizeSessionUUIDs ids) as [uuids|x]; [|by destruct Hn as [-> ?]].
  destruct Hn as (Hnd&Hin&_&_). split; [done|]. split; [done|]. rewrite bind_run.
  pose proof (transaction_quiet e Hq ErrCommit (change_body user uuids) _ _ s (change_runs e user uuids (db s) Hk Hnd)) as Ht.
  destruct (transaction e ErrCommit (change_body user uuids) s) as [[[]|x] s1].
  2: { destruct Ht as [[-> Hno] [Hdb _]]. destruct (forallb _ _) eqn:Hf; [|by cbn]. destruct Hno. apply Forall_forall. intros id Hid.
    rewrite forallb_forall in Hf. apply Hf. by apply list_elem_of_In. }
  destruct Ht as [[Hown Hdb] _]. assert (forallb (λ id, owns user id (db s)) uuids = true) as ->.
  { apply forallb_forall. intros id Hid. rewrite Forall_forall in Hown. apply Hown. by apply list_elem_of_In. }
  assert (keys_ok (db s1)) as Hk1.
  { rewrite Hdb. split; [apply Hk|]. by apply changed_keys, Hk. }
  assert (access (db s1) = changed_access user uuids (access (db s))) as Hacc by (by rewrite Hdb).
  assert (∀ id, existsb (granted user id) (access (db s1)) = bool_decide (id ∈ uuids)) as Hopen.
  { intros id. rewrite Hacc. apply eq_true_iff_eq. rewrite existsb_elem, bool_decide_eq_true. setoid_rewrite elem_of_changed.
    unfold granted. setoid_rewrite andb_true_iff. setoid_rewrite bool_decide_eq_true. split.
    - intros (a&Ha&<-&<-). by rewrite bool_decide_true in Ha by done.
    - intros Hid. exists (model.MkAccess user id). by rewrite bool_decide_true. }
  destruct (getAISetting_run e Hq user s1) as (answer&n&->&Hshow). cbn [fst snd db].
  split; [done|]. split; [by rewrite Hacc|]. split; [by intros a; rewrite Hacc, elem_of_changed|]. split; [|split].
  - exists answer. split; [done|]. unfold shows. rewrite Hshow. apply list_fmap_ext. intros i x _. by rewrite Hopen.
  - unfold ListAllowedSessionUUIDs. rewrite check_run, Hb. cbn [negb]. rewrite or_fail_run, (query_quiet e Hq). cbn [fst db].
    eexists. split; [done|]. unfold sort_strings. rewrite merge_sort_Permutation. apply NoDup_Permutation; [|done|].
    + eapply (NoDup_fmap_1 (λ id, (user, id))). rewrite <-list_fmap_compose.
      eapply sublist_NoDup; [exact (access_keys _ Hk1)|]. 
      erewrite (list_fmap_ext _ access_key); [apply fmap_sublist, filter_sublist|].
      intros i a Ha%list_elem_of_lookup_2. apply elem_of_List_filter in Ha as [_ Ha%bool_decide_eq_true]. unfold access_key. cbn. by subst.
    + intros id. rewrite list_elem_of_fmap. setoid_rewrite elem_of_List_filter. rewrite Hacc. setoid_rewrite elem_of_changed. split.
      * intros (a&->&Ha&Hu%bool_decide_eq_true). by rewrite bool_decide_true in Ha.
      * intros Hid. exists (model.MkAccess user id). cbn. by rewrite !bool_decide_true.
  - intros id Hid. rewrite (ensureSessionAccess_run e Hq) by done. rewrite Hb, Hid. cbn [orb db fst]. unfold opened. rewrite Hopen.
    case_bool_decide as Hm; [|by rewrite andb_false_r]. rewrite Forall_forall in Hown. specialize (Hown id Hm).
    rewrite Hdb. unfold owns in *. cbn [session set_access]. by rewrite Hown.
Qed.

(** ** Without access, whatever happens *)

(** What [m] answers satisfies [Q], when it starts on tables in [I]. *)
Definition answers {E A} (I : tables → Prop) (m : Prog E A) (Q : A → Prop) : Prop :=
  ∀ s, I (db s) → match m s with (Ok a, _) => Q a | (Err _, _) => True end.

Section Answers.
Context {E : Type} (I : tables → Prop) (e : env) (Ho : others_keep e I).

Lemma answers_ret {A} (a : A) (Q : A → Prop) : Q a → answers (E := E) I (mret a) Q.
Proof. by intros ? s _. Qed.
Lemma answers_bind {A B} (m : Prog E A) (f : A → Prog E B) P Q :
  keeps I m → answers I m P → (∀ a, P a → answers I (f a) Q) → answers I (m ≫= f) Q.
Proof.
  intros Hm Ha Hf s Hs. unfold mbind, Prog_bind. specialize (Hm s Hs). specialize (Ha s Hs).
  destruct (m s) as [[a|x] s1]; [by apply Hf|done].
Qed.
Lemma answers_check {B} b (x : E) (k : unit → Prog E B) Q : (b = true → answers I (k tt) Q) → answers I (check b x ≫= k) Q.
Proof. destruct b; intros Hk; [by apply Hk|by intros s ?]. Qed.
Lemma answers_lift {A B} (r : result E A) (k : A → Prog E B) Q : (∀ a, r = Ok a → answers I (k a) Q) → answers I (lift r ≫= k) Q.
Proof. destruct r as [a|x]; intros Hk; [by apply Hk|by intros s ?]. Qed.
Lemma answers_query {A} (x : E) (f : tables → A) (Q : A → Prop) : (∀ t, I t → Q (f t)) → answers I (or_fail x (query e f)) Q.
Proof.
  intros HQ s Hs. pose proof (moved_keeps I e Ho s Hs) as Hm. unfold or_fail, query, statement, mbind, Prog_bind.
  destruct (fates e (ops s)); cbn; auto.
Qed.
Lemma answers_first {A} (f : tables → option A) (Q : result db_error A → Prop) :
  (∀ t, I t → Q (match f t with Some a => Ok a | None => Err RecordNotFound end)) → Q (Err DbFailed) →
  answers (E := E) I (first e f) Q.
Proof.
  intros HQ Hx s Hs. pose proof (moved_keeps I e Ho s Hs) as Hm. unfold first, query, statement, mbind, Prog_bind.
  destruct (fates e (ops s)); cbn; try done. specialize (HQ _ Hm). by destruct (f _).
Qed.
Lemma answers_any {A} (m : Prog E A) : answers I m (λ _, True).
Proof. intros s _. by destruct (m s) as [[] ?]. Qed.
Lemma answers_mono {A} (m : Prog E A) (P Q : A → Prop) : answers I m P → (∀ a, P a → Q a) → answers I m Q.
Proof. intros Hm HPQ s Hs. specialize (Hm s Hs). destruct (m s) as [[] ?]; auto. Qed.
End Answers.

(** The session is not one of the user that he opened. *)
Definition closed (user id : string) (t : tables) : Prop := accessible_at user id t = [].
Lemma closed_accessible user id t s : closed user id t → s ∈ accessible user t → model.SessionUUID s ≠ id.
Proof.
  intros Hc Hs Hid. assert (s ∈ accessible_at user id t) as Hin; [|rewrite Hc in Hin; by apply elem_of_nil in Hin].
  apply elem_of_List_filter. by rewrite bool_decide_true.
Qed.

(** The two users of a session, in either order; no two sessions have the same. *)
Definition is_pair (a b : string) (s : model.Session) : Prop :=
  (model.SessionSendId s = a ∧ model.SessionReceiveId s = b) ∨ (model.SessionSendId s = b ∧ model.SessionReceiveId s = a).
Definition one_per_pair (t : tables) : Prop := ∀ s s', s ∈ session t → s' ∈ session t →
  is_pair (model.SessionSendId s) (model.SessionReceiveId s) s' → s = s'.

Section Closed.
Context (like : string → string → bool) (e : env) (user id : string) (I : tables → Prop).
Context (Ho : others_keep e I) (Hclosed : ∀ t, I t → closed user id t).

Lemma keeps_ensure session : keeps I (ensureSessionAccess e user session).
Proof using Ho. unfold ensureSessionAccess. keeps_auto. Qed.
Lemma ensure_closed : answers I (ensureSessionAccess e user id) (λ _, False).
Proof using Ho Hclosed.
  apply answers_check. intros _. eapply (answers_bind _ _ _ (λ n, n = 0)); [keeps_auto| |].
  - apply answers_query; [done|]. intros t Ht. by rewrite (Hclosed t Ht).
  - intros n ->. by intros s ?.
Qed.
Lemma keeps_mapMessages ms : keeps I (mapMessages e ms).
Proof using Ho. unfold mapMessages. keeps_auto. Qed.
Lemma mapMessages_session ms : Forall (λ m, model.SessionId m ≠ id) ms →
  answers I (mapMessages e ms) (Forall (λ m, AiSession m ≠ id)).
Proof using Ho.
  intros Hms. unfold mapMessages. destruct ms as [|m ms]; [by apply answers_ret|].
  eapply answers_bind; [keeps_auto|apply answers_any|]. intros senders _. apply answers_ret.
  apply Forall_fmap. eapply Forall_impl; [exact Hms|]. by intros x.
Qed.
Lemma search_closed q session limit : answers I (SearchMessages like e user q session limit) (Forall (λ m, AiSession m ≠ id)).
Proof using Ho Hclosed.
  apply answers_check. intros _. apply answers_lift. intros l _.
  eapply (answers_bind _ _ _ (λ _, session = "" ∨ session ≠ id)); [keeps_auto; apply keeps_ensure| |].
  { case_bool_decide as Hs; [|apply answers_ret; left; by destruct (decide (session = ""))].
    destruct (decide (session = id)) as [->|Hne]; [eapply answers_mono; [apply ensure_closed|done]|].
    eapply answers_mono; [apply answers_any|by right]. }
  intros _ Hsession. eapply (answers_bind _ _ _ (Forall (λ m, model.SessionId m ≠ id))); [keeps_auto| |apply mapMessages_session].
  apply answers_query; [done|]. intros t Ht. apply Forall_take. apply Forall_reverse, Forall_forall. intros m Hm.
  apply elem_of_order_by, elem_of_List_filter in Hm as [_ [_ Hm]%andb_true_iff]. unfold searched, in_session in Hm.
  case_bool_decide as Hs.
  - apply bool_decide_eq_true in Hm as ->. by destruct Hsession.
  - apply existsb_elem in Hm as (x&Hx&Hxm%bool_decide_eq_true). rewrite <-Hxm. by eapply closed_accessible; [apply Hclosed|].
Qed.
Lemma recent_closed b limit : answers I (GetRecentMessages e user id b limit) (λ _, False).
Proof using Ho Hclosed. eapply answers_bind; [apply keeps_ensure|apply ensure_closed|done]. Qed.
Lemma list_closed limit : answers I (ListAllowedSessions e user limit) (Forall (λ x, AllowedUUID x ≠ id)).
Proof using Ho Hclosed.
  apply answers_check. intros _. apply answers_lift. intros l _. apply answers_query; [done|]. intros t Ht.
  apply Forall_take, Forall_forall. intros x (s&Hs&Hx)%list_elem_of_In%List.in_flat_map.
  apply list_elem_of_In, elem_of_reverse, elem_of_order_by in Hs. unfold allowed_session in Hx.
  destruct (nickname_of _ _); [|done]. destruct Hx as [<-|[]]. by eapply closed_accessible; [apply Hclosed|].
Qed.
Lemma send_closed u session content : trim_space u = user → trim_space session = id →
  answers I (SendMessage e u session content) (λ _, False).
Proof using Ho Hclosed.
  intros Hu Hsession. unfold SendMessage. rewrite Hu, Hsession. apply answers_check. intros _.
  eapply (answers_bind _ _ _ (λ r, ∀ a, r ≠ Ok a)); [apply (keeps_first I e Ho)| |].
  - apply answers_first; [done| |done]. intros t Ht. by rewrite (Hclosed t Ht).
  - intros [a|[]] Hr; [by destruct (Hr a)|by intros s ?..].
Qed.

(** *** A message goes to the session of its pair

    [SendMessage] looks the session up again, by the pair of its users in either order. *)
Definition rows_in (t : tables) : list model.Message := List.filter (in_session id) (messages t).
Context (row : model.Session) (Hrow : model.SessionUUID row = id).
Context (Hthere : ∀ t, I t → row ∈ session t) (Hkeys : ∀ t, I t → NoDup (model.SessionUUID <$> session t)).
Context (Hpairs : ∀ t, I t → one_per_pair t) (Hmessages : ∀ t ms, I t → I (set_messages ms t)).
Context (K : list model.Message → Prop).
#[local] Abbreviation J := (λ t, I t ∧ K (rows_in t)).
Context (HoJ : others_keep e J).

Lemma keeps_answers {E A B} (I' : tables → Prop) (m : Prog E A) (f : A → Prog E B) P :
  keeps I' m → answers I' m P → (∀ a, P a → keeps I' (f a)) → keeps I' (m ≫= f).
Proof.
  intros Hm Ha Hf s Hs. unfold mbind, Prog_bind. specialize (Hm s Hs). specialize (Ha s Hs).
  destruct (m s) as [[a|x] s1]; [by apply Hf|done].
Qed.
(** A session that is open to the user has another pair than the closed one. *)
Lemma opened_pair t s : I t → s ∈ accessible user t → ¬ is_pair user (peer_of user s) row.
Proof using Hclosed Hrow Hthere Hpairs.
  clear like. intros Ht Hs Hp. apply (closed_accessible user id t s (Hclosed t Ht) Hs). rewrite <-Hrow. f_equal.
  unfold accessible in Hs. apply list_elem_of_In, List.in_flat_map in Hs as (s'&Hin%list_elem_of_In&Hs').
  destruct (party user s') eqn:Hparty; [|done]. apply list_elem_of_In, list_elem_of_fmap in Hs' as (_&->&_).
  apply (Hpairs t Ht); [done|by apply Hthere|]. unfold party in Hparty. rewrite orb_true_iff, !bool_decide_eq_true in Hparty.
  unfold peer_of in Hp. unfold is_pair in *.
  destruct (decide (model.SessionSendId s' = user)) as [<-|Hne];
    [rewrite bool_decide_true in Hp by done|rewrite bool_decide_false in Hp by done; destruct Hparty as [?|<-]; [done|]]; tauto.
Qed.
Lemma sendMessage_elsewhere peer content o : ¬ is_pair user peer row → keeps J (sendMessage e user peer content o).
Proof using HoJ Hkeys Hrow Hthere Hmessages.
  intros Hnot. unfold sendMessage. apply keeps_bind; [apply keeps_check|]. intros _. apply keeps_bind; [apply keeps_check|]. intros _.
  apply (keeps_answers _ _ _ (λ r, ∀ s, r = Ok s → model.SessionUUID s ≠ id)); [by apply keeps_first| |].
  { apply answers_first; [done| |done]. intros t [Ht _] s Hs. destruct (find _ _) as [x|] eqn:Hf; [|done]. injection Hs as ->.
    apply List.find_some in Hf as [Hin%list_elem_of_In Hb]. rewrite orb_true_iff, !andb_true_iff, !bool_decide_eq_true in Hb.
    intros Hid. apply Hnot. assert (s = row) as <-; [|unfold is_pair; naive_solver].
    apply (key_inj model.SessionUUID (session t)); [by apply Hkeys|done|by apply Hthere|by rewrite Hrow]. }
  intros [s|[]] Hs; [|apply keeps_fail..]. specialize (Hs s eq_refl). keeps_auto.
  apply keeps_or_fail, keeps_write; [done|]. intros t t' [Ht HK] Hi. unfold insert_message in Hi.
  destruct (existsb _ _); [done|]. injection Hi as <-. split; [by apply Hmessages|]. unfold rows_in in *. cbn [messages set_messages].
  rewrite List.filter_app. cbn. unfold in_session at 2. cbn. by rewrite bool_decide_false, app_nil_r.
Qed.
Lemma send_elsewhere u session content : trim_space u = user → keeps J (SendMessage e u session content).
Proof using HoJ Hclosed Hkeys Hmessages Hpairs Hrow Hthere.
  intros Hu. unfold SendMessage. rewrite Hu. cbn zeta. apply keeps_check_bind. intros _.
  apply (keeps_answers _ _ _ (λ r, ∀ s, r = Ok s → ¬ is_pair user (peer_of user s) row)); [by apply keeps_first| |].
  { apply answers_first; [done| |done]. intros t [Ht _] s Hs. destruct (head _) as [x|] eqn:Hh; [|done]. injection Hs as ->.
    apply head_Some in Hh as [l Hl]. apply (opened_pair t); [done|].
    assert (s ∈ accessible_at user (trim_space session) t) as Hin by (rewrite Hl; by constructor).
    by apply elem_of_List_filter in Hin as [? _]. }
  intros [s|[]] Hs; [|apply keeps_fail..]. specialize (Hs s eq_refl). keeps_auto.
  intros s1 Hs1. unfold map_error, SendAIMessage. pose proof (sendMessage_elsewhere (peer_of user s) (trim_space content) model.MessageOriginAI Hs s1 Hs1) as H.
  by destruct (sendMessage _ _ _ _ _ _) as [[] ?].
Qed.
End Closed.

(** C19: a session that is not open to the assistant stays out of its reach.  Whatever fails and
    whatever else happens, while no row opens the session for the user: its messages are not
    read, found or listed, and to send in it is refused.  Nor does a send that names another
    session write in it, although the session of a message is looked up by its two users in
    either order: while sessions have one row per pair of users and no row changes, no send
    of the user touches the messages of the closed session ([K] is any property of them that
    the others keep). *)
Theorem closed_session_unseen like e user id s (I : tables → Prop) :
  others_keep e I → (∀ t, I t → closed user id t) → I (db s) →
  (∀ before limit page, (GetRecentMessages e user id before limit s).1 ≠ Ok page)
  ∧ (∀ q session limit ms, (SearchMessages like e user q session limit s).1 = Ok ms → Forall (λ m, AiSession m ≠ id) ms)
  ∧ (∀ limit l, (ListAllowedSessions e user limit s).1 = Ok l → Forall (λ x, AllowedUUID x ≠ id) l)
  ∧ (∀ u session content m, trim_space u = user → trim_space session = id → (SendMessage e u session content s).1 ≠ Ok m)
  ∧ ∀ row u session content (K : list model.Message → Prop), trim_space u = user → model.SessionUUID row = id →
      (∀ t, I t → row ∈ Tables.session t ∧ NoDup (model.SessionUUID <$> Tables.session t) ∧ one_per_pair t) →
      (∀ t ms, I t → I (set_messages ms t)) →
      others_keep e (λ t, I t ∧ K (rows_in id t)) → K (rows_in id (db s)) →
      let t' := db (SendMessage e u session content s).2 in I t' ∧ K (rows_in id t').
Proof.
  intros Ho Hc Hs. split_and!.
  - intros b limit page. pose proof (recent_closed e user id I Ho Hc b limit s Hs) as H.
    destruct (GetRecentMessages _ _ _ _ _ _) as [[] ?]; [by destruct H|done].
  - intros q session limit ms. pose proof (search_closed like e user id I Ho Hc q session limit s Hs) as H.
    destruct (SearchMessages _ _ _ _ _ _ _) as [[] ?]; cbn; [by intros [= <-]|done].
  - intros limit l. pose proof (list_closed e user id I Ho Hc limit s Hs) as H.
    destruct (ListAllowedSessions _ _ _ _) as [[] ?]; cbn; [by intros [= <-]|done].
  - intros u session content m Hu Hsession. pose proof (send_closed e user id I Ho Hc u session content Hu Hsession s Hs) as Ha.
    destruct (SendMessage _ _ _ _ _) as [[] ?]; [by destruct Ha|done].
  - intros row u session content K Hu Hrow Hrows Hms HoK HK.
    apply (send_elsewhere e user id I Hc row Hrow (λ t Ht, proj1 (Hrows t Ht)) (λ t Ht, proj1 (proj2 (Hrows t Ht)))
      (λ t Ht, proj2 (proj2 (Hrows t Ht))) Hms K HoK u session content Hu s). by split.
Qed.

(** ** Searching *)

Lemma elem_of_newest p t m : m ∈ newest p t ↔ m ∈ messages t ∧ p m = true.
Proof. unfold newest. by rewrite elem_of_reverse, elem_of_order_by, elem_of_List_filter. Qed.
(** The name of a sender, empty when he has no account. *)
Definition sender_name (t : tables) (id : string) : string := default "" (nickname_of id t).
Definition shown (t : tables) (m : model.Message) : AIMessage :=
  MkAIMessage (model.MessageUUID m) (model.SessionId m) (model.SendId m) (sender_name t (model.SendId m))
    (model.ReceiveId m) (model.MessageType m) (model.Content m) (model.Origin m) (model.MessageCreatedAt m).
Lemma names_of_lookup users id : NoDup (model.UserUUID <$> users) →
  names_of users !! id = model.Nickname <$> find (λ u, bool_decide (model.UserUUID u = id)) users.
Proof.
  intros Hnd. unfold names_of. induction users as [|u users IH] using rev_ind; [done|].
  rewrite fmap_app in Hnd. apply NoDup_app in Hnd as (Hnd&Hu&_). rewrite foldl_app. cbn. rewrite find_app.
  destruct (decide (model.UserUUID u = id)) as [<-|Hne].
  - rewrite lookup_insert_eq. destruct (find _ users) as [v|] eqn:Hf; cbn; [|by rewrite bool_decide_true].
    apply List.find_some in Hf as [Hv%list_elem_of_In Hid%bool_decide_eq_true]. exfalso.
    apply (Hu (model.UserUUID u)); [rewrite <-Hid; by apply list_elem_of_fmap_2|by constructor].
  - rewrite lookup_insert_ne, IH by done. cbn. rewrite (bool_decide_false (model.UserUUID u = id)) by done. by destruct (find _ users).
Qed.
Lemma find_filter {A} (p q : A → bool) l : (∀ x, p x = true → q x = true) → find p (List.filter q l) = find p l.
Proof.
  intros Hpq. induction l as [|x l IH]; cbn; [done|]. destruct (q x) eqn:Hq; cbn.
  - by destruct (p x).
  - destruct (p x) eqn:Hp; [by rewrite Hpq in Hq|done].
Qed.
Lemma mapMessages_run e ms s : quiet e → NoDup (model.UserUUID <$> user_info (db s)) →
  ∃ n, mapMessages e ms s = (Ok (shown (db s) <$> ms), Store (db s) (redis s) n).
Proof.
  intros Hq Hnd. unfold mapMessages. destruct ms as [|m ms]; [exists (ops s); by destruct s|].
  rewrite bind_run, or_fail_run, (query_quiet e Hq). eexists. cbn [fst db redis ops]. unfold mret, Prog_ret. do 2 f_equal.
  apply list_fmap_ext. intros i x Hx. unfold ai_message, shown, sender_name, nickname_of. do 3 f_equal.
  unfold users_in. rewrite names_of_lookup.
  - rewrite find_filter; [done|]. intros u Hu%bool_decide_eq_true. apply bool_decide_eq_true. rewrite Hu. apply elem_of_remove_dups.
    apply list_elem_of_fmap_2. by eapply list_elem_of_lookup_2.
  - eapply sublist_NoDup; [exact Hnd|]. apply fmap_sublist, filter_sublist.
Qed.
Definition limit_of (limit default maximum : Z) : option Z :=
  if limit =? 0 then Some default else if (1 <=? limit) && (limit <=? maximum) then Some limit else None.
Lemma normalizeLimit_spec limit d m :
  normalizeLimit limit d m = match limit_of limit d m with Some l => Ok l | None => Err ErrInvalidToolInput end.
Proof.
  unfold normalizeLimit, limit_of. destruct (limit =? 0); [done|].
  destruct (limit <? 1) eqn:H1, (m <? limit) eqn:H2, (1 <=? limit) eqn:H3, (limit <=? m) eqn:H4; cbn; (done || lia).
Qed.

Lemma newest_ext p p' t : (∀ m, m ∈ messages t → p m = p' m) → newest p t = newest p' t.
Proof. intros Hp. unfold newest. do 2 f_equal. apply List.filter_ext_in. intros m Hm. apply Hp. by apply list_elem_of_In. Qed.
Lemma searched_spec user session t m : keys_ok t → searched user session t m = true ↔
  if bool_decide (session = "") then opened user (model.SessionId m) t = true else model.SessionId m = session.
Proof.
  intros Hk. unfold searched. destruct (decide (session = "")) as [Hs|Hs].
  - rewrite (bool_decide_false (session ≠ "")) by (intros Hne; by apply Hne). rewrite bool_decide_true by done.
    pose proof (accessible_at_spec user (model.SessionId m) t Hk) as Ha. unfold accessible_at in Ha. rewrite existsb_elem.
    destruct (opened _ _ _).
    + destruct Ha as (x&Hx&_). split; [done|]. intros _. exists x.
      refine (proj1 (elem_of_List_filter (λ s, bool_decide (model.SessionUUID s = model.SessionId m)) _ x) _). rewrite Hx. by constructor.
    + split; [|done]. intros (x&Hx).
      apply (proj2 (elem_of_List_filter (λ s, bool_decide (model.SessionUUID s = model.SessionId m)) _ x)) in Hx. rewrite Ha in Hx.
      by apply elem_of_nil in Hx.
  - rewrite (bool_decide_true (session ≠ "")) by done. rewrite bool_decide_false by done. apply bool_decide_eq_true.
Qed.

(** C20: a search answers the newest messages, up to the limit, that contain the words asked for
    and lie in the session asked for or in an open session of the user; [LIKE] with the
    escaped words finds exactly the texts that contain them, whatever characters they have. *)
Theorem SearchMessages_exact like same e user q session limit s found :
  LikeLaws like same → quiet e → keys_ok (db s) → NoDup (model.UserUUID <$> user_info (db s)) →
  Forall (λ m, utf8_valid (model.Content m) = true) (messages (db s)) → utf8_valid q = true →
  (∀ m, m ∈ messages (db s) →
     found m = true ↔ contains same (model.Content m) (trim_space q)
       ∧ (if bool_decide (session = "") then opened user (model.SessionId m) (db s) = true else model.SessionId m = session)) →
  (SearchMessages like e user q session limit s).1 =
    match limit_of limit DefaultSearchMessageLimit MaxSearchMessageLimit with
    | Some l =>
      if bool_decide (user = "") || bool_decide (trim_space q = "") || (MaxSearchQueryLength <? rune_count (trim_space q))
      then Err ErrInvalidToolInput
      else if bool_decide (session ≠ "") && (blank user || blank session) then Err ErrInvalidToolInput
      else if bool_decide (session ≠ "") && negb (opened user session (db s)) then Err ErrAccessForbidden
      else Ok (shown (db s) <$> take (Z.to_nat l) (newest found (db s)))
    | None => Err ErrInvalidToolInput
    end.
Proof.
  intros HL Hq Hk Hnd Hvalid Hqv Hfound. unfold SearchMessages. rewrite check_run. destruct (_ || _); cbn [negb].
  { by destruct (limit_of _ _ _). }
  rewrite bind_run, normalizeLimit_spec. destruct (limit_of _ _ _) as [l|]; [|done]. unfold lift.
  assert (∀ n, ((ms ← or_fail ErrAiDatabase (query e (λ t, take (Z.to_nat l) (newest (λ m,
      like (model.Content m) ("%" +:+ escapeLike (trim_space q) +:+ "%") && searched user session t m) t)));
    mapMessages e ms) (Store (db s) (redis s) n)).1 = Ok (shown (db s) <$> take (Z.to_nat l) (newest found (db s)))) as Hrest.
  { intros n. rewrite bind_run, or_fail_run, (query_quiet e Hq). cbn [db redis ops].
    assert (newest (λ m, like (model.Content m) ("%" +:+ escapeLike (trim_space q) +:+ "%") && searched user session (db s) m) (db s)
            = newest found (db s)) as ->.
    { apply newest_ext. intros m Hm. apply eq_true_iff_eq. rewrite andb_true_iff, Hfound by done. rewrite searched_spec by done.
      rewrite (pattern_contains like same); [done|done| |by apply trim_space_valid]. rewrite Forall_forall in Hvalid. by apply Hvalid. }
    destruct (mapMessages_run e (take (Z.to_nat l) (newest found (db s))) (Store (db s) (redis s) (S n)) Hq Hnd) as [k ->]. done. }
  rewrite bind_run. destruct (decide (session = "")) as [Hs|Hne].
  - rewrite (bool_decide_false (session ≠ "")) by (intros Hne; by apply Hne). cbn [andb]. destruct s as [t c n]. apply (Hrest n).
  - rewrite (bool_decide_true (session ≠ "")) by done. rewrite (ensureSessionAccess_run e Hq) by done. cbn [andb].
    destruct (_ || _); [done|]. destruct (opened user session (db s)); cbn [negb]; [|done]. apply Hrest.
Qed.

(** ** Concrete tables *)

Definition healthy : env := MkEnv (λ _, Answered) (λ _ x, x) Z.of_nat (λ _, "10000000-0000-0000-0000-000000000001").
Lemma healthy_quiet : quiet healthy.
Proof. by constructor. Qed.
Definition sent (id : Z) (session sender content : string) (at_ : Z) : model.Message :=
  model.MkMessage id (format_int id) session 0 content 0 sender "" at_.
(** Ann talks to Bob in S1 and to Cid in S2; only S1 is open. *)
Definition ai_tables : tables :=
  MkTables [model.MkUserInfo "ann" "Ann" "1" ""; model.MkUserInfo "bob" "Bob" "2" ""; model.MkUserInfo "cid" "Cid" "3" ""]
    [model.MkSession "S1" "ann" "bob" 0 1; model.MkSession "S2" "ann" "cid" 0 2]
    [sent 1 "S1" "ann" "50% off" 5; sent 2 "S2" "cid" "50% secret" 6; sent 3 "S1" "bob" "500 m" 7; sent 4 "S1" "ann" "all 50% gone" 7]
    [] [] [] [model.MkAccess "ann" "S1"].
Definition ai_store : store := Store ai_tables None 0.
Lemma ai_keys : keys_ok ai_tables.
Proof. by split; apply (bool_decide_unpack _); vm_compute. Qed.
Lemma ai_users : NoDup (model.UserUUID <$> user_info ai_tables).
Proof. by apply (bool_decide_unpack _); vm_compute. Qed.

Lemma ChangeAISetting_exact_witness :
  let p := ChangeAISetting healthy "ann" [" S2"; "S2"] ai_store in
  db p.2 = set_access (access (db p.2)) ai_tables
  ∧ (ensureSessionAccess healthy "ann" "S1" p.2).1 = Err ErrAccessForbidden
  ∧ (ensureSessionAccess healthy "ann" "S2" p.2).1 = Ok tt
  ∧ (ChangeAISetting healthy "bob" ["S2"] ai_store).1 = Err ErrAccessForbidden.
Proof.
  pose proof (ChangeAISetting_exact healthy "ann" [" S2"; "S2"] ai_store healthy_quiet ai_keys eq_refl) as Ha.
  pose proof (ChangeAISetting_exact healthy "bob" ["S2"] ai_store healthy_quiet ai_keys eq_refl) as Hb.
  cbv zeta in *. assert (normalizeSessionUUIDs [" S2"; "S2"] = Ok ["S2"]) as Hn by (vm_compute; reflexivity). rewrite Hn in Ha.
  assert (normalizeSessionUUIDs ["S2"] = Ok ["S2"]) as Hn' by (vm_compute; reflexivity). rewrite Hn' in Hb.
  assert (forallb (λ id, owns "ann" id (db ai_store)) ["S2"] = true) as Ho by (vm_compute; reflexivity). rewrite Ho in Ha.
  assert (forallb (λ id, owns "bob" id (db ai_store)) ["S2"] = false) as Ho' by (vm_compute; reflexivity). rewrite Ho' in Hb.
  destruct Ha as (_&_&_&Ht&_&_&_&He). destruct Hb as (_&_&Hb&_). split; [exact Ht|].
  split; [|split; [|exact Hb]]; rewrite He by (vm_compute; reflexivity); vm_compute; reflexivity.
Defined.
Lemma closed_session_unseen_witness :
  (∀ before limit page, (GetRecentMessages healthy "ann" "S2" before limit ai_store).1 ≠ Ok page)
  ∧ (∀ m, (SendMessage healthy "ann" " S2" "hi" ai_store).1 ≠ Ok m)
  ∧ rows_in "S2" (db (SendMessage healthy "ann" "S1" "hi" ai_store).2) = rows_in "S2" ai_tables.
Proof.
  destruct (closed_session_unseen binary_like healthy "ann" "S2" ai_store (λ t, session t = session ai_tables ∧ access t = access ai_tables))
    as (Hr&_&_&Hs&He).
  - by intros n x.
  - intros [] [Hs Ha]. cbn in *. subst. vm_compute. reflexivity.
  - by split.
  - split; [exact Hr|]. split; [intros m; apply (Hs "ann" " S2" "hi"); vm_compute; reflexivity|].
    eapply (He (model.MkSession "S2" "ann" "cid" 0 2) "ann" "S1" "hi" (λ l, l = rows_in "S2" ai_tables)); [done|done| |by intros t ms|by intros n x|done].
    intros t [Ht _]. unfold one_per_pair. rewrite !Ht. split_and!.
    + by apply elem_of_cons; right; apply list_elem_of_singleton.
    + by apply (bool_decide_unpack _); vm_compute.
    + intros s s' Hs1 Hs2. cbn in Hs1, Hs2. rewrite !elem_of_cons in Hs1, Hs2. unfold is_pair.
      destruct Hs1 as [->|[->|[]%elem_of_nil]], Hs2 as [->|[->|[]%elem_of_nil]]; cbn; naive_solver.
Defined.
Lemma SearchMessages_exact_witness :
  (SearchMessages binary_like healthy "ann" " 50% " "" 1 ai_store).1 = Ok [shown ai_tables (sent 4 "S1" "ann" "all 50% gone" 7)].
Proof.
  pose proof (SearchMessages_exact binary_like Z.eqb healthy "ann" " 50% " "" 1 ai_store
    (λ m, bool_decide (model.MessageID m = 1 ∨ model.MessageID m = 4)) binary_like_laws healthy_quiet ai_keys ai_users) as Hs.
  rewrite Hs; [vm_compute; reflexivity|vm_compute; repeat constructor|vm_compute; reflexivity|].
  assert (∀ x y : bool, x = y → x = true ↔ y = true) as Heq by (by intros x y ->).
  assert (utf8_valid "50%" = true) as Hv by (vm_compute; reflexivity).
  intros m Hm.
  assert (trim_space " 50% " = "50%") as -> by (vm_compute; reflexivity).
  assert (utf8_valid (model.Content m) = true) as Hmv.
  { cbn in Hm. repeat (apply elem_of_cons in Hm as [->|Hm]; [vm_compute; reflexivity|]). by apply elem_of_nil in Hm. }
  rewrite <-(pattern_contains binary_like Z.eqb _ _ binary_like_laws Hmv Hv), (bool_decide_true ("" = "")), <-andb_true_iff by done. apply Heq.
  cbn in Hm. repeat (apply elem_of_cons in Hm as [->|Hm]; [vm_compute; reflexivity|]). by apply elem_of_nil in Hm.
Defined.
