(* ===== verification/AiPaging.v ===== *)
(** * Reading a conversation backwards

    A client of [GetRecentMessages] that asks for what is before the first message of the last
    page, while there is more, reads the whole conversation in order, each message once. *)
From S2P Require Import Prelude GoStd GoText Tables GormService AiService TablesProofs AiSearch AiAccess.
Local Open Scope Z_scope.

Lemma filter_andb {A} (p q : A → bool) l : List.filter (λ x, p x && q x) l = List.filter q (List.filter p l).
Proof. induction l as [|x l IH]; cbn; [done|]. destruct (p x); cbn; by rewrite IH. Qed.
Lemma filter_every {A} (p : A → bool) l : (∀ x, x ∈ l → p x = true) → List.filter p l = l.
Proof.
  induction l as [|x l IH]; cbn; intros Hp; [done|]. rewrite Hp by constructor. f_equal. apply IH. intros y Hy. apply Hp. by constructor.
Qed.
Lemma filter_none {A} (p : A → bool) l : (∀ x, x ∈ l → p x = false) → List.filter p l = [].
Proof.
  induction l as [|x l IH]; cbn; intros Hp; [done|]. rewrite Hp by constructor. apply IH. intros y Hy. apply Hp. by constructor.
Qed.
Lemma sorted_app_inv {A} (R : A → A → Prop) l k : StronglySorted R (l ++ k) → ∀ x y, x ∈ l → y ∈ k → R x y.
Proof.
  induction l as [|z l IH]; cbn; intros Hs x y Hx Hy; [by apply elem_of_nil in Hx|].
  apply StronglySorted_inv in Hs as [Hs Hz]. apply elem_of_cons in Hx as [->|Hx]; [|by eapply IH].
  rewrite Forall_forall in Hz. apply Hz. apply elem_of_app. by right.
Qed.
Lemma reverse_take {A} (l : list A) n : reverse (take n (reverse l)) = drop (length l - n) l.
Proof.
  rewrite <-(reverse_involutive l) at 3. rewrite <-(take_drop n (reverse l)) at 2. rewrite reverse_app.
  destruct (decide (n ≤ length l)%nat) as [Hn|Hn].
  - rewrite drop_app_length'; [done|]. rewrite length_reverse, length_drop, length_reverse. done.
  - rewrite (drop_ge (reverse l) n) by (rewrite length_reverse; lia). cbn. replace (length l - n)%nat with 0%nat by lia. by rewrite drop_0.
Qed.

#[local] Abbreviation earlier_message := (earlier model.MessageCreatedAt model.MessageID).
(** The messages of a session, oldest first. *)
Definition conversation (session : string) (t : tables) : list model.Message :=
  order_by model.MessageCreatedAt (List.filter (in_session session) (messages t)).

(** Messages come in the order of their ids; their names are unique and not empty. *)
Record messages_ok (t : tables) : Prop := MessagesOk {
  message_ids : by_id model.MessageID (messages t);
  message_keys : NoDup (model.MessageUUID <$> messages t);
  message_named : Forall (λ m, model.MessageUUID m ≠ "") (messages t)
}.
Lemma elem_of_conversation session t m : m ∈ conversation session t ↔ m ∈ messages t ∧ model.SessionId m = session.
Proof. unfold conversation. rewrite elem_of_order_by, elem_of_List_filter. unfold in_session. by rewrite bool_decide_eq_true. Qed.
Lemma conversation_sorted session t : messages_ok t → StronglySorted earlier_message (conversation session t).
Proof. intros Ht. apply order_by_sorted. apply filter_sorted, Ht. Qed.
Lemma before_spec b m : before (Some b) m = true ↔ earlier_message m b.
Proof. unfold before, earlier. rewrite orb_true_iff, andb_true_iff. lia. Qed.

(** Where a page ends: at the end of the conversation, or before a message of it. *)
Definition boundary_at (session name : string) (t : tables) (i : nat) : Prop :=
  name = "" ∧ i = length (conversation session t)
  ∨ ∃ m, conversation session t !! i = Some m ∧ name = model.MessageUUID m.

Lemma before_take session t b i : messages_ok t → conversation session t !! i = Some b →
  List.filter (before (Some b)) (conversation session t) = take i (conversation session t).
Proof.
  intros Ht Hi. pose proof (conversation_sorted session t Ht) as Hs. set (l := conversation session t) in *.
  rewrite <-(take_drop_middle l i b Hi) in Hs |- * at 1. rewrite List.filter_app. cbn [List.filter].
  assert (before (Some b) b = false) as ->.
  { apply not_true_iff_false. rewrite before_spec. apply earlier_irrefl. }
  rewrite filter_every, filter_none, app_nil_r; [done| |].
  - intros x Hx. apply not_true_iff_false. rewrite before_spec. intros Hxb.
    rewrite cons_middle, app_assoc in Hs. pose proof (sorted_app_inv _ _ _ Hs b x) as Hbx.
    eapply earlier_irrefl, earlier_trans; [apply Hbx; [apply elem_of_app; right; by constructor|done]|exact Hxb].
  - intros x Hx. apply before_spec. apply (sorted_app_inv _ _ _ Hs); [done|by constructor].
Qed.
Lemma page_rows_before session t boundary i : messages_ok t →
  match boundary with None => i = length (conversation session t) | Some b => conversation session t !! i = Some b end →
  newest (λ m, in_session session m && before boundary m) t = reverse (take i (conversation session t)).
Proof.
  intros Ht Hb. unfold newest. f_equal. rewrite filter_andb. unfold conversation in *. destruct boundary as [b|].
  - rewrite (order_by_filter model.MessageCreatedAt model.MessageID) by apply filter_sorted, Ht. by apply before_take.
  - rewrite filter_every by done. by rewrite take_ge by (subst; done).
Qed.

Section Paging.
Context (e : env) (Hq : quiet e).

Lemma boundary_run session name s i : messages_ok (db s) → boundary_at session name (db s) i →
  ∃ b n, boundary_of e session name s = (Ok b, Store (db s) (redis s) n)
    ∧ match b with None => i = length (conversation session (db s)) | Some b => conversation session (db s) !! i = Some b end.
Proof.
  intros Ht [[-> ->]|(m&Hi&->)]; unfold boundary_of.
  - rewrite bool_decide_true by done. destruct s as [t c n]. by exists None, n.
  - pose proof (list_elem_of_lookup_2 _ _ _ Hi) as Hm. apply elem_of_conversation in Hm as [Hm Hs].
    rewrite bool_decide_false by (pose proof (message_named _ Ht) as Hn; rewrite Forall_forall in Hn; by apply Hn).
    rewrite bind_run, (first_quiet e Hq).
    destruct (find _ _) as [m'|] eqn:Hf.
    + apply List.find_some in Hf as [Hm'%list_elem_of_In [Hn%bool_decide_eq_true _]%andb_true_iff].
      rewrite (key_inj model.MessageUUID _ _ _ (message_keys _ Ht) Hm' Hm Hn). eexists (Some m), _. by split.
    + apply list_elem_of_In in Hm. pose proof (List.find_none _ _ Hf m Hm) as Hn. cbn in Hn. unfold in_session in Hn.
      by rewrite !bool_decide_true in Hn.
Qed.
(** One page. *)
Lemma GetRecentMessages_run user session name limit s i l :
  keys_ok (db s) → messages_ok (db s) → NoDup (model.UserUUID <$> user_info (db s)) →
  blank user = false → blank session = false → opened user session (db s) = true →
  limit_of limit DefaultRecentMessageLimit MaxRecentMessageLimit = Some l → boundary_at session name (db s) i →
  ∃ n, GetRecentMessages e user session name limit s
  = (Ok (MkPage (shown (db s) <$> drop (i - Z.to_nat l) (take i (conversation session (db s)))) (l <? Z.of_nat i)),
     Store (db s) (redis s) n).
Proof.
  intros Hk Ht Hnd Hu Hsession Hopen Hl Hi. unfold GetRecentMessages. rewrite bind_run, (ensureSessionAccess_run e Hq) by done.
  rewrite Hu, Hsession, Hopen. cbn [orb]. rewrite normalizeLimit_spec, Hl, bind_run. unfold lift. rewrite bind_run.
  destruct (boundary_run session name (Store (db s) (redis s) (S (ops s))) i Ht Hi) as (b&n&->&Hb). cbn [db redis] in *.
  rewrite bind_run, or_fail_run, (query_quiet e Hq). cbn [db redis ops].
  rewrite (page_rows_before session (db s) b i) by done. set (L := conversation session (db s)) in *.
  assert (length (take i L) = i) as Hlen.
  { rewrite length_take. destruct b as [b|]; [|subst i; lia]. apply lookup_lt_Some in Hb. lia. }
  assert (1 ≤ l) as Hl1.
  { unfold limit_of, DefaultRecentMessageLimit in Hl. repeat case_match; simplify_eq; lia. }
  set (more := l <? _).
  assert (more = (l <? Z.of_nat i)) as ->.
  { subst more. unfold slen. rewrite length_take, length_reverse, Hlen. apply eq_true_iff_eq. rewrite !Z.ltb_lt. lia. }
  rewrite bind_run.
  assert (reverseMessages (if l <? Z.of_nat i then take (Z.to_nat l) (take (Z.to_nat (l + 1)) (reverse (take i L)))
                           else take (Z.to_nat (l + 1)) (reverse (take i L)))
          = drop (i - Z.to_nat l) (take i L)) as ->.
  { rewrite reverseMessages_spec. destruct (l <? Z.of_nat i) eqn:Hmore.
    - rewrite take_take, Nat.min_l by lia. by rewrite reverse_take, Hlen.
    - rewrite reverse_take, Hlen. f_equal. lia. }
  destruct (mapMessages_run e (drop (i - Z.to_nat l) (take i L)) (Store (db s) (redis s) (S n)) Hq Hnd) as [k ->]. by exists k.
Qed.

(** The client. *)
Fixpoint read_back (fuel : nat) (user session name : string) (limit : Z) (s : store) : option (list AIMessage) :=
  match fuel with
  | O => None
  | S fuel =>
    match GetRecentMessages e user session name limit s with
    | (Ok page, s') =>
      if HasMore page then
        match PageMessages page with
        | m :: _ => older ← read_back fuel user session (AiUUID m) limit s'; Some (older ++ PageMessages page)
        | [] => None
        end
      else Some (PageMessages page)
    | (Err _, _) => None
    end
  end.
Lemma read_back_from fuel user session name limit s i l :
  keys_ok (db s) → messages_ok (db s) → NoDup (model.UserUUID <$> user_info (db s)) →
  blank user = false → blank session = false → opened user session (db s) = true →
  limit_of limit DefaultRecentMessageLimit MaxRecentMessageLimit = Some l → boundary_at session name (db s) i → (i < fuel)%nat →
  read_back fuel user session name limit s = Some (shown (db s) <$> take i (conversation session (db s))).
Proof.
  intros Hk Ht Hnd Hu Hsession Hopen Hl. revert name i s Hk Ht Hnd Hopen.
  induction fuel as [|fuel IH]; intros name i s Hk Ht Hnd Hopen Hi Hfuel; [lia|]. cbn [read_back].
  destruct (GetRecentMessages_run user session name limit s i l) as [n ->]; [done..|]. cbn [HasMore PageMessages].
  assert (1 ≤ l) as Hl1.
  { unfold limit_of, DefaultRecentMessageLimit in Hl. repeat case_match; simplify_eq; lia. }
  set (L := conversation session (db s)) in *. destruct (l <? Z.of_nat i) eqn:Hmore.
  - assert (i ≤ length L)%nat as Hlen.
    { destruct Hi as [[_ ->]|(m&Hm&_)]; [done|]. apply lookup_lt_Some in Hm. subst L. lia. }
    assert (is_Some (L !! (i - Z.to_nat l)%nat)) as [m Hm] by (apply lookup_lt_is_Some; lia).
    assert (drop (i - Z.to_nat l) (take i L) = m :: drop (S (i - Z.to_nat l)) (take i L)) as Hdrop.
    { apply drop_S. rewrite lookup_take_lt by lia. done. }
    rewrite Hdrop at 1. cbn [fmap list_fmap AiUUID shown].
    rewrite (IH (model.MessageUUID m) (i - Z.to_nat l)%nat (Store (db s) (redis s) n)); [|done..| |lia].
    + cbn [db mbind option_bind]. do 2 f_equal. rewrite <-fmap_app. f_equal. fold L.
      by rewrite <-(take_drop (i - Z.to_nat l) (take i L)) at 2; rewrite take_take, Nat.min_l by lia.
    + right. by exists m.
  - replace (i - Z.to_nat l)%nat with 0%nat by lia. by rewrite drop_0.
Qed.
End Paging.

(** C18: paging backwards is complete.  A client that opens the messages of an open session with
    any page size and goes on with what is before the first message of its page, while there
    is more, ends with the whole conversation in order, every message once. *)
Theorem GetRecentMessages_complete e user session limit l s :
  quiet e → keys_ok (db s) → messages_ok (db s) → NoDup (model.UserUUID <$> user_info (db s)) →
  blank user = false → blank session = false → opened user session (db s) = true →
  limit_of limit DefaultRecentMessageLimit MaxRecentMessageLimit = Some l →
  let whole := conversation session (db s) in
  read_back e (S (length whole)) user session "" limit s = Some (shown (db s) <$> whole)
  ∧ NoDup (model.MessageUUID <$> whole)
  ∧ (∀ m, m ∈ whole ↔ m ∈ messages (db s) ∧ model.SessionId m = session)
  ∧ StronglySorted earlier_message whole.
Proof.
  intros Hq Hk Ht Hnd Hu Hsession Hopen Hl whole. split_and!.
  - subst whole. rewrite (read_back_from e Hq _ user session "" limit s (length (conversation session (db s))) l);
      [|done..|by left|lia]. by rewrite take_ge.
  - unfold whole, conversation. rewrite order_by_permutation. eapply sublist_NoDup; [exact (message_keys _ Ht)|].
    apply fmap_sublist, filter_sublist.
  - intros m. apply elem_of_conversation.
  - by apply conversation_sorted.
Qed.

Lemma ai_messages : messages_ok ai_tables.
Proof.
  split; [|by apply (bool_decide_unpack _); vm_compute|by repeat constructor].
  unfold by_id. cbn. repeat constructor.
Qed.
Lemma GetRecentMessages_complete_witness :
  read_back healthy 4 "ann" "S1" "" 2 ai_store
  = Some (shown ai_tables <$> [sent 1 "S1" "ann" "50% off" 5; sent 3 "S1" "bob" "500 m" 7; sent 4 "S1" "ann" "all 50% gone" 7]).
Proof.
  destruct (GetRecentMessages_complete healthy "ann" "S1" 2 2 ai_store healthy_quiet ai_keys ai_messages ai_users) as [H _];
    [vm_compute; reflexivity..|]. exact H.
Defined.
