(* ===== verification/JobApp.v ===== *)
(** * The parts of the Job application: [internal/job/app]

    Its configuration ([config.go]), the progress of the assigned partitions and the probes
    ([runtime.go]), the pool of RPC clients ([rpc.go]), the sockets to Kafka ([network.go]), the
    writer of dead letters and the source of a partition ([kafka.go]).  A section that runs under
    a lock is one function; clients, sockets and brokers are the answers of an environment. *)
From S2P Require Import Prelude GoStd GoTime GoNet GoText External Json Dto JobTask JobProcessor JsonPrint JobConsumer KafkaPush.
Local Open Scope Z_scope.

(** ** Configuration ([config.go]) *)

Record Config : Type := MkConfig {
  HTTPAddress : string; LogicAddress : string; JobToken : string; Brokers : list string;
  PushTopic : string; Group : string; DLQTopic : string
}.
(** The members of the file, empty when absent. *)
Record config_file : Type := MkConfigFile {
  FileHTTP : string; FileLogic : string; FileToken : string; FileGroup : string; FileDLQ : string;
  FileBrokers : list string; FileTopic : string
}.

Definition loopback (address : string) (zero : bool) : bool :=
  match split_host_port address with
  | None => false
  | Some (h, p) =>
    match atoi p with
    | None => false
    | Some n =>
      (0 <=? n) && (n <=? 65535) && (zero || (0 <? n))
      && (bool_decide (h = "localhost") || match parse_ip h with Some ip => is_loopback ip | None => false end)
    end
  end.
Definition named (s prefix : string) : bool :=
  negb ((249 <? len s)
        || (bool_decide (s ≠ prefix) && (negb (has_prefix s (prefix +:+ ".")) || (len s =? len prefix + 1))))
  && forallb topic_rune (runes s).
Definition token_rune (r : Z) : bool := negb ((r <=? 32) || (126 <? r)).
Definition broker_ok (b : string) : bool :=
  match split_host_port b with
  | None => false
  | Some (h, p) =>
    match atoi p with
    | None => false
    | Some n =>
      bool_decide (h ≠ "") && negb (n <? 1) && negb (65535 <? n) && bool_decide (format_int n = p)
      && negb (contains_any b ("/@?# " +:+ of_bytes [9; 13; 10; 92]))
    end
  end.
Definition validate (c : Config) : bool :=
  negb (negb (loopback (HTTPAddress c) true) || negb (loopback (LogicAddress c) false)
        || (len (JobToken c) <? 32) || (256 <? len (JobToken c)) || (slen (Brokers c) =? 0)
        || negb (named (PushTopic c) "fable.push.v1") || negb (named (DLQTopic c) "fable.push.dlq.v1")
        || negb (named (Group c) "fable-push-job-v1"))
  && forallb token_rune (runes (JobToken c))
  && forallb broker_ok (Brokers c).

Definition or_default (s d : string) : string := if bool_decide (s = "") then d else s.
Definition overlay (env : string → option string) (n s : string) : string := default s (env n).
(** [file] is what the TOML library read, [env] are the variables of the process. *)
Definition LoadConfig (file : option config_file) (env : string → option string) : option Config :=
  f ← file;
  let brokers := if bool_decide (slen (FileBrokers f) = 0) then ["127.0.0.1:9092"] else FileBrokers f in
  let c := MkConfig
    (overlay env "FABLE_JOB_HTTP_ADDR" (or_default (FileHTTP f) "127.0.0.1:18082"))
    (overlay env "FABLE_JOB_LOGIC_ADDR" (or_default (FileLogic f) "127.0.0.1:19001"))
    (overlay env "FABLE_JOB_TOKEN" (FileToken f))
    (match env "FABLE_KAFKA_BROKERS" with
     | Some s => (λ b, trim_space (of_bytes b)) <$> split_on 44 (bytes s)
     | None => brokers
     end)
    (overlay env "FABLE_KAFKA_TOPIC" (or_default (FileTopic f) "fable.push.v1"))
    (overlay env "FABLE_JOB_GROUP" (or_default (FileGroup f) "fable-push-job-v1"))
    (overlay env "FABLE_JOB_DLQ_TOPIC" (or_default (FileDLQ f) "fable.push.dlq.v1")) in
  if validate c then Some c else None.

(** ** Progress of partitions ([runtime.go]) *)

Record partitionProgress : Type := MkProgress { ProgressOffset : Z; Lag : Z; ProcessedAt : Z; CommittedAt : Z }.
(** [partitions] is [None] while the map is nil. *)
Record runtimeState : Type := MkRuntime {
  alive : bool; joined : bool; partitions : option (gmap Z partitionProgress); generation : Z
}.
Definition zero_progress : partitionProgress := MkProgress 0 0 0 0.
Definition set_joined (b : bool) (s : runtimeState) : runtimeState := MkRuntime (alive s) b (partitions s) (generation s).
Definition set_alive (b : bool) (s : runtimeState) : runtimeState := MkRuntime b (joined s) (partitions s) (generation s).
Definition set_progress (id : Z) (p : partitionProgress) (s : runtimeState) : runtimeState :=
  MkRuntime (alive s) (joined s) (<[id := p]> <$> partitions s) (generation s).

Definition assign (gen : Z) (ids : list Z) (s : runtimeState) : runtimeState :=
  MkRuntime (alive s) true (Some (list_to_map ((λ id, (id, zero_progress)) <$> ids))) gen.
Definition release (gen : Z) (s : runtimeState) : runtimeState :=
  if generation s =? gen then MkRuntime (alive s) false None (generation s) else s.
(** The progress of an owned partition of the current generation. *)
Definition owned (gen id : Z) (s : runtimeState) : option partitionProgress :=
  p ← (m ← partitions s; m !! id);
  if generation s =? gen then Some p else None.
Definition setLag (gen id lag : Z) (s : runtimeState) : runtimeState :=
  match owned gen id s with
  | None => s
  | Some p => set_progress id (MkProgress (ProgressOffset p) lag (ProcessedAt p) (CommittedAt p)) s
  end.
Definition progress (now gen id offset : Z) (commit : bool) (s : runtimeState) : runtimeState :=
  match owned gen id s with
  | None => s
  | Some p =>
    set_progress id (if commit then MkProgress offset (Lag p) (ProcessedAt p) now
                     else MkProgress offset (Lag p) now (CommittedAt p)) s
  end.

(** The probes: the status and the body. *)
Definition probe (ready : bool) (method : string) (blocked dependencies : bool) (s : runtimeState) : Z * string :=
  if bool_decide (method ≠ "GET") then (405, "")
  else if alive s && (negb ready || (joined s && negb blocked && dependencies)) then (200, "ok" +:+ of_bytes [10])
  else (503, "unavailable" +:+ of_bytes [10]).
Definition boolInt (v : bool) : Z := if v then 1 else 0.

(** ** The pool of RPC clients ([rpc.go]) *)

Inductive rpc_error : Type := RpcContext (e : context_error) | errRPC.
(** A client is a number; [shut] are those that were closed, [made] those that were created. *)
Record rpcPool : Type := MkPool {
  pool_clients : gmap string nat; pool_limit : Z; pool_closed : bool; made : list nat; shut : list nat
}.
Definition newRPCPool (limit : Z) : rpcPool := MkPool ∅ limit false [] [].
(** [ctx] is the error of the context, [client] the answer of [grpc.NewClient]. *)
Definition get (ctx : option context_error) (client : option nat) (address : string) (p : rpcPool)
  : result rpc_error nat * rpcPool :=
  match ctx with
  | Some e => (Err (RpcContext e), p)
  | None =>
    if negb (loopback address false) then (Err errRPC, p)
    else if pool_closed p then (Err errRPC, p)
    else
      match pool_clients p !! address with
      | Some c => (Ok c, p)
      | None =>
        if pool_limit p <=? Z.of_nat (size (pool_clients p)) then (Err errRPC, p)
        else
          match client with
          | None => (Err errRPC, p)
          | Some c => (Ok c, MkPool (<[address := c]> (pool_clients p)) (pool_limit p) false (made p ++ [c]) (shut p))
          end
      end
  end.
Definition close_pool (p : rpcPool) : rpcPool :=
  MkPool ∅ (pool_limit p) true (made p) (shut p ++ (map_to_list (pool_clients p)).*2).
(** [observeRPC]: which counter a method has. *)
Definition rpc_index (method : string) : option nat :=
  if bool_decide (method = "/fable.v1.LogicService/LookupRoutes") then Some 0%nat
  else if bool_decide (method = "/fable.v1.LogicService/ResolveComets") then Some 1%nat
  else if bool_decide (method = "/fable.v1.CometService/Deliver") then Some 2%nat
  else None.
Definition observeRPC (method : string) (nanos : Z) (counts : list (Z * Z)) : list (Z * Z) :=
  match rpc_index method with
  | None => counts
  | Some i => alter (λ '(n, c), ((n + nanos) mod 2 ^ 64, (c + 1) mod 2 ^ 64)) i counts
  end.

(** ** Dead letters and replayed messages ([kafka.go]) *)

(** [SinkOther]: an error of the client, passed on. *)
Inductive sink_error : Type := SinkContext (e : context_error) | errKafka | SinkOther.
(** [write] is the answer of the writer, [ctx] the error of the bounded context after it. *)
Definition publishMessage (write_ok : bool) (ctx : option context_error) : option sink_error :=
  if write_ok then None else Some (match ctx with Some e => SinkContext e | None => errKafka end).
Definition dead_key (r : DeadLetter) : string :=
  SourceTopic r +:+ ":" +:+ format_int (SourcePartition r) +:+ ":" +:+ SourceOffset r.
(** The key and the value of the record, none when the letter cannot be marshalled. *)
Definition Write (marshal : DeadLetter → option string) (r : DeadLetter) (write_ok : bool) (ctx : option context_error)
  : option (string * string) * option sink_error :=
  match marshal r with
  | None => (None, Some errKafka)
  | Some raw => (Some (dead_key r, raw), publishMessage write_ok ctx)
  end.

(** [ready]: what the brokers say of a topic. *)
Record sink_partition : Type := MkSinkPartition { PartitionError : bool; LeaderHost : string; Isr : Z }.
Record sink_topic : Type := MkSinkTopic { TopicName : string; TopicError : bool; TopicPartitions : list sink_partition }.
Definition sink_partition_ok (p : sink_partition) : bool :=
  negb (PartitionError p || bool_decide (LeaderHost p = "") || (Isr p =? 0)).
Definition sink_topic_ok (t : sink_topic) : bool :=
  negb (TopicError t) && negb (slen (TopicPartitions t) =? 0) && forallb sink_partition_ok (TopicPartitions t).
Fixpoint topic_found (name : string) (topics : list sink_topic) (found : bool) : bool :=
  match topics with
  | [] => found
  | t :: topics =>
    if negb (bool_decide (TopicName t = name)) then topic_found name topics found
    else if sink_topic_ok t then topic_found name topics true
    else false
  end.
(** [reply]: the number of brokers and the topics. *)
Definition sink_ready (reply : option (Z * list sink_topic)) (names : list string) : bool :=
  match reply with
  | None => false
  | Some (brokers, topics) => negb (brokers =? 0) && forallb (λ n, topic_found n topics false) names
  end.

(** ** The source of a partition ([kafka.go]) *)

Record partitionSource : Type := MkSource { SourceGen : Z; SourceTopicName : string; SourceId : Z }.
(** [lag] is what the reader says after the fetch. *)
Definition source_fetch (src : partitionSource) (m : option kafka_message) (lag : Z) (s : runtimeState)
  : option kafka_message * runtimeState :=
  match m with
  | None => (None, s)
  | Some m => (Some m, setLag (SourceGen src) (SourceId src) lag s)
  end.
Definition source_processed (src : partitionSource) (now : Z) (m : kafka_message) (s : runtimeState) : runtimeState :=
  progress now (SourceGen src) (SourceId src) (Offset m) false s.
(** [Offset + 1] in an int64. *)
Definition next_offset (o : Z) : Z := (o + 1 + 2 ^ 63) mod 2 ^ 64 - 2 ^ 63.
(** The offset that is committed, if any: the one after the record; [ok] is the coordinator's answer. *)
Definition source_commit (src : partitionSource) (ctx : option context_error) (ok : bool) (now : Z) (m : kafka_message)
    (s : runtimeState) : option Z * option sink_error * runtimeState :=
  match ctx with
  | Some e => (None, Some (SinkContext e), s)
  | None =>
    if bool_decide (Topic m ≠ SourceTopicName src) || negb (Partition m =? SourceId src) || (Offset m <? 0)
    then (None, Some errKafka, s)
    else
      let next := next_offset (Offset m) in
      if ok then (Some next, None, progress now (SourceGen src) (SourceId src) (Offset m) true s)
      else (Some next, Some SinkOther, s)
  end.

(** ** Logging ([logging.go]) *)

(** The members of a line. *)
Definition correlation_fields (e : ConsumerEvent) : list (string * string) :=
  let some name v := if bool_decide (v = "") then [] else [(name, v)] in
  [("stage", Stage e); ("outcome", EvOutcome e); ("source_topic", EvTopic e); ("source_partition", format_int (EvPartition e));
   ("source_offset", EvOffset e); ("attempts", format_int (EvAttempts e)); ("pending", format_int (EvPending e))]
  ++ some "request_id" (EvRequestID e) ++ some "message_id" (EvMessageID e) ++ some "task_id" (EvTaskID e).
