(* ===== verification/JobRuntime.v ===== *)
(** * The Job process: [Run] and [runConsumer] of [internal/job/app]

    A transition system for the goroutines of the process: the loop over the generations of the
    consumer group, the workers of the assigned partitions, the watchers that release a
    generation, and [Run], which waits for the end and closes what it owns.  [job_step] makes
    one step of one of them, chosen by the label; labels carry what the environment answers.
    A store of an atomic and a section under a lock are steps of their own; the send on
    [consumerDone] comes with the store before it. *)
From S2P Require Import Prelude GoStd GoTime JobApp.
Local Open Scope Z_scope.

(** ** State *)

Inductive worker_phase : Type :=
| WStarting | WRunning
(** Inside [fail]: before storing [failed], before clearing [joined], before cancelling. *)
| WFailing1 | WFailing2 | WFailing3
(** Waiting for the sampler of the lag. *)
| WEnding
| WDone.
Record worker : Type := MkWorker { w_gen : Z; w_id : Z; w_phase : worker_phase }.

(** Where [runConsumer] and the goroutine around it are. *)
Inductive consumer_pc : Type :=
| PTop | PNext
| PNextFailed (rebalance : bool)
| PGot (gen : Z) (ids : list Z)
| PAssign (gen : Z) (ids : list Z)
| PWatch (gen : Z) (ids : list Z)
| PStart (gen : Z) (ids : list Z)
(** The deferred calls: cancel and close, then wait for the workers. *)
| PLeaving (failed : bool) | PWaiting (failed : bool)
| PLeft (failed : bool) | PStopped (failed : bool)
| PDone (failed : bool).
Inductive run_error : Type := RunKafka | RunConsumerStopped | RunHttpStopped | RunGrace.
(** Where [Run] is; [exited] tells whether it took the answer of the consumer. *)
Inductive run_pc : Type :=
| RSelect
| RCancel (r : option run_error) (exited : bool)
| RShutdown (r : option run_error) (exited : bool)
| RWait (r : option run_error) (exited : bool)
| RClose (r : option run_error)
| RReturned (r : option run_error).

Record job : Type := MkJob {
  rt : runtimeState;
  (** The context of [Run], and the cancellation of the one of [runConsumer]. *)
  ctx_done : bool; consumer_cancelled : bool;
  failed : bool; errorsInRow : Z;
  pc : consumer_pc; rpc : run_pc;
  (** The generations that have not ended, and those whose watcher has not run. *)
  live : list Z; watchers : list Z;
  workers : list worker;
  clients_closed : bool;
  (** What happened: a signal, the end of the HTTP server, the generations assigned. *)
  signalled : bool; http_ended : bool; assigned : list (Z * list Z);
  (** The channel [consumerDone]: whether [runConsumer] failed, until [Run] takes it. *)
  answered : option bool
}.
Definition set_rt (f : runtimeState → runtimeState) (j : job) : job :=
  MkJob (f (rt j)) (ctx_done j) (consumer_cancelled j) (failed j) (errorsInRow j) (pc j) (rpc j) (live j) (watchers j)
    (workers j) (clients_closed j) (signalled j) (http_ended j) (assigned j) (answered j).
Definition set_pc (p : consumer_pc) (j : job) : job :=
  MkJob (rt j) (ctx_done j) (consumer_cancelled j) (failed j) (errorsInRow j) p (rpc j) (live j) (watchers j)
    (workers j) (clients_closed j) (signalled j) (http_ended j) (assigned j) (answered j).
Definition set_rpc (p : run_pc) (j : job) : job :=
  MkJob (rt j) (ctx_done j) (consumer_cancelled j) (failed j) (errorsInRow j) (pc j) p (live j) (watchers j)
    (workers j) (clients_closed j) (signalled j) (http_ended j) (assigned j) (answered j).
Definition set_errors (n : Z) (j : job) : job :=
  MkJob (rt j) (ctx_done j) (consumer_cancelled j) (failed j) n (pc j) (rpc j) (live j) (watchers j)
    (workers j) (clients_closed j) (signalled j) (http_ended j) (assigned j) (answered j).
Definition cancel_run (j : job) : job :=
  MkJob (rt j) true (consumer_cancelled j) (failed j) (errorsInRow j) (pc j) (rpc j) (live j) (watchers j)
    (workers j) (clients_closed j) (signalled j) (http_ended j) (assigned j) (answered j).
Definition cancel_consumer (j : job) : job :=
  MkJob (rt j) (ctx_done j) true (failed j) (errorsInRow j) (pc j) (rpc j) (live j) (watchers j)
    (workers j) (clients_closed j) (signalled j) (http_ended j) (assigned j) (answered j).
Definition set_failed (j : job) : job :=
  MkJob (rt j) (ctx_done j) (consumer_cancelled j) true (errorsInRow j) (pc j) (rpc j) (live j) (watchers j)
    (workers j) (clients_closed j) (signalled j) (http_ended j) (assigned j) (answered j).
Definition set_live (l ws : list Z) (j : job) : job :=
  MkJob (rt j) (ctx_done j) (consumer_cancelled j) (failed j) (errorsInRow j) (pc j) (rpc j) l ws
    (workers j) (clients_closed j) (signalled j) (http_ended j) (assigned j) (answered j).
Definition set_workers (ws : list worker) (j : job) : job :=
  MkJob (rt j) (ctx_done j) (consumer_cancelled j) (failed j) (errorsInRow j) (pc j) (rpc j) (live j) (watchers j)
    ws (clients_closed j) (signalled j) (http_ended j) (assigned j) (answered j).
Definition close_clients (j : job) : job :=
  MkJob (rt j) (ctx_done j) (consumer_cancelled j) (failed j) (errorsInRow j) (pc j) (rpc j) (live j) (watchers j)
    (workers j) true (signalled j) (http_ended j) (assigned j) (answered j).
Definition note_signal (j : job) : job :=
  MkJob (rt j) (ctx_done j) (consumer_cancelled j) (failed j) (errorsInRow j) (pc j) (rpc j) (live j) (watchers j)
    (workers j) (clients_closed j) true (http_ended j) (assigned j) (answered j).
Definition note_http (j : job) : job :=
  MkJob (rt j) (ctx_done j) (consumer_cancelled j) (failed j) (errorsInRow j) (pc j) (rpc j) (live j) (watchers j)
    (workers j) (clients_closed j) (signalled j) true (assigned j) (answered j).
Definition note_assigned (gen : Z * list Z) (j : job) : job :=
  MkJob (rt j) (ctx_done j) (consumer_cancelled j) (failed j) (errorsInRow j) (pc j) (rpc j) (live j) (watchers j)
    (workers j) (clients_closed j) (signalled j) (http_ended j) (assigned j ++ [gen]) (answered j).
Definition set_answered (a : option bool) (j : job) : job :=
  MkJob (rt j) (ctx_done j) (consumer_cancelled j) (failed j) (errorsInRow j) (pc j) (rpc j) (live j) (watchers j)
    (workers j) (clients_closed j) (signalled j) (http_ended j) (assigned j) a.

(** The error of the context of [runConsumer]. *)
Definition cancelled (j : job) : bool := ctx_done j || consumer_cancelled j.
Definition worker_done (w : worker) : bool := match w_phase w with WDone => true | _ => false end.
(** The error of the context of a worker. *)
Definition worker_cancelled (j : job) (w : worker) : bool := cancelled j || negb (bool_decide (w_gen w ∈ live j)).

(** ** [Run] before its goroutines *)

Definition initial_state : runtimeState := MkRuntime true false None 0.
Inductive start_result : Type := NotStarted (config_error : bool) | Ended | Started (j : job).
(** [client], [processor] and [listener] tell whether these could be made. *)
Definition start (c : Config) (ctx_cancelled : bool) (client : option nat) (processor listener : bool) : start_result :=
  if negb (validate c) then NotStarted true
  else if ctx_cancelled then Ended
  else
    match get None client (LogicAddress c) (newRPCPool 64) with
    | (Err _, _) => NotStarted false
    | (Ok _, _) =>
      if negb processor then NotStarted true
      else if negb listener then NotStarted false
      else Started (MkJob initial_state false false false 0 PTop RSelect [] [] [] false false false [] None)
    end.

(** ** Steps *)

Inductive next_answer : Type := NextGeneration (gen : Z) (ids : list Z) | NextRebalance | NextError.
Inductive worker_event : Type :=
| SetOffset (ok : bool)
| Sampled (lag : Z)
| Progressed (now offset : Z) (commit : bool)
| PartitionEnded (err : bool)
| WorkerStep.
Inductive job_label : Type :=
| LSignal
| LTop | LNext (a : next_answer) | LNextFailed | LGot | LAssign | LWatch | LStart
| LLeave | LJoinWorkers | LDead | LReport
| LGenerationEnds (gen : Z) | LRelease (gen : Z)
| LWorker (i : nat) (ev : worker_event)
| LSelectDone | LSelectConsumer | LSelectHttp (err : bool)
| LCancel | LShutdown (ok : bool) | LJoinConsumer | LClose.

(** [group.Next] answers a generation only when the functions of the last one are over. *)
Definition quiescent (j : job) : bool :=
  bool_decide (live j = []) && bool_decide (watchers j = []) && forallb worker_done (workers j).

Definition consumer_step (l : job_label) (j : job) : option job :=
  match l, pc j with
  | LTop, PTop =>
    Some (if cancelled j then set_pc (PLeaving (failed j)) j
          else if failed j then set_pc (PLeaving true) j else set_pc PNext j)
  | LNext (NextGeneration gen ids), PNext => if quiescent j then Some (set_pc (PGot gen ids) j) else None
  | LNext NextRebalance, PNext => Some (set_pc (PNextFailed true) (set_rt (set_joined false) j))
  | LNext NextError, PNext => Some (set_pc (PNextFailed false) (set_rt (set_joined false) j))
  | LNextFailed, PNextFailed rebalance =>
    Some (if cancelled j then set_pc (PLeaving (failed j)) j
          else if rebalance then set_pc PTop j
          else
            let j := set_errors (errorsInRow j + 1) j in
            if 3 <=? errorsInRow j then set_pc (PLeaving true) j else set_pc PTop j)
  | LGot, PGot gen ids => Some (if failed j then set_pc (PLeaving true) j else set_pc (PAssign gen ids) (set_errors 0 j))
  | LAssign, PAssign gen ids => Some (set_pc (PWatch gen ids) (note_assigned (gen, ids) (set_rt (assign gen ids) j)))
  | LWatch, PWatch gen ids => Some (set_pc (PStart gen ids) (set_live (live j ++ [gen]) (watchers j ++ [gen]) j))
  | LStart, PStart gen (id :: ids) => Some (set_pc (PStart gen ids) (set_workers (workers j ++ [MkWorker gen id WStarting]) j))
  | LStart, PStart gen [] => Some (set_pc PTop j)
  | LLeave, PLeaving r => Some (set_pc (PWaiting r) (cancel_consumer j))
  | LJoinWorkers, PWaiting r => if forallb worker_done (workers j) then Some (set_pc (PLeft r) j) else None
  | LDead, PLeft r => Some (set_pc (PStopped r) (set_rt (set_alive false) j))
  | LReport, PStopped r => Some (set_pc (PDone r) (set_answered (Some r) (set_rt (set_joined false) j)))
  | _, _ => None
  end.

Definition worker_step (i : nat) (ev : worker_event) (j : job) : option job :=
  w ← workers j !! i;
  let to p := set_workers (<[i := MkWorker (w_gen w) (w_id w) p]> (workers j)) in
  match w_phase w, ev with
  | WStarting, SetOffset ok => Some (to (if ok then WRunning else WFailing1) j)
  | (WRunning | WFailing1 | WFailing2 | WFailing3 | WEnding), Sampled lag =>
    Some (set_rt (setLag (w_gen w) (w_id w) lag) j)
  | WRunning, Progressed now offset commit => Some (set_rt (progress now (w_gen w) (w_id w) offset commit) j)
  | WRunning, PartitionEnded err =>
    Some (to (if (err : bool) && negb (worker_cancelled j w) then WFailing1 else WEnding) j)
  | WFailing1, WorkerStep => Some (to WFailing2 (set_failed j))
  | WFailing2, WorkerStep => Some (to WFailing3 (set_rt (set_joined false) j))
  | WFailing3, WorkerStep => Some (to WEnding (cancel_consumer j))
  | WEnding, WorkerStep => Some (to WDone j)
  | _, _ => None
  end.

Definition consumer_result (r : bool) (j : job) : option run_error :=
  if ctx_done j then None else Some (if r then RunKafka else RunConsumerStopped).
Definition run_step (l : job_label) (j : job) : option job :=
  match l, rpc j with
  | LSelectDone, RSelect => if ctx_done j then Some (set_rpc (RCancel None false) j) else None
  | LSelectConsumer, RSelect =>
    match answered j with
    | Some r => Some (set_rpc (RCancel (consumer_result r j) true) (set_answered None j))
    | None => None
    end
  | LSelectHttp err, RSelect =>
    Some (set_rpc (RCancel (if err : bool then Some RunHttpStopped else None) false) (note_http j))
  | LCancel, RCancel r x => Some (set_rpc (RShutdown r x) (cancel_run j))
  | LShutdown ok, RShutdown r x =>
    Some (set_rpc (RWait (if ok : bool then r else Some (default RunGrace r)) x) j)
  | LJoinConsumer, RWait r x =>
    if x : bool then Some (set_rpc (RClose r) j)
    else match answered j with Some _ => Some (set_rpc (RClose r) (set_answered None j)) | None => None end
  | LClose, RClose r => Some (set_rpc (RReturned r) (close_clients (set_rt (set_alive false) j)))
  | _, _ => None
  end.

Definition job_step (l : job_label) (j : job) : option job :=
  match l with
  | LSignal => Some (note_signal (cancel_run j))
  | LGenerationEnds gen => Some (set_live (List.filter (λ g, negb (g =? gen)) (live j)) (watchers j) j)
  | LRelease gen =>
    if bool_decide (gen ∈ watchers j) && negb (bool_decide (gen ∈ live j))
    then Some (set_rt (release gen) (set_live (live j) (List.filter (λ g, negb (g =? gen)) (watchers j)) j))
    else None
  | LWorker i ev => worker_step i ev j
  | LSelectDone | LSelectConsumer | LSelectHttp _ | LCancel | LShutdown _ | LJoinConsumer | LClose => run_step l j
  | _ => consumer_step l j
  end.
Fixpoint job_run (ls : list job_label) (j : job) : option job :=
  match ls with [] => Some j | l :: ls => j' ← job_step l j; job_run ls j' end.
Definition started : job := MkJob initial_state false false false 0 PTop RSelect [] [] [] false false false [] None.
(** The states of the process. *)
Inductive reachable : job → Prop :=
| reachable_start : reachable started
| reachable_step l j j' : reachable j → job_step l j = Some j' → reachable j'.
