(* ===== verification/JobRuntimeProofs.v ===== *)
(** * The Job process stops cleanly

    The invariant of all interleavings of the goroutines of [JobRuntime], what it says of the
    probes, of failures and of the end of the process, and that the process always ends once
    it was told to: a measure falls with every step, and a step can always be made. *)
From S2P Require Import Prelude GoStd GoTime JobApp JobRuntime.
Local Open Scope Z_scope.

(** ** The fence of generations *)

(** The map of the partitions belongs to the generation that was assigned last. *)
Definition progress_ok (history : list (Z * list Z)) (s : runtimeState) : Prop :=
  match partitions s with
  | None => joined s = false
  | Some m => ∃ ids, last history = Some (generation s, ids) ∧ dom m = list_to_set ids
  end.
Lemma assign_ok history gen ids s : progress_ok (history ++ [(gen, ids)]) (assign gen ids s).
Proof. exists ids. split; [by rewrite last_snoc|]. cbn. by rewrite dom_list_to_map_L, <-list_fmap_compose, list_fmap_id. Qed.
Lemma set_progress_ok history s id p : progress_ok history s → is_Some (partitions s ≫= (.!! id)) →
  progress_ok history (set_progress id p s).
Proof.
  unfold progress_ok. cbn. destruct (partitions s) as [m|]; cbn; [|by intros _ [? [=]]]. intros (ids&Hl&Hd) Hm.
  exists ids. split; [done|]. rewrite dom_insert_L, Hd. apply elem_of_dom in Hm. rewrite Hd in Hm. set_solver.
Qed.
Lemma owned_Some gen id s p : owned gen id s = Some p → generation s = gen ∧ partitions s ≫= (.!! id) = Some p.
Proof.
  unfold owned. cbn. destruct (partitions s) as [m|]; cbn; [|done]. destruct (m !! id) as [q|]; cbn; [|done].
  destruct (generation s =? gen) eqn:Hg; [|done]. intros [= ->]. apply Z.eqb_eq in Hg. done.
Qed.
Lemma setLag_ok history gen id lag s : progress_ok history s → progress_ok history (setLag gen id lag s).
Proof.
  intros Hs. unfold setLag. destruct (owned gen id s) as [p|] eqn:Ho; [|done]. apply owned_Some in Ho as [_ Ho].
  apply set_progress_ok; [done|]. by rewrite Ho.
Qed.
Lemma update_progress_ok history now gen id o c s : progress_ok history s → progress_ok history (progress now gen id o c s).
Proof.
  intros Hs. unfold progress. destruct (owned gen id s) as [p|] eqn:Ho; [|done]. apply owned_Some in Ho as [_ Ho].
  apply set_progress_ok; [done|]. by rewrite Ho.
Qed.
Lemma release_ok history gen s : progress_ok history s → progress_ok history (release gen s).
Proof. intros Hs. unfold release. by destruct (_ =? _). Qed.
Lemma set_joined_ok history s : progress_ok history s → progress_ok history (set_joined false s).
Proof. unfold progress_ok. cbn. by destruct (partitions s). Qed.
Lemma set_alive_ok history b s : progress_ok history s → progress_ok history (set_alive b s).
Proof. done. Qed.

(** What the operations of a generation keep of the flags. *)
Lemma setLag_flags gen id lag s : alive (setLag gen id lag s) = alive s ∧ joined (setLag gen id lag s) = joined s.
Proof. unfold setLag. by destruct (owned _ _ _). Qed.
Lemma progress_flags now gen id o c s : alive (progress now gen id o c s) = alive s ∧ joined (progress now gen id o c s) = joined s.
Proof. unfold progress. by destruct (owned _ _ _). Qed.
Lemma release_flags gen s : alive (release gen s) = alive s ∧ (joined (release gen s) = true → joined s = true).
Proof. unfold release. by destruct (_ =? _). Qed.

(** ** The invariant *)

Definition between_generations (p : consumer_pc) : bool :=
  match p with PGot _ _ | PAssign _ _ | PWatch _ _ => true | _ => false end.
Definition workers_over (p : consumer_pc) : bool :=
  match p with PLeft _ | PStopped _ | PDone _ => true | _ => between_generations p end.
Definition alive_over (p : consumer_pc) : bool := match p with PStopped _ | PDone _ => true | _ => false end.
Definition is_done (p : consumer_pc) : bool := match p with PDone _ => true | _ => false end.
(** The states of [Run] in which the consumer has answered. *)
Definition consumer_taken (p : run_pc) : bool :=
  match p with
  | RCancel _ x | RShutdown _ x | RWait _ x => x
  | RClose _ | RReturned _ => true
  | RSelect => false
  end.
Definition stopping (p : run_pc) : bool := match p with RSelect | RCancel _ _ => false | _ => true end.
Definition result_of_run (p : run_pc) : option (option run_error) :=
  match p with
  | RSelect => None
  | RCancel r _ | RShutdown r _ | RWait r _ | RClose r | RReturned r => Some r
  end.

Record job_ok (j : job) : Prop := JobOk {
  ok_progress : progress_ok (assigned j) (rt j);
  ok_workers : workers_over (pc j) = true → forallb worker_done (workers j) = true;
  ok_between : between_generations (pc j) = true → live j = [] ∧ watchers j = [];
  ok_clean : match pc j with PAssign _ _ | PWatch _ _ => failed j = false | _ => True end;
  ok_alive : alive_over (pc j) = true → alive (rt j) = false;
  ok_joined : is_done (pc j) = true → joined (rt j) = false;
  ok_taken : consumer_taken (rpc j) = true → is_done (pc j) = true;
  ok_closed : clients_closed j = true → ∃ r, rpc j = RReturned r;
  ok_returned : ∀ r, rpc j = RReturned r → clients_closed j = true;
  ok_ctx : ctx_done j = true → signalled j = true ∨ stopping (rpc j) = true;
  ok_stopping : stopping (rpc j) = true → ctx_done j = true;
  ok_result : result_of_run (rpc j) = Some None → signalled j = true ∨ http_ended j = true;
  ok_answered r : answered j = Some r → pc j = PDone r;
  ok_errors : 0 ≤ errorsInRow j ≤ 3 ∧ match pc j with PLeaving _ | PWaiting _ | PLeft _ | PStopped _ | PDone _ => True | _ => errorsInRow j < 3 end
}.
Lemma started_ok : job_ok started.
Proof. by constructor. Qed.

Lemma workers_update ws i w p : ws !! i = Some w → worker_done w = false →
  forallb worker_done ws = true → forallb worker_done (<[i := p]> ws) = true.
Proof. intros Hi Hd Hall. rewrite forallb_Forall, Forall_lookup in Hall. by rewrite (Hall _ _ Hi) in Hd. Qed.

(** A worker runs only while no new generation may start and the clients are open. *)
Lemma worker_runs j i w : job_ok j → workers j !! i = Some w → worker_done w = false → workers_over (pc j) = false.
Proof.
  intros Hok Hi Hd. apply not_true_iff_false. intros Hp. pose proof (ok_workers _ Hok Hp) as Hall.
  rewrite forallb_Forall, Forall_lookup in Hall. by rewrite (Hall _ _ Hi) in Hd.
Qed.

Lemma worker_step_ok i ev j j' : job_ok j → worker_step i ev j = Some j' → job_ok j'.
Proof.
  intros Hok Hs. unfold worker_step in Hs. destruct (workers j !! i) as [w|] eqn:Hi; [|done]. cbn [mbind option_bind] in Hs.
  assert (worker_done w = false → workers_over (pc j) = false) as Hrun by (intros Hd; by eapply worker_runs).
  unfold worker_done in Hrun. destruct Hok.
  assert (workers_over (pc j) = false → between_generations (pc j) = false) as Hb by (by destruct (pc j)).
  assert (workers_over (pc j) = false → alive_over (pc j) = false ∧ is_done (pc j) = false) as Ha by (by destruct (pc j)).
  destruct (w_phase w), ev; try done; specialize (Hrun eq_refl); specialize (Hb Hrun); destruct (Ha Hrun) as [Ha1 Ha2];
    injection Hs as <-; constructor; cbn [rt ctx_done consumer_cancelled failed errorsInRow pc rpc live watchers workers
      clients_closed signalled http_ended assigned set_rt set_workers set_failed cancel_consumer];
    rewrite ?Hrun, ?Hb, ?Ha1, ?Ha2; try done;
    first [by apply setLag_ok | by apply update_progress_ok | by apply set_joined_ok | by (destruct (pc j)) ].
Qed.
Lemma consumer_step_ok l j j' : job_ok j → consumer_step l j = Some j' → job_ok j'.
Proof.
  intros [] Hs. unfold consumer_step in Hs. destruct l; try done; destruct (pc j) eqn:Hpc; try done;
    repeat case_match; try done; injection Hs as <-; constructor; cbn in *; try done; try lia; try (by auto);
    try (by intros ? ?%ok_answered0); try (by intros ? [= ->]); try (by apply set_joined_ok); [| |by apply (assign_ok _ _ _ (rt j))];
    unfold quiescent in *; rewrite !andb_true_iff, !bool_decide_eq_true in *; naive_solver.
Qed.
(** [Run] goes on, and the rest stays. *)
Lemma set_rpc_ok p j : job_ok j → (∀ r, rpc j ≠ RReturned r) → (∀ r, p ≠ RReturned r) →
  (consumer_taken p = true → is_done (pc j) = true) → (stopping p = true → ctx_done j = true) →
  (ctx_done j = true → signalled j = true ∨ stopping p = true) →
  (result_of_run p = Some None → signalled j = true ∨ http_ended j = true) → job_ok (set_rpc p j).
Proof.
  intros [] Hr Hp H1 H2 H3 H4. constructor; cbn; try done.
  - intros Hc. destruct (ok_closed0 Hc) as [r Hrr]. by destruct (Hr r).
  - intros r Hrr. by destruct (Hp r).
Qed.
Lemma cancel_run_ok j : job_ok j → signalled j = true ∨ stopping (rpc j) = true → job_ok (cancel_run j).
Proof. by intros [] Hs; constructor; cbn. Qed.
Lemma note_http_ok j : job_ok j → job_ok (note_http j).
Proof. intros []; constructor; cbn; try done. by right. Qed.
Lemma set_answered_ok j : job_ok j → job_ok (set_answered None j).
Proof. by intros []; constructor; cbn. Qed.
Lemma run_step_ok l j j' : job_ok j → run_step l j = Some j' → job_ok j'.
Proof.
  intros Hok Hs. pose proof (ok_ctx _ Hok) as Hctx. pose proof (ok_stopping _ Hok) as Hstop.
  pose proof (ok_result _ Hok) as Hres. pose proof (ok_taken _ Hok) as Htaken. unfold run_step in Hs.
  destruct l; try done; destruct (rpc j) as [|r x|r x|r x|r|r] eqn:Hrpc; cbn in Hctx, Hstop, Hres, Htaken; try done.
  - destruct (ctx_done j) eqn:Hd; [|done]. injection Hs as <-. destruct (Hctx eq_refl) as [Hsig|]; [|done].
    apply set_rpc_ok; rewrite ?Hrpc; try done; by left.
  - destruct (answered j) as [r|] eqn:Ha; [|done]. injection Hs as <-. pose proof (ok_answered _ Hok _ Ha) as Hpc.
    apply set_rpc_ok; cbn; rewrite ?Hrpc, ?Hpc; try done; [by apply set_answered_ok|].
    unfold consumer_result. cbn. destruct (ctx_done j); [|done]. destruct (Hctx eq_refl); [by left|done].
  - injection Hs as <-. apply set_rpc_ok; cbn; rewrite ?Hrpc; try done; [by apply note_http_ok|by right].
  - injection Hs as <-. destruct Hok. rewrite Hrpc in *. constructor; cbn; auto; [|done].
    intros Hc. by destruct (ok_closed0 Hc).
  - injection Hs as <-. apply set_rpc_ok; rewrite ?Hrpc; try done. cbn. destruct ok; [exact Hres|done].
  - destruct x; [injection Hs as <-; apply set_rpc_ok; rewrite ?Hrpc; try done; intros _; by apply Htaken|].
    destruct (answered j) as [a|] eqn:Ha; [|done]. injection Hs as <-. pose proof (ok_answered _ Hok _ Ha) as Hpc.
    apply set_rpc_ok; cbn; rewrite ?Hrpc, ?Hpc; try done. by apply set_answered_ok.
  - injection Hs as <-. destruct Hok. rewrite Hrpc in *. constructor; cbn; auto. intros _. by exists r.
Qed.
Lemma job_step_ok l j j' : job_ok j → job_step l j = Some j' → job_ok j'.
Proof.
  intros Hok Hs. destruct l; unfold job_step in Hs; cbn beta iota in Hs;
    try (by eapply consumer_step_ok); try (by eapply run_step_ok); try (by eapply worker_step_ok).
  - injection Hs as <-. destruct Hok. constructor; cbn; auto.
  - injection Hs as <-. destruct Hok. constructor; cbn; auto. intros Hp. destruct (ok_between0 Hp) as [-> ?]. done.
  - destruct (_ && _) eqn:Hg; [|done]. injection Hs as <-. destruct Hok. destruct (release_flags gen (rt j)) as [Ha Hj].
    constructor; cbn; auto; [by apply release_ok| | |].
    + intros Hp. destruct (ok_between0 Hp) as [? ->]. done.
    + intros Hp. rewrite Ha. by apply ok_alive0.
    + intros Hp. apply not_true_iff_false. intros Hr%Hj. by rewrite ok_joined0 in Hr.
Qed.
Lemma job_reachable_ok j : reachable j → job_ok j.
Proof. induction 1 as [|l j j' _ IH Hs]; [apply started_ok|by eapply job_step_ok]. Qed.

(** C21: the process stops cleanly, in every interleaving.  While a worker runs, the RPC clients
    and the writer of dead letters are open; when [Run] has returned every worker is over, the
    probes answer that the process is unavailable, and an answer without error means that a
    signal came or the HTTP server had ended.  Readiness is shown only while the last assigned
    generation owns the partitions listed. *)
Theorem Job_stops_cleanly j : reachable j →
  (∀ i w, workers j !! i = Some w → worker_done w = false → clients_closed j = false)
  ∧ (∀ r, rpc j = RReturned r →
       forallb worker_done (workers j) = true ∧ clients_closed j = true ∧ alive (rt j) = false ∧ joined (rt j) = false
       ∧ (∃ e, pc j = PDone e) ∧ (r = None → signalled j = true ∨ http_ended j = true))
  ∧ (∀ blocked deps, (probe true "GET" blocked deps (rt j)).1 = 200 →
       blocked = false ∧ deps = true
       ∧ ∃ m gen ids, partitions (rt j) = Some m ∧ last (assigned j) = Some (gen, ids) ∧ generation (rt j) = gen
           ∧ dom m = list_to_set ids)
  ∧ errorsInRow j ≤ 3.
Proof.
  intros Hok%job_reachable_ok. split; [|split; [|split]].
  - intros i w Hi Hd. pose proof (worker_runs _ _ _ Hok Hi Hd) as Hp. destruct (clients_closed j) eqn:Hc; [|done].
    destruct (ok_closed _ Hok Hc) as [r Hr]. pose proof (ok_taken _ Hok) as Ht. rewrite Hr in Ht. specialize (Ht eq_refl).
    by destruct (pc j).
  - intros r Hr. pose proof (ok_taken _ Hok) as Ht. rewrite Hr in Ht. specialize (Ht eq_refl).
    pose proof (ok_workers _ Hok) as Hw. pose proof (ok_alive _ Hok) as Ha. pose proof (ok_joined _ Hok Ht) as Hj.
    destruct (pc j) as [| | | | | | | | | | |e]; try done. split_and!; auto; [by eapply ok_returned|by exists e|].
    intros ->. apply (ok_result _ Hok). by rewrite Hr.
  - intros blocked deps. unfold probe. cbn. pose proof (ok_progress _ Hok) as Hp. unfold progress_ok in Hp.
    destruct (alive (rt j)), (joined (rt j)) eqn:Hj, blocked, deps; try done. intros _. split_and!; [done..|].
    destruct (partitions (rt j)) as [m|]; [|done]. destruct Hp as (ids&Hl&Hd). by exists m, (generation (rt j)), ids.
  - by destruct (ok_errors _ Hok) as [[_ ?] _].
Qed.

(** a failed worker ends the process: once one failed to serve its partition, no further
    generation is assigned in any interleaving, and the failure stays known. *)
Theorem no_generation_after_failure j l j' :
  reachable j → failed j = true → job_step l j = Some j' → assigned j' = assigned j ∧ failed j' = true.
Proof.
  intros Hok%job_reachable_ok Hf Hs. pose proof (ok_clean _ Hok) as Hc.
  destruct l; unfold job_step in Hs; cbn beta iota in Hs; unfold run_step, consumer_step, worker_step in Hs;
    try (destruct (pc j) eqn:Hpc; try done; rewrite ?Hf in *; repeat case_match; try done; by injection Hs as <-);
    try (destruct (rpc j); try done; repeat case_match; try done; by injection Hs as <-).
  destruct (workers j !! i) as [w|]; [|done]. cbn in Hs. destruct (w_phase w), ev; try done; by injection Hs as <-.
Qed.

(** ** The process always ends

    [ending]: the process was told to stop, or the consumer failed or left its loop.  The steps
    of the goroutines that move it on are [own]; the others are the environment's, the reports
    of progress, and the watchers'.  A step is [due] when its goroutine waits for nothing:
    [Next] and [RunPartition] return at the latest when their context is cancelled, and the
    HTTP server need never end by itself. *)

Definition leaving (p : consumer_pc) : bool :=
  match p with PLeaving _ | PWaiting _ | PLeft _ | PStopped _ | PDone _ => true | _ => false end.
Definition ending (j : job) : bool := cancelled j || failed j || leaving (pc j).
Definition own (l : job_label) : bool :=
  match l with
  | LSignal | LGenerationEnds _ | LRelease _ | LWorker _ (Sampled _) | LWorker _ (Progressed _ _ _) => false
  | _ => true
  end.
Definition due (l : job_label) (j : job) : bool :=
  own l && match l with
           | LNext _ => cancelled j
           | LWorker i (PartitionEnded _) => match workers j !! i with Some w => worker_cancelled j w | None => false end
           | LSelectHttp _ => false
           | _ => true
           end.

(** *** What the goroutines still have to do *)

Definition phase_left (p : worker_phase) : nat :=
  match p with WStarting => 6 | WRunning => 5 | WFailing1 => 4 | WFailing2 => 3 | WFailing3 => 2 | WEnding => 1 | WDone => 0 end.
Definition workers_left (ws : list worker) : nat := sum_list_with (λ w, phase_left (w_phase w)) ws.
Definition run_left (p : run_pc) : nat :=
  match p with RSelect => 5 | RCancel _ _ => 4 | RShutdown _ _ => 3 | RWait _ _ => 2 | RClose _ => 1 | RReturned _ => 0 end.
(** [N] bounds the partitions of a generation, each of which is a worker to start. *)
Definition consumer_left (N : nat) (p : consumer_pc) : nat :=
  match p with
  | PNext => 11 + 8 * N
  | PGot _ ids => 10 + 8 * length ids
  | PAssign _ ids => 9 + 8 * length ids
  | PWatch _ ids => 8 + 8 * length ids
  | PStart _ ids => 7 + 8 * length ids
  | PNextFailed _ => 7
  | PTop => 6
  | PLeaving _ => 5 | PWaiting _ => 4 | PLeft _ => 3 | PStopped _ => 2 | PDone _ => 1
  end.
Definition steps_left (N : nat) (j : job) : nat := run_left (rpc j) + consumer_left N (pc j) + workers_left (workers j).
(** A generation has at most [N] partitions. *)
Definition small (N : nat) (l : job_label) : Prop :=
  match l with LNext (NextGeneration _ ids) => (length ids ≤ N)%nat | _ => True end.

Lemma workers_left_app ws w : workers_left (ws ++ [w]) = (workers_left ws + phase_left (w_phase w))%nat.
Proof. unfold workers_left. rewrite sum_list_with_app. cbn. lia. Qed.
Lemma workers_left_update ws i w p : ws !! i = Some w →
  (workers_left (<[i := MkWorker (w_gen w) (w_id w) p]> ws) + phase_left (w_phase w) = workers_left ws + phase_left p)%nat.
Proof.
  unfold workers_left. revert i. induction ws as [|x ws IH]; intros [|i] Hi; try done.
  - injection Hi as ->. cbn. lia.
  - specialize (IH i Hi). change (<[S i:=?y]> (x :: ws)) with (x :: <[i:=y]> ws). cbn [sum_list_with]. lia.
Qed.
Lemma worker_steps_left N i ev j j' : worker_step i ev j = Some j' → ending j = true →
  ending j' = true ∧ (steps_left N j' + (if own (LWorker i ev) then 1 else 0) ≤ steps_left N j)%nat.
Proof.
  unfold worker_step. destruct (workers j !! i) as [w|] eqn:Hi; [|done]. cbn [mbind option_bind].
  pose proof (λ p, workers_left_update (workers j) i w p Hi) as Hw.
  destruct (w_phase w) eqn:Hp, ev as [ok|lag|now offset c|err|]; try done; intros [= <-] He; unfold steps_left, ending, cancelled in *;
    cbn -[workers_left]; rewrite ?He, ?orb_true_r; (split; [done|]); try lia;
    match goal with |- context [workers_left (<[i := MkWorker _ _ ?p]> _)] => specialize (Hw p) end; cbn in Hw;
    try destruct ok; try destruct (_ && _); cbn in Hw; lia.
Qed.
Lemma consumer_steps_left N l j j' : consumer_step l j = Some j' → small N l → ending j = true →
  ending j' = true ∧ (steps_left N j' + 1 ≤ steps_left N j)%nat.
Proof.
  unfold consumer_step, ending, steps_left. intros Hs HN He.
  destruct l; try done; destruct (pc j) eqn:Hpc; try done; repeat case_match; try done; injection Hs as <-;
    cbn -[workers_left] in *; unfold cancelled in *; cbn -[workers_left] in *; rewrite ?workers_left_app, ?orb_true_r, ?orb_false_r in *;
    (split; [first [congruence|done|by rewrite He, ?orb_true_r]|cbn; lia]).
Qed.
Lemma run_steps_left N l j j' : run_step l j = Some j' → ending j = true →
  ending j' = true ∧ (steps_left N j' + 1 ≤ steps_left N j)%nat.
Proof.
  unfold run_step, ending, steps_left, cancelled. intros Hs He.
  destruct l; try done; destruct (rpc j) eqn:Hr; try done; repeat case_match; try done; injection Hs as <-;
    cbn -[workers_left]; (split; [first [by rewrite ?He|by match goal with Hc : ctx_done _ = true |- _ => rewrite Hc end]|lia]).
Qed.
Lemma steps_left_step N l j j' : job_step l j = Some j' → small N l → ending j = true →
  ending j' = true ∧ (steps_left N j' + (if own l then 1 else 0) ≤ steps_left N j)%nat.
Proof.
  intros Hs HN He. destruct l; unfold job_step in Hs; cbn beta iota in Hs; cbn [own];
    try (by eapply consumer_steps_left); try (by eapply run_steps_left); try (by eapply worker_steps_left).
  - injection Hs as <-. split; [done|]. unfold steps_left. cbn -[workers_left]. lia.
  - injection Hs as <-. split; [exact He|]. unfold steps_left. cbn -[workers_left]. lia.
  - destruct (_ && _); [|done]. injection Hs as <-. split; [exact He|]. unfold steps_left. cbn -[workers_left]. lia.
Qed.
Definition own_steps (ls : list job_label) : nat := length (List.filter own ls).
Lemma run_bounded N ls j j' : job_run ls j = Some j' → Forall (small N) ls → ending j = true →
  ending j' = true ∧ (own_steps ls + steps_left N j' ≤ steps_left N j)%nat.
Proof.
  revert j. induction ls as [|l ls IH]; intros j Hr HN He; cbn [job_run] in Hr; [injection Hr as <-; split; [done|cbn; lia]|].
  apply Forall_cons in HN as [Hl HN]. destruct (job_step l j) as [j1|] eqn:Hs; [|done].
  destruct (steps_left_step N l j j1 Hs Hl He) as [He1 H1]. destruct (IH j1 Hr HN He1) as [He2 H2]. split; [done|].
  unfold own_steps in *. cbn. destruct (own l); cbn; lia.
Qed.

(** *** No goroutine waits for ever *)

Definition waiting_over (p : consumer_pc) : bool :=
  match p with PWaiting _ | PLeft _ | PStopped _ | PDone _ => true | _ => false end.
Definition failing (w : worker) : bool := match w_phase w with WFailing2 | WFailing3 => true | _ => false end.
Record stop_ok (j : job) : Prop := StopOk {
  stop_waiting : waiting_over (pc j) = true → consumer_cancelled j = true;
  stop_failed : failed j = true → cancelled j = true ∨ ∃ i w, workers j !! i = Some w ∧ failing w = true;
  stop_answered : is_done (pc j) = true → answered j = None → consumer_taken (rpc j) = true
}.
(** A failure stays on its way to the cancellation, whatever the other workers do. *)
Lemma failing_app (ws : list worker) w : (∃ i v, ws !! i = Some v ∧ failing v = true) → ∃ i v, (ws ++ [w]) !! i = Some v ∧ failing v = true.
Proof. intros (i&v&Hi&?). exists i, v. split; [|done]. by apply lookup_app_l_Some. Qed.
Lemma failing_update (ws : list worker) k x : (∃ i v, ws !! i = Some v ∧ failing v = true) →
  (∀ v, ws !! k = Some v → failing v = true → failing x = true) → ∃ i v, <[k := x]> ws !! i = Some v ∧ failing v = true.
Proof.
  intros (i&v&Hi&Hv) Hx. destruct (decide (k = i)) as [->|Hne].
  - exists i, x. rewrite list_lookup_insert_eq by (by eapply lookup_lt_Some). split; [done|by eapply Hx].
  - exists i, v. by rewrite list_lookup_insert_ne.
Qed.
Lemma worker_stop_ok i ev j j' : job_ok j → stop_ok j → worker_step i ev j = Some j' → stop_ok j'.
Proof.
  intros Hok [Hw Hf Ha]. unfold worker_step. destruct (workers j !! i) as [w|] eqn:Hi; [|done]. cbn [mbind option_bind].
  assert (∀ x, (failing w = true → failing x = true) → failed j = true →
    cancelled j = true ∨ ∃ i' v, <[i := x]> (workers j) !! i' = Some v ∧ failing v = true) as Hkeep.
  { intros x Hx [?|He]%Hf; [by left|right]. apply failing_update; [done|]. intros v Hv. by simplify_eq. }
  assert (∀ x, failing x = true → ∃ i' v, <[i := x]> (workers j) !! i' = Some v ∧ failing v = true) as Hnew.
  { intros x Hx. exists i, x. split; [|done]. apply list_lookup_insert_eq. by eapply lookup_lt_Some. }
  unfold failing in Hkeep at 1. destruct (w_phase w) eqn:Hp, ev as [ok|lag|now offset c|err|]; try done; intros [= <-];
    (constructor; cbn [rt ctx_done consumer_cancelled failed errorsInRow pc rpc live watchers workers answered
      clients_closed signalled http_ended assigned set_rt set_workers set_failed cancel_consumer cancelled]; [try done; by intros _| |done]);
    unfold cancelled in *; cbn; try (by apply Hkeep); try done.
  - intros _. right. by apply Hnew.
  - intros _. left. by rewrite orb_true_r.
Qed.
Lemma consumer_stop_ok l j j' : stop_ok j → consumer_step l j = Some j' → stop_ok j'.
Proof.
  intros [Hw Hf Ha] Hs.
  assert (∀ j', ctx_done j' = ctx_done j → (consumer_cancelled j = true → consumer_cancelled j' = true) →
    (failed j' = true → failed j = true) → (∃ ws, workers j' = workers j ++ ws) → failed j' = true →
    cancelled j' = true ∨ ∃ i w, workers j' !! i = Some w ∧ failing w = true) as Hkeep.
  { unfold cancelled in *. intros j1 -> Hc Hff [ws ->] [[Hd|?]%orb_true_iff|(i&w&?&?)]%Hff%Hf;
      [left; by rewrite Hd|left; rewrite Hc by done; apply orb_true_r|right]. exists i, w. split; [by apply lookup_app_l_Some|done]. }
  clear Hf. unfold consumer_step in Hs. destruct l; try done; destruct (pc j) eqn:Hpc; try done;
    repeat match type of Hs with context [match ?x with _ => _ end] => destruct x eqn:? end; try done;
    injection Hs as <-; constructor; cbn; try done; try (by apply Ha); try (by intros _; apply Hw);
    intros Hx; match goal with |- cancelled ?j1 = true ∨ _ => apply (Hkeep j1); [done|done|cbn; congruence| |exact Hx] end;
    first [by exists []; rewrite app_nil_r|by eexists].
Qed.
Lemma run_stop_ok l j j' : stop_ok j → run_step l j = Some j' → stop_ok j'.
Proof.
  intros [Hw Hf Ha] Hs. unfold run_step in Hs. destruct l; try done; destruct (rpc j) eqn:Hr; try done;
    repeat case_match; try done; injection Hs as <-; unfold cancelled in *; constructor; cbn in *; try done; auto.
Qed.
Lemma job_stop_ok l j j' : job_ok j → stop_ok j → job_step l j = Some j' → stop_ok j'.
Proof.
  intros Hok Hj Hs. destruct l; unfold job_step in Hs; cbn beta iota in Hs;
    try (by eapply consumer_stop_ok); try (by eapply run_stop_ok); try (by eapply worker_stop_ok).
  - injection Hs as <-. destruct Hj. constructor; cbn; auto.
  - injection Hs as <-. by destruct Hj.
  - destruct (_ && _); [|done]. injection Hs as <-. by destruct Hj.
Qed.
Lemma reachable_stop_ok j : reachable j → stop_ok j.
Proof. induction 1 as [|l j j' Hj IH Hs]; [by constructor|]. eapply job_stop_ok; [by apply job_reachable_ok|done|done]. Qed.
(** A worker that is not over moves once its context is cancelled. *)
Lemma worker_moves j i w : workers j !! i = Some w → worker_done w = false → worker_cancelled j w = true →
  ∃ l, due l j = true ∧ is_Some (job_step l j).
Proof.
  intros Hi Hd Hc. unfold worker_done in Hd. destruct (w_phase w) eqn:Hp; try done;
    [exists (LWorker i (SetOffset true))|exists (LWorker i (PartitionEnded false))|exists (LWorker i WorkerStep)..];
    unfold due, job_step, worker_step; cbn [own andb]; rewrite Hi; cbn [mbind option_bind]; rewrite Hp; by eauto.
Qed.
Lemma ending_moves j : reachable j → ending j = true → (∀ r, rpc j ≠ RReturned r) → ∃ l, due l j = true ∧ is_Some (job_step l j).
Proof.
  intros Hr He Hret. pose proof (job_reachable_ok _ Hr) as Hok. pose proof (reachable_stop_ok _ Hr) as [Hw Hf Ha].
  assert (∀ l, due l j = true → is_Some (consumer_step l j) → job_step l j = consumer_step l j → ∃ l, due l j = true ∧ is_Some (job_step l j))
    as Hstep by (intros l Hl Hs Heq; exists l; by rewrite Heq).
  destruct (pc j) as [| |b|gen ids|gen ids|gen ids|gen ids|r|r|r|r|r] eqn:Hpc.
  - apply (Hstep LTop); [done|unfold consumer_step; rewrite Hpc; repeat case_match; by eexists|done].
  - destruct (cancelled j) eqn:Hc; [apply (Hstep (LNext NextError)); [done|unfold consumer_step; rewrite Hpc; by eexists|done]|].
    unfold ending in He. rewrite Hc, Hpc in He. cbn in He. rewrite orb_false_r in He. destruct (Hf He) as [?|(i&w&Hi&Hp)]; [done|].
    exists (LWorker i WorkerStep). split; [done|]. cbn. unfold worker_step. rewrite Hi. cbn. unfold failing in Hp.
    destruct (w_phase w); try done; by eexists.
  - apply (Hstep LNextFailed); [done|unfold consumer_step; rewrite Hpc; repeat case_match; by eexists|done].
  - apply (Hstep LGot); [done|unfold consumer_step; rewrite Hpc; by case_match; eexists|done].
  - apply (Hstep LAssign); [done|unfold consumer_step; rewrite Hpc; by eexists|done].
  - apply (Hstep LWatch); [done|unfold consumer_step; rewrite Hpc; by eexists|done].
  - apply (Hstep LStart); [done|unfold consumer_step; rewrite Hpc; destruct ids; by eexists|done].
  - apply (Hstep LLeave); [done|unfold consumer_step; rewrite Hpc; by eexists|done].
  - destruct (forallb worker_done (workers j)) eqn:Hall.
    { apply (Hstep LJoinWorkers); [done|unfold consumer_step; rewrite Hpc, Hall; by eexists|done]. }
    assert (¬ Forall (λ w, worker_done w = true) (workers j)) as (w&Hin&Hd)%(not_Forall_Exists _)%Exists_exists.
    { intros Hx. apply not_true_iff_false in Hall. apply Hall. by apply forallb_Forall. }
    apply list_elem_of_lookup in Hin as [i Hi]. apply (worker_moves j i w); [done|by apply not_true_is_false|].
    unfold worker_cancelled, cancelled. by rewrite (Hw eq_refl), orb_true_r.
  - apply (Hstep LDead); [done|unfold consumer_step; rewrite Hpc; by eexists|done].
  - apply (Hstep LReport); [done|unfold consumer_step; rewrite Hpc; by eexists|done].
  - assert (∀ l, due l j = true → is_Some (run_step l j) → job_step l j = run_step l j → ∃ l, due l j = true ∧ is_Some (job_step l j))
      as Hrun by (intros l Hl Hs Heq; exists l; by rewrite Heq).
    destruct (rpc j) as [|e x|e x|e x|e|e] eqn:Hrpc; [| | | | |by destruct (Hret e)].
    + apply (Hrun LSelectConsumer); [done| |done]. unfold run_step. rewrite Hrpc. destruct (answered j); [by eexists|by specialize (Ha eq_refl eq_refl)].
    + apply (Hrun LCancel); [done|unfold run_step; rewrite Hrpc; by eexists|done].
    + apply (Hrun (LShutdown true)); [done|unfold run_step; rewrite Hrpc; by eexists|done].
    + apply (Hrun LJoinConsumer); [done| |done]. unfold run_step. rewrite Hrpc. destruct x; [by eexists|].
      destruct (answered j); [by eexists|by specialize (Ha eq_refl eq_refl)].
    + apply (Hrun LClose); [done|unfold run_step; rewrite Hrpc; by eexists|done].
Qed.

(** C22: once it has begun to end, the process ends, whatever the interleaving.  It begins to end
    with a signal, with a worker that failed, when the consumer leaves its loop, and at the
    latest when [Run], having left its select, cancels, which it is free to do at once.  From
    then on the goroutines can take only [steps_left N] more steps of their own ([N] bounds
    the partitions of a generation), each of which leaves fewer; and until [Run] has returned
    one of them can take one: none waits for ever for another, provided that a call of [Next]
    or [RunPartition] returns when its context is cancelled and [Shutdown] at its deadline. *)
Theorem Job_always_stops N j : reachable j →
  (∀ r x, rpc j = RCancel r x → due LCancel j = true ∧ ∃ j', job_step LCancel j = Some j' ∧ ending j' = true)
  ∧ (stopping (rpc j) = true → ending j = true)
  ∧ (∃ j', job_step LSignal j = Some j' ∧ ending j' = true)
  ∧ (ending j = true →
      (∀ ls j', job_run ls j = Some j' → Forall (small N) ls →
         ending j' = true ∧ (own_steps ls + steps_left N j' ≤ steps_left N j)%nat)
      ∧ ((∃ r, rpc j = RReturned r) ∨ ∃ l, due l j = true ∧ is_Some (job_step l j))).
Proof.
  intros Hr. split_and!.
  - intros r x Hrpc. split; [done|]. unfold job_step, run_step. rewrite Hrpc. by eexists.
  - intros Hs. unfold ending, cancelled. by rewrite (ok_stopping _ (job_reachable_ok _ Hr) Hs).
  - by eexists.
  - intros He. split; [by intros; eapply run_bounded|].
    destruct (rpc j) as [|e x|e x|e x|e|e] eqn:Hrpc; [right..|left; by exists e]; apply ending_moves; rewrite ?Hrpc; done.
Qed.

(** ** A run in which a worker fails *)

Lemma reachable_run ls j j' : reachable j → job_run ls j = Some j' → reachable j'.
Proof.
  revert j. induction ls as [|l ls IH]; intros j Hj Hr; cbn [job_run] in Hr; [by injection Hr as <-|].
  destruct (job_step l j) as [j1|] eqn:Hs; [|done]. apply (IH j1); [by eapply reachable_step|done].
Qed.
Definition failing_run : list job_label :=
  [LTop; LNext (NextGeneration 7 [0; 3]); LGot; LAssign; LWatch; LStart; LWorker 0 (SetOffset true); LStart; LStart; LTop;
   LWorker 1 (SetOffset true); LWorker 0 (Progressed 100 5 true); LWorker 0 (PartitionEnded true);
   LWorker 0 WorkerStep; LWorker 0 WorkerStep; LWorker 0 WorkerStep; LWorker 0 WorkerStep].
Definition ending_run : list job_label :=
  [LNext NextError; LNextFailed; LLeave; LWorker 1 (PartitionEnded true); LWorker 1 WorkerStep; LJoinWorkers; LDead; LReport;
   LSelectConsumer; LCancel; LShutdown true; LJoinConsumer; LClose].
Definition failed_job : job := default started (job_run failing_run started).
Definition ended_job : job := default started (job_run ending_run failed_job).
Lemma failed_reachable : reachable failed_job.
Proof. apply (reachable_run failing_run started); [constructor|vm_compute; reflexivity]. Qed.

Lemma Job_stops_cleanly_witness :
  forallb worker_done (workers ended_job) = true ∧ clients_closed ended_job = true ∧ rpc ended_job = RReturned (Some RunKafka)
  ∧ clients_closed failed_job = false.
Proof.
  assert (reachable ended_job) as He.
  { apply (reachable_run ending_run failed_job); [apply failed_reachable|vm_compute; reflexivity]. }
  destruct (Job_stops_cleanly ended_job He) as (_&Hr&_). destruct (Hr (Some RunKafka)) as (H1&H2&_); [vm_compute; reflexivity|].
  destruct (Job_stops_cleanly failed_job failed_reachable) as (Hw&_). split_and!; [exact H1|exact H2|vm_compute; reflexivity|].
  apply (Hw 1%nat (MkWorker 7 3 WRunning)); vm_compute; reflexivity.
Defined.
(** The worker that failed cancels, the consumer leaves, and [Run] returns: 13 own steps. *)
Lemma Job_always_stops_witness :
  ending failed_job = true
  ∧ (∃ l, due l failed_job = true ∧ is_Some (job_step l failed_job))
  ∧ (own_steps ending_run + steps_left 2 ended_job ≤ steps_left 2 failed_job)%nat.
Proof.
  destruct (Job_always_stops 2 failed_job failed_reachable) as (_&_&_&He).
  assert (ending failed_job = true) as Hend by (vm_compute; reflexivity). destruct (He Hend) as [Hb Hm].
  split; [exact Hend|]. split.
  - destruct Hm as [[r Hr]|Hm]; [vm_compute in Hr; discriminate|exact Hm].
  - apply (Hb ending_run ended_job); [vm_compute; reflexivity|repeat constructor].
Defined.
Lemma no_generation_after_failure_witness :
  ∃ j', job_step (LNext NextError) failed_job = Some j' ∧ assigned j' = [(7, [0; 3])] ∧ failed j' = true.
Proof.
  destruct (job_step (LNext NextError) failed_job) as [j'|] eqn:Hs; [|vm_compute in Hs; discriminate].
  exists j'. split; [reflexivity|]. destruct (no_generation_after_failure failed_job (LNext NextError) j' failed_reachable) as [Ha Hf];
    [vm_compute; reflexivity|exact Hs|]. split; [rewrite Ha; vm_compute; reflexivity|exact Hf].
Defined.
