(* ===== verification/JobNetwork.v ===== *)
(** * The sockets and clients of Job: [internal/job/app/network.go]

    The owner of the sockets to Kafka as a transition system: dials, closes of single sockets and
    the close of all of them interleave, each section under the lock being one step.  Then what
    the owner, the pool of RPC clients and the configuration guarantee. *)
From S2P Require Import Prelude GoStd GoTime GoText External Dto KafkaPush JobReplay JobApp.
Local Open Scope Z_scope.

(** ** Sockets *)

(** A dial has opened the socket; it was dialled too late and is about to be closed; it is
    registered; it is closed but still registered; it is closed. *)
Inductive socket_phase : Type := SDialing | SRefused | SRegistered | SClosing | SGone.
Global Instance socket_phase_eq_dec : EqDecision socket_phase.
Proof. solve_decision. Defined.
Definition is_open (p : socket_phase) : bool := match p with SDialing | SRefused | SRegistered => true | _ => false end.
Definition is_registered (p : socket_phase) : bool := match p with SRegistered | SClosing => true | _ => false end.

(** The sockets in the order of their dials; each element of [closers] is what a run of
    [closeSockets] still has to close. *)
Record kafkaNetwork : Type := MkNetwork { sockets : list socket_phase; net_closed : bool; closers : list (list nat) }.
Definition newKafkaNetwork : kafkaNetwork := MkNetwork [] false [].
Definition move (c : nat) (p : socket_phase) (n : kafkaNetwork) : kafkaNetwork :=
  MkNetwork (<[c := p]> (sockets n)) (net_closed n) (closers n).
Inductive network_label : Type :=
| NDialed | NRegister (c : nat) | NRefuse (c : nat) | NClose (c : nat) | NForget (c : nat)
| NCloseSockets | NCloserStep (i : nat).
(** [ownedConn.Close]: the socket first, the registration after it; once. *)
Definition close_conn (c : nat) (n : kafkaNetwork) : kafkaNetwork :=
  match sockets n !! c with Some SRegistered => move c SClosing n | _ => n end.
(** The registered sockets. *)
Fixpoint registered_from (k : nat) (l : list socket_phase) : list nat :=
  match l with [] => [] | p :: l => if is_registered p then k :: registered_from (S k) l else registered_from (S k) l end.
Definition network_step (l : network_label) (n : kafkaNetwork) : option kafkaNetwork :=
  match l with
  | NDialed => Some (MkNetwork (sockets n ++ [SDialing]) (net_closed n) (closers n))
  | NRegister c =>
    if decide (sockets n !! c = Some SDialing)
    then Some (move c (if net_closed n then SRefused else SRegistered) n) else None
  | NRefuse c => if decide (sockets n !! c = Some SRefused) then Some (move c SGone n) else None
  | NClose c => if decide (sockets n !! c = Some SRegistered) then Some (close_conn c n) else None
  | NForget c => if decide (sockets n !! c = Some SClosing) then Some (move c SGone n) else None
  | NCloseSockets => Some (MkNetwork (sockets n) true (closers n ++ [registered_from 0 (sockets n)]))
  | NCloserStep i =>
    match closers n !! i with
    | Some (c :: rest) => Some (close_conn c (MkNetwork (sockets n) (net_closed n) (<[i := rest]> (closers n))))
    | _ => None
    end
  end.
Inductive network_reachable : kafkaNetwork → Prop :=
| network_start : network_reachable newKafkaNetwork
| network_next l n n' : network_reachable n → network_step l n = Some n' → network_reachable n'.

Lemma elem_of_registered k l c : (∃ p, l !! c = Some p ∧ is_registered p = true) → (k + c)%nat ∈ registered_from k l.
Proof.
  revert k c. induction l as [|p l IH]; intros k c (q&Hq&Hr); [done|]. destruct c as [|c]; cbn in Hq |- *.
  - injection Hq as ->. rewrite Hr, Nat.add_0_r. by constructor.
  - assert ((k + S c)%nat ∈ registered_from (S k) l) as Hin.
    { replace (k + S c)%nat with (S k + c)%nat by lia. apply IH. by exists q. }
    destruct (is_registered p); [by constructor|done].
Qed.
(** Who will close an open socket. *)
Record network_ok (n : kafkaNetwork) : Prop := NetworkOk {
  net_late c : sockets n !! c = Some SRefused → net_closed n = true;
  net_left c : sockets n !! c = Some SRegistered → net_closed n = true → ∃ i l, closers n !! i = Some l ∧ c ∈ l
}.
Lemma move_ok c p n : network_ok n → (p = SRefused → net_closed n = true) → (p = SRegistered → net_closed n = false) →
  network_ok (move c p n).
Proof.
  intros [Hl Hr] H1 H2. constructor; cbn; intros c' [(<-&->&_)|(_&Hc)]%list_lookup_insert_Some; auto.
  - by eapply Hl.
  - intros Hn. by rewrite H2 in Hn.
Qed.
Lemma close_conn_ok c n : network_ok n → network_ok (close_conn c n).
Proof. intros Hn. unfold close_conn. destruct (sockets n !! c) as [[]|]; try done. by apply move_ok. Qed.
Lemma network_step_ok l n n' : network_ok n → network_step l n = Some n' → network_ok n'.
Proof.
  intros Hok Hs. destruct l as [|c|c|c|c| |i]; cbn in Hs; repeat case_decide; try done.
  - injection Hs as <-. destruct Hok as [Hl Hr]. constructor; cbn; intros c [Hc|[_ Hc]]%lookup_app_Some; eauto;
      by apply list_lookup_singleton_Some in Hc as [_ ?].
  - injection Hs as <-. destruct (net_closed n) eqn:Hn; by apply move_ok.
  - injection Hs as <-. by apply move_ok.
  - injection Hs as <-. by apply close_conn_ok.
  - injection Hs as <-. by apply move_ok.
  - injection Hs as <-. destruct Hok as [Hl Hr]. constructor; cbn; [done|]. intros c Hc _.
    exists (length (closers n)), (registered_from 0 (sockets n)). split; [by rewrite list_lookup_middle|].
    apply (elem_of_registered 0). by exists SRegistered.
  - destruct (closers n !! i) as [[|c rest]|] eqn:Hi; try done. injection Hs as <-. destruct Hok as [Hl Hr].
    unfold close_conn. cbn. destruct (decide (sockets n !! c = Some SRegistered)) as [Hc|Hc].
    + rewrite Hc. constructor; cbn; intros c' [(_&?&_)|(Hne&Hc')]%list_lookup_insert_Some; try done; [by eapply Hl|].
      intros Hn. destruct (Hr c' Hc' Hn) as (k&l&Hk&Hin). destruct (decide (k = i)) as [->|Hki].
      * rewrite Hi in Hk. injection Hk as <-. exists i, rest. split; [apply list_lookup_insert_eq; by eapply lookup_lt_Some|].
        apply elem_of_cons in Hin as [->|]; done.
      * exists k, l. split; [by rewrite list_lookup_insert_ne|done].
    + assert (∀ m, match sockets n !! c with Some SRegistered => move c SClosing m | _ => m end = m) as ->.
      { intros m. destruct (sockets n !! c) as [[]|]; done. }
      constructor; cbn; [exact Hl|]. intros c' Hc' Hn. destruct (Hr c' Hc' Hn) as (k&l&Hk&Hin).
      destruct (decide (k = i)) as [->|Hki]; [|exists k, l; split; [by rewrite list_lookup_insert_ne|done]].
      rewrite Hi in Hk. injection Hk as <-. exists i, rest. split; [apply list_lookup_insert_eq; by eapply lookup_lt_Some|].
      apply elem_of_cons in Hin as [->|]; done.
Qed.
Lemma network_reachable_ok n : network_reachable n → network_ok n.
Proof. induction 1 as [|l n n' _ IH Hs]; [by constructor|by eapply network_step_ok]. Qed.
(** Closed for good, and closed sockets stay so. *)
Lemma network_step_closed l n n' : network_step l n = Some n' → net_closed n = true → net_closed n' = true
  ∧ ∀ c, sockets n' !! c = Some SRegistered → sockets n !! c = Some SRegistered.
Proof.
  intros Hs Hn. destruct l as [|c|c|c|c| |i]; cbn in Hs; repeat case_decide; try done.
  - injection Hs as <-. split; [done|]. cbn. intros c [Hc|[_ Hc]]%lookup_app_Some; [done|].
    by apply list_lookup_singleton_Some in Hc as [_ ?].
  - injection Hs as <-. rewrite Hn. split; [done|]. cbn. intros c' [(_&?&_)|(_&?)]%list_lookup_insert_Some; done.
  - injection Hs as <-. split; [done|]. cbn. intros c' [(_&?&_)|(_&?)]%list_lookup_insert_Some; done.
  - injection Hs as <-. unfold close_conn. destruct (sockets n !! c) as [[]|]; try done. split; [done|].
    cbn. intros c' [(_&?&_)|(_&?)]%list_lookup_insert_Some; done.
  - injection Hs as <-. split; [done|]. cbn. intros c' [(_&?&_)|(_&?)]%list_lookup_insert_Some; done.
  - by injection Hs as <-.
  - destruct (closers n !! i) as [[|c rest]|]; try done. injection Hs as <-. unfold close_conn. cbn.
    destruct (sockets n !! c) as [[]|]; try done. split; [done|]. cbn. intros c' [(_&?&_)|(_&?)]%list_lookup_insert_Some; done.
Qed.

(** no socket to Kafka outlives the process.  In every interleaving of dials, closes and
    [closeSockets]: once sockets were told to close none is registered again, and when no dial
    and no closing is under way every socket is closed. *)
Theorem sockets_closed n : network_reachable n → net_closed n = true →
  (∀ l n', network_step l n = Some n' →
     net_closed n' = true ∧ ∀ c, sockets n' !! c = Some SRegistered → sockets n !! c = Some SRegistered)
  ∧ (Forall (λ l, l = []) (closers n) → (∀ c p, sockets n !! c = Some p → p ≠ SDialing ∧ p ≠ SRefused) →
     ∀ c p, sockets n !! c = Some p → is_open p = false).
Proof.
  intros Hok%network_reachable_ok Hn. split; [intros l n' Hs; by eapply network_step_closed|].
  intros Hc Hd c p Hp. destruct (Hd c p Hp) as [H1 H2]. destruct p; try done. exfalso.
  destruct (net_left _ Hok c Hp Hn) as (i&l&Hi&Hin). rewrite Forall_lookup in Hc. rewrite (Hc _ _ Hi) in Hin. by apply elem_of_nil in Hin.
Qed.
Definition closing_run : list network_label :=
  [NDialed; NRegister 0; NDialed; NRegister 1; NDialed; NClose 1; NCloseSockets; NRegister 2; NCloserStep 0; NForget 1;
   NCloserStep 0; NRefuse 2].
Fixpoint network_run (ls : list network_label) (n : kafkaNetwork) : option kafkaNetwork :=
  match ls with [] => Some n | l :: ls => n' ← network_step l n; network_run ls n' end.
Lemma network_run_reachable ls n n' : network_reachable n → network_run ls n = Some n' → network_reachable n'.
Proof.
  revert n. induction ls as [|l ls IH]; intros n Hn Hr; cbn [network_run] in Hr; [by injection Hr as <-|].
  destruct (network_step l n) as [n1|] eqn:Hs; [|done]. apply (IH n1); [by eapply network_next|done].
Qed.
Definition closed_network : kafkaNetwork := default newKafkaNetwork (network_run closing_run newKafkaNetwork).
Lemma sockets_closed_witness :
  sockets closed_network = [SClosing; SGone; SGone] ∧ ∀ c p, sockets closed_network !! c = Some p → is_open p = false.
Proof.
  split; [vm_compute; reflexivity|]. apply (sockets_closed closed_network).
  - apply (network_run_reachable closing_run newKafkaNetwork); [constructor|vm_compute; reflexivity].
  - vm_compute. reflexivity.
  - vm_compute. repeat constructor.
  - intros c p Hc. apply list_elem_of_lookup_2 in Hc.
    assert (sockets closed_network = [SClosing; SGone; SGone]) as Hs by (vm_compute; reflexivity). rewrite Hs in Hc.
    repeat (apply elem_of_cons in Hc as [->|Hc]; [split; discriminate|]). by apply elem_of_nil in Hc.
Defined.
