(* ===== verification/JobAppProofs.v ===== *)
(** * The configuration and the client pool of Job *)
From S2P Require Import Prelude GoStd GoTime GoText External Dto KafkaPush JobReplay JobApp.
Local Open Scope Z_scope.

(** ** Topics *)

Lemma topic_rules topic : named topic "fable.push.v1" = validTopic topic.
Proof. reflexivity. Qed.
Lemma append_empty s : s +:+ "" = s.
Proof. induction s as [|c s IH]; [done|]. change (String c s +:+ "") with (String c (s +:+ "")). by rewrite IH. Qed.
Lemma prefix_app p s : has_prefix s p = true → ∃ r, s = p +:+ r.
Proof.
  unfold has_prefix. destruct (cut_prefix p s) as [r|] eqn:Hc; [|done]. intros _. exists r. by apply cut_prefix_Some.
Qed.
Lemma named_prefix s prefix : named s prefix = true → ∃ r, s = prefix +:+ r.
Proof.
  unfold named. intros [Hn _]%andb_true_iff. apply negb_true_iff, orb_false_iff in Hn as [_ Hn].
  destruct (decide (s = prefix)) as [->|Hne]; [exists ""; by rewrite append_empty|].
  rewrite bool_decide_true in Hn by done. rewrite andb_true_l in Hn. apply orb_false_iff in Hn as [Hp%negb_false_iff _].
  apply prefix_app in Hp as [r ->]. exists ("." +:+ r). by rewrite <-string_app_assoc.
Qed.
Lemma pushTopic_named topic : named topic "fable.push.v1" = true → pushTopic topic = true.
Proof.
  unfold named, pushTopic. intros [Hn _]%andb_true_iff. apply negb_true_iff, orb_false_iff in Hn as [_ Hn].
  destruct (decide (topic = "fable.push.v1")) as [->|Hne]; [done|]. rewrite (bool_decide_false (topic = _)) by done.
  rewrite bool_decide_true in Hn by done. rewrite andb_true_l in Hn. apply orb_false_iff in Hn as [Hp%negb_false_iff Hl%Z.eqb_neq].
  change ("fable.push.v1" +:+ ".") with "fable.push.v1." in Hp. rewrite Hp. cbn [orb andb]. apply Z.ltb_lt.
  apply prefix_app in Hp as [r ->]. cbn in Hl. destruct r as [|c r]; [done|]. unfold len.
  change (String.length ("fable.push.v1." +:+ String c r)) with (14 + S (String.length r))%nat.
  change (String.length "fable.push.v1.") with 14%nat. lia.
Qed.

Lemma validate_facts c : validate c = true →
  loopback (HTTPAddress c) true = true ∧ loopback (LogicAddress c) false = true
  ∧ 32 ≤ len (JobToken c) ≤ 256 ∧ Forall (λ r, 33 ≤ r ≤ 126) (runes (JobToken c))
  ∧ Brokers c ≠ [] ∧ Forall (λ b, broker_ok b = true) (Brokers c)
  ∧ validTopic (PushTopic c) = true ∧ pushTopic (PushTopic c) = true ∧ PushTopic c ≠ DLQTopic c.
Proof.
  unfold validate. rewrite !andb_true_iff, negb_true_iff, !orb_false_iff, !negb_false_iff.
  intros [[[[[[[[[Hh Hl] H32] H256] Hb] Ht] Hd] _] Htok] Hbr]. split_and!; try done; try lia.
  - apply forallb_Forall in Htok. eapply Forall_impl; [exact Htok|]. intros r. unfold token_rune. lia.
  - intros Hnil. by rewrite Hnil in Hb.
  - by apply forallb_Forall.
  - by apply pushTopic_named.
  - apply named_prefix in Ht as [r ->], Hd as [r' ->]. discriminate.
Qed.

(** What the environment says of a setting, and what the file and the defaults say. *)
Definition chosen (env : string → option string) (name file default_ : string) : string :=
  match env name with Some s => s | None => if bool_decide (file = "") then default_ else file end.

(** a configuration that is accepted is safe to run.  The variables win over the file and the
    file over the defaults; the endpoints are on the loopback interface, the credential is 32 to
    256 printable characters, the topic is one that the publisher of Logic and the replay accept,
    and it is never the topic of the dead letters. *)
Theorem LoadConfig_sound f env c :
  LoadConfig (Some f) env = Some c →
  HTTPAddress c = chosen env "FABLE_JOB_HTTP_ADDR" (FileHTTP f) "127.0.0.1:18082"
  ∧ LogicAddress c = chosen env "FABLE_JOB_LOGIC_ADDR" (FileLogic f) "127.0.0.1:19001"
  ∧ JobToken c = chosen env "FABLE_JOB_TOKEN" (FileToken f) (FileToken f)
  ∧ PushTopic c = chosen env "FABLE_KAFKA_TOPIC" (FileTopic f) "fable.push.v1"
  ∧ loopback (HTTPAddress c) true = true ∧ loopback (LogicAddress c) false = true
  ∧ 32 ≤ len (JobToken c) ≤ 256 ∧ Forall (λ r, 33 ≤ r ≤ 126) (runes (JobToken c))
  ∧ Brokers c ≠ [] ∧ Forall (λ b, broker_ok b = true) (Brokers c)
  ∧ validTopic (PushTopic c) = true ∧ pushTopic (PushTopic c) = true ∧ PushTopic c ≠ DLQTopic c.
Proof.
  unfold LoadConfig. cbn [mbind option_bind]. destruct (validate _) eqn:Hv; [|done]. intros [= <-].
  pose proof (validate_facts _ Hv) as Hf. clear Hv.
  split; [done|]. split; [done|]. split; [unfold chosen, overlay; cbn; destruct (env "FABLE_JOB_TOKEN"); [done|by destruct (bool_decide (FileToken f = ""))]|].
  split; [done|]. exact Hf.
Qed.
Definition sample_file : config_file :=
  MkConfigFile "" "" "0123456789abcdef0123456789abcdef" "" "" ["127.0.0.1:9092"] "".
Definition sample_variables (n : string) : option string :=
  if bool_decide (n = "FABLE_KAFKA_TOPIC") then Some "fable.push.v1.test" else None.
Lemma LoadConfig_sound_witness :
  ∃ c, LoadConfig (Some sample_file) sample_variables = Some c ∧ PushTopic c = "fable.push.v1.test" ∧ PushTopic c ≠ DLQTopic c.
Proof.
  destruct (LoadConfig (Some sample_file) sample_variables) as [c|] eqn:Hc; [|vm_compute in Hc; discriminate].
  destruct (LoadConfig_sound sample_file sample_variables c Hc) as (_&_&_&Ht&_&_&_&_&_&_&_&_&Hne).
  exists c. split; [reflexivity|]. split; [rewrite Ht; vm_compute; reflexivity|exact Hne].
Defined.

(** ** The pool of clients *)

Inductive pool_call : Type := PoolGet (ctx : option context_error) (client : option nat) (address : string) | PoolClose.
Definition pool_call_run (c : pool_call) (p : rpcPool) : rpcPool :=
  match c with PoolGet ctx client address => (get ctx client address p).2 | PoolClose => close_pool p end.
Definition pool_after (cs : list pool_call) (limit : Z) : rpcPool := foldl (λ p c, pool_call_run c p) (newRPCPool limit) cs.

Record pool_ok (limit : Z) (p : rpcPool) : Prop := PoolOk {
  pool_bound : pool_limit p = limit ∧ (0 ≤ limit → Z.of_nat (size (pool_clients p)) ≤ limit);
  pool_local a c : pool_clients p !! a = Some c → loopback a false = true ∧ c ∈ made p;
  pool_owned c : c ∈ made p → c ∈ shut p ∨ ∃ a, pool_clients p !! a = Some c;
  pool_end : pool_closed p = true → pool_clients p = ∅
}.
Lemma get_ok limit ctx client a p : pool_ok limit p → pool_ok limit (get ctx client a p).2.
Proof.
  intros Hok. unfold get. destruct ctx; [done|]. destruct (loopback a false) eqn:Hl; [|done]. cbn [negb].
  destruct (pool_closed p) eqn:Hc; [done|]. destruct (pool_clients p !! a) as [c|] eqn:Ha; [done|].
  destruct (pool_limit p <=? _) eqn:Hlim; [done|]. destruct client as [c|]; [|done]. destruct Hok as [[Hlimit Hb] Hlo Ho _].
  constructor; cbn.
  - split; [done|]. intros H0. rewrite map_size_insert_None by done. lia.
  - intros a' c' [[<- <-]|[_ Hc']]%lookup_insert_Some; (split; [|apply elem_of_app]); [done|right; by constructor|by eapply Hlo|left; by eapply Hlo].
  - intros c' [Hc'|Hc']%elem_of_app; [|apply list_elem_of_singleton in Hc' as ->; right; exists a; by rewrite lookup_insert_eq].
    destruct (Ho c' Hc') as [|[a' Ha']]; [by left|right; exists a']. rewrite lookup_insert_ne; [done|]. intros ->. congruence.
  - done.
Qed.
Lemma pool_after_ok cs limit : pool_ok limit (pool_after cs limit).
Proof.
  induction cs as [|c cs IH] using rev_ind.
  { constructor; cbn; try done; by intros c Hc%elem_of_nil. }
  unfold pool_after in *. rewrite foldl_app. cbn [foldl]. destruct c as [ctx client a|]; [by apply get_ok|]. unfold pool_call_run.
  destruct IH as [[Hlimit _] Hlo Ho _]. constructor; cbn; try done.
  intros c Hc. left. apply elem_of_app. destruct (Ho c Hc) as [|[a Ha]]; [by left|right].
  apply list_elem_of_fmap. exists (a, c). split; [done|]. by apply elem_of_map_to_list.
Qed.

(** C25: the pool is bounded and owns its clients.  Whatever calls are made: there are never more
    clients than the limit, all of loopback addresses, one for an address; a client is handed out
    only while it is open; after [Close] every client that was made is closed and none is handed
    out. *)
Theorem pool_bounded cs limit : 0 ≤ limit →
  let p := pool_after cs limit in
  Z.of_nat (size (pool_clients p)) ≤ limit
  ∧ (∀ ctx client a c p', get ctx client a p = (Ok c, p') →
       loopback a false = true ∧ pool_closed p = false ∧ pool_clients p' !! a = Some c
       ∧ (pool_clients p !! a = Some c ∨ pool_clients p !! a = None ∧ client = Some c)
       ∧ ∀ client', (get None client' a p').1 = Ok c)
  ∧ (pool_closed p = true → (∀ c, c ∈ made p → c ∈ shut p) ∧ ∀ ctx client a c, (get ctx client a p).1 ≠ Ok c).
Proof.
  intros H0 p. pose proof (pool_after_ok cs limit) as Hok. fold p in Hok. split; [by apply Hok|]. split.
  - intros ctx client a c p'. unfold get. destruct ctx; [done|]. destruct (loopback a false) eqn:Hl; [|done]. cbn [negb].
    destruct (pool_closed p) eqn:Hc; [done|]. destruct (pool_clients p !! a) as [c'|] eqn:Ha.
    { intros [= <- <-]. split_and!; auto. intros client'. by rewrite Hc, Ha. }
    destruct (pool_limit p <=? _); [done|]. destruct client as [c'|]; [|done]. intros [= <- <-].
    split_and!; auto; cbn; [by rewrite lookup_insert_eq|]. intros client'. by rewrite lookup_insert_eq.
  - intros Hc. split.
    + intros c Hm. destruct (pool_owned _ _ Hok c Hm) as [|[a Ha]]; [done|]. rewrite (pool_end _ _ Hok Hc) in Ha. done.
    + intros ctx client a c. unfold get. destruct ctx; [done|]. destruct (negb _); [done|]. by rewrite Hc.
Qed.
Lemma pool_bounded_witness :
  let p := pool_after [PoolGet None (Some 1%nat) "127.0.0.1:1"; PoolGet None (Some 2%nat) "127.0.0.1:2"; PoolClose] 1 in
  Z.of_nat (size (pool_clients p)) ≤ 1 ∧ (∀ c, c ∈ made p → c ∈ shut p) ∧ made p = [1%nat].
Proof.
  destruct (pool_bounded [PoolGet None (Some 1%nat) "127.0.0.1:1"; PoolGet None (Some 2%nat) "127.0.0.1:2"; PoolClose] 1 ltac:(lia))
    as (Hb&_&Hc). destruct Hc as [Hm _]; [vm_compute; reflexivity|]. split_and!; [exact Hb|exact Hm|vm_compute; reflexivity].
Defined.
