(* ===== verification/ChatServer.v ===== *)
(** * The chat server of a single process: [internal/service/chatservice], [kafkaservice]

    The owner loop of [Server] with its queues, the closing of clients, the handling of a chat
    message over the business services, and the transport of chat events through Kafka. *)
From S2P Require Import Prelude GoStd GoTime External Json JsonPrint Dto CometFrames Tables GormService.
Local Open Scope Z_scope.

(** ** Clients and the server *)

Definition DefaultQueueSize : Z := 256.

(** [Close] of a client: not called, inside (its [done] is closed, it has not told the server),
    over. *)
Inductive close_phase : Type := Open | Closing | Closed.
Global Instance close_phase_eq_dec : EqDecision close_phase.
Proof. solve_decision. Defined.
Record client : Type := MkClient {
  userUUID : string; buffer : Z; outbound : list wschat.Message; phase : close_phase; registered : bool
}.
Definition set_outbound (l : list wschat.Message) (c : client) : client := MkClient (userUUID c) (buffer c) l (phase c) (registered c).
Definition set_phase (p : close_phase) (c : client) : client := MkClient (userUUID c) (buffer c) (outbound c) p (registered c).
Definition set_registered (c : client) : client := MkClient (userUUID c) (buffer c) (outbound c) (phase c) true.
Definition NewClient (user : string) (outboundBuffer : Z) : client :=
  MkClient user (if outboundBuffer <=? 0 then DefaultQueueSize else outboundBuffer) [] Open false.

Record routeRequest : Type := MkRoute { recipients : list string; message : wschat.Message }.
(** Where [Start] is: in its loop, closing the clients it listed, or returned. *)
Inductive loop_state : Type := Looping | ClosingClients (ks : list nat) | Stopped.
(** Clients are numbered; [closers] are the goroutines started for [Close] of a client. *)
Record server : Type := MkServer {
  clients : gmap string nat; online : Z; routeQueue : list routeRequest; unregister : list nat; queue_size : Z;
  done : bool; loop : loop_state; heap : list client; closers : list nat
}.
Definition NewServer (queueSize : Z) : server :=
  MkServer ∅ 0 [] [] (if queueSize <=? 0 then DefaultQueueSize else queueSize) false Looping [] [].
Definition set_clients (m : gmap string nat) (n : Z) (s : server) : server :=
  MkServer m n (routeQueue s) (unregister s) (queue_size s) (done s) (loop s) (heap s) (closers s).
Definition set_routes (l : list routeRequest) (s : server) : server :=
  MkServer (clients s) (online s) l (unregister s) (queue_size s) (done s) (loop s) (heap s) (closers s).
Definition set_unregister (l : list nat) (s : server) : server :=
  MkServer (clients s) (online s) (routeQueue s) l (queue_size s) (done s) (loop s) (heap s) (closers s).
Definition set_done (s : server) : server :=
  MkServer (clients s) (online s) (routeQueue s) (unregister s) (queue_size s) true (loop s) (heap s) (closers s).
Definition set_loop (l : loop_state) (s : server) : server :=
  MkServer (clients s) (online s) (routeQueue s) (unregister s) (queue_size s) (done s) l (heap s) (closers s).
Definition set_heap (l : list client) (s : server) : server :=
  MkServer (clients s) (online s) (routeQueue s) (unregister s) (queue_size s) (done s) (loop s) l (closers s).
Definition set_closers (l : list nat) (s : server) : server :=
  MkServer (clients s) (online s) (routeQueue s) (unregister s) (queue_size s) (done s) (loop s) (heap s) l.
Definition update (k : nat) (f : client → client) (s : server) : server := set_heap (alter f k (heap s)) s.
(** [go client.Close()]. *)
Definition go_close (k : nat) (s : server) : server := set_closers (closers s ++ [k]) s.

(** ** The cases of the loop *)

Definition register_client (k : nat) (s : server) : server :=
  match heap s !! k with
  | None => s
  | Some c =>
    let previous := clients s !! userUUID c in
    let s' := update k set_registered
                (set_clients (<[userUUID c := k]> (clients s))
                   (match previous with Some _ => online s | None => online s + 1 end) s) in
    match previous with
    | Some p => if bool_decide (p = k) then s' else go_close p s'
    | None => s'
    end
  end.
Definition removeClient (k : nat) (s : server) : server :=
  match heap s !! k with
  | None => s
  | Some c =>
    if bool_decide (clients s !! userUUID c = Some k)
    then set_clients (delete (userUUID c) (clients s)) (online s - 1) s
    else s
  end.
(** [done] of the client is looked at once: a message that is queued while the client closes is lost
    with it. *)
Definition deliver (k : option nat) (m : wschat.Message) (s : server) : server :=
  match k with
  | None => s
  | Some k =>
    match heap s !! k with
    | None => s
    | Some c =>
      if bool_decide (phase c ≠ Open) then s
      else if slen (outbound c) <? buffer c then update k (set_outbound (outbound c ++ [m])) s
      else go_close k s
    end
  end.
Definition route (r : routeRequest) (s : server) : server :=
  foldl (λ s user, deliver (clients s !! user) (message r) s) s (recipients r).
Definition closeClients (s : server) : server :=
  set_loop (ClosingClients (map_to_list (clients s)).*2) (set_clients ∅ 0 s).

(** ** Steps of the goroutines *)

(** [CWrite] is a turn of [write]; a failed write, the end of [read], a refused [Register] and the
    loop itself all end in [CClose]. *)
Inductive chat_label : Type :=
| CNew (user : string) (outboundBuffer : Z)
| CRegister (k : nat)
(** [Close]: by anyone or by a goroutine started for it; then the send to [unregister]. *)
| CClose (k : nat) | CCloser (i : nat) | CUnregister (k : nat) | CForget (k : nat)
| CTakeUnregister
| CRoute (r : routeRequest) | CTakeRoute
| CWrite (k : nat)
| CStop | CDone | CCloseNext.
Definition begin_close (k : nat) (s : server) : server :=
  match heap s !! k with
  | Some c => if bool_decide (phase c = Open) then update k (set_phase Closing) s else s
  | None => s
  end.
Definition phase_of (k : nat) (s : server) : option close_phase := phase <$> heap s !! k.
Definition chat_step (l : chat_label) (s : server) : option server :=
  match l with
  | CNew user n => Some (set_heap (heap s ++ [NewClient user n]) s)
  | CRegister k =>
    c ← heap s !! k;
    match loop s with
    | Looping => if registered c || bool_decide (phase c ≠ Open) || bool_decide (userUUID c = "") then None else Some (register_client k s)
    | _ => None
    end
  | CClose k => Some (begin_close k s)
  | CCloser i =>
    k ← closers s !! i;
    Some (begin_close k (set_closers (take i (closers s) ++ drop (S i) (closers s)) s))
  | CUnregister k =>
    if bool_decide (phase_of k s = Some Closing) && (slen (unregister s) <? queue_size s)
    then Some (update k (set_phase Closed) (set_unregister (unregister s ++ [k]) s)) else None
  | CForget k =>
    if bool_decide (phase_of k s = Some Closing) && done s then Some (update k (set_phase Closed) s) else None
  | CTakeUnregister =>
    match loop s, unregister s with
    | Looping, k :: ks => Some (removeClient k (set_unregister ks s))
    | _, _ => None
    end
  | CRoute r => if slen (routeQueue s) <? queue_size s then Some (set_routes (routeQueue s ++ [r]) s) else None
  | CTakeRoute =>
    match loop s, routeQueue s with
    | Looping, r :: rs => Some (route r (set_routes rs s))
    | _, _ => None
    end
  | CWrite k =>
    c ← heap s !! k;
    match outbound c with
    | m :: ms => if registered c then Some (update k (set_outbound ms) s) else None
    | [] => None
    end
  | CStop => Some (set_done s)
  | CDone => match loop s with Looping => if done s then Some (closeClients s) else None | _ => None end
  | CCloseNext =>
    match loop s with
    | ClosingClients (k :: ks) =>
      match phase_of k s with
      | Some Open => Some (begin_close k s)
      | Some Closed => Some (set_loop (ClosingClients ks) s)
      | _ => None
      end
    | ClosingClients [] => Some (set_loop Stopped s)
    | _ => None
    end
  end.
Inductive chat_reachable (queueSize : Z) : server → Prop :=
| chat_start : chat_reachable queueSize (NewServer queueSize)
| chat_next l s s' : chat_reachable queueSize s → chat_step l s = Some s' → chat_reachable queueSize s'.

(** ** Requests for the queue *)

(** [RouteTo] and [RouteToUsers]: the request, if one is sent. *)
Definition RouteTo (user : string) (m : wschat.Message) : option routeRequest :=
  if bool_decide (user = "") then None else Some (MkRoute [user] m).
Fixpoint distinct (seen : list string) (ids : list string) : list string :=
  match ids with
  | [] => []
  | id :: ids =>
    if bool_decide (id ≠ "") && negb (bool_decide (id ∈ seen)) then id :: distinct (id :: seen) ids else distinct seen ids
  end.
Definition RouteToUsers (users : list string) (m : wschat.Message) : option routeRequest :=
  let ids := distinct [] users in
  if bool_decide (ids = []) then None else Some (MkRoute ids m).

Definition ReceiveTypeUser : Z := 0.
Definition ReceiveTypeGroup : Z := 1.
Definition validDestination (id : string) (receiveType : Z) : bool :=
  if bool_decide (id = "") then false
  else if receiveType =? ReceiveTypeUser then has_prefix id "U"
  else if receiveType =? ReceiveTypeGroup then has_prefix id "G"
  else false.

(** [HandleMessage]: the request that goes to the queue; [accepts] tells whether the server takes
    it (it does not once it is done). *)
Definition HandleMessage (e : env) (accepts : bool) (senderID : string) (incoming : wschat.Message)
  : Prog gorm_error routeRequest :=
  (check (negb (bool_decide (senderID = "") || bool_decide (wschat.SendID incoming ≠ senderID)
                || negb (validDestination (wschat.ReceiveID incoming) (wschat.ReceiveType incoming)))) ErrInvalidGroup;;
   created ← (if (wschat.ReceiveType incoming =? ReceiveTypeGroup) || has_prefix (wschat.ReceiveID incoming) "G"
              then SendGroupMessage e senderID (wschat.ReceiveID incoming) (wschat.Content incoming)
              else SendMessage e senderID (wschat.ReceiveID incoming) (wschat.Content incoming));
   let outgoing := wschat.MkMessage (response.SendID created) (response.ReceiveID created) (response.Content created)
                     (response.Origin created) (wschat.ReceiveType incoming) in
   request ← (if wschat.ReceiveType incoming =? ReceiveTypeGroup then
                group ← GetGroup e (wschat.ReceiveID incoming);
                mret (RouteToUsers (response.Members group) outgoing)
              else mret (RouteTo (response.ReceiveID created) outgoing));
   match request with
   | Some r => if accepts then mret r else fail ErrDatabase
   | None => fail ErrDatabase
   end).

(** ** The reader of a client *)

Record ChatEvent : Type := MkEvent {
  EventID : string; SenderID : string; EventReceiveID : string; EventReceiveType : Z; EventContent : string; EventCreatedAt : time
}.
(** One turn of [read]: the end, nothing, an event for Kafka, or a message handled here. *)
Inductive read_action : Type := ReadEnds | ReadSkips | ReadPublishes (ev : ChatEvent) | ReadHandles (m : wschat.Message).
Definition read_turn (user : string) (kafka : bool) (id : string) (now : time) (frame : option wschat.Message) : read_action :=
  match frame with
  | None => ReadEnds
  | Some m =>
    if bool_decide (wschat.SendID m ≠ user) then ReadEnds
    else if negb (validDestination (wschat.ReceiveID m) (wschat.ReceiveType m)) then ReadSkips
    else if kafka
    then ReadPublishes (MkEvent id user (wschat.ReceiveID m) (wschat.ReceiveType m) (wschat.Content m) now)
    else ReadHandles m
  end.

(** ** Chat events through Kafka ([kafkaservice/service.go], [cmd/my_chat_server]) *)

Definition print_event (ev : ChatEvent) : option string :=
  created ← print_time (EventCreatedAt ev);
  Some (print_object
    [field "event_id" (print_string (EventID ev)); field "sender_id" (print_string (SenderID ev));
     field "receive_id" (print_string (EventReceiveID ev)); field "receive_type" (format_int (EventReceiveType ev));
     field "content" (print_string (EventContent ev)); field "created_at" created]).
Definition event_field (ev : ChatEvent) (key : string) (v : json) : option ChatEvent :=
  let 'MkEvent id sender receive type content created := ev in
  if names key "event_id" then s ← decode_string id v; Some (MkEvent s sender receive type content created)
  else if names key "sender_id" then s ← decode_string sender v; Some (MkEvent id s receive type content created)
  else if names key "receive_id" then s ← decode_string receive v; Some (MkEvent id sender s type content created)
  else if names key "receive_type" then n ← decode_int8 type v; Some (MkEvent id sender receive n content created)
  else if names key "content" then s ← decode_string content v; Some (MkEvent id sender receive type s created)
  else if names key "created_at" then t ← decode_time created v; Some (MkEvent id sender receive type content t)
  else Some ev.
Definition zero_event : ChatEvent := MkEvent "" "" "" 0 "" zero_time.
Definition decode_event (raw : string) : option ChatEvent := v ← parse raw; decode_struct event_field zero_event v.

(** The key and value of the record. *)
Definition Publish (ev : ChatEvent) : option (string * string) :=
  raw ← print_event ev;
  Some (if EventReceiveType ev =? ReceiveTypeUser then SenderID ev +:+ ":" +:+ EventReceiveID ev else EventReceiveID ev, raw).

(** What a step of [Consume] does with a record. *)
Inductive consume_step : Type := Handled (ev : ChatEvent) (ok : bool) | Committed (offset : nat) (ok : bool).
(** The loop over the records from [offset] on: it ends at the first fetch, handler or commit that
    fails; [records] are those the reader answers before its first error. *)
Fixpoint Consume {W} (handler : ChatEvent → W → bool * W) (commit : nat → W → bool * W) (offset : nat)
    (records : list string) (w : W) : list consume_step * W :=
  match records with
  | [] => ([], w)
  | raw :: records =>
    match decode_event raw with
    | None => Consume handler commit (S offset) records w
    | Some ev =>
      if bool_decide (EventID ev = "") then Consume handler commit (S offset) records w
      else
        let '(ok, w) := handler ev w in
        if ok : bool then
          let '(done, w) := commit offset w in
          if done : bool
          then let '(steps, w) := Consume handler commit (S offset) records w in
               (Handled ev true :: Committed offset true :: steps, w)
          else ([Handled ev true; Committed offset false], w)
        else ([Handled ev false], w)
    end
  end.
(** The handler of the process. *)
Definition event_message (ev : ChatEvent) : wschat.Message :=
  wschat.MkMessage (SenderID ev) (EventReceiveID ev) (EventContent ev) 0 (EventReceiveType ev).
Definition handle_event (e : env) (accepts : bool) (ev : ChatEvent) : Prog gorm_error routeRequest :=
  HandleMessage e accepts (SenderID ev) (event_message ev).
