(* ===== verification/ChatServerProofs.v ===== *)
(** * The chat server: who is online, who receives, and the end

    The invariant of every interleaving of the owner loop, the clients and the goroutines that
    close them; what the routing of a message changes; and that the server can always stop. *)
From S2P Require Import Prelude GoStd GoTime Json JsonPrint Dto CometFrames Tables GormService ChatServer.
Local Open Scope Z_scope.

(** ** The invariant *)

Definition closing (s : server) : list nat := match loop s with ClosingClients ks => ks | _ => [] end.
Record chat_ok (s : server) : Prop := ChatOk {
  ok_online : online s = Z.of_nat (size (clients s));
  ok_listed u k : clients s !! u = Some k → ∃ c, heap s !! k = Some c ∧ userUUID c = u ∧ registered c = true;
  ok_client k c : heap s !! k = Some c → 0 < buffer c ∧ slen (outbound c) ≤ buffer c;
  ok_named k c : heap s !! k = Some c → registered c = true → userUUID c ≠ "";
  ok_queues : 0 < queue_size s ∧ slen (routeQueue s) ≤ queue_size s ∧ slen (unregister s) ≤ queue_size s;
  ok_unregister k : k ∈ unregister s → ∃ c, heap s !! k = Some c ∧ phase c ≠ Open;
  ok_gone u k c : clients s !! u = Some k → heap s !! k = Some c → phase c = Closed → k ∈ unregister s ∨ done s = true;
  ok_open k c : heap s !! k = Some c → registered c = true → phase c = Open →
    clients s !! userUUID c = Some k ∨ k ∈ closers s ∨ k ∈ closing s;
  ok_over : loop s ≠ Looping → clients s = ∅ ∧ done s = true;
  ok_closing k : k ∈ closing s → is_Some (heap s !! k)
}.

(** A change of one client: its user, its registration and the size of its buffer stay. *)
Record client_change (s : server) (k : nat) (f : client → client) : Prop := ClientChange {
  change_user c : userUUID (f c) = userUUID c;
  change_registered c : registered (f c) = registered c;
  change_buffer c : buffer (f c) = buffer c;
  change_outbound c : slen (outbound c) ≤ buffer c → heap s !! k = Some c → slen (outbound (f c)) ≤ buffer c;
  change_open c : phase (f c) = Open → phase c = Open;
  change_closed c : heap s !! k = Some c → phase (f c) = Closed → phase c = Closed ∨ k ∈ unregister s ∨ done s = true
}.
Lemma heap_update k f s j : heap (update k f s) !! j = (if bool_decide (j = k) then f <$> heap s !! j else heap s !! j).
Proof.
  change (heap (update k f s)) with (alter f k (heap s)). case_bool_decide as Hj; [subst j|].
  - apply list_lookup_alter_eq.
  - by apply list_lookup_alter_ne.
Qed.
Lemma update_old k f s j c' : heap (update k f s) !! j = Some c' →
  ∃ c, heap s !! j = Some c ∧ ((j ≠ k ∧ c' = c) ∨ (j = k ∧ c' = f c)).
Proof.
  rewrite heap_update. case_bool_decide as Hj; [|by eauto]. intros (c&Hc&->)%fmap_Some. eauto.
Qed.
Lemma update_new k f s j c : heap s !! j = Some c →
  heap (update k f s) !! j = Some (if bool_decide (j = k) then f c else c).
Proof. intros Hc. rewrite heap_update, Hc. by case_bool_decide. Qed.
Lemma update_ok s k f : chat_ok s → client_change s k f → chat_ok (update k f s).
Proof.
  intros Hok Hf. constructor; try (destruct Hok; done).
  - intros u j Hu. destruct (ok_listed _ Hok u j Hu) as (c&Hc&Hcu&Hr). eexists. split; [by apply update_new|].
    case_bool_decide; [|done]. by rewrite (change_user _ _ _ Hf), (change_registered _ _ _ Hf).
  - intros j c' (c&Hc&[[_ ->]|[-> ->]])%update_old; pose proof (ok_client _ Hok _ _ Hc) as [Hb Ho]; [done|].
    rewrite (change_buffer _ _ _ Hf). split; [done|]. by apply (change_outbound _ _ _ Hf).
  - intros j c' (c&Hc&[[_ ->]|[-> ->]])%update_old; [by apply (ok_named _ Hok _ _ Hc)|].
    rewrite (change_registered _ _ _ Hf), (change_user _ _ _ Hf). by apply (ok_named _ Hok _ _ Hc).
  - intros j Hj. destruct (ok_unregister _ Hok j Hj) as (c&Hc&Hp). eexists. split; [by apply update_new|].
    case_bool_decide; [|done]. intros Hx%(change_open _ _ _ Hf). done.
  - intros u j c' Hu (c&Hc&[[_ ->]|[-> ->]])%update_old Hp; [by eapply (ok_gone _ Hok)|].
    destruct (change_closed _ _ _ Hf c Hc Hp) as [Hp'|Hp']; [by eapply (ok_gone _ Hok)|done].
  - intros j c' (c&Hc&[[_ ->]|[-> ->]])%update_old; [by apply (ok_open _ Hok)|].
    rewrite (change_registered _ _ _ Hf), (change_user _ _ _ Hf).
    intros Hr Hp%(change_open _ _ _ Hf). by apply (ok_open _ Hok).
  - intros j [c Hc]%(ok_closing _ Hok). eexists. by apply update_new.
Qed.
Lemma phase_change s k p : (p = Closing ∨ p = Closed ∧ (k ∈ unregister s ∨ done s = true)) → client_change s k (set_phase p).
Proof.
  intros Hp. constructor; try done.
  - intros c. cbn. by destruct Hp as [->|[-> _]].
  - intros c _. cbn. intros ->. destruct Hp as [[=]|[_ Hp]]. by right.
Qed.
Lemma outbound_change s k l : (∀ c, heap s !! k = Some c → slen l ≤ buffer c) → client_change s k (set_outbound l).
Proof. intros Hl. constructor; try done; intros c; cbn; [by eauto|]. intros _ ->. by left. Qed.

Lemma begin_close_ok k s : chat_ok s → chat_ok (begin_close k s).
Proof.
  intros Hok. unfold begin_close. destruct (heap s !! k) as [c|]; [|done]. case_bool_decide; [|done].
  apply update_ok; [done|]. apply phase_change. by left.
Qed.
Lemma go_close_ok k s : chat_ok s → chat_ok (go_close k s).
Proof.
  intros []. constructor; try done. cbn. intros j c Hc Hr Hp. destruct (ok_open0 _ _ Hc Hr Hp) as [?|[?|?]]; set_solver.
Qed.
Lemma chat_deliver_ok k m s : chat_ok s → chat_ok (deliver k m s).
Proof.
  intros Hok. unfold deliver. destruct k as [k|]; [|done]. destruct (heap s !! k) as [c|] eqn:Hc; [|done].
  case_bool_decide; [done|]. destruct (_ <? _) eqn:Hb; [|by apply go_close_ok].
  apply update_ok; [done|]. apply outbound_change. intros c'. rewrite Hc. intros [= <-]. rewrite slen_app.
  apply Z.ltb_lt in Hb. unfold slen at 2. cbn. lia.
Qed.
Lemma route_ok r s : chat_ok s → chat_ok (route r s).
Proof.
  unfold route. revert s. induction (recipients r) as [|u l IH]; intros s Hok; cbn; [done|]. by apply IH, chat_deliver_ok.
Qed.
Lemma set_routes_ok l s : chat_ok s → slen l ≤ queue_size s → chat_ok (set_routes l s).
Proof. intros [] Hl. constructor; try done. cbn. naive_solver. Qed.
Lemma set_done_ok s : chat_ok s → chat_ok (set_done s).
Proof. intros []. constructor; try done; cbn; [by eauto|]. intros Hl. by destruct (ok_over0 Hl). Qed.

Lemma removeClient_ok k ks s : chat_ok s → unregister s = k :: ks → loop s = Looping → chat_ok (removeClient k (set_unregister ks s)).
Proof.
  intros Hok Hu Hl. pose proof (ok_unregister _ Hok k) as Hk. rewrite Hu in Hk. destruct (Hk ltac:(by left)) as (c&Hc&Hp).
  pose proof (ok_queues _ Hok) as Hq. rewrite Hu, slen_cons in Hq.
  unfold removeClient. cbn. rewrite Hc. case_bool_decide as Hlist.
  - constructor; cbn; try (destruct Hok; done).
    + rewrite map_size_delete_Some, (ok_online _ Hok) by done.
      assert (size (clients s) ≠ 0%nat); [|lia]. intros Hz%map_size_empty_inv. rewrite Hz, lookup_empty in Hlist. done.
    + intros u j [_ Hj]%lookup_delete_Some. by apply (ok_listed _ Hok).
    + naive_solver lia.
    + intros j Hj. apply (ok_unregister _ Hok). rewrite Hu. by right.
    + intros u j c' [Hne Hj]%lookup_delete_Some Hc' Hp'. destruct (ok_gone _ Hok _ _ _ Hj Hc' Hp') as [Hin|]; [|by right].
      rewrite Hu in Hin. apply elem_of_cons in Hin as [->|]; [|by left]. exfalso. apply Hne.
      destruct (ok_listed _ Hok _ _ Hj) as (c2&Hc2&<-&_). rewrite Hc in Hc2. by injection Hc2 as <-.
    + intros j c' Hc' Hr Hp'. destruct (ok_open _ Hok _ _ Hc' Hr Hp') as [Hj|]; [|by right]. left.
      apply lookup_delete_Some. split; [|done]. intros Heq. rewrite <-Heq, Hlist in Hj. injection Hj as ->. congruence.
  - constructor; cbn; try (destruct Hok; done).
    + naive_solver lia.
    + intros j Hj. apply (ok_unregister _ Hok). rewrite Hu. by right.
    + intros u j c' Hj Hc' Hp'. destruct (ok_gone _ Hok _ _ _ Hj Hc' Hp') as [Hin|]; [|by right].
      rewrite Hu in Hin. apply elem_of_cons in Hin as [->|]; [|by left].
      destruct (ok_listed _ Hok _ _ Hj) as (c2&Hc2&<-&_). rewrite Hc in Hc2. by injection Hc2 as <-.
Qed.
(** The new entry is there, and those it replaced are about to be closed. *)
Lemma listed_ok k c n l s : chat_ok s → heap s !! k = Some c → registered c = false → phase c = Open → userUUID c ≠ "" → loop s = Looping →
  n = (match clients s !! userUUID c with Some _ => online s | None => online s + 1 end) →
  (∀ p, p ∈ closers s ∨ clients s !! userUUID c = Some p → p ∈ l) →
  chat_ok (set_closers l (update k set_registered (set_clients (<[userUUID c := k]> (clients s)) n s))).
Proof.
  intros Hok Hc Hreg Hp Hn Hl -> Hclosers. set (s1 := update k set_registered _).
  assert (clients s1 = <[userUUID c := k]> (clients s)) as Hcl1 by done. constructor; try (destruct Hok; done).
  - cbn. rewrite map_size_insert, (ok_online _ Hok). destruct (clients s !! userUUID c); cbn; lia.
  - intros u j Hj. cbn in Hj. apply lookup_insert_Some in Hj as [[<- <-]|[Hne Hj]].
    + eexists. split; [by apply (update_new k set_registered s k c)|]. by rewrite bool_decide_true.
    + destruct (ok_listed _ Hok _ _ Hj) as (c'&Hc'&Hu&Hr). eexists. split; [by apply (update_new k set_registered s j c')|].
      by case_bool_decide.
  - intros j c' (c0&Hc0&[[_ ->]|[-> ->]])%(update_old k set_registered s); by apply (ok_client _ Hok _ _ Hc0).
  - intros j c' (c0&Hc0&[[_ ->]|[-> ->]])%(update_old k set_registered s) Hr; [by apply (ok_named _ Hok _ _ Hc0)|].
    rewrite Hc in Hc0. injection Hc0 as <-. done.
  - intros j Hj. destruct (ok_unregister _ Hok j Hj) as (c'&Hc'&Hp'). eexists.
    split; [by apply (update_new k set_registered s j c')|]. by case_bool_decide.
  - intros u j c' Hj (c0&Hc0&[[Hne ->]|[-> ->]])%(update_old k set_registered s) Hp'; [|rewrite Hc in Hc0; injection Hc0 as <-; cbn in Hp'; congruence].
    cbn in Hj. apply lookup_insert_Some in Hj as [[_ <-]|[_ Hj]]; [done|]. by eapply (ok_gone _ Hok).
  - intros j c' (c0&Hc0&[[Hne ->]|[-> ->]])%(update_old k set_registered s) Hr Hp'; cbn.
    + destruct (ok_open _ Hok _ _ Hc0 Hr Hp') as [Hj|[Hj|Hj]]; [|by auto..].
      destruct (decide (userUUID c0 = userUUID c)) as [He|He]; [rewrite He in Hj; by auto|]. left. by rewrite lookup_insert_ne.
    + rewrite Hc in Hc0. injection Hc0 as <-. left. apply lookup_insert_eq.
  - intros j Hj. unfold closing in Hj. cbn in Hj. rewrite Hl in Hj. by apply elem_of_nil in Hj.
Qed.
Lemma register_client_ok k c s : chat_ok s → heap s !! k = Some c → registered c = false → phase c = Open → userUUID c ≠ "" → loop s = Looping →
  chat_ok (register_client k s).
Proof.
  intros Hok Hc Hreg Hp Hn Hl. unfold register_client. rewrite Hc.
  destruct (clients s !! userUUID c) as [p|] eqn:Hpr.
  - rewrite bool_decide_false by (intros ->; destruct (ok_listed _ Hok _ _ Hpr) as (c'&Hc'&_&Hr); congruence).
    apply (listed_ok k c _ (closers s ++ [p])); try done; [by rewrite Hpr|]. rewrite Hpr. set_solver.
  - apply (listed_ok k c _ (closers s)); try done; [by rewrite Hpr|]. rewrite Hpr. naive_solver.
Qed.
Lemma map_list_elem (m : gmap string nat) u k : m !! u = Some k → k ∈ (map_to_list m).*2.
Proof. intros Hm. apply list_elem_of_fmap. exists (u, k). split; [done|]. by apply elem_of_map_to_list. Qed.
Lemma closeClients_ok s : chat_ok s → done s = true → loop s = Looping → chat_ok (closeClients s).
Proof.
  intros Hok Hd Hl. constructor; try (destruct Hok; done).
  2:{ intros k [[u k'] [-> Hk%elem_of_map_to_list]]%list_elem_of_fmap. destruct (ok_listed _ Hok _ _ Hk) as (c&Hc&_). by exists c. }
  intros k c Hc Hr Hp. cbn in Hc. destruct (ok_open _ Hok k c Hc Hr Hp) as [Hk|[Hk|Hk]].
  - right. right. by eapply map_list_elem.
  - right. by left.
  - unfold closing in Hk. rewrite Hl in Hk. by apply elem_of_nil in Hk.
Qed.

Lemma step_new_ok user outboundBuffer s s' : chat_ok s → chat_step (CNew user outboundBuffer) s = Some s' → chat_ok s'.
Proof.
  intros Hok. unfold chat_step.
  intros [= <-]. assert (∀ k c, (heap s ++ [NewClient user outboundBuffer]) !! k = Some c →
    heap s !! k = Some c ∨ c = NewClient user outboundBuffer) as Hin.
  { intros k c [?|[_ Hk]]%lookup_app_Some; [by left|right]. by apply list_lookup_singleton_Some in Hk as [_ <-]. }
  constructor; cbn; try (destruct Hok; done).
  - intros u k Hu. destruct (ok_listed _ Hok u k Hu) as (c&Hc&Hx). exists c. split; [apply (lookup_app_l_Some (heap s)); exact Hc|exact Hx].
  - intros k c [Hc| ->]%Hin; [by apply (ok_client _ Hok _ _ Hc)|]. cbn. unfold DefaultQueueSize.
    destruct (outboundBuffer <=? 0) eqn:Hb; [done|]. apply Z.leb_gt in Hb. unfold slen. cbn. lia.
  - intros k c [Hc| ->]%Hin Hr; [by apply (ok_named _ Hok _ _ Hc)|done].
  - intros k Hk. destruct (ok_unregister _ Hok k Hk) as (c&Hc&Hx). exists c. split; [apply (lookup_app_l_Some (heap s)); exact Hc|exact Hx].
  - intros u k c Hu [Hc| ->]%Hin Hp; [by eapply (ok_gone _ Hok)|done].
  - intros k c [Hc| ->]%Hin Hr Hp; [by apply (ok_open _ Hok)|done].
  - intros k [c Hc]%(ok_closing _ Hok). exists c. by apply (lookup_app_l_Some (heap s)).
Qed.
Lemma step_closer_ok i s s' : chat_ok s → chat_step (CCloser i) s = Some s' → chat_ok s'.
Proof.
  intros Hok. unfold chat_step.
  destruct (closers s !! i) as [k|] eqn:Hk; cbn; [|done]. intros [= <-].
  pose proof (take_drop_middle _ _ _ Hk) as Hcl. set (rest := (take i (closers s) ++ drop (S i) (closers s))%list).
  unfold begin_close. cbn. destruct (heap s !! k) as [c|] eqn:Hc.
  - assert (∀ s1, (s1 = update k (set_phase Closing) s ∨ s1 = s ∧ phase c ≠ Open) → chat_ok s1 → chat_ok (set_closers rest s1)) as Hrest.
    { intros s1 Hs1 Hok1. destruct Hok1. constructor; try done. cbn. intros j c' Hc' Hr Hp.
      destruct (ok_open0 _ _ Hc' Hr Hp) as [|[Hj|]]; [by left| |by do 2 right].
      assert (closers s1 = closers s) as Hcs by (destruct Hs1 as [->|[-> _]]; done). rewrite Hcs, <-Hcl in Hj.
      assert (j = k ∨ j ∈ rest) as [->|Hj'] by (subst rest; set_solver); [|set_solver]. exfalso.
      destruct Hs1 as [->|[-> Hne]]; [|congruence]. apply update_old in Hc' as (c0&_&[[? _]|[_ ->]]); done. }
    case_bool_decide as Hp.
    + apply (Hrest (update k (set_phase Closing) s)); [by left|]. apply update_ok; [done|]. apply phase_change. by left.
    + apply (Hrest s); [by right|done].
  - destruct Hok. constructor; try done. cbn. intros j c' Hc' Hr Hp.
    destruct (ok_open0 _ _ Hc' Hr Hp) as [|[Hj|]]; [by left| |by do 2 right]. right. left. rewrite <-Hcl in Hj.
    assert (j = k ∨ j ∈ rest) as [->|Hj'] by (subst rest; set_solver); [congruence|done].
Qed.
Lemma step_unregister_ok k s s' : chat_ok s → chat_step (CUnregister k) s = Some s' → chat_ok s'.
Proof.
  intros Hok. unfold chat_step.
  destruct (bool_decide (phase_of k s = Some Closing)) eqn:Hb; cbn; [|done]. apply bool_decide_eq_true in Hb.
  destruct (_ <? _) eqn:Hu; [|done]. apply Z.ltb_lt in Hu. intros [= <-]. unfold phase_of in Hb.
  apply fmap_Some in Hb as (c&Hc&Hp).
  assert (chat_ok (set_unregister (unregister s ++ [k]) s)) as Hok1.
  { constructor; cbn; try (destruct Hok; done).
    - pose proof (ok_queues _ Hok). rewrite slen_app. unfold slen at 3. cbn. naive_solver lia.
    - intros j [Hj|Hj]%elem_of_app; [by apply (ok_unregister _ Hok)|]. apply list_elem_of_singleton in Hj as ->.
      exists c. split; [done|]. by rewrite <-Hp.
    - intros u j c' Hj Hc' Hp'. destruct (ok_gone _ Hok _ _ _ Hj Hc' Hp'); [|by right]. left. set_solver. }
  apply update_ok; [done|]. apply phase_change. right. split; [done|]. left. cbn. set_solver.
Qed.
Lemma step_close_next_ok s s' : chat_ok s → chat_step CCloseNext s = Some s' → chat_ok s'.
Proof.
  intros Hok. unfold chat_step.
  destruct (loop s) as [|[|k ks]|] eqn:Hl; try done.
  - intros [= <-]. pose proof (ok_over _ Hok) as Hov. rewrite Hl in Hov.
    constructor; try (destruct Hok; done); [|intros _; by apply Hov|by intros k Hk%elem_of_nil].
    cbn. intros k c Hc Hr Hp. destruct (ok_open _ Hok k c Hc Hr Hp) as [|[|Hk]]; [by left|auto|].
    unfold closing in Hk. rewrite Hl in Hk. by apply elem_of_nil in Hk.
  - pose proof (ok_over _ Hok) as Hov. rewrite Hl in Hov. unfold phase_of.
    destruct (heap s !! k) as [c|] eqn:Hc; cbn; [|done]. destruct (phase c) eqn:Hp; [intros [= <-]; by apply begin_close_ok|done|].
    intros [= <-]. constructor; try (destruct Hok; done); [|intros _; by apply Hov|].
    2:{ intros j Hj. apply (ok_closing _ Hok). unfold closing. rewrite Hl. by right. }
    intros j c' Hc' Hr Hp'.
    destruct (ok_open _ Hok j c' Hc' Hr Hp') as [|[|Hk]]; [by left|auto|].
    unfold closing in Hk. rewrite Hl in Hk. apply elem_of_cons in Hk as [->|]; [cbn in Hc'; congruence|by do 2 right].
Qed.
Lemma chat_step_ok l s s' : chat_ok s → chat_step l s = Some s' → chat_ok s'.
Proof.
  intros Hok. destruct l.
  - by apply step_new_ok.
  - unfold chat_step. destruct (heap s !! k) as [c|] eqn:Hc; cbn; [|done]. destruct (loop s) eqn:Hl; try done.
    destruct (registered c) eqn:Hr; [done|]. cbn. case_bool_decide as Hp; [done|]. cbn. case_bool_decide as Hn; [done|]. intros [= <-].
    eapply register_client_ok; try done.
  - unfold chat_step. intros [= <-]. by apply begin_close_ok.
  - by apply step_closer_ok.
  - by apply step_unregister_ok.
  - unfold chat_step. destruct (bool_decide (phase_of k s = Some Closing)) eqn:Hb; cbn; [|done]. destruct (done s) eqn:Hd; [|done].
    intros [= <-]. apply update_ok; [done|]. apply phase_change. auto.
  - unfold chat_step. destruct (loop s) eqn:Hl; try done. destruct (unregister s) as [|k ks] eqn:Hu; [done|]. intros [= <-]. by apply removeClient_ok.
  - unfold chat_step. destruct (_ <? _) eqn:Hq; [|done]. intros [= <-]. apply Z.ltb_lt in Hq. apply set_routes_ok; [done|].
    rewrite slen_app. unfold slen at 2. cbn. lia.
  - unfold chat_step. destruct (loop s) eqn:Hl; try done. destruct (routeQueue s) as [|r rs] eqn:Hr; [done|]. intros [= <-].
    apply route_ok, set_routes_ok; [done|]. pose proof (ok_queues _ Hok) as Hq. rewrite Hr, slen_cons in Hq. lia.
  - unfold chat_step. destruct (heap s !! k) as [c|] eqn:Hc; cbn; [|done]. destruct (outbound c) as [|m ms] eqn:Ho; [done|].
    destruct (registered c); [|done]. intros [= <-]. apply update_ok; [done|]. apply outbound_change. intros c'. rewrite Hc.
    intros [= <-]. pose proof (ok_client _ Hok _ _ Hc) as [_ Hb]. rewrite Ho, slen_cons in Hb. lia.
  - unfold chat_step. intros [= <-]. by apply set_done_ok.
  - unfold chat_step. destruct (loop s) eqn:Hl; try done. destruct (done s) eqn:Hd; [|done]. intros [= <-]. by apply closeClients_ok.
  - by apply step_close_next_ok.
Qed.
Lemma new_ok q : chat_ok (NewServer q).
Proof.
  constructor; cbn; try done.
  - unfold DefaultQueueSize, slen. cbn. destruct (q <=? 0) eqn:Hq; [lia|]. apply Z.leb_gt in Hq. lia.
  - intros k []%elem_of_nil.
  - intros k []%elem_of_nil.
Qed.
Lemma chat_reachable_ok q s : chat_reachable q s → chat_ok s.
Proof. induction 1 as [|l s s' _ IH Hs]; [apply new_ok|by eapply chat_step_ok]. Qed.

(** ** Runs *)

Fixpoint chat_run (ls : list chat_label) (s : server) : option server :=
  match ls with [] => Some s | l :: ls => s ← chat_step l s; chat_run ls s end.
Lemma chat_run_app ls ls' s s' : chat_run ls s = Some s' → chat_run (ls ++ ls') s = chat_run ls' s'.
Proof.
  revert s. induction ls as [|l ls IH]; intros s; cbn; [by intros [= ->]|]. destruct (chat_step l s); cbn; [apply IH|done].
Qed.
Lemma chat_run_reachable q ls s s' : chat_reachable q s → chat_run ls s = Some s' → chat_reachable q s'.
Proof.
  revert s. induction ls as [|l ls IH]; intros s Hs; cbn; [by intros [= <-]|].
  destruct (chat_step l s) as [s1|] eqn:Hl; cbn; [|done]. apply IH. by econstructor.
Qed.
Lemma phase_update k f s : phase_of k (update k f s) = (λ c, phase (f c)) <$> heap s !! k.
Proof.
  unfold phase_of. rewrite heap_update, bool_decide_true by done. by destruct (heap s !! k).
Qed.
Lemma phase_update_ne k k' f s : k ≠ k' → phase_of k (update k' f s) = phase_of k s.
Proof. intros Hne. unfold phase_of. by rewrite heap_update, bool_decide_false. Qed.

(** What is closed stays closed; [ks] are closed one after the other. *)
Lemma close_one k ks s : done s = true → loop s = ClosingClients (k :: ks) → is_Some (heap s !! k) →
  ∃ ls s', chat_run ls s = Some s' ∧ done s' = true ∧ loop s' = ClosingClients ks ∧ phase_of k s' = Some Closed
    ∧ (∀ j, is_Some (heap s' !! j) ↔ is_Some (heap s !! j))
    ∧ ∀ j, phase_of j s = Some Closed → phase_of j s' = Some Closed.
Proof.
  intros Hd Hl [c Hc]. destruct (phase c) eqn:Hp.
  - exists [CCloseNext; CForget k; CCloseNext]. set (s1 := update k (set_phase Closing) s).
    set (s2 := update k (set_phase Closed) s1). exists (set_loop (ClosingClients ks) s2).
    assert (phase_of k s = Some Open) as Hps by (unfold phase_of; rewrite Hc; cbn; by rewrite Hp).
    assert (phase_of k s1 = Some Closing) as Hps1 by (subst s1; rewrite phase_update, Hc; done).
    assert (phase_of k s2 = Some Closed) as Hps2.
    { subst s2. rewrite phase_update. subst s1. rewrite heap_update, bool_decide_true, Hc by done. done. }
    assert (chat_step CCloseNext s = Some s1) as H1.
    { cbn. rewrite Hl, Hps. unfold begin_close. by rewrite Hc, bool_decide_true. }
    assert (chat_step (CForget k) s1 = Some s2) as H2.
    { cbn. rewrite Hps1, bool_decide_true by done. cbn. by rewrite Hd. }
    assert (chat_step CCloseNext s2 = Some (set_loop (ClosingClients ks) s2)) as H3 by (cbn; by rewrite Hl, Hps2).
    cbn [chat_run]. rewrite H1. cbn [mbind option_bind]. rewrite H2. cbn [mbind option_bind]. rewrite H3.
    split_and!; try done.
    + intros j. change (heap (set_loop _ s2)) with (heap s2). subst s2 s1. rewrite !heap_update.
      case_bool_decide; [subst|done]. by rewrite !fmap_is_Some.
    + intros j Hj. change (phase_of j s2 = Some Closed). destruct (decide (j = k)) as [->|Hne]; [done|].
      subst s2 s1. by rewrite !phase_update_ne.
  - exists [CForget k; CCloseNext]. set (s2 := update k (set_phase Closed) s). exists (set_loop (ClosingClients ks) s2).
    assert (phase_of k s = Some Closing) as Hps by (unfold phase_of; rewrite Hc; cbn; by rewrite Hp).
    assert (phase_of k s2 = Some Closed) as Hps2 by (subst s2; rewrite phase_update, Hc; done).
    assert (chat_step (CForget k) s = Some s2) as H2.
    { cbn. rewrite Hps, bool_decide_true by done. cbn. by rewrite Hd. }
    assert (chat_step CCloseNext s2 = Some (set_loop (ClosingClients ks) s2)) as H3 by (cbn; by rewrite Hl, Hps2).
    cbn [chat_run]. rewrite H2. cbn [mbind option_bind]. rewrite H3. split_and!; try done.
    + intros j. change (heap (set_loop _ s2)) with (heap s2). subst s2. rewrite !heap_update.
      case_bool_decide; [subst|done]. by rewrite !fmap_is_Some.
    + intros j Hj. change (phase_of j s2 = Some Closed). destruct (decide (j = k)) as [->|Hne]; [done|].
      subst s2. by rewrite !phase_update_ne.
  - exists [CCloseNext], (set_loop (ClosingClients ks) s).
    assert (phase_of k s = Some Closed) as Hps by (unfold phase_of; rewrite Hc; cbn; by rewrite Hp).
    split_and!; try done. cbn. by rewrite Hl, Hps.
Qed.
Lemma close_list ks s : done s = true → loop s = ClosingClients ks → Forall (λ k, is_Some (heap s !! k)) ks →
  ∃ ls s', chat_run ls s = Some s' ∧ loop s' = Stopped ∧ Forall (λ k, phase_of k s' = Some Closed) ks
    ∧ ∀ j, phase_of j s = Some Closed → phase_of j s' = Some Closed.
Proof.
  revert s. induction ks as [|k ks IH]; intros s Hd Hl Hks.
  - exists [CCloseNext], (set_loop Stopped s). split_and!; try done. cbn. by rewrite Hl.
  - apply Forall_cons in Hks as [Hk Hks]. destruct (close_one k ks s Hd Hl Hk) as (ls1&s1&Hr1&Hd1&Hl1&Hk1&Hheap&Hkeep).
    destruct (IH s1 Hd1 Hl1) as (ls2&s2&Hr2&Hl2&Hks2&Hkeep2).
    { eapply Forall_impl; [exact Hks|]. intros j. by rewrite Hheap. }
    exists (ls1 ++ ls2)%list, s2. rewrite (chat_run_app _ _ _ _ Hr1). split_and!; try done; [|by eauto].
    constructor; [by apply Hkeep2|done].
Qed.

Lemma closing_finishes s k : chat_ok s → phase_of k s = Some Closing →
  ∃ ls s', (length ls ≤ 2)%nat ∧ chat_run ls s = Some s' ∧ phase_of k s' = Some Closed.
Proof.
  intros Hok Hk. pose proof (ok_queues _ Hok) as (Hq0&_&Hq2). pose proof Hk as Hk'. unfold phase_of in Hk'. apply fmap_Some in Hk' as (c&Hc&Hp).
  assert (∀ s0, phase_of k s0 = Some Closing → slen (unregister s0) < queue_size s0 →
    ∃ s', chat_step (CUnregister k) s0 = Some s' ∧ phase_of k s' = Some Closed) as Hroom.
  { intros s0 Hk0 Hr. eexists. cbn. rewrite Hk0, bool_decide_true by done. cbn.
    assert ((slen (unregister s0) <? queue_size s0) = true) as -> by (apply Z.ltb_lt; done). split; [done|].
    rewrite phase_update. cbn. unfold phase_of in Hk0. by apply fmap_Some in Hk0 as (c0&->&_). }
  destruct (decide (slen (unregister s) < queue_size s)) as [Hr|Hr].
  { destruct (Hroom s Hk Hr) as (s'&Hs'&Hp'). exists [CUnregister k], s'. split_and!; [by auto| |done]. cbn [chat_run]. by rewrite Hs'. }
  destruct (loop s) eqn:Hl.
  - destruct (unregister s) as [|j js] eqn:Hu; [rewrite slen_nil in Hr; lia|].
    assert (chat_step CTakeUnregister s = Some (removeClient j (set_unregister js s))) as Ht by (cbn; by rewrite Hl, Hu).
    set (s1 := removeClient j _) in Ht.
    assert (heap s1 = heap s ∧ unregister s1 = js ∧ queue_size s1 = queue_size s) as (Hh&Hu1&Hq).
    { subst s1. unfold removeClient. cbn. destruct (heap s !! j); [|done]. by case_bool_decide. }
    destruct (Hroom s1) as (s'&Hs'&Hp').
    { unfold phase_of. rewrite Hh, Hc. cbn. by f_equal. } { rewrite Hu1, Hq. rewrite slen_cons in Hq2. lia. }
    exists [CTakeUnregister; CUnregister k], s'. split_and!; [by auto| |done].
    cbn [chat_run]. rewrite Ht. cbn [mbind option_bind]. by rewrite Hs'.
  - destruct (ok_over _ Hok) as [_ Hd]; [by rewrite Hl|]. exists [CForget k], (update k (set_phase Closed) s).
    split_and!; [by auto| |by rewrite phase_update, Hc]. cbn. by rewrite Hk, bool_decide_true, Hd by done.
  - destruct (ok_over _ Hok) as [_ Hd]; [by rewrite Hl|]. exists [CForget k], (update k (set_phase Closed) s).
    split_and!; [by auto| |by rewrite phase_update, Hc]. cbn. by rewrite Hk, bool_decide_true, Hd by done.
Qed.
Lemma route_queues r s : routeQueue (route r s) = routeQueue s ∧ queue_size (route r s) = queue_size s.
Proof.
  unfold route. revert s. induction (recipients r) as [|u l IH]; intros s; cbn; [done|]. rewrite !(proj1 (IH _)), !(proj2 (IH _)).
  unfold deliver. destruct (clients s !! u); [|done]. destruct (heap s !! _); [|done]. case_bool_decide; [done|]. by destruct (_ <? _).
Qed.
Lemma route_room s r : chat_ok s → loop s = Looping →
  ∃ ls s', (length ls ≤ 2)%nat ∧ chat_run ls s = Some s' ∧ r ∈ routeQueue s'.
Proof.
  intros Hok Hl. pose proof (ok_queues _ Hok) as (Hq0&Hq1&_). destruct (slen (routeQueue s) <? queue_size s) eqn:Hr.
  { exists [CRoute r], (set_routes (routeQueue s ++ [r]) s). split_and!; [by auto| |cbn; set_solver]. cbn. by rewrite Hr. }
  apply Z.ltb_ge in Hr. destruct (routeQueue s) as [|r0 rs] eqn:Hrs; [rewrite slen_nil in Hr; lia|].
  set (s1 := route r0 (set_routes rs s)).
  destruct (route_queues r0 (set_routes rs s)) as [Hq Hqs]. fold s1 in Hq, Hqs. cbn in Hq, Hqs.
  exists [CTakeRoute; CRoute r], (set_routes (rs ++ [r]) s1). split_and!; [by auto| |cbn; set_solver].
  cbn [chat_run]. assert (chat_step CTakeRoute s = Some s1) as -> by (cbn; by rewrite Hl, Hrs). cbn.
  rewrite slen_cons in Hq1. rewrite Hq, Hqs. by assert ((slen rs <? queue_size s) = true) as -> by (apply Z.ltb_lt; lia).
Qed.

(** ** The end of the loop *)

Definition close_steps (ls : list chat_label) : nat :=
  length (List.filter (λ l, match l with CCloseNext => true | _ => false end) ls).
(** The turns of [closeClients] that are left: one to close a client that is open, one to go on. *)
Definition close_left (s : server) : nat :=
  match loop s with
  | ClosingClients ks => S (sum_list_with (λ k, if bool_decide (phase_of k s = Some Open) then 2 else 1)%nat ks)
  | _ => 0
  end.
Lemma close_left_bound s ks : loop s = ClosingClients ks → (close_left s ≤ 2 * length ks + 1)%nat.
Proof.
  unfold close_left. intros ->. induction ks as [|k ks IH]; cbn [sum_list_with length]; [lia|]. case_bool_decide; lia.
Qed.
(** A client that was closed does not open again. *)
Definition stays_closed (s s' : server) : Prop :=
  ∀ k, is_Some (heap s !! k) → phase_of k s' = Some Open → phase_of k s = Some Open.
Lemma update_stays k f s : (∀ c, phase (f c) = Open → phase c = Open) → stays_closed s (update k f s).
Proof.
  intros Hf j [c Hc]. unfold phase_of. rewrite heap_update. case_bool_decide; [|done]. rewrite Hc. cbn. intros [= Hp]. f_equal. by apply Hf.
Qed.
Lemma begin_close_stays k s : stays_closed s (begin_close k s).
Proof. unfold begin_close. destruct (heap s !! k); [|by intros ?]. case_bool_decide; [|by intros ?]. by apply update_stays. Qed.
Lemma begin_close_loop k s : loop (begin_close k s) = loop s.
Proof. unfold begin_close. destruct (heap s !! k); [|done]. by case_bool_decide. Qed.
Lemma close_left_mono s s' : chat_ok s → loop s' = loop s → stays_closed s s' → (close_left s' ≤ close_left s)%nat.
Proof.
  intros Hok Hl Hs. pose proof (ok_closing _ Hok) as Hc. unfold close_left, closing in *. rewrite Hl. destruct (loop s) as [|ks|]; [done| |done].
  clear Hl. apply le_n_S. induction ks as [|k ks IH]; cbn [sum_list_with length]; [done|].
  assert (∀ j, j ∈ ks → is_Some (heap s !! j)) as Hks by (intros j Hj; apply Hc; by right). specialize (IH Hks).
  destruct (bool_decide (phase_of k s' = Some Open)) eqn:Hb; [|destruct (bool_decide (phase_of k s = Some Open)); lia].
  rewrite (bool_decide_true (phase_of k s = Some Open)); [lia|]. apply Hs; [apply Hc; by left|by apply bool_decide_eq_true in Hb].
Qed.
Lemma close_next_left s s' : chat_step CCloseNext s = Some s' → loop s' ≠ Looping ∧ (close_left s' + 1 ≤ close_left s)%nat.
Proof.
  unfold chat_step, close_left. destruct (loop s) as [|[|k ks]|] eqn:Hl; try done; [intros [= <-]; cbn; split; [done|lia]|].
  destruct (phase_of k s) as [[]|] eqn:Hp; try done; intros [= <-].
  - rewrite begin_close_loop, Hl. split; [done|]. cbn [sum_list_with length]. rewrite (bool_decide_true (phase_of k s = Some Open)) by done.
    assert (phase_of k (begin_close k s) = Some Closing) as Hk.
    { unfold phase_of in Hp. apply fmap_Some in Hp as (c&Hc&Ho). unfold begin_close. rewrite Hc, bool_decide_true by done.
      by rewrite phase_update, Hc. }
    rewrite (bool_decide_false (phase_of k (begin_close k s) = Some Open)) by (by rewrite Hk).
    assert (∀ l, (sum_list_with (λ j, if bool_decide (phase_of j (begin_close k s) = Some Open) then 2 else 1) l
      ≤ sum_list_with (λ j, if bool_decide (phase_of j s = Some Open) then 2 else 1) l)%nat) as Hle; [|specialize (Hle ks); lia].
    induction l as [|j l IH]; cbn [sum_list_with length]; [done|].
    assert (phase_of j (begin_close k s) = Some Open → phase_of j s = Some Open) as Hj.
    { destruct (heap s !! j) as [c|] eqn:Hc; [apply begin_close_stays; by eexists|].
      unfold begin_close. destruct (heap s !! k) as [c|]; [|done]. case_bool_decide; [|done].
      unfold phase_of. rewrite heap_update, Hc. by case_bool_decide. }
    destruct (decide (phase_of j (begin_close k s) = Some Open)) as [Ho|Hn]; [rewrite !bool_decide_true by auto; lia|].
    rewrite bool_decide_false by done. case_bool_decide; lia.
  - cbn [set_loop loop]. split; [done|]. cbn [sum_list_with length]. rewrite (bool_decide_false (phase_of k s = Some Open)) by congruence.
    change (phase_of ?j (set_loop _ s)) with (phase_of j s). cbn. lia.
Qed.
Lemma close_step_left l s s' : chat_ok s → loop s ≠ Looping → chat_step l s = Some s' →
  loop s' ≠ Looping ∧ (close_left s' + close_steps [l] ≤ close_left s)%nat.
Proof.
  intros Hok Hl Hs.
  assert (loop s' = loop s → stays_closed s s' → close_steps [l] = 0%nat →
    loop s' ≠ Looping ∧ (close_left s' + close_steps [l] ≤ close_left s)%nat) as Hsame.
  { intros He Hst ->. rewrite He, Nat.add_0_r. split; [done|]. by apply close_left_mono. }
  destruct l; unfold chat_step in Hs.
  - injection Hs as <-. apply Hsame; [done| |done]. intros k [c Hc]. unfold phase_of. cbn. by rewrite (lookup_app_l_Some _ _ _ _ Hc), Hc.
  - destruct (heap s !! k); cbn in Hs; [|done]. by destruct (loop s).
  - injection Hs as <-. apply Hsame; [apply begin_close_loop|apply begin_close_stays|done].
  - destruct (closers s !! i) as [k|]; cbn in Hs; [|done]. injection Hs as <-. apply Hsame; [by rewrite begin_close_loop| |done].
    intros j Hj. apply (begin_close_stays k (set_closers _ s)). exact Hj.
  - destruct (_ && _); [|done]. injection Hs as <-. apply Hsame; [done| |done]. by apply (update_stays k (set_phase Closed) (set_unregister (unregister s ++ [k]) s)).
  - destruct (_ && _); [|done]. injection Hs as <-. apply Hsame; [done| |done]. by apply update_stays.
  - by destruct (loop s).
  - destruct (_ <? _); [|done]. injection Hs as <-. apply Hsame; [done|by intros ?|done].
  - by destruct (loop s).
  - destruct (heap s !! k) as [c|]; cbn in Hs; [|done]. destruct (outbound c); [done|]. destruct (registered c); [|done].
    injection Hs as <-. apply Hsame; [done| |done]. by apply update_stays.
  - injection Hs as <-. apply Hsame; [done|by intros ?|done].
  - by destruct (loop s).
  - by apply close_next_left.
Qed.
Lemma close_run_left ls s s' : chat_ok s → loop s ≠ Looping → chat_run ls s = Some s' →
  (close_left s' + close_steps ls ≤ close_left s)%nat.
Proof.
  revert s. induction ls as [|l ls IH]; intros s Hok Hl Hr; cbn [chat_run] in Hr; [injection Hr as <-; cbn; lia|].
  destruct (chat_step l s) as [s1|] eqn:Hs; [|done]. destruct (close_step_left l s s1 Hok Hl Hs) as [Hl1 H1].
  specialize (IH s1 (chat_step_ok _ _ _ Hok Hs) Hl1 Hr). unfold close_steps in *. cbn in *. destruct l; cbn in *; lia.
Qed.
Lemma closing_moves s ks : chat_ok s → loop s = ClosingClients ks →
  ∃ l, (l = CCloseNext ∨ ∃ k, head ks = Some k ∧ l = CForget k) ∧ is_Some (chat_step l s).
Proof.
  intros Hok Hl. destruct (ok_over _ Hok) as [_ Hd]; [by rewrite Hl|]. pose proof (ok_closing _ Hok) as Hc. unfold closing in Hc. rewrite Hl in Hc.
  destruct ks as [|k ks]; [exists CCloseNext; split; [by left|]; cbn; rewrite Hl; by eexists|].
  destruct (Hc k ltac:(by left)) as [c Hk]. destruct (phase c) eqn:Hp;
    [exists CCloseNext; split; [by left|]|exists (CForget k); split; [right; by exists k|]|exists CCloseNext; split; [by left|]];
    cbn; rewrite ?Hl; unfold phase_of; rewrite Hk; cbn; rewrite Hp, ?Hd; by eexists.
Qed.
Lemma server_stops s : chat_ok s → ∃ ls s', chat_run ls s = Some s' ∧ loop s' = Stopped
  ∧ ∀ k, (∃ u, clients s !! u = Some k) ∨ k ∈ closing s → phase_of k s' = Some Closed.
Proof.
  intros Hok. unfold closing. destruct (loop s) as [|ks|] eqn:Hl.
  - set (s1 := set_done s). set (s2 := closeClients s1).
    destruct (close_list (map_to_list (clients s)).*2 s2) as (ls&s3&Hrun&Hl3&Hall&_); [done|done| |].
    { apply Forall_forall. intros k [[u k'] [-> Hk]]%list_elem_of_fmap. apply elem_of_map_to_list in Hk.
      destruct (ok_listed _ Hok _ _ Hk) as (c&Hc&_). by exists c. }
    exists (CStop :: CDone :: ls), s3. split_and!; [|done|].
    + cbn [chat_run]. assert (chat_step CStop s = Some s1) as -> by done. cbn [mbind option_bind].
      assert (chat_step CDone s1 = Some s2) as -> by (cbn; by rewrite Hl). done.
    + intros k [[u Hk]|Hk]; [|by apply elem_of_nil in Hk]. rewrite Forall_forall in Hall. apply Hall. by eapply map_list_elem.
  - destruct (ok_over _ Hok) as [Hm Hd]; [by rewrite Hl|]. destruct (close_list ks s Hd Hl) as (ls&s'&Hrun&Hl'&Hall&_).
    { apply Forall_forall. intros k Hk. apply (ok_closing _ Hok). unfold closing. by rewrite Hl. }
    exists ls, s'. split_and!; [done|done|]. intros k [[u Hk]|Hk]; [by rewrite Hm, lookup_empty in Hk|]. rewrite Forall_forall in Hall. by apply Hall.
  - destruct (ok_over _ Hok) as [Hm _]; [by rewrite Hl|]. exists [], s. split_and!; [done|done|].
    intros k [[u Hk]|Hk]; [by rewrite Hm, lookup_empty in Hk|by apply elem_of_nil in Hk].
Qed.

(** ** What the server guarantees *)

(** C27: in every state the chat server can reach, the online count is the number of listed
    users, the entry of a user is a registered client of that user, all queues are within
    their bounds, and a registered client that is still open is the listed one of its user or
    is about to be closed.  When the server has stopped nobody is listed, and every registered
    client that is still open has a goroutine that closes it on its way. *)
Theorem chat_presence q s : chat_reachable q s →
  online s = Z.of_nat (size (clients s))
  ∧ (∀ u k, clients s !! u = Some k → ∃ c, heap s !! k = Some c ∧ userUUID c = u ∧ registered c = true)
  ∧ (slen (routeQueue s) ≤ queue_size s ∧ slen (unregister s) ≤ queue_size s
     ∧ ∀ k c, heap s !! k = Some c → slen (outbound c) ≤ buffer c)
  ∧ (∀ k c, heap s !! k = Some c → registered c = true → phase c = Open →
      clients s !! userUUID c = Some k ∨ k ∈ closers s ∨ ∃ ks, loop s = ClosingClients ks ∧ k ∈ ks)
  ∧ (loop s = Stopped → clients s = ∅
     ∧ ∀ k c, heap s !! k = Some c → registered c = true → phase c = Open → k ∈ closers s).
Proof.
  intros Hok%chat_reachable_ok. pose proof (ok_queues _ Hok) as (_&Hq1&Hq2). split_and!; try done.
  - apply (ok_online _ Hok).
  - apply (ok_listed _ Hok).
  - intros k c Hc. by apply (ok_client _ Hok _ _ Hc).
  - intros k c Hc Hr Hp. destruct (ok_open _ Hok _ _ Hc Hr Hp) as [|[|Hk]]; [auto..|]. right. right.
    unfold closing in Hk. destruct (loop s); [by apply elem_of_nil in Hk|eauto|by apply elem_of_nil in Hk].
  - intros Hl. destruct (ok_over _ Hok) as [Hm _]; [by rewrite Hl|]. split; [done|]. intros k c Hc Hr Hp.
    destruct (ok_open _ Hok _ _ Hc Hr Hp) as [Hk|[Hk|Hk]]; [by rewrite Hm, lookup_empty in Hk|done|].
    unfold closing in Hk. rewrite Hl in Hk. by apply elem_of_nil in Hk.
Qed.

(** C28: nothing in the chat server is stuck, in any state it can reach.  A client that is
    closing can finish within two steps.  A message finds room in the queue within one step of
    the loop, or the server is done and refuses it.  Once the loop closes its clients, it or the
    client it waits for can always make a step, and it makes at most two for each client
    and one more, whatever the others do in between.  And from every state the server can stop,
    and then every client that was listed or being closed is closed. *)
Theorem chat_never_stuck q s : chat_reachable q s →
  (∀ k, phase_of k s = Some Closing →
     ∃ ls s', (length ls ≤ 2)%nat ∧ chat_run ls s = Some s' ∧ phase_of k s' = Some Closed)
  ∧ (∀ r, (∃ ls s', (length ls ≤ 2)%nat ∧ chat_run ls s = Some s' ∧ r ∈ routeQueue s') ∨ done s = true)
  ∧ (∀ ks, loop s = ClosingClients ks →
       (∃ l, (l = CCloseNext ∨ ∃ k, head ks = Some k ∧ l = CForget k) ∧ is_Some (chat_step l s))
       ∧ ∀ ls s', chat_run ls s = Some s' → (close_steps ls ≤ 2 * length ks + 1)%nat)
  ∧ ∃ ls s', chat_run ls s = Some s' ∧ loop s' = Stopped
       ∧ ∀ k, (∃ u, clients s !! u = Some k) ∨ k ∈ closing s → phase_of k s' = Some Closed.
Proof.
  intros Hok%chat_reachable_ok. split; [|split; [|split]].
  - intros k. by apply closing_finishes.
  - intros r. destruct (loop s) eqn:Hl; [left; by apply route_room|right..]; by destruct (ok_over _ Hok) as [_ ?]; [rewrite Hl|].
  - intros ks Hl. split; [by apply closing_moves|]. intros ls s' Hr.
    pose proof (close_run_left ls s s' Hok ltac:(by rewrite Hl) Hr) as Hle. pose proof (close_left_bound s ks Hl). lia.
  - by apply server_stops.
Qed.

(** ** A concrete run *)

(** Two connections of one user, then another user, in a server with room for one request. *)
Definition sample_run : list chat_label :=
  [CNew "U1" 1; CRegister 0; CNew "U1" 1; CRegister 1; CCloser 0; CNew "U2" 1; CRegister 2].
Definition sample_server : server := default (NewServer 1) (chat_run sample_run (NewServer 1)).
Lemma sample_server_reachable : chat_reachable 1 sample_server.
Proof. apply (chat_run_reachable 1 sample_run (NewServer 1)); [constructor|by vm_compute]. Qed.
Lemma chat_presence_witness : online sample_server = 2 ∧ clients sample_server !! "U1" = Some 1%nat
  ∧ online sample_server = Z.of_nat (size (clients sample_server)).
Proof.
  split; [by vm_compute|]. split; [by vm_compute|]. exact (proj1 (chat_presence 1 sample_server sample_server_reachable)).
Defined.
Lemma chat_never_stuck_witness : phase_of 0 sample_server = Some Closing
  ∧ (∃ ls s', (length ls ≤ 2)%nat ∧ chat_run ls sample_server = Some s' ∧ phase_of 0 s' = Some Closed)
  ∧ ∃ ls s', chat_run ls sample_server = Some s' ∧ loop s' = Stopped ∧ phase_of 1 s' = Some Closed ∧ phase_of 2 s' = Some Closed.
Proof.
  assert (phase_of 0 sample_server = Some Closing) as Hp by by vm_compute.
  destruct (chat_never_stuck 1 sample_server sample_server_reachable) as (H1&_&_&ls&s'&Hr&Hl&Hc). split; [done|]. split; [by apply H1|].
  exists ls, s'. split_and!; [done|done|apply Hc; left; exists "U1"; by vm_compute|apply Hc; left; exists "U2"; by vm_compute].
Defined.
