(* ===== verification/ChatMessages.v ===== *)
(** * Chat messages: whom they reach, and what Kafka changes

    The routing of a request, the request a message makes, and the way of events through
    Kafka: the consumer does what the readers would, up to the first event that fails. *)
From S2P Require Import Prelude GoStd GoTime External Samples Json JsonPrint JsonRound TextRound TimeRound TaskRound Dto CometFrames MessageStore.
From S2P Require Import Tables GormService TablesProofs Directory GroupProofs GroupService GroupExact GroupGuarantees ChatServer ChatServerProofs.
Local Open Scope Z_scope.

(** ** Routing *)

(** Who gets a message for [users]: the listed client of each, while it is open. *)
Definition reached (s : server) (users : list string) (k : nat) (c : client) : Prop :=
  userUUID c ∈ users ∧ clients s !! userUUID c = Some k ∧ phase c = Open.
Global Instance reached_dec s users k c : Decision (reached s users k c).
Proof. unfold reached. apply _. Defined.
Definition has_room (c : client) : bool := slen (outbound c) <? buffer c.
Definition handed (m : wschat.Message) (c : client) : client := set_outbound (outbound c ++ [m]) c.

Lemma distinct_spec seen ids : NoDup (distinct seen ids) ∧ ∀ u, u ∈ distinct seen ids ↔ u ∈ ids ∧ u ≠ "" ∧ u ∉ seen.
Proof.
  revert seen. induction ids as [|id ids IH]; intros seen; cbn.
  - split; [constructor|]. intros u. split; [by intros ?%elem_of_nil|by intros [?%elem_of_nil _]].
  - destruct (bool_decide (id ≠ "") && negb (bool_decide (id ∈ seen))) eqn:Hb.
    + apply andb_true_iff in Hb as [Hne Hin%negb_true_iff]. apply bool_decide_eq_true in Hne. apply bool_decide_eq_false in Hin.
      destruct (IH (id :: seen)) as [Hnd Hu]. split.
      * constructor; [|done]. rewrite Hu. set_solver.
      * intros u. rewrite !elem_of_cons, Hu, not_elem_of_cons. destruct (decide (u = id)) as [->|]; [naive_solver|]. tauto.
    + destruct (IH seen) as [Hnd Hu]. split; [done|]. intros u. rewrite Hu, elem_of_cons.
      apply andb_false_iff in Hb as [Hb|Hb].
      * apply bool_decide_eq_false in Hb. split; [tauto|]. intros [[->|] [? ?]]; [by contradict Hb|done].
      * apply negb_false_iff, bool_decide_eq_true in Hb. split; [tauto|]. intros [[->|] [? ?]]; [done|done].
Qed.
Lemma distinct_same ids : NoDup ids → "" ∉ ids → distinct [] ids = ids.
Proof.
  intros Hnd Hne. assert (∀ seen, (∀ u, u ∈ ids → u ∉ seen) → distinct seen ids = ids) as Hs; [|apply Hs; set_solver].
  induction Hnd as [|id ids Hid Hnd IH]; intros seen Hseen; cbn; [done|].
  rewrite bool_decide_true by set_solver. rewrite bool_decide_false by set_solver. cbn. f_equal. apply IH; set_solver.
Qed.

Lemma deliver_exact u m s :
  chat_ok s →
  let s' := deliver (clients s !! u) m s in
  clients s' = clients s ∧ online s' = online s
  ∧ (∀ k c, heap s !! k = Some c →
       heap s' !! k = Some (if decide (reached s [u] k c) then if has_room c then handed m c else c else c)
       ∧ (k ∈ closers s' ↔ k ∈ closers s ∨ reached s [u] k c ∧ has_room c = false)).
Proof.
  intros Hok s'.
  assert (∀ k c, reached s [u] k c → userUUID c = u) as Hu by (intros k c (?%list_elem_of_singleton&_); done).
  subst s'. unfold deliver. destruct (clients s !! u) as [j|] eqn:Hj.
  2: { split_and!; [done..|]. intros k c Hc. assert (¬ reached s [u] k c) as Hn.
       { intros Hr. pose proof (Hu _ _ Hr) as He. destruct Hr as (_&Hr&_). congruence. }
       rewrite decide_False by done. tauto. }
  destruct (ok_listed _ Hok _ _ Hj) as (cj&Hcj&Huj&_). rewrite Hcj.
  assert (∀ k c, heap s !! k = Some c → reached s [u] k c ↔ k = j ∧ phase cj = Open) as Hreach.
  { intros k c Hc. split.
    - intros Hr. pose proof (Hu _ _ Hr) as He. destruct Hr as (_&Hr&Hp). rewrite He, Hj in Hr. injection Hr as <-.
      rewrite Hc in Hcj. by injection Hcj as <-.
    - intros [-> Hp]. rewrite Hc in Hcj. injection Hcj as ->. split_and!; [by apply list_elem_of_singleton|by rewrite Huj|done]. }
  case_bool_decide as Hp.
  { split_and!; [done..|]. intros k c Hc. rewrite decide_False by (rewrite (Hreach k c Hc); tauto). rewrite (Hreach k c Hc). tauto. }
  assert (phase cj = Open) as Hp' by by destruct (decide (phase cj = Open)). fold (has_room cj). destruct (has_room cj) eqn:Hb.
  - split_and!; [done..|]. intros k c Hc. rewrite heap_update, Hc. split.
    + case_bool_decide as Hk; [subst k|].
      * rewrite decide_True by (by apply Hreach). rewrite Hc in Hcj. injection Hcj as ->. by rewrite Hb.
      * rewrite decide_False; [done|]. rewrite (Hreach k c Hc). tauto.
    + cbn. split; [by left|]. intros [?|[[-> _]%(Hreach _ _ Hc) Hf]]; [done|]. rewrite Hc in Hcj. injection Hcj as ->. congruence.
  - split_and!; [done..|]. intros k c Hc. split.
    + cbn. rewrite Hc. destruct (decide _) as [[-> _]%(Hreach _ _ Hc)|]; [|done]. rewrite Hc in Hcj. injection Hcj as ->. by rewrite Hb.
    + cbn. rewrite elem_of_app, list_elem_of_singleton, (Hreach k c Hc). split; [|intros [?|[[-> _] _]]; tauto].
      intros [? | ->]; [by left|right]. rewrite Hc in Hcj. by injection Hcj as ->.
Qed.

(** One recipient after the other, each listed client once. *)
Lemma recipients_exact us m s : chat_ok s → NoDup us →
  let s' := foldl (λ s u, deliver (clients s !! u) m s) s us in
  clients s' = clients s ∧ online s' = online s
  ∧ (∀ k c, heap s !! k = Some c →
       heap s' !! k = Some (if decide (reached s us k c) then if has_room c then handed m c else c else c)
       ∧ (k ∈ closers s' ↔ k ∈ closers s ∨ reached s us k c ∧ has_room c = false)).
Proof.
  intros Hok Hnd. revert s Hok. induction Hnd as [|u us Hu Hnd IH]; intros s Hok; cbn.
  { split_and!; [done..|]. intros k c Hc. assert (¬ reached s [] k c) by (intros [?%elem_of_nil _]; done).
    rewrite decide_False by done. tauto. }
  destruct (deliver_exact u m s Hok) as (Hc1&Ho1&H1). pose proof (chat_deliver_ok (clients s !! u) m s Hok) as Hok1.
  set (s1 := deliver _ m s) in *. destruct (IH s1 Hok1) as (Hc2&Ho2&H2).
  set (s2 := foldl _ s1 us) in *. split_and!; [by rewrite Hc2|by rewrite Ho2|]. intros k c Hc.
  destruct (H1 k c Hc) as [Hh Hcl].
  assert (∀ c', userUUID c' = userUUID c → phase c' = phase c → reached s1 us k c' ↔ reached s us k c) as Heq.
  { intros c' Hu' Hp'. unfold reached. by rewrite Hu', Hp', Hc1. }
  assert (reached s (u :: us) k c ↔ reached s [u] k c ∨ reached s us k c) as Hsum.
  { unfold reached. rewrite elem_of_cons, list_elem_of_singleton. tauto. }
  assert (reached s [u] k c → ¬ reached s us k c) as Hone.
  { intros (He%list_elem_of_singleton&_) (Hin&_). by rewrite He in Hin. }
  destruct (decide (reached s [u] k c)) as [Hr|Hr].
  - assert (∃ c', heap s1 !! k = Some c' ∧ userUUID c' = userUUID c ∧ phase c' = phase c) as (c'&Hc'&Hu'&Hp').
    { rewrite Hh. by destruct (has_room c); eexists; split_and!. }
    destruct (H2 k c' Hc') as [Hh2 Hcl2]. rewrite (Heq c' Hu' Hp') in Hcl2. rewrite decide_False in Hh2 by (rewrite (Heq c' Hu' Hp'); tauto).
    rewrite (decide_True (P := reached s (u :: us) k c)) by tauto. rewrite Hh2, <-Hc', Hh. split; [done|]. rewrite Hcl2, Hcl. tauto.
  - destruct (H2 k c Hh) as [Hh2 Hcl2]. rewrite (Heq c eq_refl eq_refl) in Hcl2. rewrite Hh2, Hcl2, Hcl. split; [|tauto].
    destruct (decide (reached s1 us k c)) as [H3|H3]; rewrite (Heq c eq_refl eq_refl) in H3;
      [rewrite decide_True by tauto|rewrite decide_False by tauto]; done.
Qed.

(** a message for a list of users is handed to each of them once, whatever the list:
    every listed client that is open and has room gets it as its last message, a client
    without room is closed instead, and nothing else of any client changes. *)
Theorem route_exact q s users m r : chat_reachable q s → RouteToUsers users m = Some r →
  clients (route r s) = clients s ∧ online (route r s) = online s
  ∧ (∀ k c, heap s !! k = Some c →
       heap (route r s) !! k = Some (if decide (reached s users k c) then if has_room c then handed m c else c else c)
       ∧ (k ∈ closers (route r s) ↔ k ∈ closers s ∨ reached s users k c ∧ has_room c = false)).
Proof.
  intros Hok%chat_reachable_ok. unfold RouteToUsers. destruct (distinct_spec [] users) as [Hnd Hin].
  case_bool_decide; [done|]. intros [= <-]. destruct (recipients_exact (distinct [] users) m s Hok Hnd) as (H1&H2&H3).
  split_and!; [exact H1|exact H2|]. intros k c Hc. destruct (H3 k c Hc) as [H4 H5].
  assert (reached s (distinct [] users) k c ↔ reached s users k c) as Hr.
  { unfold reached. rewrite Hin. split; [tauto|]. intros (Hi&Hl&Hp). split_and!; try done; [|by apply not_elem_of_nil].
    destruct (ok_listed _ Hok _ _ Hl) as (c'&Hc'&<-&Hreg). by apply (ok_named _ Hok _ _ Hc'). }
  unfold route. cbn [recipients message]. rewrite H4. split; [|by rewrite H5, Hr].
  destruct (decide (reached s (distinct [] users) k c)) as [H6|H6]; rewrite Hr in H6;
    [rewrite (decide_True (P := reached s users k c)) by done|rewrite (decide_False (P := reached s users k c)) by done]; done.
Qed.

(** ** A group message *)

Section Messages.
Context `{External, !ExternalLaws _} (e : env) (Hq : quiet e).

Lemma quiet_env_keeps I : others_keep e I.
Proof. intros n x Hx. by rewrite (quiet_others e Hq). Qed.
Lemma GetGroup_db g s : db (GetGroup e g s).2 = db s.
Proof.
  assert (keeps (λ t, t = db s) (GetGroup e g)) as Hk; [|by apply Hk].
  pose proof (quiet_env_keeps (λ t, t = db s)). unfold GetGroup. keeps_auto.
Qed.
Lemma message_list_key a b : GroupMessageListKey a ≠ GroupInfoKey b.
Proof. unfold GroupMessageListKey, GroupInfoKey. intros Hk%append_inj_l%(f_equal (String.get 6)). done. Qed.
Lemma coherent_drop r D k : coherent r D → coherent (delete k <$> r) D.
Proof.
  intros Hc c g v. destruct r as [c0|]; [|done]. cbn. intros [= <-] [_ Hv]%lookup_delete_Some. by eapply Hc.
Qed.
Lemma AppendJSON_view k v s D : view s D → (∀ g, k ≠ GroupInfoKey g) →
  ∃ r s', AppendJSON (E := gorm_error) e k v s = (Ok r, s') ∧ view s' D ∧ db s' = db s.
Proof.
  intros [HR Hc] Hk. unfold AppendJSON. rewrite bind_run.
  destruct (GetJSON_quiet e Hq (E := gorm_error) as_items k s) as [Hd Hj].
  destruct (GetJSON e as_items k s) as [r s1]. cbn [fst snd] in Hd, Hj.
  assert (view s1 D ∧ ∃ x, r = Ok x) as [Hv [x ->]].
  { split; [|destruct (redis s) as [c|]; [destruct (c !! k) as [w|]; [destruct (as_items w)|]|]; naive_solver].
    constructor; [by rewrite Hd|]. destruct (redis s) as [c|] eqn:Hr; [|by destruct Hj as [_ ->]].
    destruct (c !! k) as [w|]; [|by destruct Hj as [_ ->]].
    destruct (as_items w); destruct Hj as [_ ->]; [done|]. by apply (coherent_drop (Some c)). }
  destruct x as [l|[]]; try (eexists _, s1; done).
  destruct (SetJSON_quiet e Hq (E := gorm_error) k (CArray (l ++ [v])) s1) as (Hd'&_).
  destruct (SetJSON_view e Hq (E := gorm_error) k (CArray (l ++ [v])) s1 D Hv) as (r'&s2&Hs&Hv2); [by intros g ?%Hk|].
  rewrite Hs in *. eexists _, s2. split_and!; try done. cbn in Hd'. congruence.
Qed.

Definition fresh_messages (t : tables) : Prop := ∀ n r, r ∈ messages t → model.MessageUUID r ≠ "M" +:+ fresh e n.
Definition group_message (t : tables) (n : nat) (sender g content : string) : model.Message :=
  model.MkMessage (Z.of_nat (length (messages t)) + 1) ("M" +:+ fresh e n) g model.MessageTypeText content
    model.MessageOriginUser sender g (clock e (S n)).
Lemma insert_fresh t m n : fresh_messages t → model.MessageUUID m = "M" +:+ fresh e n →
  insert_message m t = Some (set_messages (messages t ++ [model.set_message_id (Z.of_nat (length (messages t)) + 1) m]) t).
Proof.
  intros Hf Hm. unfold insert_message. destruct (existsb _ _) eqn:Hx; [|done].
  apply List.existsb_exists in Hx as (r&Hin&Hb). apply bool_decide_eq_true in Hb. apply list_elem_of_In in Hin.
  destruct (Hf n r Hin). by rewrite Hb.
Qed.
Lemma SendGroupMessage_exact s D sender g content :
  view s D → fresh_messages (db s) → sender ≠ "" → g ≠ "" → content ≠ "" →
  let p := SendGroupMessage e sender g content s in
  view p.2 D ∧
  match d_groups D !! g with
  | Some G =>
    if bool_decide (sender ∈ gr_members G)
    then ∃ n, let m := group_message (db s) n sender g content in
              p.1 = Ok (message_response m) ∧ messages (db p.2) = (messages (db s) ++ [m])%list
    else p.1 = Err ErrNotGroupMember ∧ messages (db p.2) = messages (db s)
  | None => p.1 = Err ErrGroupNotFound ∧ messages (db p.2) = messages (db s)
  end.
Proof.
  intros Hv Hf Hs Hg Hc. unfold SendGroupMessage. rewrite !check_run, !bool_decide_true by done. cbn [andb].
  rewrite bind_run. destruct (GetGroup_exact e Hq s D g Hv Hg) as [H1 H2]. pose proof (GetGroup_db g s) as Hd.
  destruct (GetGroup e g s) as [r s1]. cbn [fst snd] in *. subst r.
  destruct (d_groups D !! g) as [G|]; [|split_and!; [done..|by cbn; rewrite Hd]]. rewrite check_run. cbn [response.Members group_view].
  rewrite containsID_spec. case_bool_decide; [|split_and!; [done..|by cbn; rewrite Hd]].
  rewrite bind_run, new_uuid_run by done. rewrite bind_run, now_run by done. rewrite bind_run, or_fail_run, (write_quiet e Hq).
  cbn [db redis ops]. erewrite insert_fresh; [|by rewrite Hd|done]. rewrite !bind_run.
  edestruct (AppendJSON_view (GroupMessageListKey g)) as (r'&s2&Ha&Hv2&Hd2); [|intros g'; apply message_list_key|].
  2: { rewrite Ha. cbn. split; [exact Hv2|]. exists (ops s1). split; [done|]. rewrite Hd2. cbn. by rewrite Hd. }
  destruct H2 as [HR Hco]. constructor; [|exact Hco]. cbn. eapply represents_message; [exact HR|].
  apply (insert_fresh _ _ (ops s1)); [by rewrite Hd|done].
Qed.

(** C26: when nothing fails and nobody interferes, a group message on a socket is stored once
    and goes to exactly the members of the group, and to nobody when the sender is not one of
    them or the group is unknown; when the server is done the message is stored and the sender
    gets an error. *)
Theorem group_chat_exact s D m accepts :
  view s D → fresh_messages (db s) → wschat.ReceiveType m = ReceiveTypeGroup → has_prefix (wschat.ReceiveID m) "G" = true →
  wschat.SendID m ≠ "" → wschat.Content m ≠ "" →
  let g := wschat.ReceiveID m in
  let p := HandleMessage e accepts (wschat.SendID m) m s in
  view p.2 D ∧
  match d_groups D !! g with
  | Some G =>
    if bool_decide (wschat.SendID m ∈ gr_members G)
    then (∃ n, messages (db p.2) = (messages (db s) ++ [group_message (db s) n (wschat.SendID m) g (wschat.Content m)])%list)
         ∧ p.1 = (if accepts
                  then Ok (MkRoute (gr_members G) (wschat.MkMessage (wschat.SendID m) g (wschat.Content m) model.MessageOriginUser ReceiveTypeGroup))
                  else Err ErrDatabase)
    else p.1 = Err ErrNotGroupMember ∧ messages (db p.2) = messages (db s)
  | None => p.1 = Err ErrGroupNotFound ∧ messages (db p.2) = messages (db s)
  end.
Proof.
  intros Hv Hf Ht Hg Hs Hc. assert (wschat.ReceiveID m ≠ "") as Hne by by intros Heq; rewrite Heq in Hg.
  unfold HandleMessage, validDestination. rewrite check_run, Ht, Hg. rewrite (bool_decide_false (_ = "")), (bool_decide_false (_ ≠ _)) by tauto.
  rewrite (bool_decide_false (_ = "")) by done. cbn [negb orb]. change (ReceiveTypeGroup =? ReceiveTypeUser) with false.
  change (ReceiveTypeGroup =? ReceiveTypeGroup) with true. cbn [negb orb]. rewrite bind_run.
  destruct (SendGroupMessage_exact s D (wschat.SendID m) (wschat.ReceiveID m) (wschat.Content m) Hv Hf Hs Hne Hc) as [Hv1 H1].
  destruct (SendGroupMessage e _ _ _ s) as [r s1]. cbn [fst snd] in Hv1, H1.
  destruct (d_groups D !! wschat.ReceiveID m) as [G|] eqn:HG; [|by destruct H1 as [-> H1]; split_and!].
  case_bool_decide as Hm; [|by destruct H1 as [-> H1]; split_and!]. destruct H1 as (n&->&Hmsgs).
  rewrite !bind_run. destruct (GetGroup_exact e Hq s1 D _ Hv1 Hne) as [H2 H3]. pose proof (GetGroup_db (wschat.ReceiveID m) s1) as Hd.
  destruct (GetGroup e _ s1) as [r2 s2]. cbn [fst snd] in H2, H3, Hd. rewrite H2, HG.
  pose proof (dir_group _ _ (rep_ok _ _ (view_db _ _ H3)) _ _ HG) as [Hnd Ho _].
  unfold RouteToUsers. cbn [response.Members group_view]. rewrite distinct_same; [|done|].
  - rewrite bool_decide_false by (intros He; rewrite He in Ho; by apply elem_of_nil in Ho). cbn.
    destruct accepts; cbn; rewrite Hd; (split; [done|]); (split; [by exists n|done]).
  - intros He. pose proof (members_valid _ _ _ _ (view_db _ _ H3) HG) as Hval. rewrite Forall_forall in Hval. by apply Hval in He.
Qed.
End Messages.

(** ** Through Kafka *)

Record event_text (ev : ChatEvent) : Prop := EventText {
  et_id : utf8_valid (EventID ev) = true; et_sender : utf8_valid (SenderID ev) = true;
  et_receive : utf8_valid (EventReceiveID ev) = true; et_content : utf8_valid (EventContent ev) = true;
  et_type : EventReceiveType ev = ReceiveTypeUser ∨ EventReceiveType ev = ReceiveTypeGroup
}.
Definition event_members (ev : ChatEvent) (created : string) : list (string * json) :=
  [("event_id", json_string (EventID ev)); ("sender_id", json_string (SenderID ev));
   ("receive_id", json_string (EventReceiveID ev)); ("receive_type", JNum (format_int (EventReceiveType ev)));
   ("content", json_string (EventContent ev)); ("created_at", JStr created created)].
(** The event with the time that its text keeps: the zone in whole minutes. *)
Definition reread_event (ev : ChatEvent) : ChatEvent :=
  MkEvent (EventID ev) (SenderID ev) (EventReceiveID ev) (EventReceiveType ev) (EventContent ev) (reread (EventCreatedAt ev)).
Lemma decode_event_members ev created t : parse_rfc3339 created = Some t →
  EventReceiveType ev = ReceiveTypeUser ∨ EventReceiveType ev = ReceiveTypeGroup →
  decode_struct event_field zero_event (JObj (event_members ev created))
    = Some (MkEvent (EventID ev) (SenderID ev) (EventReceiveID ev) (EventReceiveType ev) (EventContent ev) t).
Proof.
  destruct ev as [id sender receive ty content t0]. cbn [EventID SenderID EventReceiveID EventContent EventReceiveType]. intros Ht Hty.
  change (apply_fields event_field (event_members (MkEvent id sender receive ty content t0) created) zero_event
    = Some (MkEvent id sender receive ty content t)).
  unfold event_members, zero_event. do 3 field_step.
  erewrite (apply_fields_cons _ _ _ _ _ (MkEvent id sender receive ty "" zero_time)); [|by destruct Hty as [-> | ->]].
  field_step. erewrite apply_fields_cons; [|cbn -[parse_rfc3339]; rewrite Ht; reflexivity]. done.
Qed.
Lemma event_round_trip ev raw : event_text ev → print_event ev = Some raw → decode_event raw = Some (reread_event ev).
Proof.
  intros [] Hp. unfold print_event in Hp. destruct (print_time (EventCreatedAt ev)) as [s|] eqn:Hs; [|done].
  destruct (parses_zoned _ _ Hs) as (created&->&Hplain&Htime). injection Hp as <-.
  unfold decode_event. erewrite (parse_object 1 _ (event_members ev created)); [by apply decode_event_members| |].
  - assert (quote +:+ created +:+ quote = print_string created) as -> by by rewrite print_plain.
    repeat (apply Forall2_cons; split; [first [by apply member_text | by apply member_intro; [|apply parses_string]
      | apply member_intro; [done|destruct et_type0 as [-> | ->]; [apply (parses_uint 0)|apply (parses_uint 1)]]]|]). constructor.
  - cbn. lia.
Qed.

(** What one client's reader takes from its socket: a message [m] of [user], with the identifier and
    the time that its event gets. *)
Record reading : Type := Reading { by_user : string; with_id : string; at_time : time; said : wschat.Message }.
Definition reading_text (r : reading) : Prop :=
  with_id r ≠ "" ∧ utf8_valid (with_id r) = true ∧ utf8_valid (by_user r) = true
  ∧ utf8_valid (wschat.ReceiveID (said r)) = true ∧ utf8_valid (wschat.Content (said r)) = true.
(** [raw] is the record that the reader publishes for [r]. *)
Definition published (r : reading) (raw : string) : Prop :=
  ∃ ev key, read_turn (by_user r) true (with_id r) (at_time r) (Some (said r)) = ReadPublishes ev ∧ Publish ev = Some (key, raw).
Definition event_of_reading (r : reading) : ChatEvent :=
  MkEvent (with_id r) (by_user r) (wschat.ReceiveID (said r)) (wschat.ReceiveType (said r)) (wschat.Content (said r)) (reread (at_time r)).

Section Kafka.
Context `{External, !ExternalLaws _} (e : env) (accepts : bool).

(** The store, and the requests that went to the queue of the server. *)
Definition chat_world : Type := list routeRequest * store.
Definition handle (p : Prog gorm_error routeRequest) (w : chat_world) : bool * chat_world :=
  match p w.2 with (Ok r, s) => (true, (w.1 ++ [r], s))%list | (Err _, s) => (false, (w.1, s)) end.
(** The reader of a process without Kafka, and the handler of the consumer. *)
Definition by_socket (r : reading) : chat_world → bool * chat_world := handle (HandleMessage e accepts (by_user r) (said r)).
Definition by_consumer (ev : ChatEvent) : chat_world → bool * chat_world := handle (handle_event e accepts ev).
(** The readers without Kafka: an error is logged and the next message is handled. *)
Definition sockets (rs : list reading) (w : chat_world) : chat_world := foldl (λ w r, (by_socket r w).2) w rs.
Fixpoint all_accepted (rs : list reading) (w : chat_world) : Prop :=
  match rs with [] => True | r :: rs => (by_socket r w).1 = true ∧ all_accepted rs (by_socket r w).2 end.
Fixpoint settled (offset : nat) (rs : list reading) : list consume_step :=
  match rs with [] => [] | r :: rs => Handled (event_of_reading r) true :: Committed offset true :: settled (S offset) rs end.

Lemma published_spec r raw : reading_text r → published r raw →
  read_turn (by_user r) false (with_id r) (at_time r) (Some (said r)) = ReadHandles (said r)
  ∧ decode_event raw = Some (event_of_reading r)
  ∧ by_consumer (event_of_reading r) = by_socket r.
Proof.
  destruct r as [user id now m]. intros (Hid&Hw1&Hw2&Hw3&Hw4) (ev&key&Hr&Hp). cbn [by_user with_id at_time said] in *. revert Hr. unfold read_turn.
  case_bool_decide as Hu; [done|]. destruct (negb (validDestination _ _)) eqn:Hv; [done|]. intros [= <-]. split; [done|].
  assert (wschat.ReceiveType m = ReceiveTypeUser ∨ wschat.ReceiveType m = ReceiveTypeGroup) as Hty.
  { apply negb_false_iff in Hv. unfold validDestination in Hv. case_bool_decide; [done|].
    destruct (_ =? ReceiveTypeUser) eqn:H1; [left; by apply Z.eqb_eq|]. destruct (_ =? ReceiveTypeGroup) eqn:H2; [right; by apply Z.eqb_eq|done]. }
  unfold Publish in Hp. destruct (print_event _) as [raw'|] eqn:Hpr; [|done]. injection Hp as _ <-.
  split; [|by subst user].
  apply (event_round_trip (MkEvent id user (wschat.ReceiveID m) (wschat.ReceiveType m) (wschat.Content m) now)); [by constructor|exact Hpr].
Qed.
Lemma Consume_record commit offset r raw raws w : reading_text r → published r raw →
  Consume by_consumer commit offset (raw :: raws) w =
    (let '(ok, w) := by_socket r w in
     if ok : bool then
       let '(done, w) := commit offset w in
       if done : bool
       then let '(steps, w) := Consume by_consumer commit (S offset) raws w in
            (Handled (event_of_reading r) true :: Committed offset true :: steps, w)
       else ([Handled (event_of_reading r) true; Committed offset false], w)
     else ([Handled (event_of_reading r) false], w)).
Proof.
  intros Ht Hp. destruct (published_spec r raw Ht Hp) as (_&Hd&Hc). cbn [Consume]. rewrite Hd, Hc.
  by rewrite bool_decide_false by apply Ht.
Qed.

(** C29: with Kafka between the sockets and the services the messages have the effect they have
    without, up to the first that fails.  The consumer handles the records of the messages in order
    and commits each; the database, the cache and the requests in the queue of the server become what
    the readers themselves would have made of the same messages.  At the first message
    that its handler refuses the consumer ends, without committing it, and the rest are left:
    where there is no Kafka the readers go on. *)
Theorem kafka_as_channel before rest raws offset w :
  Forall reading_text (before ++ rest) → Forall2 published (before ++ rest) raws → all_accepted before w →
  let p := Consume by_consumer (λ _ w, (true, w)) offset raws w in
  Forall (λ r, read_turn (by_user r) false (with_id r) (at_time r) (Some (said r)) = ReadHandles (said r)) (before ++ rest)
  ∧ match rest with
    | [] => p = (settled offset before, sockets before w)
    | r :: _ => (by_socket r (sockets before w)).1 = false →
        p = (settled offset before ++ [Handled (event_of_reading r) false], sockets (before ++ [r]) w)%list
    end.
Proof.
  intros Ht Hp Ha p. split.
  { clear p. revert Ht. induction Hp as [|r raw rs raws' Hr _ IH]; intros Ht; [constructor|]. apply Forall_cons in Ht as [Hrt Ht].
    constructor; [by apply (published_spec r raw)|by apply IH]. }
  subst p. revert raws offset w Ht Hp Ha. induction before as [|b before IH]; intros raws offset w Ht Hp Ha; cbn [app] in *.
  - destruct rest as [|r rest]; [by inversion Hp|]. intros Hf. inversion Hp as [|?? ? ? Hr _]; subst. apply Forall_cons in Ht as [Ht _].
    cbn [sockets foldl settled app] in *. rewrite (Consume_record _ _ _ _ _ _ Ht Hr). destruct (by_socket r w) as [[] w']; by intros Hf || done.
  - inversion Hp as [|? raw ? raws' Hb Hp']; subst. apply Forall_cons in Ht as [Hbt Ht]. destruct Ha as [Hok Ha].
    rewrite (Consume_record _ _ _ _ _ _ Hbt Hb). specialize (IH raws' (S offset) (by_socket b w).2 Ht Hp' Ha).
    change (sockets (b :: ?l) w) with (sockets l (by_socket b w).2).
    destruct (by_socket b w) as [ok w1]. cbn [fst snd] in *. subst ok.
    destruct rest as [|r rest]; [by rewrite IH|]. intros Hf. by rewrite (IH Hf).
Qed.
End Kafka.

(** ** Concrete messages *)

Definition sample_chat : wschat.Message := wschat.MkMessage "U2" "U1" "hi" 0 0.
Definition sample_route : routeRequest := MkRoute ["U1"; "U3"] sample_chat.
Lemma route_exact_witness :
  RouteToUsers ["U1"; "U3"; "U1"; ""] sample_chat = Some sample_route
  ∧ outbound <$> heap (route sample_route sample_server) = [[]; [sample_chat]; []]
  ∧ clients (route sample_route sample_server) = clients sample_server.
Proof.
  assert (RouteToUsers ["U1"; "U3"; "U1"; ""] sample_chat = Some sample_route) as Hr by by vm_compute.
  split; [done|]. split; [by vm_compute|].
  exact (proj1 (route_exact 1 sample_server ["U1"; "U3"; "U1"; ""] sample_chat sample_route sample_server_reachable Hr)).
Defined.

Definition quiet_env : env := sample_env (λ _, Answered).
Definition to_group : wschat.Message := wschat.MkMessage user1 group1 "hello" 0 ReceiveTypeGroup.
Definition to_nobody : wschat.Message := wschat.MkMessage user2 group1 "hello" 0 ReceiveTypeGroup.
Lemma sample_fresh_messages : fresh_messages quiet_env (db sample_store).
Proof. intros n r Hr. assert (messages (db sample_store) = []) as Hm by by vm_compute. rewrite Hm in Hr. by apply elem_of_nil in Hr. Qed.
Lemma group_chat_exact_witness :
  (HandleMessage quiet_env true user1 to_group sample_store).1
    = Ok (MkRoute [user1] (wschat.MkMessage user1 group1 "hello" 0 ReceiveTypeGroup))
  ∧ (HandleMessage quiet_env true user2 to_nobody sample_store).1 = Err ErrNotGroupMember.
Proof.
  split.
  - destruct (@group_chat_exact Reference.external Reference.external_laws quiet_env sample_quiet sample_store sample_directory
      to_group true sample_view sample_fresh_messages eq_refl eq_refl ltac:(done) ltac:(done)) as [_ Hd].
    assert (d_groups sample_directory !! group1 = Some (Grp "club" user1 [user1] 0)) as HG by by vm_compute.
    cbn [wschat.ReceiveID to_group] in Hd. rewrite HG in Hd. cbn [gr_members] in Hd.
    rewrite bool_decide_true in Hd by (by apply list_elem_of_singleton). apply Hd.
  - destruct (@group_chat_exact Reference.external Reference.external_laws quiet_env sample_quiet sample_store sample_directory
      to_nobody true sample_view sample_fresh_messages eq_refl eq_refl ltac:(done) ltac:(done)) as [_ Hd].
    assert (d_groups sample_directory !! group1 = Some (Grp "club" user1 [user1] 0)) as HG by by vm_compute.
    cbn [wschat.ReceiveID to_nobody] in Hd. rewrite HG in Hd. cbn [gr_members] in Hd.
    rewrite bool_decide_false in Hd by (by intros Hx%list_elem_of_singleton). apply Hd.
Defined.

(** A clock in a zone two hours east of Greenwich. *)
Definition sample_time : time := Time 0 7200.
Definition sample_reading : reading := Reading user1 "id1" sample_time to_group.
Definition stranger_reading : reading := Reading user1 "id0" sample_time (wschat.MkMessage user1 user2 "hello" 0 ReceiveTypeUser).
Definition record_of (r : reading) : string := default "" (snd <$> Publish (event_of_reading r)).
(** A message without a session fails in the handler: the consumer of the process ends there, and
    the message behind it is never handled; the readers of the sockets themselves handle both. *)
Lemma kafka_as_channel_witness :
  let w := ([], sample_store) in
  let route := MkRoute [user1] (wschat.MkMessage user1 group1 "hello" 0 ReceiveTypeGroup) in
  let run rs := Consume (by_consumer quiet_env true) (λ _ w, (true, w)) 0 (record_of <$> rs) w in
  (run [sample_reading; stranger_reading; sample_reading]).1
    = [Handled (event_of_reading sample_reading) true; Committed 0 true; Handled (event_of_reading stranger_reading) false]
  ∧ (run [sample_reading; stranger_reading; sample_reading]).2.1 = [route]
  ∧ (sockets quiet_env true [sample_reading; stranger_reading; sample_reading] w).1 = [route; route].
Proof.
  cbv zeta beta.
  destruct (kafka_as_channel quiet_env true [sample_reading] [stranger_reading; sample_reading]
    (record_of <$> [sample_reading; stranger_reading; sample_reading]) 0 ([], sample_store)) as [_ Hrun].
  - repeat constructor; by vm_compute.
  - repeat constructor; (eexists _, _; split; [reflexivity|by vm_compute]).
  - split; [by vm_compute|done].
  - rewrite (Hrun ltac:(by vm_compute)). split_and!; by vm_compute.
Defined.
