(* ===== verification/Schema.v ===== *)
(** * Descriptions of the HTTP operations: [internal/httpdocs/httpdocs.go]

    Go types as reflection shows them, the JSON schemas derived from their tags, and the OpenAPI
    document of a list of routes.  Beside them stand the two standards the document is about: how
    [encoding/json] writes a value of a type, and when a JSON value satisfies a schema. *)
From S2P Require Import Prelude GoStd GoTime GoNet GoText External Json JsonPrint.
Local Open Scope Z_scope.

(** ** Go types *)

Inductive int_kind : Type := Int | Int8 | Int16 | Int32 | Int64 | Uint | Uint8 | Uint16 | Uint32 | Uint64.
(** A struct is known by its name; the kinds that have no schema are [GOther]. *)
Inductive go_type : Type :=
| GString | GBool | GInt (k : int_kind) | GFloat
| GSlice (t : go_type) | GArray (t : go_type) | GPointer (t : go_type) | GMap (t : go_type)
| GStruct (name : string) | GTime | GRawError | GOther.
Global Instance int_kind_eq_dec : EqDecision int_kind.
Proof. solve_decision. Defined.
Global Instance go_type_eq_dec : EqDecision go_type.
Proof. solve_decision. Defined.
(** [reflect.StructField]: its tags by key. *)
Record go_field : Type := MkGoField {
  FieldName : string; Exported : bool; JsonTag : string; BindingTag : string; FormTag : string; FieldType : go_type
}.

(** A value of [map[string]any] and what it holds. *)
Inductive any : Type :=
| AString (s : string) | ABool (b : bool) | AInt (n : Z) | AList (l : list any) | AMap (m : list (string * any)).
Fixpoint get (k : string) (m : list (string * any)) : option any :=
  match m with [] => None | (k', x) :: m => if bool_decide (k' = k) then Some x else get k m end.
Fixpoint put (k : string) (x : any) (m : list (string * any)) : list (string * any) :=
  match m with
  | [] => [(k, x)]
  | (k', y) :: m => if bool_decide (k' = k) then (k, x) :: m else (k', y) :: put k x m
  end.
Definition object : any := AMap [("type", AString "object")].
Definition raw_error_schema : any :=
  AMap [("anyOf", AList [object; AMap [("type", AString "array"); ("items", object)]])].

(** The parts of a tag. *)
Definition tag_parts (tag : string) : list string := of_bytes <$> split_on 44 (bytes tag).
Definition tag_has (option tag : string) : bool := bool_decide (option ∈ tag_parts tag).
Definition tag_name (tag : string) : string := hd "" (tag_parts tag).
Definition field_name (f : go_field) : string :=
  if bool_decide (tag_name (JsonTag f) = "") then FieldName f else tag_name (JsonTag f).
Definition listed (f : go_field) : bool := Exported f && negb (bool_decide (tag_name (JsonTag f) = "-")).
Definition required_field (request : bool) (f : go_field) : bool :=
  if request then tag_has "required" (BindingTag f)
  else negb (tag_has "omitempty" (JsonTag f)) && negb (tag_has "omitzero" (JsonTag f)).

(** The fields of a struct one after the other; [of_type] is the schema of a field's type. *)
Fixpoint schema_fields (of_type : go_type → option (result string any)) (request : bool) (fs : list go_field)
    (properties : list (string * any)) (required : list string) : option (result string (list (string * any) * list string)) :=
  match fs with
  | [] => Some (Ok (properties, required))
  | f :: fs =>
    if listed f then
      match of_type (FieldType f) with
      | Some (Ok s) =>
        schema_fields of_type request fs (put (field_name f) s properties)
          (if required_field request f then required ++ [field_name f] else required)%list
      | Some (Err e) => Some (Err e)
      | None => None
      end
    else schema_fields of_type request fs properties required
  end.
Definition object_schema (properties : list (string * any)) (required : list string) : any :=
  AMap ([("type", AString "object"); ("properties", AMap properties)]
        ++ (match required with [] => [] | _ => [("required", AList (AString <$> required))] end))%list.
Definition on_schema {A B} (r : option (result string A)) (f : A → B) : option (result string B) := r ← r; Some (a ← r; Ok (f a)).

Section Types.
(** The struct types of the program. *)
Context (structs : string → list go_field).

(** [None] is out of fuel, an error the panic on a recursive type. *)
Fixpoint schemaType (fuel : nat) (request : bool) (seen : list string) (t : go_type) : option (result string any) :=
  match fuel with
  | O => None
  | S n =>
    let simple s := Some (Ok (AMap [("type", AString s)])) in
    match t with
    | GRawError => Some (Ok raw_error_schema)
    | GTime => Some (Ok (AMap [("type", AString "string"); ("format", AString "date-time")]))
    | GPointer t => on_schema (schemaType n request seen t) (λ s, AMap [("anyOf", AList [s; AMap [("type", AString "null")]])])
    | GString => simple "string"
    | GBool => simple "boolean"
    | GInt _ => simple "integer"
    | GFloat => simple "number"
    | GSlice t | GArray t => on_schema (schemaType n request seen t) (λ s, AMap [("type", AString "array"); ("items", s)])
    | GMap t => on_schema (schemaType n request seen t) (λ s, AMap [("type", AString "object"); ("additionalProperties", s)])
    | GStruct name =>
      if bool_decide (name ∈ seen) then Some (Err name)
      else on_schema (schema_fields (schemaType n request (name :: seen)) request (structs name) [] [])
             (λ '(properties, required), object_schema properties required)
    | GOther => Some (Ok (AMap []))
    end
  end.

(** The size of a type and the depth of the program's types: with this fuel [schemaType] ends. *)
Fixpoint type_size (t : go_type) : nat :=
  match t with GSlice t | GArray t | GPointer t | GMap t => S (type_size t) | _ => 1 end.
Definition Schema (fuel : nat) (value : option go_type) (request : bool) : option (result string any) :=
  match value with None => Some (Ok (AMap [])) | Some t => schemaType fuel request [] t end.
End Types.

(** ** The document *)

Record Response : Type := MkResponse { Status : Z; Description : string; Bodies : list go_type }.
Record Route : Type := MkRouteDoc {
  Method : string; Path : string; ID : string; Summary : string; Authenticated : bool;
  Request : option go_type; Query : option string; RequiredFields : list string;
  QueryRules : list (string * list (string * any)); Responses : list Response
}.
Inductive generate_error : Type :=
| Incomplete (path : string) | DuplicateID (id : string) | DuplicateRoute (method path : string)
| UnknownField (name : string) | DuplicateResponse (status path : string)
(** A panic: a recursive type, or a request or a property that is no struct or map. *)
| Panic.

(** [http.StatusText] for the classes of answers the program gives. *)
Definition StatusText (status : Z) : string :=
  match status with
  | 200 => "OK" | 201 => "Created" | 202 => "Accepted" | 204 => "No Content"
  | 400 => "Bad Request" | 401 => "Unauthorized" | 403 => "Forbidden" | 404 => "Not Found" | 409 => "Conflict"
  | 500 => "Internal Server Error" | 502 => "Bad Gateway" | 503 => "Service Unavailable"
  | _ => ""
  end.

Section Generate.
Context (structs : string → list go_field) (fuel : nat).
#[local] Abbreviation M := (λ A, option (result generate_error A)).
Definition lift_schema {A} (r : option (result string A)) : M A :=
  match r with Some (Ok a) => Some (Ok a) | Some (Err _) => Some (Err Panic) | None => None end.
Definition bind {A B} (m : M A) (f : A → M B) : M B :=
  match m with Some (Ok a) => f a | Some (Err e) => Some (Err e) | None => None end.
Definition content (schema : any) : any := AMap [("application/json", AMap [("schema", schema)])].
Definition error_body : go_type := GStruct "httpdocs.ErrorBody".

(** The members that a controller asks for although no tag does. *)
Fixpoint require_fields (names : list string) (required : list string) (props : list (string * any))
  : result generate_error (list string * list (string * any)) :=
  match names with
  | [] => Ok (required, props)
  | name :: names =>
    match get name props with
    | None => Err (UnknownField name)
    | Some (AMap p) =>
      require_fields names (required ++ [name])
        (match get "anyOf" p with Some (AList (first :: _)) => put name first props | _ => props end)
    | Some _ => Err Panic
    end
  end.
Definition request_schema (r : Route) (t : go_type) : M any :=
  bind (lift_schema (Schema structs fuel (Some t) true)) (λ s,
    match RequiredFields r with
    | [] => Some (Ok s)
    | names =>
      Some (match s with
            | AMap m =>
              match get "properties" m with
              | Some (AMap props) =>
                let required := match get "required" m with
                                | Some (AList l) => omap (λ x, match x with AString s => Some s | _ => None end) l
                                | _ => []
                                end in
                '(required, props) ← require_fields names required props;
                Ok (AMap (put "required" (AList (AString <$> required)) (put "properties" (AMap props) m)))
              | _ => Err Panic
              end
            | _ => Err Panic
            end)
    end).
(** One parameter of a query: the rules go to the parameter or to its schema. *)
Definition parameter (rules : list (string * any)) (name : string) (s : any) : any :=
  let s := match s with AMap s => s | _ => [] end in
  let '(p, s) := fold_left (λ '(p, s) '(key, value),
                   if bool_decide (key = "required") || bool_decide (key = "description")
                   then (put key value p, s) else (p, put key value s)) rules
                 ([("name", AString name); ("in", AString "query"); ("required", ABool false)], s) in
  AMap (put "schema" (AMap s) p).
Fixpoint parameters (rules : list (string * list (string * any))) (fs : list go_field) : M (list any) :=
  match fs with
  | [] => Some (Ok [])
  | f :: fs =>
    if bool_decide (FormTag f = "") || bool_decide (FormTag f = "-") then parameters rules fs
    else
      bind (lift_schema (schemaType structs fuel true [] (FieldType f))) (λ s,
        let of_name := default [] (snd <$> find (λ r, bool_decide (r.1 = FormTag f)) rules) in
        bind (parameters rules fs) (λ ps, Some (Ok (parameter of_name (FormTag f) s :: ps))))
  end.
Fixpoint schemas (ts : list go_type) : M (list any) :=
  match ts with
  | [] => Some (Ok [])
  | t :: ts => bind (lift_schema (Schema structs fuel (Some t) false)) (λ s, bind (schemas ts) (λ ss, Some (Ok (s :: ss))))
  end.
(** The entry of a response. *)
Definition response_entry (r : Response) : M any :=
  let d := ("description", AString (if bool_decide (Description r = "") then StatusText (Status r) else Description r)) in
  bind (schemas (Bodies r)) (λ ss,
    Some (Ok (AMap (d :: match ss with
                         | [] => []
                         | [s] => [("content", content s)]
                         | _ => [("content", content (AMap [("anyOf", AList ss)]))]
                         end)))).
Fixpoint responses (path : string) (rs : list Response) (m : list (string * any)) : M (list (string * any)) :=
  match rs with
  | [] => Some (Ok m)
  | r :: rs =>
    let status := format_int (Status r) in
    match get status m with
    | Some _ => Some (Err (DuplicateResponse status path))
    | None => bind (response_entry r) (λ x, responses path rs (put status x m))
    end
  end.
Definition unauthorized : M any :=
  bind (lift_schema (Schema structs fuel (Some error_body) false)) (λ s,
    Some (Ok (AMap [("description", AString "Missing, invalid or expired Bearer JWT"); ("content", content s)]))).
(** One operation. *)
Definition describe (r : Route) : M any :=
  let security := if Authenticated r then [AMap [("bearerAuth", AList [])]] else [] in
  let op := [("operationId", AString (ID r)); ("summary", AString (Summary r)); ("security", AList security)] in
  bind (match Request r with
        | None => Some (Ok op)
        | Some t => bind (request_schema r t) (λ s,
            Some (Ok (put "requestBody" (AMap [("required", ABool true); ("content", content s)]) op)))
        end) (λ op,
  bind (match Query r with
        | None => Some (Ok op)
        | Some name => bind (parameters (QueryRules r) (structs name)) (λ ps, Some (Ok (put "parameters" (AList ps) op)))
        end) (λ op,
  bind (responses (Path r) (Responses r) []) (λ m,
  bind (if Authenticated r then bind unauthorized (λ x, Some (Ok (put "401" x m))) else Some (Ok m)) (λ m,
  Some (Ok (AMap (put "responses" (AMap m) op))))))).
(** The routes of the document so far, by path and then by method. *)
Fixpoint generate (ids : list string) (paths : list (string * list (string * any))) (routes : list Route)
  : M (list (string * list (string * any))) :=
  match routes with
  | [] => Some (Ok paths)
  | r :: routes =>
    if bool_decide (Method r = "") || bool_decide (Path r = "") || bool_decide (ID r = "") || bool_decide (Responses r = [])
    then Some (Err (Incomplete (Path r)))
    else if bool_decide (ID r ∈ ids) then Some (Err (DuplicateID (ID r)))
    else
      let methods := default [] (snd <$> find (λ p, bool_decide (p.1 = Path r)) paths) in
      let method := lower_ascii (Method r) in
      match get method methods with
      | Some _ => Some (Err (DuplicateRoute (Method r) (Path r)))
      | None =>
        bind (describe r) (λ op,
          generate (ID r :: ids)
            ((Path r, put method op methods) :: List.filter (λ p, negb (bool_decide (p.1 = Path r))) paths) routes)
      end
  end.
Definition info : any :=
  AMap [("title", AString "Fable Logic HTTP API"); ("version", AString "1.0.0");
        ("description", AString "Generated by go run ./cmd/httpdocs from registered code-first operations. Static /chat assets and WebSocket transport are excluded.")].
Definition Generate (routes : list Route) : M any :=
  bind (generate [] [] routes) (λ paths,
    Some (Ok (AMap
      [("openapi", AString "3.1.0"); ("jsonSchemaDialect", AString "https://json-schema.org/draft/2020-12/schema"); ("info", info);
       ("paths", AMap ((λ p, (p.1, AMap p.2)) <$> paths));
       ("components", AMap [("securitySchemes", AMap [("bearerAuth",
          AMap [("type", AString "http"); ("scheme", AString "bearer"); ("bearerFormat", AString "JWT")])])])]))).
End Generate.

(** ** JSON schemas

    The keywords of the document as the standard defines them; the others are annotations.  The
    bounds are for integers, which is where the document uses them. *)
Definition is_integer (lit : string) : bool :=
  match bytes lit with
  | [] => false
  | b :: l => if b =? 45 then negb (bool_decide (l = [])) && forallb (in_range 48 57) l else forallb (in_range 48 57) (b :: l)
  end.
Definition has_type (name : string) (v : json) : bool :=
  match v with
  | JNull => bool_decide (name = "null")
  | JBool _ => bool_decide (name = "boolean")
  | JNum lit => bool_decide (name = "number") || (bool_decide (name = "integer") && is_integer lit)
  | JStr _ _ => bool_decide (name = "string")
  | JArr _ => bool_decide (name = "array")
  | JObj _ => bool_decide (name = "object")
  end.
Definition within (ok : Z → Z → bool) (x : any) (v : json) : bool :=
  match x, v with
  | AInt bound, JNum lit => match atoi lit with Some n => ok bound n | None => true end
  | _, _ => true
  end.
Definition has_member (v : json) (x : any) : bool :=
  match x, v with
  | AString name, JObj ms => match lookup_key name ms with Some _ => true | None => false end
  | AString _, _ => true
  | _, _ => false
  end.
Fixpoint validates (s : any) (v : json) {struct s} : bool :=
  match s with
  | ABool b => b
  | AMap m =>
    forallb (λ kx,
      let x := kx.2 in
      if bool_decide (kx.1 = "type") then match x with AString t => has_type t v | _ => false end
      else if bool_decide (kx.1 = "items") then match v with JArr vs => forallb (validates x) vs | _ => true end
      else if bool_decide (kx.1 = "additionalProperties") then
        let declared := match get "properties" m with Some (AMap ps) => fst <$> ps | _ => [] end in
        match v with
        | JObj ms => forallb (λ p, bool_decide (p.1 ∈ declared) || validates x p.2) ms
        | _ => true
        end
      else if bool_decide (kx.1 = "required") then
        match x with AList names => forallb (has_member v) names | _ => false end
      else if bool_decide (kx.1 = "minimum") then within Z.leb x v
      else if bool_decide (kx.1 = "maximum") then within (λ bound n, n <=? bound) x v
      else if bool_decide (kx.1 = "anyOf") then
        match x with AList ss => existsb (λ s, validates s v) ss | _ => false end
      else if bool_decide (kx.1 = "properties") then
        match x with
        | AMap ps =>
          forallb (λ p, match v with
                        | JObj ms => match lookup_key p.1 ms with Some y => validates p.2 y | None => true end
                        | _ => true
                        end) ps
        | _ => false
        end
      else true) m
  | _ => false
  end.

(** ** Encoding ([encoding/json]) *)

(** A value: integers by their number, other numbers by their text. *)
Inductive go_value : Type :=
| VString (s : string) | VBool (b : bool) | VInt (n : Z) | VFloat (lit : string) | VTime (t : time)
| VNilPointer | VNilSlice | VNilMap
| VPointer (v : go_value) | VList (vs : list go_value) | VMap (ms : list (string * go_value)) | VStruct (vs : list go_value).
Definition string_json (s : string) : json := JStr (of_bytes (print_bytes s)) s.
(** What [omitempty] leaves out. *)
Definition empty_value (v : go_value) : bool :=
  match v with
  | VString s => bool_decide (s = "") | VBool b => negb b | VInt n => n =? 0
  | VNilPointer | VNilSlice | VNilMap | VList [] | VMap [] => true
  | _ => false
  end.
Definition omitted (f : go_field) (v : go_value) : bool := tag_has "omitempty" (JsonTag f) && empty_value v.

(** The elements of a slice, the members of a map and the fields of a struct. *)
Section Members.
Context (encode : go_type → go_value → option json).
Fixpoint marshal_elements (t : go_type) (vs : list go_value) : option (list json) :=
  match vs with [] => Some [] | v :: vs => j ← encode t v; js ← marshal_elements t vs; Some (j :: js) end.
Fixpoint marshal_members (t : go_type) (ms : list (string * go_value)) : option (list (string * json)) :=
  match ms with [] => Some [] | (k, v) :: ms => j ← encode t v; js ← marshal_members t ms; Some ((k, j) :: js) end.
Fixpoint marshal_fields (fs : list go_field) (vs : list go_value) {struct vs} : option (list (string * json)) :=
  match vs, fs with
  | [], [] => Some []
  | v :: vs, f :: fs =>
    js ← marshal_fields fs vs;
    if negb (listed f) || omitted f v then Some js
    else j ← encode (FieldType f) v; Some ((field_name f, j) :: js)
  | _, _ => None
  end.
End Members.
Section Encoding.
Context (structs : string → list go_field).
(** The tree of the text [Marshal] writes, [None] where the value is not of the type, has no text
    (a time without a four-digit year), or is of a kind the program does not encode. *)
Fixpoint marshal (t : go_type) (v : go_value) {struct v} : option json :=
  match v, t with
  | VString s, GString => Some (string_json s)
  | VBool b, GBool => Some (JBool b)
  | VInt n, GInt _ => Some (JNum (format_int n))
  | VFloat lit, GFloat => Some (JNum lit)
  | VTime x, GTime => (λ l, string_json (of_bytes l)) <$> print_time_bytes x
  | VNilPointer, GPointer _ | VNilSlice, GSlice _ | VNilMap, GMap _ => Some JNull
  | VPointer v, GPointer t => marshal t v
  | VList vs, (GSlice t | GArray t) =>
    if bool_decide (t = GInt Uint8) then None else JArr <$> marshal_elements marshal t vs
  | VMap ms, GMap t => JObj <$> marshal_members marshal t ms
  | VStruct vs, GStruct name => JObj <$> marshal_fields marshal (structs name) vs
  | _, _ => None
  end.
End Encoding.
(** No nil slice or map in a value: these are written as null. *)
Fixpoint made (v : go_value) : bool :=
  match v with
  | VNilSlice | VNilMap => false
  | VPointer v => made v
  | VList vs | VStruct vs => forallb made vs
  | VMap ms => forallb (λ p, made p.2) ms
  | _ => true
  end.
(** The structs whose fields [encoding/json] writes under the names of their tags: no two share
    a name, no tag starts with [-,], none has [omitzero] or [string]. *)
Definition plain_field (f : go_field) : bool :=
  negb (listed f) && bool_decide (JsonTag f = "-") || negb (Exported f)
  || (listed f && negb (tag_has "omitzero" (JsonTag f)) && negb (tag_has "string" (JsonTag f))).
Definition plain (fs : list go_field) : bool :=
  forallb plain_field fs && bool_decide (NoDup (field_name <$> List.filter listed fs)).
