(* ===== verification/SchemaProofs.v ===== *)
(** * What the descriptions of the HTTP operations promise

    Deriving a schema ends on all types of a program and fails on recursive ones only; a value
    that is encoded satisfies the schema of its type; the document lists what its routes list. *)
From S2P Require Import Prelude GoStd GoTime GoNet GoText External Json JsonPrint Schema.
Local Open Scope Z_scope.

(** ** Keys *)

Lemma get_put_eq k x m : get k (put k x m) = Some x.
Proof. induction m as [|[k' y] m IH]; cbn; [by rewrite bool_decide_true|]. case_bool_decide; cbn; [by rewrite bool_decide_true|]. by rewrite bool_decide_false. Qed.
Lemma get_put_ne k k' x m : k ≠ k' → get k (put k' x m) = get k m.
Proof.
  intros Hk. induction m as [|[k2 y] m IH]; cbn; [by rewrite bool_decide_false by congruence|].
  case_bool_decide; cbn; [subst; by rewrite !(bool_decide_false (k' = k)) by congruence|]. by rewrite IH.
Qed.
Lemma get_None k m : k ∉ fst <$> m → get k m = None.
Proof.
  induction m as [|[k' y] m IH]; [done|]. cbn [fmap list_fmap fst get]. intros [Hk Hm]%not_elem_of_cons.
  rewrite bool_decide_false by congruence. auto.
Qed.
Lemma put_fresh k x m : k ∉ fst <$> m → put k x m = m ++ [(k, x)].
Proof.
  induction m as [|[k' y] m IH]; [done|]. cbn [fmap list_fmap fst put]. intros [Hk Hm]%not_elem_of_cons.
  rewrite bool_decide_false by congruence. cbn. by rewrite IH.
Qed.
Lemma lookup_key_in k ms y : lookup_key k ms = Some y → (k, y) ∈ ms.
Proof.
  induction ms as [|[k' v] ms IH]; cbn; [done|]. destruct (lookup_key k ms) as [w|]; [intros [= ->]; right; auto|].
  case_bool_decide; [|done]. intros [= ->]. subst. left.
Qed.
Lemma lookup_key_some k ms : k ∈ fst <$> ms → is_Some (lookup_key k ms).
Proof.
  induction ms as [|[k' v] ms IH]; [by intros ?%elem_of_nil|]. cbn [fmap list_fmap fst lookup_key]. intros [->|Hk]%elem_of_cons.
  - destruct (lookup_key k' ms); [done|]. by rewrite bool_decide_true.
  - destruct (IH Hk) as [w Hw]. by rewrite Hw.
Qed.

(** ** The schemas of the fields *)

Definition schema_of (of_type : go_type → option (result string any)) (f : go_field) (s : any) : Prop :=
  of_type (FieldType f) = Some (Ok s).
Lemma schema_fields_spec of_type request fs ps rq ps' rq' :
  schema_fields of_type request fs ps rq = Some (Ok (ps', rq')) →
  NoDup ((fst <$> ps) ++ (field_name <$> List.filter listed fs)) →
  ∃ ss, Forall2 (schema_of of_type) (List.filter listed fs) ss
    ∧ ps' = (ps ++ zip (field_name <$> List.filter listed fs) ss)%list
    ∧ rq' = (rq ++ (field_name <$> List.filter (required_field request) (List.filter listed fs)))%list.
Proof.
  revert ps rq. induction fs as [|f fs IH]; cbn [schema_fields List.filter]; intros ps rq Hf Hnd.
  { injection Hf as <- <-. exists []. cbn. rewrite !app_nil_r. by split_and!. }
  destruct (listed f); [|by apply IH]. cbn [fmap list_fmap] in Hnd.
  destruct (of_type (FieldType f)) as [[s|]|] eqn:Hs; [|done..].
  assert (field_name f ∉ fst <$> ps) as Hfresh.
  { apply NoDup_app in Hnd as (_&Hd&_). intros Hin. apply (Hd _ Hin). left. }
  rewrite put_fresh in Hf by done.
  destruct (IH _ _ Hf) as (ss&Hss&->&->).
  { rewrite fmap_app, <-app_assoc. exact Hnd. }
  exists (s :: ss). split; [by constructor|]. cbn [fmap list_fmap zip zip_with]. rewrite <-app_assoc. split; [done|].
  cbn [List.filter]. destruct (required_field request f); [|done]. by rewrite <-app_assoc.
Qed.

(** ** What is encoded *)

Section Encoded.
Context (encode : go_type → go_value → option json).
Lemma elements_spec t vs js : marshal_elements encode t vs = Some js → Forall2 (λ v j, encode t v = Some j) vs js.
Proof.
  revert js. induction vs as [|v vs IH]; cbn; intros js Hjs; [by injection Hjs as <-|].
  destruct (encode t v) as [j|] eqn:Hv; [|done]. destruct (marshal_elements encode t vs) as [js'|]; [|done].
  injection Hjs as <-. constructor; auto.
Qed.
Lemma members_spec t ms js : marshal_members encode t ms = Some js → Forall2 (λ p q, p.1 = q.1 ∧ encode t p.2 = Some q.2) ms js.
Proof.
  revert js. induction ms as [|[k v] ms IH]; cbn; intros js Hjs; [by injection Hjs as <-|].
  destruct (encode t v) as [j|] eqn:Hv; [|done]. destruct (marshal_members encode t ms) as [js'|]; [|done].
  injection Hjs as <-. constructor; auto.
Qed.
Lemma fields_members fs vs js k j :
  marshal_fields encode fs vs = Some js → (k, j) ∈ js →
  ∃ f v, f ∈ List.filter listed fs ∧ v ∈ vs ∧ k = field_name f ∧ encode (FieldType f) v = Some j.
Proof.
  revert vs js. induction fs as [|f fs IH]; intros [|v vs] js; cbn [marshal_fields]; try done.
  { intros [= <-] Hin. by apply elem_of_nil in Hin. }
  destruct (marshal_fields encode fs vs) as [js'|] eqn:Hr; [|done]. cbn [mbind option_bind].
  assert ((k, j) ∈ js' → ∃ g w, g ∈ List.filter listed (f :: fs) ∧ w ∈ v :: vs ∧ k = field_name g ∧ encode (FieldType g) w = Some j) as Hrest.
  { intros Hin. destruct (IH vs js' Hr Hin) as (g&w&Hg&Hw&Hk&He). exists g, w. split_and!; [|by right|done..].
    cbn [List.filter]. destruct (listed f); [by right|done]. }
  destruct (listed f) eqn:Hl; cbn [negb orb]; [|intros [= <-]; exact Hrest].
  destruct (omitted f v); [intros [= <-]; exact Hrest|].
  destruct (encode (FieldType f) v) as [y|] eqn:Hy; [|done]. intros [= <-]. intros [[= -> ->]|Hin]%elem_of_cons; [|by apply Hrest].
  exists f, v. split_and!; [|left|done..]. cbn [List.filter]. rewrite Hl. left.
Qed.
Lemma fields_required fs vs js f :
  marshal_fields encode fs vs = Some js → f ∈ List.filter listed fs → tag_has "omitempty" (JsonTag f) = false →
  field_name f ∈ fst <$> js.
Proof.
  revert vs js. induction fs as [|g fs IH]; intros [|v vs] js; cbn [marshal_fields List.filter]; try done.
  { intros _ Hin. by apply elem_of_nil in Hin. }
  destruct (marshal_fields encode fs vs) as [js'|] eqn:Hr; [|done]. cbn [mbind option_bind].
  destruct (listed g) eqn:Hl; cbn [negb orb].
  - intros Hjs [->|Hin]%elem_of_cons Ht.
    + unfold omitted in Hjs. rewrite Ht in Hjs. cbn [andb] in Hjs. destruct (encode (FieldType g) v); [|done].
      injection Hjs as <-. left.
    + specialize (IH vs js' Hr Hin Ht). destruct (omitted g v); [by injection Hjs as <-|].
      destruct (encode (FieldType g) v); [|done]. injection Hjs as <-. by right.
  - intros [= <-]. by apply (IH vs).
Qed.
End Encoded.

(** ** The keywords *)

Lemma validates_array s v : validates (AMap [("type", AString "array"); ("items", s)]) v
  = match v with JArr vs => forallb (validates s) vs | _ => false end.
Proof. destruct v as [| | | |l|]; try reflexivity. transitivity (forallb (validates s) l && true); [reflexivity|apply andb_true_r]. Qed.
Lemma validates_map s v : validates (AMap [("type", AString "object"); ("additionalProperties", s)]) v
  = match v with JObj ms => forallb (λ p, validates s p.2) ms | _ => false end.
Proof.
  destruct v as [| | | | |l]; try reflexivity.
  transitivity (forallb (λ p, validates s p.2) l && true); [reflexivity|apply andb_true_r].
Qed.
Lemma validates_any ss v : validates (AMap [("anyOf", AList ss)]) v = existsb (λ s, validates s v) ss.
Proof. transitivity (existsb (λ s, validates s v) ss && true); [reflexivity|apply andb_true_r]. Qed.
Lemma validates_object ps rq ms :
  (∀ name s y, (name, s) ∈ ps → lookup_key name ms = Some y → validates s y = true) →
  (∀ name, name ∈ rq → name ∈ fst <$> ms) →
  validates (object_schema ps rq) (JObj ms) = true.
Proof.
  intros Hps Hrq. assert (forallb (λ p, match lookup_key p.1 ms with Some y => validates p.2 y | None => true end) ps = true) as Hp.
  { apply forallb_forall. intros [name s] Hin%list_elem_of_In. cbn [fst snd].
    destruct (lookup_key name ms) as [y|] eqn:Hy; [by eapply Hps|done]. }
  assert (forallb (has_member (JObj ms)) (AString <$> rq) = true) as Hr.
  { apply forallb_forall. intros x Hin%list_elem_of_In. apply list_elem_of_fmap in Hin as (name&->&Hin). cbn.
    by destruct (lookup_key_some name ms (Hrq name Hin)) as [w ->]. }
  destruct rq as [|r rq].
  - transitivity (forallb (λ p, match lookup_key p.1 ms with Some y => validates p.2 y | None => true end) ps && true); [reflexivity|].
    by rewrite Hp.
  - transitivity (forallb (λ p, match lookup_key p.1 ms with Some y => validates p.2 y | None => true end) ps
                  && (forallb (has_member (JObj ms)) (AString <$> r :: rq) && true)); [reflexivity|].
    by rewrite Hp, Hr.
Qed.

(** ** Numbers *)

Lemma uint_digits u : forallb (in_range 48 57) (bytes (DecimalString.NilEmpty.string_of_uint u)) = true.
Proof. induction u; cbn; try done; apply IHu. Qed.
Lemma nonzero_digits u : forallb (in_range 48 57) (bytes (DecimalString.NilZero.string_of_uint u)) = true
  ∧ bytes (DecimalString.NilZero.string_of_uint u) ≠ [].
Proof. split; [destruct u; try (apply uint_digits); done|by destruct u]. Qed.
Lemma integer_text n : is_integer (format_int n) = true.
Proof.
  unfold is_integer, format_int. destruct (n <? 0).
  - destruct (nonzero_digits (N.to_uint (Z.to_N (- n)))) as [Hd Hne]. unfold format_uint.
    cbn [bytes]. destruct (bytes (DecimalString.NilZero.string_of_uint _)) eqn:E; [done|].
    replace (byte_val "-" =? 45) with true by reflexivity. rewrite bool_decide_false by done. by rewrite Hd.
  - destruct (nonzero_digits (N.to_uint (Z.to_N n))) as [Hd Hne]. unfold format_uint.
    destruct (bytes (DecimalString.NilZero.string_of_uint _)) as [|b l] eqn:E; [done|].
    destruct (Z.eqb_spec b 45) as [->|]; [done|]. done.
Qed.

(** ** Soundness *)

Lemma unique_field f g (l : list go_field) : NoDup (field_name <$> l) → f ∈ l → g ∈ l → field_name f = field_name g → f = g.
Proof.
  intros Hnd [i Hi]%list_elem_of_lookup [j Hj]%list_elem_of_lookup He.
  assert (i = j) as ->; [|congruence].
  apply (NoDup_lookup _ _ _ (field_name f) Hnd); rewrite list_lookup_fmap; [by rewrite Hi|by rewrite Hj, He].
Qed.
Lemma zip_in {A B} (f : A → string) (P : A → B → Prop) (l : list A) (ss : list B) k s :
  Forall2 P l ss → (k, s) ∈ zip (f <$> l) ss → ∃ a, a ∈ l ∧ k = f a ∧ P a s.
Proof.
  induction 1 as [|a b l ss Hab HF IH]; [by intros ?%elem_of_nil|]. cbn. intros [[= -> ->]|Hin]%elem_of_cons.
  - exists a. split_and!; [left|done..].
  - destruct (IH Hin) as (c&Hc&?). exists c. split; [by right|done].
Qed.
Section Sound.
Context (structs : string → list go_field) (Hplain : ∀ name, plain (structs name) = true).

Lemma sound_elements t s vs js :
  (∀ v j, made v = true → marshal structs t v = Some j → validates s j = true) →
  forallb made vs = true → marshal_elements (marshal structs) t vs = Some js → forallb (validates s) js = true.
Proof.
  intros Hs Hm Hj%elements_spec. induction Hj as [|v j vs js Hv Hj IH]; [done|]. cbn in Hm |- *.
  apply andb_true_iff in Hm as [Hm1 Hm2]. by rewrite (Hs v j), IH.
Qed.
Lemma sound_members t s ms js :
  (∀ v j, made v = true → marshal structs t v = Some j → validates s j = true) →
  forallb (λ p, made p.2) ms = true → marshal_members (marshal structs) t ms = Some js → forallb (λ p, validates s p.2) js = true.
Proof.
  intros Hs Hm Hj%members_spec. induction Hj as [|[k v] [k' j] ms js [Hk Hv] Hj IH]; [done|]. cbn in Hm, Hv |- *.
  apply andb_true_iff in Hm as [Hm1 Hm2]. by rewrite (Hs v j), IH.
Qed.
Lemma sound_struct of_type name ps rq vs js :
  (∀ t s v j, of_type t = Some (Ok s) → made v = true → marshal structs t v = Some j → validates s j = true) →
  schema_fields of_type false (structs name) [] [] = Some (Ok (ps, rq)) →
  forallb made vs = true → marshal_fields (marshal structs) (structs name) vs = Some js →
  validates (object_schema ps rq) (JObj js) = true.
Proof.
  intros Hs Hf Hm Hj. pose proof (Hplain name) as Hp. unfold plain in Hp.
  apply andb_true_iff in Hp as [Hpf Hnd]. apply bool_decide_eq_true in Hnd.
  destruct (schema_fields_spec _ _ _ _ _ _ _ Hf Hnd) as (ss&Hss&->&->). cbn [app]. apply validates_object.
  - intros k s y Hin Hy%lookup_key_in. destruct (zip_in _ _ _ _ _ _ Hss Hin) as (f&Hfin&->&Hfs).
    destruct (fields_members _ _ _ _ _ _ Hj Hy) as (g&v&Hg&Hv&Hn&He).
    rewrite <-(unique_field f g _ Hnd Hfin Hg Hn) in He. eapply Hs; [exact Hfs| |exact He].
    rewrite forallb_forall in Hm. apply Hm. by apply list_elem_of_In.
  - intros k Hin. apply list_elem_of_fmap in Hin as (f&->&Hin). apply list_elem_of_In, filter_In in Hin as [Hin Hr].
    unfold required_field in Hr. apply andb_true_iff in Hr as [Hr _]. apply negb_true_iff in Hr.
    eapply fields_required; [exact Hj|by apply list_elem_of_In|done].
Qed.
(** A value whose slices and maps are made satisfies the schema of its type. *)
Lemma schema_sound fuel seen t s v j :
  schemaType structs fuel false seen t = Some (Ok s) → made v = true → marshal structs t v = Some j → validates s j = true.
Proof.
  revert seen t s v j. induction fuel as [|n IH]; [done|]. intros seen t s v j Hs Hm Hj.
  destruct t; cbn [schemaType] in Hs.
  - injection Hs as <-. destruct v; try done. by injection Hj as <-.
  - injection Hs as <-. destruct v; try done. by injection Hj as <-.
  - injection Hs as <-. destruct v; try done. injection Hj as <-.
    transitivity (is_integer (format_int n0) && true); [reflexivity|]. by rewrite integer_text.
  - injection Hs as <-. destruct v; try done. by injection Hj as <-.
  - destruct (schemaType structs n false seen t) as [[s'|]|] eqn:Ht; try done. injection Hs as <-. rewrite validates_array.
    destruct v; try done. cbn [marshal] in Hj. case_bool_decide; [done|].
    destruct (marshal_elements _ t vs) as [js|] eqn:He; [|done]. injection Hj as <-. eapply sound_elements; eauto.
  - destruct (schemaType structs n false seen t) as [[s'|]|] eqn:Ht; try done. injection Hs as <-. rewrite validates_array.
    destruct v; try done. cbn [marshal] in Hj. case_bool_decide; [done|].
    destruct (marshal_elements _ t vs) as [js|] eqn:He; [|done]. injection Hj as <-. eapply sound_elements; eauto.
  - destruct (schemaType structs n false seen t) as [[s'|]|] eqn:Ht; try done. injection Hs as <-. rewrite validates_any.
    cbn [existsb]. destruct v; try done; cbn [marshal] in Hj.
    + injection Hj as <-. apply orb_true_r.
    + by rewrite (IH seen t s' v j Ht Hm Hj).
  - destruct (schemaType structs n false seen t) as [[s'|]|] eqn:Ht; try done. injection Hs as <-. rewrite validates_map.
    destruct v; try done. cbn [marshal] in Hj.
    destruct (marshal_members _ t ms) as [js|] eqn:He; [|done]. injection Hj as <-. eapply sound_members; eauto.
  - case_bool_decide; [done|]. unfold on_schema in Hs. destruct (schema_fields _ _ _ _ _) as [[[ps rq]|]|] eqn:Hf; try done.
    injection Hs as <-. destruct v; try done. cbn [marshal] in Hj.
    destruct (marshal_fields _ _ vs) as [js|] eqn:He; [|done]. injection Hj as <-. by eapply sound_struct; eauto.
  - injection Hs as <-. destruct v; try done. cbn [marshal] in Hj. destruct (print_time_bytes t); [|done]. by injection Hj as <-.
  - by destruct v.
  - by destruct v.
Qed.
End Sound.

(** ** Termination *)

(** The struct a type is made of. *)
Fixpoint base (t : go_type) : option string :=
  match t with GSlice t | GArray t | GPointer t | GMap t => base t | GStruct name => Some name | _ => None end.

Section Ends.
Context (structs : string → list go_field) (names : list string) (depth : nat).
(** The structs of the program: a field's type is made of one of them and not deeper than [depth]. *)
Context (Hnames : ∀ name f, f ∈ structs name → (type_size (FieldType f) ≤ depth)%nat).
Context (Hclosed : ∀ name f m, f ∈ structs name → base (FieldType f) = Some m → m ∈ names).
(** A field of the first holds the second. *)
Definition holds (name m : string) : Prop := ∃ f, f ∈ structs name ∧ base (FieldType f) = Some m.
Definition unseen (seen : list string) : nat := length (List.filter (λ n, negb (bool_decide (n ∈ seen))) names).

Lemma unseen_cons name seen : name ∈ names → name ∉ seen → (unseen (name :: seen) < unseen seen)%nat.
Proof.
  intros Hin Hn. unfold unseen. clear Hnames Hclosed. induction names as [|m l IH]; [by apply elem_of_nil in Hin|].
  assert (∀ l, length (List.filter (λ n, negb (bool_decide (n ∈ name :: seen))) l)
               ≤ length (List.filter (λ n, negb (bool_decide (n ∈ seen))) l))%nat as Hle.
  { clear. induction l as [|m l IH]; [done|]. cbn [List.filter].
    destruct (decide (m ∈ seen)) as [Hm|Hm].
    - rewrite !bool_decide_true by (done || by right). done.
    - rewrite (bool_decide_false (m ∈ seen)) by done. cbn [negb]. destruct (negb (bool_decide (m ∈ name :: seen))); cbn [length]; lia. }
  specialize (Hle l). cbn [List.filter]. apply elem_of_cons in Hin as [<-|Hin].
  - rewrite (bool_decide_true (name ∈ name :: seen)) by left. rewrite (bool_decide_false (name ∈ seen)) by done. cbn. lia.
  - specialize (IH Hin). destruct (decide (m ∈ seen)) as [Hm|Hm].
    + rewrite !bool_decide_true by (done || by right). done.
    + rewrite (bool_decide_false (m ∈ seen)) by done. cbn [negb length].
      destruct (negb (bool_decide (m ∈ name :: seen))); cbn [length]; lia.
Qed.
Lemma schema_fields_ends of_type request fs ps rq (P : string → Prop) :
  (∀ f, f ∈ fs → ∃ r, of_type (FieldType f) = Some r ∧ ∀ e, r = Err e → P e) →
  ∃ r, schema_fields of_type request fs ps rq = Some r ∧ ∀ e, r = Err e → P e.
Proof.
  revert ps rq. induction fs as [|f fs IH]; intros ps rq Hf; [by eexists|]. cbn [schema_fields].
  assert (∀ g, g ∈ fs → ∃ r, of_type (FieldType g) = Some r ∧ ∀ e, r = Err e → P e) as Hf' by (intros g Hg; apply Hf; by right).
  destruct (listed f); [|by apply IH]. destruct (Hf f) as (r&->&He); [left|]. destruct r as [s|e]; [by apply IH|].
  exists (Err e). split; [done|]. intros e' [= ->]. by apply He.
Qed.
Lemma on_schema_ends {A B} (r : option (result string A)) (f : A → B) (P : string → Prop) :
  (∃ x, r = Some x ∧ ∀ e, x = Err e → P e) → ∃ x, on_schema r f = Some x ∧ ∀ e, x = Err e → P e.
Proof. intros ([a|e]&->&He); [by eexists|]. exists (Err e). split; [done|]. intros e' [= ->]. by apply He. Qed.

(** With fuel for every nesting, [schemaType] ends; it fails only on a struct that holds itself. *)
Lemma schemaType_ends fuel request seen t :
  (∀ m, base t = Some m → m ∈ names) →
  (∀ m n, base t = Some m → n ∈ seen → tc holds n m) →
  (unseen seen * S depth + type_size t < fuel)%nat →
  ∃ r, schemaType structs fuel request seen t = Some r ∧ ∀ e, r = Err e → tc holds e e.
Proof.
  revert seen t. induction fuel as [|n IH]; intros seen t Hb Hseen Hfuel; [lia|]. cbn [schemaType].
  destruct t; try (by eexists); cbn [type_size base] in *; try (apply on_schema_ends, IH; [done..|lia]).
  assert (name ∈ names) as Hname by (by apply Hb). case_bool_decide as Hin.
  { eexists. split; [done|]. intros e [= <-]. by apply Hseen. }
  apply on_schema_ends, schema_fields_ends. intros f Hf. apply IH.
  - intros m Hm. by eapply Hclosed.
  - assert (∀ m, base (FieldType f) = Some m → holds name m) as Hh by (intros m Hm; by exists f).
    intros m k Hm [->|Hk]%elem_of_cons; [by apply tc_once, Hh|]. eapply tc_r; [by apply Hseen|by apply Hh].
  - pose proof (unseen_cons name seen Hname Hin). pose proof (Hnames name f Hf). nia.
Qed.
End Ends.

(** ** The document *)

(** The value at a path of keys. *)
Fixpoint at_path (ks : list string) (a : any) : option any :=
  match ks with
  | [] => Some a
  | k :: ks => match a with AMap m => b ← get k m; at_path ks b | _ => None end
  end.
Definition methods_of (path : string) (paths : list (string * list (string * any))) : list (string * any) :=
  default [] (snd <$> find (λ p, bool_decide (p.1 = path)) paths).

Section Document.
Context (structs : string → list go_field) (fuel : nat).
#[local] Abbreviation describe := (describe structs fuel).
#[local] Abbreviation response_entry := (response_entry structs fuel).

Lemma schema_bind_Ok {A B} (m : option (result generate_error A)) (f : A → option (result generate_error B)) b :
  bind m f = Some (Ok b) → ∃ a, m = Some (Ok a) ∧ f a = Some (Ok b).
Proof. destruct m as [[a|e]|]; cbn; [eauto|done..]. Qed.
Lemma find_other path path' (paths : list (string * list (string * any))) : path ≠ path' →
  find (λ p, bool_decide (p.1 = path)) (List.filter (λ p, negb (bool_decide (p.1 = path'))) paths)
  = find (λ p, bool_decide (p.1 = path)) paths.
Proof.
  intros Hp. induction paths as [|[q ms] paths IH]; [done|]. cbn [List.filter find fst].
  destruct (decide (q = path')) as [->|Hq].
  - rewrite (bool_decide_true (path' = path')) by done. cbn [negb]. by rewrite (bool_decide_false (path' = path)) by congruence.
  - rewrite (bool_decide_false (q = path')) by done. cbn [negb find fst]. by rewrite IH.
Qed.
Lemma generate_lists ids paths routes paths' :
  generate structs fuel ids paths routes = Some (Ok paths') →
  (∀ path m op, get m (methods_of path paths) = Some op → get m (methods_of path paths') = Some op)
  ∧ ∀ r, r ∈ routes → ∃ op, describe r = Some (Ok op) ∧ get (lower_ascii (Method r)) (methods_of (Path r) paths') = Some op.
Proof.
  revert ids paths. induction routes as [|r routes IH]; intros ids paths; cbn [generate].
  { intros [= <-]. split; [done|]. intros r Hr. by apply elem_of_nil in Hr. }
  destruct (_ || _); [done|]. case_bool_decide; [done|]. fold (methods_of (Path r) paths).
  destruct (get (lower_ascii (Method r)) (methods_of (Path r) paths)) eqn:Hnew; [done|].
  intros (op&Hop&Hrest)%schema_bind_Ok. destruct (IH _ _ Hrest) as [Hkeep Hlist].
  assert (∀ path, methods_of path ((Path r, put (lower_ascii (Method r)) op (methods_of (Path r) paths))
            :: List.filter (λ p, negb (bool_decide (p.1 = Path r))) paths)
          = if bool_decide (path = Path r) then put (lower_ascii (Method r)) op (methods_of (Path r) paths) else methods_of path paths) as Hms.
  { intros path. unfold methods_of at 1. cbn [find fst]. case_bool_decide as Hp.
    - subst path. by rewrite (bool_decide_true (Path r = Path r)).
    - rewrite (bool_decide_false (path = Path r)) by congruence. by rewrite find_other by congruence. }
  split.
  - intros path m x Hx. apply Hkeep. rewrite Hms. case_bool_decide; [|done]. subst path.
    destruct (decide (m = lower_ascii (Method r))) as [->|Hne]; [congruence|]. by rewrite get_put_ne.
  - intros q [->|Hq]%elem_of_cons; [|by apply Hlist]. exists op. split; [done|]. apply Hkeep. rewrite Hms.
    rewrite bool_decide_true by done. apply get_put_eq.
Qed.
Lemma get_paths path m op paths : get m (methods_of path paths) = Some op →
  at_path [path; m] (AMap ((λ p, (p.1, AMap p.2)) <$> paths)) = Some op.
Proof.
  intros Hg. cbn [at_path]. assert (get path ((λ p, (p.1, AMap p.2)) <$> paths) = Some (AMap (methods_of path paths))) as ->.
  { unfold methods_of in *. induction paths as [|[q ms] paths IH]; [done|]. cbn [fmap list_fmap get find fst] in *.
    case_bool_decide; [done|]. by apply IH. }
  cbn [mbind option_bind]. by rewrite Hg.
Qed.
Lemma responses_list path rs m m' :
  responses structs fuel path rs m = Some (Ok m') →
  (∀ k x, get k m = Some x → get k m' = Some x)
  ∧ ∀ r, r ∈ rs → ∃ x, response_entry r = Some (Ok x) ∧ get (format_int (Status r)) m' = Some x.
Proof.
  revert m. induction rs as [|r rs IH]; intros m; cbn [responses].
  { intros [= <-]. split; [done|]. intros r Hr. by apply elem_of_nil in Hr. }
  destruct (get (format_int (Status r)) m) eqn:Hnew; [done|]. intros (x&Hx&Hrest)%schema_bind_Ok.
  destruct (IH _ Hrest) as [Hkeep Hlist]. split.
  - intros k y Hk. apply Hkeep. destruct (decide (k = format_int (Status r))) as [->|Hne]; [congruence|]. by rewrite get_put_ne.
  - intros q [->|Hq]%elem_of_cons; [|by apply Hlist]. exists x. split; [done|]. apply Hkeep, get_put_eq.
Qed.
Lemma describe_lists r op : describe r = Some (Ok op) →
  (∀ a, a ∈ Responses r → (Authenticated r = false ∨ format_int (Status a) ≠ "401") →
     ∃ x, response_entry a = Some (Ok x) ∧ at_path ["responses"; format_int (Status a)] op = Some x)
  ∧ (Authenticated r = true → ∃ x, unauthorized structs fuel = Some (Ok x) ∧ at_path ["responses"; "401"] op = Some x).
Proof.
  unfold describe, Schema.describe. cbn zeta. intros (op1&_&H1)%schema_bind_Ok. apply schema_bind_Ok in H1 as (op2&_&H2).
  apply schema_bind_Ok in H2 as (m&Hm&H3). apply schema_bind_Ok in H3 as (m'&Hm'&H4). injection H4 as <-.
  apply responses_list in Hm as [_ Hl]. cbn [at_path]. rewrite get_put_eq. cbn [mbind option_bind].
  destruct (Authenticated r).
  - apply schema_bind_Ok in Hm' as (x&Hx&Hm'). injection Hm' as <-. split.
    + intros a Ha [?|Hne]; [done|]. destruct (Hl a Ha) as (y&Hy&Hg). exists y. split; [done|]. by rewrite get_put_ne, Hg.
    + intros _. exists x. split; [done|]. by rewrite get_put_eq.
  - injection Hm' as <-. split; [|done]. intros a Ha _. destruct (Hl a Ha) as (y&Hy&Hg). exists y. split; [done|]. by rewrite Hg.
Qed.

(** The schema of an entry accepts what a schema of its bodies accepts. *)
Definition content_of (entry : any) : option any := at_path ["content"; "application/json"; "schema"] entry.
Lemma schemas_in ts ss t : schemas structs fuel ts = Some (Ok ss) → t ∈ ts →
  ∃ s, s ∈ ss ∧ schemaType structs fuel false [] t = Some (Ok s).
Proof.
  revert ss. induction ts as [|u ts IH]; intros ss Hs Ht; [by apply elem_of_nil in Ht|]. cbn [schemas] in Hs.
  apply schema_bind_Ok in Hs as (s&Hs&Hr). apply schema_bind_Ok in Hr as (ss'&Hss&Hr). injection Hr as <-.
  apply elem_of_cons in Ht as [->|Ht].
  - exists s. split; [left|]. unfold lift_schema, Schema in Hs. destruct (schemaType _ _ _ _ u) as [[x|]|]; by simplify_eq.
  - destruct (IH ss' Hss Ht) as (x&Hx&?). exists x. split; [by right|done].
Qed.
Lemma schemas_length ts ss : schemas structs fuel ts = Some (Ok ss) → length ss = length ts.
Proof.
  revert ss. induction ts as [|u ts IH]; intros ss Hs; cbn [schemas] in Hs; [by injection Hs as <-|].
  apply schema_bind_Ok in Hs as (s&_&Hr). apply schema_bind_Ok in Hr as (ss'&Hss&Hr). injection Hr as <-. cbn. by rewrite (IH ss').
Qed.
Lemma entry_accepts a x : response_entry a = Some (Ok x) →
  (Bodies a = [] → content_of x = None)
  ∧ ∀ t, t ∈ Bodies a → ∃ s st, content_of x = Some s ∧ schemaType structs fuel false [] t = Some (Ok st)
      ∧ ∀ j, validates st j = true → validates s j = true.
Proof.
  intros (ss&Hss&Hx)%schema_bind_Ok. injection Hx as <-. pose proof (schemas_length _ _ Hss) as Hlen. split.
  - intros Hb. rewrite Hb in Hlen. by destruct ss.
  - intros t Ht. destruct (schemas_in _ _ _ Hss Ht) as (st&Hin&Hst).
    destruct ss as [|s1 [|s2 ss]]; [by apply elem_of_nil in Hin| |].
    + apply list_elem_of_singleton in Hin as ->. by exists s1, s1.
    + exists (AMap [("anyOf", AList (s1 :: s2 :: ss))]), st. split_and!; [done|done|]. intros j Hj. rewrite validates_any.
      apply existsb_exists. exists st. split; [by apply list_elem_of_In|done].
Qed.

(** Where the document has the schema of a response. *)
Definition response_path (r : Route) (status : Z) : list string :=
  ["paths"; Path r; lower_ascii (Method r); "responses"; format_int status].
Lemma at_path_app ks ks' a b : at_path ks a = Some b → at_path (ks ++ ks') a = at_path ks' b.
Proof.
  revert a. induction ks as [|k ks IH]; cbn; intros a; [by intros [= ->]|]. destruct a as [| | | |m]; try done.
  destruct (get k m); [|done]. cbn [mbind option_bind]. apply IH.
Qed.
Lemma Generate_entries routes doc r : Generate structs fuel routes = Some (Ok doc) → r ∈ routes →
  (∀ a, a ∈ Responses r → (Authenticated r = false ∨ format_int (Status a) ≠ "401") →
     ∃ x, response_entry a = Some (Ok x) ∧ at_path (response_path r (Status a)) doc = Some x)
  ∧ (Authenticated r = true → ∃ x, unauthorized structs fuel = Some (Ok x) ∧ at_path (response_path r 401) doc = Some x).
Proof.
  intros (paths&Hp&Hd)%schema_bind_Ok Hr. injection Hd as <-. destruct (generate_lists _ _ _ _ Hp) as [_ Hl].
  destruct (Hl r Hr) as (op&Hop&Hg). apply get_paths in Hg. destruct (describe_lists r op Hop) as [H1 H2].
  assert (∀ k x, at_path ["responses"; k] op = Some x → at_path ["paths"; Path r; lower_ascii (Method r); "responses"; k]
    (AMap [("openapi", AString "3.1.0"); ("jsonSchemaDialect", AString "https://json-schema.org/draft/2020-12/schema"); ("info", info);
           ("paths", AMap ((λ p, (p.1, AMap p.2)) <$> paths));
           ("components", AMap [("securitySchemes", AMap [("bearerAuth",
              AMap [("type", AString "http"); ("scheme", AString "bearer"); ("bearerFormat", AString "JWT")])])])]) = Some x) as Hin.
  { intros k x Hk. change (at_path ([Path r; lower_ascii (Method r)] ++ ["responses"; k]) (AMap ((λ p, (p.1, AMap p.2)) <$> paths)) = Some x).
    by rewrite (at_path_app _ _ _ _ Hg). }
  split; [intros a Ha Hne|intros Ha].
  - destruct (H1 a Ha Hne) as (x&Hx&Hk). exists x. split; [done|]. by apply Hin.
  - destruct (H2 Ha) as (x&Hx&Hk). exists x. split; [done|]. by apply Hin.
Qed.
End Document.
