(* ===== verification/HttpApi.v ===== *)
(** * The business endpoints: [internal/api/v1], [internal/https_server]

    The controllers as functions on the store, the Bearer middleware, the catalog of routes with
    the responses it documents, and the checks the generator of the documentation makes on it.
    Decoding of bodies is the JSON library's: a controller takes the decoded struct, [None] when
    the body is no JSON of its shape.  The JWT library is the parameter [jwt]. *)
From S2P Require Import Prelude GoStd GoTime GoText External LogicDispatch Schema Tables GormService AiService.
Local Open Scope Z_scope.

(** ** Responses *)

Inductive http_body : Type :=
| BEmpty | BError | BRaw | BText
| BRegistered (u : response.GetUserInfoResponse) | BLogin (l : LoginResponse)
| BUser (u : response.GetUserInfoResponse) | BUsers (l : list response.GetUserInfoResponse)
| BSession (id : string) | BSessions (l : list response.UserSessionListResponse)
| BMessages (l : list response.MessageResponse)
| BGroup (g : response.GroupResponse) | BGroups (l : list response.GroupResponse)
| BSetting (l : list AISettingSessionResponse).
(** The Go type of a body. *)
Definition type_of (b : http_body) : option go_type :=
  match b with
  | BEmpty => None
  | BError => Some error_body
  | BRaw => Some GRawError
  | BText => Some GString
  | BRegistered _ => Some (GStruct "response.RegisterResponse")
  | BLogin _ => Some (GStruct "response.LoginResponse")
  | BUser _ => Some (GStruct "response.GetUserInfoResponse")
  | BUsers _ => Some (GSlice (GStruct "response.GetUserInfoResponse"))
  | BSession _ => Some (GStruct "response.OpenSessionResponse")
  | BSessions _ => Some (GSlice (GStruct "response.UserSessionListResponse"))
  | BMessages _ => Some (GSlice (GStruct "response.MessageResponse"))
  | BGroup _ => Some (GStruct "gormservice.GroupResponse")
  | BGroups _ => Some (GSlice (GStruct "gormservice.GroupResponse"))
  | BSetting _ => Some (GStruct "response.AISettingResponse")
  end.
Record http_response : Type := MkHttp { status : Z; body : http_body }.
Definition error_json (code : Z) : http_response := MkHttp code BError.
(** [c.JSON(code, err)]: the error value itself. *)
Definition error_raw (code : Z) : http_response := MkHttp code BRaw.

Definition Handler : Type := store → http_response * store.
Definition reply (r : http_response) : Handler := λ s, (r, s).
Definition answer {E A} (m : Prog E A) (ok : A → http_response) (failed : E → http_response) : Handler := λ s,
  match m s with (Ok a, s) => (ok a, s) | (Err x, s) => (failed x, s) end.
(** [binding:required]: the decoded struct, if no required member is empty. *)
Definition bound {A} (required : A → list string) (decoded : option A) : option A :=
  a ← decoded; if bool_decide ("" ∈ required a) then None else Some a.

(** [c.Get("user_uuid")]: absent, no string, or a string. *)
Definition context_user : Type := option (option string).
Definition currentUser (v : context_user) : option string :=
  match v with Some (Some id) => if bool_decide (id = "") then None else Some id | _ => None end.

(** ** Status of the errors *)

Definition register_error (x : gorm_error) : http_response :=
  match x with
  | ErrInvalidRegister | ErrUsernameExists | ErrTelephoneExists => error_raw 409
  | ErrCreateUserFailed => error_raw 400
  | _ => error_raw 502
  end.
Definition login_error (x : gorm_error) : http_response :=
  match x with ErrUserNotFound | ErrInvalidPassword => error_raw 400 | _ => error_raw 500 end.
Definition user_error (x : gorm_error) : http_response :=
  match x with ErrInvalidUUID => error_raw 409 | ErrForbidden | ErrUserAccessDenied => error_raw 403 | _ => error_raw 500 end.
Definition open_error (x : gorm_error) : http_response :=
  match x with ErrInvalidSession => error_raw 400 | ErrUserNotFound => error_raw 404 | _ => error_raw 500 end.
Definition sessions_error (x : gorm_error) : http_response :=
  match x with ErrInvalidUUID => error_raw 400 | _ => error_raw 500 end.
Definition messages_error (x : gorm_error) : http_response :=
  match x with ErrInvalidUUID => error_json 400 | _ => error_json 500 end.
Definition create_error (x : gorm_error) : http_response :=
  match x with ErrInvalidGroup => error_json 400 | ErrUserNotFound => error_json 404 | _ => error_json 500 end.
Definition action_error (x : gorm_error) : http_response :=
  match x with
  | ErrGroupNotFound | ErrUserNotFound => error_json 404
  | ErrGroupJoinForbidden | ErrGroupOwnerCannotLeave => error_json 403
  | ErrGroupJoinPending => error_json 202
  | _ => error_json 500
  end.
Definition approve_error (x : gorm_error) : http_response :=
  match x with ErrNotGroupAdmin => error_json 403 | ErrGroupNotFound => error_json 404 | _ => error_json 500 end.
Definition group_error (x : gorm_error) : http_response :=
  match x with ErrGroupNotFound => error_json 404 | _ => error_json 500 end.
Definition writeAISettingError (x : ai_error) : http_response :=
  match x with ErrInvalidSetting => error_json 400 | ErrAccessForbidden => error_json 403 | _ => error_json 500 end.
Definition failed500 {E} (_ : E) : http_response := error_json 500.

(** ** Controllers *)

Record ApproveGroupJoinRequest : Type := MkApprove { ApproveGroup : string; ApplicantID : string }.
Record CreateGroupRequest : Type := MkCreate { GroupName : string; GroupMode : Z }.

Section Controllers.
Context (bcrypt_generate : string → string → option string) (bcrypt_compare : string → string → bool).
Context (sign_token : string → Z → option string) (e : env) (user : context_user).

Definition register_fields (r : RegisterRequest) : list string := [RegTelephone r; RegPassword r; RegNickname r].
Definition Register_h (req : option RegisterRequest) : Handler :=
  match bound register_fields req with
  | None => reply (error_json 400)
  | Some r => answer (Register bcrypt_generate e r) (λ u, MkHttp 202 (BRegistered u)) register_error
  end.
Definition Login_h (req : option (string * string)) : Handler :=
  match bound (λ r, [r.1; r.2]) req with
  | None => reply (error_raw 400)
  | Some (telephone, password) =>
    answer (Login bcrypt_compare sign_token e telephone password) (λ l, MkHttp 200 (BLogin l)) login_error
  end.
Definition GetUserInfo_h (req : option string) : Handler :=
  match bound (λ id, [id]) req, user with
  | None, _ => reply (error_raw 400)
  | _, None => reply (MkHttp 403 BText)
  | Some _, Some any => answer (GetUserInfo e any) (λ u, MkHttp 200 (BUser u)) user_error
  end.
Definition OpenSession_h (req : option string) : Handler :=
  match bound (λ id, [id]) req, user with
  | None, _ => reply (error_raw 400)
  | _, None => reply (MkHttp 403 BText)
  | _, Some None => reply (MkHttp 500 BText)
  | Some peer, Some (Some id) => answer (OpenSession e id peer) (λ s, MkHttp 200 (BSession s)) open_error
  end.
Definition GetUserSessionList_h : Handler :=
  match user with
  | None => reply (error_json 401)
  | Some v =>
    match currentUser (Some v) with
    | None => reply (error_json 500)
    | Some id => answer (GetUserSessionList e id) (λ l, MkHttp 200 (BSessions l)) sessions_error
    end
  end.
Definition GetMessageList_h (req : option (string * string)) : Handler :=
  match bound (λ r, [r.1; r.2]) req with
  | None => reply (error_json 400)
  | Some (one, two) =>
    match currentUser user with
    | None => reply (error_json 401)
    | Some id =>
      if bool_decide (id ≠ one) && bool_decide (id ≠ two) then reply (error_json 403)
      else answer (GetMessageList e one two) (λ l, MkHttp 200 (BMessages l)) messages_error
    end
  end.
Definition CreateGroup_h (req : option CreateGroupRequest) : Handler :=
  match bound (λ r, [GroupName r]) req, currentUser user with
  | None, _ => reply (error_json 400)
  | _, None => reply (error_json 401)
  | Some r, Some id => answer (CreateGroup e id (GroupName r) [GroupMode r]) (λ g, MkHttp 201 (BGroup g)) create_error
  end.
Definition groupAction (join : bool) (req : option string) : Handler :=
  match bound (λ id, [id]) req, currentUser user with
  | None, _ => reply (error_json 400)
  | _, None => reply (error_json 401)
  | Some g, Some id => answer (if join then JoinGroup e id g else LeaveGroup e id g) (λ _, MkHttp 204 BEmpty) action_error
  end.
Definition ApproveGroupJoin_h (req : option ApproveGroupJoinRequest) : Handler :=
  match bound (λ r, [ApproveGroup r; ApplicantID r]) req, currentUser user with
  | None, _ => reply (error_json 400)
  | _, None => reply (error_json 401)
  | Some r, Some operator =>
    answer (ApproveGroupJoin e operator (ApplicantID r) (ApproveGroup r)) (λ _, MkHttp 204 BEmpty) approve_error
  end.
Definition GetGroupInfo_h (req : option string) : Handler :=
  match bound (λ id, [id]) req with
  | None => reply (error_json 400)
  | Some g => answer (GetGroup e g) (λ g, MkHttp 200 (BGroup g)) group_error
  end.
(** A controller that only needs its user. *)
Definition for_user {A} (m : string → Prog gorm_error A) (ok : A → http_body) : Handler :=
  match currentUser user with
  | None => reply (error_json 401)
  | Some id => answer (m id) (λ a, MkHttp 200 (ok a)) failed500
  end.
Definition GetJoinedGroupList_h : Handler := for_user (GetJoinedGroupList e) BGroups.
Definition GetOwnedGroupList_h : Handler := for_user (GetOwnedGroupList e) BGroups.
Definition GetGroupSessionList_h : Handler := for_user (GetGroupSessionList e) BSessions.
Definition GetContactUserList_h : Handler := for_user (GetContactUserList e) BUsers.
Definition GetGroupMessageList_h (req : option string) : Handler :=
  match bound (λ id, [id]) req, currentUser user with
  | None, _ => reply (error_json 400)
  | _, None => reply (error_json 401)
  | Some g, Some id => λ s,
    match GetGroup e g s with
    | (Err _, s) => (error_json 404, s)
    | (Ok group, s) =>
      if bool_decide (id ∈ response.Members group)
      then answer (GetGroupMessageList e id g) (λ l, MkHttp 200 (BMessages l)) failed500 s
      else (error_json 403, s)
    end
  end.
Definition GetAISetting_h : Handler :=
  match currentUser user with
  | None => reply (error_json 401)
  | Some id => answer (GetAISetting e id) (λ l, MkHttp 200 (BSetting l)) writeAISettingError
  end.
(** The member [allowed_session_uuids] may be absent or null: the inner [None]. *)
Definition ChangeAISetting_h (req : option (option (list string))) : Handler :=
  match currentUser user with
  | None => reply (error_json 401)
  | Some id =>
    match req with
    | Some (Some ids) => answer (ChangeAISetting e id ids) (λ l, MkHttp 200 (BSetting l)) writeAISettingError
    | _ => reply (error_json 400)
    end
  end.

(** A request with its decoded body. *)
Inductive api_request : Type :=
| ARegister (req : option RegisterRequest) | ALogin (req : option (string * string))
| AGetUserInfo (req : option string) | AOpenSession (req : option string) | ASessions
| AMessages (req : option (string * string)) | ACreateGroup (req : option CreateGroupRequest)
| AJoin (req : option string) | AApprove (req : option ApproveGroupJoinRequest) | ALeave (req : option string)
| AGroupInfo (req : option string) | AJoined | AOwned | AGroupMessages (req : option string)
| AGroupSessions | AContacts | AGetSetting | AChangeSetting (req : option (option (list string))).
Definition handler_of (r : api_request) : Handler :=
  match r with
  | ARegister req => Register_h req | ALogin req => Login_h req
  | AGetUserInfo req => GetUserInfo_h req | AOpenSession req => OpenSession_h req | ASessions => GetUserSessionList_h
  | AMessages req => GetMessageList_h req | ACreateGroup req => CreateGroup_h req
  | AJoin req => groupAction true req | AApprove req => ApproveGroupJoin_h req | ALeave req => groupAction false req
  | AGroupInfo req => GetGroupInfo_h req | AJoined => GetJoinedGroupList_h | AOwned => GetOwnedGroupList_h
  | AGroupMessages req => GetGroupMessageList_h req | AGroupSessions => GetGroupSessionList_h
  | AContacts => GetContactUserList_h | AGetSetting => GetAISetting_h | AChangeSetting req => ChangeAISetting_h req
  end.
End Controllers.

(** ** The structs of requests and responses ([dto], [gormservice.GroupResponse], [httpdocs.ErrorBody]) *)

Definition tagged (name json : string) (t : go_type) : go_field := MkGoField name true json "" "" t.
Definition must (name json : string) (t : go_type) : go_field := MkGoField name true json "required" "" t.
Definition param (name form : string) (t : go_type) : go_field := MkGoField name true "" "" form t.
Definition ErrorBody_fields : list go_field := [tagged "Error" "error" GString].
Definition RegisterRequest_fields : list go_field :=
  [must "Telephone" "telephone" GString; must "Password" "password" GString; must "Nickname" "nickname" GString].
Definition LoginRequest_fields : list go_field := [must "Telephone" "telephone" GString; must "Password" "password" GString].
Definition GetUserInfoRequest_fields : list go_field := [must "UUID" "uuid" GString].
Definition OpenSessionRequest_fields : list go_field := [must "PeerUUID" "peer_uuid" GString].
Definition GetMessageListRequest_fields : list go_field := [must "UserOneID" "user_one_id" GString; must "UserTwoID" "user_two_id" GString].
Definition CreateGroupRequest_fields : list go_field := [must "Name" "name" GString; tagged "AddMode" "add_mode" (GInt Int8)].
Definition GroupIDRequest_fields : list go_field := [must "GroupID" "group_id" GString].
Definition ApproveGroupJoinRequest_fields : list go_field := [must "GroupID" "group_id" GString; must "ApplicantID" "applicant_id" GString].
Definition ChangeAISettingRequest_fields : list go_field :=
  [tagged "AllowedSessionUUIDs" "allowed_session_uuids" (GPointer (GSlice GString))].
Definition RegisterResponse_fields : list go_field :=
  [tagged "UUID" "uuid" GString; tagged "Nickname" "nickname" GString; tagged "Telephone" "telephone" GString].
Definition LoginResponse_fields : list go_field :=
  [tagged "UUID" "uuid" GString; tagged "Nickname" "-" GString; tagged "Token" "token" GString].
Definition GetUserInfoResponse_fields : list go_field :=
  [tagged "UUID" "uuid" GString; tagged "Nickname" "nickname" GString; tagged "Telephone" "telephone" GString].
Definition OpenSessionResponse_fields : list go_field := [tagged "SessionUUID" "session_uuid" GString].
Definition UserSessionListResponse_fields : list go_field :=
  [tagged "SessionUUID" "session_uuid" GString; tagged "PeerUUID" "peer_uuid" GString].
Definition MessageResponse_fields : list go_field :=
  [tagged "UUID" "uuid" GString; tagged "SessionID" "session_id" GString; tagged "Type" "type" (GInt Int8);
   tagged "Content" "content" GString; tagged "Origin" "origin" (GInt Int8); tagged "SendID" "send_id" GString;
   tagged "ReceiveID" "receive_id" GString; tagged "CreatedAt" "created_at" GTime].
Definition GroupResponse_fields : list go_field :=
  [tagged "UUID" "group_id" GString; tagged "Name" "group_name" GString; tagged "OwnerID" "owner_id" GString;
   tagged "Members" "members" (GSlice GString); tagged "Admins" "admins" (GSlice GString);
   tagged "MemberCount" "member_count" (GInt Int); tagged "AddMode" "add_mode" (GInt Int8)].
Definition AISettingResponse_fields : list go_field :=
  [tagged "Sessions" "sessions" (GSlice (GStruct "response.AISettingSessionResponse"))].
Definition AISettingSessionResponse_fields : list go_field :=
  [tagged "SessionUUID" "session_uuid" GString; tagged "Peer" "peer" (GStruct "response.AISettingPeerResponse");
   tagged "AIAccessAllowed" "ai_access_allowed" GBool].
Definition AISettingPeerResponse_fields : list go_field := [tagged "UUID" "uuid" GString; tagged "Name" "name" GString].
Definition SyncQuery_fields : list go_field :=
  [param "ConversationID" "conversation_id" GString; param "Cursor" "cursor" GString; param "Limit" "limit" (GInt Int)].
Definition SyncPage_fields : list go_field :=
  [tagged "ConversationID" "conversation_id" GString; tagged "Messages" "messages" (GSlice (GStruct "im.Message"));
   tagged "NextCursor" "next_cursor" GString; tagged "HasMore" "has_more" GBool].
Definition Message_fields : list go_field :=
  [tagged "MessageID" "message_id" GString; tagged "ConversationID" "conversation_id" GString;
   tagged "SessionID" "session_id" GString; tagged "SendID" "send_id" GString; tagged "ReceiveID" "receive_id" GString;
   tagged "ReceiveType" "receive_type" GString; tagged "Type" "type" GString; tagged "Content" "content" GString;
   tagged "Origin" "origin" GString; tagged "CreatedAt" "created_at" GTime; tagged "Position" "position" GString].
Definition dto_structs : list (string * list go_field) :=
  [("httpdocs.ErrorBody", ErrorBody_fields);
   ("request.RegisterRequest", RegisterRequest_fields);
   ("request.LoginRequest", LoginRequest_fields);
   ("request.GetUserInfoRequest", GetUserInfoRequest_fields);
   ("request.OpenSessionRequest", OpenSessionRequest_fields);
   ("request.GetMessageListRequest", GetMessageListRequest_fields);
   ("request.CreateGroupRequest", CreateGroupRequest_fields);
   ("request.GroupIDRequest", GroupIDRequest_fields);
   ("request.ApproveGroupJoinRequest", ApproveGroupJoinRequest_fields);
   ("request.ChangeAISettingRequest", ChangeAISettingRequest_fields);
   ("response.RegisterResponse", RegisterResponse_fields);
   ("response.LoginResponse", LoginResponse_fields);
   ("response.GetUserInfoResponse", GetUserInfoResponse_fields);
   ("response.OpenSessionResponse", OpenSessionResponse_fields);
   ("response.UserSessionListResponse", UserSessionListResponse_fields);
   ("response.MessageResponse", MessageResponse_fields);
   ("gormservice.GroupResponse", GroupResponse_fields);
   ("response.AISettingResponse", AISettingResponse_fields);
   ("response.AISettingSessionResponse", AISettingSessionResponse_fields);
   ("response.AISettingPeerResponse", AISettingPeerResponse_fields);
   ("im.SyncQuery", SyncQuery_fields);
   ("im.SyncPage", SyncPage_fields);
   ("im.Message", Message_fields)].
Definition dto (name : string) : list go_field := default [] (snd <$> find (λ p, bool_decide (p.1 = name)) dto_structs).
(** The body of a response as a Go value; [zone] is the offset of the database's instants, [text]
    what the body says where that is free. *)
Section Values.
Context (zone : Z) (text : string).
Definition user_value (u : response.GetUserInfoResponse) : go_value :=
  VStruct [VString (response.UserUUID u); VString (response.Nickname u); VString (response.Telephone u)].
Definition message_value (m : response.MessageResponse) : go_value :=
  VStruct [VString (response.UUID m); VString (response.SessionID m); VInt (response.Type_ m); VString (response.Content m);
           VInt (response.Origin m); VString (response.SendID m); VString (response.ReceiveID m); VTime (Time (response.CreatedAt m) zone)].
Definition group_value (g : response.GroupResponse) : go_value :=
  VStruct [VString (response.GroupUUID g); VString (response.Name g); VString (response.OwnerID g);
           VList (VString <$> response.Members g); VList (VString <$> response.Admins g);
           VInt (response.MemberCount g); VInt (response.AddMode g)].
Definition session_value (s : response.UserSessionListResponse) : go_value :=
  VStruct [VString (response.SessionUUID s); VString (response.PeerUUID s)].
Definition setting_value (s : AISettingSessionResponse) : go_value :=
  VStruct [VString (SettingSession s); VStruct [VString (PeerId (Peer s)); VString (PeerNickname (Peer s))]; VBool (AIAccessAllowed s)].
Definition value_of (b : http_body) : go_value :=
  match b with
  | BEmpty | BRaw => VNilPointer
  | BError => VStruct [VString text]
  | BText => VString text
  | BRegistered u | BUser u => user_value u
  | BLogin l => VStruct [VString (LoginUUID l); VString (LoginNickname l); VString (LoginToken l)]
  | BUsers l => VList (user_value <$> l)
  | BSession id => VStruct [VString id]
  | BSessions l => VList (session_value <$> l)
  | BMessages l => VList (message_value <$> l)
  | BGroup g => group_value g
  | BGroups l => VList (group_value <$> l)
  | BSetting l => VStruct [VList (setting_value <$> l)]
  end.
End Values.

(** ** Routes ([route_catalog.go]) *)

Definition result_of (status : Z) (t : go_type) : Response := MkResponse status "" [t].
Definition empty (status : Z) : Response := MkResponse status "" [].
Definition errors (statuses : list Z) : list Response := (λ s, result_of s error_body) <$> statuses.
Definition route (method path id summary : string) (auth : bool) (request : option go_type) (ok : Response) (failures : list Response) : Route :=
  MkRouteDoc method path id summary auth request None [] [] (ok :: failures).
Definition legacyRoutes : list Route :=
  [route "POST" "/register" "register" "Register a user" false (Some (GStruct "request.RegisterRequest"))
     (result_of 202 (GStruct "response.RegisterResponse"))
     [MkResponse 400 "" [error_body; GRawError]; result_of 409 GRawError; result_of 502 GRawError];
   route "POST" "/login" "login" "Authenticate a user" false (Some (GStruct "request.LoginRequest"))
     (result_of 200 (GStruct "response.LoginResponse")) [result_of 400 GRawError; result_of 500 GRawError];
   route "POST" "/user/getUserInfo" "getUserInfo" "Read user information" true (Some (GStruct "request.GetUserInfoRequest"))
     (result_of 200 (GStruct "response.GetUserInfoResponse"))
     [result_of 400 GRawError; MkResponse 403 "" [GRawError; GString]; result_of 409 GRawError; result_of 500 GRawError];
   route "POST" "/session/openSession" "openSession" "Open a direct session" true (Some (GStruct "request.OpenSessionRequest"))
     (result_of 200 (GStruct "response.OpenSessionResponse"))
     [result_of 400 GRawError; result_of 403 GString; result_of 404 GRawError; MkResponse 500 "" [GRawError; GString]];
   route "POST" "/session/getUserSessionList" "getUserSessionList" "List direct sessions" true None
     (result_of 200 (GSlice (GStruct "response.UserSessionListResponse")))
     [result_of 400 GRawError; MkResponse 500 "" [GRawError; error_body]];
   route "POST" "/message/getMessageList" "getMessageList" "Read legacy direct message history as a bare array" true
     (Some (GStruct "request.GetMessageListRequest")) (result_of 200 (GSlice (GStruct "response.MessageResponse"))) (errors [400; 403; 500]);
   route "POST" "/group/create" "createGroup" "Create a group" true (Some (GStruct "request.CreateGroupRequest"))
     (result_of 201 (GStruct "gormservice.GroupResponse")) (errors [400; 404; 500]);
   route "POST" "/group/join" "joinGroup" "Join a group; 202 means approval is pending" true (Some (GStruct "request.GroupIDRequest"))
     (empty 204) (errors [202; 400; 403; 404; 500]);
   route "POST" "/group/join/approve" "approveGroupJoin" "Approve group membership" true (Some (GStruct "request.ApproveGroupJoinRequest"))
     (empty 204) (errors [400; 403; 404; 500]);
   route "POST" "/group/leave" "leaveGroup" "Leave a group" true (Some (GStruct "request.GroupIDRequest"))
     (empty 204) (errors [202; 400; 403; 404; 500]);
   route "POST" "/group/info" "getGroupInfo" "Read group information" true (Some (GStruct "request.GroupIDRequest"))
     (result_of 200 (GStruct "gormservice.GroupResponse")) (errors [400; 404; 500]);
   route "POST" "/group/list/joined" "getJoinedGroups" "List joined groups" true None
     (result_of 200 (GSlice (GStruct "gormservice.GroupResponse"))) (errors [500]);
   route "POST" "/group/list/owned" "getOwnedGroups" "List owned groups" true None
     (result_of 200 (GSlice (GStruct "gormservice.GroupResponse"))) (errors [500]);
   route "POST" "/group/message/list" "getGroupMessageList" "Read group message history as a bare array" true
     (Some (GStruct "request.GroupIDRequest")) (result_of 200 (GSlice (GStruct "response.MessageResponse"))) (errors [400; 403; 404; 500]);
   route "POST" "/session/getGroupSessionList" "getGroupSessionList" "List group sessions" true None
     (result_of 200 (GSlice (GStruct "response.UserSessionListResponse"))) (errors [500]);
   route "POST" "/contact/list/users" "getContacts" "List contact users" true None
     (result_of 200 (GSlice (GStruct "response.GetUserInfoResponse"))) (errors [500]);
   route "GET" "/api/v1/ai/setting" "getAISetting" "Read AI session access settings" true None
     (result_of 200 (GStruct "response.AISettingResponse")) (errors [400; 403; 500]);
   let r := route "PUT" "/api/v1/ai/setting" "changeAISetting"
              "Replace AI session access settings; an empty list revokes all access" true
              (Some (GStruct "request.ChangeAISettingRequest")) (result_of 200 (GStruct "response.AISettingResponse")) (errors [400; 403; 500]) in
   MkRouteDoc (Method r) (Path r) (ID r) (Summary r) (Authenticated r) (Request r) (Query r) ["allowed_session_uuids"] (QueryRules r) (Responses r)].
Definition sync_route : Route :=
  MkRouteDoc "GET" "/api/v2/messages/sync" "syncMessages" "Synchronize an authorized conversation using a bounded cursor page" true
    None (Some "im.SyncQuery") []
    [("conversation_id", [("required", ABool true); ("description", AString "Authorized direct:<session_uuid> or group:<group_uuid> conversation")]);
     ("cursor", [("description", AString "Opaque cursor bound to this conversation; omitted on the first page")]);
     ("limit", [("minimum", AInt 0); ("maximum", AInt 500); ("default", AInt 100);
                ("description", AString "Omitted or zero uses 100; otherwise 1–500")])]
    [result_of 200 (GStruct "im.SyncPage");
     MkResponse 400 "Invalid query, limit, cursor, or conversation" [error_body];
     MkResponse 403 "No access to this session or group" [error_body];
     MkResponse 503 "Database or dependency unavailable" [error_body]].
Definition LogicRoutes : list Route := (legacyRoutes ++ [sync_route])%list.
(** Each of the program's types needs at most this fuel. *)
Definition dto_fuel : nat := 20.

(** The place of a request in the catalog. *)
Definition operation (r : api_request) : string :=
  match r with
  | ARegister _ => "register" | ALogin _ => "login" | AGetUserInfo _ => "getUserInfo" | AOpenSession _ => "openSession"
  | ASessions => "getUserSessionList" | AMessages _ => "getMessageList" | ACreateGroup _ => "createGroup" | AJoin _ => "joinGroup"
  | AApprove _ => "approveGroupJoin" | ALeave _ => "leaveGroup" | AGroupInfo _ => "getGroupInfo" | AJoined => "getJoinedGroups"
  | AOwned => "getOwnedGroups" | AGroupMessages _ => "getGroupMessageList" | AGroupSessions => "getGroupSessionList"
  | AContacts => "getContacts" | AGetSetting => "getAISetting" | AChangeSetting _ => "changeAISetting"
  end.
Definition route_of (r : api_request) : option Route := find (λ d, bool_decide (ID d = operation r)) legacyRoutes.

(** ** The Bearer middleware ([auth_middleware.go], [auth/jwt.go]) *)

(** [strings.Fields]: the runs between spaces. *)
Fixpoint fields_from (current : list Z) (cs : list (bool * list Z)) : list (list Z) :=
  match cs with
  | [] => match current with [] => [] | _ => [current] end
  | (true, _) :: cs => match current with [] => fields_from [] cs | _ => current :: fields_from [] cs end
  | (false, b) :: cs => fields_from (current ++ b) cs
  end.
Definition Fields (s : string) : list string := of_bytes <$> fields_from [] (chunks_from (String.length s) (bytes s)).
(** [strings.EqualFold] with a word none of whose letters folds to anything but its other case. *)
Definition equal_fold_ascii (s t : string) : bool := bool_decide (lower_ascii s = lower_ascii t).

Section Middleware.
Context (jwt : string → (string → option string) → option (bool * claims)) (jwtKey : string).

Definition ParseJWT (raw : string) : option claims :=
  match jwt raw (λ method, if bool_decide (method = "HS256") then Some jwtKey else None) with
  | Some (valid, c) => if negb valid || bool_decide (UserUUID c = "") then None else Some c
  | None => None
  end.
(** The user of a request, or the response that ends it. *)
Definition Auth (header : string) : result http_response string :=
  if bool_decide (header = "") then Err (error_json 401)
  else match Fields header with
       | [scheme; raw] =>
         if negb (equal_fold_ascii scheme "Bearer") || bool_decide (raw = "") then Err (error_json 401)
         else match ParseJWT raw with Some c => Ok (UserUUID c) | None => Err (error_json 401) end
       | _ => Err (error_json 401)
       end.
Definition WsAuth (token header : string) : result http_response string :=
  let raw := trim_space token in
  let raw := if bool_decide (raw = "")
             then match Fields header with
                  | [scheme; raw] => if equal_fold_ascii scheme "Bearer" then raw else ""
                  | _ => ""
                  end
             else raw in
  if bool_decide (raw = "") then Err (error_json 401)
  else match ParseJWT raw with Some c => Ok (UserUUID c) | None => Err (error_json 401) end.

(** A mounted route: the middleware if the route is authenticated, then the controller. *)
Definition mount (d : Route) (h : context_user → Handler) (header : string) : Handler :=
  if Authenticated d
  then match Auth header with Ok user => h (Some (Some user)) | Err r => reply r end
  else h None.
Definition serve_api (bcrypt_generate : string → string → option string) (bcrypt_compare : string → string → bool)
    (sign_token : string → Z → option string) (e : env) (header : string) (r : api_request) : Handler :=
  match route_of r with
  | Some d => mount d (λ user, handler_of bcrypt_generate bcrypt_compare sign_token e user r) header
  | None => reply (MkHttp 404 BEmpty)
  end.
End Middleware.

(** [WsController] makes a client of the chat server for its user. *)
Definition WsController (user : context_user) : result http_response string :=
  match currentUser user with None => Err (error_json 401) | Some id => Ok id end.
