(* ===== verification/HttpApiProofs.v ===== *)
(** * What the business endpoints promise

    Every response is one the documentation of its route lists; what a request does is done in the
    name of the user of its token; histories are for participants. *)
From S2P Require Import Prelude GoStd GoTime GoText External Json JsonPrint LogicDispatch Samples MessageStore Schema SchemaProofs.
From S2P Require Import Tables TablesProofs GormService AiService Directory GroupProofs GroupService GroupExact GroupGuarantees HttpApi.
Local Open Scope Z_scope.

(** ** What a route documents *)

Definition documented (r : Route) (status : Z) (t : option go_type) : bool :=
  existsb (λ a, (Status a =? status)
                && match t with None => bool_decide (Bodies a = []) | Some t => bool_decide (t ∈ Bodies a) end) (Responses r)
  || (Authenticated r && (status =? 401) && bool_decide (t = Some error_body)).
(** The JSON of an error value that is written as it is: its exported fields, or those of each
    error of a validation. *)
Definition raw_error (j : json) : Prop :=
  match j with JObj _ => True | JArr l => Forall (λ x, ∃ ms, x = JObj ms) l | _ => False end.
(** [j] is what a body is written as; instants of the database are [zone] off UTC. *)
Definition writes (zone : Z) (b : http_body) (j : json) : Prop :=
  match b with
  | BEmpty => False
  | BRaw => raw_error j
  | _ => ∃ text t, type_of b = Some t ∧ marshal dto t (value_of zone text b) = Some j
  end.

Lemma dto_plain name : plain (dto name) = true.
Proof.
  unfold dto. destruct (find _ dto_structs) as [[n fs]|] eqn:Hf; [|done]. apply List.find_some in Hf as [Hin _]. cbn.
  assert (forallb (λ p, plain p.2) dto_structs = true) as Hall by (vm_compute; reflexivity).
  rewrite forallb_forall in Hall. by apply Hall in Hin.
Qed.
Lemma made_list {A} (f : A → go_value) l : (∀ a, made (f a) = true) → forallb made (f <$> l) = true.
Proof. intros Hf. apply forallb_forall. intros v Hv%list_elem_of_In. apply list_elem_of_fmap in Hv as (a&->&_). apply Hf. Qed.
Lemma value_made zone text b : made (value_of zone text b) = true.
Proof.
  assert (∀ g, made (group_value g) = true) as Hg.
  { intros g. cbn. rewrite !(made_list VString) by done. done. }
  destruct b; cbn; try done; try (by apply made_list); try apply Hg. by rewrite (made_list setting_value).
Qed.
Lemma writes_satisfies zone b t j fuel s :
  type_of b = Some t → schemaType dto fuel false [] t = Some (Ok s) → writes zone b j → validates s j = true.
Proof.
  intros Ht Hs Hw.
  assert (b ≠ BRaw → validates s j = true) as Hrest.
  { intros Hb. assert (∃ text u, type_of b = Some u ∧ marshal dto u (value_of zone text b) = Some j) as (text&u&Hu&Hj) by (by destruct b).
    rewrite Ht in Hu. injection Hu as <-. eapply (schema_sound dto dto_plain); [exact Hs|apply (value_made zone text)|exact Hj]. }
  destruct b; try (by apply Hrest). cbn in Ht. injection Ht as <-. destruct fuel; [done|]. injection Hs as <-. cbn in Hw.
  unfold raw_error_schema. rewrite validates_any. cbn [existsb]. rewrite validates_array. destruct j; try done.
  cbn [orb]. rewrite orb_false_r. apply orb_true_iff. right. apply forallb_forall. intros x Hx%list_elem_of_In.
  cbn in Hw. rewrite Forall_forall in Hw. by destruct (Hw x Hx) as [ms ->].
Qed.
Lemma writes_typed zone b j : writes zone b j → ∃ t, type_of b = Some t.
Proof. destruct b; [done|..]; intros _; by eexists. Qed.
(** What a route declares is in the document, with a schema that its bodies satisfy. *)
Lemma documented_entry zone doc d code b :
  Generate dto dto_fuel LogicRoutes = Some (Ok doc) → d ∈ LogicRoutes → documented d code (type_of b) = true →
  ∃ entry, at_path (response_path d code) doc = Some entry
    ∧ (b = BEmpty → content_of entry = None)
    ∧ ∀ j, writes zone b j → ∃ schema, content_of entry = Some schema ∧ validates schema j = true.
Proof.
  intros Hdoc Hd Hl. destruct (Generate_entries _ _ _ _ d Hdoc Hd) as [H1 H2].
  unfold documented in Hl. apply orb_true_iff in Hl as [Hl|Hl].
  - apply existsb_exists in Hl as (a&Ha%list_elem_of_In&Hl). apply andb_true_iff in Hl as [<-%Z.eqb_eq Hb].
    destruct (H1 a Ha) as (x&Hx&Hat).
    { right. assert (forallb (λ r, forallb (λ a, negb (bool_decide (format_int (Status a) = "401"))) (Responses r)) LogicRoutes = true) as Hno
        by (vm_compute; reflexivity).
      rewrite forallb_forall in Hno. specialize (Hno d). rewrite list_elem_of_In in Hd. apply Hno in Hd.
      rewrite forallb_forall in Hd. specialize (Hd a). rewrite list_elem_of_In in Ha. apply Hd in Ha.
      by apply negb_true_iff, bool_decide_eq_false in Ha. }
    exists x. split; [exact Hat|]. destruct (entry_accepts _ _ _ _ Hx) as [He1 He2]. clear Hdoc H1 H2 Hx. split.
    + intros ->. apply He1. by apply bool_decide_eq_true in Hb.
    + intros j Hj. destruct (writes_typed _ _ _ Hj) as [t Ht]. rewrite Ht in Hb. apply bool_decide_eq_true in Hb.
      destruct (He2 t Hb) as (s&st&Hs&Hst&Hv). exists s. split; [exact Hs|]. apply Hv. exact (writes_satisfies _ _ _ _ _ _ Ht Hst Hj).
  - apply andb_true_iff in Hl as [Hl Ht%bool_decide_eq_true]. apply andb_true_iff in Hl as [Ha ->%Z.eqb_eq].
    destruct (H2 Ha) as (x&Hx&Hat). exists x. split; [exact Hat|]. clear Hdoc H1 H2.
    unfold unauthorized in Hx. apply schema_bind_Ok in Hx as (s&Hs&Hx). injection Hx as <-. split; [by intros ->|]. intros j Hj.
    exists s. split; [reflexivity|]. unfold lift_schema, Schema in Hs.
    destruct (schemaType dto dto_fuel false [] error_body) as [[st|]|] eqn:Hst; [|discriminate Hs..].
    injection Hs as <-. exact (writes_satisfies _ _ _ _ _ _ Ht Hst Hj).
Qed.

Section Api.
Context (bcrypt_generate : string → string → option string) (bcrypt_compare : string → string → bool).
Context (sign_token : string → Z → option string) (e : env).
Context (jwt : string → (string → option string) → option (bool * claims)) (jwtKey : string).
#[local] Abbreviation handle := (handler_of bcrypt_generate bcrypt_compare sign_token e).
#[local] Abbreviation api := (serve_api jwt jwtKey bcrypt_generate bcrypt_compare sign_token e).
#[local] Abbreviation user_of := (Auth jwt jwtKey).

(** ** Responses *)

Definition lists (d : Route) (r : http_response) : Prop := documented d (status r) (type_of (body r)) = true.
Lemma answer_lists {E A} d (m : Prog E A) ok failed s :
  (∀ a, lists d (ok a)) → (∀ x, lists d (failed x)) → lists d (answer m ok failed s).1.
Proof. intros Ho Hf. unfold answer. destruct (m s) as [[a|x] s']; cbn; [apply Ho|apply Hf]. Qed.
Lemma reply_lists d r s : lists d r → lists d (reply r s).1.
Proof. done. Qed.
Lemma Auth_cases header : (∃ u, user_of header = Ok u ∧ u ≠ "") ∨ user_of header = Err (error_json 401).
Proof.
  unfold Auth. case_bool_decide; [by right|]. destruct (Fields header) as [|a [|b [|c l]]]; [by right|by right| |by right].
  destruct (_ || _); [by right|]. unfold ParseJWT. destruct (jwt b _) as [[v c]|]; [|by right].
  destruct (negb v || bool_decide (UserUUID c = "")) eqn:Hb; [by right|]. left. exists (UserUUID c). split; [done|].
  apply orb_false_iff in Hb as [_ Hb]. by apply bool_decide_eq_false in Hb.
Qed.
#[local] Ltac lists_step :=
  match goal with
  | |- lists _ (answer _ _ _ _).1 => apply answer_lists; [intros ?; vm_compute; reflexivity|intros []; vm_compute; reflexivity]
  | |- lists _ (reply _ _).1 => apply reply_lists; vm_compute; reflexivity
  | |- lists _ ((match ?x with _ => _ end) _).1 => destruct x
  end.
Lemma handler_lists r user d s : route_of r = Some d → (Authenticated d = false ∨ ∃ u, user = Some (Some u) ∧ u ≠ "") →
  lists d (handle user r s).1.
Proof.
  intros Hd Hu. assert (Authenticated d = true → ∃ u, user = Some (Some u) ∧ u ≠ "") as Ha by (intros Ha; destruct Hu; [congruence|done]).
  clear Hu. destruct r; vm_compute in Hd; injection Hd as <-; cbn [handler_of];
    try (destruct Ha as (u&->&Hu); [done|]; assert (currentUser (Some (Some u)) = Some u) as Hcur
      by (cbn; by rewrite bool_decide_false)).
  all: unfold Register_h, Login_h, GetUserInfo_h, OpenSession_h, GetUserSessionList_h, GetMessageList_h, CreateGroup_h, groupAction,
    ApproveGroupJoin_h, GetGroupInfo_h, GetJoinedGroupList_h, GetOwnedGroupList_h, GetGroupSessionList_h, GetContactUserList_h,
    for_user, GetAISetting_h, ChangeAISetting_h; try rewrite !Hcur.
  all: repeat lists_step.
  unfold GetGroupMessageList_h. rewrite Hcur. destruct (bound _ req) as [g|]; [|apply reply_lists; vm_compute; reflexivity].
  destruct (GetGroup e g s) as [[group|x] s1]; [|vm_compute; reflexivity]. case_bool_decide; [|vm_compute; reflexivity].
  repeat lists_step.
Qed.

(** C32: the generator describes the catalog of routes, and the description is true: whatever the
    database, the cache and the caller do, the document has an entry for the status of the
    response of a request, and whatever the body is written as satisfies the schema of that entry. *)
Theorem api_documented zone header r s :
  ∃ doc d, Generate dto dto_fuel LogicRoutes = Some (Ok doc) ∧ route_of r = Some d ∧
    let a := (api header r s).1 in
    ∃ entry, at_path (response_path d (status a)) doc = Some entry
      ∧ (body a = BEmpty → content_of entry = None)
      ∧ ∀ j, writes zone (body a) j → ∃ schema, content_of entry = Some schema ∧ validates schema j = true.
Proof.
  destruct (Generate dto dto_fuel LogicRoutes) as [[doc|x]|] eqn:Hdoc; [|vm_compute in Hdoc; discriminate..].
  assert (∃ d, route_of r = Some d) as [d Hd] by (destruct r; by eexists). exists doc, d. split; [done|]. split; [done|].
  apply documented_entry; [done| |].
  { apply elem_of_app. left. unfold route_of in Hd. apply List.find_some in Hd as [Hd _]. by apply list_elem_of_In. }
  change (lists d (api header r s).1).
  unfold serve_api. rewrite Hd. unfold mount. destruct (Authenticated d) eqn:Ha; [|by apply handler_lists; [|left]].
  destruct (Auth_cases header) as [(u&->&Hu)| ->]; [by apply handler_lists; [|right; eauto]|].
  apply reply_lists. unfold lists, documented. rewrite Ha. cbn. by rewrite orb_true_r.
Qed.

(** ** In whose name *)

(** What a request asks of the services. *)
Inductive action : Type := Asks (q : request) | ReadsSetting (user : string) | ChangesSetting (user : string) (ids : list string).
Definition perform (a : action) (s : store) : store :=
  match a with
  | Asks q => (serve bcrypt_generate bcrypt_compare sign_token e q s).2
  | ReadsSetting u => (GetAISetting e u s).2
  | ChangesSetting u ids => (ChangeAISetting e u ids s).2
  end.
(** Registration and login have no user; every other action is one of the user. *)
Definition in_name (user : option string) (a : action) : Prop :=
  match a with
  | Asks (RRegister _) | Asks (RLogin _ _) => True
  | Asks (RGetGroup _) => is_Some user
  | Asks (RGetUserInfo v) => user = v ∧ is_Some user
  | Asks (RContacts v) | Asks (ROpenSession v _) | Asks (RSessions v) | Asks (RGroupSessions v) | Asks (RCreateGroup v _ _)
  | Asks (RJoined v) | Asks (ROwned v) | Asks (RJoin v _) | Asks (RLeave v _) | Asks (RApprove v _ _) | Asks (RGroupMessages v _)
  | ReadsSetting v | ChangesSetting v _ => user = Some v
  | Asks (RMessages v w) => user = Some v ∨ user = Some w
  | _ => False
  end.
Lemma answer_store {E A} (m : Prog E A) ok failed s : (answer m ok failed s).2 = (m s).2.
Proof. unfold answer. by destruct (m s) as [[a|x] s']. Qed.
Lemma run_store {A} (m : Prog gorm_error A) s : (run m s).2 = (m s).2.
Proof. unfold run. rewrite bind_run. by destruct (m s) as [[a|x] s']. Qed.
Lemma created_store {A B} (m : Prog gorm_error A) (f : A → B) s : ((x ← m; mret (f x)) s).2 = (m s).2.
Proof. rewrite bind_run. by destruct (m s) as [[a|x] s']. Qed.
Lemma one_action user a s s' : s' = perform a s → in_name user a →
  ∃ acts, s' = foldl (λ s a, perform a s) s acts ∧ Forall (in_name user) acts.
Proof. intros -> Ha. exists [a]. split; [done|]. by constructor. Qed.
Lemma no_action user (s : store) : ∃ acts, s = foldl (λ s a, perform a s) s acts ∧ Forall (in_name user) acts.
Proof. exists []. by split. Qed.
#[local] Ltac acts_step :=
  match goal with
  | |- ∃ _, (reply _ _).2 = _ ∧ _ => apply no_action
  | |- ∃ _, ((match ?x with _ => _ end) _).2 = _ ∧ _ => destruct x
  end.
#[local] Ltac acts a := eapply (one_action _ a); [rewrite answer_store; cbn [perform serve]; rewrite ?run_store, ?created_store; reflexivity|cbn; auto].
Lemma handler_acts r user s : (∃ d, route_of r = Some d ∧ Authenticated d = true) → user ≠ "" →
  ∃ acts, (handle (Some (Some user)) r s).2 = foldl (λ s a, perform a s) s acts ∧ Forall (in_name (Some user)) acts.
Proof.
  intros (d&Hd&Ha) Hu. assert (currentUser (Some (Some user)) = Some user) as Hcur by (cbn; by rewrite bool_decide_false).
  destruct r; vm_compute in Hd; injection Hd as <-; try done; clear Ha; cbn [handler_of];
    unfold GetUserInfo_h, OpenSession_h, GetUserSessionList_h, GetMessageList_h, CreateGroup_h, groupAction, ApproveGroupJoin_h,
    GetGroupInfo_h, GetJoinedGroupList_h, GetOwnedGroupList_h, GetGroupSessionList_h, GetContactUserList_h,
    for_user, GetAISetting_h, ChangeAISetting_h; rewrite ?Hcur.
  - destruct (bound _ req); [|acts_step]. acts (Asks (RGetUserInfo (Some user))).
  - destruct (bound _ req) as [peer|]; [|acts_step]. acts (Asks (ROpenSession user peer)).
  - acts (Asks (RSessions user)).
  - destruct (bound _ req) as [[one two]|]; [|acts_step]. destruct (_ && _) eqn:Hp; [acts_step|]. acts (Asks (RMessages one two)).
    apply andb_false_iff in Hp. rewrite !bool_decide_eq_false in Hp. destruct Hp as [Hp|Hp]; apply dec_stable in Hp; subst; auto.
  - destruct (bound _ req) as [q|]; [|acts_step]. acts (Asks (RCreateGroup user (GroupName q) [GroupMode q])).
  - destruct (bound _ req) as [g|]; [|acts_step]. acts (Asks (RJoin user g)).
  - destruct (bound _ req) as [q|]; [|acts_step]. acts (Asks (RApprove user (ApplicantID q) (ApproveGroup q))).
  - destruct (bound _ req) as [g|]; [|acts_step]. acts (Asks (RLeave user g)).
  - destruct (bound _ req) as [g|]; [|acts_step]. acts (Asks (RGetGroup g)).
  - acts (Asks (RJoined user)).
  - acts (Asks (ROwned user)).
  - unfold GetGroupMessageList_h. rewrite Hcur. destruct (bound _ req) as [g|]; [|acts_step].
    assert (perform (Asks (RGetGroup g)) s = (GetGroup e g s).2) as Hg by (cbn; by rewrite run_store).
    destruct (GetGroup e g s) as [[group|x] s1]; cbn [snd] in Hg.
    + case_bool_decide.
      * exists [Asks (RGetGroup g); Asks (RGroupMessages user g)]. cbn [foldl]. rewrite Hg, answer_store. cbn [perform serve].
        rewrite run_store. split; [done|]. repeat constructor. by eexists.
      * eapply (one_action _ (Asks (RGetGroup g))); [by rewrite Hg|by eexists].
    + eapply (one_action _ (Asks (RGetGroup g))); [by rewrite Hg|by eexists].
  - acts (Asks (RGroupSessions user)).
  - acts (Asks (RContacts user)).
  - acts (ReadsSetting user).
  - destruct req as [[ids|]|]; [|acts_step..]. acts (ChangesSetting user ids).
Qed.

Lemma public_acts r s : (∃ d, route_of r = Some d ∧ Authenticated d = false) →
  ∃ acts, (handle None r s).2 = foldl (λ s a, perform a s) s acts ∧ Forall (in_name None) acts.
Proof.
  intros (d&Hd&Ha). destruct r; vm_compute in Hd; injection Hd as <-; try done; cbn [handler_of]; unfold Register_h, Login_h.
  - destruct (bound _ req) as [q|]; [|acts_step]. acts (Asks (RRegister q)).
  - destruct (bound _ req) as [[t p]|]; [|acts_step]. acts (Asks (RLogin t p)).
Qed.

(** C31: a request on an authenticated route without an accepted token is answered 401 and reads
    and changes nothing; with one, what it does is a sequence of service requests made for the
    user the token names; the other routes only register and log in. *)
Theorem api_acts_for_user header r s :
  ∃ d, route_of r = Some d ∧
    match (if Authenticated d then user_of header else Ok "") with
    | Err _ => api header r s = (error_json 401, s)
    | Ok u =>
      let user := if Authenticated d then Some u else None in
      (Authenticated d = true → u ≠ "" ∧ ∃ raw c, Fields header ≠ [] ∧ ParseJWT jwt jwtKey raw = Some c ∧ UserUUID c = u)
      ∧ ∃ acts, (api header r s).2 = foldl (λ s a, perform a s) s acts ∧ Forall (in_name user) acts
    end.
Proof.
  assert (∃ d, route_of r = Some d) as [d Hd] by (destruct r; by eexists). exists d. split; [done|].
  unfold serve_api. rewrite Hd. unfold mount. destruct (Authenticated d) eqn:Ha.
  2: { split; [done|]. apply public_acts. eauto. }
  destruct (Auth_cases header) as [(u&Hh&Hu)| ->]; [|done]. rewrite Hh. split; [|by apply handler_acts; eauto].
  intros _. split; [done|]. unfold Auth in Hh. case_bool_decide; [done|]. destruct (Fields header) as [|a [|b [|? ?]]]; try done.
  destruct (_ || _); [done|]. destruct (ParseJWT jwt jwtKey b) as [c|] eqn:Hp; [|done]. injection Hh as <-. by exists b, c.
Qed.

(** ** Histories *)

Section Private.
Context `{External, !ExternalLaws _} (Hq : quiet e).

Lemma GetJSON_answers {E A} (as_ : cached → option A) k s : ∃ x, (GetJSON (E := E) e as_ k s).1 = Ok x.
Proof.
  destruct (GetJSON_quiet e Hq (E := E) as_ k s) as [_ Hj]. destruct (redis s) as [c|]; [|by destruct Hj as [-> _]; eauto].
  destruct (c !! k) as [v|]; [|by destruct Hj as [-> _]; eauto]. by destruct (as_ v); destruct Hj as [-> _]; eauto.
Qed.
Lemma GetGroupMessageList_answers s D u g : view s D → member D u g → ∃ l, (GetGroupMessageList e u g s).1 = Ok l.
Proof.
  intros Hv (G&HG&Hu). assert (g ≠ "") as Hg by (intros ->; by apply (rep_ids _ _ (view_db _ _ Hv)) in HG).
  unfold GetGroupMessageList. rewrite bind_run. destruct (GetGroup_exact e Hq s D g Hv Hg) as [H1 _].
  destruct (GetGroup e g s) as [r s1]. cbn [fst] in H1. rewrite HG in H1. subst r. rewrite check_run, containsID_spec.
  rewrite bool_decide_true by done. rewrite bind_run.
  destruct (GetJSON_answers (E := gorm_error) as_messages (GroupMessageListKey g) s1) as [x Hx].
  destruct (GetJSON e _ _ s1) as [y s2]. cbn [fst] in Hx. subst y. destruct x as [l|]; [by eexists|].
  unfold getGroupMessageList. rewrite bind_run, check_run, bool_decide_true by done. rewrite bind_run, or_fail_run, (query_quiet e Hq).
  cbn [db redis ops]. cbn. destruct (SetJSON_quiet e Hq (E := gorm_error) (GroupMessageListKey g)
    (CArray (IMessage <$> (message_response <$> order_by model.MessageCreatedAt (List.filter (λ m, bool_decide (model.ReceiveId m = g)) (messages (db s2))))))
    (Store (db s2) (redis s2) (S (ops s2)))) as (_&_&r&Hr).
  rewrite !bind_run. destruct (SetJSON e _ _ _) as [z s3]. cbn [fst] in Hr. subst z. by eexists.
Qed.

Lemma api_handle header r u s : (∃ d, route_of r = Some d ∧ Authenticated d = true) → user_of header = Ok u →
  api header r s = handle (Some (Some u)) r s.
Proof. intros (d&Hd&Ha) Hh. unfold serve_api. rewrite Hd. unfold mount. by rewrite Ha, Hh. Qed.
Lemma group_messages_status s D u g : view s D → u ≠ "" →
  let r := (GetGroupMessageList_h e (Some (Some u)) (Some g) s).1 in
  (status r = 200 ↔ member D u g) ∧ (¬ member D u g → d_groups D !! g ≠ None → r = error_json 403).
Proof.
  intros Hv Hu. unfold GetGroupMessageList_h. cbn [currentUser]. rewrite bool_decide_false by done. cbn [bound mbind option_bind].
  assert (∀ G, d_groups D !! g = Some G → g ≠ "") as Hid.
  { intros G HG Hz. pose proof (rep_ids _ _ (view_db _ _ Hv) g G HG) as Hi. by rewrite Hz in Hi. }
  case_bool_decide as Hb.
  { apply list_elem_of_singleton in Hb. assert (d_groups D !! g = None) as Hn.
    { apply eq_None_not_Some. intros [G HG]. by destruct (Hid G HG). }
    split; [|done]. cbn. split; [done|]. intros (G&HG&_). congruence. }
  assert (g ≠ "") as Hg by (intros ->; by destruct Hb; left).
  destruct (GetGroup_exact e Hq s D g Hv Hg) as [H1 H2].
  destruct (GetGroup e g s) as [r s1] eqn:Hr. cbn [fst snd] in H1, H2. subst r.
  destruct (d_groups D !! g) as [G|] eqn:HG.
  2: { cbn. split; [split; [done|]|done]. intros (G&HG'&_). congruence. }
  cbn [response.Members group_view]. case_bool_decide as Hm.
  - assert (member D u g) as Hmem by (by exists G). destruct (GetGroupMessageList_answers s1 D u g H2 Hmem) as [l Hl].
    unfold answer. destruct (GetGroupMessageList e u g s1) as [r s2]. cbn [fst] in Hl. subst r. cbn. done.
  - assert (¬ member D u g) as Hmem by (intros (G'&HG'&Hin); rewrite HG in HG'; injection HG' as <-; done). cbn. done.
Qed.

(** C30: on a healthy database a user reads the messages of a group exactly when a member of it, a
    stranger to a group that exists is refused with 403, and whatever happens nobody reads the
    messages of two other users. *)
Theorem histories_private header s D u g one two :
  view s D → user_of header = Ok u →
  let group := (api header (AGroupMessages (Some g)) s).1 in
  let direct := (api header (AMessages (Some (one, two))) s).1 in
  (status group = 200 ↔ member D u g)
  ∧ (¬ member D u g → d_groups D !! g ≠ None → group = error_json 403)
  ∧ (status direct = 200 → u = one ∨ u = two).
Proof.
  intros Hv Hh. assert (u ≠ "") as Hu by (destruct (Auth_cases header) as [(v&Hv'&?)|Hv']; rewrite Hh in Hv'; [by injection Hv' as ->|done]).
  cbn zeta. rewrite !(api_handle header _ u) by (done || by eexists). cbn [handler_of].
  destruct (group_messages_status s D u g Hv Hu) as [H1 H2]. split; [exact H1|]. split; [exact H2|].
  unfold GetMessageList_h. destruct (bound _ _) as [[a b]|] eqn:Hb; [|done].
  assert (a = one ∧ b = two) as [-> ->] by (cbn in Hb; case_bool_decide; [done|]; by injection Hb).
  cbn [currentUser]. rewrite (bool_decide_false (u = "")) by done. destruct (_ && _) eqn:Hp; [done|]. intros _.
  apply andb_false_iff in Hp. rewrite !bool_decide_eq_false in Hp. destruct Hp as [Hp|Hp]; apply dec_stable in Hp; auto.
Qed.
End Private.
End Api.

(** ** A concrete caller *)

(** Tokens that are the id of their user. *)
Definition open_jwt (raw : string) (key : string → option string) : option (bool * claims) :=
  match key "HS256" with Some _ => Some (true, MkClaims raw 0) | None => None end.
Lemma histories_private_witness :
  status (serve_api open_jwt "key" (λ _ p, Some p) String.eqb (λ u _, Some u) (sample_env (λ _, Answered))
            ("bearer  " +:+ user1) (AGroupMessages (Some group1)) sample_store).1 = 200
  ∧ (serve_api open_jwt "key" (λ _ p, Some p) String.eqb (λ u _, Some u) (sample_env (λ _, Answered))
            ("Bearer " +:+ user2) (AGroupMessages (Some group1)) sample_store).1 = error_json 403.
Proof.
  assert (d_groups sample_directory !! group1 = Some (Grp "club" user1 [user1] 0)) as HG by by vm_compute.
  split.
  - apply (@histories_private (λ _ p, Some p) String.eqb (λ u _, Some u) (sample_env (λ _, Answered)) open_jwt "key"
      Reference.external Reference.external_laws sample_quiet ("bearer  " +:+ user1) sample_store sample_directory user1 group1 "" "");
      [apply sample_view|by vm_compute|]. eexists. split; [exact HG|]. by apply list_elem_of_singleton.
  - apply (@histories_private (λ _ p, Some p) String.eqb (λ u _, Some u) (sample_env (λ _, Answered)) open_jwt "key"
      Reference.external Reference.external_laws sample_quiet ("Bearer " +:+ user2) sample_store sample_directory user2 group1 "" "");
      [apply sample_view|by vm_compute| |by rewrite HG].
    intros (G&HG'&Hin). rewrite HG in HG'. injection HG' as <-. by apply list_elem_of_singleton in Hin.
Defined.
