(* ===== verification/Mcp.v ===== *)
(** * The tools of the assistant: [internal/mcpserver]

    What the four tools ask of the services and how they answer.  Authentication of the transport
    is the library's: a tool gets the user of the token, empty when there is none. *)
From S2P Require Import Prelude GoStd GoTime GoText JsonPrint Dto LogicDispatch CometFrames Tables GormService AiService ChatServer HttpApi.
Local Open Scope Z_scope.

(** ** Contract ([contract]) *)

Record UserSummary : Type := MkSummary { SummaryUUID : string; SummaryName : string }.
Record ToolMessage : Type := MkToolMessage {
  ToolMessageUUID : string; ToolSession : string; ToolSender : UserSummary; ToolType : Z; ToolContent : string;
  ToolOrigin : Z; ToolCreatedAt : string
}.
Record ToolSessionView : Type := MkToolSession { ToolSessionUUID : string; ToolPeer : UserSummary; ToolSessionCreatedAt : string }.
Record GetRecentMessagesOutput : Type := MkRecent { RecentSession : string; RecentMessages : list ToolMessage; RecentHasMore : bool }.

(** The texts a tool answers instead of an error. *)
Inductive tool_error : Type := NoUser | SessionRequired | InvalidInput | SessionUnavailable | PaginationNotFound | Unavailable.
Definition safeToolError (x : ai_error) : tool_error :=
  match x with
  | ErrInvalidToolInput => InvalidInput
  | ErrAccessForbidden => SessionUnavailable
  | ErrMessageNotFound => PaginationNotFound
  | _ => Unavailable
  end.

(** [Format(time.RFC3339Nano)]: total, and the text of JSON for the years that has one. *)
Definition format_time (t : time) : string := match print_time_bytes t with Some l => of_bytes l | None => "" end.

(** [newTokenVerifier]: the user of an accepted token and its end. *)
Definition newTokenVerifier (jwt : string → (string → option string) → option (bool * claims)) (secret raw : string)
  : option (string * Z) :=
  c ← ParseJWT jwt secret raw; Some (UserUUID c, ExpiresAt c).

Section Tools.
(** [like] is the [LIKE] of the database, [zone] the offset of its instants. *)
Context (like : string → string → bool) (zone : Z) (e : env) (user : string).
#[local] Abbreviation M := (Prog tool_error).

Definition safe {A} (m : Prog ai_error A) : M A := λ s,
  match m s with (Ok a, s) => (Ok a, s) | (Err x, s) => (Err (safeToolError x), s) end.
Definition authenticatedUserUUID : M string := if bool_decide (user = "") then fail NoUser else mret user.
Definition validateSessionUUID (session : string) : M unit := check (negb (bool_decide (session = ""))) SessionRequired.

Definition mapMessage (m : AIMessage) : ToolMessage :=
  MkToolMessage (AiUUID m) (AiSession m) (MkSummary (SenderUUID m) (SenderName m)) (AiType m) (AiContent m) (AiOrigin m)
    (format_time (Time (AiCreatedAt m) zone)).
Definition session_view (s : AllowedSession) : ToolSessionView :=
  MkToolSession (AllowedUUID s) (MkSummary (PeerUUID s) (PeerName s)) (format_time (Time (AllowedCreatedAt s) zone)).

Definition ListSessions_tool (limit : Z) : M (list ToolSessionView) :=
  (id ← authenticatedUserUUID;
   sessions ← safe (ListAllowedSessions e id limit);
   mret (session_view <$> sessions)).
Definition GetRecentMessages_tool (session before : string) (limit : Z) : M GetRecentMessagesOutput :=
  (id ← authenticatedUserUUID;
   validateSessionUUID session;;
   page ← safe (GetRecentMessages e id session before limit);
   mret (MkRecent session (mapMessage <$> PageMessages page) (HasMore page))).
Definition SearchMessages_tool (queryText session : string) (limit : Z) : M (list ToolMessage) :=
  (id ← authenticatedUserUUID;
   ms ← safe (SearchMessages like e id queryText session limit);
   mret (mapMessage <$> ms)).
(** The message, and the requests for the chat server: the receiver's and the sender's. *)
Definition SendMessage_tool (session content : string) : M (ToolMessage * list routeRequest) :=
  (id ← authenticatedUserUUID;
   validateSessionUUID session;;
   created ← safe (SendMessage e id session content);
   let realtime := wschat.MkMessage (SenderUUID created) (ReceiverUUID created) (AiContent created) (AiOrigin created) 0 in
   mret (mapMessage created, omap (λ u, RouteTo u realtime) [ReceiverUUID created; SenderUUID created])).
(** A bound backend ([RegisterWithSend]) sends instead. *)
Definition bound_send {A} (backend : string → string → string → string → Prog ai_error A) (session client content : string) : M A :=
  (id ← authenticatedUserUUID;
   safe (backend id session client content)).
End Tools.
