(* ===== verification/LogicHttp.v ===== *)
(** * The HTTP side of Logic: [internal/logic/http.go], and what it observes of calls
      ([observability.go])

    The synchronisation endpoint, the backend of the assistant's send tool, the probes, the
    interceptor of the internal RPC with its counters, and the correlation fields of logs; and
    their theorems: the interceptor changes no call and counts each once, every task that is
    dispatched can be named in a log, the synchronisation endpoint answers as documented, and the
    send tool hides no commit. *)
From S2P Require Import Prelude GoStd GoTime External Dto JsonPrint MessageStore RoutingStore KafkaPush CometRpc LogicDispatch LogicService.
From S2P Require Import Schema Tables GormService AiService HttpApi HttpApiProofs Mcp.
Local Open Scope Z_scope.

(** ** Probes *)

Record DependencyStatus : Type := MkStatus { StatusDatabase : bool; StatusRoutes : bool; StatusPush : bool }.
Definition Ready (s : DependencyStatus) : bool := StatusDatabase s && StatusRoutes s && StatusPush s.
Definition readyz (probe : option DependencyStatus) : Z * DependencyStatus :=
  let state := default (MkStatus false false false) probe in
  (if Ready state then 200 else 503, state).

(** ** Synchronisation *)

Inductive sync_response : Type := SyncAnswer (page : SyncPage) | SyncRefused (status : Z).
Definition sync_status (x : MessageStore.store_error) : Z :=
  match x with MessageStore.ErrInvalid => 400 | MessageStore.ErrForbidden => 403 | _ => 503 end.
(** [limit] is the text of the query, empty when absent; [sync] is [messages.Sync]. *)
Definition sync_handler {W} (sync : string → string → string → Z → W → result MessageStore.store_error SyncPage * W)
    (user conversation cursor limit : string) (w : W) : sync_response * W :=
  match (if bool_decide (limit = "") then Some 0 else atoi limit) with
  | None => (SyncRefused 400, w)
  | Some n =>
    if (n <? 0) || (500 <? n) then (SyncRefused 400, w)
    else match sync user conversation cursor n w with
         | (Ok page, w) => (SyncAnswer page, w)
         | (Err x, w) => (SyncRefused (sync_status x), w)
         end
  end.

(** ** The backend of the send tool *)

Definition dispatchState (d : Z) : string :=
  if d =? pb.DISPATCH_STATE_QUEUED then im.DispatchQueued
  else if d =? pb.DISPATCH_STATE_NOT_QUEUED then im.DispatchNotQueued
  else im.DispatchUnknown.
Record SendMessageOutput : Type := MkSendOutput { OutResult : im.SendResult; OutMessage : ToolMessage }.
(** The instant of a message view, the epoch when it has none. *)
Definition view_time (m : pb.MessageView) : time := Time (as_ns (default (timestamp_of_ns 0) (pb.CreatedAt m))) 0.
Definition send_output (name : string) (r : SendResult) : SendMessageOutput :=
  let m := ResultMessage r in
  MkSendOutput
    (im.MkSendResult (ClientMessageId r) (Stored r) (publicMessage m) (dispatchState (Dispatch r)) (ResultReplayed r))
    (MkToolMessage (pb.MessageId m) (pb.SessionId m) (MkSummary (pb.SenderId m) name) 0 (pb.Content m) 1 (format_time (view_time m))).
Definition send_error (x : service_error) : ai_error :=
  match x with
  | FromMessages MessageStore.ErrInvalid | FromMessages MessageStore.ErrConflict => ErrInvalidToolInput
  | FromMessages MessageStore.ErrForbidden => ErrAccessForbidden
  | _ => ErrAiDatabase
  end.

Section Backend.
Context `{External} {W : Type} (env : logic_env W) (svc : Service).
(** The row of the sender: its nickname. *)
Context (find_sender : string → W → result db_error string * W).
#[local] Abbreviation M := (ST (logic_state W)).

Definition send_backend (has_db : bool) (user session client content : string) : M (result ai_error SendMessageOutput) :=
  if negb has_db then mret (Err ErrAiDatabase)
  else
    (sender ← on_world (find_sender user);
     match sender with
     | Err RecordNotFound => mret (Err ErrAccessForbidden)
     | Err DbFailed => mret (Err ErrAiDatabase)
     | Ok name =>
       r ← SendAI env svc user session client content;
       mret (match r with Ok result => Ok (send_output name result) | Err x => Err (send_error x) end)
     end).
End Backend.

(** ** Logs and counters of calls *)

(** The fields of a log line; durations are left out. *)
Definition task_field (messageID taskID : string) : list (string * string) :=
  match cut_prefix ("push:v1:" +:+ messageID +:+ ":") taskID with
  | Some index =>
    match parse_uint 32 index with
    | Some n => if bool_decide (format_uint n = index) then [("task_id", taskID)] else []
    | None => []
    end
  | None => []
  end.
Definition logEvent `{External} (requestID messageID taskID : string) (fields : list (string * string)) : list (string * string) :=
  fields
  ++ (if bool_decide (requestID ≠ "") && LogicService.validRequestID requestID then [("request_id", requestID)] else [])
  ++ (if LogicService.validID messageID "M" then ("message_id", messageID) :: task_field messageID taskID else []).

Definition rpcMethods : list string :=
  ["RegisterComet"; "RenewComet"; "UnregisterComet"; "Connect"; "Heartbeat"; "Disconnect"; "SubmitMessage"; "LookupRoutes"; "ResolveComets"].
Definition rpcFullMethods : list string := (λ m, "/fable.v1.LogicService/" +:+ m) <$> rpcMethods.
Definition code_names : list string :=
  ["OK"; "Canceled"; "Unknown"; "InvalidArgument"; "DeadlineExceeded"; "NotFound"; "AlreadyExists"; "PermissionDenied";
   "ResourceExhausted"; "FailedPrecondition"; "Aborted"; "OutOfRange"; "Unimplemented"; "Internal"; "Unavailable"; "DataLoss";
   "Unauthenticated"].

(** The counters by method and code, and the lines written. *)
Record observation : Type := MkObservation {
  rpc : nat → Z → Z; rpcNanoseconds : nat → Z; rpcCount : nat → Z; routeFailures : nat → Z; lines : list (list (string * string))
}.
Definition add64 (f : nat → Z) (k : nat) (n : Z) : nat → Z := λ k', if bool_decide (k' = k) then (f k + n) mod 2 ^ 64 else f k'.
Definition find_method (full : string) : option nat := fst <$> list_find (full =.) rpcFullMethods.

Section Interceptor.
Context `{External} {W A : Type}.
(** [handler] answers a response and the code of its error, [None] for no error; [request_id] and
    [message_id] are what the request and the response carry, [elapsed] is the time it took. *)
Definition UnaryInterceptor (full request_id : string) (message_id : A → string) (handler : W → (A * option Z) * W) (elapsed : Z)
    (enabled : bool) (w : W) (o : observation) : (A * option Z) * W * observation :=
  match find_method full, enabled with
  | Some method, true =>
    let '((response, err), w) := handler w in
    let code := default 0 err in
    let code := if 16 <? code then 2 else code in
    let line := logEvent request_id (message_id response) ""
                  [("method", default "" (rpcMethods !! method)); ("code", default "" (code_names !! Z.to_nat code))] in
    (response, err, w,
     MkObservation
       (λ m c, if bool_decide (m = method) && (c =? code) then (rpc o m c + 1) mod 2 ^ 64 else rpc o m c)
       (add64 (rpcNanoseconds o) method (Z.max elapsed 0)) (add64 (rpcCount o) method 1)
       (if bool_decide (method < 6)%nat && bool_decide (err ≠ None) then add64 (routeFailures o) method 1 else routeFailures o)
       (lines o ++ [line]))
  | _, _ => (handler w, o)
  end.
End Interceptor.

(** ** The interceptor *)

Section Interceptor.
Context `{External} {W A : Type}.

(** An interceptor that observes is invisible to the call; a declared method is counted once under
    its code, and as a failed route exactly when one of the six route methods failed. *)
Theorem interceptor_transparent full request_id (message_id : A → string) handler elapsed enabled (w : W) o :
  let r := UnaryInterceptor full request_id message_id handler elapsed enabled w o in
  r.1 = handler w
  ∧ match find_method full with
    | Some m =>
      if enabled : bool then
        let code := default 0 (handler w).1.2 in
        let code := if 16 <? code then 2 else code in
        (∀ m' c, rpc r.2 m' c = if bool_decide (m' = m ∧ c = code) then (rpc o m c + 1) mod 2 ^ 64 else rpc o m' c)
        ∧ (∀ m', routeFailures r.2 m' =
             if bool_decide (m' = m ∧ (m < 6)%nat ∧ (handler w).1.2 ≠ None) then (routeFailures o m + 1) mod 2 ^ 64 else routeFailures o m')
        ∧ length (lines r.2) = S (length (lines o))
      else r.2 = o
    | None => r.2 = o
    end.
Proof.
  cbn zeta. unfold UnaryInterceptor. destruct (find_method full) as [m|]; [|done]. destruct enabled; [|done].
  destruct (handler w) as [[response err] w']. cbn [fst snd]. split; [done|]. cbn [rpc routeFailures lines]. split_and!.
  - intros m' c. destruct (Z.eqb_spec c (if 16 <? default 0 err then 2 else default 0 err)) as [Hc|Hc].
    + case_bool_decide as Hm; [subst m'|]; cbn [andb].
      * by rewrite bool_decide_true.
      * rewrite bool_decide_false by tauto. done.
    + rewrite andb_false_r, bool_decide_false by tauto. done.
  - intros m'. destruct (bool_decide (m < 6)%nat) eqn:H6; cbn [andb].
    + apply bool_decide_eq_true in H6. case_bool_decide as He; unfold add64.
      * case_bool_decide as Hm; [subst; by rewrite bool_decide_true|]. by rewrite bool_decide_false by tauto.
      * by rewrite bool_decide_false by tauto.
    + apply bool_decide_eq_false in H6. by rewrite bool_decide_false by tauto.
  - rewrite length_app. cbn. lia.
Qed.

(** ** Names of tasks *)

(** The task that is dispatched for a chunk of a message is one a log may name. *)
Theorem dispatched_task_logged message request count index ids targets :
  0 ≤ index < 2 ^ 32 →
  task_field (pb.MessageId message) (im.TaskID (push_task message request count index ids targets))
    = [("task_id", im.TaskID (push_task message request count index ids targets))].
Proof.
  intros Hi. unfold task_field. cbn [push_task im.TaskID].
  assert ("push:v1:" +:+ pb.MessageId message +:+ ":" +:+ format_int index
          = ("push:v1:" +:+ pb.MessageId message +:+ ":") +:+ format_int index) as Heq.
  { rewrite !string_app_assoc. done. }
  rewrite Heq at 1. rewrite cut_prefix_app. unfold format_int at 1. destruct (Z.ltb_spec index 0) as [|_]; [lia|].
  rewrite parse_format_uint by done. unfold format_int. destruct (Z.ltb_spec index 0) as [|_]; [lia|]. by rewrite bool_decide_true.
Qed.
(** A task id that is logged is that of the message that is logged, and nothing else. *)
Lemma logged_task request message task fields t :
  ("task_id", t) ∈ logEvent request message task fields → ("task_id", t) ∉ fields →
  t = task ∧ LogicService.validID message "M" = true ∧ ∃ n, 0 ≤ n < 2 ^ 32 ∧ task = "push:v1:" +:+ message +:+ ":" +:+ format_uint n.
Proof.
  unfold logEvent. rewrite !elem_of_app. intros [|[Hin|Hin]] Hf; [done| |].
  { destruct (_ && _); [|by apply elem_of_nil in Hin]. apply list_elem_of_singleton in Hin. done. }
  destruct (LogicService.validID message "M"); [|by apply elem_of_nil in Hin]. apply elem_of_cons in Hin as [|Hin]; [done|].
  unfold task_field in Hin. destruct (cut_prefix _ task) as [index|] eqn:Hc; [|by apply elem_of_nil in Hin].
  destruct (parse_uint 32 index) as [n|] eqn:Hn; [|by apply elem_of_nil in Hin]. case_bool_decide as Hfmt; [|by apply elem_of_nil in Hin].
  apply list_elem_of_singleton in Hin as [= ->]. split; [done|]. split; [done|]. exists n. apply cut_prefix_Some in Hc.
  split; [|rewrite Hc, <-Hfmt; by rewrite !string_app_assoc]. unfold parse_uint in Hn.
  destruct (DecimalString.NilZero.uint_of_string index); [|done]. cbn zeta in Hn. destruct (Z.ltb_spec (Z.of_N (N.of_uint u)) (2 ^ 32)); [|done].
  injection Hn as <-. lia.
Qed.
End Interceptor.

(** ** Synchronisation *)

Definition sync_code (r : sync_response) : Z := match r with SyncAnswer _ => 200 | SyncRefused c => c end.
Definition sync_body_type (r : sync_response) : option go_type :=
  match r with SyncAnswer _ => Some (GStruct "im.SyncPage") | SyncRefused _ => Some error_body end.
(** The endpoint is in the catalog, answers as it documents, and hands the store a limit that the
    store accepts. *)
Theorem sync_documented {W} (sync : string → string → string → Z → W → result MessageStore.store_error SyncPage * W)
    user conversation cursor limit w :
  sync_route ∈ LogicRoutes ∧
  let r := sync_handler sync user conversation cursor limit w in
  documented sync_route (sync_code r.1) (sync_body_type r.1) = true
  ∧ (r = (SyncRefused 400, w) ∨ ∃ n, 0 ≤ n ≤ 500 ∧ (limit = "" ∧ n = 0 ∨ atoi limit = Some n)
       ∧ r.2 = (sync user conversation cursor n w).2).
Proof.
  split; [apply elem_of_app; right; left|]. cbn zeta. unfold sync_handler.
  destruct (if bool_decide (limit = "") then _ else _) as [n|] eqn:Hl; [|split; [by vm_compute|by left]].
  destruct ((n <? 0) || (500 <? n)) eqn:Hn; [split; [by vm_compute|by left]|].
  apply orb_false_iff in Hn as [H1%Z.ltb_ge H2%Z.ltb_ge].
  destruct (sync user conversation cursor n w) as [[page|x] w'] eqn:Hs; cbn [fst snd].
  - split; [by vm_compute|]. right. exists n. split; [lia|]. split; [|by rewrite Hs].
    case_bool_decide; [left; split; [done|by injection Hl]|by right].
  - split; [by destruct x; vm_compute|]. right. exists n. split; [lia|]. split; [|by rewrite Hs].
    case_bool_decide; [left; split; [done|by injection Hl]|by right].
Qed.

(** ** The send tool *)

Section Send.
Context `{External} {W : Type} (env : logic_env W) (svc : Service) (find_sender : string → W → result db_error string * W).

(** The tool answers with the message exactly when the service did, so no commit is hidden by the
    lookup of the sender; without the sender the service is not asked. *)
Theorem send_hides_nothing has_db user session client content s :
  let '(r, s') := send_backend env svc find_sender has_db user session client content s in
  if has_db : bool then
    let '(sender, s1) := on_world (find_sender user) s in
    match sender with
    | Err _ => s' = s1 ∧ ∃ x, r = Err x
    | Ok name =>
      s' = (SendAI env svc user session client content s1).2
      ∧ match (SendAI env svc user session client content s1).1 with
        | Ok result => r = Ok (send_output name result)
        | Err x => r = Err (send_error x)
        end
    end
  else s' = s ∧ r = Err ErrAiDatabase.
Proof.
  destruct has_db; [|done]. unfold send_backend. cbn [negb]. unfold mbind, ST_bind.
  destruct (on_world (find_sender user) s) as [sender s1]. destruct sender as [name|[]]; cbn; [|by eauto..].
  destruct (SendAI env svc user session client content s1) as [[result|x] s2]; done.
Qed.
End Send.
