(* ===== verification/Configs.v ===== *)
(** * Configuration of the processes

    [internal/config/config.go] (the legacy settings), [internal/logic/app/config.go] and
    [internal/comet/app/config.go].  The TOML library and the environment are arguments: a decoded
    file and the variables that are set. *)
From S2P Require Import Prelude GoStd GoTime GoNet GoText External Json Dto CometHub CometRpc CometHandler JobApp RoutingStore LogicService KafkaPush.
Local Open Scope Z_scope.

(** The variables of the process, [os.LookupEnv]. *)
Definition environment : Type := string → option string.
Definition Getenv (env : environment) (name : string) : string := default "" (env name).
(** [strconv.ParseBool]. *)
Definition ParseBool (s : string) : option bool :=
  if bool_decide (s ∈ ["1"; "t"; "T"; "TRUE"; "true"; "True"]) then Some true
  else if bool_decide (s ∈ ["0"; "f"; "F"; "FALSE"; "false"; "False"]) then Some false
  else None.
(** [strings.Split(s, ",")]. *)
Definition split_commas (s : string) : list string := of_bytes <$> split_on 44 (bytes s).

(** ** Legacy settings ([config.go]) *)

Module config.
Record MySQLConfig : Type := MkMySQL { Host : string; Port : Z; User : string; Password : string; DatabaseName : string }.
Record RedisConfig : Type := MkRedis {
  RedisHost : string; RedisPort : Z; RedisPassword : string; RedisDB : Z; RedisEnabled : bool; RedisRequired : bool
}.
Record KafkaConfig : Type := MkKafka {
  KafkaEnabled : bool; KafkaRequired : bool; Mode : string; Brokers : list string; Topic : string; ConsumerGroup : string;
  PartitionCount : Z
}.
Record Config : Type := MkConfig { MySQL : MySQLConfig; JWTSecret : string; Redis : RedisConfig; Kafka : KafkaConfig }.

(** A variable that is set and not empty replaces a value; one that does not parse is ignored. *)
Definition string_of (env : environment) (name old : string) : string :=
  if bool_decide (Getenv env name ≠ "") then Getenv env name else old.
Definition number_of (env : environment) (name : string) (old : Z) : Z :=
  if bool_decide (Getenv env name ≠ "") then default old (atoi (Getenv env name)) else old.
Definition bool_of (env : environment) (name : string) (old : bool) : bool :=
  if bool_decide (Getenv env name ≠ "") then default old (ParseBool (Getenv env name)) else old.
Definition applyEnvOverrides (env : environment) (c : Config) : Config :=
  let m := MySQL c in
  let r := Redis c in
  let k := Kafka c in
  MkConfig
    (MkMySQL (string_of env "FABLE_MYSQL_HOST" (Host m)) (number_of env "FABLE_MYSQL_PORT" (Port m))
       (string_of env "FABLE_MYSQL_USER" (User m)) (string_of env "FABLE_MYSQL_PASSWORD" (Password m))
       (string_of env "FABLE_MYSQL_DATABASE" (DatabaseName m)))
    (string_of env "FABLE_JWT_SECRET" (JWTSecret c))
    (MkRedis (string_of env "FABLE_REDIS_HOST" (RedisHost r)) (number_of env "FABLE_REDIS_PORT" (RedisPort r))
       (string_of env "FABLE_REDIS_PASSWORD" (RedisPassword r)) (number_of env "FABLE_REDIS_DB" (RedisDB r))
       (bool_of env "FABLE_REDIS_ENABLED" (RedisEnabled r)) (bool_of env "FABLE_REDIS_REQUIRED" (RedisRequired r)))
    (MkKafka (bool_of env "FABLE_KAFKA_ENABLED" (KafkaEnabled k)) (bool_of env "FABLE_KAFKA_REQUIRED" (KafkaRequired k))
       (string_of env "FABLE_KAFKA_MODE" (Mode k))
       (if bool_decide (Getenv env "FABLE_KAFKA_BROKERS" ≠ "") then split_commas (Getenv env "FABLE_KAFKA_BROKERS") else Brokers k)
       (string_of env "FABLE_KAFKA_TOPIC" (Topic k)) (string_of env "FABLE_KAFKA_CONSUMER_GROUP" (ConsumerGroup k))
       (PartitionCount k)).
Definition LoadConfig (file : option Config) (env : environment) : option Config := applyEnvOverrides env <$> file.
End config.

(** ** What both applications check *)

Definition token (value : string) : bool :=
  negb ((len value <? 32) || (256 <? len value)) && forallb token_rune (runes value).
Definition instance_char (r : Z) : bool := in_range 97 122 r || in_range 48 57 r || (r =? 45).
(** [uuid.Parse], the nil id and the length. *)
Definition boot_id `{External} (s : string) : bool :=
  match uuid_parse s with Some text => bool_decide (text ≠ nil_uuid) && (len s =? 36) | None => false end.
Fixpoint distinct_tokens (seen : list string) (tokens : list string) : bool :=
  match tokens with
  | [] => true
  | s :: tokens => token s && negb (bool_decide (s ∈ seen)) && distinct_tokens (s :: seen) tokens
  end.

(** ** Logic ([logic/app/config.go]) *)

Module LogicApp.
Record Config : Type := MkConfig {
  Base : config.Config; HTTPAddress : string; RPCAddress : string; RedisPrefix : string; JobToken : string; KickToken : string;
  Comets : list (option pb.CometIdentity * string * string)
}.
(** The section of the file. *)
Record section : Type := MkSection { FileHTTP : string; FileRPC : string; FilePrefix : string }.

Definition identity_field (i : pb.CometIdentity) (key : string) (v : json) : option pb.CometIdentity :=
  let 'pb.MkCometIdentity instance boot := i in
  if names key "instance_id" then s ← decode_string instance v; Some (pb.MkCometIdentity s boot)
  else if names key "boot_id" then s ← decode_string boot v; Some (pb.MkCometIdentity instance s)
  else None.
(** A grant; unknown members are refused. *)
Definition grant_field (g : option pb.CometIdentity * string * string) (key : string) (v : json)
  : option (option pb.CometIdentity * string * string) :=
  let '(id, address, secret) := g in
  if names key "identity" then i ← decode_pointer (decode_struct identity_field) (pb.MkCometIdentity "" "") id v; Some (i, address, secret)
  else if names key "rpc_address" then s ← decode_string address v; Some (id, s, secret)
  else if names key "token" then s ← decode_string secret v; Some (id, address, s)
  else None.
Definition decode_grants (raw : string) : option (list (option pb.CometIdentity * string * string)) :=
  v ← parse raw; decode_list (decode_struct grant_field) (None, "", "") [] v.

Definition database_rune (r : Z) : bool := in_range 97 122 r || in_range 65 90 r || in_range 48 57 r || (r =? 95).
(** The name is ASCII where it is put into lower case. *)
Definition databaseValid (c : config.MySQLConfig) : bool :=
  negb (bool_decide (config.Host c = "") || (config.Port c <? 1) || (65535 <? config.Port c) || bool_decide (config.User c = "")
        || bool_decide (config.DatabaseName c = ""))
  && forallb database_rune (runes (config.DatabaseName c))
  && negb (bool_decide (lower_ascii (config.DatabaseName c) ∈ ["mysql"; "sys"; "information_schema"; "performance_schema"])).

Section Validate.
Context `{External}.
Fixpoint grants_valid (tokens instances : list string) (l : list (option pb.CometIdentity * string * string)) : bool :=
  match l with
  | [] => true
  | (id, address, secret) :: l =>
    match id with
    | None => false
    | Some i =>
      let instance := pb.CometInstanceId i in
      negb (bool_decide (instance = "") || (64 <? len instance) || negb (token secret) || bool_decide (secret ∈ tokens)
            || bool_decide (instance ∈ instances) || negb (JobApp.loopback address false))
      && forallb instance_char (runes instance) && boot_id (pb.BootId i)
      && grants_valid (secret :: tokens) (instance :: instances) l
    end
  end.
Definition validate (c : Config) : bool :=
  let b := Base c in
  let r := config.Redis b in
  negb (negb (config.RedisEnabled r) || negb (config.KafkaEnabled (config.Kafka b)) || bool_decide (config.Mode (config.Kafka b) ≠ "kafka")
        || negb (databaseValid (config.MySQL b)) || negb (JobApp.loopback (HTTPAddress c) true) || negb (JobApp.loopback (RPCAddress c) true)
        || bool_decide (HTTPAddress c = RPCAddress c) || (len (config.JWTSecret b) <? 32) || negb (token (JobToken c))
        || negb (token (KickToken c)) || bool_decide (JobToken c = KickToken c) || (slen (Comets c) =? 0)
        || bool_decide (config.RedisHost r = "") || (config.RedisPort r <? 1) || (65535 <? config.RedisPort r) || (config.RedisDB r <? 0)
        || (256 <? len (RedisPrefix c)) || contains_any (RedisPrefix c) (of_bytes [123; 125; 13; 10; 0]))
  && grants_valid [JobToken c; KickToken c] [] (Comets c)
  && bool_decide (is_Some (KafkaPush.New (config.Brokers (config.Kafka b)) (config.Topic (config.Kafka b)))).

(** A variable of one of these that is set must parse. *)
Definition numbers : list string := ["FABLE_MYSQL_PORT"; "FABLE_REDIS_PORT"; "FABLE_REDIS_DB"].
Definition flags : list string := ["FABLE_REDIS_ENABLED"; "FABLE_REDIS_REQUIRED"; "FABLE_KAFKA_ENABLED"; "FABLE_KAFKA_REQUIRED"].
Definition parses_as {A} (f : string → option A) (env : environment) (name : string) : bool :=
  match env name with Some v => match f v with Some _ => true | None => false end | None => true end.
Definition LoadConfig (file : option (config.Config * section)) (env : environment) : option Config :=
  '(base, s) ← file;
  grants ← (if bool_decide (Getenv env "FABLE_LOGIC_COMET_GRANTS_JSON" ≠ "")
            then decode_grants (Getenv env "FABLE_LOGIC_COMET_GRANTS_JSON") else Some []);
  let c := MkConfig (config.applyEnvOverrides env base)
             (overlay env "FABLE_LOGIC_HTTP_ADDR" (FileHTTP s)) (overlay env "FABLE_LOGIC_RPC_ADDR" (FileRPC s))
             (overlay env "FABLE_LOGIC_REDIS_PREFIX" (FilePrefix s)) (overlay env "FABLE_LOGIC_JOB_TOKEN" "")
             (overlay env "FABLE_LOGIC_KICK_TOKEN" "") grants in
  if forallb (parses_as atoi env) numbers && forallb (parses_as ParseBool env) flags && validate c then Some c else None.
End Validate.
End LogicApp.

(** ** Comet ([comet/app/config.go]) *)

Module CometApp.
Record Config : Type := MkConfig {
  InstanceID : string; BootID : string; HTTPAddress : string; RPCAddress : string; LogicAddress : string; LogicToken : string;
  JobToken : string; KickToken : string; AdminToken : string; JWTSecret : string; AllowedOrigins : list string; QueueSize : Z
}.
(** What a file leaves out. *)
Definition defaults : Config :=
  MkConfig "" "" "127.0.0.1:8082" "127.0.0.1:9092" "127.0.0.1:9091" "" "" "" "" "" [] 256.

Section Validate.
Context `{External} (parse_url : string → option url).
Definition validate (c : Config) : bool :=
  negb ((len (InstanceID c) =? 0) || (64 <? len (InstanceID c)) || negb (JobApp.loopback (HTTPAddress c) false)
        || negb (JobApp.loopback (RPCAddress c) false) || negb (JobApp.loopback (LogicAddress c) false)
        || bool_decide (HTTPAddress c = RPCAddress c) || (len (JWTSecret c) <? 32) || (QueueSize c <? 0) || (65536 <? QueueSize c)
        || (slen (AllowedOrigins c) =? 0))
  && forallb instance_char (runes (InstanceID c)) && boot_id (BootID c)
  && distinct_tokens [] [LogicToken c; JobToken c; KickToken c; AdminToken c]
  && forallb (allowed_origin parse_url) (AllowedOrigins c).
(** [file] decodes over the defaults. *)
Definition LoadConfig (file : Config → option Config) (env : environment) : option Config :=
  f ← file defaults;
  let c := MkConfig (overlay env "FABLE_COMET_INSTANCE_ID" (InstanceID f)) (overlay env "FABLE_COMET_BOOT_ID" (BootID f))
             (overlay env "FABLE_COMET_HTTP_ADDR" (HTTPAddress f)) (overlay env "FABLE_COMET_RPC_ADDR" (RPCAddress f))
             (overlay env "FABLE_COMET_LOGIC_ADDR" (LogicAddress f)) (overlay env "FABLE_COMET_LOGIC_TOKEN" (LogicToken f))
             (overlay env "FABLE_COMET_JOB_TOKEN" (JobToken f)) (overlay env "FABLE_COMET_KICK_TOKEN" (KickToken f))
             (overlay env "FABLE_COMET_ADMIN_TOKEN" (AdminToken f)) (overlay env "FABLE_JWT_SECRET" (JWTSecret f))
             (match env "FABLE_COMET_ALLOWED_ORIGINS" with
              | Some v => trim_space <$> split_commas v
              | None => AllowedOrigins f
              end)
             (QueueSize f) in
  if validate c then Some c else None.
End Validate.
End CometApp.

(** ** What the applications hand to their parts ([app/runtime.go]) *)

Definition comet_identity (c : CometApp.Config) : pb.CometIdentity := pb.MkCometIdentity (CometApp.InstanceID c) (CometApp.BootID c).
Definition comet_credentials (c : CometApp.Config) : RPCCredentials :=
  MkRPCCredentials (CometApp.JobToken c) (CometApp.KickToken c) (CometApp.AdminToken c).
Definition comet_handler (c : CometApp.Config) : HandlerConfig :=
  MkHandlerConfig (CometApp.JWTSecret c) (CometApp.LogicToken c) (CometApp.AllowedOrigins c) true 0 0 0.
Definition logic_service_config (c : LogicApp.Config) (routes : RoutingStore.Store) : LogicService.Config :=
  LogicService.MkConfig (Some routes) true true (config.JWTSecret (LogicApp.Base c)) (LogicApp.JobToken c) (LogicApp.KickToken c)
    (LogicApp.Comets c) true.
