(* ===== verification/ConfigsProofs.v ===== *)
(** * A valid configuration starts its process

    What [LoadConfig] accepts is what the parts of the process accept, and the processes of one
    deployment recognise each other. *)
From S2P Require Import Prelude GoStd GoTime GoNet GoText External Json JsonPrint Dto Samples RoutingStore KafkaPush.
From S2P Require Import CometValidation CometHub CometRpc CometInstance CometHandler JobApp LogicDispatch LogicService Configs.
Local Open Scope Z_scope.

Section Configs.
Context `{External, !ExternalLaws _}.

(** ** The checks of both sides *)

Lemma boot_id_valid s : boot_id s = true → len s = 36 ∧ s ≠ LogicService.nil_uuid ∧ uuid_validate s = true.
Proof.
  unfold boot_id. destruct (uuid_parse s) as [text|] eqn:Hp; [|done].
  rewrite andb_true_iff, bool_decide_eq_true, Z.eqb_eq. intros [Hn Hl]. rewrite uuid_parse_canonical in Hp by done.
  rewrite uuid_validate_canonical by done. destruct (canonical_uuid s); [|done]. injection Hp as <-. split_and!; [done| |done].
  intros ->. apply Hn. by vm_compute.
Qed.
Lemma token_same s : token s = token_ok s ∧ token s = CometInstance.instanceToken s ∧ token s = validToken s.
Proof. done. Qed.
Lemma loopback_split a zero : JobApp.loopback a zero = true → ∃ h p n, split_host_port a = Some (h, p) ∧ atoi p = Some n
  ∧ 0 ≤ n ≤ 65535 ∧ (zero = false → 0 < n) ∧ (h = "localhost" ∨ ∃ ip, parse_ip h = Some ip ∧ is_loopback ip = true).
Proof.
  unfold JobApp.loopback. destruct (split_host_port a) as [[h p]|]; [|done]. destruct (atoi p) as [n|] eqn:Hn; [|done].
  rewrite !andb_true_iff, !orb_true_iff, !Z.leb_le, Z.ltb_lt, bool_decide_eq_true. intros [[[? ?] Hz] Hh].
  exists h, p, n. split_and!; try done; [lia..| |].
  - intros ->. by destruct Hz.
  - destruct Hh as [|Hh]; [by left|]. right. destruct (parse_ip h) as [ip|]; [eauto|done].
Qed.
Lemma loopback_local a : JobApp.loopback a false = true → localAddress a = true.
Proof.
  intros (h&p&n&Hs&Hn&Hr&Hp&Hh)%loopback_split. unfold localAddress. rewrite Hs, Hn.
  rewrite !andb_true_iff, Z.ltb_lt, Z.leb_le. split; [split; [auto|lia]|]. apply orb_true_iff.
  destruct Hh as [->|(ip&->&Hip)]; [by left; apply bool_decide_eq_true|by right].
Qed.
Lemma ip_char_address b : ip_char b → address_breaker b = false.
Proof.
  intros Hb. apply not_true_iff_false. intros Hx. unfold address_breaker in Hx. apply List.existsb_exists in Hx as (x&Hin&->%Z.eqb_eq).
  apply list_elem_of_In in Hin. unfold ip_char in Hb.
  repeat (apply elem_of_cons in Hin as [->|Hin]; [by destruct Hb as [[? ?]|[|]]|]). by apply elem_of_nil in Hin.
Qed.
Lemma loopback_instance a : JobApp.loopback a false = true → instanceAddress a = true.
Proof.
  intros (h&p&n&Hs&Hn&Hr&Hp&Hh)%loopback_split. unfold instanceAddress. rewrite Hs, Hn.
  rewrite !andb_true_iff, Z.ltb_lt, Z.leb_le, bool_decide_eq_true, negb_true_iff.
  destruct Hh as [->|(ip&Hip&_)]; [split_and!; [by auto|lia|done|by vm_compute]|]. split_and!; [by auto|lia| |].
  - intros ->. by vm_compute in Hip.
  - apply not_true_iff_false. intros Hx. apply List.existsb_exists in Hx as (b&Hin&Hb). apply list_elem_of_In in Hin.
    pose proof (parse_ip_chars _ _ Hip) as Hc. rewrite Forall_forall in Hc. apply Hc, ip_char_address in Hin. congruence.
Qed.
Lemma grants_checked tokens ids l : LogicApp.grants_valid tokens ids l = true → ∃ gs, check_grants tokens ids l = Some gs
  ∧ gs = omap (λ g, id ← g.1.1; Some (MkGrant id g.1.2 g.2)) l.
Proof.
  revert tokens ids. induction l as [|[[id address] secret] l IH]; intros tokens ids; cbn; [by eauto|].
  destruct id as [i|]; [|done]. rewrite !andb_true_iff, negb_true_iff, !orb_false_iff, !negb_false_iff.
  intros [[[[[[[[Hne Hlen] Htok] Hseen] Hinst] Haddr] Hchars] Hboot] Hrest].
  apply boot_id_valid in Hboot as (H1&H2&H3). destruct (IH _ _ Hrest) as (gs&Hgs&->). rewrite Hgs. cbn.
  rewrite (loopback_local _ Haddr), Hseen, Hinst, <-(proj2 (proj2 (token_same secret))), Htok.
  unfold validInstance, validUUID. rewrite H1, H3, (bool_decide_true _ H2), Hlen.
  assert (len (pb.CometInstanceId i) =? 0 = false) as ->.
  { apply Z.eqb_neq. intros Hz. apply bool_decide_eq_false in Hne. by destruct (pb.CometInstanceId i). }
  assert (forallb LogicService.instance_rune (runes (pb.CometInstanceId i)) = true) as -> by exact Hchars. cbn. eauto.
Qed.

(** ** Comet *)

Lemma distinct_four a b c d : distinct_tokens [] [a; b; c; d] = true →
  token a = true ∧ token b = true ∧ token c = true ∧ token d = true ∧ NoDup [a; b; c; d].
Proof.
  cbn. rewrite !andb_true_iff, !negb_true_iff, !bool_decide_eq_false, !elem_of_cons.
  intros [[Ha _] [[Hb Hb'] [[Hc Hc'] [[Hd Hd'] _]]]]. split_and!; [done..|].
  assert (∀ x : string, x ∉ []) as Hnil by (by intros x ?%elem_of_nil).
  repeat (apply NoDup_cons; split; [rewrite ?not_elem_of_cons; split_and?; try apply Hnil; intros ->; tauto|]). constructor.
Qed.

(** a Comet whose configuration is loaded starts: the hub, the internal RPC service, the
    lease and the public handler accept what [Run] gives them, and its four credentials differ. *)
Theorem comet_config_starts parse_url file env c :
  CometApp.LoadConfig parse_url file env = Some c →
  (∃ hub, NewHub (Some (comet_identity c)) (CometApp.QueueSize c) = Ok hub
     ∧ NewRPCService hub (comet_credentials c) = Ok (MkRPCService hub (comet_credentials c)))
  ∧ is_Some (configure (CometApp.RPCAddress c) (CometApp.LogicToken c) (MkInstanceOptions 0 0))
  ∧ (∃ h, NewHandler parse_url true (comet_handler c) = Ok h ∧ origins h = CometApp.AllowedOrigins c)
  ∧ NoDup [CometApp.LogicToken c; CometApp.JobToken c; CometApp.KickToken c; CometApp.AdminToken c].
Proof.
  unfold CometApp.LoadConfig. destruct (file _) as [f|]; [|done]. cbn [mbind option_bind]. cbn zeta.
  set (c0 := CometApp.MkConfig _ _ _ _ _ _ _ _ _ _ _ _). clearbody c0. destruct (CometApp.validate parse_url c0) eqn:Hv; [|done]. intros [= ->].
  unfold CometApp.validate in Hv. rewrite !andb_true_iff, negb_true_iff, !orb_false_iff, !negb_false_iff in Hv.
  destruct Hv as [[[[Hv Hchars] Hboot] Htokens] Horigins].
  destruct Hv as [[[[[[[[[Hl0 Hl] Hhttp] Hrpc] Hlogic] Hne] Hjwt] Hq0] Hq1] Hno].
  apply boot_id_valid in Hboot as (Hb1&Hb2&Hb3). apply distinct_four in Htokens as (Ht1&Ht2&Ht3&Ht4&Hnd).
  split_and!; [| | |done].
  - unfold NewHub. assert (validateComet (Some (comet_identity c)) = true) as ->.
    { unfold validateComet, CometValidation.validUUID, comet_identity. cbn [pb.BootId pb.CometInstanceId].
      rewrite Hb1, Hb3, Hl0, Hl, (bool_decide_true _ Hb2). exact Hchars. }
    eexists. split; [done|]. unfold NewRPCService, comet_credentials. cbn [CometRpc.JobToken CometRpc.LogicToken CometRpc.AdminToken].
    change token_ok with token. rewrite Ht2, Ht3, Ht4. rewrite !NoDup_cons, !not_elem_of_cons in Hnd.
    rewrite !bool_decide_true by naive_solver. done.
  - unfold configure. rewrite (loopback_instance _ Hrpc), <-(proj1 (proj2 (token_same _))), Ht1. by eexists.
  - unfold NewHandler, comet_handler. cbn [hc_secret hc_token CometHandler.AllowedOrigins ReadyGiven HeartbeatInterval hc_timeout ReadTimeout].
    rewrite Hjwt, Hno. assert (CometInstance.instanceToken (CometApp.LogicToken c) = true) as -> by exact Ht1.
    cbn -[allowed_origin]. rewrite Horigins. by eexists.
Qed.

(** ** Logic *)

Definition granted_all (l : list (option pb.CometIdentity * string * string)) : list CometGrant :=
  omap (λ g, id ← g.1.1; Some (MkGrant id g.1.2 g.2)) l.
Lemma grants_fresh tokens ids l id address secret :
  LogicApp.grants_valid tokens ids l = true → (Some id, address, secret) ∈ l → secret ∉ tokens.
Proof.
  revert tokens ids. induction l as [|[[i a] t] l IH]; intros tokens ids Hv Hin; [by apply elem_of_nil in Hin|].
  cbn in Hv. destruct i as [i|]; [|done]. rewrite !andb_true_iff, negb_true_iff, !orb_false_iff in Hv.
  destruct Hv as [[[Hhead _] _] Hrest]. destruct Hhead as [[[_ Hseen] _] _]. apply bool_decide_eq_false in Hseen.
  apply elem_of_cons in Hin as [[= <- <- <-]|Hin]; [done|]. apply (IH _ _ Hrest) in Hin. by apply not_elem_of_cons in Hin as [_ Hin].
Qed.
Lemma grants_found tokens ids l id address secret :
  LogicApp.grants_valid tokens ids l = true → (Some id, address, secret) ∈ l →
  find (λ g, bool_decide (secret = g_token g)) (granted_all l) = Some (MkGrant id address secret).
Proof.
  revert tokens ids. induction l as [|[[i a] t] l IH]; intros tokens ids Hv Hin; [by apply elem_of_nil in Hin|].
  cbn in Hv. destruct i as [i|]; [|done]. rewrite !andb_true_iff in Hv. destruct Hv as [_ Hrest]. cbn.
  apply elem_of_cons in Hin as [[= -> -> ->]|Hin]; [by rewrite bool_decide_true|].
  pose proof (grants_fresh _ _ _ _ _ _ Hrest Hin) as Hf. apply not_elem_of_cons in Hf as [Hne _].
  rewrite bool_decide_false by done. by eapply IH.
Qed.

(** a Logic whose configuration is loaded starts: the routing store, the publisher and the
    service accept what [Run] gives them.  The service then knows the Comets that the
    configuration names: each is recognised by the token of its own configuration, as itself
    and as no other, and Job by its own. *)
Theorem logic_config_starts file env c :
  LogicApp.LoadConfig file env = Some c →
  ∃ routes publisher svc,
    RoutingStore.New true (LogicApp.RedisPrefix c) minute minute = Ok routes
    ∧ KafkaPush.New (config.Brokers (config.Kafka (LogicApp.Base c))) (config.Topic (config.Kafka (LogicApp.Base c))) = Some publisher
    ∧ NewService (logic_service_config c routes) = Some svc
    ∧ (∀ id address secret, (Some id, address, secret) ∈ LogicApp.Comets c →
         cometAuth svc ["Bearer " +:+ secret] (Some id) (pb.CometInstanceId id) = Ok (MkGrant id address secret)
         ∧ ∀ other instance, pb.CometInstanceId other ≠ pb.CometInstanceId id →
             cometAuth svc ["Bearer " +:+ secret] (Some other) instance = Err permissionDenied)
    ∧ jobAuth svc ["Bearer " +:+ LogicApp.JobToken c] = Ok tt.
Proof.
  unfold LogicApp.LoadConfig. destruct file as [[base sect]|]; [|done]. cbn [mbind option_bind].
  destruct (if bool_decide _ then _ else _) as [grants|]; [|done]. cbn [mbind option_bind]. cbn zeta.
  set (c0 := LogicApp.MkConfig _ _ _ _ _ _ _). clearbody c0. destruct (_ && _) eqn:Hv; [|done]. intros [= ->].
  apply andb_true_iff in Hv as [_ Hv]. unfold LogicApp.validate in Hv. rewrite !andb_true_iff, bool_decide_eq_true in Hv.
  destruct Hv as [[Hv Hgrants] [publisher Hpub]]. rewrite negb_true_iff, !orb_false_iff, !negb_false_iff in Hv.
  destruct Hv as [[[[[[[[[[[[[[[[[Hren Hken] Hmode] Hdb] Hhttp] Hrpc] Hne] Hjwt] Hjob] Hkick] Hjk] Hno] Hrh] Hrp] Hrp2] Hrd] Hpl] Hpc].
  destruct (grants_checked _ _ _ Hgrants) as (gs&Hgs&Hall). fold (granted_all (LogicApp.Comets c)) in Hall.
  unfold RoutingStore.New. rewrite Hpl, Hpc. cbn [negb orb]. eexists _, publisher, _. split; [done|]. split; [done|].
  unfold NewService, logic_service_config. cbn [cfg_routes cfg_messages cfg_publisher LogicService.JWTSecret cfg_jobToken cfg_kickToken
    LogicService.Comets cfg_userExists]. change validToken with token. rewrite Hjwt, Hno, Hjk, Hjob, Hkick.
  cbn [negb orb]. rewrite Hgs. cbn [mbind option_bind]. split; [done|]. split.
  - intros id address secret Hin. assert (bearer ["Bearer " +:+ secret] = secret) as Hb by (unfold bearer; by rewrite cut_prefix_app).
    unfold cometAuth. rewrite Hb. cbn [LogicDispatch.grants]. rewrite Hall, (grants_found _ _ _ _ _ _ Hgrants Hin).
    cbn [g_identity]. split.
    + rewrite !bool_decide_false by tauto. done.
    + intros other instance Hother. rewrite (bool_decide_true _ Hother). done.
  - unfold jobAuth, bearer. rewrite cut_prefix_app. cbn [default from_option id LogicDispatch.jobToken]. by rewrite bool_decide_true.
Qed.
End Configs.

(** ** One deployment *)

Definition letters (c : ascii) : string := of_bytes (replicate 32 (byte_val c)).
Definition boot1 : string := "00000000-0000-0000-0000-0000000000b1".
Definition sample_comet_config : CometApp.Config :=
  CometApp.MkConfig "comet-1" boot1 "127.0.0.1:8082" "127.0.0.1:9092" "[::1]:9091"
    (letters "l") (letters "j") (letters "k") (letters "a") (letters "s") ["https://chat.example"] 256.
Definition sample_parse_url (s : string) : option url := Some (MkUrl "https" (trim_prefix s "https://") false "" "" "").
Lemma comet_config_starts_witness :
  CometApp.LoadConfig (H := Reference.external) sample_parse_url (λ _, Some sample_comet_config) (λ _, None) = Some sample_comet_config
  ∧ is_Some (configure "127.0.0.1:9092" (letters "l") (MkInstanceOptions 0 0)).
Proof.
  assert (CometApp.LoadConfig (H := Reference.external) sample_parse_url (λ _, Some sample_comet_config) (λ _, None) = Some sample_comet_config)
    as Hl by (vm_compute; reflexivity).
  split; [exact Hl|]. exact (proj1 (proj2 (@comet_config_starts Reference.external Reference.external_laws _ _ _ _ Hl))).
Defined.

Definition sample_grants : string :=
  print_array [print_object
    [field "identity" (print_object [field "instance_id" (print_string "comet-1"); field "boot_id" (print_string boot1)]);
     field "rpc_address" (print_string "127.0.0.1:9092"); field "token" (print_string (letters "l"))]].
Definition sample_variables : environment := λ name,
  if bool_decide (name = "FABLE_LOGIC_COMET_GRANTS_JSON") then Some sample_grants
  else if bool_decide (name = "FABLE_LOGIC_JOB_TOKEN") then Some (letters "j")
  else if bool_decide (name = "FABLE_LOGIC_KICK_TOKEN") then Some (letters "k")
  else if bool_decide (name = "FABLE_KAFKA_BROKERS") then Some "127.0.0.1:9092,broker:9092"
  else if bool_decide (name = "FABLE_REDIS_ENABLED") then Some "true"
  else None.
Definition sample_base : config.Config :=
  config.MkConfig (config.MkMySQL "127.0.0.1" 3306 "fable" "" "fable") (letters "s")
    (config.MkRedis "127.0.0.1" 6379 "" 0 false true) (config.MkKafka true true "kafka" [] "fable.push.v1" "" 0).
Definition sample_logic_file : config.Config * LogicApp.section := (sample_base, LogicApp.MkSection "127.0.0.1:8081" "127.0.0.1:9091" "fable:").
Definition sample_logic_config : option LogicApp.Config :=
  LogicApp.LoadConfig (H := Reference.external) (Some sample_logic_file) sample_variables.
(** The Comet of the first configuration is the one the second lets in. *)
Lemma logic_config_starts_witness :
  ∃ c, sample_logic_config = Some c
  ∧ ∃ routes svc, NewService (H := Reference.external) (logic_service_config c routes) = Some svc
      ∧ cometAuth svc ["Bearer " +:+ CometApp.LogicToken sample_comet_config] (Some (comet_identity sample_comet_config)) "comet-1"
        = Ok (MkGrant (comet_identity sample_comet_config) (CometApp.RPCAddress sample_comet_config) (letters "l")).
Proof.
  destruct sample_logic_config as [c|] eqn:Hc; [|vm_compute in Hc; discriminate]. exists c. split; [done|].
  destruct (@logic_config_starts Reference.external Reference.external_laws _ _ _ Hc) as (routes&_&svc&_&_&Hs&Hauth&_).
  exists routes, svc. split; [exact Hs|].
  refine (proj1 (Hauth (comet_identity sample_comet_config) (CometApp.RPCAddress sample_comet_config) (letters "l") _)).
  vm_compute in Hc. injection Hc as <-. vm_compute. left.
Defined.
