(* ===== verification/Runtimes.v ===== *)
(** * The Comet and Logic processes: [Run] of [internal/comet/app] and [internal/logic/app]

    Transition systems for the goroutines of the two processes: the servers with what they are
    serving, and [Run], which starts them, waits for the end, drains them and closes what it owns
    in the order of its deferred calls.  A label says which goroutine moves and what the
    environment answers.  Also the database schema that Logic checks before it serves, the clients
    its workers dial, and the run of the chat server ([cmd/my_chat_server]) with what it opens. *)
From S2P Require Import Prelude GoStd GoTime External Dto CometHub CometRpc CometHandler RoutingStore KafkaPush LogicService Configs.
Local Open Scope Z_scope.

(** ** Two servers and their end *)

(** [plain] counts the HTTP handlers whose connection the server still has, [sockets] those that
    took it over; [ended] counts the answers of [Serve] in the channel. *)
Record servers : Type := MkServers {
  http_on : bool; http_serving : bool; plain : nat; sockets : nat; http_answer : option bool;
  rpc_on : bool; rpc_serving : bool; calls : nat; rpc_stopped : bool; rpc_done : bool;
  draining : bool; deadline : bool; ended : nat
}.
Inductive server_label : Type :=
| SRequest | SUpgrade | SRequestEnds | SSocketEnds | SHttpFails | SCall | SCallEnds | SRpcFails
| SDeadline | SShutdown (ok : bool) | SGraceful.
Definition set_http (on serving : bool) (p k : nat) (a : option bool) (s : servers) : servers :=
  MkServers on serving p k a (rpc_on s) (rpc_serving s) (calls s) (rpc_stopped s) (rpc_done s) (draining s) (deadline s) (ended s).
Definition set_rpc (on serving : bool) (n : nat) (stopped done : bool) (s : servers) : servers :=
  MkServers (http_on s) (http_serving s) (plain s) (sockets s) (http_answer s) on serving n stopped done (draining s) (deadline s) (ended s).
Definition set_end (drain late : bool) (n : nat) (s : servers) : servers :=
  MkServers (http_on s) (http_serving s) (plain s) (sockets s) (http_answer s)
    (rpc_on s) (rpc_serving s) (calls s) (rpc_stopped s) (rpc_done s) drain late n.
(** [Shutdown] answers nil when no connection is left to the server, or the error of its context;
    [GracefulStop] returns when no call is left, or after [Stop]. *)
Definition server_step (l : server_label) (s : servers) : option servers :=
  let http on p k a := set_http on (http_serving s) p k a s in
  let rpc on n d := set_rpc on (rpc_serving s) n (rpc_stopped s) d s in
  match l with
  | SRequest => if http_on s then Some (http true (S (plain s)) (sockets s) (http_answer s)) else None
  | SUpgrade => match plain s with S p => Some (http (http_on s) p (S (sockets s)) (http_answer s)) | O => None end
  | SRequestEnds => match plain s with S p => Some (http (http_on s) p (sockets s) (http_answer s)) | O => None end
  | SSocketEnds => match sockets s with S k => Some (http (http_on s) (plain s) k (http_answer s)) | O => None end
  | SHttpFails =>
    if http_serving s
    then Some (set_end (draining s) (deadline s) (S (ended s)) (set_http (http_on s) false (plain s) (sockets s) (http_answer s) s))
    else None
  | SCall => if rpc_on s then Some (rpc true (S (calls s)) (rpc_done s)) else None
  | SCallEnds => match calls s with S n => Some (rpc (rpc_on s) n (rpc_done s)) | O => None end
  | SRpcFails =>
    if rpc_serving s
    then Some (set_end (draining s) (deadline s) (S (ended s)) (set_rpc (rpc_on s) false (calls s) (rpc_stopped s) (rpc_done s) s))
    else None
  | SDeadline => if draining s then Some (set_end true true (ended s) s) else None
  | SShutdown ok =>
    match http_answer s with
    | Some _ => None
    | None =>
      if draining s && (if ok : bool then bool_decide (plain s = 0%nat) else deadline s)
      then Some (http (if ok then false else http_on s) (plain s) (sockets s) (Some ok)) else None
    end
  | SGraceful =>
    if draining s && negb (rpc_done s) && (bool_decide (calls s = 0%nat) || rpc_stopped s)
    then Some (rpc false (calls s) true) else None
  end.
(** [server.Close] and [rpcServer.Stop]. *)
Definition close_http (s : servers) : servers := set_http false false (plain s) (sockets s) (http_answer s) s.
Definition stop_rpc (s : servers) : servers := set_rpc false false (calls s) true (rpc_done s) s.
Definition drain (s : servers) : servers := set_end true (deadline s) (ended s) s.

(** ** Comet *)

Module CometRun.
Inductive run_error : Type :=
| ConfigError | PoolError | RPCListenerError | RegistrationError | HTTPListenerError | LeaseStopped | ServerStopped | GraceExceeded.
Inductive instance_phase : Type := NotStarted | Live | Over.
(** The deferred calls. *)
Inductive deferred : Type := CloseHTTPListener | CloseInstance | StopRPC | CloseRPCListener | ClosePool | CloseHub | Cancel.
Inductive run_pc : Type :=
| PRegister | PHandler | PListen | PSelect
| PCancel (r : option run_error) | PHub (r : option run_error) | PShutdown (r : option run_error)
| PDrain (r : option run_error) | PForced (r : option run_error) | PHttp (r : option run_error)
| PWait (r : option run_error) | PClose (r : option run_error)
| PDefer (ds : list deferred) (r : option run_error) | PReturned (r : option run_error).
Record comet : Type := MkComet {
  pc : run_pc; srv : servers; inst : instance_phase; lifetime_over : bool; hub_closed : bool; pool_open : bool;
  rpc_listening : bool; http_listening : bool; signalled : bool
}.
Definition set_pc (p : run_pc) (c : comet) : comet :=
  MkComet p (srv c) (inst c) (lifetime_over c) (hub_closed c) (pool_open c) (rpc_listening c) (http_listening c) (signalled c).
Definition set_srv (s : servers) (c : comet) : comet :=
  MkComet (pc c) s (inst c) (lifetime_over c) (hub_closed c) (pool_open c) (rpc_listening c) (http_listening c) (signalled c).
Definition set_inst (i : instance_phase) (c : comet) : comet :=
  MkComet (pc c) (srv c) i (lifetime_over c) (hub_closed c) (pool_open c) (rpc_listening c) (http_listening c) (signalled c).
Definition set_flags (over hub pool rpc http : bool) (c : comet) : comet :=
  MkComet (pc c) (srv c) (inst c) over hub pool rpc http (signalled c).

Definition from_rpc : list deferred := [StopRPC; CloseRPCListener; ClosePool; CloseHub; Cancel].
Definition from_instance : list deferred := CloseInstance :: from_rpc.
Definition from_http : list deferred := CloseHTTPListener :: from_instance.
(** Up to the goroutine of the RPC server: nothing is shared before it. *)
Inductive start_result : Type := NotRun (r : option run_error) | Started (c : comet).
Definition serving : servers := MkServers false false 0 0 None true true 0 false false false false 0.
Definition started : comet := MkComet PRegister serving NotStarted false false true true false false.
Definition start `{External} (parse_url : string → option url) (c : CometApp.Config) (ctx_over pool listener : bool) : start_result :=
  if negb (CometApp.validate parse_url c) then NotRun (Some ConfigError)
  else if ctx_over then NotRun None
  else
    match NewHub (Some (comet_identity c)) (CometApp.QueueSize c) with
    | Err _ => NotRun (Some ConfigError)
    | Ok hub =>
      match NewRPCService hub (comet_credentials c) with
      | Err _ => NotRun (Some ConfigError)
      | Ok _ =>
        if negb pool then NotRun (Some PoolError)
        else if negb listener then NotRun (Some RPCListenerError)
        else Started started
      end
    end.

Definition run_deferred (d : deferred) (c : comet) : option comet :=
  match d with
  | CloseHTTPListener => Some (set_flags (lifetime_over c) (hub_closed c) (pool_open c) (rpc_listening c) false c)
  (* cancels the instance and waits for its end *)
  | CloseInstance => match inst c with Live => None | _ => Some c end
  | StopRPC => Some (set_srv (stop_rpc (srv c)) c)
  | CloseRPCListener => Some (set_flags (lifetime_over c) (hub_closed c) (pool_open c) false (http_listening c) c)
  | ClosePool => Some (set_flags (lifetime_over c) (hub_closed c) false (rpc_listening c) (http_listening c) c)
  | CloseHub => Some (set_flags (lifetime_over c) true (pool_open c) (rpc_listening c) (http_listening c) c)
  | Cancel => Some (set_flags true (hub_closed c) (pool_open c) (rpc_listening c) (http_listening c) c)
  end.
Inductive comet_label : Type :=
| CServer (l : server_label) | CSignal | CInstanceEnds
| CRegister (ok : bool) | CHandler (ok : bool) | CListen (ok : bool)
| CSelectDone | CSelectInstance | CSelectResult
| CCancel | CHub | CShutdown | CTakeRpc | CForce | CTakeHttp | CWait | CClose | CDefer.
Definition comet_step (l : comet_label) (c : comet) : option comet :=
  match l, pc c with
  | CServer l, _ => s ← server_step l (srv c); Some (set_srv s c)
  | CSignal, _ =>
    Some (MkComet (pc c) (srv c) (inst c) true (hub_closed c) (pool_open c) (rpc_listening c) (http_listening c) true)
  | CInstanceEnds, _ => match inst c with Live => Some (set_inst Over c) | _ => None end
  | CRegister ok, PRegister =>
    Some (if ok : bool then set_pc PHandler (set_inst Live c) else set_pc (PDefer from_rpc (Some RegistrationError)) c)
  | CHandler ok, PHandler => Some (if ok : bool then set_pc PListen c else set_pc (PDefer from_instance (Some ConfigError)) c)
  | CListen ok, PListen =>
    Some (if ok : bool
          then set_pc PSelect (set_flags (lifetime_over c) (hub_closed c) (pool_open c) (rpc_listening c) true
                 (set_srv (set_http true true (plain (srv c)) (sockets (srv c)) (http_answer (srv c)) (srv c)) c))
          else set_pc (PDefer from_instance (Some HTTPListenerError)) c)
  | CSelectDone, PSelect => if signalled c then Some (set_pc (PCancel None) c) else None
  | CSelectInstance, PSelect => match inst c with Live => None | _ => Some (set_pc (PCancel (Some LeaseStopped)) c) end
  | CSelectResult, PSelect =>
    match ended (srv c) with
    | O => None
    | S n => Some (set_pc (PCancel (Some ServerStopped)) (set_srv (set_end (draining (srv c)) (deadline (srv c)) n (srv c)) c))
    end
  | CCancel, PCancel r => Some (set_pc (PHub r) (set_flags true (hub_closed c) (pool_open c) (rpc_listening c) (http_listening c) c))
  | CHub, PHub r => Some (set_pc (PShutdown r) (set_flags (lifetime_over c) true (pool_open c) (rpc_listening c) (http_listening c) c))
  | CShutdown, PShutdown r => Some (set_pc (PDrain r) (set_srv (drain (srv c)) c))
  | CTakeRpc, (PDrain r | PForced r) => if rpc_done (srv c) then Some (set_pc (PHttp r) c) else None
  | CForce, PDrain r => if deadline (srv c) then Some (set_pc (PForced r) (set_srv (stop_rpc (srv c)) c)) else None
  | CTakeHttp, PHttp r =>
    match http_answer (srv c) with
    | Some true => Some (set_pc (PWait r) c)
    | Some false => Some (set_pc (PWait (Some (default GraceExceeded r))) (set_srv (close_http (srv c)) c))
    | None => None
    end
  | CWait, PWait r => if bool_decide (plain (srv c) = 0 ∧ sockets (srv c) = 0)%nat then Some (set_pc (PClose r) c) else None
  | CClose, PClose r => match inst c with Live => None | _ => Some (set_pc (PDefer from_http r) c) end
  | CDefer, PDefer (d :: ds) r => c ← run_deferred d c; Some (set_pc (PDefer ds r) c)
  | CDefer, PDefer [] r => Some (set_pc (PReturned r) c)
  | _, _ => None
  end.
Fixpoint comet_run (ls : list comet_label) (c : comet) : option comet :=
  match ls with [] => Some c | l :: ls => c' ← comet_step l c; comet_run ls c' end.
Inductive reachable : comet → Prop :=
| reachable_start : reachable started
| reachable_step l c c' : reachable c → comet_step l c = Some c' → reachable c'.
End CometRun.

(** ** The clients of the workers of Logic ([logic/transport.go]) *)

Module CometPool.
(** A client is the number of its [NewClient]. *)
Record cometPool : Type := MkPool { connections : gmap string nat; made : nat; closed : list nat }.
Definition newCometPool : cometPool := MkPool ∅ 0 [].
(** [dialled] is what [NewClient] answers. *)
Definition client (ctx_over dialled : bool) (address : string) (p : cometPool) : option nat * cometPool :=
  if ctx_over then (None, p)
  else
    match connections p !! address with
    | Some k => (Some k, p)
    | None =>
      if dialled then (Some (made p), MkPool (<[address := made p]> (connections p)) (S (made p)) (closed p)) else (None, p)
    end.
Definition close (p : cometPool) : cometPool := MkPool (connections p) (made p) (snd <$> map_to_list (connections p)).
End CometPool.

(** ** The database of Logic ([logic/app/database.go]) *)

Module LogicDatabase.
Inductive database_error : Type := errConfig | errDatabase | errSchema | notEmpty.
(** What [information_schema] tells of the selected database; names compare as texts. *)
Record table_row : Type := MkTable { table_name : string; table_type : string }.
Record column_row : Type := MkColumn {
  c_table : string; column_name : string; is_nullable : string; data_type : string; character_maximum_length : option Z
}.
(** A row of [statistics]: a column of an index. *)
Record statistic_row : Type := MkStatistic {
  s_table : string; non_unique : Z; index_name : string; seq_in_index : Z; s_column : string
}.
Record catalog : Type := MkCatalog { tables : list table_row; columns : list column_row; statistics : list statistic_row }.

(** [opened] is what the driver answers to the open, the ping and gorm. *)
Definition openDatabase (c : config.MySQLConfig) (opened : option nat) : database_error + nat :=
  if negb (LogicApp.databaseValid c) then inl errConfig
  else match opened with Some db => inr db | None => inl errDatabase end.

Definition expected_tables : list string :=
  ["user_info"; "session"; "group_info"; "user_ai_session_access"; "user_contact"; "contact_apply"; "message"].
Definition count_tables (c : catalog) : nat :=
  length (remove_dups (table_name <$> filter (λ t, table_name t ∈ expected_tables ∧ table_type t = "BASE TABLE") (tables c))).
Definition expected_column (k : column_row) : Prop :=
  (column_name k = "client_message_id" ∧ data_type k = "char" ∧ character_maximum_length k = Some 36)
  ∨ (column_name k = "request_fingerprint" ∧ data_type k = "binary" ∧ character_maximum_length k = Some 32)
  ∨ (column_name k = "recipient_ids" ∧ data_type k = "json").
#[global] Instance expected_column_dec k : Decision (expected_column k).
Proof. unfold expected_column. apply _. Defined.
Definition count_columns (c : catalog) : nat :=
  length (filter (λ k, (c_table k = "message" ∧ is_nullable k = "NO") ∧ expected_column k) (columns c)).
(** The groups of the third query, and the names of the columns of one in their order. *)
Definition unique_rows (c : catalog) : list statistic_row := filter (λ r, s_table r = "message" ∧ non_unique r = 0) (statistics c).
Definition by_seq (r1 r2 : statistic_row) : Prop := seq_in_index r1 ≤ seq_in_index r2.
#[global] Instance by_seq_dec : RelDecision by_seq.
Proof. unfold by_seq. solve_decision. Defined.
Definition index_columns (c : catalog) (name : string) : list string :=
  s_column <$> merge_sort by_seq (filter (λ r, index_name r = name) (unique_rows c)).
Definition count_indexes (c : catalog) : nat :=
  length (filter (λ name, String.concat "," (index_columns c name) = "send_id,client_message_id" ∧ length (index_columns c name) = 2%nat)
            (remove_dups (index_name <$> unique_rows c))).
(** [ok] tells which of the queries are answered. *)
Definition verifySchema (ok : nat → bool) (c : catalog) : option database_error :=
  if negb (ok 0%nat) then Some errDatabase
  else if negb (bool_decide (count_tables c = 7%nat)) then Some errSchema
  else if negb (ok 1%nat) then Some errDatabase
  else if negb (bool_decide (count_columns c = 3%nat)) then Some errSchema
  else if negb (ok 2%nat) then Some errDatabase
  else if bool_decide (count_indexes c < 1)%nat then Some errSchema
  else None.
(** [auto_migrate] is gorm's, for the models and the message of the store
    ([messagestore/schema.go]). *)
Definition InitSchema (auto_migrate : catalog → bool * catalog) (c : catalog) : bool * catalog := auto_migrate c.
Definition initialize (auto_migrate : catalog → bool * catalog) (ok : nat → bool) (c : catalog) : option database_error * catalog :=
  if negb (ok 0%nat) then (Some errDatabase, c)
  else if negb (bool_decide (length (tables c) = 0%nat)) then (Some notEmpty, c)
  else
    let '(done, c') := InitSchema auto_migrate c in
    if done then (verifySchema (λ n, ok (S n)) c', c') else (Some errDatabase, c').
(** [InitSchema] of the application. *)
Definition init_schema (auto_migrate : catalog → bool * catalog) (ok : nat → bool) (cfg : LogicApp.Config) (opened : option nat) (c : catalog)
    : option database_error * catalog :=
  match openDatabase (config.MySQL (LogicApp.Base cfg)) opened with
  | inl e => (Some e, c)
  | inr _ => initialize auto_migrate ok c
  end.
End LogicDatabase.

(** ** Logic *)

Module LogicRun.
Import LogicDatabase.
(** The variables of the process ([processActive], [dao], [gormservice]). *)
Record process := MkProcess { active : bool; GormDB : option nat; RedisClient : option nat; jwtKey : string }.
Inductive run_error : Type :=
| ConfigError | Installed | DatabaseError (e : database_error) | HTTPListenerError | RPCListenerError | ServerStopped | GraceExceeded.
(** The deferred calls; [JoinService] is the second half of the close of the service. *)
Inductive deferred : Type :=
| Restore (redis : option nat) | CloseRPCListener | CloseHTTPListener | CloseService | JoinService | ClosePublisher | CloseRedis
| CloseDatabase | Deactivate.
Inductive run_pc : Type :=
| PSelect | PShutdown (r : option run_error) | PDrain (r : option run_error) | PForced (r : option run_error) | PHttp (r : option run_error)
| PDefer (ds : list deferred) (r : option run_error) | PReturned (r : option run_error).
Record logic : Type := MkLogic {
  pc : run_pc; srv : servers; proc : process;
  db_open : bool; redis_open : bool; publisher_open : bool; rpc_listening : bool; http_listening : bool;
  (* the workers of the service, and its cancellation *)
  workers : nat; cancelled : bool; signalled : bool
}.
Definition set_pc (p : run_pc) (g : logic) : logic :=
  MkLogic p (srv g) (proc g) (db_open g) (redis_open g) (publisher_open g) (rpc_listening g) (http_listening g) (workers g) (cancelled g) (signalled g).
Definition set_srv (s : servers) (g : logic) : logic :=
  MkLogic (pc g) s (proc g) (db_open g) (redis_open g) (publisher_open g) (rpc_listening g) (http_listening g) (workers g) (cancelled g) (signalled g).
Definition set_proc (p : process) (g : logic) : logic :=
  MkLogic (pc g) (srv g) p (db_open g) (redis_open g) (publisher_open g) (rpc_listening g) (http_listening g) (workers g) (cancelled g) (signalled g).
Definition set_open (db redis publisher rpc http : bool) (g : logic) : logic :=
  MkLogic (pc g) (srv g) (proc g) db redis publisher rpc http (workers g) (cancelled g) (signalled g).
Definition set_workers (n : nat) (over : bool) (g : logic) : logic :=
  MkLogic (pc g) (srv g) (proc g) (db_open g) (redis_open g) (publisher_open g) (rpc_listening g) (http_listening g) n over (signalled g).

Definition set_active (b : bool) (p : process) : process := MkProcess b (GormDB p) (RedisClient p) (jwtKey p).
Definition idle : servers := MkServers false false 0 0 None false false 0 false false false false 0.
Definition both_serving : servers := MkServers true true 0 0 None true true 0 false false false false 0.

(** [database] is what the driver answers, [queries] and [schema] what the database does. *)
Record answers : Type := MkAnswers {
  ctx_over : bool; database : option nat; queries : nat → bool; schema : catalog; http_ok : bool; rpc_ok : bool
}.
(** A run that stops early still has the deferred calls of what it opened; until [serve] nothing
    runs beside it but the workers. *)
Inductive start_result : Type := NotRun (r : option run_error) | Running (g : logic).
Definition start `{External} (c : LogicApp.Config) (a : answers) (p : process) : start_result :=
  if negb (LogicApp.validate c) then NotRun (Some ConfigError)
  else if ctx_over a then NotRun None
  else if active p || bool_decide (GormDB p ≠ None) then NotRun (Some Installed)
  else
    let p := set_active true p in
    let early ds db redis publisher http n r := Running (MkLogic (PDefer ds (Some r)) idle p db redis publisher false http n false false) in
    match openDatabase (config.MySQL (LogicApp.Base c)) (database a) with
    | inl e => early [Deactivate] false false false false 0%nat (DatabaseError e)
    | inr db =>
      match verifySchema (queries a) (schema a) with
      | Some e => early [CloseDatabase; Deactivate] true false false false 0%nat (DatabaseError e)
      | None =>
        match RoutingStore.New true (LogicApp.RedisPrefix c) minute minute with
        | Err _ => early [CloseRedis; CloseDatabase; Deactivate] true true false false 0%nat ConfigError
        | Ok routes =>
          match KafkaPush.New (config.Brokers (config.Kafka (LogicApp.Base c))) (config.Topic (config.Kafka (LogicApp.Base c))) with
          | None => early [CloseRedis; CloseDatabase; Deactivate] true true false false 0%nat ConfigError
          | Some _ =>
            match NewService (logic_service_config c routes) with
            | None => early [ClosePublisher; CloseRedis; CloseDatabase; Deactivate] true true true false 0%nat ConfigError
            | Some _ =>
              let opened := [CloseService; ClosePublisher; CloseRedis; CloseDatabase; Deactivate] in
              if negb (http_ok a) then early opened true true true false 4%nat HTTPListenerError
              else if negb (rpc_ok a) then early (CloseHTTPListener :: opened) true true true true 4%nat RPCListenerError
              else
                Running (MkLogic PSelect both_serving
                           (MkProcess true (Some db) None (config.JWTSecret (LogicApp.Base c))) true true true true true 4 false false)
            end
          end
        end
      end
    end.
(** The deferred calls of a run that serves; [old] is [oldRedis]. *)
Definition all_deferred (old : option nat) : list deferred :=
  [Restore old; CloseRPCListener; CloseHTTPListener; CloseService; ClosePublisher; CloseRedis; CloseDatabase; Deactivate].
Definition run_deferred (d : deferred) (g : logic) : option (list deferred * logic) :=
  let opened db redis publisher rpc http := Some ([], set_open db redis publisher rpc http g) in
  match d with
  | Restore old => Some ([], set_proc (MkProcess (active (proc g)) None old "") g)
  | CloseRPCListener => opened (db_open g) (redis_open g) (publisher_open g) false (http_listening g)
  | CloseHTTPListener => opened (db_open g) (redis_open g) (publisher_open g) (rpc_listening g) false
  | CloseService => Some ([JoinService], set_workers (workers g) true g)
  | JoinService => match workers g with O => Some ([], g) | _ => None end
  | ClosePublisher => opened (db_open g) (redis_open g) false (rpc_listening g) (http_listening g)
  | CloseRedis => opened (db_open g) false (publisher_open g) (rpc_listening g) (http_listening g)
  | CloseDatabase => opened false (redis_open g) (publisher_open g) (rpc_listening g) (http_listening g)
  | Deactivate => Some ([], set_proc (set_active false (proc g)) g)
  end.
Inductive logic_label : Type :=
| LServer (l : server_label) | LSignal | LWorkerEnds
| LSelectDone | LSelectResult (closed : bool) | LShutdown | LTakeRpc | LForce | LTakeHttp | LDefer.
(** [closed] tells that the error of [Serve] is one of a server that was closed. *)
Definition logic_step (old : option nat) (l : logic_label) (g : logic) : option logic :=
  match l, pc g with
  (* no handler of Logic takes its connection over *)
  | LServer SUpgrade, _ => None
  | LServer l, _ => s ← server_step l (srv g); Some (set_srv s g)
  | LSignal, _ =>
    Some (MkLogic (pc g) (srv g) (proc g) (db_open g) (redis_open g) (publisher_open g) (rpc_listening g) (http_listening g)
            (workers g) (cancelled g) true)
  | LWorkerEnds, _ => match workers g with S n => if cancelled g then Some (set_workers n true g) else None | O => None end
  | LSelectDone, PSelect => if signalled g then Some (set_pc (PShutdown None) g) else None
  | LSelectResult closed, PSelect =>
    match ended (srv g) with
    | O => None
    | S n => Some (set_pc (PShutdown (if closed : bool then None else Some ServerStopped))
                     (set_srv (set_end (draining (srv g)) (deadline (srv g)) n (srv g)) g))
    end
  | LShutdown, PShutdown r => Some (set_pc (PDrain r) (set_srv (drain (srv g)) g))
  | LTakeRpc, PDrain r => if rpc_done (srv g) then Some (set_pc (PHttp r) g) else None
  | LForce, PDrain r => if deadline (srv g) then Some (set_pc (PForced r) (set_srv (stop_rpc (srv g)) g)) else None
  | LTakeRpc, PForced r => if rpc_done (srv g) then Some (set_pc (PHttp (Some (default GraceExceeded r))) g) else None
  | LTakeHttp, PHttp r =>
    match http_answer (srv g) with
    | Some true => Some (set_pc (PDefer (all_deferred old) r) g)
    | Some false => Some (set_pc (PDefer (all_deferred old) (Some (default GraceExceeded r))) (set_srv (close_http (srv g)) g))
    | None => None
    end
  | LDefer, PDefer (d :: ds) r => '(more, g) ← run_deferred d g; Some (set_pc (PDefer (more ++ ds) r) g)
  | LDefer, PDefer [] r => Some (set_pc (PReturned r) g)
  | _, _ => None
  end.
Fixpoint logic_run (old : option nat) (ls : list logic_label) (g : logic) : option logic :=
  match ls with [] => Some g | l :: ls => g' ← logic_step old l g; logic_run old ls g' end.
(** The states of a run of a process. *)
Inductive reachable `{External} (c : LogicApp.Config) (a : answers) (p : process) : logic → Prop :=
| reachable_start g : start c a p = Running g → reachable c a p g
| reachable_step l g g' : reachable c a p g → logic_step (RedisClient p) l g = Some g' → reachable c a p g'.
End LogicRun.

(** ** The chat server process ([cmd/my_chat_server/main.go], [internal/dao]) *)

Module ChatRun.
Inductive fault : Type := ConfigFault | GormFault | RedisFault | KafkaFault | ListenFault | ShutdownFault.
(** The variables: [dao.GormDB], [dao.RedisClient] and the service behind [PublishChatEvent]. *)
Record process : Type := MkProcess { GormDB : option nat; RedisClient : option nat; PublishChatEvent : option nat }.
Inductive resource : Type := Gorm (k : nat) | Redis (k : nat) | Kafka (k : nat) | Chat.
Inductive event : Type := InitJWT (secret : string) | Open (r : resource) | Consume (k : nat) | Listen | Shutdown | Close (r : resource).
(** What the libraries answer; [served] is how [ListenAndServe] ended, [None] for the signal. *)
Record answers : Type := MkAnswers {
  gorm : option nat; gorm_closes : bool; ping : option nat; dialled : option nat; served : option bool; shutdown_ok : bool
}.
(** A failed open, ping or migration leaves the variable nil. *)
Definition InitGorm (a : answers) (p : process) : option (nat * process) :=
  match GormDB p, gorm a with
  | None, Some k => Some (k, MkProcess (Some k) (RedisClient p) (PublishChatEvent p))
  | _, _ => None
  end.
Definition CloseGorm (a : answers) (p : process) : list event * process :=
  match GormDB p with
  | None => ([], p)
  | Some k => ([Close (Gorm k)], if gorm_closes a then MkProcess None (RedisClient p) (PublishChatEvent p) else p)
  end.
Definition InitRedis (c : config.RedisConfig) (a : answers) (p : process) : option (list event * process) :=
  if negb (config.RedisEnabled c) then Some ([], p)
  else
    match RedisClient p, ping a with
    | None, Some k => Some ([Open (Redis k)], MkProcess (GormDB p) (Some k) (PublishChatEvent p))
    | _, _ => None
    end.
Definition CloseRedis (p : process) : list event * process :=
  match RedisClient p with
  | None => ([], p)
  | Some k => ([Close (Redis k)], MkProcess (GormDB p) None (PublishChatEvent p))
  end.
(** [kafkaservice.New]: the service, when the broker was reached. *)
Definition New (c : config.KafkaConfig) (a : answers) : option nat :=
  if negb (config.KafkaEnabled c) || negb (bool_decide (config.Mode c = "kafka")) then None
  else if bool_decide (config.Brokers c = []) || bool_decide (config.Topic c = "") || bool_decide (config.ConsumerGroup c = "") then None
  else dialled a.
Inductive deferred : Type := DCloseGorm | DCloseRedis | DCloseKafka (k : nat) | DCloseChat.
Definition run_deferred (a : answers) (d : deferred) (p : process) : list event * process :=
  match d with
  | DCloseGorm => CloseGorm a p
  | DCloseRedis => CloseRedis p
  | DCloseKafka k => ([Close (Kafka k)], MkProcess (GormDB p) (RedisClient p) None)
  | DCloseChat => ([Close Chat], p)
  end.
Fixpoint finish (a : answers) (ds : list deferred) (p : process) : list event * process :=
  match ds with
  | [] => ([], p)
  | d :: ds => let '(t, p) := run_deferred a d p in let '(u, p) := finish a ds p in ((t ++ u)%list, p)
  end.
(** The end of [run]: what happened, the variables, and the error. *)
Definition return_ (a : answers) (r : option fault) (ds : list deferred) (t : list event) (p : process) : list event * process * option fault :=
  let '(u, p) := finish a ds p in ((t ++ u)%list, p, r).
Definition serve (a : answers) (ds : list deferred) (t : list event) (p : process) : list event * process * option fault :=
  let ds := DCloseChat :: ds in
  let t := (t ++ [Open Chat; Listen])%list in
  match served a with
  | Some closed => return_ a (if closed : bool then None else Some ListenFault) ds t p
  | None => return_ a (if shutdown_ok a then None else Some ShutdownFault) ds (t ++ [Shutdown]) p
  end.
Definition with_kafka (c : config.KafkaConfig) (a : answers) (ds : list deferred) (t : list event) (p : process)
    : list event * process * option fault :=
  if config.KafkaEnabled c && bool_decide (config.Mode c = "kafka") then
    match New c a with
    | None => if config.KafkaRequired c then return_ a (Some KafkaFault) ds t p else serve a ds t p
    | Some k =>
      serve a (DCloseKafka k :: ds) (t ++ [Open (Kafka k); Consume k]) (MkProcess (GormDB p) (RedisClient p) (Some k))
    end
  else serve a ds t p.
Definition run (cfg : option config.Config) (a : answers) (p : process) : list event * process * option fault :=
  match cfg with
  | None => ([], p, Some ConfigFault)
  | Some c =>
    let jwt := [InitJWT (config.JWTSecret c)] in
    match InitGorm a p with
    | None => (jwt, p, Some GormFault)
    | Some (k, p) =>
      let t := (jwt ++ [Open (Gorm k)])%list in
      let r := config.Redis c in
      if negb (config.RedisEnabled r) then with_kafka (config.Kafka c) a [DCloseGorm] t p
      else
        match InitRedis r a p with
        | Some (u, p) => with_kafka (config.Kafka c) a [DCloseRedis; DCloseGorm] (t ++ u) p
        | None =>
          if config.RedisRequired r then return_ a (Some RedisFault) [DCloseGorm] t p
          else with_kafka (config.Kafka c) a [DCloseRedis; DCloseGorm] t p
        end
    end
  end.
End ChatRun.
