(* ===== verification/RuntimesProofs.v ===== *)
(** * The Comet and Logic processes end cleanly

    The invariants of all interleavings of the goroutines of [Runtimes]: what is open while
    somebody uses it, what is closed when [Run] returns, what its result says; and that a process
    that was told to stop can always stop. *)
From S2P Require Import Prelude GoStd GoTime External Samples Dto CometHub CometRpc CometHandler RoutingStore KafkaPush LogicService Configs ConfigsProofs Runtimes.
Local Open Scope Z_scope.

(** A loaded configuration passed the check. *)
Lemma comet_config_valid `{External} parse_url file env c : CometApp.LoadConfig parse_url file env = Some c → CometApp.validate parse_url c = true.
Proof.
  unfold CometApp.LoadConfig. destruct (file _); [|done]. cbn [mbind option_bind]. cbn zeta.
  destruct (CometApp.validate _ _) eqn:Hv; [|done]. by intros [= <-].
Qed.
Lemma logic_config_valid `{External} file env c : LogicApp.LoadConfig file env = Some c → LogicApp.validate c = true.
Proof.
  unfold LogicApp.LoadConfig. destruct file as [[base sect]|]; [|done]. cbn [mbind option_bind].
  destruct (if bool_decide _ then _ else _); [|done]. cbn [mbind option_bind]. cbn zeta.
  destruct (_ && _) eqn:Hv; [|done]. intros [= <-]. by apply andb_true_iff in Hv as [_ Hv].
Qed.

Lemma logic_database_valid `{External} c : LogicApp.validate c = true → LogicApp.databaseValid (config.MySQL (LogicApp.Base c)) = true.
Proof. unfold LogicApp.validate. rewrite !andb_true_iff, negb_true_iff, !orb_false_iff, !negb_false_iff. tauto. Qed.

(** ** The servers *)

(** While [Serve] was not started there is nobody; a server that answered or was stopped takes
    nobody any more, and one that answered nil has nobody. *)
Record servers_ok (s : servers) : Prop := ServersOk {
  ok_http : http_answer s = Some true → http_on s = false ∧ plain s = 0%nat;
  ok_rpc : rpc_done s = true → rpc_on s = false ∧ (calls s = 0%nat ∨ rpc_stopped s = true);
  ok_answers : draining s = false → http_answer s = None ∧ rpc_done s = false ∧ deadline s = false;
  ok_late : http_answer s = Some false → deadline s = true
}.
#[local] Ltac server_cases Hs :=
  match type of Hs with server_step ?l _ = _ => destruct l end; cbn [server_step] in Hs;
  repeat match type of Hs with
         | (if ?b then _ else _) = Some _ => let E := fresh "E" in destruct b eqn:E; [|discriminate Hs]
         | match ?x with _ => _ end = Some _ => let E := fresh "E" in destruct x eqn:E; try discriminate Hs
         end;
  injection Hs as <-.
Lemma server_step_ok l s s' : servers_ok s → server_step l s = Some s' → servers_ok s'.
Proof.
  intros [H1 H2 H3 H4] Hs. server_cases Hs; constructor; cbn in *; try done; intros Hd.
  all: try (destruct (H1 Hd); congruence).
  all: try (destruct (H2 Hd) as [? [?|?]]; split; auto; congruence).
  all: try (destruct (H3 Hd) as (?&?&?); congruence).
  - injection Hd as ->. apply andb_true_iff in E0 as [_ E0%bool_decide_eq_true]. done.
  - by rewrite Hd in E0.
  - injection Hd as ->. by apply andb_true_iff in E0 as [_ ?].
  - apply andb_true_iff in E as [_ E%orb_true_iff]. rewrite bool_decide_eq_true in E. done.
  - by rewrite Hd in E.
Qed.
Lemma server_drain_ok s : servers_ok s → servers_ok (drain s).
Proof. intros []. by constructor. Qed.
Lemma take_result_ok n s : servers_ok s → servers_ok (set_end (draining s) (deadline s) n s).
Proof. by intros []. Qed.
Lemma stop_rpc_ok s : servers_ok s → servers_ok (stop_rpc s).
Proof. intros []. constructor; cbn; [done| |done|done]. intros _. split; [done|by right]. Qed.
Lemma close_http_ok s : servers_ok s → http_answer s = Some false → servers_ok (close_http s).
Proof. intros [H1 H2 H3 H4] E. constructor; cbn; [|done..]. by rewrite E. Qed.
Lemma server_step_deadline l s s' : server_step l s = Some s' → deadline s = true → deadline s' = true.
Proof. intros Hs. by server_cases Hs. Qed.
(** A server that takes no request and serves none. *)
Definition quiet (s : servers) : Prop := http_on s = false ∧ plain s = 0%nat ∧ sockets s = 0%nat.
Lemma server_step_quiet l s s' : quiet s → server_step l s = Some s' → quiet s'.
Proof. intros (H1&H2&H3) Hs. unfold quiet. server_cases Hs; cbn in *; try done; try congruence. by destruct ok. Qed.
(** What no step of the servers brings back. *)
Lemma server_step_keeps l s s' : server_step l s = Some s' →
  (http_on s = false → http_on s' = false) ∧ (rpc_on s = false → rpc_on s' = false) ∧ (rpc_stopped s = true → rpc_stopped s' = true)
  ∧ (rpc_on s = false → calls s = 0%nat → calls s' = 0%nat)
  ∧ (draining s' = draining s) ∧ (rpc_done s = true → rpc_done s' = true)
  ∧ (∀ b, http_answer s = Some b → http_answer s' = Some b) ∧ rpc_stopped s' = rpc_stopped s.
Proof. intros Hs. server_cases Hs; cbn in *; split_and!; try done; try congruence; try (by destruct ok). Qed.

(** Everybody leaves, and then both servers answer. *)
Fixpoint server_run (ls : list server_label) (s : servers) : option servers :=
  match ls with [] => Some s | l :: ls => s' ← server_step l s; server_run ls s' end.
Lemma server_run_app ls ks s s' : server_run ls s = Some s' → server_run (ls ++ ks) s = server_run ks s'.
Proof. revert s. induction ls as [|l ls IH]; intros s; cbn [server_run app]; [by intros [= ->]|]. destruct (server_step l s); [apply IH|done]. Qed.
Definition deserted (s : servers) : servers :=
  MkServers (http_on s) (http_serving s) 0 0 (http_answer s) (rpc_on s) (rpc_serving s) 0 (rpc_stopped s) (rpc_done s)
    (draining s) (deadline s) (ended s).
Definition everybody_leaves (s : servers) : list server_label :=
  (replicate (plain s) SRequestEnds ++ replicate (sockets s) SSocketEnds ++ replicate (calls s) SCallEnds)%list.
Lemma everybody_can_leave s : server_run (everybody_leaves s) s = Some (deserted s).
Proof.
  destruct s as [on serving p k a rpc rserving n st d dr dl e]. unfold everybody_leaves, deserted. cbn.
  induction p as [|p IH]; [|exact IH]. induction k as [|k IH]; [|exact IH]. induction n as [|n IH]; [done|exact IH].
Qed.
Definition servers_finish (s : servers) : list server_label :=
  (everybody_leaves s ++ (if rpc_done s then [] else [SGraceful]) ++ (match http_answer s with None => [SShutdown true] | _ => [] end))%list.
Lemma servers_can_finish s : draining s = true → ∃ s', server_run (servers_finish s) s = Some s' ∧
  rpc_done s' = true ∧ is_Some (http_answer s') ∧ plain s' = 0%nat ∧ sockets s' = 0%nat.
Proof.
  intros Hd. unfold servers_finish. rewrite (server_run_app _ _ _ _ (everybody_can_leave s)). unfold deserted.
  destruct (rpc_done s) eqn:Hr, (http_answer s) as [b|] eqn:Ha; cbn; rewrite ?Hd, ?Ha; cbn; eexists; (split; [reflexivity|]); cbn; eauto.
Qed.

(** ** Comet *)

Module CometRunProofs.
Import CometRun.

Definition result_of (p : run_pc) : option (option run_error) :=
  match p with
  | PRegister | PHandler | PListen | PSelect => None
  | PCancel r | PHub r | PShutdown r | PDrain r | PForced r | PHttp r | PWait r | PClose r | PDefer _ r | PReturned r => Some r
  end.
(** Nobody may come or is there: before the HTTP server starts and after the wait for handlers. *)
Definition nobody (p : run_pc) : bool :=
  match p with PRegister | PHandler | PListen | PClose _ | PDefer _ _ | PReturned _ => true | _ => false end.
Definition http_closed (p : run_pc) : bool := match p with PWait _ => true | _ => nobody p end.
Definition draining_at (p : run_pc) : bool :=
  match p with PDrain _ | PForced _ | PHttp _ | PWait _ | PClose _ => true | _ => false end.
Definition hub_closed_at (p : run_pc) : bool := match p with PShutdown _ => true | _ => draining_at p end.
Definition lifetime_over_at (p : run_pc) : bool := match p with PHub _ => true | _ => hub_closed_at p end.
Definition before_drain (p : run_pc) : bool :=
  match p with PRegister | PHandler | PListen | PSelect | PCancel _ | PHub _ | PShutdown _ => true | _ => false end.
(** A deferred call had its effect. *)
Definition effect (c : comet) (d : deferred) : Prop :=
  match d with
  | CloseHTTPListener => http_listening c = false
  | CloseInstance => inst c ≠ Live
  | StopRPC => rpc_on (srv c) = false ∧ rpc_stopped (srv c) = true
  | CloseRPCListener => rpc_listening c = false
  | ClosePool => pool_open c = false
  | CloseHub => hub_closed c = true
  | Cancel => lifetime_over c = true
  end.
(** The deferred calls that are left, if [Run] is at them. *)
Definition left_over (p : run_pc) : option (list deferred) :=
  match p with PDefer ds _ => Some ds | PReturned _ => Some [] | _ => None end.

Record comet_ok (c : comet) : Prop := CometOk {
  ok_servers : servers_ok (srv c);
  ok_nobody : nobody (pc c) = true → quiet (srv c);
  ok_closed : http_closed (pc c) = true → http_on (srv c) = false;
  ok_start : pc c = PRegister → inst c = NotStarted;
  ok_draining : before_drain (pc c) = true → draining (srv c) = false;
  ok_drains : draining_at (pc c) = true → draining (srv c) = true;
  ok_hub : hub_closed_at (pc c) = true → hub_closed c = true;
  ok_lifetime : lifetime_over_at (pc c) = true → lifetime_over c = true;
  ok_pool : match left_over (pc c) with
            | Some ds => (pool_open c = false → ClosePool ∉ ds) ∧ ∃ before, from_http = before ++ ds ∧ Forall (effect c) before
            | None => pool_open c = true
            end;
  ok_http_listening : match pc c with PRegister | PHandler | PListen => http_listening c = false | _ => True end;
  ok_result : result_of (pc c) = Some None → signalled c = true
    ∧ match pc c with PWait _ | PClose _ | PDefer _ _ | PReturned _ => http_answer (srv c) = Some true | _ => True end
}.
Lemma comet_started_ok : comet_ok started.
Proof. by constructor. Qed.
Lemma effect_server c l s d : server_step l (srv c) = Some s → effect c d → effect (set_srv s c) d.
Proof. intros Hs. destruct (server_step_keeps _ _ _ Hs) as (_&H1&H2&_). destruct d; cbn; try done. intros [? ?]. auto. Qed.
Lemma server_ok c l s : comet_ok c → server_step l (srv c) = Some s → comet_ok (set_srv s c).
Proof.
  intros [] Hs. destruct (server_step_keeps _ _ _ Hs) as (K1&K2&K3&_&K5&_&K7&_). constructor; cbn; try done; auto.
  - by eapply server_step_ok.
  - intros Hn. by eapply server_step_quiet; [apply ok_nobody0|].
  - intros Hb. rewrite K5. auto.
  - intros Hb. rewrite K5. auto.
  - destruct (left_over (pc c)); [|done]. destruct ok_pool0 as (Hp&before&Hb&Hall). split; [done|]. exists before. split; [done|].
    eapply Forall_impl; [exact Hall|]. intros d. by apply effect_server with l.
  - intros Hr. destruct (ok_result0 Hr) as [? Hm]. split; [done|]. by destruct (pc c); auto.
Qed.

(** The other labels: what the environment does to the instance, and the steps of [Run]. *)
Lemma comet_signal_ok c c' : comet_ok c → comet_step CSignal c = Some c' → comet_ok c'.
Proof.
  intros [] Hs. assert (MkComet (pc c) (srv c) (inst c) true (hub_closed c) (pool_open c) (rpc_listening c) (http_listening c) true = c')
    as <- by (unfold comet_step in Hs; destruct (pc c) as [| | | | | | | | | | | |[]|]; by injection Hs). constructor; cbn; try done.
  - destruct (left_over (pc c)); [|done]. destruct ok_pool0 as (Hp&before&Hb&Hall). split; [done|]. exists before. split; [done|].
    eapply Forall_impl; [exact Hall|]. intros []; cbn; done || auto.
  - intros Hr. destruct (ok_result0 Hr) as [_ Hm]. by split.
Qed.
Lemma instance_ends_ok c c' : comet_ok c → comet_step CInstanceEnds c = Some c' → comet_ok c'.
Proof.
  intros [] Hs. assert (inst c = Live ∧ set_inst Over c = c') as [Hi <-].
  { unfold comet_step in Hs. destruct (pc c), (inst c); try done; by injection Hs as <-. }
  constructor; cbn; try done.
  - intros Hp. specialize (ok_start0 Hp). congruence.
  - destruct (left_over (pc c)); [|done]. destruct ok_pool0 as (Hp&before&Hb&Hall). split; [done|]. exists before. split; [done|].
    eapply Forall_impl; [exact Hall|]. intros []; cbn; done || auto.
Qed.

#[local] Ltac run_cases Hs c Hpc :=
  unfold comet_step in Hs; destruct (pc c) eqn:Hpc; try discriminate Hs;
  repeat match type of Hs with
         | (if ?b then _ else _) = Some _ => let E := fresh "E" in destruct b eqn:E; [|discriminate Hs]
         | Some (if ?b then _ else _) = Some _ => destruct b
         | match ?x with _ => _ end = Some _ => let E := fresh "E" in destruct x eqn:E; try discriminate Hs
         end; injection Hs as <-.
Lemma comet_early_ok before ds c c' : pool_open c = true → from_http = (before ++ ds)%list → Forall (effect c') before →
  (pool_open c = false → ClosePool ∉ ds) ∧ ∃ before, from_http = (before ++ ds)%list ∧ Forall (effect c') before.
Proof. intros Hp Hd He. split; [congruence|eauto]. Qed.
Lemma start_steps_ok l c c' : comet_ok c → match l with CRegister _ | CHandler _ | CListen _ => True | _ => False end →
  comet_step l c = Some c' → comet_ok c'.
Proof.
  intros [] Hl Hs. destruct l; try done; run_cases Hs c Hpc; constructor; cbn in *; try done; try (by auto).
  - apply (comet_early_ok [CloseHTTPListener; CloseInstance]); [done..|]. repeat constructor; cbn; [done|]. by rewrite ok_start0.
  - apply (comet_early_ok [CloseHTTPListener]); [done..|]. by repeat constructor.
  - destruct ok_servers0 as [H1 H2 H3]. constructor; cbn; [|done..]. destruct (H3 (ok_draining0 eq_refl)) as [-> _]. done.
  - apply (comet_early_ok [CloseHTTPListener]); [done..|]. by repeat constructor.
Qed.
Lemma comet_main_steps_ok l c c' : comet_ok c →
  match l with CSelectDone | CSelectInstance | CSelectResult | CCancel | CHub | CShutdown | CTakeRpc | CForce | CTakeHttp | CWait | CClose => True | _ => False end →
  comet_step l c = Some c' → comet_ok c'.
Proof.
  intros [] Hl Hs. destruct l; try done; run_cases Hs c Hpc; constructor; cbn in *; try done; try (by auto).
  - by apply take_result_ok.
  - by apply server_drain_ok.
  - by apply stop_rpc_ok.
  - by destruct (ok_http _ ok_servers0 E) as [-> _].
  - intros Hr. by destruct (ok_result0 Hr).
  - by apply close_http_ok.
  - intros _. apply bool_decide_eq_true in E as [Hp Hk]. split_and!; auto.
  - apply (comet_early_ok [] _ c); [done|done|by constructor].
  - apply (comet_early_ok [] _ c); [done|done|by constructor].
Qed.
(** A deferred call has its effect, and keeps those of the others. *)
Lemma comet_run_deferred_effect d c c' : run_deferred d c = Some c' →
  effect c' d ∧ (∀ e, effect c e → effect c' e) ∧ (pool_open c' = false → pool_open c = false ∨ d = ClosePool).
Proof.
  destruct d; cbn [run_deferred]; intros Hd.
  all: try (injection Hd as <-; split_and!; [done|intros []; cbn; tauto|cbn; tauto]).
  destruct (inst c) eqn:Hi; try done; injection Hd as <-; (split_and!; [cbn; congruence|done|auto]).
Qed.
Lemma run_deferred_servers d c c' : run_deferred d c = Some c' → quiet (srv c) → servers_ok (srv c) →
  quiet (srv c') ∧ servers_ok (srv c') ∧ signalled c' = signalled c ∧ http_answer (srv c') = http_answer (srv c).
Proof.
  intros Hd Hq Hs. destruct d; cbn in Hd; try (injection Hd as <-); try (by split_and!).
  - destruct (inst c); try done; injection Hd as <-; by split_and!.
  - split_and!; try done. by apply stop_rpc_ok.
Qed.
Lemma from_http_NoDup : NoDup from_http.
Proof. by apply NoDup_ListNoDup; repeat constructor; cbn; intuition congruence. Qed.
Lemma comet_defer_ok c c' : comet_ok c → comet_step CDefer c = Some c' → comet_ok c'.
Proof.
  intros [] Hs. unfold comet_step in Hs. destruct (pc c) as [| | | | | | | | | | | |[|d ds] r|] eqn:Hpc; try done.
  - injection Hs as <-. constructor; cbn in *; try done; auto.
  - destruct (run_deferred d c) as [c1|] eqn:Hd; [|done]. injection Hs as <-. cbn in *.
    destruct ok_pool0 as (Hp&before&Hb&Hall). destruct (comet_run_deferred_effect _ _ _ Hd) as (He&Hmono&Hpool).
    destruct (run_deferred_servers _ _ _ Hd (ok_nobody0 eq_refl) ok_servers0) as (Hq&Hsv&Hsig&Hans).
    constructor; cbn; try done.
    + intros _. apply Hq.
    + split.
      * pose proof from_http_NoDup as Hnd. rewrite Hb in Hnd.
        apply NoDup_app in Hnd as (_&_&Hnd). apply NoDup_cons in Hnd as [Hnd _].
        intros Hc. destruct (Hpool Hc) as [Hc'| ->]; [|done]. specialize (Hp Hc'). by apply not_elem_of_cons in Hp as [_ Hp].
      * exists (before ++ [d])%list. rewrite <-app_assoc. split; [done|]. apply Forall_app. split; [|by repeat constructor].
        eapply Forall_impl; [exact Hall|]. intros e. cbn. by apply Hmono.
    + rewrite Hsig, Hans. exact ok_result0.
Qed.
Lemma comet_step_ok l c c' : comet_ok c → comet_step l c = Some c' → comet_ok c'.
Proof.
  intros Hok Hs. destruct l; try (refine (start_steps_ok _ _ _ Hok _ Hs); exact I); try (refine (comet_main_steps_ok _ _ _ Hok _ Hs); exact I).
  - assert (∃ s, server_step l (srv c) = Some s ∧ c' = set_srv s c) as (s&Hl&->).
    { unfold comet_step in Hs. destruct (server_step l (srv c)) as [s|]; [|destruct (pc c) as [| | | | | | | | | | | |[]|]; discriminate Hs].
      exists s. destruct (pc c) as [| | | | | | | | | | | |[]|]; by injection Hs as <-. }
    by eapply server_ok.
  - by apply (comet_signal_ok c).
  - by apply (instance_ends_ok c).
  - by apply (comet_defer_ok c).
Qed.
Lemma comet_reachable_ok c : reachable c → comet_ok c.
Proof. induction 1; [apply comet_started_ok|by eapply comet_step_ok]. Qed.

(** ** What is open while somebody uses it *)

Lemma pool_closed before ds : from_http = (before ++ ds)%list → ClosePool ∉ ds →
  ∀ e, e ∈ [CloseHTTPListener; CloseInstance; StopRPC; CloseRPCListener] → e ∈ before.
Proof.
  intros Hb Hn e He. rewrite !list_elem_of_In in *.
  do 5 (destruct before as [|? before]; cbn in Hb; [subst ds; exfalso; apply Hn; cbn; tauto|injection Hb as <- Hb]).
  cbn in *. tauto.
Qed.

(** ** A Comet that was told to stop can stop *)

Definition stops (c : comet) : Prop := ∃ ls c' r, comet_run ls c = Some c' ∧ pc c' = PReturned r.
Lemma comet_stops_step l c c' : comet_step l c = Some c' → stops c' → stops c.
Proof. intros Hs (ls&c1&r&Hr&Hp). exists (l :: ls), c1, r. split; [|done]. cbn [comet_run]. by rewrite Hs. Qed.
Lemma server_comet_step l c s : server_step l (srv c) = Some s → comet_step (CServer l) c = Some (set_srv s c).
Proof. intros Hs. unfold comet_step. destruct (pc c) as [| | | | | | | | | | | |[]|]; by rewrite Hs. Qed.
Lemma comet_stops_servers ls c s : server_run ls (srv c) = Some s → stops (set_srv s c) → stops c.
Proof.
  revert c. induction ls as [|l ls IH]; intros c Hr Hst; cbn [server_run] in Hr.
  - injection Hr as <-. by destruct c.
  - destruct (server_step l (srv c)) as [s1|] eqn:Hs; [|done]. apply (comet_stops_step (CServer l) c (set_srv s1 c)); [by apply server_comet_step|].
    by apply IH.
Qed.
Lemma stops_instance c : (∀ i, i ≠ Live → stops (set_inst i c)) → stops c.
Proof.
  intros Hi. destruct (inst c) eqn:Hl; [|apply (comet_stops_step CInstanceEnds _ (set_inst Over c)); [|by apply Hi]|];
    try (replace c with (set_inst (inst c) c) by (by destruct c); apply Hi; congruence).
  unfold comet_step. destruct (pc c) as [| | | | | | | | | | | |[]|]; by rewrite Hl.
Qed.
Lemma comet_defers_stop ds r c : pc c = PDefer ds r → inst c ≠ Live → stops c.
Proof.
  revert c. induction ds as [|d ds IH]; intros c Hp Hi.
  - apply (comet_stops_step CDefer _ (set_pc (PReturned r) c)); [unfold comet_step; by rewrite Hp|].
    exists [], (set_pc (PReturned r) c), r. done.
  - assert (∃ c', run_deferred d c = Some c' ∧ inst c' = inst c) as (c'&Hd&Hi').
    { destruct d; cbn; eauto. destruct (inst c) eqn:He; [eauto|done|eauto]. }
    apply (comet_stops_step CDefer _ (set_pc (PDefer ds r) c')); [unfold comet_step; rewrite Hp; by rewrite Hd|].
    apply IH; [done|]. cbn. by rewrite Hi'.
Qed.
Lemma defer_stops ds r c : pc c = PDefer ds r → stops c.
Proof. intros Hp. apply stops_instance. intros i Hi. by apply (comet_defers_stop ds r). Qed.
Ltac step_pc l Hp := eapply (comet_stops_step l); [unfold comet_step; rewrite Hp; reflexivity|].
Lemma close_stops r c : pc c = PClose r → stops c.
Proof.
  intros Hp. apply stops_instance. intros i Hi.
  apply (comet_stops_step CClose _ (set_pc (PDefer from_http r) (set_inst i c))); [unfold comet_step; cbn; rewrite Hp; by destruct i|].
  by apply (defer_stops from_http r).
Qed.
Lemma wait_stops r c : pc c = PWait r → stops c.
Proof.
  intros Hp. apply (comet_stops_servers _ _ _ (everybody_can_leave _)).
  eapply (comet_stops_step CWait); [unfold comet_step; cbn; rewrite Hp; reflexivity|]. by apply (close_stops r).
Qed.
Lemma comet_http_stops r c : pc c = PHttp r → is_Some (http_answer (srv c)) → stops c.
Proof.
  intros Hp [[] Ha]; (eapply (comet_stops_step CTakeHttp); [unfold comet_step; rewrite Hp, Ha; reflexivity|]; by eapply wait_stops).
Qed.
Lemma comet_drain_stops c : (∃ r, pc c = PDrain r ∨ pc c = PForced r ∨ pc c = PHttp r) → draining (srv c) = true → stops c.
Proof.
  intros (r&Hp) Hd. destruct (servers_can_finish _ Hd) as (s&Hr&Hdone&Ha&_). apply (comet_stops_servers _ _ _ Hr).
  destruct Hp as [Hp|[Hp|Hp]]; [| |by apply (comet_http_stops r)];
    (apply (comet_stops_step CTakeRpc _ (set_pc (PHttp r) (set_srv s c))); [unfold comet_step; cbn; by rewrite Hp, Hdone|by apply (comet_http_stops r)]).
Qed.
Lemma comet_shutdown_stops r c : pc c = PShutdown r → stops c.
Proof. intros Hp. step_pc CShutdown Hp. apply comet_drain_stops; [|done]. exists r. by left. Qed.
Lemma cancel_stops r c : pc c = PCancel r ∨ pc c = PHub r → stops c.
Proof.
  intros [Hp|Hp]; [step_pc CCancel Hp; eapply (comet_stops_step CHub); [reflexivity|]|step_pc CHub Hp]; by apply (comet_shutdown_stops r).
Qed.

Lemma Comet_can_stop c : reachable c →
  ∃ ls c' r, comet_run (CSignal :: ls) c = Some c' ∧ pc c' = PReturned r.
Proof.
  intros Hc. destruct (comet_step CSignal c) as [c1|] eqn:Hs; [|unfold comet_step in Hs; by destruct (pc c) as [| | | | | | | | | | | |[]|]].
  assert (comet_ok c1) as Hok by (by eapply comet_step_ok; [apply comet_reachable_ok|]).
  assert (stops c1) as (ls&c'&r&Hr&Hp).
  2: { exists ls, c', r. split; [|done]. cbn [comet_run]. by rewrite Hs. }
  assert (signalled c1 = true) as Hsig
    by (unfold comet_step in Hs; destruct (pc c) as [| | | | | | | | | | | |[]|]; by injection Hs as <-).
  clear Hc Hs. pose proof (ok_drains _ Hok) as Hd. destruct (pc c1) as [| | | |r|r|r|r|r|r|r|r|ds r|r] eqn:Hp; cbn in Hd.
  - step_pc (CRegister false) Hp. by eapply defer_stops.
  - step_pc (CHandler false) Hp. by eapply defer_stops.
  - step_pc (CListen false) Hp. by eapply defer_stops.
  - eapply (comet_stops_step CSelectDone); [unfold comet_step; rewrite Hp, Hsig; reflexivity|]. by apply (cancel_stops None); left.
  - by apply (cancel_stops r); left.
  - by apply (cancel_stops r); right.
  - by apply (comet_shutdown_stops r).
  - apply comet_drain_stops; [eauto|by apply Hd].
  - apply comet_drain_stops; [eauto|by apply Hd].
  - apply comet_drain_stops; [eauto|by apply Hd].
  - by apply (wait_stops r).
  - by apply (close_stops r).
  - by apply (defer_stops ds r).
  - by exists [], c1, r.
Qed.

(** C23: Comet stops cleanly, in every interleaving of its goroutines.  The pool of calls to Logic
    is closed only when the instance has ended, no HTTP handler and no socket is left, the RPC
    server is stopped and both listeners are closed; handlers are waited for only when the hub is
    closed, the lifetime over and no new one can come; when [Run] has returned every deferred call
    was made, and a return without error means that the process was told to stop and its HTTP
    server ended within the grace period.  It can always stop: when it is told to, there is a way
    on to the return of [Run], whoever is connected and whatever it waits for. *)
Theorem Comet_stops_cleanly c : reachable c →
  (pool_open c = false →
     inst c ≠ Live ∧ quiet (srv c) ∧ rpc_on (srv c) = false ∧ http_listening c = false ∧ rpc_listening c = false)
  ∧ (∀ r, pc c = PWait r → hub_closed c = true ∧ lifetime_over c = true ∧ http_on (srv c) = false)
  ∧ (∀ r, pc c = PReturned r →
       (∀ e, e ∈ from_http → effect c e) ∧ quiet (srv c)
       ∧ (r = None → signalled c = true ∧ http_answer (srv c) = Some true))
  ∧ ∃ ls c' r, comet_run (CSignal :: ls) c = Some c' ∧ pc c' = PReturned r.
Proof.
  intros Hreach. pose proof (comet_reachable_ok _ Hreach) as []. split_and!; [..|by apply Comet_can_stop].
  - intros Hp. destruct (left_over (pc c)) as [ds|] eqn:Hl; [|congruence]. destruct ok_pool0 as (Hn&before&Hb&Hall).
    assert (∀ e, e ∈ [CloseHTTPListener; CloseInstance; StopRPC; CloseRPCListener] → effect c e) as He.
    { intros e Hin. rewrite Forall_forall in Hall. apply Hall. by apply (pool_closed before ds); auto. }
    split_and!; [apply (He CloseInstance)| |apply (He StopRPC)|apply (He CloseHTTPListener)|apply (He CloseRPCListener)]; try (by repeat constructor).
    apply ok_nobody0. by destruct (pc c).
  - intros r Hp. rewrite Hp in *. auto.
  - intros r Hp. rewrite Hp in *. cbn in *. destruct ok_pool0 as (_&before&Hb&Hall). rewrite app_nil_r in Hb. subst before.
    rewrite Forall_forall in Hall. split_and!; auto. intros ->. by apply ok_result0.
Qed.
Lemma comet_run_reachable ls c c' : comet_run ls c = Some c' → reachable c → reachable c'.
Proof.
  revert c. induction ls as [|l ls IH]; intros c; cbn [comet_run]; [by intros [= ->]|].
  destruct (comet_step l c) as [c1|] eqn:Hs; [|done]. intros Hr Hc. apply (IH c1 Hr). by eapply reachable_step.
Qed.
(** A request, a socket and a call are served while the process is told to stop. *)
Definition sample_run : list comet_label :=
  [CRegister true; CHandler true; CListen true; CServer SRequest; CServer SRequest; CServer SUpgrade; CServer SCall; CSignal; CSelectDone;
   CCancel; CHub; CShutdown; CServer SCallEnds; CServer SGraceful; CTakeRpc; CServer SRequestEnds; CServer (SShutdown true); CTakeHttp;
   CServer SSocketEnds; CWait; CInstanceEnds; CClose; CDefer; CDefer; CDefer; CDefer; CDefer; CDefer; CDefer; CDefer].
Lemma Comet_stops_cleanly_witness :
  ∃ c, comet_run sample_run started = Some c ∧ pc c = PReturned None
  ∧ (∀ e, e ∈ from_http → effect c e) ∧ quiet (srv c) ∧ signalled c = true.
Proof.
  eexists. split; [vm_compute; reflexivity|]. split; [reflexivity|].
  match goal with |- context [effect ?c] => assert (reachable c) as Hc end.
  { apply (comet_run_reachable sample_run started); [vm_compute; reflexivity|constructor]. }
  destruct (Comet_stops_cleanly _ Hc) as (_&_&Hend&_). destruct (Hend None eq_refl) as (He&Hq&Hs).
  split; [exact He|]. split; [exact Hq|]. exact (proj1 (Hs eq_refl)).
Defined.

(** ** A loaded configuration starts *)

Lemma Comet_starts `{External} {Laws : ExternalLaws _} parse_url file env c :
  CometApp.LoadConfig parse_url file env = Some c → start parse_url c false true true = Started started.
Proof.
  intros Hl. destruct (comet_config_starts _ _ _ _ Hl) as ((hub&Hh&Hs)&_). apply comet_config_valid in Hl.
  unfold start. by rewrite Hl, Hh, Hs.
Qed.
End CometRunProofs.

(** ** The clients of the workers of Logic *)

Module CometPoolProofs.
Import CometPool.

(** Every client made is listed under one address. *)
Record pool_ok (p : cometPool) : Prop := PoolOk {
  ok_bound : ∀ address k, connections p !! address = Some k → (k < made p)%nat;
  ok_listed : ∀ k, (k < made p)%nat → ∃ address, connections p !! address = Some k;
  ok_single : ∀ a b k, connections p !! a = Some k → connections p !! b = Some k → a = b
}.
Lemma newCometPool_ok : pool_ok newCometPool.
Proof. constructor; cbn; intros; try lia; by rewrite lookup_empty in *. Qed.
Lemma client_ok over dialled address p : pool_ok p → pool_ok (client over dialled address p).2.
Proof.
  intros [H1 H2 H3]. unfold client. destruct over; [done|]. destruct (connections p !! address) as [k|] eqn:Ha; [done|].
  destruct dialled; [|done]. constructor; cbn.
  - intros b k [[<- <-]|[_ Hb]]%lookup_insert_Some; [lia|]. apply H1 in Hb. lia.
  - intros k Hk. destruct (decide (k = made p)) as [->|]; [exists address; by rewrite lookup_insert_eq|].
    destruct (H2 k) as [b Hb]; [lia|]. exists b. rewrite lookup_insert_ne; [done|congruence].
  - intros a b k [[<- <-]|[_ Hka]]%lookup_insert_Some [[<- Hkb]|[_ Hkb]]%lookup_insert_Some; [done| |by subst; apply H1 in Hka; lia|by eapply H3].
    apply H1 in Hkb. lia.
Qed.
(** The same address has the same client, and [close] closes all that were made. *)
Lemma client_again dialled address p k p' : client false dialled address p = (Some k, p') → client false true address p' = (Some k, p').
Proof.
  unfold client. destruct (connections p !! address) as [k'|] eqn:Ha; [intros [= -> <-]; by rewrite Ha|].
  destruct dialled; [|done]. intros [= <- <-]. cbn. by rewrite lookup_insert_eq.
Qed.
Lemma close_all p k : pool_ok p → (k < made p)%nat → k ∈ closed (close p).
Proof.
  intros Hp Hk. destruct (ok_listed _ Hp k Hk) as [a Ha]. cbn. apply list_elem_of_fmap. exists (a, k). split; [done|].
  by apply elem_of_map_to_list.
Qed.
End CometPoolProofs.

(** ** The database of Logic *)

Module LogicDatabaseProofs.
Import LogicDatabase.

Lemma all_there {A} `{EqDecision A} (l e : list A) : NoDup l → NoDup e → l ⊆ e → (length l = length e ↔ e ⊆ l).
Proof.
  intros Hl He Hsub. apply NoDup_submseteq in Hsub; [|done]. split.
  - intros Hlen x Hx. apply submseteq_length_Permutation in Hsub; [|lia]. by rewrite Hsub.
  - intros Hsub'. apply NoDup_submseteq in Hsub'; [|done]. apply submseteq_length in Hsub, Hsub'. lia.
Qed.
Lemma count_tables_exact c :
  count_tables c = 7%nat ↔ ∀ name, name ∈ expected_tables → MkTable name "BASE TABLE" ∈ tables c.
Proof.
  unfold count_tables. set (l := table_name <$> _).
  assert (∀ name, name ∈ l ↔ name ∈ expected_tables ∧ MkTable name "BASE TABLE" ∈ tables c) as Hl.
  { intros name. unfold l. rewrite list_elem_of_fmap. split.
    - intros ([n ty]&->&Hin). apply list_elem_of_filter in Hin as [[Hn Hty] Hin]. cbn in *. by subst.
    - intros [Hn Hin]. exists (MkTable name "BASE TABLE"). split; [done|]. by apply list_elem_of_filter. }
  rewrite (all_there (remove_dups l) expected_tables).
  - split; intros H name Hin; [|apply elem_of_remove_dups, Hl; auto]. apply H in Hin. by apply elem_of_remove_dups, Hl in Hin as [_ ?].
  - apply NoDup_remove_dups.
  - by apply (bool_decide_unpack _).
  - intros name Hin. by apply elem_of_remove_dups, Hl in Hin as [? _].
Qed.
Definition expected_columns : list string := ["client_message_id"; "request_fingerprint"; "recipient_ids"].
(** A column of the message table as it has to be. *)
Definition declared (c : catalog) (name : string) : Prop :=
  ∃ k, k ∈ columns c ∧ c_table k = "message" ∧ column_name k = name ∧ is_nullable k = "NO" ∧ expected_column k.
Definition catalog_ok (c : catalog) : Prop := NoDup ((λ k, (c_table k, column_name k)) <$> columns c).
Lemma message_columns_NoDup c : catalog_ok c →
  NoDup (column_name <$> filter (λ k, (c_table k = "message" ∧ is_nullable k = "NO") ∧ expected_column k) (columns c)).
Proof.
  unfold catalog_ok. induction (columns c) as [|k l IH]; [constructor|]. rewrite fmap_cons. intros [Hk Hl]%NoDup_cons. rewrite filter_cons.
  destruct (decide _) as [[[Ht _] _]|]; [|by apply IH]. rewrite fmap_cons. apply NoDup_cons. split; [|by apply IH].
  rewrite list_elem_of_fmap. intros (k'&Hn&[[[Ht' _] _] Hin]%list_elem_of_filter). apply Hk. apply list_elem_of_fmap. exists k'.
  split; [congruence|done].
Qed.
Lemma count_columns_exact c : catalog_ok c → count_columns c = 3%nat ↔ ∀ name, name ∈ expected_columns → declared c name.
Proof.
  intros Hc. unfold count_columns. rewrite <-(length_fmap column_name). set (l := column_name <$> _).
  assert (∀ name, name ∈ l ↔ declared c name) as Hl.
  { intros name. unfold l, declared. rewrite list_elem_of_fmap. split.
    - intros (k&->&[[[? ?] ?] ?]%list_elem_of_filter). by exists k.
    - intros (k&?&?&<-&?&?). exists k. split; [done|]. by apply list_elem_of_filter. }
  rewrite (all_there l expected_columns).
  - split; intros H name Hin; apply Hl; auto.
  - by apply message_columns_NoDup.
  - by apply (bool_decide_unpack _).
  - intros name (k&_&_&<-&_&He)%Hl. rewrite list_elem_of_In. cbn. destruct He as [(->&_)|[(->&_)|(->&_)]]; tauto.
Qed.
(** The only two names that are written so. *)
Lemma two_names l : String.concat "," l = "send_id,client_message_id" ∧ length l = 2%nat ↔ l = ["send_id"; "client_message_id"].
Proof.
  assert (∀ x s t, (String x s ++ t)%string = String x (s ++ t)) as Hx by done. assert (∀ t, ("" ++ t)%string = t) as Hn by done.
  split; [|by intros ->]. intros [Hc Hl]. destruct l as [|a [|b []]]; try discriminate Hl. clear Hl.
  change (String.concat "," [a; b]) with (a ++ "," ++ b)%string in Hc. rewrite Hx, Hn in Hc.
  do 7 (destruct a as [|? a]; [rewrite Hn in Hc; discriminate Hc|rewrite Hx in Hc; injection Hc as -> Hc]).
  destruct a as [|? a]; [rewrite Hn in Hc; by injection Hc as ->|]. rewrite Hx in Hc. injection Hc as -> Hc. exfalso.
  do 17 (destruct a as [|? a]; [rewrite Hn in Hc; discriminate Hc|rewrite Hx in Hc; injection Hc as -> Hc]).
  destruct a; [rewrite Hn in Hc|rewrite Hx in Hc]; discriminate Hc.
Qed.
Lemma count_indexes_exact c :
  (1 ≤ count_indexes c)%nat ↔ ∃ name, index_columns c name = ["send_id"; "client_message_id"].
Proof.
  unfold count_indexes. set (P := λ name, _). split.
  - intros Hlen. destruct (filter P _) as [|name l] eqn:Hf; [cbn in Hlen; lia|].
    assert (name ∈ filter P (remove_dups (index_name <$> unique_rows c))) as [Hn _]%list_elem_of_filter by (rewrite Hf; by left).
    exists name. by apply two_names.
  - intros [name Hn]. assert (name ∈ filter P (remove_dups (index_name <$> unique_rows c))) as Hin.
    2: { destruct (filter P _); [by apply elem_of_nil in Hin|cbn; lia]. }
    apply list_elem_of_filter. split; [by apply two_names|]. apply elem_of_remove_dups. unfold index_columns in Hn.
    destruct (filter (λ r, index_name r = name) (unique_rows c)) as [|r l] eqn:Hf; [done|].
    assert (r ∈ filter (λ r, index_name r = name) (unique_rows c)) as [Hr Hin]%list_elem_of_filter by (rewrite Hf; by left).
    apply list_elem_of_fmap. by exists r.
Qed.
(** Logic serves exactly on a database that has the tables, the columns of the store's messages
    and the unique key of sender and client id that [MessageStore.Save] relies on. *)
Theorem verifySchema_exact ok c : catalog_ok c → (∀ n, ok n = true) →
  verifySchema ok c = None ↔
    (∀ name, name ∈ expected_tables → MkTable name "BASE TABLE" ∈ tables c)
    ∧ (∀ name, name ∈ expected_columns → declared c name)
    ∧ ∃ name, index_columns c name = ["send_id"; "client_message_id"].
Proof.
  intros Hc Hok. rewrite <-count_tables_exact, <-(count_columns_exact _ Hc), <-count_indexes_exact. unfold verifySchema. rewrite !Hok. cbn [negb].
  destruct (bool_decide_reflect (count_tables c = 7%nat)) as [Ht|Ht]; cbn [negb]; [|by split; [|intros [? _]]].
  destruct (bool_decide_reflect (count_columns c = 3%nat)) as [Hk|Hk]; cbn [negb]; [|by split; [|intros (_&?&_)]].
  destruct (bool_decide_reflect (count_indexes c < 1)%nat) as [Hi|Hi]; split; try done; [intros (_&_&?); lia|intros _; split_and!; [done|done|lia]].
Qed.
(** [init-schema] touches nothing that has a table, and what it made can be served. *)
Theorem initialize_safe auto_migrate ok c :
  (tables c ≠ [] → initialize auto_migrate ok c = (Some (if ok 0%nat then notEmpty else errDatabase), c))
  ∧ ((initialize auto_migrate ok c).1 = None →
       ∃ c', auto_migrate c = (true, c') ∧ initialize auto_migrate ok c = (None, c') ∧ verifySchema (λ n, ok (S n)) c' = None).
Proof.
  unfold initialize, InitSchema. split.
  - intros Ht. destruct (ok 0%nat); cbn [negb]; [|done]. destruct (tables c); [done|]. by rewrite bool_decide_false.
  - destruct (ok 0%nat); cbn [negb]; [|done]. destruct (bool_decide _); cbn [negb]; [|done].
    destruct (auto_migrate c) as [[] c'] eqn:Hm; [|done]. cbn. intros Hv. exists c'. by rewrite Hv.
Qed.
End LogicDatabaseProofs.

(** ** Logic *)

Module LogicRunProofs.
Import LogicRun.

(** The deferred calls one by one, the close of the service in its two halves. *)
Definition expand (ds : list deferred) : list deferred :=
  flat_map (λ d, match d with CloseService => [CloseService; JoinService] | _ => [d] end) ds.
Definition all_calls (old : option nat) : list deferred := expand (all_deferred old).
(** What a deferred call leaves; [key] is the key of the tokens that the run leaves. *)
Definition effect (key : string) (g : logic) (d : deferred) : Prop :=
  match d with
  | Restore old => GormDB (proc g) = None ∧ RedisClient (proc g) = old ∧ jwtKey (proc g) = key
  | CloseRPCListener => rpc_listening g = false
  | CloseHTTPListener => http_listening g = false
  | CloseService => workers g = 0%nat ∨ cancelled g = true
  | JoinService => workers g = 0%nat
  | ClosePublisher => publisher_open g = false
  | CloseRedis => redis_open g = false
  | CloseDatabase => db_open g = false
  | Deactivate => active (proc g) = false
  end.
Definition left_over (p : run_pc) : option (list deferred) :=
  match p with PDefer ds _ => Some ds | PReturned _ => Some [] | _ => None end.
Definition all_open (g : logic) : Prop := db_open g = true ∧ redis_open g = true ∧ publisher_open g = true.
Definition off (s : servers) : Prop := http_on s = false ∧ rpc_on s = false.
Definition empty (s : servers) : Prop := off s ∧ plain s = 0%nat ∧ calls s = 0%nat.
Lemma server_step_off l s s' : off s → server_step l s = Some s' → off s'.
Proof. intros [? ?] Hs. apply server_step_keeps in Hs as (?&?&_). split; auto. Qed.
Lemma server_step_empty l s s' : empty s → server_step l s = Some s' → empty s'.
Proof.
  intros [[H1 H2] [H3 H4]] Hs. unfold empty, off. server_cases Hs; cbn in *; split_and!; try done; try congruence. by destruct ok.
Qed.
(** What the position of [Run] tells of the servers. *)
Definition servers_at (p : run_pc) (s : servers) : Prop :=
  match p with
  | PSelect | PShutdown _ => draining s = false ∧ rpc_stopped s = false
  | PDrain _ => draining s = true ∧ rpc_stopped s = false
  | PForced _ => draining s = true ∧ rpc_stopped s = true ∧ deadline s = true
  | PHttp r => draining s = true ∧ rpc_done s = true ∧ (rpc_stopped s = true → deadline s = true ∧ r ≠ None)
  | PDefer _ r | PReturned r => off s ∧ (empty s ∨ deadline s = true ∧ r ≠ None)
  end.

(** [secret] is the key of the configuration; [key] the key that is left. *)
Record logic_ok (old : option nat) (secret key : string) (g : logic) : Prop := LogicOk {
  ok_servers : servers_ok (srv g);
  ok_at : servers_at (pc g) (srv g);
  ok_calls : match left_over (pc g) with
             | None => all_open g ∧ GormDB (proc g) ≠ None ∧ jwtKey (proc g) = secret ∧ key = ""
             | Some ds => (JoinService ∈ expand ds → all_open g)
                          ∧ ∃ before, all_calls old = (before ++ expand ds)%list ∧ Forall (effect key g) before
                                      ∧ (before = [] → key = "")
             end;
  ok_active : active (proc g) = true ∨ left_over (pc g) = Some [];
  ok_joining : match left_over (pc g) with Some ds => JoinService ∈ ds → cancelled g = true | None => True end
}.
(** The key that a run leaves: none if it served, else the one that was there. *)
Definition key_left `{External} (c : LogicApp.Config) (a : answers) (p : process) : string :=
  match start c a p with Running g => match pc g with PSelect => "" | _ => jwtKey p end | NotRun _ => jwtKey p end.
(** A run that stopped early has what it did not open closed. *)
Lemma logic_early_ok old secret before p ds db redis publisher http n r :
  all_calls old = (before ++ expand ds)%list → before ≠ [] →
  let g := MkLogic (PDefer ds (Some r)) idle (set_active true p) db redis publisher false http n false false in
  Forall (effect (jwtKey p) g) before → (JoinService ∈ expand ds → all_open g) → JoinService ∉ ds → logic_ok old secret (jwtKey p) g.
Proof. intros Hb Hne g He Ho Hj. constructor; cbn; [done|by split; [|left]|split; [done|by exists before]|by left|done]. Qed.
#[local] Ltac early before :=
  injection 1 as <-; apply (logic_early_ok _ _ before); [reflexivity|discriminate|rewrite ?Forall_cons; cbn; split_and?; auto using Forall_nil_2|first [by intros _|rewrite list_elem_of_In; cbn; intuition discriminate]|
    rewrite list_elem_of_In; cbn; intuition discriminate].
Lemma logic_start_ok `{External} c a p g : start c a p = Running g →
  logic_ok (RedisClient p) (config.JWTSecret (LogicApp.Base c)) (key_left c a p) g.
Proof.
  unfold key_left. intros Hst. rewrite Hst. revert Hst.
  unfold start. destruct (negb _); [done|]. destruct (ctx_over a); [done|]. destruct (active p); [done|].
  destruct (bool_decide _) eqn:Hdb; [done|]. apply bool_decide_eq_false in Hdb.
  assert (GormDB p = None) as Hn by (destruct (GormDB p); [exfalso; by apply Hdb|done]). set (old := RedisClient p). cbn [orb].
  destruct (LogicDatabase.openDatabase _ _) as [e|db];
    [early [Restore old; CloseRPCListener; CloseHTTPListener; CloseService; JoinService; ClosePublisher; CloseRedis; CloseDatabase]|].
  destruct (LogicDatabase.verifySchema _ _) as [e|];
    [early [Restore old; CloseRPCListener; CloseHTTPListener; CloseService; JoinService; ClosePublisher; CloseRedis]|].
  destruct (RoutingStore.New _ _ _ _) as [routes|];
    [|early [Restore old; CloseRPCListener; CloseHTTPListener; CloseService; JoinService; ClosePublisher]].
  destruct (KafkaPush.New _ _);
    [|early [Restore old; CloseRPCListener; CloseHTTPListener; CloseService; JoinService; ClosePublisher]].
  destruct (NewService _); [|early [Restore old; CloseRPCListener; CloseHTTPListener; CloseService; JoinService]].
  destruct (http_ok a); cbn [negb]; [|early [Restore old; CloseRPCListener; CloseHTTPListener]].
  destruct (rpc_ok a); cbn [negb]; [|early [Restore old; CloseRPCListener]].
  injection 1 as <-. constructor; cbn; try done; by left.
Qed.

(** The steps. *)
Lemma logic_server old l g g' : logic_step old (LServer l) g = Some g' → ∃ s, server_step l (srv g) = Some s ∧ g' = set_srv s g.
Proof.
  unfold logic_step. intros Hs. destruct (server_step l (srv g)) as [s|]; destruct l; try discriminate Hs; injection Hs as <-; eauto.
Qed.
Lemma logic_signal old g g' : logic_step old LSignal g = Some g' →
  MkLogic (pc g) (srv g) (proc g) (db_open g) (redis_open g) (publisher_open g) (rpc_listening g) (http_listening g)
    (workers g) (cancelled g) true = g'.
Proof. unfold logic_step. by intros [= <-]. Qed.
Lemma logic_worker old g g' : logic_step old LWorkerEnds g = Some g' → ∃ n, workers g = S n ∧ cancelled g = true ∧ g' = set_workers n true g.
Proof. unfold logic_step. destruct (workers g) as [|n]; [done|]. destruct (cancelled g); [|done]. intros [= <-]. eauto. Qed.
Lemma effects_kept key (g g' : logic) before : (∀ d, effect key g d → effect key g' d) → Forall (effect key g) before → Forall (effect key g') before.
Proof. intros He Hall. eapply Forall_impl; [exact Hall|exact He]. Qed.
Lemma server_label_ok old secret key l g g' : logic_ok old secret key g → logic_step old (LServer l) g = Some g' → logic_ok old secret key g'.
Proof.
  intros [] (s&Hs&->)%logic_server. pose proof (server_step_keeps _ _ _ Hs) as (_&_&_&_&K5&K6&_&K8).
  pose proof (server_step_deadline _ _ _ Hs) as Hlate. constructor; cbn; try done.
  - by eapply server_step_ok.
  - assert (∀ r : option run_error, off (srv g) ∧ (empty (srv g) ∨ deadline (srv g) = true ∧ r ≠ None) →
      off s ∧ (empty s ∨ deadline s = true ∧ r ≠ None)) as Hover.
    { intros r [? He]. split; [by eapply server_step_off|]. destruct He as [He|[? ?]]; [left; by eapply server_step_empty|right; auto]. }
    unfold servers_at in *. rewrite K5, K8. destruct (pc g); try done; [| |by apply Hover..].
    + destruct ok_at0 as (?&?&?). split_and!; auto.
    + destruct ok_at0 as (?&?&Hr). split_and!; auto. intros [? ?]%Hr. auto.
Qed.
Lemma logic_signal_ok old secret key g g' : logic_ok old secret key g → logic_step old LSignal g = Some g' → logic_ok old secret key g'.
Proof. intros [] <-%logic_signal. by constructor. Qed.
Lemma worker_ok old secret key g g' : logic_ok old secret key g → logic_step old LWorkerEnds g = Some g' → logic_ok old secret key g'.
Proof.
  intros [] (n&Hn&Hc&->)%logic_worker. constructor; cbn; try done.
  - destruct (left_over (pc g)); [|done]. destruct ok_calls0 as (Ho&before&Hb&Hall&Hk). split; [done|]. exists before. split; [done|].
    split; [|done]. eapply effects_kept; [|exact Hall]. intros []; cbn; try done; [by right|lia].
  - by destruct (left_over (pc g)).
Qed.
#[local] Ltac logic_cases Hs g Hpc :=
  unfold logic_step in Hs; destruct (pc g) eqn:Hpc; try discriminate Hs;
  repeat match type of Hs with
         | (if ?b then _ else _) = Some _ => let E := fresh "E" in destruct b eqn:E; [|discriminate Hs]
         | match ?x with _ => _ end = Some _ => let E := fresh "E" in destruct x eqn:E; try discriminate Hs
         end; injection Hs as <-.
(** [Run] returns from [serve] to its deferred calls. *)
Lemma serve_ends old secret key r g : servers_ok (srv g) → servers_at (PDefer (all_deferred old) r) (srv g) → all_open g →
  active (proc g) = true → key = "" → logic_ok old secret key (set_pc (PDefer (all_deferred old) r) g).
Proof.
  intros Hs Hat Ho Ha Hk. constructor; cbn [set_pc pc srv proc left_over]; [done|done|split|by left|].
  - done.
  - by exists [].
  - rewrite list_elem_of_In. cbn. intuition discriminate.
Qed.
Lemma take_http_ok old secret key g g' : logic_ok old secret key g → logic_step old LTakeHttp g = Some g' → logic_ok old secret key g'.
Proof.
  intros [Hs Hat Hc Ha Hj] Hst. unfold logic_step in Hst. destruct (pc g) as [| | | |r| |] eqn:Hp; try done. cbn in *.
  destruct Ha as [Ha|]; [|done]. destruct Hat as (_&Hd&Hr). destruct (ok_rpc _ Hs Hd) as [Hoff Hcalls]. destruct Hc as (Ho&_&_&Hk).
  destruct (http_answer (srv g)) as [[]|] eqn:He; [| |done]; injection Hst as <-.
  - destruct (ok_http _ Hs He) as [Hon Hplain]. apply serve_ends; [done| |done|done|done]. split; [done|].
    destruct Hcalls as [|Hst]; [by left|right; by apply Hr].
  - apply (serve_ends _ _ _ _ (set_srv (close_http (srv g)) g)); [by apply close_http_ok| |done|done|done]. split; [done|].
    right. split; [|done]. by apply (ok_late _ Hs).
Qed.
Lemma logic_main_steps_ok old secret key l g g' : logic_ok old secret key g →
  match l with LSelectDone | LSelectResult _ | LShutdown | LTakeRpc | LForce => True | _ => False end →
  logic_step old l g = Some g' → logic_ok old secret key g'.
Proof.
  intros [] Hl Hs. destruct l; try done; logic_cases Hs g Hpc; constructor; cbn in *; try done; try tauto.
  - by apply take_result_ok.
  - by apply server_drain_ok.
  - split_and!; [tauto|done|]. intros Hst. destruct ok_at0 as [_ Hn]. congruence.
  - destruct ok_at0 as (?&?&?). by split_and!.
  - by apply stop_rpc_ok.
Qed.

(** The deferred calls. *)
Lemma expand_app ds es : expand (ds ++ es) = (expand ds ++ expand es)%list.
Proof. apply flat_map_app. Qed.
(** Each has its effect and keeps those before it. *)
Lemma run_deferred_expands d ds more g g' : run_deferred d g = Some (more, g') → expand (d :: ds) = d :: expand (more ++ ds).
Proof. destruct d; cbn; try (by intros [= <- _]). by destruct (workers g); [intros [= <- _]|]. Qed.
Lemma logic_run_deferred_effect old key before d es more g g' : all_calls old = (before ++ d :: es)%list →
  run_deferred d g = Some (more, g') → (before = [] → key = "") → Forall (effect key g) before →
  Forall (effect key g') (before ++ [d]) ∧ (JoinService ∈ es → all_open g → all_open g')
  ∧ (active (proc g) = true → active (proc g') = true ∨ es = [])
  ∧ (JoinService ∈ more → cancelled g' = true) ∧ (cancelled g = true → cancelled g' = true) ∧ srv g' = srv g.
Proof.
  intros Hb Hd Hk Hall. rewrite !list_elem_of_In. unfold all_open.
  do 9 (destruct before as [|? before]; cbn in Hb;
    [injection Hb as <- <-; cbn in Hd; try (destruct (workers g) eqn:?; [|done]); injection Hd as <- <-;
     cbn; rewrite !Forall_cons in *; cbn in *; intuition (auto using Forall_nil_2; discriminate)
    |injection Hb as <- Hb]).
  destruct before; discriminate Hb.
Qed.
Lemma logic_defer_ok old secret key g g' : logic_ok old secret key g → logic_step old LDefer g = Some g' → logic_ok old secret key g'.
Proof.
  intros [Hs Hat Hc Ha Hj] Hst. unfold logic_step in Hst. destruct (pc g) as [| | | | |[|d ds] r|] eqn:Hp; try done.
  { injection Hst as <-. constructor; cbn in *; try done; tauto. }
  destruct (run_deferred d g) as [[more g1]|] eqn:Hd; [|done]. injection Hst as <-. cbn in *.
  destruct Hc as (Ho&before&Hb&Hall&Hk). pose proof (run_deferred_expands d ds _ _ _ Hd) as He. cbn in He. rewrite He in *.
  destruct (logic_run_deferred_effect _ _ _ _ _ _ _ _ Hb Hd Hk Hall) as (Hall'&Ho'&Ha'&Hj'&Hcan&Hsrv).
  constructor; cbn; try (by rewrite Hsrv).
  - split; [intros Hin; apply Ho'; [done|]; apply Ho; by apply list_elem_of_further|].
    exists (before ++ [d])%list. rewrite <-app_assoc. split_and!; [done|done|]. by destruct before.
  - destruct Ha as [Ha|]; [|done]. destruct (Ha' Ha) as [|Hes]; [by left|]. right. f_equal.
    destruct (more ++ ds)%list as [|[] ?]; done.
  - intros [Hin|Hin]%elem_of_app; [auto|]. apply Hcan, Hj. by apply list_elem_of_further.
Qed.
Lemma logic_step_ok old secret key l g g' : logic_ok old secret key g → logic_step old l g = Some g' → logic_ok old secret key g'.
Proof.
  intros Hok Hs. destruct l; try (refine (logic_main_steps_ok _ _ _ _ _ _ Hok _ Hs); exact I).
  - by eapply server_label_ok.
  - by eapply logic_signal_ok.
  - by eapply worker_ok.
  - by eapply take_http_ok.
  - by eapply logic_defer_ok.
Qed.
Lemma logic_reachable_ok `{External} c a p g : reachable c a p g →
  logic_ok (RedisClient p) (config.JWTSecret (LogicApp.Base c)) (key_left c a p) g.
Proof. induction 1; [by eapply logic_start_ok|by eapply logic_step_ok]. Qed.

(** ** What is open while somebody uses it *)

Lemma calls_before {A} (P : A → Prop) before ds (x : A) : x ∈ (before ++ ds)%list → Forall P before → x ∈ ds ∨ P x.
Proof. intros [Hx|Hx]%elem_of_app Hall; [|by left]. right. rewrite Forall_forall in Hall. auto. Qed.

(** ** A Logic that was told to stop can stop *)

Definition stops (old : option nat) (g : logic) : Prop := ∃ ls g' r, logic_run old ls g = Some g' ∧ pc g' = PReturned r.
Lemma logic_stops_step old l g g' : logic_step old l g = Some g' → stops old g' → stops old g.
Proof. intros Hs (ls&g1&r&Hr&Hp). exists (l :: ls), g1, r. split; [|done]. cbn [logic_run]. by rewrite Hs. Qed.
Lemma logic_stops_servers old ls g s : server_run ls (srv g) = Some s → SUpgrade ∉ ls → stops old (set_srv s g) → stops old g.
Proof.
  revert g. induction ls as [|l ls IH]; intros g Hr Hn Hst; cbn [server_run] in Hr.
  - injection Hr as <-. by destruct g.
  - apply not_elem_of_cons in Hn as [Hl Hn]. destruct (server_step l (srv g)) as [s1|] eqn:Hs; [|done].
    apply (logic_stops_step old (LServer l) g (set_srv s1 g)); [|by apply IH]. unfold logic_step. rewrite Hs. by destruct l.
Qed.
Lemma workers_end old g : cancelled g = true → stops old (set_workers 0 true g) → stops old g.
Proof.
  remember (workers g) as n eqn:Hn. revert g Hn. induction n as [|n IH]; intros g Hn Hc Hst.
  - destruct g; cbn in *; by subst.
  - apply (logic_stops_step old LWorkerEnds _ (set_workers n true g)); [unfold logic_step; by rewrite <-Hn, Hc|]. by apply IH.
Qed.
Lemma logic_defers_stop old ds r g : pc g = PDefer ds r → (JoinService ∈ ds → cancelled g = true) → stops old g.
Proof.
  revert g. induction ds as [|d ds IH]; intros g Hp Hj.
  { apply (logic_stops_step old LDefer _ (set_pc (PReturned r) g)); [unfold logic_step; by rewrite Hp|]. by exists [], (set_pc (PReturned r) g), r. }
  assert (JoinService ∈ ds → cancelled g = true) as Hj' by (intros; apply Hj; by apply list_elem_of_further).
  destruct d; try (eapply (logic_stops_step old LDefer); [unfold logic_step; rewrite Hp; reflexivity|]; by apply IH).
  - eapply (logic_stops_step old LDefer); [unfold logic_step; rewrite Hp; reflexivity|]. apply workers_end; [done|].
    eapply (logic_stops_step old LDefer); [reflexivity|]. by apply IH.
  - apply workers_end; [apply Hj; by apply list_elem_of_here|].
    eapply (logic_stops_step old LDefer); [unfold logic_step; cbn; rewrite Hp; reflexivity|]. apply IH; [done|]. by intros _.
Qed.
Lemma no_upgrade s : SUpgrade ∉ servers_finish s.
Proof.
  unfold servers_finish, everybody_leaves. rewrite !elem_of_app, !elem_of_replicate.
  intros [[[? _]|[[? _]|[? _]]]|[Hr|Hr]]; try done; [destruct (rpc_done s)|destruct (http_answer s)];
    rewrite list_elem_of_In in Hr; cbn in Hr; intuition discriminate.
Qed.
Lemma logic_http_stops old r g : pc g = PHttp r → is_Some (http_answer (srv g)) → stops old g.
Proof.
  intros Hp [[] Ha]; (eapply (logic_stops_step old LTakeHttp); [unfold logic_step; rewrite Hp, Ha; reflexivity|]);
    (eapply logic_defers_stop; [reflexivity|]; rewrite list_elem_of_In; cbn; intuition discriminate).
Qed.
Lemma logic_drain_stops old g : (∃ r, pc g = PDrain r ∨ pc g = PForced r ∨ pc g = PHttp r) → draining (srv g) = true → stops old g.
Proof.
  intros (r&Hp) Hd. destruct (servers_can_finish _ Hd) as (s&Hr&Hdone&Ha&_). apply (logic_stops_servers old _ _ _ Hr); [apply no_upgrade|].
  destruct Hp as [Hp|[Hp|Hp]]; [| |by apply (logic_http_stops old r)];
    (eapply (logic_stops_step old LTakeRpc); [unfold logic_step; cbn; rewrite Hp, Hdone; reflexivity|by eapply logic_http_stops]).
Qed.
Lemma logic_shutdown_stops old r g : pc g = PShutdown r → stops old g.
Proof.
  intros Hp. eapply (logic_stops_step old LShutdown); [unfold logic_step; rewrite Hp; reflexivity|].
  apply logic_drain_stops; [exists r; by left|done].
Qed.

Lemma Logic_can_stop `{External} c a p g : reachable c a p g →
  ∃ ls g' r, logic_run (RedisClient p) (LSignal :: ls) g = Some g' ∧ pc g' = PReturned r.
Proof.
  intros Hg%logic_reachable_ok. destruct (logic_step (RedisClient p) LSignal g) as [g1|] eqn:Hs; [|done].
  pose proof (logic_signal _ _ _ Hs) as Hg1. pose proof (logic_signal_ok _ _ _ _ _ Hg Hs) as Hok.
  assert (stops (RedisClient p) g1) as (ls&g'&r&Hr&Hp).
  2: { exists ls, g', r. split; [|done]. cbn [logic_run]. by rewrite Hs. }
  assert (signalled g1 = true) as Hsig by (by subst g1). clear Hs Hg1 Hg. destruct Hok as [_ Hat _ _ Hj].
  destruct (pc g1) as [|r|r|r|r|ds r|r] eqn:Hp; cbn in *.
  - eapply logic_stops_step with (l := LSelectDone); [unfold logic_step; rewrite Hp, Hsig; reflexivity|]. by eapply logic_shutdown_stops.
  - by eapply logic_shutdown_stops.
  - apply logic_drain_stops; [eauto|tauto].
  - apply logic_drain_stops; [eauto|tauto].
  - apply logic_drain_stops; [eauto|tauto].
  - by eapply logic_defers_stop.
  - by exists [], g1, r.
Qed.

(** ** A loaded configuration starts *)

Lemma Logic_starts `{External} {Laws : ExternalLaws _} file env c db ok schema p :
  LogicApp.LoadConfig file env = Some c → LogicDatabase.verifySchema ok schema = None → active p = false → GormDB p = None →
  ∃ g, start c (MkAnswers false (Some db) ok schema true true) p = Running g
    ∧ pc g = PSelect ∧ proc g = MkProcess true (Some db) None (config.JWTSecret (LogicApp.Base c)).
Proof.
  intros Hl Hv Ha Hn. destruct (logic_config_starts _ _ _ Hl) as (routes&publisher&svc&Hr&Hp&Hs&_).
  apply logic_config_valid in Hl. pose proof (logic_database_valid _ Hl) as Hd. unfold start, LogicDatabase.openDatabase.
  cbn [ctx_over database queries LogicRun.schema http_ok rpc_ok]. rewrite Hl, Ha, Hn, Hr, Hp, Hs, Hv, Hd. cbn. eauto.
Qed.

(** The run of an example: a request and a call are served while the process is told to stop. *)
Definition sample_run : list logic_label :=
  [LServer SRequest; LServer SCall; LSignal; LSelectDone; LShutdown; LServer SCallEnds; LServer SGraceful; LTakeRpc;
   LServer SRequestEnds; LServer (SShutdown true); LTakeHttp; LDefer; LDefer; LDefer; LDefer; LWorkerEnds; LWorkerEnds; LWorkerEnds;
   LWorkerEnds; LDefer; LDefer; LDefer; LDefer; LDefer; LDefer].

(** C24: Logic drains first and closes then, in every interleaving of its goroutines and with
    whatever the environment answered while it started.  While a server takes requests, the
    database and the key of the tokens are installed and database, cache and publisher are
    open.  A request still being served later finds them so too, unless the grace period is
    over and the result of [Run] is an error.  Each of the three is closed only when the workers
    of the service are over, and while the database is open no other [Run] of the process
    starts.  When [Run] has returned all is closed; the database of the process is again none
    and its Redis client the old one, the key of the tokens is empty if it served and untouched
    if it stopped earlier; and a return without error means that no request was left.  From
    every state there is a way on to the return of [Run] when it is told to stop. *)
Theorem Logic_drains_first `{External} c a p g : reachable c a p g →
  (http_on (srv g) = true ∨ rpc_on (srv g) = true →
     all_open g ∧ GormDB (proc g) ≠ None ∧ jwtKey (proc g) = config.JWTSecret (LogicApp.Base c))
  ∧ (plain (srv g) ≠ 0%nat ∨ calls (srv g) ≠ 0%nat →
       (all_open g ∧ GormDB (proc g) ≠ None)
       ∨ (deadline (srv g) = true ∧ ∃ e, (∃ ds, pc g = PDefer ds (Some e)) ∨ pc g = PReturned (Some e)))
  ∧ (¬ all_open g → workers g = 0%nat)
  ∧ (db_open g = true → ∀ c' a' g', start c' a' (proc g) ≠ Running g')
  ∧ (∀ r, pc g = PReturned r →
       db_open g = false ∧ redis_open g = false ∧ publisher_open g = false ∧ rpc_listening g = false ∧ http_listening g = false
       ∧ workers g = 0%nat ∧ off (srv g) ∧ (r = None → empty (srv g))
       ∧ proc g = MkProcess false None (RedisClient p) (key_left c a p))
  ∧ ∃ ls g' r, logic_run (RedisClient p) (LSignal :: ls) g = Some g' ∧ pc g' = PReturned r.
Proof.
  intros Hreach. pose proof (logic_reachable_ok _ _ _ _ Hreach) as [Hs Hat Hc Ha Hj]. split_and!; [..|by eapply Logic_can_stop].
  - intros Hon. destruct (pc g) eqn:Hp; cbn in *; try (destruct Hat as [[? ?] _]; destruct Hon; congruence);
      destruct Hc as (?&?&?&_); by split_and!.
  - intros Hbusy. destruct (pc g) as [| | | | |ds r|r] eqn:Hp; cbn in *; try (left; tauto); right;
      (destruct Hat as [_ [(_&?&?)|[? Hr]]]; [by destruct Hbusy|]; split; [done|]; destruct r as [x|]; [eauto|done]).
  - intros Ho. destruct (left_over (pc g)) as [ds|]; [|by destruct Hc]. destruct Hc as (Hopen&before&Hb&Hall&_).
    destruct (calls_before (effect (key_left c a p) g) before (expand ds) JoinService) with (2 := Hall) as [Hin|]; [|by destruct Ho; auto|done].
    rewrite <-Hb, list_elem_of_In. cbn. tauto.
  - intros Hdb c' a' g'. unfold start. destruct (negb _); [done|]. destruct (ctx_over a'); [done|].
    destruct Ha as [->|Hl]; [done|]. rewrite Hl in Hc. destruct Hc as (_&before&Hb&Hall&_).
    destruct (calls_before (effect (key_left c a p) g) before (expand []) CloseDatabase) with (2 := Hall) as [Hin|He]; [|by apply not_elem_of_nil in Hin|].
    + rewrite <-Hb, list_elem_of_In. cbn. tauto.
    + cbn in He. congruence.
  - intros r Hp. rewrite Hp in *. cbn in *. destruct Hc as (_&before&Hb&Hall&_). rewrite app_nil_r in Hb. subst before.
    unfold all_calls, expand in Hall. cbn in Hall. rewrite !Forall_cons in Hall. cbn in Hall.
    destruct Hall as ((H1&H2&H3)&?&?&_&?&?&?&?&Hactive&_), Hat as [Hoff He]. split_and!; try done.
    + intros ->. destruct He as [|[_ ?]]; done.
    + destruct (proc g). cbn in *. by subst.
Qed.
Lemma logic_run_reachable `{External} c a p ls g g' : logic_run (RedisClient p) ls g = Some g' → reachable c a p g → reachable c a p g'.
Proof.
  revert g. induction ls as [|l ls IH]; intros g; cbn [logic_run]; [by intros [= ->]|].
  destruct (logic_step (RedisClient p) l g) as [g1|] eqn:Hs; [|done]. intros Hr Hg. apply (IH g1 Hr). by eapply reachable_step.
Qed.
Definition sample_process : process := MkProcess false None (Some 7%nat) "".
Definition sample_catalog : LogicDatabase.catalog :=
  LogicDatabase.MkCatalog ((λ name, LogicDatabase.MkTable name "BASE TABLE") <$> LogicDatabase.expected_tables)
    [LogicDatabase.MkColumn "message" "client_message_id" "NO" "char" (Some 36);
     LogicDatabase.MkColumn "message" "request_fingerprint" "NO" "binary" (Some 32);
     LogicDatabase.MkColumn "message" "recipient_ids" "NO" "json" None]
    [LogicDatabase.MkStatistic "message" 0 "uk_message_sender_client" 2 "client_message_id";
     LogicDatabase.MkStatistic "message" 0 "uk_message_sender_client" 1 "send_id"; LogicDatabase.MkStatistic "message" 0 "PRIMARY" 1 "id"].
Definition sample_answers : answers := MkAnswers false (Some 3%nat) (λ _, true) sample_catalog true true.
Lemma Logic_drains_first_witness :
  ∃ c g0 g, sample_logic_config = Some c ∧ start (H := Reference.external) c sample_answers sample_process = Running g0
  ∧ logic_run (Some 7%nat) sample_run g0 = Some g ∧ pc g = PReturned None
  ∧ proc g = MkProcess false None (Some 7%nat) "" ∧ empty (srv g) ∧ db_open g = false.
Proof.
  destruct sample_logic_config as [c|] eqn:Hc; [|vm_compute in Hc; discriminate].
  destruct (@Logic_starts Reference.external Reference.external_laws _ _ _ 3%nat (λ _, true) sample_catalog sample_process Hc eq_refl eq_refl eq_refl) as (g0&Hg0&_).
  pose proof Hg0 as Hg. pose proof Hc as Hc'. vm_compute in Hc'. injection Hc' as Hc'. rewrite <-Hc' in Hg. vm_compute in Hg. injection Hg as Hg.
  exists c, g0. eexists. split; [reflexivity|]. split; [exact Hg0|]. rewrite <-Hg. split; [vm_compute; reflexivity|]. split; [reflexivity|].
  split; [reflexivity|]. match goal with |- context [empty (srv ?g)] => assert (@reachable Reference.external c sample_answers sample_process g) as Hr end.
  { apply (@logic_run_reachable Reference.external c sample_answers sample_process sample_run g0); [rewrite <-Hg; vm_compute; reflexivity|].
    by constructor. }
  destruct (@Logic_drains_first Reference.external _ _ _ _ Hr) as (_&_&_&_&Hend&_).
  destruct (Hend None eq_refl) as (He&_&_&_&_&_&_&Hq&_). split; [exact (Hq eq_refl)|exact He].
Defined.
End LogicRunProofs.

(** ** The chat server process *)

Module ChatRunProofs.
Import ChatRun.

Definition opened (t : list event) : list resource := omap (λ e, match e with Open r => Some r | _ => None end) t.
Definition closings (t : list event) : list resource := omap (λ e, match e with Close r => Some r | _ => None end) t.
Lemma serve_return a ds t p : ∃ (u : list event) r, serve a ds t p = return_ a r (DCloseChat :: ds) (t ++ Open Chat :: u) p
  ∧ opened u = [] ∧ closings u = [].
Proof.
  unfold serve. destruct (served a) as [[]|]; [by exists [Listen], None|by exists [Listen], (Some ListenFault)|].
  destruct (shutdown_ok a); [exists [Listen; Shutdown], None|exists [Listen; Shutdown], (Some ShutdownFault)]; by rewrite <-app_assoc.
Qed.
Lemma opened_app t u : opened (t ++ u) = (opened t ++ opened u)%list.
Proof. apply omap_app. Qed.
Lemma closings_app t u : closings (t ++ u) = (closings t ++ closings u)%list.
Proof. apply omap_app. Qed.
(** What is left to close when [t] happened: its deferred calls close all that was opened, the
    last one first. *)
Definition balanced (a : answers) (ds : list deferred) (t : list event) (p : process) : Prop :=
  closings t = [] ∧ ∃ u, finish a ds p = (u, MkProcess None None None) ∧ opened u = [] ∧ closings u = reverse (opened t).
Definition clean (x : list event * process * option fault) : Prop :=
  closings x.1.1 = reverse (opened x.1.1) ∧ x.1.2 = MkProcess None None None.
Lemma return_clean a r ds t p : balanced a ds t p → clean (return_ a r ds t p).
Proof.
  intros (Ht&u&Hf&Hu&Hc). unfold clean, return_. rewrite Hf. cbn. by rewrite opened_app, closings_app, Ht, Hu, Hc, app_nil_r.
Qed.
Lemma serve_clean a ds t p : balanced a ds t p → clean (serve a ds t p).
Proof.
  intros (Ht&u&Hf&Hu&Hc). destruct (serve_return a ds t p) as (v&r&->&Hv&Hv'). apply return_clean. split.
  - rewrite closings_app, Ht. exact Hv'.
  - exists (Close Chat :: u). cbn. rewrite Hf. split; [done|]. split; [exact Hu|]. rewrite opened_app, reverse_app. cbn.
    change (omap _ u) with (closings u). change (omap _ v) with (opened v). by rewrite Hv, Hc.
Qed.
Lemma kafka_clean c a ds t p : PublishChatEvent p = None → balanced a ds t p → clean (with_kafka c a ds t p).
Proof.
  intros Hp Hb. unfold with_kafka. destruct (_ && _); [|by apply serve_clean].
  destruct (New c a) as [k|]; [|destruct (config.KafkaRequired c); [by apply return_clean|by apply serve_clean]].
  apply serve_clean. destruct Hb as (Ht&u&Hf&Hu&Hc). destruct p as [g r pub]. cbn in *. subst pub. split.
  - by rewrite closings_app, Ht.
  - exists (Close (Kafka k) :: u). cbn. rewrite Hf. split; [done|]. split; [exact Hu|]. rewrite opened_app, reverse_app. cbn.
    change (omap _ u) with (closings u). by rewrite Hc.
Qed.
(** Whatever fails, what the process opened is closed, the last one first, and the variables are
    nil again, if the database closes. *)
Theorem chat_run_clean cfg a : gorm_closes a = true → clean (run cfg a (MkProcess None None None)).
Proof.
  intros Hg. unfold run. destruct cfg as [c|]; [|done]. unfold InitGorm. cbn [GormDB].
  destruct (gorm a) as [k|]; [|done]. cbn [RedisClient PublishChatEvent].
  assert (balanced a [DCloseGorm] ([InitJWT (config.JWTSecret c)] ++ [Open (Gorm k)]) (MkProcess (Some k) None None)) as Hb.
  { split; [done|]. exists [Close (Gorm k)]. cbn. by rewrite Hg. }
  destruct (config.RedisEnabled (config.Redis c)) eqn:He; cbn [negb]; [|by apply kafka_clean].
  unfold InitRedis. rewrite He. cbn [negb RedisClient GormDB PublishChatEvent]. destruct (ping a) as [n|].
  - apply kafka_clean; [done|]. split; [done|]. exists [Close (Redis n); Close (Gorm k)]. cbn. by rewrite Hg.
  - destruct (config.RedisRequired _); [by apply return_clean|]. apply kafka_clean; [done|]. split; [done|].
    exists [Close (Gorm k)]. cbn. by rewrite Hg.
Qed.
End ChatRunProofs.
